(* ===== verification/_CoqProject ===== *)
-Q . S2P
Prelude.v
Pow2.v
Memory.v
Decimal.v
RingQueue.v
DoubleLinkedList.v
SlotsBitmap.v
SlotsBitmapMpmc.v
Transaction.v
HashtableMcmp.v
HashtableMcmpLemmas.v
HashtableMcmpSpec.v
HashtableMcmpRefine.v
HashtableMcmpIter.v
HashtableSpsc.v
HashtableSpscSpec.v
HashtableSpscRefine.v
Network.v
RedisInfo.v
RedisWriter.v
RedisReader.v
RdbPrimitive.v
RdbLoad.v
RdbSpec.v
SnapshotRdb.v
EntryStatus.v
Eviction.v
UtilsString.v
StorageDb.v
StorageDbChunks.v
StorageDbHeap.v
StorageDbMap.v
StorageDbOps.v
StorageDbRefine.v
StorageDbScan.v
Config.v
ConfigLoad.v
RedisArguments.v
RedisArgumentsSpec.v
RedisConnection.v
RedisConnectionSpec.v
StorageDbEvict.v
RedisCommands.v
RedisCommandsRules.v
RedisCommandsSpec.v
