(* ===== verification/Prelude.v ===== *)
(** * A verification of cachegrand

    cachegrand is a key-value store that speaks the Redis protocol.  A worker
    thread receives bytes from a connection, the protocol reader cuts them into
    the arguments of a command, the command runs on the storage database, which
    keeps its entries in a concurrent hashtable under the locks of a
    transaction, and the protocol writer encodes the reply.  Lists, rings, slot
    bitmaps and a single-thread hashtable support these parts; a snapshot saves
    the database in the RDB format of Redis, which the loader reads back.

    ** How the code is modelled

    Every definition is executable and follows one function of the source,
    whose name it keeps; paths below are relative to src/src.  Machine integers
    are [Z], and a result that can leave its width is wrapped where C wraps it
    ([u8] ... [u64], [i32], [i64] below).  A failed assert, FATAL, an access
    outside an array or a buffer, and undefined behaviour are [None] of the
    outer [option]; a NULL or an error code returned by the code is a value.
    Memory that two parties share is explicit: a heap of items for the linked
    list, the buffer of the writer, the lock words of the chunks.  xalloc_alloc
    aborts the process instead of returning NULL, so allocations succeed.

    Third-party code is a parameter: the hash function of the database
    ([hash_fn]), liblzf ([lzf_compress], [lzf_decompress]), the write of a
    file ([storage_write]), the sockets and mbedtls ([Transport]) and strtold
    ([strtold]).

    ** Files

    - [Prelude]: machine integers, [zlen] and reads and updates of lists at an
      integer index, the tactics and the hint database [cg].
    - [Pow2]: pow2.h.  [Memory]: bounded byte buffers.  [Decimal]: decimal
      numerals, strtol and strtoull.
    - [RingQueue]: data_structures/ring_bounded_queue_spsc.  As one thread
      runs it, the ring refines a bounded FIFO; with enqueue and dequeue split
      at their fences, every interleaving of a producer and a consumer keeps
      the FIFO order.
    - [DoubleLinkedList]: data_structures/double_linked_list.  The pointer
      operations refine operations on sequences, and iterations terminate.
    - [SlotsBitmap]: data_structures/slots_bitmap_spsc.  The two-level bitmap
      refines an allocator of the least free slot.
    - [SlotsBitmapMpmc]: data_structures/slots_bitmap_mpmc.  A thread is a
      program counter between two atomic operations and a run any sequence of
      steps of threads: without releases no slot is handed out twice, with them
      it can be; a thread alone does what the single-thread bitmap does.
    - [Transaction]: transaction.h and transaction.c.  The class [LockStore]
      is what the transactions need of the structure that holds the lock words
      (the hashtable provides it).  A step relation of any number of threads on
      a lock has mutual exclusion as an invariant; a release restores the
      locks; identifiers are distinct.
    - [HashtableMcmp] (definitions), [HashtableMcmpLemmas], [HashtableMcmpSpec],
      [HashtableMcmpRefine], [HashtableMcmpIter]:
      data_structures/hashtable/mcmp.  The invariant of the table, each
      operation against a finite map keyed by (database, key), whole sequences
      of commands, each in its own transaction, and the iteration.
    - [HashtableSpsc] (definitions), [HashtableSpscSpec], [HashtableSpscRefine]:
      data_structures/hashtable/spsc and hash/hash_fnv1.h.  The class [SpscKey]
      is what the proofs need of a kind of key; the four kinds of the code are
      instances and share one refinement.
    - [RedisWriter], [RedisReader]: protocol/redis.  The writers emit the RESP
      encoding inside their buffer or report that it does not fit; the reader
      gives back the arguments of an encoded command however it is cut into
      packets, and stays in bounds on any input.
    - [RdbPrimitive], [RdbLoad], [RdbSpec]: module/redis/snapshot.  Encoders
      and loader, and the round trip of lengths, strings and integers.
    - [SnapshotRdb]: storage/db/storage_db_snapshot.c on the write side of the
      buffered channel of storage/storage_buffered.{h,c}: the round trip of a
      whole file.
    - [EntryStatus]: the status word of an entry of storage/db/storage_db.c, its
      readers and its deletion: as operations on the word, and as a step
      relation of any number of readers and the thread that deletes it.
    - [StorageDb] (definitions), [StorageDbHeap], [StorageDbMap], [StorageDbOps],
      [StorageDbRefine]: storage/db/storage_db.c and storage_db_counters.h with
      the memory backend, on the hashtable, the ring and the transactions above.
      The entries are a heap with pointers; the invariant says which of them the
      table, the readers, the deleting list and the ring buffer hold.  The
      database refines a map of values with an expiry.
    - [StorageDbChunks]: the values as sequences of chunks, the values APPEND and
      SETRANGE build (module/redis/command), the range of a value a reply sends
      and the chunks an argument is received in (module/redis/
      module_redis_command.c).
    - [RedisCommands]: the commands of module/redis/command on strings and keys,
      in a monad over the database, the transaction manager and the transaction.
      [RedisCommandsRules] has the rules of the monad and of its actions, on a
      map from keys to bytes, and [RedisCommandsSpec] the specification of the
      commands on one key and the refinement of any sequence of them.
    - [Eviction]: the sort of the candidates of the eviction, by the zero-one
      principle on the network its loops execute.
    - [UtilsString]: utils_string*.c.  The AVX2 comparisons agree with the
      portable ones, the glob matcher with a recursive definition, the
      conversion of integers with their decimal forms.
    - [Config], [ConfigLoad]: config.c, with the parts of module/module.c,
      module/redis/module_redis_config.c and program.c that use the
      configuration.  [Config] has the parsers of times, sizes and CPU
      selectors on NUL terminated buffers; [ConfigLoad] the structures, the
      validations, the conversion of the settings and what of them reaches the
      database.
    - [StorageDbScan]: what scans the database in storage/db/storage_db.c and
      storage_db_counters.c: the sums of the counters, KEYS and SCAN, RANDOMKEY
      and FLUSHDB.  The enumeration is complete and without repetition; the
      flush removes the keys created until it started.
    - [StorageDbEvict]: the run of the eviction, storage_db_keys_eviction_
      run_worker.  Its deletions keep the invariants of the database; where it
      looks for candidates and when it does not end are theorems too.  The
      random numbers are a list, which is also the fuel of the search.
    - [Network]: network/network.c, the receive and send of
      network/network_tls.c, the buffers of network/channel.  The class
      [Transport] is what is behind a channel (the sockets and mbedtls) and
      [TransportOk] what the theorems ask of it; what is sent arrives in order.
    - [RedisInfo]: the descriptions of the commands in module/redis/
      module_redis.h and module/redis/module_redis_commands.{c,h}: the tables of
      the commands and of their tokens, on the single-thread hashtable.
    - [RedisArguments] (definitions), [RedisArgumentsSpec]: the parser of the
      arguments of module/redis/module_redis_command.{c,h}.  The context of a
      command is a heap of typed cells at the addresses the descriptions give;
      a grammar of the arguments says what it has to hold.
    - [RedisConnection] (definitions), [RedisConnectionSpec]: module/redis/
      module_redis_connection.c, the helpers of AUTH and the inline functions of
      module_redis_command.h: the loop of a connection, from the packets to the
      reader, the tables, the parser of the arguments, the commands and the
      replies.  What a command does at its end is a parameter with an
      interface, the class [CommandsKeep].

    ** Theorems

    Refinements state that any sequence of operations from the created state
    runs without [None] and answers as the abstract structure does; safety of
    concurrent code is an invariant proved by induction on the steps; round
    trips compose an encoder and a decoder.  A last group proves, of the code as
    it is, behaviour that departs from what its interface or its comments say:
    aliasing of keys with a NUL byte, max_distance not enforced, the fatal error
    of upsize, reads or stores outside a buffer, the buckets a snapshot misses,
    the expired keys a read leaves, patterns and numbers read wrong, the slots
    EXPIRE loses and the readers APPEND keeps, the candidates the eviction
    cannot find, the beginnings of a password that authenticate, the bytes a
    short write of mbedtls loses.

    ** Fuel

    Loops of the source that are not structural take fuel, and the theorems
    state that the fuel given by the definitions is enough: the number of
    chunks for the searches, the buckets for the iterations, the length of the
    input for the reader and the loader, 20 digits for a 64-bit number, the
    number of items for a list.  Running out of fuel is [None], which the
    theorems exclude.

    ** Not modelled

    Doubles and printf formats; the vectorised searches of the hashtable
    (represented by the loop they implement); the file backend of the database
    and its shards; the resize of the concurrent hashtable, which no code
    path starts; the set-up of sockets, listeners and TLS, io_uring, fibers,
    the YAML schema and logging, which are calls of the operating system and of
    libraries; the commands on the server; the Prometheus module; the radix
    tree, which derives from a library.  The hashtable is modelled one
    transaction at a time on top of the locks, whose interleavings are
    modelled in [Transaction]; interleavings of whole hashtable operations are
    not.  The connection takes the commands as a parameter: [RedisCommands]
    models them on the arguments the parser stores, and the two are not
    composed in a theorem.

    ** Plan

    What is left, in order: the lock-free queue, the composition of the
    connection with the commands, the specification of the commands on several
    keys, and the read-ahead of the buffered channel. *)

From Stdlib Require Import Ascii String.
From Stdlib Require Export ZArith Lia.
From stdpp Require Export base list numbers option relations.

Open Scope Z_scope.

(** An assert of the code: [None] when it fails. *)
Definition check (b : bool) : option unit := if b then Some tt else None.

(** ** Machine integers

    A [w]-bit unsigned C integer is a [Z] in [0, 2^w); a conversion or an
    operation that may leave the range wraps explicitly. *)

Definition wrap (w z : Z) : Z := z `mod` 2 ^ w.
Definition swrap (w z : Z) : Z := (z + 2 ^ (w - 1)) `mod` 2 ^ w - 2 ^ (w - 1).

Abbreviation u8 := (wrap 8).
Abbreviation u16 := (wrap 16).
Abbreviation u32 := (wrap 32).
Abbreviation u64 := (wrap 64).
Abbreviation i8 := (swrap 8).
Abbreviation i32 := (swrap 32).
Abbreviation i64 := (swrap 64).

Definition in_u (w z : Z) : Prop := 0 <= z < 2 ^ w.

Create HintDb cg discriminated.

Lemma wrap_range w z : 0 <= w -> 0 <= wrap w z < 2 ^ w.
Proof. intros Hw. apply Z.mod_pos_bound. apply Z.pow_pos_nonneg; lia. Qed.

Lemma wrap_small w z : 0 <= z < 2 ^ w -> wrap w z = z.
Proof. apply Z.mod_small. Qed.

Lemma wrap_wrap w z : 0 <= w -> wrap w (wrap w z) = wrap w z.
Proof. intros Hw. apply wrap_small. by apply wrap_range. Qed.

Lemma wrap_add_l w a b : 0 <= w -> wrap w (wrap w a + b) = wrap w (a + b).
Proof. intros Hw. unfold wrap. apply Zplus_mod_idemp_l. Qed.

Lemma wrap_add_r w a b : 0 <= w -> wrap w (a + wrap w b) = wrap w (a + b).
Proof. intros Hw. unfold wrap. apply Zplus_mod_idemp_r. Qed.

Lemma wrap_sub_l w a b : 0 <= w -> wrap w (wrap w a - b) = wrap w (a - b).
Proof. intros Hw. unfold wrap. apply Zminus_mod_idemp_l. Qed.

Lemma wrap_sub_r w a b : 0 <= w -> wrap w (a - wrap w b) = wrap w (a - b).
Proof. intros Hw. unfold wrap. apply Zminus_mod_idemp_r. Qed.

(** [wrap] erases multiples of the modulus. *)
Lemma wrap_eq_add w a b k : 0 <= w -> a = b + k * 2 ^ w -> wrap w a = wrap w b.
Proof. intros Hw ->. unfold wrap. apply Z_mod_plus_full. Qed.

Lemma swrap_small w z : 0 < w -> - 2 ^ (w - 1) <= z < 2 ^ (w - 1) -> swrap w z = z.
Proof.
  intros Hw Hz. unfold swrap.
  assert (2 ^ w = 2 * 2 ^ (w - 1)) as Hp.
  { rewrite <- Z.pow_succ_r by lia. f_equal. lia. }
  rewrite Z.mod_small; lia.
Qed.

Lemma swrap_range w z : 0 < w -> - 2 ^ (w - 1) <= swrap w z < 2 ^ (w - 1).
Proof.
  intros Hw. unfold swrap. pose proof (Z.mod_pos_bound (z + 2 ^ (w - 1)) (2 ^ w) ltac:(apply Z.pow_pos_nonneg; lia)).
  assert (2 ^ w = 2 * 2 ^ (w - 1)) by (rewrite <- Z.pow_succ_r by lia; f_equal; lia). lia.
Qed.

Lemma swrap_eq_add w a b k : a = b + k * 2 ^ w -> swrap w a = swrap w b.
Proof.
  intros ->. unfold swrap. replace (b + k * 2 ^ w + 2 ^ (w - 1)) with (b + 2 ^ (w - 1) + k * 2 ^ w) by ring.
  by rewrite Z_mod_plus_full.
Qed.

(** A mask of the form [2^k - 1] takes a residue. *)
Lemma land_pow2_mask x k : 0 <= k -> Z.land x (2 ^ k - 1) = x `mod` 2 ^ k.
Proof.
  intros Hk. replace (2 ^ k - 1) with (Z.ones k) by (rewrite Z.ones_equiv; lia).
  by apply Z.land_ones.
Qed.

(** A residue of a wrapped value by a smaller power of two is the residue of
    the value. *)
Lemma wrap_mod_pow2 w x k : 0 <= k <= w -> wrap w x `mod` 2 ^ k = x `mod` 2 ^ k.
Proof.
  intros Hk. unfold wrap.
  replace (2 ^ w) with (2 ^ k * 2 ^ (w - k)) by (rewrite <- Z.pow_add_r by lia; f_equal; lia).
  rewrite Z.rem_mul_r by (try apply Z.pow_nonzero; lia).
  rewrite Z.mul_comm, Z_mod_plus_full. apply Z.mod_mod. apply Z.pow_nonzero; lia.
Qed.

(** Evaluates the powers of two of the machine widths, so that [lia] sees
    numerals. *)
Ltac pow2s :=
  repeat match goal with
  | |- context [2 ^ ?n] => let v := eval vm_compute in (2 ^ n) in
      lazymatch v with Z.pos _ => change (2 ^ n) with v end
  | H : context [2 ^ ?n] |- _ => let v := eval vm_compute in (2 ^ n) in
      lazymatch v with Z.pos _ => change (2 ^ n) with v in H end
  end.

Ltac mach_lia := unfold in_u in *; pow2s; lia.

(** ** Bytes and byte strings *)

Definition is_byte (z : Z) : Prop := 0 <= z < 256.

Definition ch (a : ascii) : Z := Z.of_N (N_of_ascii a).

Fixpoint bytes_of (s : string) : list Z :=
  match s with
  | EmptyString => []
  | String a s' => ch a :: bytes_of s'
  end.

Arguments bytes_of s%_string_scope.

(** [char] is signed on the platforms the server targets (x86-64): a byte
    read through a [char *] is sign-extended. *)
Definition schar (z : Z) : Z := swrap 8 z.

(** ** Lists addressed by machine integers *)

Definition zlen {A} (l : list A) : Z := Z.of_nat (length l).

Definition zget {A} (l : list A) (i : Z) : option A :=
  if i <? 0 then None else l !! Z.to_nat i.

Definition zset {A} (l : list A) (i : Z) (x : A) : list A :=
  if i <? 0 then l else <[Z.to_nat i := x]> l.

Section zlists.
Context {A : Type}.
Implicit Types (l : list A) (i j : Z) (x : A).

Lemma zlen_zset l i x : zlen (zset l i x) = zlen l.
Proof. unfold zlen, zset. case_match; [done|]. by rewrite length_insert. Qed.

Lemma zget_zset_eq l i x : 0 <= i < zlen l -> zget (zset l i x) i = Some x.
Proof.
  unfold zget, zset, zlen. intros Hi. destruct (Z.ltb_spec i 0); [lia|].
  apply list_lookup_insert_eq. lia.
Qed.

Lemma zget_zset_ne l i j x : i <> j -> zget (zset l i x) j = zget l j.
Proof.
  unfold zget, zset. intros Hne.
  destruct (Z.ltb_spec j 0); [done|]. destruct (Z.ltb_spec i 0); [done|].
  apply list_lookup_insert_ne. lia.
Qed.

Lemma zget_Some_range l i x : zget l i = Some x -> 0 <= i < zlen l.
Proof.
  unfold zget, zlen. destruct (Z.ltb_spec i 0); [done|].
  intros Hl. apply lookup_lt_Some in Hl. lia.
Qed.

Lemma zget_in_range l i : 0 <= i < zlen l -> exists x, zget l i = Some x.
Proof.
  unfold zget, zlen. intros Hi. destruct (Z.ltb_spec i 0); [lia|].
  apply lookup_lt_is_Some. lia.
Qed.

Lemma zget_None l i : zget l i = None <-> i < 0 \/ zlen l <= i.
Proof.
  unfold zget, zlen. destruct (Z.ltb_spec i 0).
  - split; [lia|done].
  - rewrite lookup_ge_None. lia.
Qed.

Lemma zget_app l k i : 0 <= i -> zget (l ++ k) i = if i <? zlen l then zget l i else zget k (i - zlen l).
Proof.
  intros Hi. unfold zget, zlen. destruct (Z.ltb_spec i 0), (Z.ltb_spec i (Z.of_nat (length l))); try lia.
  - apply lookup_app_l. lia.
  - destruct (Z.ltb_spec (i - Z.of_nat (length l)) 0); [lia|]. rewrite lookup_app_r by lia. f_equal. lia.
Qed.

Lemma zlen_nil_inv l : zlen l = 0 -> l = [].
Proof. unfold zlen. by destruct l. Qed.

Lemma zget_replicate n x i : 0 <= i < Z.of_nat n -> zget (replicate n x) i = Some x.
Proof.
  unfold zget. intros Hi. destruct (Z.ltb_spec i 0); [lia|].
  apply lookup_replicate. split; [done|lia].
Qed.

Lemma zlen_replicate n x : zlen (replicate n x) = Z.of_nat n.
Proof. unfold zlen. by rewrite length_replicate. Qed.

Lemma zlen_app l1 l2 : zlen (l1 ++ l2) = zlen l1 + zlen l2.
Proof. unfold zlen. rewrite length_app. lia. Qed.

Lemma zlen_cons x l : zlen (x :: l) = 1 + zlen l.
Proof. unfold zlen. cbn. lia. Qed.

Lemma zlen_nonneg l : 0 <= zlen l.
Proof. unfold zlen. lia. Qed.

Lemma zset_same l i x : zget l i = Some x -> zset l i x = l.
Proof.
  unfold zget, zset. destruct (Z.ltb_spec i 0); [done|]. apply list_insert_id.
Qed.
End zlists.

(** ** Sums over a list: the threads a counter counts *)

Section zsum.
Context {A : Type} (f : A -> Z).

Fixpoint zsum (l : list A) : Z :=
  match l with [] => 0 | x :: l => f x + zsum l end.

Lemma zsum_app l1 l2 : zsum (l1 ++ l2) = zsum l1 + zsum l2.
Proof. induction l1 as [|x l1 IH]; cbn; [done|]. rewrite IH. lia. Qed.

Lemma zsum_insert l t x y : l !! t = Some x -> zsum (<[t := y]> l) = zsum l - f x + f y.
Proof.
  revert t. induction l as [|z l IH]; intros [|t] Ht; try done.
  - injection Ht as ->. cbn. lia.
  - change (<[S t := y]> (z :: l)) with (z :: <[t := y]> l). cbn [zsum]. rewrite (IH t) by done. lia.
Qed.

Context (f_nonneg : forall x, 0 <= f x).

Lemma zsum_nonneg l : 0 <= zsum l.
Proof using f_nonneg. induction l as [|x l IH]; cbn; [lia|]. pose proof (f_nonneg x). lia. Qed.

Lemma zsum_lookup l t x : l !! t = Some x -> f x <= zsum l.
Proof using f_nonneg.
  intros Ht. rewrite <- (take_drop_middle l t x Ht), zsum_app. cbn.
  pose proof (zsum_nonneg (take t l)). pose proof (zsum_nonneg (drop (S t) l)). lia.
Qed.

(** Two different positions are both counted. *)
Lemma zsum_two l t u x y : l !! t = Some x -> l !! u = Some y -> t <> u -> f x + f y <= zsum l.
Proof using f_nonneg.
  intros Ht Hu Hne. rewrite <- (take_drop_middle l t x Ht) in Hu |- *. rewrite zsum_app. cbn [zsum].
  apply lookup_lt_Some in Ht. rewrite lookup_app in Hu.
  destruct (take t l !! u) as [z|] eqn:Hz.
  - injection Hu as ->. pose proof (zsum_lookup _ _ _ Hz). pose proof (zsum_nonneg (drop (S t) l)). lia.
  - apply lookup_ge_None in Hz. rewrite length_take in *.
    destruct (u - t `min` length l)%nat as [|v] eqn:Hv; [lia|]. cbn in Hu.
    replace (u - Nat.min t (length l))%nat with (S v) in Hu by lia. cbn in Hu.
    pose proof (zsum_lookup _ _ _ Hu). pose proof (zsum_nonneg (take t l)). lia.
Qed.
End zsum.

#[export] Hint Resolve zlen_nonneg wrap_range : cg.
Create Rewrite HintDb zlen.
#[export] Hint Rewrite @zlen_zset @zlen_replicate @zlen_app @zlen_cons : zlen.

(** ** Case analysis on the boolean tests of the code *)

Ltac zcase :=
  match goal with
  | |- context [?a =? ?b] => destruct (Z.eqb_spec a b)
  | |- context [?a <? ?b] => destruct (Z.ltb_spec a b)
  | |- context [?a <=? ?b] => destruct (Z.leb_spec a b)
  end.

Ltac zcase_in H :=
  match type of H with
  | context [?a =? ?b] => destruct (Z.eqb_spec a b)
  | context [?a <? ?b] => destruct (Z.ltb_spec a b)
  | context [?a <=? ?b] => destruct (Z.leb_spec a b)
  end.
