(* ===== verification/Pow2.v ===== *)
(** * Pow2: the power-of-two helpers of pow2.h *)

From S2P Require Import Prelude.

Module Pow2.

(** [pow2_next_pow2m1]: smears the highest set bit over the lower ones. *)
Definition pow2_next_pow2m1 (x : Z) : Z :=
  let x := Z.lor x (Z.shiftr x 1) in
  let x := Z.lor x (Z.shiftr x 2) in
  let x := Z.lor x (Z.shiftr x 4) in
  let x := Z.lor x (Z.shiftr x 8) in
  let x := Z.lor x (Z.shiftr x 16) in
  let x := Z.lor x (Z.shiftr x 32) in
  x.

Definition pow2_next (x : Z) : Z := u64 (pow2_next_pow2m1 (u64 (x - 1)) + 1).

Definition pow2_is (x : Z) : bool :=
  negb (x =? 0) && (Z.land x (u64 (x - 1)) =? 0).

(** ** The smearing steps

    [smeared k x y]: bit [i] of [y] is the disjunction of the [k] bits of [x]
    from position [i] upwards. *)
Definition smeared (k x y : Z) : Prop :=
  forall i, 0 <= i ->
    (Z.testbit y i = true <-> exists j, 0 <= j < k /\ Z.testbit x (i + j) = true).

Lemma smeared_refl x : smeared 1 x x.
Proof.
  intros i Hi. split.
  - intros Hb. exists 0. split; [lia|]. by rewrite Z.add_0_r.
  - intros (j & Hj & Hb). by replace (i + j) with i in Hb by lia.
Qed.

Lemma smeared_step k x y :
  0 < k -> smeared k x y -> smeared (k + k) x (Z.lor y (Z.shiftr y k)).
Proof.
  intros Hk Hs i Hi.
  rewrite Z.lor_spec, Z.shiftr_spec by lia. rewrite orb_true_iff.
  rewrite (Hs i) by lia. rewrite (Hs (i + k)) by lia. split.
  - intros [(j & Hj & Hb) | (j & Hj & Hb)].
    + exists j. split; [lia|done].
    + exists (k + j). split; [lia|]. by rewrite Z.add_assoc.
  - intros (j & Hj & Hb). destruct (decide (j < k)).
    + left. exists j. split; [lia|done].
    + right. exists (j - k). split; [lia|].
      by replace (i + k + (j - k)) with (i + j) by lia.
Qed.

Lemma pow2_next_pow2m1_smeared x : smeared 64 x (pow2_next_pow2m1 x).
Proof.
  unfold pow2_next_pow2m1.
  apply (smeared_step 32); [lia|]. apply (smeared_step 16); [lia|].
  apply (smeared_step 8); [lia|]. apply (smeared_step 4); [lia|].
  apply (smeared_step 2); [lia|]. apply (smeared_step 1); [lia|].
  apply smeared_refl.
Qed.

Lemma pow2_next_pow2m1_spec x :
  0 < x < 2 ^ 64 -> pow2_next_pow2m1 x = 2 ^ (Z.log2 x + 1) - 1.
Proof.
  intros Hx.
  assert (0 <= Z.log2 x < 64) as Hl.
  { split; [apply Z.log2_nonneg|]. apply Z.log2_lt_pow2; lia. }
  replace (2 ^ (Z.log2 x + 1) - 1) with (Z.ones (Z.log2 x + 1)) by (rewrite Z.ones_equiv; lia).
  apply Z.bits_inj'. intros i Hi.
  rewrite Z.testbit_ones_nonneg by lia.
  pose proof (pow2_next_pow2m1_smeared x i Hi) as Hs.
  destruct (Z.ltb_spec i (Z.log2 x + 1)) as [Hlt|Hge].
  - apply Hs. exists (Z.log2 x - i). split; [lia|].
    replace (i + (Z.log2 x - i)) with (Z.log2 x) by lia. apply Z.bit_log2. lia.
  - apply not_true_is_false. rewrite Hs. intros (j & Hj & Hb).
    rewrite Z.bits_above_log2 in Hb by lia. done.
Qed.

Lemma pow2_next_pow2m1_0 : pow2_next_pow2m1 0 = 0.
Proof. reflexivity. Qed.

Lemma pow2_next_1 : pow2_next 1 = 1.
Proof. reflexivity. Qed.

Lemma pow2_next_log2 x :
  2 <= x <= 2 ^ 63 -> pow2_next x = 2 ^ (Z.log2 (x - 1) + 1).
Proof.
  intros Hx. unfold pow2_next. rewrite (wrap_small 64 (x - 1)) by mach_lia.
  rewrite pow2_next_pow2m1_spec by mach_lia.
  assert (Z.log2 (x - 1) < 63) by (apply Z.log2_lt_pow2; lia).
  pose proof (Z.log2_nonneg (x - 1)).
  rewrite wrap_small; [lia|].
  assert (2 ^ (Z.log2 (x - 1) + 1) <= 2 ^ 63) by (apply Z.pow_le_mono_r; lia).
  assert (0 < 2 ^ (Z.log2 (x - 1) + 1)) by (apply Z.pow_pos_nonneg; lia). mach_lia.
Qed.

(** [pow2_next x] is the least power of two not below [x]. *)
Lemma pow2_next_least x :
  1 <= x <= 2 ^ 63 ->
  exists k, 0 <= k <= 63 /\ pow2_next x = 2 ^ k /\ x <= 2 ^ k /\
    (forall j, 0 <= j -> x <= 2 ^ j -> k <= j).
Proof.
  intros Hx. destruct (decide (x = 1)) as [->|Hne].
  { exists 0. split; [lia|]. split; [reflexivity|]. split; [done|]. lia. }
  pose proof (Z.log2_nonneg (x - 1)).
  pose proof (Z.log2_spec (x - 1) ltac:(lia)) as [Hlo Hhi].
  assert (Z.log2 (x - 1) < 63) by (apply Z.log2_lt_pow2; lia).
  exists (Z.log2 (x - 1) + 1). split; [lia|].
  split; [apply pow2_next_log2; lia|]. rewrite <- Z.add_1_r in Hhi. split; [lia|].
  intros j Hj Hxj. assert (Z.log2 (x - 1) < j); [|lia].
  apply (Z.pow_lt_mono_r_iff 2); lia.
Qed.

Lemma pow2_is_pow2 k : 0 <= k < 64 -> pow2_is (2 ^ k) = true.
Proof.
  intros Hk. assert (0 < 2 ^ k) by (apply Z.pow_pos_nonneg; lia).
  assert (2 ^ k < 2 ^ 64) by (apply Z.pow_lt_mono_r; lia).
  unfold pow2_is. rewrite wrap_small by lia.
  rewrite land_pow2_mask, Z_mod_same_full by lia.
  destruct (Z.eqb_spec (2 ^ k) 0); [lia|done].
Qed.

(** [pow2_is x] decides whether the 64-bit value [x] is a power of two. *)
Lemma pow2_is_spec x :
  0 <= x < 2 ^ 64 -> pow2_is x = true <-> exists k, 0 <= k < 64 /\ x = 2 ^ k.
Proof.
  intros Hx. split.
  - unfold pow2_is. intros [Hnz%negb_true_iff Hz]%andb_true_iff.
    apply Z.eqb_neq in Hnz. apply Z.eqb_eq in Hz.
    rewrite wrap_small in Hz by lia.
    pose proof (Z.log2_spec x ltac:(lia)) as [Hlo Hhi].
    pose proof (Z.log2_nonneg x).
    exists (Z.log2 x). split; [split; [lia|]; apply Z.log2_lt_pow2; lia|].
    destruct (decide (x = 2 ^ Z.log2 x)); [done|]. exfalso.
    assert (Z.log2 (x - 1) = Z.log2 x) as Hl by (apply Z.log2_unique; lia).
    assert (Z.testbit (Z.land x (x - 1)) (Z.log2 x) = true) as Hb.
    { rewrite Z.land_spec, Z.bit_log2 by lia. rewrite <- Hl. rewrite Z.bit_log2; [done|lia]. }
    rewrite Hz, Z.bits_0 in Hb. done.
  - intros (k & Hk & ->). by apply pow2_is_pow2.
Qed.

End Pow2.
