(* ===== verification/Memory.v ===== *)
(** * Memory: byte buffers with bounds

    A buffer is a list of bytes; a store or a copy outside it is [None]. *)

From S2P Require Import Prelude.

Module Memory.

Definition mem := list Z.

Definition store (m : mem) (i x : Z) : option mem :=
  if (0 <=? i) && (i <? zlen m) then Some (zset m i x) else None.

(** [m] with the bytes [bs] at position [pos]. *)
Definition splice (m : mem) (pos : Z) (bs : list Z) : mem :=
  take (Z.to_nat pos) m ++ bs ++ drop (Z.to_nat pos + length bs) m.

Definition memcpy (m : mem) (pos : Z) (bs : list Z) : option mem :=
  if (0 <=? pos) && (pos + zlen bs <=? zlen m) then Some (splice m pos bs) else None.

Lemma splice_length m pos bs :
  0 <= pos -> pos + zlen bs <= zlen m -> zlen (splice m pos bs) = zlen m.
Proof.
  intros Hp Hl. unfold splice, zlen in *. rewrite !length_app, length_take, length_drop. lia.
Qed.

Lemma splice_nil m pos : splice m pos [] = m.
Proof. unfold splice. cbn. rewrite Nat.add_0_r. apply take_drop. Qed.

(** Writing [bs2] after [bs1]. *)
Lemma splice_app m pos bs1 bs2 :
  0 <= pos -> pos + zlen bs1 + zlen bs2 <= zlen m ->
  splice (splice m pos bs1) (pos + zlen bs1) bs2 = splice m pos (bs1 ++ bs2).
Proof.
  intros Hp Hl. unfold splice, zlen in *.
  set (a := take (Z.to_nat pos) m).
  assert (length a = Z.to_nat pos) as Ha by (unfold a; rewrite length_take; lia).
  replace (Z.to_nat (pos + Z.of_nat (length bs1))) with (length a + length bs1)%nat by lia.
  rewrite (app_assoc a bs1), take_app_length' by (rewrite length_app; lia).
  rewrite <- !app_assoc. f_equal. f_equal. f_equal.
  rewrite (app_assoc a bs1), drop_app_ge by (rewrite length_app; lia).
  rewrite drop_drop. f_equal. rewrite !length_app. lia.
Qed.

Lemma store_splice m i x : 0 <= i < zlen m -> store m i x = Some (splice m i [x]).
Proof.
  intros Hi. unfold store, splice, zset, zlen in *.
  destruct (Z.leb_spec 0 i), (Z.ltb_spec i (Z.of_nat (length m))), (Z.ltb_spec i 0); try lia. cbn.
  f_equal. rewrite insert_take_drop by lia. cbn. f_equal. f_equal. f_equal. lia.
Qed.

Lemma store_ok m i x : 0 <= i < zlen m -> store m i x = Some (zset m i x).
Proof.
  intros Hi. unfold store. by destruct (Z.leb_spec 0 i), (Z.ltb_spec i (zlen m)); try lia.
Qed.

(** Writing [bs1] before [bs2]. *)
Lemma splice_before m pos bs1 bs2 :
  0 <= pos -> pos + zlen bs1 + zlen bs2 <= zlen m ->
  splice (splice m (pos + zlen bs1) bs2) pos bs1 = splice m pos (bs1 ++ bs2).
Proof.
  intros Hp Hl. unfold splice, zlen in *.
  rewrite take_app_le by (rewrite length_take; lia). rewrite take_take.
  replace (Z.to_nat pos `min` Z.to_nat (pos + Z.of_nat (length bs1)))%nat with (Z.to_nat pos) by lia.
  rewrite drop_app_length' by (rewrite length_take; lia).
  rewrite <- app_assoc. do 3 f_equal. f_equal. rewrite length_app. lia.
Qed.

Lemma memcpy_splice m pos bs :
  0 <= pos -> pos + zlen bs <= zlen m -> memcpy m pos bs = Some (splice m pos bs).
Proof.
  intros Hp Hl. unfold memcpy.
  destruct (Z.leb_spec 0 pos), (Z.leb_spec (pos + zlen bs) (zlen m)); try lia. done.
Qed.

(** What was written is what is there. *)
Lemma splice_read m pos bs :
  0 <= pos -> pos + zlen bs <= zlen m ->
  take (length bs) (drop (Z.to_nat pos) (splice m pos bs)) = bs.
Proof.
  intros Hp Hl. unfold splice, zlen in *.
  rewrite drop_app_length' by (rewrite length_take; lia).
  by rewrite take_app_length.
Qed.

Lemma splice_prefix m pos bs n :
  0 <= pos -> pos + zlen bs <= zlen m -> (n <= Z.to_nat pos)%nat -> take n (splice m pos bs) = take n m.
Proof.
  intros Hp Hl Hn. unfold splice, zlen in *.
  rewrite take_app_le by (rewrite length_take; lia). rewrite take_take. f_equal. lia.
Qed.

End Memory.
