(* ===== verification/Decimal.v ===== *)
(** * Decimal: decimal numerals as byte strings

    The reference rendering of a number, and the part of the C library the
    parsers use: [strtol] in base 10 on a bounded memory area. *)

From S2P Require Import Prelude.

Module Decimal.

(** The [d] lowest decimal digits of [n], most significant first. *)
Fixpoint digits (d : nat) (n : Z) : list Z :=
  match d with
  | O => []
  | S d => digits d (n / 10) ++ [48 + n `mod` 10]
  end.

Fixpoint ndigits_fuel (fuel : nat) (n : Z) : nat :=
  match fuel with
  | O => 1
  | S fuel => if n <? 10 then 1%nat else S (ndigits_fuel fuel (n / 10))
  end.

(** Numbers of up to 21 digits: every 64-bit number. *)
Definition ndigits (n : Z) : nat := ndigits_fuel 20 n.
Definition dec (n : Z) : list Z := digits (ndigits n) n.
Definition dec_signed (n : Z) : list Z := if n <? 0 then 45 :: dec (- n) else dec n.

Lemma digits_length d n : length (digits d n) = d.
Proof. revert n. induction d as [|d IH]; intros n; cbn; [done|]. rewrite length_app, IH. cbn. lia. Qed.

Lemma ndigits_fuel_spec fuel : forall n,
  0 <= n < 10 ^ (Z.of_nat fuel + 1) ->
  (1 <= ndigits_fuel fuel n)%nat /\ n < 10 ^ Z.of_nat (ndigits_fuel fuel n) /\
  (0 < n -> 10 ^ (Z.of_nat (ndigits_fuel fuel n) - 1) <= n).
Proof.
  induction fuel as [|fuel IH]; intros n Hn; cbn [ndigits_fuel].
  - split; [lia|]. change (10 ^ Z.of_nat 1) with 10. change (10 ^ (Z.of_nat 1 - 1)) with 1.
    change (10 ^ (Z.of_nat 0 + 1)) with 10 in Hn. lia.
  - destruct (Z.ltb_spec n 10).
    + split; [lia|]. change (10 ^ Z.of_nat 1) with 10. change (10 ^ (Z.of_nat 1 - 1)) with 1. lia.
    + assert (0 <= n / 10 < 10 ^ (Z.of_nat fuel + 1)) as Hd.
      { split; [apply Z.div_pos; lia|]. apply Z.div_lt_upper_bound; [lia|].
        rewrite Nat2Z.inj_succ in Hn. replace (Z.succ (Z.of_nat fuel) + 1) with (Z.of_nat fuel + 1 + 1) in Hn by lia.
        rewrite Z.pow_add_r in Hn by lia. lia. }
      destruct (IH (n / 10) Hd) as (H1 & H2 & H3). set (k := ndigits_fuel fuel (n / 10)) in *.
      assert (0 < n / 10) as Hpos by (apply Z.div_str_pos; lia). specialize (H3 Hpos).
      split; [lia|]. rewrite Nat2Z.inj_succ.
      replace (Z.succ (Z.of_nat k) - 1) with (Z.of_nat k - 1 + 1) by lia.
      rewrite Z.pow_succ_r, Z.pow_add_r by lia. change (10 ^ 1) with 10.
      pose proof (Z.div_mod n 10 ltac:(lia)). pose proof (Z.mod_pos_bound n 10 ltac:(lia)). lia.
Qed.

Lemma ndigits_fuel_le fuel : forall n, (ndigits_fuel fuel n <= S fuel)%nat.
Proof. induction fuel as [|fuel IH]; intros n; cbn [ndigits_fuel]; [lia|]. specialize (IH (n / 10)). destruct (n <? 10); lia. Qed.

Lemma ndigits_le n : (ndigits n <= 21)%nat.
Proof. apply (ndigits_fuel_le 20). Qed.

Lemma ndigits_spec n :
  0 <= n < 2 ^ 64 ->
  (1 <= ndigits n)%nat /\ n < 10 ^ Z.of_nat (ndigits n) /\
  (0 < n -> 10 ^ (Z.of_nat (ndigits n) - 1) <= n).
Proof.
  intros Hn. apply ndigits_fuel_spec. change (10 ^ (Z.of_nat 20 + 1)) with 1000000000000000000000. mach_lia.
Qed.

(** The number of digits is determined by the powers of ten around it. *)
Lemma ndigits_unique n (d : Z) :
  0 < n < 2 ^ 64 -> 1 <= d -> 10 ^ (d - 1) <= n < 10 ^ d -> Z.of_nat (ndigits n) = d.
Proof.
  intros Hn Hd [Hlo Hhi]. destruct (ndigits_spec n ltac:(lia)) as (H1 & H2 & H3). specialize (H3 ltac:(lia)).
  set (k := Z.of_nat (ndigits n)) in *.
  assert (d - 1 < k) by (apply (Z.pow_lt_mono_r_iff 10); lia).
  assert (k - 1 < d) by (apply (Z.pow_lt_mono_r_iff 10); lia). lia.
Qed.

Definition is_digit (c : Z) : bool := (48 <=? c) && (c <=? 57).
Definition is_space (c : Z) : bool := (c =? 32) || ((9 <=? c) && (c <=? 13)).

Lemma digit_char n : is_digit (48 + n `mod` 10) = true.
Proof. pose proof (Z.mod_pos_bound n 10 ltac:(lia)). unfold is_digit. lia. Qed.

Lemma digits_are_digits d n : Forall (fun c => is_digit c = true) (digits d n).
Proof.
  revert n. induction d as [|d IH]; intros n; cbn; [constructor|].
  apply Forall_app. split; [apply IH|]. constructor; [apply digit_char|constructor].
Qed.

(** ** strtol

    [l] is the memory from the pointer to the end of the buffer; the result is
    the value and the offset of [endptr], or [None] when the scan would read
    after the end of the buffer. *)

Fixpoint skip_spaces (l : list Z) : option (list Z) :=
  match l with
  | [] => None
  | c :: l' => if is_space c then skip_spaces l' else Some l
  end.

Fixpoint strtol_digits (l : list Z) (acc : Z) : option (Z * list Z) :=
  match l with
  | [] => None
  | c :: l' => if is_digit c then strtol_digits l' (acc * 10 + (c - 48)) else Some (acc, l)
  end.

Definition clamp_long (z : Z) : Z := Z.max (- 2 ^ 63) (Z.min (2 ^ 63 - 1) z).

Definition strtol (l : list Z) : option (Z * Z) :=
  l1 ← skip_spaces l;
  c ← head l1;
  let '(negative, l2) :=
    if c =? 45 then (true, tail l1) else if c =? 43 then (false, tail l1) else (false, l1) in
  c2 ← head l2;
  if is_digit c2 then
    '(v, rest) ← strtol_digits l2 0;
    Some (clamp_long (if (negative : bool) then - v else v), zlen l - zlen rest)
  else Some (0, 0).

(** [strtoull]: the value is clamped to ULLONG_MAX, then negated modulo 2^64
    after a minus sign. *)
Definition strtoull (l : list Z) : option (Z * Z) :=
  l1 ← skip_spaces l;
  c ← head l1;
  let '(negative, l2) :=
    if c =? 45 then (true, tail l1) else if c =? 43 then (false, tail l1) else (false, l1) in
  c2 ← head l2;
  if is_digit c2 then
    '(v, rest) ← strtol_digits l2 0;
    Some (if 2 ^ 64 <=? v then 2 ^ 64 - 1 else if (negative : bool) then u64 (- v) else v,
          zlen l - zlen rest)
  else Some (0, 0).

Lemma strtol_digits_digits d : forall n rest acc,
  0 <= n < 10 ^ Z.of_nat d ->
  strtol_digits (digits d n ++ rest) acc = strtol_digits rest (acc * 10 ^ Z.of_nat d + n).
Proof.
  induction d as [|d IH]; intros n rest acc Hn.
  - cbn in *. f_equal. lia.
  - cbn [digits]. rewrite <- app_assoc. rewrite Nat2Z.inj_succ, Z.pow_succ_r in Hn by lia.
    pose proof (Z.div_mod n 10 ltac:(lia)). pose proof (Z.mod_pos_bound n 10 ltac:(lia)).
    assert (0 <= n / 10 < 10 ^ Z.of_nat d) as Hd.
    { split; [apply Z.div_pos; lia|]. apply Z.div_lt_upper_bound; lia. }
    rewrite IH by done.
    cbn [app strtol_digits].
    rewrite digit_char.
    f_equal. rewrite Nat2Z.inj_succ, Z.pow_succ_r by lia. lia.
Qed.

(** Reading back a rendered number. *)
Lemma strtol_dec n c rest :
  0 <= n < 2 ^ 63 -> is_digit c = false ->
  strtol (dec n ++ c :: rest) = Some (n, zlen (dec n)).
Proof.
  intros Hn Hc. unfold strtol.
  destruct (ndigits_spec n ltac:(mach_lia)) as (H1 & H2 & _).
  assert (exists x l', dec n ++ c :: rest = x :: l' /\ is_digit x = true) as (x & l' & Heq & Hx).
  { pose proof (digits_are_digits (ndigits n) n) as Hall. pose proof (digits_length (ndigits n) n) as Hlen.
    unfold dec. destruct (digits (ndigits n) n) as [|x l']; [cbn [length] in Hlen; lia|].
    apply Forall_cons in Hall as [Hx _]. exists x, (l' ++ c :: rest). done. }
  assert (skip_spaces (dec n ++ c :: rest) = Some (dec n ++ c :: rest)) as ->.
  { rewrite Heq. cbn. assert (is_space x = false) as ->; [|done]. unfold is_digit, is_space in *. lia. }
  cbn [mbind option_bind]. rewrite Heq. cbn [head mbind option_bind].
  assert ((x =? 45) = false) as -> by (unfold is_digit in Hx; lia).
  assert ((x =? 43) = false) as -> by (unfold is_digit in Hx; lia).
  cbn [head mbind option_bind]. rewrite Hx, <- Heq.
  pose proof (strtol_digits_digits (ndigits n) n (c :: rest) 0 ltac:(lia)) as Hd.
  fold (dec n) in Hd. rewrite Hd. cbn [strtol_digits]. rewrite Hc. cbn [mbind option_bind].
  f_equal. f_equal; [unfold clamp_long; lia|]. rewrite zlen_app, zlen_cons. lia.
Qed.

(** Every byte of a rendered number is a digit. *)
Lemma dec_digits n : Forall (fun c => is_digit c = true) (dec n).
Proof. apply digits_are_digits. Qed.

Lemma dec_length_pos n : 0 <= n < 2 ^ 64 -> 1 <= zlen (dec n).
Proof.
  intros Hn. unfold zlen, dec. rewrite digits_length. pose proof (ndigits_spec n Hn). lia.
Qed.

End Decimal.
