(* ===== verification/RingQueue.v ===== *)
(** * RingQueue: the bounded single-producer single-consumer ring

    ring_bounded_queue_spsc_generic.h, for any item type.  The first part
    models the functions as they run in one thread; the second one splits
    [enqueue] and [dequeue] at their memory fences and interleaves one
    producer with one consumer. *)

From S2P Require Import Prelude Pow2.

Module RingQueue.

Section ring.
Context {T : Type} (zero : T).

Record ring := Ring {
  size : Z;
  mask : Z;
  head : Z;
  tail : Z;
  items : list T
}.

Definition init (sz : Z) : ring :=
  let sz := u32 (Pow2.pow2_next sz) in
  {| size := sz; mask := u32 (sz - 1); head := 0; tail := 0;
     items := replicate (Z.to_nat sz) zero |}.

Definition get_length (rb : ring) : Z := u32 (tail rb - head rb).

Definition is_empty (rb : ring) : bool := get_length rb =? 0.

Definition is_full (rb : ring) : bool := get_length rb =? size rb.

(** [rb->items[i & rb->mask]] for an index [i]. *)
Definition slot (rb : ring) (i : Z) : T :=
  default zero (zget (items rb) (Z.land i (mask rb))).

(** The two stores of [enqueue] and the two of [dequeue], each between fences. *)
Definition store_item (rb : ring) (v : T) : ring :=
  {| size := size rb; mask := mask rb; head := head rb; tail := tail rb;
     items := zset (items rb) (Z.land (tail rb) (mask rb)) v |}.

Definition bump_tail (rb : ring) : ring :=
  {| size := size rb; mask := mask rb; head := head rb; tail := u32 (tail rb + 1);
     items := items rb |}.

Definition bump_head (rb : ring) : ring :=
  {| size := size rb; mask := mask rb; head := u32 (head rb + 1); tail := tail rb;
     items := items rb |}.

(** The boolean component is the [found] out-parameter. *)
Definition peek (rb : ring) : T * bool :=
  if head rb =? tail rb then (zero, false) else (slot rb (head rb), true).

Definition enqueue (rb : ring) (value : T) : ring * bool :=
  if is_full rb then (rb, false) else (bump_tail (store_item rb value), true).

(** [enqueue_ptr] returns the address of the slot: its index here. *)
Definition enqueue_ptr (rb : ring) (value : T) : ring * option Z :=
  if is_full rb then (rb, None)
  else (bump_tail (store_item rb value), Some (Z.land (tail rb) (mask rb))).

Definition dequeue (rb : ring) : ring * (T * bool) :=
  if head rb =? tail rb then (rb, (zero, false))
  else (bump_head rb, (slot rb (head rb), true)).

(** ** Well-formed rings and their contents *)

Record wf (rb : ring) : Prop := {
  wf_size : exists k, 0 <= k <= 31 /\ size rb = 2 ^ k;
  wf_mask : mask rb = size rb - 1;
  wf_items : zlen (items rb) = size rb;
  wf_head : in_u 32 (head rb);
  wf_tail : in_u 32 (tail rb);
  wf_len : get_length rb <= size rb
}.

(** The queued values, oldest first. *)
Definition contents (rb : ring) : list T :=
  (fun n => slot rb (u32 (head rb + Z.of_nat n))) <$> seq 0 (Z.to_nat (get_length rb)).

Lemma get_length_nonneg rb : 0 <= get_length rb.
Proof. unfold get_length. apply wrap_range. lia. Qed.

Lemma length_contents rb : zlen (contents rb) = get_length rb.
Proof.
  unfold contents, zlen. rewrite length_fmap, length_seq.
  pose proof (get_length_nonneg rb). lia.
Qed.

Lemma contents_lookup rb n :
  Z.of_nat n < get_length rb -> contents rb !! n = Some (slot rb (u32 (head rb + Z.of_nat n))).
Proof.
  intros Hn. unfold contents. rewrite list_lookup_fmap, lookup_seq_lt by lia. done.
Qed.

(** Indices are taken modulo the size, whatever the 32-bit counters wrapped to. *)
Lemma land_mask rb x : wf rb -> Z.land (u32 x) (mask rb) = x `mod` size rb.
Proof.
  intros Hwf. destruct (wf_size _ Hwf) as (k & Hk & Hs).
  rewrite (wf_mask _ Hwf), Hs, land_pow2_mask by lia. apply wrap_mod_pow2. lia.
Qed.

Lemma size_pos rb : wf rb -> 0 < size rb <= 2 ^ 31.
Proof.
  intros Hwf. destruct (wf_size _ Hwf) as (k & Hk & ->).
  split; [apply Z.pow_pos_nonneg; lia|]. apply Z.pow_le_mono_r; lia.
Qed.

Lemma tail_eq rb : wf rb -> tail rb = u32 (head rb + get_length rb).
Proof.
  intros Hwf. unfold get_length. rewrite wrap_add_r by lia.
  replace (head rb + (tail rb - head rb)) with (tail rb) by lia.
  symmetry. apply wrap_small. apply Hwf.
Qed.

Lemma is_empty_contents rb : is_empty rb = true <-> contents rb = [].
Proof.
  unfold is_empty. rewrite Z.eqb_eq, <- length_contents.
  unfold zlen. destruct (contents rb); cbn; split; intros; (done || lia).
Qed.

Lemma head_eqb_tail rb : wf rb -> (head rb =? tail rb) = is_empty rb.
Proof.
  intros Hwf. unfold is_empty, get_length.
  pose proof (wf_head _ Hwf). pose proof (wf_tail _ Hwf). unfold in_u in *.
  destruct (Z.eqb_spec (head rb) (tail rb)) as [->|Hne].
  - rewrite Z.sub_diag. done.
  - symmetry. apply Z.eqb_neq. unfold wrap. intros Hm.
    apply Z.mod_divide in Hm; [|done]. destruct Hm as [c Hc]. mach_lia.
Qed.

Lemma init_wf sz : 1 <= sz <= 2 ^ 31 -> wf (init sz).
Proof.
  intros Hsz. destruct (Pow2.pow2_next_least sz ltac:(mach_lia)) as (k & Hk & Hp & Hle & Hmin).
  assert (k <= 31) by (apply Hmin; lia).
  assert (0 < 2 ^ k) by (apply Z.pow_pos_nonneg; lia).
  assert (2 ^ k <= 2 ^ 31) by (apply Z.pow_le_mono_r; lia).
  assert (u32 (Pow2.pow2_next sz) = 2 ^ k) as Hs by (rewrite Hp; apply wrap_small; mach_lia).
  unfold init. rewrite Hs. split; cbn [size mask head tail items].
  - exists k. split; [lia|done].
  - apply wrap_small. mach_lia.
  - rewrite zlen_replicate. lia.
  - mach_lia.
  - mach_lia.
  - unfold get_length. cbn [tail head]. rewrite wrap_small by mach_lia. lia.
Qed.

Lemma init_contents sz : contents (init sz) = [].
Proof. reflexivity. Qed.

(** ** The micro-steps on the contents *)

Lemma store_item_wf rb v : wf rb -> wf (store_item rb v).
Proof. intros []; split; cbn [size mask head tail items store_item]; auto. by rewrite zlen_zset. Qed.

Lemma store_item_contents rb v :
  wf rb -> get_length rb < size rb -> contents (store_item rb v) = contents rb.
Proof.
  intros Hwf Hlt. apply list_eq. intros n.
  assert (get_length (store_item rb v) = get_length rb) as Hl by done.
  destruct (decide (Z.of_nat n < get_length rb)) as [Hn|Hn].
  - rewrite !contents_lookup by lia. f_equal. unfold slot, store_item. cbn [head items mask].
    rewrite zget_zset_ne; [done|].
    rewrite (tail_eq rb Hwf), !(land_mask rb) by done. intros He.
    pose proof (size_pos rb Hwf).
    assert ((get_length rb - Z.of_nat n) `mod` size rb = 0) as Hm.
    { replace (get_length rb - Z.of_nat n)
        with ((head rb + get_length rb) - (head rb + Z.of_nat n)) by lia.
      rewrite Zminus_mod, He, Z.sub_diag. done. }
    rewrite Z.mod_small in Hm by lia. lia.
  - rewrite !lookup_ge_None_2; [done| |]; pose proof (length_contents rb);
      pose proof (length_contents (store_item rb v)); unfold zlen in *; lia.
Qed.

Lemma store_item_tail_slot rb v : wf rb -> slot (store_item rb v) (tail rb) = v.
Proof.
  intros Hwf. unfold slot, store_item. cbn [items mask].
  pose proof (size_pos rb Hwf).
  rewrite zget_zset_eq; [done|]. rewrite (wf_items _ Hwf).
  rewrite (tail_eq rb Hwf), land_mask by done. apply Z.mod_pos_bound. lia.
Qed.

Lemma bump_tail_length rb :
  wf rb -> get_length rb < size rb -> get_length (bump_tail rb) = get_length rb + 1.
Proof.
  intros Hwf Hlt. pose proof (size_pos rb Hwf). pose proof (get_length_nonneg rb).
  unfold get_length at 1, bump_tail. cbn [tail head]. rewrite wrap_sub_l by lia.
  replace (tail rb + 1 - head rb) with (tail rb - head rb + 1) by lia.
  rewrite <- wrap_add_l by lia. apply wrap_small. unfold get_length in *. mach_lia.
Qed.

Lemma bump_tail_wf rb : wf rb -> get_length rb < size rb -> wf (bump_tail rb).
Proof.
  intros Hwf Hlt. pose proof (bump_tail_length rb Hwf Hlt). destruct Hwf.
  split; cbn [size mask head tail items bump_tail]; auto.
  - apply wrap_range. lia.
  - rewrite H. lia.
Qed.

Lemma bump_tail_contents rb :
  wf rb -> get_length rb < size rb ->
  contents (bump_tail rb) = contents rb ++ [slot rb (tail rb)].
Proof.
  intros Hwf Hlt. pose proof (get_length_nonneg rb).
  unfold contents at 1. rewrite bump_tail_length by done.
  replace (Z.to_nat (get_length rb + 1)) with (Z.to_nat (get_length rb) + 1)%nat by lia.
  rewrite seq_app, fmap_app. cbn [fmap list_fmap seq Nat.add]. f_equal.
  do 2 f_equal. cbn [head bump_tail]. rewrite Z2Nat.id by lia. symmetry. by apply tail_eq.
Qed.

Lemma bump_head_length rb :
  wf rb -> 0 < get_length rb -> get_length (bump_head rb) = get_length rb - 1.
Proof.
  intros Hwf Hlt. pose proof (wrap_range 32 (tail rb - head rb)).
  unfold get_length at 1, bump_head. cbn [tail head]. rewrite wrap_sub_r by lia.
  replace (tail rb - (head rb + 1)) with (tail rb - head rb - 1) by lia.
  rewrite <- wrap_sub_l by lia. apply wrap_small. unfold get_length in *. mach_lia.
Qed.

Lemma bump_head_wf rb : wf rb -> 0 < get_length rb -> wf (bump_head rb).
Proof.
  intros Hwf Hlt. pose proof (bump_head_length rb Hwf Hlt). destruct Hwf.
  split; cbn [size mask head tail items bump_head]; auto.
  - apply wrap_range. lia.
  - rewrite H. lia.
Qed.

Lemma bump_head_contents rb :
  wf rb -> 0 < get_length rb ->
  contents rb = slot rb (head rb) :: contents (bump_head rb).
Proof.
  intros Hwf Hlt. unfold contents. rewrite bump_head_length by done.
  replace (Z.to_nat (get_length rb)) with (S (Z.to_nat (get_length rb - 1))) by lia.
  cbn [seq]. rewrite fmap_cons. f_equal.
  - rewrite Z.add_0_r, wrap_small; [done|]. apply Hwf.
  - rewrite <- fmap_S_seq, <- list_fmap_compose. apply list_fmap_ext. intros i n Hn.
    unfold compose, slot, bump_head. cbn [head items mask].
    rewrite wrap_add_l by lia.
    by replace (head rb + 1 + Z.of_nat n) with (head rb + Z.of_nat (S n)) by lia.
Qed.

(** ** The operations on the contents *)

Lemma is_full_spec rb : wf rb -> is_full rb = false -> get_length rb < size rb.
Proof. intros Hwf Hf. apply Z.eqb_neq in Hf. pose proof (wf_len _ Hwf). lia. Qed.

Lemma enqueue_spec rb v rb' ok :
  wf rb -> enqueue rb v = (rb', ok) ->
  wf rb' /\ size rb' = size rb /\ ok = bool_decide (zlen (contents rb) < size rb) /\
  contents rb' = contents rb ++ (if ok then [v] else []).
Proof.
  intros Hwf. unfold enqueue. rewrite length_contents.
  destruct (is_full rb) eqn:Hf; intros [= <- <-].
  - apply Z.eqb_eq in Hf. rewrite bool_decide_eq_false_2 by lia. by rewrite app_nil_r.
  - pose proof (is_full_spec _ Hwf Hf) as Hlt. pose proof (store_item_wf rb v Hwf) as Hwf'.
    split; [by apply bump_tail_wf|]. split; [done|].
    split; [by rewrite bool_decide_eq_true_2|].
    rewrite bump_tail_contents, store_item_contents by done. f_equal. f_equal.
    by apply (store_item_tail_slot rb v).
Qed.

Lemma dequeue_spec rb rb' r :
  wf rb -> dequeue rb = (rb', r) ->
  wf rb' /\ size rb' = size rb /\
  match contents rb with
  | [] => rb' = rb /\ r = (zero, false)
  | x :: q => contents rb' = q /\ r = (x, true)
  end.
Proof.
  intros Hwf. unfold dequeue. rewrite head_eqb_tail by done.
  destruct (is_empty rb) eqn:He; intros [= <- <-].
  - apply is_empty_contents in He. by rewrite He.
  - apply Z.eqb_neq in He. pose proof (get_length_nonneg rb).
    assert (0 < get_length rb) as Hlt by lia.
    split; [by apply bump_head_wf|]. split; [done|].
    by rewrite bump_head_contents.
Qed.

(** A full queue gives its oldest item and has room afterwards. *)
Lemma dequeue_full rb :
  wf rb -> is_full rb = true ->
  exists q R rb', contents rb = q :: R /\ dequeue rb = (rb', (q, true)) /\ wf rb' /\ contents rb' = R /\
    is_full rb' = false.
Proof.
  intros Hwf Hf. pose proof (size_pos rb Hwf). unfold is_full in Hf. apply Z.eqb_eq in Hf.
  rewrite <- length_contents in Hf. destruct (dequeue rb) as [rb' r] eqn:Hd.
  destruct (dequeue_spec rb rb' r Hwf Hd) as (Hwf' & Hs & Hc).
  destruct (contents rb) as [|q R]; [unfold zlen in Hf; cbn in Hf; lia|]. destruct Hc as [Hc ->].
  exists q, R, rb'. split_and!; try done. unfold is_full. apply Z.eqb_neq.
  rewrite <- length_contents, Hc, Hs. rewrite zlen_cons in Hf. lia.
Qed.

(** ** Refinement of a bounded FIFO

    The abstract queue is a list with a capacity. *)

Inductive op := OpEnqueue (v : T) | OpDequeue | OpPeek | OpLength.
Inductive out := OutBool (b : bool) | OutItem (r : T * bool) | OutLen (n : Z).

Definition ring_step (rb : ring) (o : op) : ring * out :=
  match o with
  | OpEnqueue v => let '(rb', b) := enqueue rb v in (rb', OutBool b)
  | OpDequeue => let '(rb', r) := dequeue rb in (rb', OutItem r)
  | OpPeek => (rb, OutItem (peek rb))
  | OpLength => (rb, OutLen (get_length rb))
  end.

Definition fifo_step (cap : Z) (q : list T) (o : op) : list T * out :=
  match o with
  | OpEnqueue v =>
      if bool_decide (zlen q < cap) then (q ++ [v], OutBool true) else (q, OutBool false)
  | OpDequeue =>
      match q with
      | [] => ([], OutItem (zero, false))
      | x :: q' => (q', OutItem (x, true))
      end
  | OpPeek => (q, OutItem (match q with [] => (zero, false) | x :: _ => (x, true) end))
  | OpLength => (q, OutLen (zlen q))
  end.

Fixpoint run {S} (step : S -> op -> S * out) (s : S) (os : list op) : list out :=
  match os with
  | [] => []
  | o :: os' => let '(s', r) := step s o in r :: run step s' os'
  end.

Lemma peek_spec rb :
  wf rb -> peek rb = match contents rb with [] => (zero, false) | x :: _ => (x, true) end.
Proof.
  intros Hwf. unfold peek. rewrite head_eqb_tail by done.
  destruct (is_empty rb) eqn:He.
  - apply is_empty_contents in He. by rewrite He.
  - apply Z.eqb_neq in He. pose proof (get_length_nonneg rb).
    rewrite (bump_head_contents rb) by (done || lia). done.
Qed.

Lemma ring_step_refines rb o :
  wf rb ->
  let '(rb', r) := ring_step rb o in
  wf rb' /\ size rb' = size rb /\ fifo_step (size rb) (contents rb) o = (contents rb', r).
Proof.
  intros Hwf. destruct o as [v| | |]; cbn.
  - destruct (enqueue rb v) as [rb' ok] eqn:He.
    destruct (enqueue_spec _ _ _ _ Hwf He) as (Hwf' & Hs & -> & Hc).
    split_and!; [done..|]. rewrite Hc.
    case_bool_decide; [done|]. by rewrite app_nil_r.
  - destruct (dequeue rb) as [rb' r] eqn:He.
    destruct (dequeue_spec _ _ _ Hwf He) as (Hwf' & Hs & Hc).
    split_and!; [done..|]. destruct (contents rb) as [|x q] eqn:Hq.
    + destruct Hc as [-> ->]. by rewrite Hq.
    + by destruct Hc as [-> ->].
  - split_and!; [done..|]. by rewrite peek_spec.
  - split_and!; [done..|]. by rewrite length_contents.
Qed.

Lemma run_refines os rb :
  wf rb -> run ring_step rb os = run (fifo_step (size rb)) (contents rb) os.
Proof.
  revert rb. induction os as [|o os IH]; intros rb Hwf; [done|]. cbn.
  pose proof (ring_step_refines rb o Hwf) as Hr.
  destruct (ring_step rb o) as [rb' r]. destruct Hr as (Hwf' & Hs & ->).
  f_equal. rewrite <- Hs. by apply IH.
Qed.

End ring.

Arguments ring : clear implicits.
Arguments op : clear implicits.
Arguments out : clear implicits.

(** ** One producer and one consumer, interleaved at the fences

    The program counters name the point each thread has reached inside
    [enqueue] and [dequeue]; [c_sent] and [c_recv] record the values whose
    [enqueue] returned true and whose [dequeue] returned, in that order. *)
Section spsc.
Context {T : Type} (zero : T).

Inductive producer := PIdle | PStore (v : T) | PPublish (v : T).
Inductive consumer := CIdle | CLoad | CRelease (v : T).

Record config := Config {
  c_ring : ring T;
  c_prod : producer;
  c_cons : consumer;
  c_sent : list T;
  c_recv : list T
}.

Inductive spsc_step : config -> config -> Prop :=
  | step_enqueue_full rb c s r :
      is_full rb = true ->
      spsc_step (Config rb PIdle c s r) (Config rb PIdle c s r)
  | step_enqueue_check rb v c s r :
      is_full rb = false ->
      spsc_step (Config rb PIdle c s r) (Config rb (PStore v) c s r)
  | step_enqueue_store rb v c s r :
      spsc_step (Config rb (PStore v) c s r) (Config (store_item rb v) (PPublish v) c s r)
  | step_enqueue_publish rb v c s r :
      spsc_step (Config rb (PPublish v) c s r) (Config (bump_tail rb) PIdle c (s ++ [v]) r)
  | step_dequeue_empty rb p s r :
      head rb = tail rb ->
      spsc_step (Config rb p CIdle s r) (Config rb p CIdle s r)
  | step_dequeue_check rb p s r :
      head rb <> tail rb ->
      spsc_step (Config rb p CIdle s r) (Config rb p CLoad s r)
  | step_dequeue_load rb p s r :
      spsc_step (Config rb p CLoad s r) (Config rb p (CRelease (slot zero rb (head rb))) s r)
  | step_dequeue_release rb p v s r :
      spsc_step (Config rb p (CRelease v) s r) (Config (bump_head rb) p CIdle s (r ++ [v])).

Definition spsc_init (sz : Z) : config := Config (init zero sz) PIdle CIdle [] [].

Definition producer_ok (rb : ring T) (p : producer) : Prop :=
  match p with
  | PIdle => True
  | PStore _ => get_length rb < size rb
  | PPublish v => get_length rb < size rb /\ slot zero rb (tail rb) = v
  end.

Definition consumer_ok (rb : ring T) (c : consumer) : Prop :=
  match c with
  | CIdle => True
  | CLoad => contents zero rb <> []
  | CRelease v => exists q, contents zero rb = v :: q
  end.

Record spsc_inv (s : config) : Prop := {
  inv_wf : wf (c_ring s);
  inv_prod : producer_ok (c_ring s) (c_prod s);
  inv_cons : consumer_ok (c_ring s) (c_cons s);
  inv_fifo : c_sent s = c_recv s ++ contents zero (c_ring s)
}.

Lemma spsc_init_inv sz : 1 <= sz <= 2 ^ 31 -> spsc_inv (spsc_init sz).
Proof. intros Hsz. split; cbn; [by apply init_wf|done|done|done]. Qed.

Lemma contents_nonempty rb :
  contents zero rb <> [] -> 0 < get_length rb.
Proof.
  intros Hne. rewrite <- (length_contents zero rb).
  destruct (contents zero rb) as [|x q]; [done|]. rewrite zlen_cons. pose proof (zlen_nonneg q). lia.
Qed.

Lemma consumer_ok_app rb rb' c q :
  contents zero rb' = contents zero rb ++ q -> consumer_ok rb c -> consumer_ok rb' c.
Proof.
  intros Hc. destruct c as [| |v]; cbn; rewrite ?Hc; [done| |].
  - destruct (contents zero rb); cbn; congruence.
  - intros [q' ->]. by exists (q' ++ q).
Qed.

Lemma producer_ok_bump_head rb p :
  wf rb -> 0 < get_length rb -> producer_ok rb p -> producer_ok (bump_head rb) p.
Proof.
  intros Hwf Hlt. pose proof (bump_head_length rb Hwf Hlt) as Hl.
  destruct p as [|v|v]; cbn [producer_ok]; rewrite ?Hl; cbn [size bump_head]; [done| |].
  - lia.
  - intros [? Hs]. split; [lia|exact Hs].
Qed.

Lemma spsc_step_inv s s' : spsc_step s s' -> spsc_inv s -> spsc_inv s'.
Proof.
  intros Hstep [Hwf Hp Hc Hf].
  destruct Hstep as [rb c s r|rb v c s r Hfull|rb v c s r|rb v c s r|rb p s r|rb p s r Hne|rb p s r|rb p v s r];
    cbn in Hwf, Hp, Hc, Hf; subst.
  - by split.
  - split; cbn; try done. by apply is_full_spec.
  - pose proof (store_item_contents zero rb v Hwf Hp) as He. split; cbn.
    + by apply store_item_wf.
    + split; [done|]. by apply (store_item_tail_slot zero rb v).
    + apply (consumer_ok_app rb _ _ []); [by rewrite He, app_nil_r|done].
    + by rewrite He.
  - destruct Hp as [Hlt Hs]. pose proof (bump_tail_contents zero rb Hwf Hlt) as He. split; cbn.
    + by apply bump_tail_wf.
    + done.
    + by apply (consumer_ok_app rb _ _ [slot zero rb (tail rb)]).
    + by rewrite He, Hs, app_assoc.
  - by split.
  - split; cbn; try done. rewrite <- is_empty_contents, <- head_eqb_tail by done.
    intros He%Z.eqb_eq. done.
  - split; cbn; try done. rewrite (bump_head_contents zero rb) by (done || by apply contents_nonempty).
    by eexists.
  - destruct Hc as [q Hq].
    assert (0 < get_length rb) as Hlt by (apply contents_nonempty; by rewrite Hq).
    pose proof (bump_head_contents zero rb Hwf Hlt) as He.
    rewrite Hq in He. injection He as Hv Hq'. split; cbn.
    + by apply bump_head_wf.
    + by apply producer_ok_bump_head.
    + done.
    + rewrite Hq, Hq'. by rewrite <- app_assoc.
Qed.

Lemma spsc_reachable_inv sz s :
  1 <= sz <= 2 ^ 31 -> rtc spsc_step (spsc_init sz) s -> spsc_inv s.
Proof.
  intros Hsz Hr. pose proof (spsc_init_inv sz Hsz) as Hi.
  induction Hr as [|x y z Hxy _ IH]; [done|]. apply IH. by eapply spsc_step_inv.
Qed.

End spsc.

(** ** Properties *)

(** C22: any sequence of enqueue, dequeue, peek and get_length calls on a ring
    created for [sz] items (1 <= sz <= 2^31) answers exactly as a FIFO queue
    bounded by the least power of two not below [sz]: nothing is lost,
    duplicated or reordered, also after the 32-bit head and tail counters have
    wrapped around. *)
Theorem ring_refines_bounded_fifo {T : Type} (zero : T) (sz : Z) (os : list (op T)) :
  1 <= sz <= 2 ^ 31 ->
  run (ring_step zero) (init zero sz) os = run (fifo_step zero (Pow2.pow2_next sz)) [] os.
Proof.
  intros Hsz. rewrite run_refines by by apply init_wf.
  destruct (Pow2.pow2_next_least sz ltac:(mach_lia)) as (k & Hk & Hp & _ & Hmin).
  assert (k <= 31) by (apply Hmin; lia).
  cbn [size init]. rewrite wrap_small; [done|]. rewrite Hp.
  assert (0 < 2 ^ k) by (apply Z.pow_pos_nonneg; lia).
  assert (2 ^ k <= 2 ^ 31) by (apply Z.pow_le_mono_r; lia). mach_lia.
Qed.

Lemma ring_refines_bounded_fifo_witness :
  run (ring_step 0) (init 0 2) [OpEnqueue 7; OpEnqueue 8; OpEnqueue 9; OpDequeue; OpPeek]
  = [OutBool true; OutBool true; OutBool false; OutItem (7, true); OutItem (8, true)].
Proof.
  rewrite (ring_refines_bounded_fifo 0 2) by (split; vm_compute; discriminate).
  reflexivity.
Defined.

(** C27: for every interleaving of one producer and one consumer at the
    granularity of the fences of enqueue and dequeue, the values the consumer
    has received are exactly the values sent so far, in order, less the ones
    still stored in the ring, and the ring never holds more than its size. *)
Theorem spsc_interleaving_fifo {T : Type} (zero : T) (sz : Z) (s : config) :
  1 <= sz <= 2 ^ 31 -> rtc (spsc_step zero) (spsc_init zero sz) s ->
  c_sent s = c_recv s ++ contents zero (c_ring s) /\
  zlen (contents zero (c_ring s)) <= size (c_ring s).
Proof.
  intros Hsz Hr. destruct (spsc_reachable_inv zero sz s Hsz Hr) as [Hwf _ _ Hf].
  split; [done|]. rewrite length_contents. apply Hwf.
Qed.

(** The consumer checks the ring between the producer's store and its
    publication and sees nothing; afterwards it receives the value. *)
Lemma spsc_interleaving_fifo_witness :
  exists s, rtc (spsc_step 0) (spsc_init 0 2) s /\ c_recv s = [7] /\
  c_sent s = c_recv s ++ contents 0 (c_ring s) /\
  zlen (contents 0 (c_ring s)) <= size (c_ring s).
Proof.
  assert (exists s, rtc (spsc_step 0) (spsc_init 0 2) s /\ c_recv s = [7]) as (s & Hr & Hv).
  { eexists. split.
    - eapply rtc_l; [apply (step_enqueue_check 0 _ 7); reflexivity|].
      eapply rtc_l; [apply step_enqueue_store|].
      eapply rtc_l; [apply step_dequeue_empty; reflexivity|].
      eapply rtc_l; [apply step_enqueue_publish|].
      eapply rtc_l; [apply step_dequeue_check; discriminate|].
      eapply rtc_l; [apply step_dequeue_load|].
      eapply rtc_l; [apply step_dequeue_release|].
      apply rtc_refl.
    - reflexivity. }
  exists s. split; [exact Hr|]. split; [exact Hv|].
  apply (spsc_interleaving_fifo 0 2 s); [split; vm_compute; discriminate|exact Hr].
Defined.

End RingQueue.
