(* ===== verification/DoubleLinkedList.v ===== *)
(** * DoubleLinkedList: the intrusive list of double_linked_list.h

    Items live in a heap addressed by pointers, as in the code: every
    operation reads and writes the [prev] and [next] fields of the items it
    reaches, and [None] stands for a failed assert or a dereference of a
    pointer that is not allocated. *)

From stdpp Require Import gmap.
From S2P Require Import Prelude.

Module DoubleLinkedList.

Section dll.
Context {D : Type}.

Abbreviation ptr := Z.

Record double_linked_list_item := Item {
  prev : option ptr;
  next : option ptr;
  data : D
}.

Record double_linked_list := DList {
  count : Z;
  head : option ptr;
  tail : option ptr
}.

Abbreviation heap := (gmap ptr double_linked_list_item).

Record state := State { mem : heap; lst : double_linked_list }.

(** ** Field accesses *)

Definition get_prev (m : heap) (p : ptr) : option (option ptr) := prev <$> m !! p.
Definition get_next (m : heap) (p : ptr) : option (option ptr) := next <$> m !! p.

Definition set_prev (m : heap) (p : ptr) (v : option ptr) : option heap :=
  match m !! p with
  | Some it => Some (<[p := Item v (next it) (data it)]> m)
  | None => None
  end.

Definition set_next (m : heap) (p : ptr) (v : option ptr) : option heap :=
  match m !! p with
  | Some it => Some (<[p := Item (prev it) v (data it)]> m)
  | None => None
  end.

Definition with_head (l : double_linked_list) (p : option ptr) : double_linked_list :=
  DList (count l) p (tail l).
Definition with_tail (l : double_linked_list) (p : option ptr) : double_linked_list :=
  DList (count l) (head l) p.
Definition with_count (l : double_linked_list) (c : Z) : double_linked_list :=
  DList c (head l) (tail l).

Definition assert (b : bool) : option unit := if b then Some tt else None.

(** ** Operations *)

Definition double_linked_list_init : double_linked_list := DList 0 None None.

Definition double_linked_list_iter_next (s : state) (current_item : option ptr)
    : option (option ptr) :=
  match current_item with
  | None => Some (head (lst s))
  | Some p => get_next (mem s) p
  end.

Definition double_linked_list_iter_prev (s : state) (current_item : option ptr)
    : option (option ptr) :=
  match current_item with
  | None => Some (tail (lst s))
  | Some p => get_prev (mem s) p
  end.

(** The common end of the two insertions: head, tail and count. *)
Definition insert_fix_ends (m : heap) (l : double_linked_list) (item : ptr) : option state :=
  ip ← get_prev m item;
  let l := match ip with None => with_head l (Some item) | Some _ => l end in
  inx ← get_next m item;
  let l := match inx with None => with_tail l (Some item) | Some _ => l end in
  Some (State m (with_count l (u32 (count l + 1)))).

Definition double_linked_list_insert_item_before (s : state) (item : ptr)
    (before_item : option ptr) : option state :=
  _ ← assert (bool_decide (is_Some before_item \/ head (lst s) = None));
  m ← set_prev (mem s) item None;
  m ← set_next m item None;
  m ← match before_item with
      | None => Some m
      | Some b =>
          bp ← get_prev m b;
          m ← set_prev m item bp;
          m ← set_next m item (Some b);
          m ← set_prev m b (Some item);
          ip ← get_prev m item;
          match ip with
          | None => Some m
          | Some q =>
              qn ← get_next m q;
              match qn with None => Some m | Some _ => set_next m q (Some item) end
          end
      end;
  insert_fix_ends m (lst s) item.

Definition double_linked_list_insert_item_after (s : state) (item : ptr)
    (after_item : option ptr) : option state :=
  _ ← assert (bool_decide (is_Some after_item \/ head (lst s) = None));
  m ← set_prev (mem s) item None;
  m ← set_next m item None;
  m ← match after_item with
      | None => Some m
      | Some a =>
          m ← set_prev m item (Some a);
          an ← get_next m a;
          m ← set_next m item an;
          m ← set_next m a (Some item);
          inx ← get_next m item;
          match inx with
          | None => Some m
          | Some q =>
              qp ← get_prev m q;
              match qp with None => Some m | Some _ => set_prev m q (Some item) end
          end
      end;
  insert_fix_ends m (lst s) item.

Definition double_linked_list_push_item (s : state) (item : ptr) : option state :=
  double_linked_list_insert_item_after s item (tail (lst s)).

Definition double_linked_list_remove_item (s : state) (item : ptr) : option state :=
  inx ← get_next (mem s) item;
  m ← match inx with
      | None => Some (mem s)
      | Some n => ip ← get_prev (mem s) item; set_prev (mem s) n ip
      end;
  ip ← get_prev m item;
  m ← match ip with
      | None => Some m
      | Some q => inx ← get_next m item; set_next m q inx
      end;
  inx ← get_next m item;
  let l := lst s in
  let l := if bool_decide (head l = Some item) then with_head l inx else l in
  ip ← get_prev m item;
  let l := if bool_decide (tail l = Some item) then with_tail l ip else l in
  m ← set_next m item None;
  m ← set_prev m item None;
  Some (State m (with_count l (u32 (count l - 1)))).

Definition double_linked_list_pop_item (s : state) : option (state * option ptr) :=
  match tail (lst s) with
  | None => Some (s, None)
  | Some item => s' ← double_linked_list_remove_item s item; Some (s', Some item)
  end.

Definition double_linked_list_unshift_item (s : state) (item : ptr) : option state :=
  double_linked_list_insert_item_before s item (head (lst s)).

Definition double_linked_list_shift_item (s : state) : option (state * option ptr) :=
  match head (lst s) with
  | None => Some (s, None)
  | Some item => s' ← double_linked_list_remove_item s item; Some (s', Some item)
  end.

Definition double_linked_list_move_item_to_head (s : state) (item : ptr) : option state :=
  _ ← assert (bool_decide (is_Some (head (lst s)) /\ is_Some (tail (lst s))));
  if bool_decide (head (lst s) = Some item) then Some s else
  let hd := head (lst s) in
  item_prev ← get_prev (mem s) item;
  item_next ← get_next (mem s) item;
  let l := with_head (lst s) (Some item) in
  let l := if bool_decide (tail l = Some item) then with_tail l item_prev else l in
  m ← set_next (mem s) item hd;
  m ← set_prev m item None;
  m ← match hd with None => Some m | Some h => set_prev m h (Some item) end;
  m ← match item_prev with None => Some m | Some q => set_next m q item_next end;
  m ← match item_next with None => Some m | Some q => set_prev m q item_prev end;
  Some (State m l).

Definition double_linked_list_move_item_to_tail (s : state) (item : ptr) : option state :=
  _ ← assert (bool_decide (is_Some (head (lst s)) /\ is_Some (tail (lst s))));
  if bool_decide (tail (lst s) = Some item) then Some s else
  let tl := tail (lst s) in
  item_prev ← get_prev (mem s) item;
  item_next ← get_next (mem s) item;
  let l := with_tail (lst s) (Some item) in
  let l := if bool_decide (head l = Some item) then with_head l item_next else l in
  m ← set_next (mem s) item None;
  m ← set_prev m item tl;
  m ← match tl with None => Some m | Some t => set_next m t (Some item) end;
  m ← match item_prev with None => Some m | Some q => set_next m q item_next end;
  m ← match item_next with None => Some m | Some q => set_prev m q item_prev end;
  Some (State m l).

(** ** Representation of a list of items

    [dseg m pv xs nx]: the items [xs] are chained in order, the first one's
    [prev] being [pv] and the last one's [next] being [nx]. *)

Definition hd_or (nx : option ptr) (xs : list ptr) : option ptr :=
  match xs with [] => nx | x :: _ => Some x end.

Fixpoint dseg (m : heap) (pv : option ptr) (xs : list ptr) (nx : option ptr) : Prop :=
  match xs with
  | [] => True
  | x :: xs' =>
      (exists d, m !! x = Some (Item pv (hd_or nx xs') d)) /\ dseg m (Some x) xs' nx
  end.

Fixpoint last_or (pv : option ptr) (xs : list ptr) : option ptr :=
  match xs with [] => pv | x :: xs' => last_or (Some x) xs' end.

Record repr (s : state) (xs : list ptr) : Prop := {
  repr_nodup : NoDup xs;
  repr_seg : dseg (mem s) None xs None;
  repr_head : head (lst s) = hd_or None xs;
  repr_tail : tail (lst s) = last_or None xs;
  repr_count : count (lst s) = u32 (zlen xs)
}.

Lemma hd_or_app nx xs ys : hd_or nx (xs ++ ys) = hd_or (hd_or nx ys) xs.
Proof. by destruct xs. Qed.

Lemma last_or_cons pv x xs : last_or pv (x :: xs) = last_or (Some x) xs.
Proof. done. Qed.

Lemma last_or_app_cons pv xs x ys : last_or pv (xs ++ x :: ys) = last_or (Some x) ys.
Proof. revert pv. induction xs as [|y xs IH]; intros pv; [done|apply IH]. Qed.

Lemma last_or_is_Some x xs : is_Some (last_or (Some x) xs).
Proof. revert x. induction xs as [|y xs IH]; intros x; [by eexists|apply IH]. Qed.

Lemma hd_or_is_Some x xs : is_Some (hd_or (Some x) xs).
Proof. destruct xs; by eexists. Qed.

Lemma last_or_snoc pv xs x : last_or pv (xs ++ [x]) = Some x.
Proof. apply last_or_app_cons. Qed.

Lemma dseg_app m pv xs ys nx :
  dseg m pv (xs ++ ys) nx <-> dseg m pv xs (hd_or nx ys) /\ dseg m (last_or pv xs) ys nx.
Proof.
  revert pv. induction xs as [|x xs IH]; intros pv; cbn [app dseg].
  - cbn. tauto.
  - rewrite IH, hd_or_app, last_or_cons. tauto.
Qed.

Lemma dseg_insert_ne m pv xs nx x it :
  x ∉ xs -> dseg m pv xs nx -> dseg (<[x := it]> m) pv xs nx.
Proof.
  revert pv. induction xs as [|y xs IH]; intros pv Hx; cbn [dseg]; [done|].
  apply not_elem_of_cons in Hx as [Hxy Hx]. intros [[d Hd] Hs]. split; [|by apply IH].
  exists d. by rewrite lookup_insert_ne.
Qed.

Lemma get_prev_Some m p it : m !! p = Some it -> get_prev m p = Some (prev it).
Proof. unfold get_prev. by intros ->. Qed.
Lemma get_next_Some m p it : m !! p = Some it -> get_next m p = Some (next it).
Proof. unfold get_next. by intros ->. Qed.
Lemma set_prev_Some m p v it :
  m !! p = Some it -> set_prev m p v = Some (<[p := Item v (next it) (data it)]> m).
Proof. unfold set_prev. by intros ->. Qed.
Lemma set_next_Some m p v it :
  m !! p = Some it -> set_next m p v = Some (<[p := Item (prev it) v (data it)]> m).
Proof. unfold set_next. by intros ->. Qed.

(** ** Automation: running an operation on a concrete neighbourhood *)

Ltac lookups :=
  repeat first [ rewrite lookup_insert_eq | rewrite lookup_insert_ne by congruence ];
  first [ eassumption | reflexivity ].

Ltac run1 :=
  first
  [ erewrite get_prev_Some by lookups
  | erewrite get_next_Some by lookups
  | erewrite set_prev_Some by lookups
  | erewrite set_next_Some by lookups ];
  cbn [mbind option_bind prev next data].

(** Splits a [NoDup] hypothesis into membership facts. *)
Ltac nodup_facts H :=
  repeat (rewrite ?NoDup_app, ?NoDup_cons, ?not_elem_of_app, ?not_elem_of_cons in H);
  destruct_and?.

(** [x ∉ l] from the facts of a [NoDup]. *)
Ltac notin :=
  match goal with
  | |- ?x ∉ ?l =>
      first
      [ assumption
      | let H := fresh in intros H;
        match goal with
        | F : forall y, y ∈ l -> y ∉ _ |- _ =>
            apply (F _ H); repeat first [ rewrite elem_of_app | rewrite elem_of_cons ]; tauto
        end ]
  end.

Ltac seg_frame :=
  repeat (apply dseg_insert_ne; [notin |]); assumption.

Ltac seg_solve :=
  repeat first
  [ progress rewrite ?dseg_app, ?last_or_app_cons, ?last_or_snoc, ?hd_or_app
  | progress cbn [dseg hd_or app]
  | rewrite last_or_cons
  | match goal with |- _ /\ _ => split end
  | match goal with |- True => exact I end
  | match goal with |- exists d, _ => eexists; lookups end
  | seg_frame ].

Lemma insert_fix_ends_Some m l item it :
  m !! item = Some it ->
  insert_fix_ends m l item =
  Some (State m (DList (u32 (count l + 1))
    (match prev it with None => Some item | Some _ => head l end)
    (match next it with None => Some item | Some _ => tail l end))).
Proof.
  intros Hi. unfold insert_fix_ends.
  rewrite (get_prev_Some _ _ _ Hi), (get_next_Some _ _ _ Hi). cbn [mbind option_bind].
  by destruct (prev it), (next it).
Qed.

(** ** Each operation on the represented list *)

Definition allocated (s : state) (p : ptr) : Prop := is_Some (mem s !! p).

Ltac count_solve :=
  rewrite ?wrap_add_l, ?wrap_sub_l by lia; f_equal; autorewrite with zlen;
  unfold zlen; cbn [length]; lia.

Lemma insert_first_repr s item :
  repr s [] -> allocated s item ->
  exists s', double_linked_list_insert_item_after s item None = Some s' /\ repr s' [item].
Proof.
  intros [_ _ Hh Ht Hc] [it Hit]. cbn in Hh.
  unfold double_linked_list_insert_item_after.
  rewrite bool_decide_eq_true_2 by auto. cbn [assert mbind option_bind].
  repeat run1. erewrite insert_fix_ends_Some by lookups. cbn [prev next].
  eexists. split; [reflexivity|]. split; cbn [mem lst head tail count].
  - apply NoDup_singleton.
  - seg_solve.
  - done.
  - done.
  - rewrite Hc. count_solve.
Qed.

(** Turns a represented list with named neighbours into facts about the
    cells and the segments around them. *)
Ltac open_repr Hr :=
  destruct Hr as [Hnd Hseg Hh Ht Hc];
  repeat first [ progress (rewrite ?dseg_app, ?last_or_app_cons, ?hd_or_app in Hseg)
               | progress (cbn [dseg hd_or app last_or] in Hseg) ];
  repeat first [ progress (rewrite ?hd_or_app in Hh) | progress (cbn [hd_or app] in Hh) ];
  repeat first [ progress (rewrite ?last_or_app_cons in Ht)
               | progress (cbn [last_or app] in Ht) ];
  destruct_and?;
  repeat match goal with H : exists _, _ |- _ => destruct H end;
  pose proof Hnd as Hnd0;
  nodup_facts Hnd.

Ltac close_repr :=
  split; cbn [mem lst head tail count prev next with_head with_tail with_count];
  [ | seg_solve
    | repeat first [ progress (rewrite ?hd_or_app) | progress (cbn [hd_or app]) ]; try done
    | repeat first [ progress (rewrite ?last_or_app_cons) | progress (cbn [last_or app]) ]; try done
    | ].

Lemma insert_after_repr s item a l1 l2 :
  repr s (l1 ++ a :: l2) -> item ∉ l1 ++ a :: l2 -> allocated s item ->
  exists s', double_linked_list_insert_item_after s item (Some a) = Some s' /\
    repr s' (l1 ++ a :: item :: l2).
Proof.
  intros Hr Hni [it Hit]. apply not_elem_of_app in Hni as [Hn1 Hn2].
  apply not_elem_of_cons in Hn2 as [Hna Hn2].
  unfold double_linked_list_insert_item_after.
  rewrite bool_decide_eq_true_2 by (left; by eexists). cbn [assert mbind option_bind].
  assert (NoDup (l1 ++ a :: item :: l2)) as Hnd'.
  { destruct Hr as [Hnd _ _ _ _]. rewrite NoDup_app, !NoDup_cons in *. set_solver. }
  destruct l2 as [|z l2]; open_repr Hr;
    try apply not_elem_of_cons in Hn2 as [Hnz Hn2];
    repeat run1; erewrite insert_fix_ends_Some by lookups;
    (eexists; split; [reflexivity|]); close_repr; try done;
    rewrite Hc; count_solve.
Qed.

Ltac snoc_cases l y :=
  destruct l as [|y l _] using rev_ind;
  repeat first [ progress (cbn [app] in * ) | progress (rewrite <- ?app_assoc in * ) ].

Ltac destruct_notin :=
  repeat match goal with
  | H : _ ∉ _ ++ _ |- _ => apply not_elem_of_app in H as [? ?]
  | H : _ ∉ _ :: _ |- _ => apply not_elem_of_cons in H as [? ?]
  end.

Lemma insert_before_repr s item b l1 l2 :
  repr s (l1 ++ b :: l2) -> item ∉ l1 ++ b :: l2 -> allocated s item ->
  exists s', double_linked_list_insert_item_before s item (Some b) = Some s' /\
    repr s' (l1 ++ item :: b :: l2).
Proof.
  intros Hr Hni [it Hit].
  unfold double_linked_list_insert_item_before.
  rewrite bool_decide_eq_true_2 by (left; by eexists). cbn [assert mbind option_bind].
  assert (NoDup (l1 ++ item :: b :: l2)) as Hnd'.
  { destruct Hr as [Hnd _ _ _ _]. rewrite NoDup_app, !NoDup_cons in *. set_solver. }
  snoc_cases l1 y; open_repr Hr; destruct_notin;
    repeat run1; erewrite insert_fix_ends_Some by lookups;
    (eexists; split; [reflexivity|]); close_repr; try done;
    rewrite Hc; count_solve.
Qed.

Lemma hd_or_ne nx xs x : nx <> Some x -> x ∉ xs -> hd_or nx xs <> Some x.
Proof. destruct xs; set_solver. Qed.

Lemma last_or_ne pv xs x : pv <> Some x -> x ∉ xs -> last_or pv xs <> Some x.
Proof. revert pv. induction xs as [|y xs IH]; intros pv Hp Hx; [done|]. apply IH; set_solver. Qed.

(** Decides the tests of an item against the ends of the list. *)
Ltac decide_ends :=
  repeat match goal with
  | |- context [bool_decide (?a = ?b)] =>
      first
      [ rewrite (bool_decide_eq_true_2 (a = b)) by reflexivity
      | rewrite (bool_decide_eq_false_2 (a = b))
          by (first [ apply hd_or_ne | apply last_or_ne | idtac ];
              first [ notin | congruence ]) ]
  | |- context [bool_decide (is_Some ?a /\ is_Some ?b)] =>
      rewrite (bool_decide_eq_true_2 (is_Some a /\ is_Some b))
        by (split; first [ by eexists | apply last_or_is_Some | apply hd_or_is_Some ])
  end;
  cbn [head tail count with_head with_tail with_count assert mbind option_bind].

Ltac run_all := repeat first [ run1 | progress decide_ends ].

Lemma remove_repr s item l1 l2 :
  repr s (l1 ++ item :: l2) ->
  exists s', double_linked_list_remove_item s item = Some s' /\ repr s' (l1 ++ l2).
Proof.
  intros Hr. unfold double_linked_list_remove_item.
  assert (NoDup (l1 ++ l2)) as Hnd'.
  { destruct Hr as [Hnd _ _ _ _]. rewrite NoDup_app, !NoDup_cons in *. set_solver. }
  destruct s as [m [c h t]].
  snoc_cases l1 y; destruct l2 as [|z l2]; cbn [app] in *; open_repr Hr; destruct_notin;
    cbn [mem lst head tail count] in *; subst h t c; run_all;
    (eexists; split; [reflexivity|]); close_repr; try done;
    count_solve.
Qed.

Lemma NoDup_move_front (l1 l2 : list ptr) x :
  NoDup (l1 ++ x :: l2) -> NoDup (x :: l1 ++ l2).
Proof. rewrite <- Permutation_middle. done. Qed.

Lemma NoDup_move_back (l1 l2 : list ptr) x :
  NoDup (l1 ++ x :: l2) -> NoDup (l1 ++ l2 ++ [x]).
Proof. intros H. rewrite app_assoc, <- Permutation_cons_append. by apply NoDup_move_front. Qed.

Lemma move_to_head_repr s item l1 l2 :
  repr s (l1 ++ item :: l2) ->
  exists s', double_linked_list_move_item_to_head s item = Some s' /\
    repr s' (item :: l1 ++ l2).
Proof.
  intros Hr. unfold double_linked_list_move_item_to_head.
  pose proof (NoDup_move_front _ _ _ (repr_nodup _ _ Hr)) as Hnd'.
  destruct l1 as [|h0 l1].
  { pose proof (repr_tail _ _ Hr) as Ht. pose proof (repr_head _ _ Hr) as Hh.
    cbn [app last_or hd_or] in Ht, Hh. rewrite Hh, Ht.
    decide_ends. by eexists. }
  destruct s as [m [c h t]].
  snoc_cases l1 y; destruct l2 as [|z l2]; cbn [app] in *; open_repr Hr; destruct_notin;
    cbn [mem lst head tail count] in *; subst h t c.
  all: run_all; (eexists; split; [reflexivity|]); close_repr; try done; count_solve.
Qed.

Lemma move_to_tail_repr s item l1 l2 :
  repr s (l1 ++ item :: l2) ->
  exists s', double_linked_list_move_item_to_tail s item = Some s' /\
    repr s' (l1 ++ l2 ++ [item]).
Proof.
  intros Hr. unfold double_linked_list_move_item_to_tail.
  pose proof (NoDup_move_back _ _ _ (repr_nodup _ _ Hr)) as Hnd'.
  snoc_cases l2 t0.
  { pose proof (repr_tail _ _ Hr) as Ht. pose proof (repr_head _ _ Hr) as Hh.
    rewrite last_or_snoc in Ht. rewrite hd_or_app in Hh. cbn [hd_or] in Hh. rewrite Hh, Ht.
    decide_ends. by eexists. }
  destruct s as [m [c h t]].
  snoc_cases l1 y; destruct l2 as [|z l2]; cbn [app] in *; open_repr Hr; destruct_notin;
    cbn [mem lst head tail count] in *; subst h t c.
  all: run_all; (eexists; split; [reflexivity|]); close_repr; try done; count_solve.
Qed.

(** ** The payloads

    No operation allocates, frees or changes the [data] of an item. *)
Definition same_data (m m' : heap) : Prop := forall q, data <$> m' !! q = data <$> m !! q.

#[local] Instance same_data_preorder : PreOrder same_data.
Proof. split; [done|]. intros m1 m2 m3 H1 H2 q. by rewrite H2, H1. Qed.

Lemma same_data_insert m p it it' :
  m !! p = Some it -> data it' = data it -> same_data m (<[p := it']> m).
Proof.
  intros Hp Hd q. destruct (decide (p = q)) as [->|Hne].
  - rewrite lookup_insert_eq, Hp. cbn. by rewrite Hd.
  - by rewrite lookup_insert_ne.
Qed.

Lemma set_prev_data m p v m' : set_prev m p v = Some m' -> same_data m m'.
Proof.
  unfold set_prev. destruct (m !! p) as [it|] eqn:Hp; [|done]. intros [= <-].
  by apply (same_data_insert m p it).
Qed.

Lemma set_next_data m p v m' : set_next m p v = Some m' -> same_data m m'.
Proof.
  unfold set_next. destruct (m !! p) as [it|] eqn:Hp; [|done]. intros [= <-].
  by apply (same_data_insert m p it).
Qed.

Ltac data_chain :=
  repeat match goal with
  | H : set_prev _ _ _ = Some _ |- _ => apply set_prev_data in H
  | H : set_next _ _ _ = Some _ |- _ => apply set_next_data in H
  end;
  first [ reflexivity | eassumption
        | etransitivity; [eassumption|]; data_chain ].

Lemma insert_fix_ends_mem m l item s' : insert_fix_ends m l item = Some s' -> mem s' = m.
Proof. unfold insert_fix_ends. intros. by simplify_option_eq. Qed.

Ltac data_op :=
  intros; repeat (case_match; simplify_option_eq);
  repeat match goal with
  | H : insert_fix_ends _ _ _ = Some _ |- _ => apply insert_fix_ends_mem in H as ->
  end;
  cbn [mem]; data_chain.

Lemma insert_before_data s x b s' :
  double_linked_list_insert_item_before s x b = Some s' -> same_data (mem s) (mem s').
Proof. unfold double_linked_list_insert_item_before. data_op. Qed.

Lemma insert_after_data s x a s' :
  double_linked_list_insert_item_after s x a = Some s' -> same_data (mem s) (mem s').
Proof. unfold double_linked_list_insert_item_after. data_op. Qed.

Lemma remove_data s x s' :
  double_linked_list_remove_item s x = Some s' -> same_data (mem s) (mem s').
Proof. unfold double_linked_list_remove_item. data_op. Qed.

Lemma move_to_head_data s x s' :
  double_linked_list_move_item_to_head s x = Some s' -> same_data (mem s) (mem s').
Proof. unfold double_linked_list_move_item_to_head. data_op. Qed.

Lemma move_to_tail_data s x s' :
  double_linked_list_move_item_to_tail s x = Some s' -> same_data (mem s) (mem s').
Proof. unfold double_linked_list_move_item_to_tail. data_op. Qed.

(** ** Refinement of a sequence of distinct items *)

Inductive dop :=
  | DPush (x : ptr) | DPop | DUnshift (x : ptr) | DShift
  | DInsertBefore (x b : ptr) | DInsertAfter (x a : ptr)
  | DRemove (x : ptr) | DMoveToHead (x : ptr) | DMoveToTail (x : ptr).

Definition no_item (s : option state) : option (state * option ptr) :=
  s ← s; Some (s, None).

Definition dll_step (s : state) (o : dop) : option (state * option ptr) :=
  match o with
  | DPush x => no_item (double_linked_list_push_item s x)
  | DPop => double_linked_list_pop_item s
  | DUnshift x => no_item (double_linked_list_unshift_item s x)
  | DShift => double_linked_list_shift_item s
  | DInsertBefore x b => no_item (double_linked_list_insert_item_before s x (Some b))
  | DInsertAfter x a => no_item (double_linked_list_insert_item_after s x (Some a))
  | DRemove x => no_item (double_linked_list_remove_item s x)
  | DMoveToHead x => no_item (double_linked_list_move_item_to_head s x)
  | DMoveToTail x => no_item (double_linked_list_move_item_to_tail s x)
  end.

(** What each operation means on the sequence: the items it may be applied
    to, the new sequence and the returned item. *)
Inductive seq_op (m : heap) : list ptr -> dop -> list ptr -> option ptr -> Prop :=
  | seq_push xs x : is_Some (m !! x) -> x ∉ xs -> seq_op m xs (DPush x) (xs ++ [x]) None
  | seq_unshift xs x : is_Some (m !! x) -> x ∉ xs -> seq_op m xs (DUnshift x) (x :: xs) None
  | seq_pop_empty : seq_op m [] DPop [] None
  | seq_pop xs x : seq_op m (xs ++ [x]) DPop xs (Some x)
  | seq_shift_empty : seq_op m [] DShift [] None
  | seq_shift xs x : seq_op m (x :: xs) DShift xs (Some x)
  | seq_insert_before l1 b l2 x :
      is_Some (m !! x) -> x ∉ l1 ++ b :: l2 ->
      seq_op m (l1 ++ b :: l2) (DInsertBefore x b) (l1 ++ x :: b :: l2) None
  | seq_insert_after l1 a l2 x :
      is_Some (m !! x) -> x ∉ l1 ++ a :: l2 ->
      seq_op m (l1 ++ a :: l2) (DInsertAfter x a) (l1 ++ a :: x :: l2) None
  | seq_remove l1 x l2 : seq_op m (l1 ++ x :: l2) (DRemove x) (l1 ++ l2) None
  | seq_move_to_head l1 x l2 : seq_op m (l1 ++ x :: l2) (DMoveToHead x) (x :: l1 ++ l2) None
  | seq_move_to_tail l1 x l2 : seq_op m (l1 ++ x :: l2) (DMoveToTail x) (l1 ++ l2 ++ [x]) None.

Lemma insert_first_before s item :
  repr s [] ->
  double_linked_list_insert_item_before s item None =
  double_linked_list_insert_item_after s item None.
Proof. done. Qed.

Lemma dll_step_repr s xs o xs' r :
  repr s xs -> seq_op (mem s) xs o xs' r ->
  exists s', dll_step s o = Some (s', r) /\ repr s' xs'.
Proof.
  intros Hr Ho. destruct Ho; cbn [dll_step]; unfold no_item, double_linked_list_push_item,
    double_linked_list_unshift_item, double_linked_list_pop_item, double_linked_list_shift_item;
    rewrite ?(repr_head _ _ Hr), ?(repr_tail _ _ Hr).
  - destruct xs as [|y xs _] using rev_ind.
    + cbn [last_or]. destruct (insert_first_repr s x) as (s' & -> & ?); [done..|]. by exists s'.
    + rewrite last_or_snoc, <- app_assoc.
      destruct (insert_after_repr s x y xs []) as (s' & -> & ?); [done..|]. by exists s'.
  - destruct xs as [|y xs].
    + cbn [hd_or]. rewrite insert_first_before by done.
      destruct (insert_first_repr s x) as (s' & -> & ?); [done..|]. by exists s'.
    + cbn [hd_or]. destruct (insert_before_repr s x y [] xs) as (s' & -> & ?); [done..|]. by exists s'.
  - by exists s.
  - rewrite last_or_snoc. destruct (remove_repr s x xs []) as (s' & -> & Hs'); [done|].
    rewrite app_nil_r in Hs'. by exists s'.
  - by exists s.
  - destruct (remove_repr s x [] xs) as (s' & E & ?); [done|]. cbn [hd_or]. rewrite E. by exists s'.
  - destruct (insert_before_repr s x b l1 l2) as (s' & -> & ?); [done..|]. by exists s'.
  - destruct (insert_after_repr s x a l1 l2) as (s' & -> & ?); [done..|]. by exists s'.
  - destruct (remove_repr s x l1 l2) as (s' & -> & ?); [done..|]. by exists s'.
  - destruct (move_to_head_repr s x l1 l2) as (s' & -> & ?); [done..|]. by exists s'.
  - destruct (move_to_tail_repr s x l1 l2) as (s' & -> & ?); [done..|]. by exists s'.
Qed.

Lemma no_item_inv o s' r : no_item o = Some (s', r) -> o = Some s'.
Proof. unfold no_item. destruct o; cbn; congruence. Qed.

Lemma take_item_inv s x s' r :
  (s1 ← double_linked_list_remove_item s x; Some (s1, Some x)) = Some (s', r) ->
  double_linked_list_remove_item s x = Some s'.
Proof. destruct (double_linked_list_remove_item s x); cbn; congruence. Qed.

Lemma dll_step_data s o s' r : dll_step s o = Some (s', r) -> same_data (mem s) (mem s').
Proof.
  destruct o; cbn [dll_step]; unfold double_linked_list_pop_item, double_linked_list_shift_item.
  2, 4: case_match;
    [intros Hi%take_item_inv; by eapply remove_data|intros Hi; injection Hi as <- _; reflexivity].
  all: intros H%no_item_inv.
  - by eapply insert_after_data.
  - by eapply insert_before_data.
  - by eapply insert_before_data.
  - by eapply insert_after_data.
  - by eapply remove_data.
  - by eapply move_to_head_data.
  - by eapply move_to_tail_data.
Qed.

(** ** Iteration

    The loops of DOUBLE_LINKED_LIST_ITER_FORWARD and _BACKWARD, collecting the
    visited items; the fuel bounds the number of iterations. *)
Fixpoint iter_forward (fuel : nat) (s : state) (item : option ptr) : option (list ptr) :=
  match item, fuel with
  | None, _ => Some []
  | Some _, O => None
  | Some p, S fuel =>
      nx ← double_linked_list_iter_next s (Some p);
      rest ← iter_forward fuel s nx;
      Some (p :: rest)
  end.

Fixpoint iter_backward (fuel : nat) (s : state) (item : option ptr) : option (list ptr) :=
  match item, fuel with
  | None, _ => Some []
  | Some _, O => None
  | Some p, S fuel =>
      pv ← double_linked_list_iter_prev s (Some p);
      rest ← iter_backward fuel s pv;
      Some (p :: rest)
  end.

Lemma iter_forward_seg s pv xs :
  dseg (mem s) pv xs None -> iter_forward (length xs) s (hd_or None xs) = Some xs.
Proof.
  revert pv. induction xs as [|x xs IH]; intros pv; cbn [dseg length hd_or iter_forward]; [done|].
  intros [[d Hd] Hs]. cbn [double_linked_list_iter_next].
  rewrite (get_next_Some _ _ _ Hd). cbn [mbind option_bind next]. by rewrite (IH (Some x)).
Qed.

Lemma iter_backward_seg s xs nx :
  dseg (mem s) None xs nx -> iter_backward (length xs) s (last_or None xs) = Some (rev xs).
Proof.
  revert nx. induction xs as [|x xs IH] using rev_ind; intros nx; [done|].
  rewrite dseg_app. cbn [dseg hd_or]. intros [Hs [[d Hd] _]].
  rewrite last_or_snoc, length_app, Nat.add_comm, rev_app_distr. cbn.
  rewrite (get_prev_Some _ _ _ Hd). cbn. by rewrite (IH (Some x)).
Qed.

End dll.

Arguments state : clear implicits.
Arguments double_linked_list_item : clear implicits.

(** ** Properties *)

(** C21: every operation of the intrusive list (push, pop, unshift, shift,
    insert before/after an item, remove, move to head, move to tail), applied
    to a list representing the sequence [xs] of distinct items, succeeds
    without dereferencing an invalid pointer, leaves the list representing the
    sequence the operation means, returns the expected item, and neither
    allocates, frees nor changes the payload of any item. *)
Theorem dll_refines_sequence {D : Type} (s : state D) (xs : list Z) o xs' r :
  repr s xs -> seq_op (mem s) xs o xs' r ->
  exists s', dll_step s o = Some (s', r) /\ repr s' xs' /\ same_data (mem s) (mem s').
Proof.
  intros Hr Ho. destruct (dll_step_repr s xs o xs' r Hr Ho) as (s' & He & Hr').
  exists s'. split; [done|]. split; [done|]. by eapply dll_step_data.
Qed.

Definition example_heap : gmap Z (double_linked_list_item nat) :=
  <[1 := Item None (Some 2) 10%nat]> (<[2 := Item (Some 1) None 20%nat]>
    (<[3 := Item None None 30%nat]> ∅)).
Definition example_state : state nat := State example_heap (DList 2 (Some 1) (Some 2)).

Lemma example_repr : repr example_state [1; 2].
Proof.
  split.
  - apply NoDup_cons_2; [set_solver|apply NoDup_singleton].
  - cbn. split; [by eexists|]. split; [by eexists|done].
  - done.
  - done.
  - done.
Qed.

Lemma dll_refines_sequence_witness :
  exists s', dll_step example_state (DInsertAfter 3 1) = Some (s', None) /\
    repr s' [1; 3; 2] /\ same_data (mem example_state) (mem s').
Proof.
  apply (dll_refines_sequence example_state [1; 2] (DInsertAfter 3 1) [1; 3; 2] None).
  - exact example_repr.
  - apply (seq_insert_after _ [] 1 [2] 3); [by eexists|set_solver].
Defined.

(** Iterating a well-formed list forward (backward) terminates after as
    many iterations as it has items and visits each of them exactly once, in
    order (in reverse order). *)
Theorem dll_iteration_visits_all {D : Type} (s : state D) (xs : list Z) :
  repr s xs ->
  iter_forward (length xs) s (head (lst s)) = Some xs /\
  iter_backward (length xs) s (tail (lst s)) = Some (rev xs).
Proof.
  intros [_ Hs Hh Ht _]. rewrite Hh, Ht. split.
  - by apply (iter_forward_seg s None).
  - by apply (iter_backward_seg s xs None).
Qed.

Lemma dll_iteration_visits_all_witness :
  iter_forward 2 example_state (Some 1) = Some [1; 2] /\
  iter_backward 2 example_state (Some 2) = Some [2; 1].
Proof. apply (dll_iteration_visits_all example_state [1; 2]). exact example_repr. Defined.

End DoubleLinkedList.
