(* ===== verification/SlotsBitmap.v ===== *)
(** * SlotsBitmap: the single-threaded slots bitmap

    slots_bitmap_spsc.c: a bitmap of 64-bit shards with a per-shard counter of
    used slots and a bitmap of the full shards. *)

From stdpp Require Import gmap.
From S2P Require Import Prelude.

Module SlotsBitmap.

Definition SHARD_SIZE : Z := 64.
Definition UINT8_MAX : Z := 255.
Definition UINT64_MAX : Z := 2 ^ 64 - 1.

Record slots_bitmap_spsc := Bitmap {
  size : Z;
  shards_count : Z;
  shards : list Z;
  shards_used_slots : list Z;
  shards_full : list Z
}.

(** [(double)x] for a 64-bit unsigned [x]: round to nearest, ties to even. *)
Definition double_of_u64 (x : Z) : Z :=
  if x <? 2 ^ 53 then x else
  let e := Z.log2 x - 52 in
  let q := x / 2 ^ e in
  let r := x `mod` 2 ^ e in
  let half := 2 ^ (e - 1) in
  let q := if (half <? r) || ((r =? half) && Z.odd q) then q + 1 else q in
  q * 2 ^ e.

(** [(uint64_t)ceil((double)x / (double)d)] for [d] a power of two: the
    quotient is exact. *)
Definition ceil_div_double (x d : Z) : Z := u64 ((double_of_u64 x + d - 1) / d).

Definition slots_bitmap_spsc_calculate_shard_count (size : Z) : Z :=
  ceil_div_double size SHARD_SIZE.

Definition slots_bitmap_spsc_calculate_shard_full_count (shards_count : Z) : Z :=
  ceil_div_double shards_count 8.

Definition slots_bitmap_spsc_init (size : Z) : option slots_bitmap_spsc :=
  if size =? 0 then None else
  let shards_count := slots_bitmap_spsc_calculate_shard_count size in
  Some {| size := u64 (shards_count * SHARD_SIZE);
          shards_count := shards_count;
          shards := replicate (Z.to_nat shards_count) 0;
          shards_used_slots := replicate (Z.to_nat shards_count) 0;
          shards_full :=
            replicate (Z.to_nat (slots_bitmap_spsc_calculate_shard_full_count shards_count)) 0 |}.

Definition rd (l : list Z) (i : Z) : Z := default 0 (zget l i).

Definition slots_bitmap_spsc_set_shard_full_bit (b : slots_bitmap_spsc) (shard_index : Z)
    (full : bool) : slots_bitmap_spsc :=
  let shards_full_index := shard_index / 8 in
  let shards_full_bit_index := shard_index `mod` 8 in
  let old := rd (shards_full b) shards_full_index in
  let new :=
    if full then Z.lor old (Z.shiftl 1 shards_full_bit_index)
    else Z.land old (u64 (Z.lnot (Z.shiftl 1 shards_full_bit_index))) in
  {| size := size b; shards_count := shards_count b; shards := shards b;
     shards_used_slots := shards_used_slots b;
     shards_full := zset (shards_full b) shards_full_index new |}.

Definition slots_bitmap_spsc_is_shard_full (b : slots_bitmap_spsc) (shard_index : Z) : bool :=
  let shard_full_index := shard_index / 8 in
  let shard_full_bit_index := shard_index `mod` 8 in
  negb (Z.land (Z.shiftr (rd (shards_full b) shard_full_index) shard_full_bit_index) 1 =? 0).

(** The 65536 entries of slots_bitmap_spsc_first_free_bit_table: the position
    of the lowest zero bit of the index, 0xFF when all 16 bits are set. *)
Fixpoint lowest_zero (n : nat) (i x : Z) : Z :=
  match n with
  | O => UINT8_MAX
  | S n => if Z.testbit x i then lowest_zero n (i + 1) x else i
  end.

Definition slots_bitmap_spsc_first_free_bit_table (x : Z) : Z := lowest_zero 16 0 x.

(** The loop over the four 16-bit words of a shard, from word [w]. *)
Fixpoint find_first_zero_from (n : nat) (w shard : Z) : Z :=
  match n with
  | O => UINT8_MAX
  | S n =>
      let uint16_bytes := Z.land (Z.shiftr shard (w * 8)) 0xFFFF in
      let first := slots_bitmap_spsc_first_free_bit_table uint16_bytes in
      if first =? UINT8_MAX then find_first_zero_from n (w + 2) shard
      else u8 (first + w * 8)
  end.

Definition slots_bitmap_spsc_shard_find_first_zero (shard : Z) : Z :=
  find_first_zero_from 4 0 shard.

(** The body of the loop of [get_next_available_ptr] once a shard that is not
    full has been found. *)
Definition take_in_shard (b : slots_bitmap_spsc) (shard_index : Z) : slots_bitmap_spsc * Z :=
  let shard := rd (shards b) shard_index in
  let bit_index := slots_bitmap_spsc_shard_find_first_zero shard in
  let used := u8 (rd (shards_used_slots b) shard_index + 1) in
  let b :=
    {| size := size b; shards_count := shards_count b;
       shards := zset (shards b) shard_index (Z.lor shard (u64 (Z.shiftl 1 bit_index)));
       shards_used_slots := zset (shards_used_slots b) shard_index used;
       shards_full := shards_full b |} in
  let b := if used =? SHARD_SIZE
           then slots_bitmap_spsc_set_shard_full_bit b shard_index true else b in
  (b, u64 (shard_index * SHARD_SIZE + bit_index)).

Fixpoint next_available_from (n : nat) (b : slots_bitmap_spsc) (shard_index : Z)
    : option (slots_bitmap_spsc * Z) :=
  match n with
  | O => None
  | S n =>
      if slots_bitmap_spsc_is_shard_full b shard_index
      then next_available_from n b (shard_index + 1)
      else Some (take_in_shard b shard_index)
  end.

Definition slots_bitmap_spsc_get_next_available_ptr (b : slots_bitmap_spsc)
    : option (slots_bitmap_spsc * Z) :=
  next_available_from (Z.to_nat (shards_count b)) b 0.

Definition slots_bitmap_spsc_get_next_available (b : slots_bitmap_spsc)
    : slots_bitmap_spsc * Z :=
  match slots_bitmap_spsc_get_next_available_ptr b with
  | Some (b', index) => (b', index)
  | None => (b, UINT64_MAX)
  end.

Definition slots_bitmap_spsc_release (b : slots_bitmap_spsc) (bitmap_index : Z)
    : slots_bitmap_spsc :=
  let shard_index := u16 (bitmap_index / SHARD_SIZE) in
  let bit_index := u8 (bitmap_index `mod` SHARD_SIZE) in
  let b :=
    {| size := size b; shards_count := shards_count b; shards := shards b;
       shards_used_slots :=
         zset (shards_used_slots b) shard_index (u8 (rd (shards_used_slots b) shard_index - 1));
       shards_full := shards_full b |} in
  let b := slots_bitmap_spsc_set_shard_full_bit b shard_index false in
  {| size := size b; shards_count := shards_count b;
     shards := zset (shards b) shard_index
                 (u64 (rd (shards b) shard_index - u64 (Z.shiftl 1 bit_index)));
     shards_used_slots := shards_used_slots b;
     shards_full := shards_full b |}.

(** ** Counting bits *)

Fixpoint popcount (n : nat) (x : Z) : Z :=
  match n with
  | O => 0
  | S n => popcount n x + (if Z.testbit x (Z.of_nat n) then 1 else 0)
  end.

Lemma popcount_bounds n x : 0 <= popcount n x <= Z.of_nat n.
Proof. induction n as [|n IH]; cbn [popcount]; [lia|]. destruct (Z.testbit x _); lia. Qed.

Lemma popcount_ext n x y :
  (forall i, 0 <= i < Z.of_nat n -> Z.testbit x i = Z.testbit y i) -> popcount n x = popcount n y.
Proof.
  induction n as [|n IH]; intros H; cbn [popcount]; [done|].
  rewrite IH by (intros; apply H; lia). by rewrite (H (Z.of_nat n)) by lia.
Qed.

Lemma popcount_full n x :
  popcount n x = Z.of_nat n <-> forall i, 0 <= i < Z.of_nat n -> Z.testbit x i = true.
Proof.
  induction n as [|n IH]; cbn [popcount]; [split; [lia|done]|].
  pose proof (popcount_bounds n x). destruct (Z.testbit x (Z.of_nat n)) eqn:Hb.
  - rewrite Nat2Z.inj_succ. split.
    + intros He i Hi. destruct (decide (i = Z.of_nat n)) as [->|]; [done|].
      apply IH; lia.
    + intros Ha. rewrite (proj2 IH); [lia|]. intros; apply Ha; lia.
  - split; [lia|]. intros Ha. rewrite Ha in Hb by lia. done.
Qed.

(** [y] is [x] with the zero bit [k] set. *)
Definition adds_bit (x y k : Z) : Prop :=
  Z.testbit x k = false /\
  forall i, 0 <= i -> Z.testbit y i = Z.testbit x i || (i =? k).

Lemma popcount_adds_bit n x y k :
  0 <= k < Z.of_nat n -> adds_bit x y k -> popcount n y = popcount n x + 1.
Proof.
  intros Hk [Hf Hy]. induction n as [|n IH]; [lia|]. cbn [popcount].
  destruct (decide (k = Z.of_nat n)) as [->|Hne].
  - rewrite (popcount_ext n y x).
    + rewrite Hy, Hf, Z.eqb_refl by lia. cbn. lia.
    + intros i Hi. rewrite Hy by lia. destruct (Z.eqb_spec i (Z.of_nat n)); [lia|].
      apply orb_false_r.
  - rewrite IH by lia. rewrite Hy by lia.
    destruct (Z.eqb_spec (Z.of_nat n) k); [lia|]. rewrite orb_false_r. lia.
Qed.

Lemma lor_adds_bit x k :
  0 <= k -> Z.testbit x k = false -> adds_bit x (Z.lor x (Z.shiftl 1 k)) k.
Proof.
  intros Hk Hf. split; [done|]. intros i Hi.
  rewrite Z.lor_spec, Z.shiftl_1_l, Z.pow2_bits_eqb by lia. f_equal. apply Z.eqb_sym.
Qed.

Lemma sub_adds_bit x k : 0 <= k -> Z.testbit x k = true -> adds_bit (x - Z.shiftl 1 k) x k.
Proof.
  intros Hk Ht. rewrite Z.shiftl_1_l.
  assert (x - 2 ^ k = Z.ldiff x (2 ^ k)) as ->.
  { apply Z.sub_nocarry_ldiff. apply Z.bits_inj'. intros i Hi.
    rewrite Z.ldiff_spec, Z.bits_0, Z.pow2_bits_eqb by lia.
    destruct (Z.eqb_spec k i) as [<-|]; [by rewrite Ht|done]. }
  assert (forall i, 0 <= i -> Z.testbit (Z.ldiff x (2 ^ k)) i = Z.testbit x i && negb (i =? k)) as He.
  { intros i Hi. rewrite Z.ldiff_spec, Z.pow2_bits_eqb by lia. by rewrite (Z.eqb_sym k i). }
  split.
  - rewrite He, Z.eqb_refl by lia. apply andb_false_r.
  - intros i Hi. rewrite He by lia. destruct (Z.eqb_spec i k) as [->|]; rewrite ?Ht.
    + done.
    + by rewrite andb_true_r, orb_false_r.
Qed.

(** ** The first zero bit of a shard *)

Lemma lowest_zero_spec n i x :
  0 <= i -> i + Z.of_nat n <= 64 ->
  (lowest_zero n i x = UINT8_MAX /\ forall j, i <= j < i + Z.of_nat n -> Z.testbit x j = true) \/
  (i <= lowest_zero n i x < i + Z.of_nat n /\ Z.testbit x (lowest_zero n i x) = false /\
   forall j, i <= j < lowest_zero n i x -> Z.testbit x j = true).
Proof.
  revert i. induction n as [|n IH]; intros i Hi Hle; cbn [lowest_zero].
  - left. split; [done|]. lia.
  - destruct (Z.testbit x i) eqn:Hb.
    + destruct (IH (i + 1)) as [[He Ha]|(Hr & Hz & Ha)]; [lia..| |].
      * left. split; [done|]. intros j Hj. destruct (decide (j = i)) as [->|]; [done|].
        apply Ha. lia.
      * right. split; [lia|]. split; [done|]. intros j Hj.
        destruct (decide (j = i)) as [->|]; [done|]. apply Ha. lia.
    + right. split; [lia|]. split; [done|]. lia.
Qed.

Lemma word_testbit shard w j :
  0 <= w -> 0 <= j < 16 ->
  Z.testbit (Z.land (Z.shiftr shard w) 0xFFFF) j = Z.testbit shard (w + j).
Proof.
  intros Hw Hj. rewrite Z.land_spec. change 0xFFFF with (Z.ones 16).
  rewrite Z.testbit_ones_nonneg by lia. rewrite Z.shiftr_spec by lia.
  rewrite (Z.add_comm j w). destruct (Z.ltb_spec j 16); [apply andb_true_r|lia].
Qed.

Lemma find_first_zero_from_spec n w shard :
  0 <= w -> w * 8 + 16 * Z.of_nat n = 64 ->
  (find_first_zero_from n w shard = UINT8_MAX /\
     forall j, w * 8 <= j < 64 -> Z.testbit shard j = true) \/
  (w * 8 <= find_first_zero_from n w shard < 64 /\
     Z.testbit shard (find_first_zero_from n w shard) = false /\
     forall j, w * 8 <= j < find_first_zero_from n w shard -> Z.testbit shard j = true).
Proof.
  revert w. induction n as [|n IH]; intros w Hw Hn; cbn [find_first_zero_from].
  - left. split; [done|]. lia.
  - unfold slots_bitmap_spsc_first_free_bit_table.
    set (word := Z.land (Z.shiftr shard (w * 8)) 65535).
    assert (forall j, w * 8 <= j < w * 8 + 16 -> Z.testbit shard j = Z.testbit word (j - w * 8)) as Hw16.
    { intros j Hj. unfold word. rewrite word_testbit by lia. f_equal. lia. }
    destruct (lowest_zero_spec 16 0 word ltac:(lia) ltac:(lia)) as [[He Ha]|(Hr & Hz & Ha)].
    + rewrite He, Z.eqb_refl.
      destruct (IH (w + 2) ltac:(lia) ltac:(lia)) as [[He' Ha']|(Hr' & Hz' & Ha')].
      * left. split; [done|]. intros j Hj. destruct (decide (j < w * 8 + 16)).
        -- rewrite Hw16 by lia. apply Ha. lia.
        -- apply Ha'. lia.
      * right. split; [lia|]. split; [done|]. intros j Hj. destruct (decide (j < w * 8 + 16)).
        -- rewrite Hw16 by lia. apply Ha. lia.
        -- apply Ha'. lia.
    + destruct (Z.eqb_spec (lowest_zero 16 0 word) UINT8_MAX) as [Hx|_];
        [unfold UINT8_MAX in Hx; lia|].
      rewrite wrap_small by mach_lia. right. split; [lia|]. split.
      * rewrite Hw16 by lia.
        by replace (lowest_zero 16 0 word + w * 8 - w * 8) with (lowest_zero 16 0 word) by lia.
      * intros j Hj. rewrite Hw16 by lia. apply Ha. lia.
Qed.

(** ** The bitmap of the full shards *)

Lemma land_shiftr_1 x k : 0 <= k -> negb (Z.land (Z.shiftr x k) 1 =? 0) = Z.testbit x k.
Proof.
  intros Hk. change 1 with (Z.ones 1). rewrite Z.land_ones by lia. change (2 ^ 1) with 2.
  rewrite <- Z.bit0_mod, Z.shiftr_spec by lia. rewrite Z.add_0_l. by destruct (Z.testbit x k).
Qed.

Lemma rd_zset_eq l i v : 0 <= i < zlen l -> rd (zset l i v) i = v.
Proof. intros Hi. unfold rd. by rewrite zget_zset_eq. Qed.

Lemma rd_zset_ne l i j v : i <> j -> rd (zset l i v) j = rd l j.
Proof. intros Hne. unfold rd. by rewrite zget_zset_ne. Qed.

Lemma rd_replicate0 n i : rd (replicate n 0) i = 0.
Proof.
  unfold rd, zget. destruct (i <? 0); [done|].
  destruct (replicate n 0 !! Z.to_nat i) eqn:H; [|done].
  apply lookup_replicate in H as [-> _]. done.
Qed.

Lemma is_shard_full_testbit b i :
  0 <= i -> slots_bitmap_spsc_is_shard_full b i = Z.testbit (rd (shards_full b) (i / 8)) (i `mod` 8).
Proof.
  intros Hi. unfold slots_bitmap_spsc_is_shard_full. apply land_shiftr_1.
  apply Z.mod_pos_bound. lia.
Qed.

Lemma full_word_bit (full : bool) old k j :
  0 <= k < 8 -> 0 <= j < 8 ->
  Z.testbit (if full then Z.lor old (Z.shiftl 1 k)
             else Z.land old (u64 (Z.lnot (Z.shiftl 1 k)))) j
  = if j =? k then full else Z.testbit old j.
Proof.
  intros Hk Hj. rewrite Z.shiftl_1_l. destruct full.
  - rewrite Z.lor_spec, Z.pow2_bits_eqb, (Z.eqb_sym k j) by lia.
    destruct (Z.eqb_spec j k); [apply orb_true_r|apply orb_false_r].
  - unfold wrap. rewrite <- Z.land_ones by lia.
    rewrite !Z.land_spec, Z.lnot_spec, Z.pow2_bits_eqb, Z.testbit_ones_nonneg by lia.
    rewrite (Z.eqb_sym k j). destruct (Z.ltb_spec j 64); [|lia]. rewrite andb_true_r.
    destruct (Z.eqb_spec j k); [apply andb_false_r|apply andb_true_r].
Qed.

Lemma set_full_bit_spec b i j full :
  0 <= i -> i / 8 < zlen (shards_full b) -> 0 <= j ->
  slots_bitmap_spsc_is_shard_full (slots_bitmap_spsc_set_shard_full_bit b i full) j
  = if j =? i then full else slots_bitmap_spsc_is_shard_full b j.
Proof.
  intros Hi Hl Hj. rewrite !is_shard_full_testbit by lia.
  unfold slots_bitmap_spsc_set_shard_full_bit. cbn [shards_full].
  pose proof (Z.mod_pos_bound i 8 ltac:(lia)). pose proof (Z.mod_pos_bound j 8 ltac:(lia)).
  pose proof (Z.div_mod i 8 ltac:(lia)). pose proof (Z.div_mod j 8 ltac:(lia)).
  assert (0 <= i / 8) by (apply Z.div_pos; lia).
  destruct (decide (i / 8 = j / 8)) as [He|Hne].
  - rewrite <- He, rd_zset_eq by lia. rewrite full_word_bit by lia.
    destruct (Z.eqb_spec (j `mod` 8) (i `mod` 8)), (Z.eqb_spec j i); try done; lia.
  - rewrite rd_zset_ne by done. destruct (Z.eqb_spec j i); [congruence|done].
Qed.

(** ** The invariant *)

Record inv (b : slots_bitmap_spsc) : Prop := {
  inv_count : 0 <= shards_count b <= 2 ^ 48;
  inv_size : size b = shards_count b * SHARD_SIZE;
  inv_shards : zlen (shards b) = shards_count b;
  inv_used_len : zlen (shards_used_slots b) = shards_count b;
  inv_full_len : shards_count b <= zlen (shards_full b) * 8;
  inv_shard : forall i, 0 <= i < shards_count b -> in_u 64 (rd (shards b) i);
  inv_used : forall i, 0 <= i < shards_count b ->
    rd (shards_used_slots b) i = popcount 64 (rd (shards b) i);
  inv_full : forall i, 0 <= i < shards_count b ->
    slots_bitmap_spsc_is_shard_full b i = (rd (shards_used_slots b) i =? SHARD_SIZE)
}.

(** Slot [idx] is taken. *)
Definition taken (b : slots_bitmap_spsc) (idx : Z) : bool :=
  Z.testbit (rd (shards b) (idx / SHARD_SIZE)) (idx `mod` SHARD_SIZE).

Lemma slot_index i k : 0 <= k < 64 ->
  (i * SHARD_SIZE + k) / SHARD_SIZE = i /\ (i * SHARD_SIZE + k) `mod` SHARD_SIZE = k.
Proof.
  intros Hk. unfold SHARD_SIZE. rewrite Z.add_comm, Z_div_plus_full, Z_mod_plus_full by lia.
  rewrite Z.div_small, Z.mod_small by lia. lia.
Qed.

Lemma slot_split idx : 0 <= idx ->
  idx = idx / SHARD_SIZE * SHARD_SIZE + idx `mod` SHARD_SIZE /\
  0 <= idx / SHARD_SIZE /\ 0 <= idx `mod` SHARD_SIZE < 64.
Proof.
  intros Hi. unfold SHARD_SIZE. pose proof (Z.div_mod idx 64 ltac:(lia)).
  pose proof (Z.mod_pos_bound idx 64 ltac:(lia)). pose proof (Z.div_pos idx 64). lia.
Qed.

Lemma full_shard_taken b i :
  inv b -> 0 <= i < shards_count b -> slots_bitmap_spsc_is_shard_full b i = true ->
  forall k, 0 <= k < 64 -> Z.testbit (rd (shards b) i) k = true.
Proof.
  intros Hi Hr Hf. rewrite (inv_full b Hi), Z.eqb_eq in Hf by lia.
  rewrite (inv_used b Hi) in Hf by lia. by apply (popcount_full 64).
Qed.

Lemma not_full_zero b i :
  inv b -> 0 <= i < shards_count b -> slots_bitmap_spsc_is_shard_full b i = false ->
  let k := slots_bitmap_spsc_shard_find_first_zero (rd (shards b) i) in
  0 <= k < 64 /\ Z.testbit (rd (shards b) i) k = false /\
  forall j, 0 <= j < k -> Z.testbit (rd (shards b) i) j = true.
Proof.
  intros Hi Hr Hf k. rewrite (inv_full b Hi), Z.eqb_neq, (inv_used b Hi) in Hf by lia.
  destruct (find_first_zero_from_spec 4 0 (rd (shards b) i) ltac:(lia) ltac:(lia))
    as [[_ Ha]|(Hk & Hz & Ha)].
  - exfalso. apply Hf. apply (popcount_full 64). intros j Hj. apply Ha. lia.
  - change (find_first_zero_from 4 0 (rd (shards b) i)) with k in *.
    split; [lia|]. split; [exact Hz|]. intros j Hj. apply Ha. lia.
Qed.

(** Replacing the value, the counter and the full bit of one shard by
    consistent ones keeps the invariant. *)
Lemma inv_update b i v u f :
  inv b -> 0 <= i < shards_count b -> in_u 64 v -> u = popcount 64 v ->
  (forall j, 0 <= j < shards_count b ->
     slots_bitmap_spsc_is_shard_full f j =
     if j =? i then u =? SHARD_SIZE else slots_bitmap_spsc_is_shard_full b j) ->
  zlen (shards_full f) = zlen (shards_full b) ->
  inv {| size := size b; shards_count := shards_count b; shards := zset (shards b) i v;
         shards_used_slots := zset (shards_used_slots b) i u; shards_full := shards_full f |}.
Proof.
  intros Hi Hr Hv Hu Hf Hl. destruct Hi.
  split; cbn [size shards_count shards shards_used_slots shards_full]; rewrite ?zlen_zset; try done.
  - by rewrite Hl.
  - intros j Hj. destruct (decide (i = j)) as [->|Hne].
    + rewrite rd_zset_eq by lia. done.
    + rewrite rd_zset_ne by done. auto.
  - intros j Hj. destruct (decide (i = j)) as [->|Hne].
    + rewrite !rd_zset_eq by lia. done.
    + rewrite !rd_zset_ne by done. auto.
  - intros j Hj. change (slots_bitmap_spsc_is_shard_full _ j) with
      (slots_bitmap_spsc_is_shard_full f j). rewrite Hf by lia.
    destruct (Z.eqb_spec j i) as [->|Hne].
    + rewrite rd_zset_eq by lia. done.
    + rewrite rd_zset_ne by congruence. auto.
Qed.

Lemma shift1_u64 k : 0 <= k < 64 -> u64 (Z.shiftl 1 k) = Z.shiftl 1 k.
Proof.
  intros Hk. apply wrap_small. rewrite Z.shiftl_1_l.
  split; [apply Z.pow_nonneg; lia|]. apply Z.pow_lt_mono_r; lia.
Qed.

Lemma u64_bound_bits x : 0 <= x -> (forall i, 64 <= i -> Z.testbit x i = false) -> in_u 64 x.
Proof.
  intros Hx Hb. split; [done|]. destruct (decide (x = 0)) as [->|]; [lia|].
  apply Z.log2_lt_pow2; [lia|]. destruct (Z.lt_ge_cases (Z.log2 x) 64); [done|].
  assert (Z.testbit x (Z.log2 x) = false) as Hf by (apply Hb; lia).
  rewrite Z.bit_log2 in Hf by lia. done.
Qed.

Lemma set_full_bit_len b i full :
  zlen (shards_full (slots_bitmap_spsc_set_shard_full_bit b i full)) = zlen (shards_full b).
Proof. unfold slots_bitmap_spsc_set_shard_full_bit. cbn [shards_full]. apply zlen_zset. Qed.

Lemma full_index_in_range b i :
  inv b -> 0 <= i < shards_count b -> i / 8 < zlen (shards_full b).
Proof.
  intros Hi Hr. pose proof (inv_full_len b Hi). apply Z.div_lt_upper_bound; lia.
Qed.

(** The effect of changing one bit of one shard on [taken]. *)
Lemma taken_set_bit b i v k (x : bool) b' :
  0 <= i < zlen (shards b) -> 0 <= k < 64 ->
  shards b' = zset (shards b) i v ->
  (forall j, 0 <= j < 64 -> Z.testbit v j = if j =? k then x else Z.testbit (rd (shards b) i) j) ->
  forall j, 0 <= j -> taken b' j = if j =? i * SHARD_SIZE + k then x else taken b j.
Proof.
  intros Hi Hk He Hv j Hj. unfold taken. rewrite He.
  destruct (slot_split j Hj) as (Hs & Hq & Hm).
  destruct (slot_index i k Hk) as [Hq' Hm'].
  destruct (decide (j / SHARD_SIZE = i)) as [Hji|Hji].
  - rewrite Hji, rd_zset_eq by lia. rewrite Hv by lia.
    destruct (Z.eqb_spec (j `mod` SHARD_SIZE) k), (Z.eqb_spec j (i * SHARD_SIZE + k));
      subst; try done; lia.
  - rewrite rd_zset_ne by congruence.
    destruct (Z.eqb_spec j (i * SHARD_SIZE + k)); [congruence|done].
Qed.

Lemma take_in_shard_spec b i b' idx :
  inv b -> 0 <= i < shards_count b -> slots_bitmap_spsc_is_shard_full b i = false ->
  take_in_shard b i = (b', idx) ->
  inv b' /\ size b' = size b /\ i * SHARD_SIZE <= idx < (i + 1) * SHARD_SIZE /\
  taken b idx = false /\
  (forall j, i * SHARD_SIZE <= j < idx -> taken b j = true) /\
  (forall j, 0 <= j -> taken b' j = if j =? idx then true else taken b j).
Proof.
  intros Hi Hr Hf. unfold take_in_shard.
  destruct (not_full_zero b i Hi Hr Hf) as (Hk & Hz & Hlow).
  set (k := slots_bitmap_spsc_shard_find_first_zero (rd (shards b) i)) in *.
  pose proof (inv_shard b Hi i Hr) as Hs. pose proof (inv_count b Hi).
  rewrite shift1_u64 by lia. pose proof (lor_adds_bit _ _ (proj1 Hk) Hz) as Hab.
  set (v := Z.lor (rd (shards b) i) (Z.shiftl 1 k)) in *.
  pose proof (popcount_adds_bit 64 _ v k ltac:(lia) Hab) as Hp.
  pose proof (popcount_bounds 64 v). pose proof (popcount_bounds 64 (rd (shards b) i)).
  rewrite (inv_used b Hi), <- Hp by lia. rewrite (wrap_small 8) by mach_lia.
  rewrite (wrap_small 64) by (unfold SHARD_SIZE; mach_lia).
  intros [<- <-]%pair_equal_spec.
  assert (in_u 64 v) as Hv.
  { apply u64_bound_bits.
    - apply Z.lor_nonneg. split; [apply Hs|]. rewrite Z.shiftl_1_l. apply Z.pow_nonneg. lia.
    - intros j Hj. destruct Hab as [_ Hb]. rewrite Hb by lia.
      destruct (Z.eqb_spec j k); [lia|]. rewrite orb_false_r.
      apply (Z.bits_above_log2 _ _ (proj1 Hs)).
      destruct (decide (rd (shards b) i = 0)) as [->|]; [cbn; lia|].
      apply Z.log2_lt_pow2; [unfold in_u in Hs; lia|].
      apply Z.lt_le_trans with (2 ^ 64); [apply Hs|]. apply Z.pow_le_mono_r; lia. }
  split; [|split; [by destruct (_ =? _)|split; [unfold SHARD_SIZE; lia|split; [|split]]]].
  - pose proof (inv_update b i v (popcount 64 v)
      (if popcount 64 v =? SHARD_SIZE then slots_bitmap_spsc_set_shard_full_bit b i true else b)
      Hi Hr Hv eq_refl) as Hu.
    destruct (popcount 64 v =? SHARD_SIZE) eqn:Hfull; apply Hu.
    + intros j Hj. apply set_full_bit_spec; [lia|by apply full_index_in_range|lia].
    + apply set_full_bit_len.
    + intros j Hj. destruct (Z.eqb_spec j i) as [->|]; [done|done].
    + done.
  - unfold taken. destruct (slot_index i k Hk) as [-> ->]. done.
  - intros j Hj. unfold taken. replace j with (i * SHARD_SIZE + (j - i * SHARD_SIZE)) by lia.
    destruct (slot_index i (j - i * SHARD_SIZE) ltac:(lia)) as [-> ->]. apply Hlow. lia.
  - apply (taken_set_bit b i v k true); [rewrite (inv_shards b Hi); lia|lia| |].
    + by destruct (_ =? _).
    + intros j Hj. destruct Hab as [_ Hb]. rewrite Hb by lia. destruct (Z.eqb_spec j k).
      * apply orb_true_r.
      * apply orb_false_r.
Qed.

Lemma next_available_from_spec n b i :
  inv b -> 0 <= i -> i + Z.of_nat n = shards_count b ->
  (forall j, 0 <= j < i * SHARD_SIZE -> taken b j = true) ->
  match next_available_from n b i with
  | None => forall j, 0 <= j < size b -> taken b j = true
  | Some (b', idx) =>
      inv b' /\ size b' = size b /\ 0 <= idx < size b /\ taken b idx = false /\
      (forall j, 0 <= j < idx -> taken b j = true) /\
      (forall j, 0 <= j -> taken b' j = if j =? idx then true else taken b j)
  end.
Proof.
  intros Hi. revert i. induction n as [|n IH]; intros i H0 Hn Hall; cbn [next_available_from].
  - intros j Hj. apply Hall. rewrite (inv_size b Hi) in Hj. unfold SHARD_SIZE in *. lia.
  - destruct (slots_bitmap_spsc_is_shard_full b i) eqn:Hf.
    + apply IH; [lia..|]. intros j Hj.
      destruct (decide (j < i * SHARD_SIZE)); [apply Hall; lia|].
      unfold taken. replace j with (i * SHARD_SIZE + (j - i * SHARD_SIZE)) by lia.
      unfold SHARD_SIZE in Hj.
      destruct (slot_index i (j - i * SHARD_SIZE) ltac:(unfold SHARD_SIZE in *; lia)) as [-> ->].
      apply full_shard_taken; try done; unfold SHARD_SIZE in *; lia.
    + destruct (take_in_shard b i) as [b' idx] eqn:Ht.
      destruct (take_in_shard_spec b i b' idx Hi ltac:(lia) Hf Ht) as (? & ? & Hx & ? & Hlow & ?).
      split; [done|]. split; [done|].
      split; [rewrite (inv_size b Hi); unfold SHARD_SIZE in *; lia|]. split; [done|]. split; [|done].
      intros j Hj. destruct (decide (j < i * SHARD_SIZE)); [apply Hall|apply Hlow]; lia.
Qed.

Lemma get_next_available_spec b :
  inv b ->
  let '(b', idx) := slots_bitmap_spsc_get_next_available b in
  inv b' /\ size b' = size b /\
  ((idx = UINT64_MAX /\ b' = b /\ forall j, 0 <= j < size b -> taken b j = true) \/
   (0 <= idx < size b /\ taken b idx = false /\
    (forall j, 0 <= j < idx -> taken b j = true) /\
    (forall j, 0 <= j -> taken b' j = if j =? idx then true else taken b j))).
Proof.
  intros Hi. unfold slots_bitmap_spsc_get_next_available, slots_bitmap_spsc_get_next_available_ptr.
  pose proof (inv_count b Hi).
  pose proof (next_available_from_spec (Z.to_nat (shards_count b)) b 0 Hi ltac:(lia) ltac:(lia)
    ltac:(unfold SHARD_SIZE; lia)) as Hn.
  destruct (next_available_from _ b 0) as [[b' idx]|].
  - destruct Hn as (? & ? & Hrest). split; [done|]. split; [done|]. by right.
  - split; [done|]. split; [done|]. by left.
Qed.

Lemma release_spec b idx :
  inv b -> 0 <= idx < size b -> idx < 2 ^ 22 -> taken b idx = true ->
  inv (slots_bitmap_spsc_release b idx) /\
  size (slots_bitmap_spsc_release b idx) = size b /\
  forall j, 0 <= j ->
    taken (slots_bitmap_spsc_release b idx) j = if j =? idx then false else taken b j.
Proof.
  intros Hi Hr Hmax Ht. destruct (slot_split idx ltac:(lia)) as (Hs & Hq & Hk).
  set (i := idx / SHARD_SIZE) in *. set (k := idx `mod` SHARD_SIZE) in *.
  assert (0 <= i < shards_count b) as Hir.
  { rewrite (inv_size b Hi) in Hr. unfold SHARD_SIZE in *. lia. }
  unfold slots_bitmap_spsc_release. fold i k.
  rewrite (wrap_small 16 i) by (unfold SHARD_SIZE in *; mach_lia).
  rewrite (wrap_small 8 k) by mach_lia. rewrite shift1_u64 by lia.
  cbn [size shards_count shards shards_used_slots shards_full slots_bitmap_spsc_set_shard_full_bit].
  unfold taken in Ht. fold i k in Ht. pose proof (inv_shard b Hi i Hir) as Hsh.
  pose proof (sub_adds_bit _ _ (proj1 Hk) Ht) as Hab.
  set (v := rd (shards b) i - Z.shiftl 1 k) in *.
  assert (0 <= v < 2 ^ 64) as Hv.
  { unfold v. rewrite Z.shiftl_1_l. unfold in_u in Hsh. pose proof (Z.pow_nonneg 2 k ltac:(lia)).
    assert (2 ^ k <= rd (shards b) i); [|lia].
    destruct (Z.lt_ge_cases (rd (shards b) i) (2 ^ k)) as [Hlt|]; [|lia].
    rewrite <- (Z.mod_small (rd (shards b) i) (2 ^ k)) in Ht by lia.
    rewrite Z.mod_pow2_bits_high in Ht by lia. done. }
  rewrite (wrap_small 64 v) by done.
  pose proof (popcount_adds_bit 64 _ _ k ltac:(lia) Hab) as Hp.
  pose proof (popcount_bounds 64 v). rewrite (inv_used b Hi) by lia.
  rewrite Hp, (wrap_small 8) by mach_lia.
  replace (popcount 64 v + 1 - 1) with (popcount 64 v) by lia.
  split; [|split; [done|]].
  - apply (inv_update b i v (popcount 64 v) (slots_bitmap_spsc_set_shard_full_bit b i false));
      [done..| |apply set_full_bit_len].
    intros j Hj. rewrite set_full_bit_spec by (lia || by apply full_index_in_range).
    destruct (Z.eqb_spec j i); [|done]. symmetry. apply Z.eqb_neq. unfold SHARD_SIZE.
    pose proof (popcount_bounds 64 (rd (shards b) i)). lia.
  - rewrite Hs. apply (taken_set_bit b i v k false).
    + rewrite (inv_shards b Hi). lia.
    + lia.
    + done.
    + intros j Hj. destruct Hab as [Hf Hb]. destruct (Z.eqb_spec j k) as [->|]; [done|].
      rewrite Hb by lia. destruct (Z.eqb_spec j k); [lia|]. by rewrite orb_false_r.
Qed.

Lemma double_of_u64_exact x : x < 2 ^ 53 -> double_of_u64 x = x.
Proof. intros Hx. unfold double_of_u64. destruct (Z.ltb_spec x (2 ^ 53)); [done|lia]. Qed.

Lemma ceil_div_exact x d :
  0 <= x < 2 ^ 53 -> 0 < d <= 64 -> ceil_div_double x d = (x + d - 1) / d.
Proof.
  intros Hx Hd. unfold ceil_div_double. rewrite double_of_u64_exact by lia. apply wrap_small.
  split; [apply Z.div_pos; lia|]. apply Z.div_lt_upper_bound; [lia|]. mach_lia.
Qed.

Lemma init_spec sz :
  1 <= sz < 2 ^ 53 ->
  exists b, slots_bitmap_spsc_init sz = Some b /\ inv b /\
    size b = (sz + 63) / 64 * 64 /\ forall j, taken b j = false.
Proof.
  intros Hsz. unfold slots_bitmap_spsc_init. destruct (Z.eqb_spec sz 0) as [|_]; [lia|].
  unfold slots_bitmap_spsc_calculate_shard_count, slots_bitmap_spsc_calculate_shard_full_count.
  unfold SHARD_SIZE. rewrite !(ceil_div_exact sz 64) by mach_lia.
  replace (sz + 64 - 1) with (sz + 63) by lia.
  pose proof (Z.div_mod (sz + 63) 64 ltac:(lia)). pose proof (Z.mod_pos_bound (sz + 63) 64 ltac:(lia)).
  set (n := (sz + 63) / 64) in *.
  assert (1 <= n < 2 ^ 48) by mach_lia. rewrite (ceil_div_exact n 8) by mach_lia.
  pose proof (Z.div_mod (n + 8 - 1) 8 ltac:(lia)).
  pose proof (Z.mod_pos_bound (n + 8 - 1) 8 ltac:(lia)).
  rewrite (wrap_small 64 (n * 64)) by mach_lia.
  eexists. split; [reflexivity|]. split.
  - split; cbn [size shards_count shards shards_used_slots shards_full];
      rewrite ?zlen_replicate; try done; try lia.
    + intros i Hi. rewrite rd_replicate0. split; lia.
    + intros i Hi. by rewrite !rd_replicate0.
    + intros i Hi. rewrite is_shard_full_testbit by lia. cbn [shards_full].
      rewrite !rd_replicate0. apply Z.bits_0.
  - split; [done|]. intros j. unfold taken. cbn [shards]. rewrite rd_replicate0. apply Z.bits_0.
Qed.

(** ** Refinement of an allocator of slots

    The abstract state is the set of the taken slots; [get_next_available]
    takes the least free one. *)

Inductive op := OpNext | OpRelease (idx : Z).

Definition bitmap_step (b : slots_bitmap_spsc) (o : op) : slots_bitmap_spsc * option Z :=
  match o with
  | OpNext => let '(b', idx) := slots_bitmap_spsc_get_next_available b in (b', Some idx)
  | OpRelease idx => (slots_bitmap_spsc_release b idx, None)
  end.

Fixpoint least_free_from (n : nat) (i : Z) (A : gset Z) : option Z :=
  match n with
  | O => None
  | S n => if bool_decide (i ∈ A) then least_free_from n (i + 1) A else Some i
  end.

Definition least_free (n : Z) (A : gset Z) : option Z := least_free_from (Z.to_nat n) 0 A.

(** [None]: the client releases a slot it does not hold, or one that the
    16-bit shard index of [release] cannot name. *)
Definition alloc_step (n : Z) (A : gset Z) (o : op) : option (gset Z * option Z) :=
  match o with
  | OpNext =>
      match least_free n A with
      | Some i => Some ({[i]} ∪ A, Some i)
      | None => Some (A, Some UINT64_MAX)
      end
  | OpRelease idx =>
      if bool_decide (idx ∈ A /\ idx < 2 ^ 22) then Some (A ∖ {[idx]}, None) else None
  end.

Fixpoint bitmap_run (b : slots_bitmap_spsc) (os : list op) : list (option Z) :=
  match os with
  | [] => []
  | o :: os => let '(b', r) := bitmap_step b o in r :: bitmap_run b' os
  end.

Fixpoint alloc_run (n : Z) (A : gset Z) (os : list op) : option (list (option Z)) :=
  match os with
  | [] => Some []
  | o :: os =>
      '(A', r) ← alloc_step n A o;
      rs ← alloc_run n A' os;
      Some (r :: rs)
  end.

Definition refines (b : slots_bitmap_spsc) (A : gset Z) : Prop :=
  inv b /\ (forall j, 0 <= j -> taken b j = true <-> j ∈ A) /\ (forall j, j ∈ A -> 0 <= j < size b).

Lemma least_free_from_Some n i A idx :
  i <= idx < i + Z.of_nat n -> idx ∉ A -> (forall j, i <= j < idx -> j ∈ A) ->
  least_free_from n i A = Some idx.
Proof.
  revert i. induction n as [|n IH]; intros i Hi Hn Hlow; [lia|]. cbn [least_free_from].
  case_bool_decide as Hin.
  - apply IH; [|done|intros j Hj; apply Hlow; lia].
    destruct (decide (idx = i)) as [->|]; [done|lia].
  - f_equal. destruct (decide (idx = i)) as [|]; [done|]. destruct Hin. apply Hlow. lia.
Qed.

Lemma least_free_from_None n i A :
  (forall j, i <= j < i + Z.of_nat n -> j ∈ A) -> least_free_from n i A = None.
Proof.
  revert i. induction n as [|n IH]; intros i Ha; [done|]. cbn [least_free_from].
  rewrite bool_decide_eq_true_2 by (apply Ha; lia). apply IH. intros j Hj. apply Ha. lia.
Qed.

Lemma size_nonneg b : inv b -> 0 <= size b.
Proof. intros Hi. rewrite (inv_size b Hi). pose proof (inv_count b Hi). unfold SHARD_SIZE. lia. Qed.

Lemma bitmap_step_refines b A o A' r :
  refines b A -> alloc_step (size b) A o = Some (A', r) ->
  exists b', bitmap_step b o = (b', r) /\ size b' = size b /\ refines b' A'.
Proof.
  intros (Hi & Ht & Hb). pose proof (size_nonneg b Hi). destruct o as [|idx]; cbn [alloc_step bitmap_step].
  - pose proof (get_next_available_spec b Hi) as Hn.
    destruct (slots_bitmap_spsc_get_next_available b) as [b' idx].
    destruct Hn as (Hi' & Hs & [(-> & -> & Hall)|(Hr & Hf & Hlow & Hup)]).
    + unfold least_free. rewrite least_free_from_None.
      * intros [= <- <-]. by exists b.
      * intros j Hj. apply Ht; [lia|]. apply Hall. lia.
    + unfold least_free. rewrite (least_free_from_Some _ _ _ idx).
      * intros [= <- <-]. exists b'. split; [done|]. split; [done|]. split; [done|]. split.
        -- intros j Hj. rewrite Hup by lia. rewrite elem_of_union, elem_of_singleton, <- Ht by lia.
           destruct (Z.eqb_spec j idx); naive_solver.
        -- intros j Hj. rewrite Hs. apply elem_of_union in Hj as [->%elem_of_singleton|Hj]; [lia|].
           by apply Hb.
      * lia.
      * rewrite <- Ht by lia. by rewrite Hf.
      * intros j Hj. apply Ht; [lia|]. apply Hlow. lia.
  - case_bool_decide as Hc; [|done]. destruct Hc as [Hin Hmax]. intros [= <- <-].
    pose proof (Hb idx Hin) as Hr. apply Ht in Hin; [|lia].
    destruct (release_spec b idx Hi Hr Hmax Hin) as (Hi' & Hs & Hup).
    eexists. split; [reflexivity|]. split; [done|]. split; [done|]. split.
    + intros j Hj. rewrite Hup by lia. rewrite elem_of_difference, elem_of_singleton, <- Ht by lia.
      destruct (Z.eqb_spec j idx); naive_solver.
    + intros j Hj. rewrite Hs. apply Hb. set_solver.
Qed.

Lemma bitmap_run_refines os b A rs :
  refines b A -> alloc_run (size b) A os = Some rs -> bitmap_run b os = rs.
Proof.
  revert b A rs. induction os as [|o os IH]; intros b A rs Hr; cbn [alloc_run bitmap_run].
  - congruence.
  - destruct (alloc_step (size b) A o) as [[A' r]|] eqn:Ho; [|done]. cbn.
    destruct (bitmap_step_refines b A o A' r Hr Ho) as (b' & -> & Hs & Hr').
    destruct (alloc_run (size b) A' os) as [rs'|] eqn:Hrun; [|done]. cbn. intros [= <-].
    f_equal. apply (IH b' A'); [done|]. by rewrite Hs.
Qed.

(** ** Properties *)

(** C19: from a freshly created bitmap, any sequence of get_next_available and
    release calls in which the client releases only slots it holds (with an
    index below 2^22) behaves as an allocator of the [ceil(sz/64)*64] slots:
    each allocation returns the least free slot and UINT64_MAX when none is
    left, so no slot is handed out twice. *)
Theorem slots_bitmap_refines_allocator sz b os rs :
  1 <= sz < 2 ^ 53 -> slots_bitmap_spsc_init sz = Some b ->
  alloc_run ((sz + 63) / 64 * 64) ∅ os = Some rs -> bitmap_run b os = rs.
Proof.
  intros Hsz Hb. destruct (init_spec sz Hsz) as (b0 & Hb0 & Hi & Hs & Ht).
  rewrite Hb in Hb0. injection Hb0 as <-. rewrite <- Hs. apply bitmap_run_refines.
  split; [done|]. split; [|set_solver]. intros j Hj. rewrite Ht. set_solver.
Qed.

Lemma slots_bitmap_refines_allocator_witness :
  exists b, slots_bitmap_spsc_init 100 = Some b /\
    bitmap_run b [OpNext; OpNext; OpRelease 0; OpNext; OpNext]
    = [Some 0; Some 1; None; Some 0; Some 2].
Proof.
  eexists. split; [reflexivity|].
  apply (slots_bitmap_refines_allocator 100).
  - split; vm_compute; congruence.
  - reflexivity.
  - vm_compute. reflexivity.
Defined.

(** Release keeps the shard index in a 16-bit variable, so releasing slot
    [idx] always acts on slot [idx mod 2^22]: on a bitmap of more than 2^22
    slots, releasing a slot above the limit frees (and corrupts the counters
    of) an unrelated one and leaves the requested slot taken. *)
Theorem slots_bitmap_release_truncates (b : slots_bitmap_spsc) (idx : Z) :
  slots_bitmap_spsc_release b idx = slots_bitmap_spsc_release b (idx `mod` 2 ^ 22).
Proof.
  unfold slots_bitmap_spsc_release, SHARD_SIZE.
  assert (u16 (idx `mod` 2 ^ 22 / 64) = u16 (idx / 64)) as ->.
  { unfold wrap. pow2s. Z.div_mod_to_equations. lia. }
  assert ((idx `mod` 2 ^ 22) `mod` 64 = idx `mod` 64) as ->.
  { pow2s. Z.div_mod_to_equations. lia. }
  done.
Qed.

End SlotsBitmap.
