(* ===== verification/SlotsBitmapMpmc.v ===== *)
(** * SlotsBitmapMpmc: the slots bitmap shared by threads

    slots_bitmap_mpmc.{h,c}.  The shards and their counters of used slots are
    changed by atomic operations.  A thread is a program counter between two
    such operations; [thread_step] is one of them.  A function of the source is
    a thread run alone; a run of several threads is any sequence of their
    steps, with the failures a weak compare-and-swap is allowed. *)

From stdpp Require Import gmap.
From S2P Require Import Prelude SlotsBitmap.
Import SlotsBitmap (SHARD_SIZE, UINT8_MAX, UINT64_MAX, rd, popcount, ceil_div_double, slots_bitmap_spsc_shard_find_first_zero,
  alloc_run, alloc_step, least_free, op, OpNext, OpRelease).

Module SlotsBitmapMpmc.

Record slots_bitmap_mpmc := Bitmap {
  size : Z;
  shards_count : Z;
  shards : list Z;
  shards_used_slots : list Z
}.

Definition slots_bitmap_mpmc_calculate_shard_count (size : Z) : Z := ceil_div_double size SHARD_SIZE.

Definition slots_bitmap_mpmc_init (size : Z) : option slots_bitmap_mpmc :=
  if size =? 0 then None else
  let shards_count := slots_bitmap_mpmc_calculate_shard_count size in
  Some (Bitmap (u64 (shards_count * SHARD_SIZE)) shards_count (replicate (Z.to_nat shards_count) 0)
          (replicate (Z.to_nat shards_count) 0)).

(** The table of the first free bits is the one of the single-thread bitmap. *)
Definition slots_bitmap_mpmc_shard_find_first_zero (shard : Z) : Z := slots_bitmap_spsc_shard_find_first_zero shard.

Definition slots_bitmap_mpmc_shard_is_full (b : slots_bitmap_mpmc) (shard_index : Z) : bool :=
  rd (shards_used_slots b) shard_index =? SHARD_SIZE.

Definition set_shard (b : slots_bitmap_mpmc) (shard_index value : Z) : slots_bitmap_mpmc :=
  Bitmap (size b) (shards_count b) (zset (shards b) shard_index value) (shards_used_slots b).

Definition slots_bitmap_mpmc_shard_increase_used_count (b : slots_bitmap_mpmc) (shard_index : Z) : slots_bitmap_mpmc :=
  Bitmap (size b) (shards_count b) (shards b)
    (zset (shards_used_slots b) shard_index (u8 (rd (shards_used_slots b) shard_index + 1))).

Definition slots_bitmap_mpmc_shard_decrease_used_count (b : slots_bitmap_mpmc) (shard_index : Z) : slots_bitmap_mpmc :=
  Bitmap (size b) (shards_count b) (shards b)
    (zset (shards_used_slots b) shard_index (u8 (rd (shards_used_slots b) shard_index - 1))).

(** The shard index is a [uint16_t]. *)
Definition slots_bitmap_mpmc_shard_is_bit_set (b : slots_bitmap_mpmc) (shard_index bit_index : Z) : bool :=
  negb (Z.land (rd (shards b) (u16 shard_index)) (u64 (Z.shiftl 1 bit_index)) =? 0).

(** *** The iteration *)

(** The bits of a shard from [bit_index]: the slot found, or the value of
    [from] after the last bit. *)
Fixpoint iter_bits (n : nat) (b : slots_bitmap_mpmc) (shard_index bit_index from : Z) : Z + Z :=
  match n with
  | O => inr from
  | S n =>
      if slots_bitmap_mpmc_shard_is_bit_set b shard_index bit_index then inl from
      else iter_bits n b shard_index (bit_index + 1) (u64 (from + 1))
  end.

Fixpoint iter_shards (n : nat) (b : slots_bitmap_mpmc) (shard_index bit_index_start from : Z) : Z :=
  match n with
  | O => UINT64_MAX
  | S n =>
      match iter_bits (Z.to_nat (SHARD_SIZE - bit_index_start)) b shard_index bit_index_start from with
      | inl found => found
      | inr from => iter_shards n b (shard_index + 1) 0 from
      end
  end.

Definition slots_bitmap_mpmc_iter (b : slots_bitmap_mpmc) (from : Z) : Z :=
  let shard_index_start := from / SHARD_SIZE in
  iter_shards (Z.to_nat (shards_count b - shard_index_start)) b shard_index_start (from `mod` SHARD_SIZE) from.

(** *** The atomic operations of get_next_available and of release *)

(** The variables of a search: where it starts, its step, the shard it is at
    and should_restart_loop. *)
Record search := Search { start : Z; step : Z; index : Z; restart : bool }.

Definition next (q : search) : search := Search (start q) (step q) (u64 (index q + step q)) (restart q).
Definition retry (q : search) : search := Search (start q) (step q) (u64 (index q + step q)) true.
Definition again (q : search) : search := Search (start q) (step q) (start q) false.

Inductive pc :=
  | Idle
  | Scan (q : search)
  | Read (q : search)
  | Reload (q : search) (shard_value bit_index : Z)
  | Cas (q : search) (shard_value shard_value_new bit_index : Z)
  | Count (q : search) (bit_index : Z)
  | Returned (q : search) (r : option Z)
  | ReleaseRead (idx : Z)
  | ReleaseCas (idx shard_value : Z)
  | ReleaseCount (idx : Z)
  | Released.

Definition shard_of (idx : Z) : Z := u16 (idx / SHARD_SIZE).
Definition bit_of (idx : Z) : Z := u8 (idx `mod` SHARD_SIZE).

(** The next atomic operation of a thread.  [spurious] is a failure of the
    weak compare-and-swap although the value is the one expected. *)
Definition thread_step (spurious : bool) (b : slots_bitmap_mpmc) (p : pc) : slots_bitmap_mpmc * pc :=
  match p with
  | Idle | Returned _ _ | Released => (b, p)
  | Scan q =>
      (b, if index q <? shards_count b
          then if slots_bitmap_mpmc_shard_is_full b (index q) then Scan (next q) else Read q
          else if restart q then Scan (again q) else Returned q None)
  | Read q =>
      let shard_value := rd (shards b) (index q) in
      let bit_index := slots_bitmap_mpmc_shard_find_first_zero shard_value in
      (b, if bit_index =? UINT8_MAX then Scan (next q) else Reload q shard_value bit_index)
  | Reload q shard_value bit_index =>
      (b, Cas q shard_value (Z.lor (rd (shards b) (index q)) (u64 (Z.shiftl 1 bit_index))) bit_index)
  | Cas q shard_value shard_value_new bit_index =>
      if negb spurious && (rd (shards b) (index q) =? shard_value)
      then (set_shard b (index q) shard_value_new, Count q bit_index)
      else (b, Scan (retry q))
  | Count q bit_index =>
      (slots_bitmap_mpmc_shard_increase_used_count b (index q),
       Returned q (Some (u64 (index q * SHARD_SIZE + bit_index))))
  | ReleaseRead idx =>
      let shard_value := rd (shards b) (shard_of idx) in
      (b, if Z.land (Z.shiftr shard_value (bit_of idx)) 0x01 =? 0 then Released else ReleaseCas idx shard_value)
  | ReleaseCas idx shard_value =>
      if negb spurious && (rd (shards b) (shard_of idx) =? shard_value)
      then (set_shard b (shard_of idx) (u64 (shard_value - u64 (Z.shiftl 1 (bit_of idx)))), ReleaseCount idx)
      else (b, ReleaseRead idx)
  | ReleaseCount idx => (slots_bitmap_mpmc_shard_decrease_used_count b (shard_of idx), Released)
  end.

Definition finished (p : pc) : bool :=
  match p with Idle | Returned _ _ | Released => true | _ => false end.

(** *** The functions: a thread that runs alone *)

(** [None]: the function has not returned within [fuel] operations. *)
Fixpoint run_alone (fuel : nat) (b : slots_bitmap_mpmc) (p : pc) : option (slots_bitmap_mpmc * pc) :=
  if finished p then Some (b, p) else
  match fuel with
  | O => None
  | S fuel => let '(b, p) := thread_step false b p in run_alone fuel b p
  end.

Definition begin_search (shard_index_start shard_index_step : Z) : pc :=
  Scan (Search (u16 shard_index_start) (u16 shard_index_step) (u16 shard_index_start) false).

(** Two operations for each shard passed over, five for the one taken. *)
Definition search_fuel (b : slots_bitmap_mpmc) : nat := (2 * Z.to_nat (shards_count b) + 6)%nat.

Definition slots_bitmap_mpmc_get_next_available_ptr_with_step (b : slots_bitmap_mpmc)
    (shard_index_start shard_index_step : Z) : option (slots_bitmap_mpmc * option Z) :=
  '(b, p) ← run_alone (search_fuel b) b (begin_search shard_index_start shard_index_step);
  Some (b, match p with Returned _ r => r | _ => None end).

Definition slots_bitmap_mpmc_get_next_available_with_step (b : slots_bitmap_mpmc)
    (shard_index_start shard_index_step : Z) : option (slots_bitmap_mpmc * Z) :=
  '(b, r) ← slots_bitmap_mpmc_get_next_available_ptr_with_step b shard_index_start shard_index_step;
  Some (b, default UINT64_MAX r).

Definition slots_bitmap_mpmc_get_next_available_ptr (b : slots_bitmap_mpmc) :=
  slots_bitmap_mpmc_get_next_available_ptr_with_step b 0 1.

Definition slots_bitmap_mpmc_get_next_available (b : slots_bitmap_mpmc) : option (slots_bitmap_mpmc * Z) :=
  '(b, r) ← slots_bitmap_mpmc_get_next_available_ptr b; Some (b, default UINT64_MAX r).

Definition slots_bitmap_mpmc_release (b : slots_bitmap_mpmc) (slots_bitmap_index : Z) : option slots_bitmap_mpmc :=
  '(b, _) ← run_alone 3 b (ReleaseRead slots_bitmap_index); Some b.

(** *** Several threads *)

(** [handed] are the slots the clients hold: the ones get_next_available has
    returned and that no client has started to release. *)
Record config := Config {
  bitmap : slots_bitmap_mpmc;
  threads : list pc;
  handed : list Z
}.

Inductive event :=
  | EvGet (t : nat) (shard_index_start shard_index_step : Z)
  | EvRelease (t : nat) (idx : Z)
  | EvStep (t : nat) (spurious : bool).

Fixpoint remove_one (idx : Z) (l : list Z) : list Z :=
  match l with
  | [] => []
  | x :: l => if x =? idx then l else x :: remove_one idx l
  end.

(** A client calls a function on an idle thread, and releases only a slot it
    holds; other events are ignored. *)
Definition config_step (c : config) (e : event) : config :=
  match e with
  | EvGet t shard_index_start shard_index_step =>
      match threads c !! t with
      | Some p => if finished p
                  then Config (bitmap c) (<[t := begin_search shard_index_start shard_index_step]> (threads c)) (handed c)
                  else c
      | None => c
      end
  | EvRelease t idx =>
      match threads c !! t with
      | Some p => if finished p && bool_decide (idx ∈ handed c)
                  then Config (bitmap c) (<[t := ReleaseRead idx]> (threads c)) (remove_one idx (handed c))
                  else c
      | None => c
      end
  | EvStep t spurious =>
      match threads c !! t with
      | Some p =>
          let '(b, p') := thread_step spurious (bitmap c) p in
          Config b (<[t := p']> (threads c))
            match p, p' with Count _ _, Returned _ (Some idx) => idx :: handed c | _, _ => handed c end
      | None => c
      end
  end.

Definition config_run (evs : list event) (c : config) : config := foldl config_step c evs.

Definition config_init (b : slots_bitmap_mpmc) (n : nat) : config := Config b (replicate n Idle) [].

(** *** Examples of runs *)

Definition bitmap_of (sz : Z) : slots_bitmap_mpmc := default (Bitmap 0 0 [] []) (slots_bitmap_mpmc_init sz).

Definition steps (t n : nat) : list event := replicate n (EvStep t false).

Definition get (t : nat) : list event := EvGet t 0 1 :: steps t 5.
Definition release (t : nat) (idx : Z) : list event := EvRelease t idx :: steps t 3.

(** Thread 0 reads the shard with slot 0 taken; before it reads it again slot
    0 is released, and before its compare-and-swap slot 0 is taken again. *)
Definition reuse_schedule : list event :=
  get 1 ++ EvGet 0 0 1 :: steps 0 2 ++ release 1 0 ++ steps 0 1 ++ get 2 ++ steps 0 2 ++ get 3.

(** Thread 0 reads an empty shard, reads it again with slots 0 and 1 taken, and
    swaps it once they have been released. *)
Definition leak_schedule : list event :=
  EvGet 0 0 1 :: steps 0 2 ++ get 1 ++ get 2 ++ steps 0 1 ++ release 1 0 ++ release 2 1 ++ steps 0 2.

(** ** Without a release, for every interleaving *)

(** Every bit set in [v] is set in [w]. *)
Definition bits_in (v w : Z) : Prop := forall i, 0 <= i -> Z.testbit v i = true -> Z.testbit w i = true.

Lemma bits_in_refl v : bits_in v v.
Proof. by intros i. Qed.

Lemma bits_in_trans u v w : bits_in u v -> bits_in v w -> bits_in u w.
Proof. intros H1 H2 i Hi H. by apply H2, H1. Qed.

Lemma bits_in_antisym v w : bits_in v w -> bits_in w v -> v = w.
Proof.
  intros H1 H2. apply Z.bits_inj'. intros i Hi. specialize (H1 i Hi). specialize (H2 i Hi).
  destruct (Z.testbit v i), (Z.testbit w i); naive_solver.
Qed.

Lemma adds_bits_in v w k : SlotsBitmap.adds_bit v w k -> bits_in v w.
Proof. intros [_ H] i Hi Hv. rewrite H by done. by rewrite Hv. Qed.

Definition all_set (v : Z) : Prop := forall k, 0 <= k < 64 -> Z.testbit v k = true.

(** The search has passed the shards from [start] by [step] up to [index], and
    the ones it passed without a failed compare-and-swap have no free bit. *)
Definition scanned (b : slots_bitmap_mpmc) (q : search) : Prop :=
  0 <= start q < 2 ^ 16 /\ 0 <= step q < 2 ^ 16 /\ 0 <= index q /\
  (exists m, 0 <= m /\ index q = start q + m * step q) /\
  (restart q = false -> forall n, 0 <= n -> let i := start q + n * step q in
     i < index q -> i < shards_count b -> all_set (rd (shards b) i)).

Definition at_shard (b : slots_bitmap_mpmc) (q : search) : Prop := scanned b q /\ index q < shards_count b.

Definition thread_inv (b : slots_bitmap_mpmc) (p : pc) : Prop :=
  match p with
  | Idle => True
  | Scan q => scanned b q
  | Read q => at_shard b q
  | Reload q v k => at_shard b q /\ 0 <= k < 64 /\ Z.testbit v k = false /\ bits_in v (rd (shards b) (index q))
  | Cas q v new k =>
      at_shard b q /\ 0 <= k < 64 /\ Z.testbit v k = false /\
      exists cur, new = Z.lor cur (Z.shiftl 1 k) /\ bits_in v cur /\ bits_in cur (rd (shards b) (index q))
  | Count q k => at_shard b q /\ 0 <= k < 64
  | Returned q r => r = None -> scanned b q /\ restart q = false /\ shards_count b <= index q
  | ReleaseRead _ | ReleaseCas _ _ | ReleaseCount _ | Released => False
  end.

(** The shards only gain bits. *)
Definition grows (b b' : slots_bitmap_mpmc) : Prop :=
  shards_count b' = shards_count b /\ forall i, bits_in (rd (shards b) i) (rd (shards b') i).

Lemma scanned_grows b b' q : grows b b' -> scanned b q -> scanned b' q.
Proof.
  intros [Hc Hg] (H1 & H2 & H3 & H4 & H5). split_and!; try done; try lia. intros Hr n Hn i Hi Hic k Hk.
  apply Hg; [lia|]. apply (H5 Hr n Hn); [done|by rewrite <- Hc|done].
Qed.

Lemma thread_inv_grows b b' p : grows b b' -> thread_inv b p -> thread_inv b' p.
Proof.
  intros Hg. pose proof Hg as [Hc Hb]. pose proof (fun q => scanned_grows b b' q Hg) as Hs.
  destruct p; cbn [thread_inv]; unfold at_shard; rewrite ?Hc; try done; try naive_solver.
  - intros (? & ? & ? & ?). split_and!; try naive_solver. by eapply bits_in_trans.
  - intros (? & ? & ? & cur & ? & ? & ?). split_and!; try naive_solver. exists cur. split_and!; try done. by eapply bits_in_trans.
Qed.

(** Moving to the next shard when the current one has no free bit, or with
    the flag to start again. *)
Lemma scanned_next b q :
  shards_count b <= 2 ^ 48 -> at_shard b q -> all_set (rd (shards b) (index q)) -> scanned b (next q).
Proof.
  intros Hc [(H1 & H2 & H3 & (m & Hm & Hi) & H5) Hlt] Hall. unfold scanned, next. cbn [start step index restart].
  rewrite wrap_small by mach_lia. split_and!; try lia.
  - exists (m + 1). lia.
  - intros Hr n Hn Hi' Hic. destruct (decide (start q + n * step q < index q)); [by apply (H5 Hr n)|].
    replace (start q + n * step q) with (index q); [done|]. assert (n = m) by nia. by subst.
Qed.

Lemma scanned_retry b q : shards_count b <= 2 ^ 48 -> at_shard b q -> scanned b (retry q).
Proof.
  intros Hc [(H1 & H2 & H3 & (m & Hm & Hi) & H5) Hlt]. unfold scanned, retry. cbn [start step index restart].
  rewrite wrap_small by mach_lia. split_and!; try lia; try done. exists (m + 1). lia.
Qed.

Lemma scanned_start b s st r : 0 <= s < 2 ^ 16 -> 0 <= st < 2 ^ 16 -> scanned b (Search s st s r).
Proof.
  intros Hs Hst. unfold scanned. cbn [start step index restart]. split; [done|]. split; [done|]. split; [lia|]. split.
  - exists 0. lia.
  - intros _ n Hn Hi. nia.
Qed.

Lemma find_first_zero_spec v :
  let k := slots_bitmap_mpmc_shard_find_first_zero v in
  (k = UINT8_MAX /\ all_set v) \/
  (0 <= k < 64 /\ Z.testbit v k = false /\ forall j, 0 <= j < k -> Z.testbit v j = true).
Proof.
  destruct (SlotsBitmap.find_first_zero_from_spec 4 0 v ltac:(lia) ltac:(lia)) as [[H1 H2]|(H1 & H2 & H3)]; [left|right].
  - split; [exact H1|]. intros k Hk. apply H2. lia.
  - split; [exact H1|]. split; [exact H2|]. intros j Hj. apply H3. exact (conj (proj1 Hj) (proj2 Hj)).
Qed.

(** *** The invariant *)

Definition slot (i k : Z) : Z := i * SHARD_SIZE + k.

Definition taken (b : slots_bitmap_mpmc) (idx : Z) : bool :=
  Z.testbit (rd (shards b) (idx / SHARD_SIZE)) (idx `mod` SHARD_SIZE).

(** The slot a thread has taken and not returned yet. *)
Definition pending (p : pc) : option Z := match p with Count q k => Some (slot (index q) k) | _ => None end.

Definition counts_at (i : Z) (p : pc) : Z := match p with Count q _ => if index q =? i then 1 else 0 | _ => 0 end.

Lemma counts_at_nonneg i p : 0 <= counts_at i p.
Proof. destruct p; cbn; try lia. destruct (_ =? _); lia. Qed.

Record bitmap_ok (b : slots_bitmap_mpmc) : Prop := {
  bo_count : 0 <= shards_count b <= 2 ^ 48;
  bo_size : size b = shards_count b * SHARD_SIZE;
  bo_shards : zlen (shards b) = shards_count b;
  bo_used : zlen (shards_used_slots b) = shards_count b
}.

Record get_inv (c : config) : Prop := {
  gi_bitmap : bitmap_ok (bitmap c);
  gi_threads : forall t p, threads c !! t = Some p -> thread_inv (bitmap c) p;
  gi_used : forall i, 0 <= i < shards_count (bitmap c) ->
    rd (shards_used_slots (bitmap c)) i + zsum (counts_at i) (threads c) = popcount 64 (rd (shards (bitmap c)) i);
  gi_nodup : NoDup (handed c);
  gi_range : forall j, j ∈ handed c -> 0 <= j < size (bitmap c);
  gi_taken : forall j, 0 <= j < size (bitmap c) ->
    (taken (bitmap c) j = true) <-> (j ∈ handed c \/ exists t p, threads c !! t = Some p /\ pending p = Some j);
  gi_pending : forall t p j, threads c !! t = Some p -> pending p = Some j ->
    (j ∉ handed c) /\ forall u p', threads c !! u = Some p' -> pending p' = Some j -> u = t
}.

Lemma bitmap_slot_range b i k : bitmap_ok b -> 0 <= i < shards_count b -> 0 <= k < 64 -> 0 <= slot i k < size b.
Proof. intros Hb Hi Hk. rewrite (bo_size b Hb). unfold slot, SHARD_SIZE. lia. Qed.

Lemma slot_inj i k i' k' : 0 <= k < 64 -> 0 <= k' < 64 -> slot i k = slot i' k' -> i = i' /\ k = k'.
Proof. unfold slot, SHARD_SIZE. lia. Qed.

Lemma taken_slot b i k : 0 <= k < 64 -> taken b (slot i k) = Z.testbit (rd (shards b) i) k.
Proof. intros Hk. unfold taken, slot. by destruct (SlotsBitmap.slot_index i k Hk) as [-> ->]. Qed.

(** A step that neither changes the bitmap nor the pending slots. *)
Lemma get_inv_quiet c t p p' :
  get_inv c -> threads c !! t = Some p -> pending p = None -> pending p' = None -> thread_inv (bitmap c) p' ->
  get_inv (Config (bitmap c) (<[t := p']> (threads c)) (handed c)).
Proof.
  intros [Hb Ht Hu Hn Hr Htk Hp] Hl Hp0 Hp1 Hi. assert (forall i x, pending x = None -> counts_at i x = 0) as H0 by (intros ? []; done).
  assert (forall u x j, pending x = Some j -> <[t := p']> (threads c) !! u = Some x <-> threads c !! u = Some x) as Hsame.
  { intros u x j Hj. destruct (decide (u = t)) as [->|]; [|by rewrite list_lookup_insert_ne].
    rewrite list_lookup_insert_eq by (by eapply lookup_lt_Some). split; [intros [= <-]; congruence|congruence]. }
  split; cbn [bitmap threads handed]; try done.
  - intros u x [(-> & <- & _)|[_ ?]]%list_lookup_insert_Some; [done|by eapply Ht].
  - intros i Hi'. rewrite (zsum_insert _ _ _ _ _ Hl), !H0 by done. rewrite Z.sub_0_r, Z.add_0_r. by apply Hu.
  - intros j Hj. rewrite Htk by done. f_equiv. split; intros (u & x & H1 & H2); exists u, x; split; try done; by eapply Hsame.
  - intros u x j Hux Hj. apply (Hsame u x j Hj) in Hux. destruct (Hp u x j Hux Hj) as [? Hun]. split; [done|].
    intros u' x' Hu' Hj'. apply (Hsame u' x' j Hj') in Hu'. by eapply Hun.
Qed.

Lemma grows_refl b : grows b b.
Proof. split; [done|]. intros i. apply bits_in_refl. Qed.

Lemma rd_out l i : ~ 0 <= i < zlen l -> rd l i = 0.
Proof. intros Hi. unfold rd. replace (zget l i) with (@None Z); [done|]. symmetry. apply zget_None. lia. Qed.

(** A compare-and-swap that succeeds: no bit was set since the shard was first
    read, and the only change is the new bit. *)
Lemma cas_adds_bit b q v new k :
  thread_inv b (Cas q v new k) -> rd (shards b) (index q) = v -> SlotsBitmap.adds_bit v new k.
Proof.
  intros (_ & Hk & Hv & cur & -> & H1 & H2) He. rewrite He in H2. rewrite <- (bits_in_antisym _ _ H1 H2).
  apply SlotsBitmap.lor_adds_bit; [lia|done].
Qed.

Lemma rd_set_shard b i v j : 0 <= i < zlen (shards b) -> rd (shards (set_shard b i v)) j = if j =? i then v else rd (shards b) j.
Proof.
  intros Hi. unfold set_shard. cbn [shards]. destruct (Z.eqb_spec j i) as [->|]; [by apply SlotsBitmap.rd_zset_eq|].
  by apply SlotsBitmap.rd_zset_ne.
Qed.

Lemma set_shard_ok b i v : bitmap_ok b -> bitmap_ok (set_shard b i v).
Proof. intros [? ? ? ?]. split; cbn; rewrite ?zlen_zset; done. Qed.

Lemma set_shard_grows b i v :
  0 <= i < zlen (shards b) -> bits_in (rd (shards b) i) v -> grows b (set_shard b i v).
Proof.
  intros Hi Hv. split; [done|]. intros j. rewrite rd_set_shard by done. destruct (Z.eqb_spec j i) as [->|]; [done|apply bits_in_refl].
Qed.

Lemma get_inv_cas c t q v new k :
  get_inv c -> threads c !! t = Some (Cas q v new k) -> rd (shards (bitmap c)) (index q) = v ->
  get_inv (Config (set_shard (bitmap c) (index q) new) (<[t := Count q k]> (threads c)) (handed c)).
Proof.
  intros Hinv Hl He. pose proof Hinv as [Hb Ht Hu Hn Hr Htk Hp]. pose proof (Ht _ _ Hl) as Hi.
  pose proof (cas_adds_bit _ _ _ _ _ Hi He) as Hadd. destruct Hi as (Hat & Hk & Hvk & _). set (b := bitmap c) in *.
  assert (0 <= index q < zlen (shards b)) as Hq by (rewrite (bo_shards b Hb); unfold at_shard, scanned in Hat; lia).
  assert (grows b (set_shard b (index q) new)) as Hg by (apply set_shard_grows; [done|rewrite He; by eapply adds_bits_in]).
  assert (taken b (slot (index q) k) = false) as Hfree by (rewrite taken_slot, He by done; done).
  assert (0 <= slot (index q) k < size b) as Hsl by (apply bitmap_slot_range; [done|rewrite <- (bo_shards b Hb); lia|done]).
  assert (forall u x, threads c !! u = Some x -> pending x = Some (slot (index q) k) -> False) as Hnew.
  { intros u x Hu' Hx. enough (taken b (slot (index q) k) = true) by congruence. apply Htk; [done|]. right. by exists u, x. }
  assert (forall j, 0 <= j < size b -> taken (set_shard b (index q) new) j = taken b j || (j =? slot (index q) k)) as Hset.
  { intros j Hj. unfold taken. destruct (SlotsBitmap.slot_split j ltac:(lia)) as (Hs & Hd & Hm). rewrite rd_set_shard by done.
    destruct (Z.eqb_spec (j / SHARD_SIZE) (index q)) as [E|E].
    - destruct Hadd as [_ Ha]. rewrite Ha, E, He by lia. f_equal. unfold slot.
      destruct (Z.eqb_spec (j `mod` SHARD_SIZE) k), (Z.eqb_spec j (index q * SHARD_SIZE + k)); try done; lia.
    - destruct (Z.eqb_spec j (slot (index q) k)) as [->|]; [|by rewrite orb_false_r]. exfalso. apply E. unfold slot.
      by destruct (SlotsBitmap.slot_index (index q) k Hk) as [-> _]. }
  split; cbn [bitmap threads handed].
  - by apply set_shard_ok.
  - intros u x [(-> & <- & _)|[_ Hx]]%list_lookup_insert_Some.
    + split; [|done]. destruct Hat. split; [by eapply scanned_grows|done].
    + eapply thread_inv_grows; [done|by eapply Ht].
  - intros i Hi. rewrite (zsum_insert _ _ _ _ _ Hl). cbn [counts_at shards_used_slots set_shard]. rewrite (rd_set_shard b) by done.
    change (shards_count (set_shard b (index q) new)) with (shards_count b) in Hi. specialize (Hu i Hi).
    rewrite (Z.eqb_sym (index q)). destruct (Z.eqb_spec i (index q)) as [->|]; [|lia].
    rewrite (SlotsBitmap.popcount_adds_bit 64 v new k ltac:(lia) Hadd). rewrite He in Hu. lia.
  - done.
  - done.
  - intros j Hj. rewrite Hset by done. rewrite orb_true_iff, Htk, Z.eqb_eq by done. split.
    + intros [[?|(u & x & Hux & Hx)]| ->]; [by left|..]; right.
      * exists u, x. split; [|done]. rewrite list_lookup_insert_ne; [done|]. intros <-. rewrite Hl in Hux. by injection Hux as <-.
      * exists t, (Count q k). split; [|done]. apply list_lookup_insert_eq. by eapply lookup_lt_Some.
    + intros [?|(u & x & [(-> & <- & _)|[_ Hux]]%list_lookup_insert_Some & Hx)]; [by left; left|..].
      * right. by injection Hx as <-.
      * left. right. by exists u, x.
  - intros u x j [(-> & <- & _)|[Hne Hux]]%list_lookup_insert_Some Hj.
    + injection Hj as <-. split.
      * intros Hin. enough (taken b (slot (index q) k) = true) by congruence. apply Htk; [done|by left].
      * intros u' x' [(-> & _)|[_ Hu']]%list_lookup_insert_Some Hj'; [done|]. exfalso. by eapply Hnew.
    + destruct (Hp u x j Hux Hj) as [? Hun]. split; [done|]. intros u' x' [(-> & <- & _)|[_ Hu']]%list_lookup_insert_Some Hj'.
      * injection Hj' as <-. exfalso. by eapply Hnew.
      * by eapply Hun.
Qed.

(** The counter of a shard does not wrap: it counts bits of the shard. *)
Lemma used_bound c t q k i :
  get_inv c -> threads c !! t = Some (Count q k) -> i = index q -> 0 <= i < shards_count (bitmap c) ->
  0 <= zsum (counts_at i) (threads c) - 1 /\ rd (shards_used_slots (bitmap c)) i + 1 <= 64.
Proof.
  intros Hinv Hl -> Hi. pose proof (gi_used c Hinv _ Hi) as Hu.
  pose proof (zsum_lookup _ (counts_at_nonneg (index q)) _ _ _ Hl) as Hz. cbn in Hz. rewrite Z.eqb_refl in Hz.
  pose proof (SlotsBitmap.popcount_bounds 64 (rd (shards (bitmap c)) (index q))). lia.
Qed.

Lemma get_inv_used_nonneg c i : get_inv c -> rd (shards_used_slots (bitmap c)) i <= 64 \/ ~ 0 <= i < shards_count (bitmap c).
Proof.
  intros Hinv. destruct (decide (0 <= i < shards_count (bitmap c))) as [Hi|]; [left|by right].
  pose proof (gi_used c Hinv _ Hi). pose proof (zsum_nonneg _ (counts_at_nonneg i) (threads c)).
  pose proof (SlotsBitmap.popcount_bounds 64 (rd (shards (bitmap c)) i)). lia.
Qed.

Lemma full_shard_set c i :
  get_inv c -> 0 <= i < shards_count (bitmap c) -> slots_bitmap_mpmc_shard_is_full (bitmap c) i = true ->
  all_set (rd (shards (bitmap c)) i).
Proof.
  intros Hinv Hi Hf. apply Z.eqb_eq in Hf. pose proof (gi_used c Hinv _ Hi) as Hu. rewrite Hf in Hu.
  pose proof (zsum_nonneg _ (counts_at_nonneg i) (threads c)).
  pose proof (SlotsBitmap.popcount_bounds 64 (rd (shards (bitmap c)) i)). unfold SHARD_SIZE in *.
  intros k Hk. apply (SlotsBitmap.popcount_full 64); lia.
Qed.

Lemma get_inv_count c t q k (b := bitmap c) (sl := u64 (index q * SHARD_SIZE + k)) :
  get_inv c -> (forall i, 0 <= rd (shards_used_slots b) i) -> threads c !! t = Some (Count q k) ->
  let c' := Config (slots_bitmap_mpmc_shard_increase_used_count b (index q)) (<[t := Returned q (Some sl)]> (threads c)) (sl :: handed c) in
  get_inv c' /\ (forall i, 0 <= rd (shards_used_slots (bitmap c')) i).
Proof.
  intros Hinv Hpos Hl c'. subst c'. pose proof Hinv as [Hb Ht Hu Hn Hr Htk Hp]. destruct (Ht _ _ Hl) as [Hat Hk].
  assert (0 <= index q < shards_count b) as Hq by (unfold at_shard, scanned in Hat; subst b; lia).
  destruct (used_bound c t q k _ Hinv Hl eq_refl Hq) as [Hz Hmax]. fold b in Hmax. specialize (Hpos (index q)) as Hpq.
  assert (sl = slot (index q) k) as Hsl.
  { unfold sl, slot. apply wrap_small. pose proof (bo_count _ Hb). unfold SHARD_SIZE. subst b. mach_lia. }
  pose proof (bitmap_slot_range _ _ _ Hb Hq Hk) as Hrange. rewrite <- Hsl in Hrange. destruct (Hp t _ sl Hl ltac:(by rewrite Hsl)) as [Hnh Hun].
  assert (zlen (shards_used_slots b) = shards_count b) as Hlen by apply (bo_used _ Hb).
  assert (forall i, rd (zset (shards_used_slots b) (index q) (u8 (rd (shards_used_slots b) (index q) + 1))) i =
    rd (shards_used_slots b) i + (if i =? index q then 1 else 0)) as Hused.
  { intros i. destruct (Z.eqb_spec i (index q)) as [->|]; [|rewrite SlotsBitmap.rd_zset_ne by done; lia].
    rewrite SlotsBitmap.rd_zset_eq, wrap_small by (lia || mach_lia). done. }
  assert (forall u x j, pending x = Some j -> <[t := Returned q (Some sl)]> (threads c) !! u = Some x <->
    threads c !! u = Some x /\ u <> t) as Hpd.
  { intros u x j Hj. destruct (decide (u = t)) as [->|].
    - rewrite list_lookup_insert_eq by (by eapply lookup_lt_Some). split; [intros [= <-]; done|naive_solver].
    - rewrite list_lookup_insert_ne by done. naive_solver. }
  split; [|intros i; cbn; fold b; rewrite Hused; specialize (Hpos i); destruct (i =? index q); lia].
  split; cbn [bitmap threads handed].
  - destruct Hb as [? ? ? ?]. split; cbn; rewrite ?zlen_zset; done.
  - intros u x [(-> & <- & _)|[_ Hx]]%list_lookup_insert_Some; [done|]. apply (thread_inv_grows b); [apply (grows_refl b)|by eapply Ht].
  - intros i Hi. rewrite (zsum_insert _ _ _ _ _ Hl). cbn [counts_at shards_used_slots shards slots_bitmap_mpmc_shard_increase_used_count].
    rewrite Hused, <- Hu by done. fold b. rewrite (Z.eqb_sym (index q)). destruct (i =? index q); lia.
  - by apply NoDup_cons.
  - intros j [->|Hj]%elem_of_cons; [done|by apply Hr].
  - intros j Hj. change (taken _ j) with (taken b j). unfold b. rewrite Htk, elem_of_cons by done. split.
    + intros [?|(u & x & Hx & Hxp)]; [by left; right|]. destruct (decide (u = t)) as [->|].
      * left. left. rewrite Hl in Hx. injection Hx as <-. injection Hxp as <-. done.
      * right. exists u, x. split; [|done]. by apply (Hpd u x j Hxp).
    + intros [[->|?]|(u & x & Hx & Hxp)]; [right|by left|right].
      * exists t, (Count q k). by rewrite Hsl.
      * exists u, x. split; [|done]. by apply (Hpd u x j Hxp) in Hx as [? _].
  - intros u x j Hux Hj. apply (Hpd u x j Hj) in Hux as [Hux Hne]. destruct (Hp u x j Hux Hj) as [Hj1 Hj2]. split.
    + intros [->|?]%elem_of_cons; [|done]. by apply Hne, (Hun u x).
    + intros u' x' Hu' Hx'. apply (Hpd u' x' j Hx') in Hu' as [Hu' _]. by eapply Hj2.
Qed.

Definition run_inv (c : config) : Prop := get_inv c /\ forall i, 0 <= rd (shards_used_slots (bitmap c)) i.

Lemma run_inv_quiet c t p p' :
  run_inv c -> threads c !! t = Some p -> pending p = None -> pending p' = None -> thread_inv (bitmap c) p' ->
  run_inv (Config (bitmap c) (<[t := p']> (threads c)) (handed c)).
Proof. intros [Hi Hn]. split; [by eapply get_inv_quiet|done]. Qed.

(** One atomic operation of a thread that searches. *)
Lemma thread_step_inv c t p spurious :
  run_inv c -> threads c !! t = Some p -> run_inv (config_step c (EvStep t spurious)).
Proof.
  intros Hinv Hl. pose proof Hinv as [Hg Hpos]. pose proof (gi_threads c Hg t p Hl) as Hi. cbn [config_step]. rewrite Hl.
  pose proof (bo_count _ (gi_bitmap c Hg)) as Hc.
  assert (forall q, at_shard (bitmap c) q -> 0 <= index q < shards_count (bitmap c)) as Hat by (unfold at_shard, scanned; lia).
  destruct p as [|q|q|q v k|q v new k|q k|q r|?|? ?|?|]; cbn [thread_step thread_inv] in *; try done.
  - eapply run_inv_quiet; done.
  - destruct (Z.ltb_spec (index q) (shards_count (bitmap c))); [destruct (slots_bitmap_mpmc_shard_is_full _ _) eqn:Hf|].
    + eapply run_inv_quiet; try done. assert (at_shard (bitmap c) q) by done. apply scanned_next; [lia|done|].
      apply full_shard_set; [done|by apply Hat|done].
    + eapply run_inv_quiet; done.
    + destruct (restart q) eqn:Hr; eapply run_inv_quiet; try done.
      unfold again. apply scanned_start; apply Hi.
  - destruct (find_first_zero_spec (rd (shards (bitmap c)) (index q))) as [[-> Hall]|(Hk & Hz & _)].
    + rewrite Z.eqb_refl. eapply run_inv_quiet; try done. apply scanned_next; [lia|done|done].
    + destruct (Z.eqb_spec (slots_bitmap_mpmc_shard_find_first_zero (rd (shards (bitmap c)) (index q))) UINT8_MAX) as [E|_].
      { rewrite E in Hk. unfold UINT8_MAX in Hk. lia. }
      eapply run_inv_quiet; try done. split_and!; try done; lia || apply bits_in_refl.
  - destruct Hi as (Ha & Hk & Hv & Hb). eapply run_inv_quiet; try done. split_and!; try done; try lia.
    exists (rd (shards (bitmap c)) (index q)). rewrite SlotsBitmap.shift1_u64 by done. split_and!; [done|done|apply bits_in_refl].
  - destruct (negb spurious && _) eqn:E.
    + apply andb_true_iff in E as [_ E%Z.eqb_eq]. split; [by eapply get_inv_cas|done].
    + eapply run_inv_quiet; try done. apply scanned_retry; [lia|]. apply Hi.
  - by apply get_inv_count.
  - eapply run_inv_quiet; done.
Qed.

Definition no_release (e : event) : Prop := match e with EvRelease _ _ => False | _ => True end.

Lemma config_step_inv c e : no_release e -> run_inv c -> run_inv (config_step c e).
Proof.
  intros He Hinv. destruct e as [t s st|t idx|t spurious]; [|done|].
  - cbn [config_step]. destruct (threads c !! t) as [p|] eqn:Hl; [|done]. destruct (finished p) eqn:Hf; [|done].
    eapply run_inv_quiet; [done|done|by destruct p|done|]. apply scanned_start; apply wrap_range; lia.
  - destruct (threads c !! t) as [p|] eqn:Hl; [by eapply thread_step_inv|]. cbn [config_step]. by rewrite Hl.
Qed.

Lemma config_run_inv evs : forall c, Forall no_release evs -> run_inv c -> run_inv (config_run evs c).
Proof.
  induction evs as [|e evs IH]; intros c He Hi; [done|]. apply Forall_cons in He as [He Hes]. cbn [config_run foldl].
  apply (IH (config_step c e) Hes). by apply config_step_inv.
Qed.

Lemma init_ok sz b :
  1 <= sz < 2 ^ 53 -> slots_bitmap_mpmc_init sz = Some b ->
  bitmap_ok b /\ size b = (sz + 63) / 64 * 64 /\ (forall i, rd (shards b) i = 0) /\ forall i, rd (shards_used_slots b) i = 0.
Proof.
  intros Hsz. unfold slots_bitmap_mpmc_init, slots_bitmap_mpmc_calculate_shard_count. destruct (Z.eqb_spec sz 0) as [|_]; [lia|].
  unfold SHARD_SIZE. rewrite (SlotsBitmap.ceil_div_exact sz 64) by mach_lia. replace (sz + 64 - 1) with (sz + 63) by lia.
  pose proof (Z.div_mod (sz + 63) 64 ltac:(lia)). pose proof (Z.mod_pos_bound (sz + 63) 64 ltac:(lia)).
  set (n := (sz + 63) / 64) in *. rewrite (wrap_small 64 (n * 64)) by mach_lia. intros [= <-]. split_and!.
  - split; cbn [size shards_count shards shards_used_slots]; rewrite ?zlen_replicate; unfold SHARD_SIZE; mach_lia.
  - done.
  - intros i. apply SlotsBitmap.rd_replicate0.
  - intros i. apply SlotsBitmap.rd_replicate0.
Qed.

Lemma init_run_inv sz b n : 1 <= sz < 2 ^ 53 -> slots_bitmap_mpmc_init sz = Some b -> run_inv (config_init b n).
Proof.
  intros Hsz Hb. destruct (init_ok sz b Hsz Hb) as (Hok & _ & Hs & Hu). split; [|intros i; cbn; by rewrite Hu].
  assert (forall t p, replicate n Idle !! t = Some p -> p = Idle) as Hidle by (intros t p H; by apply lookup_replicate in H as [-> _]).
  split; cbn [bitmap threads handed config_init].
  - done.
  - intros t p ->%Hidle. done.
  - intros i Hi. rewrite Hs, Hu. replace (zsum (counts_at i) (replicate n Idle)) with 0; [done|].
    clear. induction n as [|n IH]; cbn; [done|]. by rewrite <- IH.
  - constructor.
  - intros j Hj. by apply elem_of_nil in Hj.
  - intros j Hj. unfold taken. rewrite Hs, Z.bits_0. split; [done|].
    intros [H|(t & p & ->%Hidle & Hp)]; [by apply elem_of_nil in H|done].
  - intros t p j ->%Hidle. done.
Qed.

(** C20: while no slot is released, no two calls of get_next_available are given
    the same slot, whatever the interleaving of the atomic operations of any
    number of threads and the spurious failures of the compare-and-swaps: the
    slots returned are distinct and inside the bitmap, their bits are set, a
    search of all the shards fails only when no slot is free, and when no
    thread is searching the bits set are the slots returned and the counters
    count them. *)
Theorem concurrent_gets_distinct sz b n evs (c := config_run evs (config_init b n)) :
  1 <= sz < 2 ^ 53 -> slots_bitmap_mpmc_init sz = Some b -> Forall no_release evs ->
  NoDup (handed c) /\
  (forall j, j ∈ handed c -> 0 <= j < size (bitmap c) /\ taken (bitmap c) j = true) /\
  (forall t q, threads c !! t = Some (Returned q None) -> start q = 0 -> step q = 1 ->
     forall j, 0 <= j < size (bitmap c) -> taken (bitmap c) j = true) /\
  (Forall (fun p => finished p = true) (threads c) ->
     (forall j, 0 <= j < size (bitmap c) -> taken (bitmap c) j = true <-> j ∈ handed c) /\
     (forall i, 0 <= i < shards_count (bitmap c) ->
        rd (shards_used_slots (bitmap c)) i = popcount 64 (rd (shards (bitmap c)) i))).
Proof.
  intros Hsz Hb Hev. destruct (config_run_inv evs _ Hev (init_run_inv sz b n Hsz Hb)) as [Hinv _].
  fold c in Hinv. destruct Hinv as [Hok Ht Hu Hn Hr Htk Hp].
  split; [done|]. split; [|split].
  - intros j Hj. pose proof (Hr j Hj). split; [done|]. apply Htk; [done|by left].
  - intros t q Hl Hs Hst j Hj. destruct (Ht _ _ Hl eq_refl) as ((_ & _ & _ & _ & Hall) & Hre & Hend). rewrite (bo_size _ Hok) in Hj.
    destruct (SlotsBitmap.slot_split j ltac:(lia)) as (Hsp & Hd & Hm). assert (j / SHARD_SIZE < shards_count (bitmap c)) by (unfold SHARD_SIZE in *; lia).
    specialize (Hall Hre (j / SHARD_SIZE) Hd). rewrite Hs, Hst, Z.add_0_l, Z.mul_1_r in Hall. apply Hall; [lia|done|done].
  - intros Hfin. assert (forall t p, threads c !! t = Some p -> pending p = None /\ forall i, counts_at i p = 0) as Hno.
    { intros t p Hl. pose proof (Forall_lookup_1 _ _ _ _ Hfin Hl). by destruct p. }
    split.
    + intros j Hj. rewrite Htk by done. split; [|by left]. intros [?|(t & p & Hl & Hpj)]; [done|]. destruct (Hno t p Hl). congruence.
    + intros i Hi. rewrite <- Hu by done. replace (zsum (counts_at i) (threads c)) with 0; [lia|].
      clear - Hno. induction (threads c) as [|p l IH]; [done|]. cbn [zsum]. rewrite <- IH by (intros t; apply (Hno (S t))).
      by rewrite (proj2 (Hno 0%nat p eq_refl)).
Qed.

Definition interleaved_gets : list event :=
  [EvGet 0 0 1; EvGet 1 0 1] ++ steps 0 2 ++ steps 1 3 ++ steps 0 2 ++ steps 1 2 ++ steps 0 1 ++ steps 1 4.

Lemma concurrent_gets_distinct_witness :
  handed (config_run interleaved_gets (config_init (bitmap_of 100) 2)) = [64; 0] /\
  NoDup (handed (config_run interleaved_gets (config_init (bitmap_of 100) 2))).
Proof.
  split; [by vm_compute|].
  apply (concurrent_gets_distinct 100 (bitmap_of 100) 2 interleaved_gets); [vm_compute; split; congruence|by vm_compute|].
  repeat constructor.
Defined.


(** ** One thread: the bitmap of a single thread *)

(** The state of a single-thread bitmap without its bits of full shards. *)
Definition of_spsc (s : SlotsBitmap.slots_bitmap_spsc) : slots_bitmap_mpmc :=
  Bitmap (SlotsBitmap.size s) (SlotsBitmap.shards_count s) (SlotsBitmap.shards s) (SlotsBitmap.shards_used_slots s).

Lemma is_full_spsc s i :
  SlotsBitmap.inv s -> 0 <= i < SlotsBitmap.shards_count s ->
  slots_bitmap_mpmc_shard_is_full (of_spsc s) i = SlotsBitmap.slots_bitmap_spsc_is_shard_full s i.
Proof. intros Hi Hr. symmetry. by apply (SlotsBitmap.inv_full s Hi). Qed.

Lemma run_alone_step fuel b p :
  finished p = false -> run_alone (S fuel) b p = let '(b', p') := thread_step false b p in run_alone fuel b' p'.
Proof. intros Hf. cbn [run_alone]. by rewrite Hf. Qed.

Lemma run_alone_finished fuel b p : finished p = true -> run_alone fuel b p = Some (b, p).
Proof. intros Hf. destruct fuel; cbn [run_alone]; by rewrite Hf. Qed.

(** A search alone in a shard that is not full takes its first free slot. *)
Lemma take_alone s q fuel :
  SlotsBitmap.inv s -> 0 <= index q < SlotsBitmap.shards_count s ->
  SlotsBitmap.slots_bitmap_spsc_is_shard_full s (index q) = false ->
  let '(s', idx) := SlotsBitmap.take_in_shard s (index q) in
  run_alone (4 + fuel) (of_spsc s) (Read q) = Some (of_spsc s', Returned q (Some idx)).
Proof.
  intros Hi Hr Hf. pose proof (SlotsBitmap.not_full_zero s _ Hi Hr Hf) as (Hk & _ & _).
  unfold SlotsBitmap.take_in_shard. change (4 + fuel)%nat with (S (S (S (S fuel)))).
  rewrite run_alone_step by done. cbn [thread_step]. unfold of_spsc at 2, slots_bitmap_mpmc_shard_find_first_zero. cbn [shards].
  set (k := slots_bitmap_spsc_shard_find_first_zero _) in *.
  destruct (Z.eqb_spec k UINT8_MAX) as [E|_]; [unfold UINT8_MAX in E; lia|].
  rewrite run_alone_step by done. cbn [thread_step]. rewrite run_alone_step by done. cbn [thread_step].
  unfold of_spsc at 1. cbn [shards negb]. rewrite Z.eqb_refl. cbn [andb].
  rewrite run_alone_step by done. cbn [thread_step]. rewrite run_alone_finished by done. do 2 f_equal.
  unfold of_spsc, set_shard, slots_bitmap_mpmc_shard_increase_used_count. cbn [size shards_count shards shards_used_slots].
  by destruct (_ =? SHARD_SIZE).
Qed.

Lemma search_alone n s : forall i fuel,
  SlotsBitmap.inv s -> 0 <= i -> i + Z.of_nat n = SlotsBitmap.shards_count s -> (2 * n + 5 <= fuel)%nat ->
  exists p, run_alone fuel (of_spsc s) (Scan (Search 0 1 i false)) =
    Some (match SlotsBitmap.next_available_from n s i with Some (s', _) => of_spsc s' | None => of_spsc s end, p) /\
  match p with Returned _ r => r | _ => None end = snd <$> SlotsBitmap.next_available_from n s i.
Proof.
  induction n as [|n IH]; intros i fuel Hi H0 Hn Hf; pose proof (SlotsBitmap.inv_count s Hi);
    (destruct fuel as [|fuel]; [lia|]); rewrite run_alone_step by done; cbn [thread_step index SlotsBitmap.next_available_from].
  - change (shards_count (of_spsc s)) with (SlotsBitmap.shards_count s).
    destruct (Z.ltb_spec i (SlotsBitmap.shards_count s)); [lia|]. cbn [restart]. rewrite run_alone_finished by done. eexists. split; done.
  - change (shards_count (of_spsc s)) with (SlotsBitmap.shards_count s).
    destruct (Z.ltb_spec i (SlotsBitmap.shards_count s)); [|lia]. rewrite is_full_spsc by (done || lia).
    destruct (SlotsBitmap.slots_bitmap_spsc_is_shard_full s i) eqn:E.
    + unfold next. cbn [start step index restart]. rewrite wrap_small by mach_lia. apply IH; (done || lia).
    + replace fuel with (4 + (fuel - 4))%nat by lia.
      pose proof (take_alone s (Search 0 1 i false) (fuel - 4) Hi ltac:(cbn; lia) E) as Ht. cbn [index] in Ht.
      destruct (SlotsBitmap.take_in_shard s i) as [s' idx]. rewrite Ht. eexists. split; done.
Qed.

Lemma get_next_alone s :
  SlotsBitmap.inv s ->
  slots_bitmap_mpmc_get_next_available (of_spsc s) =
  let '(s', idx) := SlotsBitmap.slots_bitmap_spsc_get_next_available s in Some (of_spsc s', idx).
Proof.
  intros Hi. pose proof (SlotsBitmap.inv_count s Hi).
  destruct (search_alone (Z.to_nat (SlotsBitmap.shards_count s)) s 0 (search_fuel (of_spsc s)) Hi) as (p & He & Hp);
    [lia..|unfold search_fuel; cbn; lia|].
  unfold slots_bitmap_mpmc_get_next_available, slots_bitmap_mpmc_get_next_available_ptr,
    slots_bitmap_mpmc_get_next_available_ptr_with_step, begin_search.
  change (u16 0) with 0. change (u16 1) with 1. rewrite He. cbn [mbind option_bind]. rewrite Hp.
  unfold SlotsBitmap.slots_bitmap_spsc_get_next_available, SlotsBitmap.slots_bitmap_spsc_get_next_available_ptr.
  by destruct (SlotsBitmap.next_available_from _ s 0) as [[s' idx]|].
Qed.

Lemma release_alone s idx :
  SlotsBitmap.inv s -> 0 <= idx < 2 ^ 22 -> SlotsBitmap.taken s idx = true ->
  slots_bitmap_mpmc_release (of_spsc s) idx = Some (of_spsc (SlotsBitmap.slots_bitmap_spsc_release s idx)).
Proof.
  intros Hi Hr Ht. destruct (SlotsBitmap.slot_split idx ltac:(lia)) as (Hs & Hd & Hm). unfold SlotsBitmap.taken in Ht.
  unfold slots_bitmap_mpmc_release. rewrite run_alone_step by done. cbn [thread_step].
  unfold of_spsc at 2. cbn [shards].
  assert ((Z.land (Z.shiftr (rd (SlotsBitmap.shards s) (shard_of idx)) (bit_of idx)) 1 =? 0) = false) as ->.
  { unfold shard_of, bit_of. rewrite (wrap_small 16), (wrap_small 8) by (unfold SHARD_SIZE in *; mach_lia).
    pose proof (SlotsBitmap.land_shiftr_1 (rd (SlotsBitmap.shards s) (idx / SHARD_SIZE)) (idx `mod` SHARD_SIZE) ltac:(lia)) as Hl.
    rewrite Ht in Hl. by destruct (_ =? 0). }
  rewrite run_alone_step by done. cbn [thread_step]. unfold of_spsc at 1. cbn [shards negb]. rewrite Z.eqb_refl. cbn [andb].
  rewrite run_alone_step by done. cbn [thread_step]. rewrite run_alone_finished by done. done.
Qed.

Definition bitmap_step (b : slots_bitmap_mpmc) (o : op) : option (slots_bitmap_mpmc * option Z) :=
  match o with
  | OpNext => '(b, idx) ← slots_bitmap_mpmc_get_next_available b; Some (b, Some idx)
  | OpRelease idx => b ← slots_bitmap_mpmc_release b idx; Some (b, None)
  end.

Fixpoint bitmap_run (b : slots_bitmap_mpmc) (os : list op) : option (list (option Z)) :=
  match os with
  | [] => Some []
  | o :: os => '(b, r) ← bitmap_step b o; rs ← bitmap_run b os; Some (r :: rs)
  end.

Lemma bitmap_run_alone os : forall s A rs,
  SlotsBitmap.refines s A -> alloc_run (SlotsBitmap.size s) A os = Some rs -> bitmap_run (of_spsc s) os = Some rs.
Proof.
  induction os as [|o os IH]; intros s A rs Hr; cbn [alloc_run SlotsBitmap.alloc_run bitmap_run]; [done|].
  destruct (alloc_step (SlotsBitmap.size s) A o) as [[A' r]|] eqn:Ho; [|done]. cbn [mbind option_bind].
  destruct (SlotsBitmap.bitmap_step_refines s A o A' r Hr Ho) as (s' & Hs' & Hsz & Hr').
  destruct (SlotsBitmap.alloc_run (SlotsBitmap.size s) A' os) as [rs'|] eqn:Hrun; [|done]. cbn. intros [= <-].
  assert (bitmap_step (of_spsc s) o = Some (of_spsc s', r)) as ->; [|cbn; rewrite (IH s' A' rs'); [done|done|by rewrite Hsz]].
  destruct Hr as (Hi & Ht & Hb). destruct o as [|idx]; cbn [bitmap_step SlotsBitmap.bitmap_step] in *.
  - rewrite get_next_alone by done. destruct (SlotsBitmap.slots_bitmap_spsc_get_next_available s). injection Hs' as -> <-. done.
  - cbn [SlotsBitmap.alloc_step] in Ho. case_bool_decide as Hc; [|done]. destruct Hc as [Hin Hmax]. pose proof (Hb idx Hin).
    rewrite release_alone; [|done|lia|apply Ht; [lia|done]]. by injection Hs' as -> <-.
Qed.

(** Used by one thread, the bitmap answers as the allocator of the least
    free slot that the single-thread bitmap implements; the calls return. *)
Theorem mpmc_alone_refines_allocator sz b os rs :
  1 <= sz < 2 ^ 53 -> slots_bitmap_mpmc_init sz = Some b ->
  alloc_run ((sz + 63) / 64 * 64) ∅ os = Some rs -> bitmap_run b os = Some rs.
Proof.
  intros Hsz Hb. destruct (SlotsBitmap.init_spec sz Hsz) as (s & Hs & Hi & Hsize & Ht). rewrite <- Hsize.
  assert (b = of_spsc s) as ->.
  { unfold SlotsBitmap.slots_bitmap_spsc_init in Hs. unfold slots_bitmap_mpmc_init in Hb. destruct (sz =? 0); [done|].
    injection Hs as <-. by injection Hb as <-. }
  apply bitmap_run_alone. split; [done|]. split; [|set_solver]. intros j Hj. rewrite Ht. set_solver.
Qed.

Lemma mpmc_alone_refines_allocator_witness :
  bitmap_run (bitmap_of 100) [OpNext; OpNext; OpRelease 0; OpNext; OpNext] = Some [Some 0; Some 1; None; Some 0; Some 2].
Proof.
  apply (mpmc_alone_refines_allocator 100 (bitmap_of 100)); [split; vm_compute; congruence|reflexivity|by vm_compute].
Defined.

(** *** The iteration *)

Lemma iter_bits_spec n b i : forall k from,
  0 <= i < 2 ^ 16 -> 0 <= k -> k + Z.of_nat n = 64 -> from = slot i k ->
  match iter_bits n b i k from with
  | inl idx => from <= idx < slot i 64 /\ taken b idx = true /\ forall j, from <= j < idx -> taken b j = false
  | inr from' => from' = slot i 64 /\ forall j, from <= j < from' -> taken b j = false
  end.
Proof.
  induction n as [|n IH]; intros k from Hi Hk Hn ->; cbn [iter_bits].
  - split; [f_equal; lia|]. intros j Hj. unfold slot, SHARD_SIZE in *. lia.
  - assert (slots_bitmap_mpmc_shard_is_bit_set b i k = taken b (slot i k)) as ->.
    { rewrite taken_slot by lia. unfold slots_bitmap_mpmc_shard_is_bit_set.
      rewrite wrap_small, SlotsBitmap.shift1_u64 by (lia || mach_lia). rewrite Z.shiftl_1_l.
      destruct (Z.testbit (rd (shards b) i) k) eqn:E.
      - destruct (Z.eqb_spec (Z.land (rd (shards b) i) (2 ^ k)) 0) as [H0|]; [|done]. exfalso.
        assert (Z.testbit (Z.land (rd (shards b) i) (2 ^ k)) k = true) as Hb by (rewrite Z.land_spec, E, Z.pow2_bits_true by lia; done).
        by rewrite H0, Z.bits_0 in Hb.
      - replace (Z.land _ _) with 0; [done|]. symmetry. apply Z.bits_inj'. intros m Hm.
        rewrite Z.land_spec, Z.bits_0, Z.pow2_bits_eqb by lia. destruct (Z.eqb_spec k m) as [->|]; [by rewrite E|by rewrite andb_false_r]. }
    destruct (taken b (slot i k)) eqn:E.
    + split; [unfold slot, SHARD_SIZE; lia|]. split; [done|]. lia.
    + specialize (IH (k + 1) (u64 (slot i k + 1)) Hi ltac:(lia) ltac:(lia)). rewrite wrap_small in IH by (unfold slot, SHARD_SIZE; mach_lia).
      specialize (IH ltac:(unfold slot; lia)).
      assert (forall j, slot i k <= j -> j = slot i k \/ slot i k + 1 <= j) as Hor by lia.
      rewrite wrap_small by (unfold slot, SHARD_SIZE; mach_lia).
      destruct (iter_bits n b i (k + 1) (slot i k + 1)) as [idx|from'].
      * destruct IH as (? & ? & H3). split; [lia|]. split; [done|]. intros j Hj. destruct (Hor j) as [->|]; [lia|done|]. apply H3. lia.
      * destruct IH as (? & H3). split; [done|]. intros j Hj. destruct (Hor j) as [->|]; [lia|done|]. apply H3. lia.
Qed.

Lemma iter_shards_spec n b : forall i k from,
  shards_count b <= 2 ^ 16 -> size b = shards_count b * SHARD_SIZE -> 0 <= i -> 0 <= k < 64 -> from = slot i k ->
  n = Z.to_nat (shards_count b - i) ->
  (iter_shards n b i k from = UINT64_MAX /\ forall j, from <= j < size b -> taken b j = false) \/
  (from <= iter_shards n b i k from < size b /\ taken b (iter_shards n b i k from) = true /\
   forall j, from <= j < iter_shards n b i k from -> taken b j = false).
Proof.
  induction n as [|n IH]; intros i k from Hc Hs Hi Hk -> Hn; cbn [iter_shards].
  - left. split; [done|]. intros j Hj. unfold slot in Hj. assert (shards_count b <= i) by lia. rewrite Hs in Hj. unfold SHARD_SIZE in Hj. lia.
  - pose proof (iter_bits_spec (Z.to_nat (SHARD_SIZE - k)) b i k (slot i k) ltac:(lia) ltac:(lia)
      ltac:(unfold SHARD_SIZE; lia) eq_refl) as Hb.
    destruct (iter_bits _ b i k (slot i k)) as [idx|from'].
    + right. destruct Hb as (H1 & H2 & H3). split; [|done]. rewrite Hs. unfold slot, SHARD_SIZE in *. lia.
    + destruct Hb as [Hf Hno]. destruct (IH (i + 1) 0 from' Hc Hs ltac:(lia) ltac:(lia)) as [[H1 H2]|(H1 & H2 & H3)].
      * unfold slot, SHARD_SIZE in *. lia.
      * lia.
      * left. split; [done|]. intros j Hj. destruct (decide (j < from')); [apply Hno; lia|apply H2; lia].
      * right. assert (slot i k <= from') by (rewrite Hf; unfold slot; lia). split; [lia|]. split; [done|].
        intros j Hj. destruct (decide (j < from')); [apply Hno; lia|apply H3; lia].
Qed.

(** Up to 65536 shards, the iteration returns the least slot taken from
    [from] on, or UINT64_MAX; above, the 16-bit index of a shard names
    another one. *)
Theorem slots_bitmap_mpmc_iter_finds_next b from :
  shards_count b <= 2 ^ 16 -> size b = shards_count b * SHARD_SIZE -> 0 <= from ->
  let r := slots_bitmap_mpmc_iter b from in
  (r = UINT64_MAX /\ forall j, from <= j < size b -> taken b j = false) \/
  (from <= r < size b /\ taken b r = true /\ forall j, from <= j < r -> taken b j = false).
Proof.
  intros Hc Hs Hf r. destruct (SlotsBitmap.slot_split from Hf) as (H1 & H2 & H3).
  by apply (iter_shards_spec _ b (from / SHARD_SIZE) (from `mod` SHARD_SIZE) from).
Qed.

End SlotsBitmapMpmc.
