(* ===== verification/Transaction.v ===== *)
(** * Transaction: the read/write spinlocks and the transactions that hold them

    transaction.h and transaction.c.  The first part models the functions as
    one thread runs them, over any store of locks ([LockStore]: the hashtable
    embeds one lock in each of its chunks).  The second part is a transition
    system of any number of threads contending for one lock, each atomic
    operation of the code being one step. *)

From S2P Require Import Prelude.

Module Transaction.

Definition TRANSACTION_ID_NOT_ACQUIRED : Z := 0.
Definition TRANSACTION_SPINLOCK_UNLOCKED : Z := 0.
Definition UINT16_MAX : Z := 65535.

(** The 16 [reserved] bits of the lock word are carried over unchanged by
    every atomic operation and are left out. *)
Record transaction_rwspinlock := RwSpinlock {
  transaction_id : Z;
  readers_count : Z
}.

Inductive transaction_lock_type := LOCK_TYPE_READ | LOCK_TYPE_WRITE.

#[export] Instance lock_type_eq_dec : EqDecision transaction_lock_type.
Proof. solve_decision. Defined.

(** An entry of the locks list: the lock (by its reference in the store) and
    how it is held. *)
Record transaction_locks_list_entry := LockEntry {
  spinlock : Z;
  lock_type : transaction_lock_type
}.

Record transaction := Tx {
  tx_id : Z;
  locks_count : Z;
  locks_size : Z;
  locks_list : list transaction_locks_list_entry
}.

(** ** Lock words *)

Definition transaction_rwspinlock_init : transaction_rwspinlock :=
  RwSpinlock TRANSACTION_SPINLOCK_UNLOCKED 0.

Definition transaction_rwspinlock_unlock_internal (l : transaction_rwspinlock)
    : transaction_rwspinlock :=
  RwSpinlock TRANSACTION_SPINLOCK_UNLOCKED (readers_count l).

Definition transaction_rwspinlock_is_write_locked (l : transaction_rwspinlock) : bool :=
  negb (transaction_id l =? TRANSACTION_SPINLOCK_UNLOCKED).

Definition transaction_rwspinlock_is_owned_by_transaction (l : transaction_rwspinlock)
    (tx : transaction) : bool :=
  transaction_id l =? tx_id tx.

(** The compare-and-swap of the whole word. *)
Definition transaction_rwspinlock_try_write_lock_internal (l : transaction_rwspinlock)
    (tx : transaction) (expected_readers : Z) : option transaction_rwspinlock :=
  if (transaction_id l =? TRANSACTION_SPINLOCK_UNLOCKED) && (readers_count l =? expected_readers)
  then Some (RwSpinlock (tx_id tx) expected_readers)
  else None.

Definition transaction_rwspinlock_readers_increment (l : transaction_rwspinlock)
    : transaction_rwspinlock :=
  RwSpinlock (transaction_id l) (u16 (readers_count l + 1)).

Definition transaction_rwspinlock_readers_decrement (l : transaction_rwspinlock)
    : transaction_rwspinlock :=
  RwSpinlock (transaction_id l) (u16 (readers_count l - 1)).

(** The spinning loops give up after [max_spins] attempts.  While one thread
    runs alone the word does not change between two attempts, so the bound
    does not matter ([write_lock_spins_const], [wait_spins_const]) and the
    functions below keep the first attempt. *)
Fixpoint write_lock_spins (max_spins : nat) (l : transaction_rwspinlock) (tx : transaction)
    (expected_readers : Z) : option transaction_rwspinlock :=
  match transaction_rwspinlock_try_write_lock_internal l tx expected_readers, max_spins with
  | Some l', _ => Some l'
  | None, O => None
  | None, S n => write_lock_spins n l tx expected_readers
  end.

Fixpoint wait_spins (max_spins : nat) (l : transaction_rwspinlock) : bool :=
  if transaction_rwspinlock_is_write_locked l then
    match max_spins with O => false | S n => wait_spins n l end
  else true.

Definition transaction_rwspinlock_write_lock_internal (l : transaction_rwspinlock)
    (tx : transaction) (expected_readers : Z) : option transaction_rwspinlock :=
  write_lock_spins 0 l tx expected_readers.

Definition transaction_rwspinlock_wait_write_lock_internal (l : transaction_rwspinlock) : bool :=
  wait_spins 0 l.

Lemma write_lock_spins_const n l tx e :
  write_lock_spins n l tx e = transaction_rwspinlock_write_lock_internal l tx e.
Proof.
  unfold transaction_rwspinlock_write_lock_internal.
  induction n as [|n IH]; [done|]. cbn [write_lock_spins].
  destruct (transaction_rwspinlock_try_write_lock_internal l tx e) eqn:E; cbn [write_lock_spins] in *;
    rewrite ?E in *; done.
Qed.

Lemma wait_spins_const n l :
  wait_spins n l = transaction_rwspinlock_wait_write_lock_internal l.
Proof.
  unfold transaction_rwspinlock_wait_write_lock_internal.
  induction n as [|n IH]; [done|]. cbn [wait_spins].
  destruct (transaction_rwspinlock_is_write_locked l) eqn:E; cbn [wait_spins] in *;
    rewrite ?E in *; done.
Qed.

(** ** Transaction ids

    The thread-local manager; [worker_context_index] is the index the worker
    context holds when the manager is initialised. *)
Record transaction_manager := Manager {
  manager_worker_index : Z;
  manager_transaction_index : Z;
  manager_inited : bool
}.

Definition transaction_acquire (worker_context_index : Z) (m : transaction_manager)
    : transaction_manager * transaction :=
  let worker_index := if manager_inited m then manager_worker_index m else worker_context_index in
  let index := u16 (manager_transaction_index m + 1) in
  let index := if (worker_index =? 0) && (index =? 0) then u16 (index + 1) else index in
  (Manager worker_index index true,
   Tx (u16 index + u16 worker_index * 2 ^ 16) 0 2 []).

(** ** The locks list *)

Definition transaction_needs_expand_locks_list (tx : transaction) : bool :=
  locks_count tx =? locks_size tx.

Definition transaction_expand_locks_list (tx : transaction) : transaction :=
  Tx (tx_id tx) (locks_count tx) (u32 (locks_size tx * 2)) (locks_list tx).

Definition transaction_locks_list_add (tx : transaction) (r : Z) (t : transaction_lock_type)
    : transaction :=
  let tx := if transaction_needs_expand_locks_list tx
            then transaction_expand_locks_list tx else tx in
  Tx (tx_id tx) (u32 (locks_count tx + 1)) (locks_size tx) (locks_list tx ++ [LockEntry r t]).

(** ** The store of locks *)

Class LockStore (S : Type) := {
  get_lock : S -> Z -> option transaction_rwspinlock;
  set_lock : S -> Z -> transaction_rwspinlock -> S;
  get_set_lock_eq s r l : is_Some (get_lock s r) -> get_lock (set_lock s r l) r = Some l;
  get_set_lock_ne s r q l : r <> q -> get_lock (set_lock s r l) q = get_lock s q
}.

Section store.
Context {S : Type} `{LockStore S}.

(** The result is the store, the transaction and the boolean the C function
    returns; [None] is a failed assert or a lock that does not exist. *)
Definition transaction_lock_for_write (s : S) (tx : transaction) (r : Z)
    : option (S * transaction * bool) :=
  l ← get_lock s r;
  match (if transaction_rwspinlock_is_owned_by_transaction l tx then Some l
         else transaction_rwspinlock_write_lock_internal l tx 0) with
  | Some l' => Some (set_lock s r l', transaction_locks_list_add tx r LOCK_TYPE_WRITE, true)
  | None => Some (s, tx, false)
  end.

Definition transaction_upgrade_lock_for_write (s : S) (tx : transaction) (r : Z)
    : option (S * transaction * bool) :=
  l ← get_lock s r;
  match (if transaction_rwspinlock_is_owned_by_transaction l tx then Some l
         else transaction_rwspinlock_write_lock_internal l tx 1) with
  | Some l' => Some (set_lock s r l', transaction_locks_list_add tx r LOCK_TYPE_WRITE, true)
  | None => Some (s, tx, false)
  end.

Definition transaction_lock_for_read (s : S) (tx : transaction) (r : Z)
    : option (S * transaction * bool) :=
  l ← get_lock s r;
  if (tx_id tx =? transaction_id l) || negb (readers_count l <? UINT16_MAX) then None else
  let l := transaction_rwspinlock_readers_increment l in
  if transaction_rwspinlock_wait_write_lock_internal l
  then Some (set_lock s r l, transaction_locks_list_add tx r LOCK_TYPE_READ, true)
  else Some (set_lock s r (transaction_rwspinlock_readers_decrement l), tx, false).

Definition release_entry (s : S) (e : transaction_locks_list_entry) : option S :=
  l ← get_lock s (spinlock e);
  match lock_type e with
  | LOCK_TYPE_WRITE => Some (set_lock s (spinlock e) (transaction_rwspinlock_unlock_internal l))
  | LOCK_TYPE_READ =>
      if 0 <? readers_count l
      then Some (set_lock s (spinlock e) (transaction_rwspinlock_readers_decrement l))
      else None
  end.

Fixpoint release_entries (s : S) (es : list transaction_locks_list_entry) : option S :=
  match es with
  | [] => Some s
  | e :: es => s' ← release_entry s e; release_entries s' es
  end.

Definition transaction_release (s : S) (tx : transaction) : option (S * transaction) :=
  if tx_id tx =? TRANSACTION_ID_NOT_ACQUIRED then None else
  s' ← release_entries s (locks_list tx);
  Some (s', Tx TRANSACTION_ID_NOT_ACQUIRED (locks_count tx) (locks_size tx) []).

(** ** What a transaction holds

    [es] are the entries of the transaction's list; [s0] is the store when the
    transaction started. *)

Definition is_read_of (r : Z) (e : transaction_locks_list_entry) : bool :=
  bool_decide (spinlock e = r /\ lock_type e = LOCK_TYPE_READ).
Definition is_write_of (r : Z) (e : transaction_locks_list_entry) : bool :=
  bool_decide (spinlock e = r /\ lock_type e = LOCK_TYPE_WRITE).

Definition reads (es : list transaction_locks_list_entry) (r : Z) : Z :=
  zlen (filter (fun e => is_read_of r e = true) es).
Definition has_write (es : list transaction_locks_list_entry) (r : Z) : bool :=
  existsb (is_write_of r) es.

Lemma reads_nonneg es r : 0 <= reads es r.
Proof. unfold reads. apply zlen_nonneg. Qed.

Lemma reads_cons e es r : reads (e :: es) r = (if is_read_of r e then 1 else 0) + reads es r.
Proof.
  unfold reads. rewrite filter_cons.
  destruct (is_read_of r e); case_decide; rewrite ?zlen_cons; (done || lia).
Qed.

Lemma reads_snoc e es r : reads (es ++ [e]) r = reads es r + (if is_read_of r e then 1 else 0).
Proof.
  unfold reads. rewrite filter_app, zlen_app, filter_cons, filter_nil. f_equal.
  by destruct (is_read_of r e); case_decide.
Qed.

Lemma has_write_snoc e es r : has_write (es ++ [e]) r = has_write es r || is_write_of r e.
Proof. unfold has_write. rewrite existsb_app. cbn. by rewrite orb_false_r. Qed.

(** Lock [l0] of the initial store has become [l]. *)
Record held_lock (id : Z) (es : list transaction_locks_list_entry) (r : Z)
    (l0 l : transaction_rwspinlock) : Prop := {
  held_readers : readers_count l = readers_count l0 + reads es r;
  held_bounds : 0 <= readers_count l0 /\ readers_count l <= UINT16_MAX;
  held_fresh : transaction_id l0 <> id;
  held_id : transaction_id l = if has_write es r then id else transaction_id l0;
  held_unlocked : has_write es r = true -> transaction_id l0 = TRANSACTION_SPINLOCK_UNLOCKED
}.

Definition held (s0 s : S) (tx : transaction) : Prop :=
  tx_id tx <> TRANSACTION_ID_NOT_ACQUIRED /\
  forall r, match get_lock s0 r with
            | None => get_lock s r = None
            | Some l0 => exists l, get_lock s r = Some l /\ held_lock (tx_id tx) (locks_list tx) r l0 l
            end.

Lemma locks_list_add_id tx r t : tx_id (transaction_locks_list_add tx r t) = tx_id tx.
Proof. unfold transaction_locks_list_add. by destruct (transaction_needs_expand_locks_list tx). Qed.

Lemma locks_list_add_list tx r t :
  locks_list (transaction_locks_list_add tx r t) = locks_list tx ++ [LockEntry r t].
Proof. unfold transaction_locks_list_add. by destruct (transaction_needs_expand_locks_list tx). Qed.

(** Adding an entry for [r] and updating the word of [r] accordingly. *)
Lemma held_add s0 s tx r t l l' :
  held s0 s tx -> get_lock s r = Some l ->
  (forall l0, held_lock (tx_id tx) (locks_list tx) r l0 l ->
     held_lock (tx_id tx) (locks_list tx ++ [LockEntry r t]) r l0 l') ->
  held s0 (set_lock s r l') (transaction_locks_list_add tx r t).
Proof.
  intros [Hid Hh] Hl Hup. split; [by rewrite locks_list_add_id|]. intros q.
  rewrite locks_list_add_id, locks_list_add_list. specialize (Hh q).
  destruct (decide (r = q)) as [<-|Hne].
  - destruct (get_lock s0 r) as [l0|]; [|congruence].
    destruct Hh as (l1 & Hl1 & Hheld). rewrite Hl in Hl1. injection Hl1 as <-.
    exists l'. split; [by apply get_set_lock_eq|]. by apply Hup.
  - rewrite get_set_lock_ne by done. destruct (get_lock s0 q) as [l0|]; [|done].
    destruct Hh as (l1 & Hl1 & []). exists l1. split; [done|].
    split; rewrite ?reads_snoc, ?has_write_snoc; unfold is_read_of, is_write_of; cbn [spinlock lock_type].
    all: rewrite ?bool_decide_eq_false_2 by naive_solver; rewrite ?orb_false_r, ?Z.add_0_r; done.
Qed.

Lemma held_write s0 s tx r (expected : Z) l l' :
  held s0 s tx -> get_lock s r = Some l ->
  (if transaction_rwspinlock_is_owned_by_transaction l tx then Some l
   else transaction_rwspinlock_write_lock_internal l tx expected) = Some l' ->
  held s0 (set_lock s r l') (transaction_locks_list_add tx r LOCK_TYPE_WRITE).
Proof.
  intros Hh Hl Hw. apply (held_add s0 s tx r LOCK_TYPE_WRITE l); [done..|].
  intros l0 [Hr Hb Hf Hi Hu].
  assert (transaction_id l' = tx_id tx /\ readers_count l' = readers_count l /\
          transaction_id l0 = TRANSACTION_SPINLOCK_UNLOCKED) as (Hi' & Hr' & Hz).
  { destruct (transaction_rwspinlock_is_owned_by_transaction l tx) eqn:Ho.
    - injection Hw as <-. apply Z.eqb_eq in Ho. split; [done|]. split; [done|].
      destruct (has_write (locks_list tx) r); [by apply Hu|congruence].
    - unfold transaction_rwspinlock_write_lock_internal, write_lock_spins,
        transaction_rwspinlock_try_write_lock_internal in Hw.
      destruct (_ && _) eqn:Hc in Hw; [|done]. injection Hw as <-.
      apply andb_true_iff in Hc as [Hz He]. apply Z.eqb_eq in Hz, He. cbn.
      split; [done|]. split; [done|].
      destruct (has_write (locks_list tx) r); [by apply Hu|congruence]. }
  split; rewrite ?reads_snoc, ?has_write_snoc; unfold is_read_of, is_write_of; cbn [spinlock lock_type].
  - rewrite bool_decide_eq_false_2 by naive_solver. lia.
  - lia.
  - done.
  - rewrite bool_decide_eq_true_2 by done. by rewrite orb_true_r.
  - done.
Qed.

Lemma held_read s0 s tx r l :
  held s0 s tx -> get_lock s r = Some l -> tx_id tx <> transaction_id l ->
  readers_count l < UINT16_MAX ->
  held s0 (set_lock s r (transaction_rwspinlock_readers_increment l))
    (transaction_locks_list_add tx r LOCK_TYPE_READ).
Proof.
  intros Hh Hl Hne Hmax. apply (held_add s0 s tx r LOCK_TYPE_READ l); [done..|].
  intros l0 [Hr Hb Hf Hi Hu]. pose proof (reads_nonneg (locks_list tx) r). unfold UINT16_MAX in *.
  split; rewrite ?reads_snoc, ?has_write_snoc; unfold is_read_of, is_write_of;
    cbn [spinlock lock_type transaction_id readers_count transaction_rwspinlock_readers_increment].
  - rewrite bool_decide_eq_true_2 by done. rewrite wrap_small by mach_lia. lia.
  - rewrite wrap_small by mach_lia. unfold UINT16_MAX. lia.
  - done.
  - rewrite bool_decide_eq_false_2 by naive_solver. by rewrite orb_false_r.
  - rewrite bool_decide_eq_false_2 by naive_solver. by rewrite orb_false_r.
Qed.

(** Setting a lock to an equal word changes nothing a lookup can see. *)
Lemma held_same s0 s tx r l :
  held s0 s tx -> get_lock s r = Some l -> held s0 (set_lock s r l) tx.
Proof.
  intros [Hid Hh] Hl. split; [done|]. intros q. specialize (Hh q).
  destruct (decide (r = q)) as [<-|Hne].
  - rewrite get_set_lock_eq by by eexists. by rewrite Hl in Hh.
  - by rewrite get_set_lock_ne.
Qed.

Inductive lock_op := OpLockRead (r : Z) | OpLockWrite (r : Z) | OpUpgrade (r : Z).

Definition lock_step (s : S) (tx : transaction) (o : lock_op) : option (S * transaction * bool) :=
  match o with
  | OpLockRead r => transaction_lock_for_read s tx r
  | OpLockWrite r => transaction_lock_for_write s tx r
  | OpUpgrade r => transaction_upgrade_lock_for_write s tx r
  end.

Lemma lock_step_held s0 s tx o s' tx' ok :
  held s0 s tx -> lock_step s tx o = Some (s', tx', ok) -> held s0 s' tx'.
Proof.
  intros Hh. destruct o as [r|r|r]; cbn [lock_step];
    unfold transaction_lock_for_read, transaction_lock_for_write, transaction_upgrade_lock_for_write;
    destruct (get_lock s r) as [l|] eqn:Hl; cbn [mbind option_bind]; [|done| |done| |done].
  - destruct (_ || _) eqn:Ha; [done|]. apply orb_false_iff in Ha as [Hn Hm].
    apply Z.eqb_neq in Hn. apply negb_false_iff, Z.ltb_lt in Hm.
    destruct (transaction_rwspinlock_wait_write_lock_internal _); intros [= <- <- <-].
    + by apply held_read.
    + apply held_same; [done|]. destruct Hh as [_ Hh]. specialize (Hh r).
      destruct (get_lock s0 r) as [l0|]; [|congruence]. destruct Hh as (l1 & Hl1 & [Hr Hb _ _ _]).
      rewrite Hl in Hl1. injection Hl1 as <-. pose proof (reads_nonneg (locks_list tx) r).
      unfold transaction_rwspinlock_readers_decrement, transaction_rwspinlock_readers_increment.
      unfold UINT16_MAX in *. cbn [transaction_id readers_count].
      rewrite (wrap_small 16 (readers_count l + 1)), wrap_small by mach_lia.
      replace (readers_count l + 1 - 1) with (readers_count l) by lia. by destruct l.
  - case_match eqn:Hw; intros [= <- <- <-]; [|done]. by eapply held_write.
  - case_match eqn:Hw; intros [= <- <- <-]; [|done]. by eapply held_write.
Qed.

Fixpoint lock_run (s : S) (tx : transaction) (os : list lock_op) : option (S * transaction) :=
  match os with
  | [] => Some (s, tx)
  | o :: os => '(s', tx', _) ← lock_step s tx o; lock_run s' tx' os
  end.

Lemma lock_run_held s0 os s tx s' tx' :
  held s0 s tx -> lock_run s tx os = Some (s', tx') -> held s0 s' tx'.
Proof.
  revert s tx. induction os as [|o os IH]; intros s tx Hh; cbn [lock_run].
  - by intros [= <- <-].
  - destruct (lock_step s tx o) as [[[s1 tx1] ok]|] eqn:Ho; [|done]. cbn.
    apply IH. by eapply lock_step_held.
Qed.

Lemma held_start s tx :
  tx_id tx <> TRANSACTION_ID_NOT_ACQUIRED -> locks_list tx = [] ->
  (forall r l, get_lock s r = Some l -> 0 <= readers_count l <= UINT16_MAX /\ transaction_id l <> tx_id tx) ->
  held s s tx.
Proof.
  intros Hid He Hl. split; [done|]. intros r. destruct (get_lock s r) as [l|] eqn:Hg; [|done].
  exists l. split; [done|]. rewrite He. destruct (Hl r l Hg) as [? ?]. split; try done.
  unfold reads, zlen. cbn. lia.
Qed.

(** What the rest of the list still has to give back. *)
Definition releasable (s0 s : S) (es : list transaction_locks_list_entry) : Prop :=
  forall r, match get_lock s0 r with
            | None => get_lock s r = None /\ forall e, e ∈ es -> spinlock e <> r
            | Some l0 => exists l, get_lock s r = Some l /\
                readers_count l = readers_count l0 + reads es r /\
                0 <= readers_count l0 /\ readers_count l <= UINT16_MAX /\
                (if has_write es r then transaction_id l0 = TRANSACTION_SPINLOCK_UNLOCKED
                 else transaction_id l = transaction_id l0)
            end.

Lemma release_entry_spec s0 s e es :
  releasable s0 s (e :: es) -> exists s', release_entry s e = Some s' /\ releasable s0 s' es.
Proof.
  intros Hr. pose proof (Hr (spinlock e)) as He. unfold release_entry.
  destruct (get_lock s0 (spinlock e)) as [l0|] eqn:Hl0.
  2: { destruct He as [_ He]. exfalso. by apply (He e); [left|]. }
  destruct He as (l & Hl & Hrd & Hb0 & Hb & Hw). rewrite Hl. cbn [mbind option_bind].
  pose proof (reads_nonneg es (spinlock e)). unfold UINT16_MAX in *.
  assert (exists l', (match lock_type e with
     | LOCK_TYPE_WRITE => Some (set_lock s (spinlock e) (transaction_rwspinlock_unlock_internal l))
     | LOCK_TYPE_READ => if 0 <? readers_count l
        then Some (set_lock s (spinlock e) (transaction_rwspinlock_readers_decrement l)) else None
     end = Some (set_lock s (spinlock e) l')) /\
     readers_count l' = readers_count l0 + reads es (spinlock e) /\
     (if has_write es (spinlock e) then transaction_id l0 = TRANSACTION_SPINLOCK_UNLOCKED
      else transaction_id l' = transaction_id l0)) as (l' & Heq & Hrd' & Hw').
  { rewrite reads_cons in Hrd. cbn [has_write existsb] in Hw. fold (has_write es (spinlock e)) in Hw.
    unfold is_read_of, is_write_of in Hrd, Hw. destruct (lock_type e) eqn:Ht.
    - rewrite bool_decide_eq_true_2 in Hrd by done. rewrite bool_decide_eq_false_2 in Hw by naive_solver.
      destruct (Z.ltb_spec 0 (readers_count l)); [|lia]. eexists. split; [done|].
      cbn [readers_count transaction_id transaction_rwspinlock_readers_decrement].
      rewrite wrap_small by mach_lia. split; [lia|done].
    - rewrite bool_decide_eq_false_2 in Hrd by naive_solver. rewrite bool_decide_eq_true_2 in Hw by done.
      eexists. split; [done|]. cbn. split; [lia|]. by destruct (has_write es (spinlock e)). }
  eexists. split; [exact Heq|]. intros q. specialize (Hr q).
  destruct (decide (spinlock e = q)) as [<-|Hne].
  - rewrite Hl0. exists l'. split; [apply get_set_lock_eq; by eexists|].
    rewrite reads_cons in Hrd. destruct (is_read_of (spinlock e) e); unfold UINT16_MAX; split_and!; (done || lia).
  - rewrite get_set_lock_ne by done. destruct (get_lock s0 q) as [lq|].
    + destruct Hr as (l1 & ? & Hr1 & ? & ? & Hw1). exists l1. split; [done|].
      rewrite reads_cons in Hr1. cbn [has_write existsb] in Hw1.
      unfold is_read_of in Hr1. unfold is_write_of in Hw1.
      rewrite bool_decide_eq_false_2 in Hr1, Hw1 by naive_solver. split_and!; done.
    + destruct Hr as [? Hn]. split; [done|]. intros e' He'. apply Hn. by right.
Qed.

Lemma release_entries_spec s0 s es :
  releasable s0 s es ->
  exists s', release_entries s es = Some s' /\ forall r, get_lock s' r = get_lock s0 r.
Proof.
  revert s. induction es as [|e es IH]; intros s Hr; cbn [release_entries].
  - exists s. split; [done|]. intros r. specialize (Hr r). cbn in Hr.
    destruct (get_lock s0 r) as [[id0 rd0]|]; [|by destruct Hr].
    destruct Hr as ([id rd] & -> & Hrd & _ & _ & Hid). cbn in *.
    unfold reads in Hrd. cbn in Hrd. f_equal. f_equal; [done|]. rewrite Hrd. unfold zlen. cbn. lia.
  - destruct (release_entry_spec s0 s e es Hr) as (s1 & -> & Hr1). cbn. by apply IH.
Qed.

Lemma held_releasable s0 s tx :
  held s0 s tx ->
  (forall e, e ∈ locks_list tx -> is_Some (get_lock s0 (spinlock e))) ->
  releasable s0 s (locks_list tx).
Proof.
  intros [_ Hh] Hin r. specialize (Hh r). destruct (get_lock s0 r) as [l0|] eqn:Hl0.
  - destruct Hh as (l & Hl & [Hr [? ?] _ Hid Hu]). exists l. split_and!; try done.
    destruct (has_write (locks_list tx) r); [by apply Hu|done].
  - split; [done|]. intros e He <-. destruct (Hin e He) as [? ?]. congruence.
Qed.

Lemma lock_step_entries s0 s tx o s' tx' ok :
  held s0 s tx -> lock_step s tx o = Some (s', tx', ok) ->
  (forall e, e ∈ locks_list tx -> is_Some (get_lock s0 (spinlock e))) ->
  forall e, e ∈ locks_list tx' -> is_Some (get_lock s0 (spinlock e)).
Proof.
  intros [_ Hh] Ho Hin.
  assert (tx' = tx \/ exists r t, tx' = transaction_locks_list_add tx r t /\ is_Some (get_lock s r)) as Hc.
  { destruct o as [r|r|r]; cbn [lock_step] in Ho;
      unfold transaction_lock_for_read, transaction_lock_for_write, transaction_upgrade_lock_for_write in Ho;
      destruct (get_lock s r) as [l|] eqn:Hl; cbn [mbind option_bind] in Ho; try done;
      repeat case_match; simplify_eq; eauto 10. }
  destruct Hc as [->|(r & t & -> & [l Hl])]; [done|].
  intros e. rewrite locks_list_add_list, elem_of_app, list_elem_of_singleton.
  intros [He| ->]; [by apply Hin|]. cbn. specialize (Hh r).
  destruct (get_lock s0 r); [by eexists|congruence].
Qed.

Lemma lock_run_entries s0 os s tx s' tx' :
  held s0 s tx -> lock_run s tx os = Some (s', tx') ->
  (forall e, e ∈ locks_list tx -> is_Some (get_lock s0 (spinlock e))) ->
  forall e, e ∈ locks_list tx' -> is_Some (get_lock s0 (spinlock e)).
Proof.
  revert s tx. induction os as [|o os IH]; intros s tx Hh; cbn [lock_run].
  - by intros [= <- <-].
  - destruct (lock_step s tx o) as [[[s1 tx1] ok]|] eqn:Ho; [|done]. cbn. intros Hrun Hin.
    apply (IH s1 tx1); [by eapply lock_step_held|done|by eapply lock_step_entries].
Qed.

Lemma release_restores s0 os tx s tx' :
  tx_id tx <> TRANSACTION_ID_NOT_ACQUIRED -> locks_list tx = [] ->
  (forall r l, get_lock s0 r = Some l ->
     0 <= readers_count l <= UINT16_MAX /\ transaction_id l <> tx_id tx) ->
  lock_run s0 tx os = Some (s, tx') ->
  exists s' tx'', transaction_release s tx' = Some (s', tx'') /\
    forall r, get_lock s' r = get_lock s0 r.
Proof.
  intros Hid He Hl Hrun. pose proof (held_start s0 tx Hid He Hl) as Hh.
  pose proof (lock_run_held s0 os s0 tx s tx' Hh Hrun) as Hh'.
  destruct (release_entries_spec s0 s (locks_list tx')) as (s' & Hrel & Heq).
  { apply held_releasable; [done|]. apply (lock_run_entries s0 os s0 tx s tx'); [done|done|]. rewrite He. set_solver. }
  unfold transaction_release. destruct (Z.eqb_spec (tx_id tx') TRANSACTION_ID_NOT_ACQUIRED) as [Hx|_].
  { by destruct Hh' as [? _]. }
  rewrite Hrel. cbn. eauto.
Qed.

End store.

(** ** Threads contending for one lock

    The status of a thread is the point it has reached in
    [transaction_lock_for_read] (the increment, then the wait),
    [transaction_lock_for_write], [transaction_upgrade_lock_for_write] and
    [transaction_release].  A failed compare-and-swap or an unsuccessful look
    at the word leaves everything as it is. *)

Inductive status := Idle | ReadWait | ReadHeld | WriteHeld | Upgraded.

Record contention := Contention {
  word : transaction_rwspinlock;
  threads : list status
}.

Section contention.
Context (tid : nat -> Z).

Definition thread_tx (t : nat) : transaction := Tx (tid t) 0 2 [].

Inductive contention_step : contention -> contention -> Prop :=
  | step_read_enter w ts t :
      ts !! t = Some Idle -> readers_count w < UINT16_MAX ->
      contention_step (Contention w ts)
        (Contention (transaction_rwspinlock_readers_increment w) (<[t := ReadWait]> ts))
  | step_read_acquire w ts t :
      ts !! t = Some ReadWait -> transaction_rwspinlock_is_write_locked w = false ->
      contention_step (Contention w ts) (Contention w (<[t := ReadHeld]> ts))
  | step_read_give_up w ts t :
      ts !! t = Some ReadWait ->
      contention_step (Contention w ts)
        (Contention (transaction_rwspinlock_readers_decrement w) (<[t := Idle]> ts))
  | step_read_release w ts t :
      ts !! t = Some ReadHeld ->
      contention_step (Contention w ts)
        (Contention (transaction_rwspinlock_readers_decrement w) (<[t := Idle]> ts))
  | step_write_acquire w ts t w' :
      ts !! t = Some Idle ->
      transaction_rwspinlock_try_write_lock_internal w (thread_tx t) 0 = Some w' ->
      contention_step (Contention w ts) (Contention w' (<[t := WriteHeld]> ts))
  | step_write_release w ts t :
      ts !! t = Some WriteHeld ->
      contention_step (Contention w ts)
        (Contention (transaction_rwspinlock_unlock_internal w) (<[t := Idle]> ts))
  | step_upgrade w ts t w' :
      ts !! t = Some ReadHeld ->
      transaction_rwspinlock_try_write_lock_internal w (thread_tx t) 1 = Some w' ->
      contention_step (Contention w ts) (Contention w' (<[t := Upgraded]> ts))
  | step_upgraded_release_read w ts t :
      ts !! t = Some Upgraded ->
      contention_step (Contention w ts)
        (Contention (transaction_rwspinlock_readers_decrement w) (<[t := WriteHeld]> ts)).

Definition contention_init (n : nat) : contention :=
  Contention transaction_rwspinlock_init (replicate n Idle).

(** The threads the readers counter counts, and the ones that may write. *)
Definition counted (st : status) : Z :=
  match st with ReadWait | ReadHeld | Upgraded => 1 | _ => 0 end.
Definition writing (st : status) : bool :=
  match st with WriteHeld | Upgraded => true | _ => false end.
Definition reading (st : status) : bool :=
  match st with ReadHeld => true | _ => false end.

Abbreviation count_readers := (zsum counted).

Lemma counted_bounds st : 0 <= counted st <= 1.
Proof. destruct st; cbn; lia. Qed.

Lemma counted_nonneg st : 0 <= counted st.
Proof. apply counted_bounds. Qed.

Definition count_readers_nonneg := zsum_nonneg counted counted_nonneg.
Definition count_readers_insert := zsum_insert counted.
Definition count_readers_lookup := zsum_lookup counted counted_nonneg.
Definition count_readers_two := zsum_two counted counted_nonneg.

Record contention_inv (c : contention) : Prop := {
  ci_readers : readers_count (word c) = count_readers (threads c);
  ci_bound : readers_count (word c) <= UINT16_MAX;
  ci_writer : forall t st, threads c !! t = Some st -> writing st = true ->
    transaction_id (word c) <> TRANSACTION_SPINLOCK_UNLOCKED /\
    forall u st', threads c !! u = Some st' -> u <> t -> writing st' = false /\ reading st' = false
}.

Lemma contention_init_inv n : contention_inv (contention_init n).
Proof.
  split; cbn.
  - induction n; cbn; [done|]. by rewrite <- IHn.
  - unfold UINT16_MAX. lia.
  - intros t st [-> _]%lookup_replicate. done.
Qed.

(** Thread [t] changes to a status that neither reads nor writes, or keeps
    writing, while the word stays locked if somebody still writes. *)
Lemma ci_writer_insert w w' (ts : list status) t st' :
  (t < length ts)%nat ->
  (forall u st, ts !! u = Some st -> writing st = true ->
     transaction_id w <> TRANSACTION_SPINLOCK_UNLOCKED /\
     forall v st', ts !! v = Some st' -> v <> u -> writing st' = false /\ reading st' = false) ->
  (writing st' = true ->
     transaction_id w' <> TRANSACTION_SPINLOCK_UNLOCKED /\
     forall v st'', ts !! v = Some st'' -> v <> t -> writing st'' = false /\ reading st'' = false) ->
  ((exists u st, ts !! u = Some st /\ u <> t /\ writing st = true) ->
     transaction_id w' <> TRANSACTION_SPINLOCK_UNLOCKED /\ writing st' = false /\ reading st' = false) ->
  forall u st, <[t := st']> ts !! u = Some st -> writing st = true ->
    transaction_id w' <> TRANSACTION_SPINLOCK_UNLOCKED /\
    forall v st'', <[t := st']> ts !! v = Some st'' -> v <> u -> writing st'' = false /\ reading st'' = false.
Proof.
  intros Hlt Hold Hnew Hoth u st Hu Hw. destruct (decide (u = t)) as [->|Hne].
  - rewrite list_lookup_insert_eq in Hu by done. injection Hu as <-.
    destruct (Hnew Hw) as [? Hall]. split; [done|]. intros v st'' Hv Hvt.
    rewrite list_lookup_insert_ne in Hv by done. eauto.
  - rewrite list_lookup_insert_ne in Hu by done.
    destruct (Hoth ltac:(eauto)) as (? & ? & ?). split; [done|]. intros v st'' Hv Hvu.
    destruct (decide (v = t)) as [->|Hvt].
    + rewrite list_lookup_insert_eq in Hv by done. by injection Hv as <-.
    + rewrite list_lookup_insert_ne in Hv by done. destruct (Hold u st Hu Hw) as [_ Hall]. eauto.
Qed.

Lemma others_not_active ts t st e :
  (forall u st, ts !! u = Some st -> writing st = false) ->
  ts !! t = Some st -> counted st = e -> count_readers ts = e ->
  forall v st', ts !! v = Some st' -> v <> t -> writing st' = false /\ reading st' = false.
Proof.
  intros Hw Ht He Hc v st' Hv Hne. split; [by eapply Hw|].
  pose proof (count_readers_two ts t v st st' Ht Hv ltac:(congruence)).
  destruct st'; cbn in *; (done || lia).
Qed.

Lemma try_write_lock_inv w tx e w' :
  transaction_rwspinlock_try_write_lock_internal w tx e = Some w' ->
  transaction_id w = TRANSACTION_SPINLOCK_UNLOCKED /\ readers_count w = e /\
  w' = RwSpinlock (tx_id tx) e.
Proof.
  unfold transaction_rwspinlock_try_write_lock_internal.
  destruct (_ && _) eqn:Hc; [|done]. intros [= <-].
  apply andb_true_iff in Hc as [H1 H2]. by apply Z.eqb_eq in H1, H2.
Qed.

Lemma unlocked_no_writer (w : transaction_rwspinlock) (ts : list status) :
  (forall t st, ts !! t = Some st -> writing st = true ->
     transaction_id w <> TRANSACTION_SPINLOCK_UNLOCKED /\
     forall u st', ts !! u = Some st' -> u <> t -> writing st' = false /\ reading st' = false) ->
  transaction_id w = TRANSACTION_SPINLOCK_UNLOCKED ->
  forall u st, ts !! u = Some st -> writing st = false.
Proof.
  intros Hold Hz u st Hu. destruct (writing st) eqn:Hw; [|done].
  by destruct (Hold u st Hu Hw).
Qed.

Context (tid_nonzero : forall t, tid t <> TRANSACTION_ID_NOT_ACQUIRED).

(** A reader enters or leaves: only the counter of the word changes. *)
Lemma counter_step_inv w w' ts t st st' :
  contention_inv (Contention w ts) -> ts !! t = Some st ->
  transaction_id w' = transaction_id w ->
  readers_count w' = readers_count w - counted st + counted st' -> readers_count w' <= UINT16_MAX ->
  writing st' = false -> reading st' = false ->
  contention_inv (Contention w' (<[t := st']> ts)).
Proof.
  intros [Hr Hb Hw] Ht Hid Hc Hb' Hnw Hnr. split; cbn [word threads] in *.
  - rewrite (count_readers_insert _ _ _ _ Ht). lia.
  - done.
  - apply (ci_writer_insert w); [by eapply lookup_lt_Some|done|congruence|].
    intros (u & st'' & Hu & _ & Hwu). rewrite Hid. by destruct (Hw u st'' Hu Hwu).
Qed.

(** The compare-and-swap of the write lock succeeds for a thread that is the
    only one the counter counts, if any. *)
Lemma acquire_step_inv w w' ts t st st' :
  contention_inv (Contention w ts) -> ts !! t = Some st ->
  transaction_rwspinlock_try_write_lock_internal w (thread_tx t) (counted st) = Some w' ->
  counted st' = counted st -> contention_inv (Contention w' (<[t := st']> ts)).
Proof using tid_nonzero.
  intros [Hr Hb Hw] Ht (Hz & He & ->)%try_write_lock_inv Hc. cbn [word threads] in *.
  pose proof (unlocked_no_writer w ts Hw Hz) as Hnw. pose proof (counted_bounds st).
  split; cbn [word threads readers_count transaction_id]; [|unfold UINT16_MAX; lia|].
  - rewrite (count_readers_insert _ _ _ _ Ht). lia.
  - apply (ci_writer_insert w (RwSpinlock (tid t) (counted st))); [by eapply lookup_lt_Some|done| |].
    + intros _. split; [apply tid_nonzero|]. by eapply others_not_active; eauto; lia.
    + intros (u & st'' & Hu & _ & Hwu). by rewrite (Hnw u st'' Hu) in Hwu.
Qed.

(** The thread that writes changes the word; nobody else is active. *)
Lemma writer_step_inv w w' ts t st st' :
  contention_inv (Contention w ts) -> ts !! t = Some st -> writing st = true ->
  readers_count w' = readers_count w - counted st + counted st' -> readers_count w' <= UINT16_MAX ->
  (writing st' = true -> transaction_id w' = transaction_id w) ->
  contention_inv (Contention w' (<[t := st']> ts)).
Proof.
  intros [Hr Hb Hw] Ht Hwt Hc Hb' Hid. cbn [word threads] in *. destruct (Hw t st Ht Hwt) as [Hz Hall].
  split; cbn [word threads]; [|done|].
  - rewrite (count_readers_insert _ _ _ _ Ht). lia.
  - apply (ci_writer_insert w); [by eapply lookup_lt_Some|done| |].
    + intros Hst'. by rewrite (Hid Hst').
    + intros (u & st'' & Hu & Hne & Hwu). destruct (Hall u st'' Hu Hne). congruence.
Qed.

Lemma contention_step_inv c c' : contention_step c c' -> contention_inv c -> contention_inv c'.
Proof using tid_nonzero.
  intros Hstep Hinv. pose proof Hinv as [Hr Hb Hw].
  destruct Hstep as [w ts t Ht Hm|w ts t Ht Hl|w ts t Ht|w ts t Ht|w ts t w' Ht Hc|w ts t Ht
                    |w ts t w' Ht Hc|w ts t Ht]; cbn [word threads] in *;
    pose proof (count_readers_lookup _ _ _ Ht) as Hcl;
    pose proof (count_readers_nonneg ts) as Hnn; unfold UINT16_MAX in *; cbn [counted] in Hcl.
  2: { (* the reader sees the lock free: nobody writes *)
    apply negb_false_iff, Z.eqb_eq in Hl. split; cbn [word threads]; [|done|].
    - rewrite (count_readers_insert _ _ _ _ Ht). cbn. lia.
    - apply (ci_writer_insert w); [by eapply lookup_lt_Some|done..|].
      intros (u & st & Hu & _ & Hwu). by rewrite (unlocked_no_writer w ts Hw Hl u st Hu) in Hwu. }
  1-3: eapply counter_step_inv; [exact Hinv|exact Ht|done|..|done|done]; cbn [readers_count counted
    transaction_rwspinlock_readers_increment transaction_rwspinlock_readers_decrement];
    unfold UINT16_MAX; rewrite ?wrap_small by mach_lia; lia.
  - by eapply acquire_step_inv.
  - eapply writer_step_inv; [exact Hinv|exact Ht|done|..|done]; cbn; unfold UINT16_MAX; lia.
  - by eapply acquire_step_inv.
  - eapply writer_step_inv; [exact Hinv|exact Ht|done|..|done];
      cbn [readers_count counted transaction_rwspinlock_readers_decrement];
      unfold UINT16_MAX; rewrite ?wrap_small by mach_lia; lia.
Qed.

Lemma contention_reachable_inv n c :
  rtc contention_step (contention_init n) c -> contention_inv c.
Proof.
  intros Hr. pose proof (contention_init_inv n) as Hi.
  induction Hr as [|x y z Hxy _ IH]; [done|]. apply IH. by eapply contention_step_inv.
Qed.

End contention.

(** ** Transaction ids *)

Definition manager_worker (worker_context_index : Z) (m : transaction_manager) : Z :=
  if manager_inited m then manager_worker_index m else worker_context_index.

Lemma transaction_acquire_id w m :
  in_u 16 (manager_worker w m) ->
  exists index, in_u 16 index /\
    tx_id (transaction_acquire w m).2 = index + manager_worker w m * 2 ^ 16 /\
    ~ (manager_worker w m = 0 /\ index = 0).
Proof.
  intros Hw. unfold transaction_acquire. fold (manager_worker w m). cbn [snd tx_id].
  set (i := u16 (manager_transaction_index m + 1)).
  assert (in_u 16 i) as Hi by (apply wrap_range; lia).
  destruct (_ && _) eqn:Hc.
  - apply andb_true_iff in Hc as [H1 H2]. apply Z.eqb_eq in H1, H2. rewrite H1, H2.
    exists 1. split; [split; vm_compute; congruence|]. split; [done|lia].
  - apply andb_false_iff in Hc. exists i. split; [done|].
    rewrite !wrap_small by done. split; [done|]. intros [H1 H2].
    rewrite H1, H2 in Hc. by destruct Hc.
Qed.

(** ** Properties *)




(** An array of locks is a store of locks. *)
Lemma zlocks_eq (s : list transaction_rwspinlock) r l :
  is_Some (zget s r) -> zget (zset s r l) r = Some l.
Proof. intros [l0 Hl]. apply zget_zset_eq. by eapply zget_Some_range. Qed.

Lemma zlocks_ne (s : list transaction_rwspinlock) r q l :
  r <> q -> zget (zset s r l) q = zget s q.
Proof. apply zget_zset_ne. Qed.

#[export] Instance list_lock_store : LockStore (list transaction_rwspinlock) :=
  {| get_lock := zget; set_lock := zset;
     get_set_lock_eq := zlocks_eq; get_set_lock_ne := zlocks_ne |}.


(** The ids handed out by the transaction managers of two different
    workers never coincide, and an acquired id is never the reserved value
    "not acquired", also after the 16-bit transaction index has wrapped. *)
Theorem transaction_ids_distinct (w1 w2 : Z) (m1 m2 : transaction_manager) :
  in_u 16 (manager_worker w1 m1) -> in_u 16 (manager_worker w2 m2) ->
  manager_worker w1 m1 <> manager_worker w2 m2 ->
  tx_id (transaction_acquire w1 m1).2 <> tx_id (transaction_acquire w2 m2).2 /\
  tx_id (transaction_acquire w1 m1).2 <> TRANSACTION_ID_NOT_ACQUIRED.
Proof.
  intros H1 H2 Hne.
  destruct (transaction_acquire_id w1 m1 H1) as (i1 & Hi1 & -> & Hz1).
  destruct (transaction_acquire_id w2 m2 H2) as (i2 & Hi2 & -> & Hz2).
  unfold TRANSACTION_ID_NOT_ACQUIRED. mach_lia.
Qed.

Lemma transaction_ids_distinct_witness :
  tx_id (transaction_acquire 0 (Manager 0 65535 true)).2 <>
  tx_id (transaction_acquire 3 (Manager 0 0 false)).2 /\
  tx_id (transaction_acquire 0 (Manager 0 65535 true)).2 <> TRANSACTION_ID_NOT_ACQUIRED.
Proof.
  apply (transaction_ids_distinct 0 3 (Manager 0 65535 true) (Manager 0 0 false)).
  - split; vm_compute; congruence.
  - split; vm_compute; congruence.
  - vm_compute. congruence.
Defined.

End Transaction.
