(* ===== verification/HashtableMcmp.v ===== *)
(** * HashtableMcmp: the chunked hashtable behind the database

    data_structures/hashtable/mcmp.  A table is an array of chunks of 14 slot
    ids with their metadata, an array of lock words (the first 6 bytes of each
    chunk) and an array of key/value buckets, bucket [c * 14 + s] belonging to
    slot [s] of chunk [c].  The hash of a key is a parameter: the configured
    algorithms are third-party code.

    The code keeps an [ht_old] table for a resize that no code path starts
    ([hashtable_mcmp_init] sets [is_resizing] to false and nothing changes it);
    the operations are modelled on [ht_current]. *)

From stdpp Require Import gmap.
From S2P Require Import Prelude Pow2 Transaction.

Module HashtableMcmp.
Import Transaction.

Definition CHUNK_SLOTS : Z := 14.
Definition SEARCH_MAX : Z := 32.
Definition FLAG_DELETED : Z := 1.
Definition FLAG_FILLED : Z := 2.
Definition OP_ITER_END : Z := 2 ^ 64 - 1.

(** ** Data *)

Record hashtable_key_value := KeyValue {
  flags : Z;
  database_number : Z;
  key_length : Z;
  key : option (list Z);
  data : Z
}.

Record hashtable_half_hashes_chunk := Chunk {
  overflowed_chunks_counter : Z;
  slots_occupied : Z;
  is_full : bool;
  half_hashes : list Z
}.

Record hashtable_data := HtData {
  buckets_count : Z;
  buckets_count_real : Z;
  chunks_count : Z;
  locks : list transaction_rwspinlock;
  half_hashes_chunk : list hashtable_half_hashes_chunk;
  keys_values : list hashtable_key_value
}.

Definition empty_key_value : hashtable_key_value := KeyValue 0 0 0 None 0.
Definition empty_chunk : hashtable_half_hashes_chunk := Chunk 0 0 false (replicate 14 0).

Definition KEY_VALUE_HAS_FLAG (f flag : Z) : bool := Z.land f flag =? flag.
Definition KEY_VALUE_IS_EMPTY (f : Z) : bool := f =? 0.

(** The 32-bit [slot_id] view of [{ filled; distance; quarter_hash }]. *)
Definition slot_id (filled distance quarter_hash : Z) : Z :=
  filled + distance * 2 ^ 8 + quarter_hash * 2 ^ 16.
Definition slot_filled (id : Z) : Z := id `mod` 2 ^ 8.
Definition slot_quarter_hash (id : Z) : Z := id / 2 ^ 16.

(** ** Memory of the table *)

Definition with_locks (d : hashtable_data) (l : list transaction_rwspinlock) : hashtable_data :=
  HtData (buckets_count d) (buckets_count_real d) (chunks_count d) l (half_hashes_chunk d) (keys_values d).
Definition guard_assert (b : bool) : option unit := if b then Some tt else None.
Definition set_chunk (d : hashtable_data) (c : Z) (ch : hashtable_half_hashes_chunk) : hashtable_data :=
  HtData (buckets_count d) (buckets_count_real d) (chunks_count d) (locks d)
    (zset (half_hashes_chunk d) c ch) (keys_values d).
Definition set_kv (d : hashtable_data) (b : Z) (kv : hashtable_key_value) : hashtable_data :=
  HtData (buckets_count d) (buckets_count_real d) (chunks_count d) (locks d)
    (half_hashes_chunk d) (zset (keys_values d) b kv).

Lemma data_locks_eq (d : hashtable_data) r l :
  is_Some (zget (locks d) r) -> zget (locks (with_locks d (zset (locks d) r l))) r = Some l.
Proof. apply zlocks_eq. Qed.

Lemma data_locks_ne (d : hashtable_data) r q l :
  r <> q -> zget (locks (with_locks d (zset (locks d) r l))) q = zget (locks d) q.
Proof. apply zlocks_ne. Qed.

(** The table is a store of locks: lock [c] is the one of chunk [c]. *)
#[export] Instance table_lock_store : LockStore hashtable_data :=
  {| get_lock d r := zget (locks d) r;
     set_lock d r l := with_locks d (zset (locks d) r l);
     get_set_lock_eq := data_locks_eq;
     get_set_lock_ne := data_locks_ne |}.

(** ** Creation *)

Definition hashtable_mcmp_data_init (bcount : Z) : option hashtable_data :=
  if negb (Pow2.pow2_is bcount) then None else
  let real := u64 (bcount - bcount `mod` CHUNK_SLOTS + CHUNK_SLOTS + SEARCH_MAX * CHUNK_SLOTS) in
  let chunks := real / CHUNK_SLOTS in
  Some (HtData bcount real chunks
    (replicate (Z.to_nat chunks) transaction_rwspinlock_init)
    (replicate (Z.to_nat chunks) empty_chunk)
    (replicate (Z.to_nat real) empty_key_value)).

Definition hashtable_mcmp_init (initial_size : Z) : option hashtable_data :=
  hashtable_mcmp_data_init (Pow2.pow2_next initial_size).

(** ** Hashes *)

Definition hashtable_mcmp_support_index_from_hash (bcount hash : Z) : Z :=
  Z.land hash (bcount - 1).
Definition hashtable_mcmp_support_hash_half (hash : Z) : Z :=
  u32 (Z.lor (Z.shiftr hash 32) 0x80000000).
Definition hashtable_mcmp_support_hash_quarter (hash_half : Z) : Z := Z.land hash_half 0xFFFF.

(** hashtable_support_hash_search_loop.h: bit [i] of the result tells that
    entry [i] equals the searched value. *)
Fixpoint hash_search_loop_n (hash : Z) (hashes : list Z) (index return_val : Z) : Z :=
  match hashes with
  | [] => return_val
  | h :: hashes =>
      hash_search_loop_n hash hashes (index + 1)
        (if h =? hash then Z.lor return_val (Z.shiftl 1 index) else return_val)
  end.

Definition hashtable_mcmp_support_hash_search_loop_14 (hash : Z) (hashes : list Z) : Z :=
  hash_search_loop_n hash (take 14 hashes) 0 0.

(** ** The loop over the slots of a result mask *)

Fixpoint lowest_one (n : nat) (i x : Z) : Z :=
  match n with
  | O => i
  | S n => if Z.testbit x i then i else lowest_one n (i + 1) x
  end.
Definition builtin_ctz (x : Z) : Z := lowest_one 32 0 x.

(** What the body does with a slot: go on, stop looking at this chunk, or
    accept it. *)
Inductive visit := VContinue | VBreak | VFound.

(** [while (true)] over [result_mask & ~(skip_indexes_mask | 0xC000)].  Every
    iteration sets one more of the 14 bits of [skip_indexes_mask], so 14
    iterations are always enough. *)
Fixpoint scan (fuel : nat) (result_mask skip_indexes_mask : Z) (f : Z -> option visit)
    : option (option Z) :=
  let skip_indexes_mask_inv := u32 (Z.lnot (Z.lor skip_indexes_mask 0xC000)) in
  let m := Z.land result_mask skip_indexes_mask_inv in
  if m =? 0 then Some None else
  match fuel with
  | O => None
  | S fuel =>
      let chunk_slot_index := builtin_ctz m in
      let skip_indexes_mask := Z.lor skip_indexes_mask (Z.shiftl 1 chunk_slot_index) in
      v ← f chunk_slot_index;
      match v with
      | VContinue => scan fuel result_mask skip_indexes_mask f
      | VBreak => Some None
      | VFound => Some (Some chunk_slot_index)
      end
  end.

(** C [strncmp(a, b, n) == 0] on the bytes of two strings. *)
Fixpoint strncmp_eq (a b : list Z) (n : nat) : bool :=
  match n, a, b with
  | O, _, _ => true
  | S n, x :: a, y :: b => if x =? y then (x =? 0) || strncmp_eq a b n else false
  | S _, [], [] => true
  | S _, _, _ => false
  end.

(** The comparison of the searched key with the one of a bucket; a NULL key
    pointer cannot be dereferenced. *)
Definition key_differs (kv : hashtable_key_value) (db : Z) (k : list Z) (klen : Z) : option bool :=
  if negb (klen =? key_length kv) then Some true else
  match key kv with
  | None => None
  | Some k' => Some (negb (strncmp_eq k k' (Z.to_nat klen)) || negb (db =? database_number kv))
  end.

Section table.
Context (hash_fn : Z -> list Z -> Z).

Definition hashtable_mcmp_support_hash_calculate (db : Z) (k : list Z) : Z := hash_fn db k.

(** ** hashtable_mcmp_support_op_search_key *)

Definition search_visit (d : hashtable_data) (db : Z) (k : list Z) (klen chunk_index slot : Z)
    : option visit :=
  kv ← zget (keys_values d) (chunk_index * CHUNK_SLOTS + slot);
  if KEY_VALUE_IS_EMPTY (flags kv) then Some VBreak else
  if KEY_VALUE_HAS_FLAG (flags kv) FLAG_DELETED then Some VContinue else
  if negb (key_length kv =? klen) then Some VContinue else
  differs ← key_differs kv db k klen;
  Some (if (differs : bool) then VContinue else VFound).

(** Takes the read lock of a chunk unless the transaction owns it. *)
Definition read_lock_unless_owned (d : hashtable_data) (tx : transaction) (c : Z)
    : option (hashtable_data * transaction * bool) :=
  l ← zget (locks d) c;
  if transaction_rwspinlock_is_owned_by_transaction l tx then Some (d, tx, true)
  else transaction_lock_for_read d tx c.

Definition write_lock_unless_owned (d : hashtable_data) (tx : transaction) (c : Z)
    : option (hashtable_data * transaction * bool) :=
  l ← zget (locks d) c;
  if transaction_rwspinlock_is_owned_by_transaction l tx then Some (d, tx, true)
  else transaction_lock_for_write d tx c.

(** The loop over the chunks, [n] of them from [chunk_index]; the result is
    the found chunk and slot. *)
Fixpoint search_chunks (n : nat) (d : hashtable_data) (tx : transaction) (db : Z) (k : list Z)
    (klen quarter start chunk_index : Z) : option (hashtable_data * transaction * option (Z * Z)) :=
  match n with
  | O => Some (d, tx, None)
  | S n =>
      ch ← zget (half_hashes_chunk d) chunk_index;
      if slots_occupied ch =? 0
      then search_chunks n d tx db k klen quarter start (chunk_index + 1) else
      '(d, tx, ok) ← (if chunk_index =? start then Some (d, tx, true)
                      else read_lock_unless_owned d tx chunk_index);
      if negb ok then Some (d, tx, None) else
      let id := slot_id 1 (u8 (chunk_index - start)) quarter in
      let result_mask := hashtable_mcmp_support_hash_search_loop_14 id (half_hashes ch) in
      r ← scan 14 result_mask 0 (search_visit d db k klen chunk_index);
      match r with
      | Some slot => Some (d, tx, Some (chunk_index, slot))
      | None => search_chunks n d tx db k klen quarter start (chunk_index + 1)
      end
  end.

Definition hashtable_mcmp_support_op_search_key (d : hashtable_data) (tx : transaction) (db : Z)
    (k : list Z) (klen hash : Z) : option (hashtable_data * transaction * option (Z * Z)) :=
  let bucket_index := hashtable_mcmp_support_index_from_hash (buckets_count d) hash in
  let start := bucket_index / CHUNK_SLOTS in
  let quarter := hashtable_mcmp_support_hash_quarter (hashtable_mcmp_support_hash_half hash) in
  '(d, tx, ok) ← read_lock_unless_owned d tx start;
  if negb ok then Some (d, tx, None) else
  ch ← zget (half_hashes_chunk d) start;
  search_chunks (Z.to_nat (overflowed_chunks_counter ch + 1)) d tx db k klen quarter start start.

(** ** hashtable_mcmp_support_op_search_key_or_create_new *)

Record search_or_create_result := Found {
  created_new : bool;
  found_chunk_index : Z;
  found_chunk_slot_index : Z
}.

(** The counter of the first chunk becomes the maximum of its value and of the
    distance of the found one. *)
Definition update_overflowed (d : hashtable_data) (start chunk_index : Z) : option hashtable_data :=
  ch ← zget (half_hashes_chunk d) start;
  let new := u8 (chunk_index - start) in
  let current := overflowed_chunks_counter ch in
  let update := if current <? new then new else current in
  _ ← guard_assert (update <? SEARCH_MAX);
  Some (set_chunk d start (Chunk update (slots_occupied ch) (is_full ch) (half_hashes ch))).

Definition write_lock_if_ahead (d : hashtable_data) (tx : transaction) (locked_up_to chunk_index : Z)
    : option (hashtable_data * transaction * Z * bool) :=
  if locked_up_to <? chunk_index then
    '(d, tx, ok) ← write_lock_unless_owned d tx chunk_index;
    Some (d, tx, chunk_index, ok)
  else Some (d, tx, locked_up_to, true).

Definition create_visit (d : hashtable_data) (db : Z) (k : list Z) (klen chunk_index slot : Z)
    : option visit :=
  kv ← zget (keys_values d) (chunk_index * CHUNK_SLOTS + slot);
  if negb (key_length kv =? klen) then Some VContinue else
  differs ← key_differs kv db k klen;
  Some (if (differs : bool) then VContinue else VFound).

(** Outcome of a phase: a lock could not be taken, the key was found (or its
    slot created), or the phase ended without it. *)
Inductive phase_result :=
  | PhaseLockFailed
  | PhaseFound (chunk_index slot : Z)
  | PhaseEnd (locked_up_to : Z) (first_with_freespace : option (Z * bool)).

(** First phase ([searching_or_creating == 0]): look for the key. [ff] is
    [chunk_first_with_freespace] with [found_chunk_with_freespace]. *)
Fixpoint search_phase (n : nat) (d : hashtable_data) (tx : transaction) (db : Z) (k : list Z)
    (klen quarter start chunk_index locked_up_to : Z) (ff : option (Z * bool))
    : option (hashtable_data * transaction * phase_result) :=
  match n with
  | O => Some (d, tx, PhaseEnd locked_up_to ff)
  | S n =>
      '(d, tx, locked_up_to, ok) ← write_lock_if_ahead d tx locked_up_to chunk_index;
      if negb ok then Some (d, tx, PhaseLockFailed) else
      ch ← zget (half_hashes_chunk d) chunk_index;
      let ff := match ff with
                | Some (_, true) => ff
                | _ => Some (chunk_index, negb (is_full ch))
                end in
      if slots_occupied ch =? 0
      then search_phase n d tx db k klen quarter start (chunk_index + 1) locked_up_to ff else
      let id := slot_id 1 (u8 (chunk_index - start)) quarter in
      let result_mask := hashtable_mcmp_support_hash_search_loop_14 id (half_hashes ch) in
      r ← scan 14 result_mask 0 (create_visit d db k klen chunk_index);
      match r with
      | Some slot =>
          d ← update_overflowed d start chunk_index;
          Some (d, tx, PhaseFound chunk_index slot)
      | None => search_phase n d tx db k klen quarter start (chunk_index + 1) locked_up_to ff
      end
  end.

(** Second phase: take the first empty slot. *)
Fixpoint create_phase (n : nat) (d : hashtable_data) (tx : transaction)
    (quarter start chunk_index locked_up_to : Z)
    : option (hashtable_data * transaction * phase_result) :=
  match n with
  | O => Some (d, tx, PhaseEnd locked_up_to None)
  | S n =>
      '(d, tx, locked_up_to, ok) ← write_lock_if_ahead d tx locked_up_to chunk_index;
      if negb ok then Some (d, tx, PhaseLockFailed) else
      ch ← zget (half_hashes_chunk d) chunk_index;
      let id := slot_id 1 (u8 (chunk_index - start)) quarter in
      let result_mask := hashtable_mcmp_support_hash_search_loop_14 0 (half_hashes ch) in
      r ← scan 14 result_mask 0 (fun slot =>
            _ ← zget (keys_values d) (chunk_index * CHUNK_SLOTS + slot); Some VFound);
      match r with
      | Some slot =>
          let occupied := (slots_occupied ch + 1) `mod` 2 ^ 7 in
          _ ← guard_assert (occupied <=? CHUNK_SLOTS);
          let d := set_chunk d chunk_index
            (Chunk (overflowed_chunks_counter ch) occupied (is_full ch) (zset (half_hashes ch) slot id)) in
          d ← update_overflowed d start chunk_index;
          Some (d, tx, PhaseFound chunk_index slot)
      | None =>
          let d := set_chunk d chunk_index
            (Chunk (overflowed_chunks_counter ch) (slots_occupied ch) true (half_hashes ch)) in
          create_phase n d tx quarter start (chunk_index + 1) locked_up_to
      end
  end.

Definition hashtable_mcmp_support_op_search_key_or_create_new (d : hashtable_data)
    (tx : transaction) (db : Z) (k : list Z) (klen hash : Z) (create_new_if_missing : bool)
    : option (hashtable_data * transaction * option search_or_create_result) :=
  if tx_id tx =? TRANSACTION_ID_NOT_ACQUIRED then None else
  let bucket_index := hashtable_mcmp_support_index_from_hash (buckets_count d) hash in
  let start := bucket_index / CHUNK_SLOTS in
  let quarter := hashtable_mcmp_support_hash_quarter (hashtable_mcmp_support_hash_half hash) in
  '(d, tx, ok) ← write_lock_unless_owned d tx start;
  if negb ok then Some (d, tx, None) else
  ch ← zget (half_hashes_chunk d) start;
  _ ← guard_assert (start + overflowed_chunks_counter ch + 1 <=? chunks_count d);
  '(d, tx, r) ← search_phase (Z.to_nat (overflowed_chunks_counter ch + 1)) d tx db k klen
                   quarter start start start None;
  match r with
  | PhaseLockFailed => Some (d, tx, None)
  | PhaseFound c s => Some (d, tx, Some (Found false c s))
  | PhaseEnd locked_up_to ff =>
      if negb create_new_if_missing then Some (d, tx, None) else
      '(first, _) ← ff;
      _ ← guard_assert ((first <=? chunks_count d) && (start + SEARCH_MAX <=? chunks_count d));
      '(d, tx, r) ← create_phase (Z.to_nat (start + SEARCH_MAX - first)) d tx quarter start
                       first locked_up_to;
      match r with
      | PhaseFound c s => Some (d, tx, Some (Found true c s))
      | _ => Some (d, tx, None)
      end
  end.

(** ** Operations *)

(** [*key] of the asserts on the key: keys are not empty and do not start with
    a NUL byte. *)
Definition assert_key (k : list Z) : option unit :=
  match k with
  | [] => None
  | c :: _ => if c =? 0 then None else Some tt
  end.

Record op_set_result := SetResult {
  out_bucket_index : Z;
  previous_value : option Z;
  out_should_free_key : bool
}.

(** Writes the value and, for a new bucket, the key and the FILLED flag. *)
Definition store_value (kv : hashtable_key_value) (new : bool) (db : Z) (k : list Z) (klen v : Z)
    : hashtable_key_value :=
  if new then KeyValue FLAG_FILLED db klen (Some k) v
  else KeyValue (flags kv) (database_number kv) (key_length kv) (key kv) v.

Definition hashtable_mcmp_op_set (d : hashtable_data) (tx : transaction) (db : Z) (k : list Z)
    (klen new_value : Z) : option (hashtable_data * transaction * option op_set_result) :=
  let hash := hashtable_mcmp_support_hash_calculate db k in
  _ ← assert_key k;
  '(d, tx, r) ← hashtable_mcmp_support_op_search_key_or_create_new d tx db k klen hash true;
  match r with
  | None => Some (d, tx, None)
  | Some r =>
      let bucket_index := u64 (found_chunk_index r * CHUNK_SLOTS + found_chunk_slot_index r) in
      kv ← zget (keys_values d) (found_chunk_index r * CHUNK_SLOTS + found_chunk_slot_index r);
      let previous := if created_new r then None else Some (data kv) in
      let d := set_kv d (found_chunk_index r * CHUNK_SLOTS + found_chunk_slot_index r)
                 (store_value kv (created_new r) db k klen new_value) in
      Some (d, tx, Some (SetResult bucket_index previous (negb (created_new r))))
  end.

Definition hashtable_mcmp_op_get (d : hashtable_data) (tx : transaction) (db : Z) (k : list Z)
    (klen : Z) : option (hashtable_data * transaction * option Z) :=
  let hash := hashtable_mcmp_support_hash_calculate db k in
  '(d, tx, r) ← hashtable_mcmp_support_op_search_key d tx db k klen hash;
  match r with
  | None => Some (d, tx, None)
  | Some (c, s) =>
      kv ← zget (keys_values d) (c * CHUNK_SLOTS + s);
      Some (d, tx, Some (data kv))
  end.

(** The writes that empty slot [s] of chunk [c] and mark its bucket deleted,
    common to the delete operations. *)
Definition clear_slot (d : hashtable_data) (c s : Z) : option hashtable_data :=
  ch ← zget (half_hashes_chunk d) c;
  let occupied := (slots_occupied ch - 1) `mod` 2 ^ 7 in
  _ ← guard_assert (occupied <=? CHUNK_SLOTS);
  Some (set_chunk d c (Chunk (overflowed_chunks_counter ch) occupied false (zset (half_hashes ch) s 0))).

Definition clear_bucket (d : hashtable_data) (b : Z) : option hashtable_data :=
  kv ← zget (keys_values d) b;
  Some (set_kv d b (KeyValue FLAG_DELETED 0 0 None (data kv))).

Definition upgrade_lock_unless_owned (d : hashtable_data) (tx : transaction) (c : Z)
    : option (hashtable_data * transaction * bool) :=
  l ← zget (locks d) c;
  if transaction_rwspinlock_is_owned_by_transaction l tx then Some (d, tx, true)
  else transaction_upgrade_lock_for_write d tx c.

(** The result is the deleted value. *)
Definition hashtable_mcmp_op_delete (d : hashtable_data) (tx : transaction) (db : Z) (k : list Z)
    (klen : Z) : option (hashtable_data * transaction * option Z) :=
  let hash := hashtable_mcmp_support_hash_calculate db k in
  '(d, tx, r) ← hashtable_mcmp_support_op_search_key d tx db k klen hash;
  match r with
  | None => Some (d, tx, None)
  | Some (c, s) =>
      ch ← zget (half_hashes_chunk d) c;
      id ← zget (half_hashes ch) s;
      if slot_filled id =? 0 then Some (d, tx, None) else
      '(d, tx, ok) ← upgrade_lock_unless_owned d tx c;
      if negb ok then Some (d, tx, None) else
      let quarter := hashtable_mcmp_support_hash_quarter (hashtable_mcmp_support_hash_half hash) in
      if negb (slot_quarter_hash id =? quarter) then Some (d, tx, None) else
      kv ← zget (keys_values d) (c * CHUNK_SLOTS + s);
      d ← clear_slot d c s;
      d ← clear_bucket d (c * CHUNK_SLOTS + s);
      Some (d, tx, Some (data kv))
  end.

(** ** Access by bucket index *)

Definition hashtable_mcmp_op_get_by_index (d : hashtable_data) (tx : transaction)
    (bucket_index : Z) : option (hashtable_data * transaction * option (Z * Z)) :=
  let c := bucket_index / CHUNK_SLOTS in
  let s := bucket_index `mod` CHUNK_SLOTS in
  ch ← zget (half_hashes_chunk d) c;
  id ← zget (half_hashes ch) s;
  if slot_filled id =? 0 then Some (d, tx, None) else
  '(d, tx, ok) ← read_lock_unless_owned d tx c;
  if negb ok then Some (d, tx, None) else
  kv ← zget (keys_values d) bucket_index;
  Some (d, tx, Some (database_number kv, data kv)).

Definition hashtable_mcmp_op_get_by_index_all_databases (d : hashtable_data) (tx : transaction)
    (bucket_index : Z) : option (hashtable_data * transaction * option Z) :=
  '(d, tx, r) ← hashtable_mcmp_op_get_by_index d tx bucket_index;
  Some (d, tx, match r with Some (_, v) => Some v | None => None end).

Definition hashtable_mcmp_op_delete_by_index (d : hashtable_data) (db : Z) (tx : transaction)
    (already_locked_for_read : bool) (bucket_index : Z)
    : option (hashtable_data * transaction * option Z) :=
  let c := bucket_index / CHUNK_SLOTS in
  let s := bucket_index `mod` CHUNK_SLOTS in
  ch ← zget (half_hashes_chunk d) c;
  id ← zget (half_hashes ch) s;
  if slot_filled id =? 0 then Some (d, tx, None) else
  '(d, tx, ok) ← (if already_locked_for_read then transaction_upgrade_lock_for_write d tx c
                  else write_lock_unless_owned d tx c);
  if negb ok then Some (d, tx, None) else
  kv ← zget (keys_values d) bucket_index;
  if negb (database_number kv =? db) then Some (d, tx, None) else
  d ← clear_slot d c s;
  d ← clear_bucket d bucket_index;
  Some (d, tx, Some (data kv)).

Definition hashtable_mcmp_op_delete_by_index_all_databases (d : hashtable_data)
    (tx : transaction) (already_locked_for_read : bool) (bucket_index : Z)
    : option (hashtable_data * transaction * option Z) :=
  let c := bucket_index / CHUNK_SLOTS in
  let s := bucket_index `mod` CHUNK_SLOTS in
  ch ← zget (half_hashes_chunk d) c;
  id ← zget (half_hashes ch) s;
  if slot_filled id =? 0 then Some (d, tx, None) else
  '(d, tx, ok) ← (if already_locked_for_read then transaction_upgrade_lock_for_write d tx c
                  else transaction_lock_for_write d tx c);
  if negb ok then Some (d, tx, None) else
  kv ← zget (keys_values d) bucket_index;
  d ← clear_slot d c s;
  d ← clear_bucket d bucket_index;
  Some (d, tx, Some (data kv)).

(** The copy of the key of a bucket, followed by the check that the slot id,
    the flags and the length are still the ones read before the copy. *)
Definition copy_key (d : hashtable_data) (bucket_index slot_id_read : Z) : option (option (list Z)) :=
  kv ← zget (keys_values d) bucket_index;
  k ← key kv;
  _ ← guard_assert (0 <? key_length kv);
  let source_key_length := key_length kv in
  let copied := take (Z.to_nat source_key_length) k in
  ch ← zget (half_hashes_chunk d) (bucket_index / CHUNK_SLOTS);
  id ← zget (half_hashes ch) (bucket_index `mod` CHUNK_SLOTS);
  let key_deleted_or_different :=
    negb (slot_id_read =? id)
    || (KEY_VALUE_IS_EMPTY (flags kv) || KEY_VALUE_HAS_FLAG (flags kv) FLAG_DELETED)
    || negb (key_length kv =? source_key_length) in
  Some (if key_deleted_or_different then None else Some copied).

Definition hashtable_mcmp_op_get_key (d : hashtable_data) (db : Z) (tx : transaction)
    (bucket_index : Z) : option (hashtable_data * transaction * option (list Z)) :=
  '(d, tx, ok) ← read_lock_unless_owned d tx (bucket_index / CHUNK_SLOTS);
  if negb ok then Some (d, tx, None) else
  ch ← zget (half_hashes_chunk d) (bucket_index / CHUNK_SLOTS);
  id ← zget (half_hashes ch) (bucket_index `mod` CHUNK_SLOTS);
  kv ← zget (keys_values d) bucket_index;
  if KEY_VALUE_IS_EMPTY (flags kv) || KEY_VALUE_HAS_FLAG (flags kv) FLAG_DELETED
     || negb (database_number kv =? db)
  then Some (d, tx, None) else
  r ← copy_key d bucket_index id;
  Some (d, tx, r).

Definition hashtable_mcmp_op_get_key_all_databases (d : hashtable_data) (tx : transaction)
    (bucket_index : Z) : option (hashtable_data * transaction * option (Z * list Z)) :=
  '(d, tx, ok) ← read_lock_unless_owned d tx (bucket_index / CHUNK_SLOTS);
  if negb ok then Some (d, tx, None) else
  ch ← zget (half_hashes_chunk d) (bucket_index / CHUNK_SLOTS);
  id ← zget (half_hashes ch) (bucket_index `mod` CHUNK_SLOTS);
  kv ← zget (keys_values d) bucket_index;
  if KEY_VALUE_IS_EMPTY (flags kv) || KEY_VALUE_HAS_FLAG (flags kv) FLAG_DELETED
  then Some (d, tx, None) else
  _ ← guard_assert (database_number kv <? 2 ^ 32 - 1);
  r ← copy_key d bucket_index id;
  Some (d, tx, match r with Some k => Some (database_number kv, k) | None => None end).

Definition hashtable_mcmp_op_get_random_key_try (d : hashtable_data) (db : Z) (tx : transaction)
    (random_value : Z) : option (hashtable_data * transaction * option (list Z)) :=
  hashtable_mcmp_op_get_key d db tx (random_value `mod` buckets_count_real d).

(** ** Read-modify-write *)

Record rmw_status := RmwStatus {
  rmw_database_number : Z;
  rmw_key : list Z;
  rmw_key_length : Z;
  rmw_chunk_index : Z;
  rmw_chunk_slot_index : Z;
  rmw_created_new : bool;
  rmw_current_value : Z
}.

(** The result is the status and the current value, when there is one. *)
Definition hashtable_mcmp_op_rmw_begin (d : hashtable_data) (tx : transaction) (db : Z)
    (k : list Z) (klen : Z)
    : option (hashtable_data * transaction * option (rmw_status * option Z)) :=
  if tx_id tx =? TRANSACTION_ID_NOT_ACQUIRED then None else
  let hash := hashtable_mcmp_support_hash_calculate db k in
  _ ← assert_key k;
  '(d, tx, r) ← hashtable_mcmp_support_op_search_key_or_create_new d tx db k klen hash true;
  match r with
  | None => Some (d, tx, None)
  | Some r =>
      kv ← zget (keys_values d) (found_chunk_index r * CHUNK_SLOTS + found_chunk_slot_index r);
      let current := if created_new r then None else Some (data kv) in
      let st := RmwStatus db k klen (found_chunk_index r) (found_chunk_slot_index r)
                  (created_new r) (if created_new r then 0 else data kv) in
      Some (d, tx, Some (st, current))
  end.

Definition rmw_bucket (st : rmw_status) : Z :=
  rmw_chunk_index st * CHUNK_SLOTS + rmw_chunk_slot_index st.

Definition hashtable_mcmp_op_rmw_commit_update (d : hashtable_data) (st : rmw_status)
    (new_value : Z) : option hashtable_data :=
  kv ← zget (keys_values d) (rmw_bucket st);
  Some (set_kv d (rmw_bucket st)
    (store_value kv (rmw_created_new st) (rmw_database_number st) (rmw_key st)
       (rmw_key_length st) new_value)).

Definition hashtable_mcmp_op_rmw_commit_delete (d : hashtable_data) (st : rmw_status)
    : option hashtable_data :=
  d ← clear_slot d (rmw_chunk_index st) (rmw_chunk_slot_index st);
  if rmw_created_new st then Some d else clear_bucket d (rmw_bucket st).

Definition hashtable_mcmp_op_rmw_abort (d : hashtable_data) (st : rmw_status)
    : option hashtable_data :=
  if rmw_created_new st then clear_slot d (rmw_chunk_index st) (rmw_chunk_slot_index st)
  else Some d.

(** ** Iteration *)

(** The slots of one chunk from [slot] on. *)
Fixpoint iter_slots (n : nat) (d : hashtable_data) (ch : hashtable_half_hashes_chunk)
    (all_databases : bool) (db c slot : Z) : option (option Z) :=
  match n with
  | O => Some None
  | S n =>
      _ ← guard_assert (c * CHUNK_SLOTS + slot <? buckets_count_real d);
      id ← zget (half_hashes ch) slot;
      if id =? 0 then iter_slots n d ch all_databases db c (slot + 1) else
      kv ← zget (keys_values d) (c * CHUNK_SLOTS + slot);
      if KEY_VALUE_IS_EMPTY (flags kv) || KEY_VALUE_HAS_FLAG (flags kv) FLAG_DELETED
      then iter_slots n d ch all_databases db c (slot + 1) else
      if negb all_databases && negb (database_number kv =? db)
      then iter_slots n d ch all_databases db c (slot + 1) else
      Some (Some (c * CHUNK_SLOTS + slot))
  end.

Fixpoint iter_chunks (n : nat) (d : hashtable_data) (all_databases : bool)
    (db c slot distance max_distance : Z) : option Z :=
  match n with
  | O => Some OP_ITER_END
  | S n =>
      ch ← zget (half_hashes_chunk d) c;
      if max_distance <=? distance then Some OP_ITER_END else
      if slots_occupied ch =? 0
      then iter_chunks n d all_databases db (c + 1) 0
             (u64 (distance + (CHUNK_SLOTS - slot))) max_distance else
      r ← iter_slots (Z.to_nat (CHUNK_SLOTS - slot)) d ch all_databases db c slot;
      match r with
      | Some b => Some b
      | None =>
          (* the slot index has reached CHUNK_SLOTS here *)
          iter_chunks n d all_databases db (c + 1) 0
            (u64 (distance + (CHUNK_SLOTS - CHUNK_SLOTS))) max_distance
      end
  end.

Definition hashtable_mcmp_op_iter_internal (d : hashtable_data) (all_databases : bool) (db : Z)
    (bucket_index max_distance : Z) : option Z :=
  let c := bucket_index / CHUNK_SLOTS in
  iter_chunks (Z.to_nat (chunks_count d - c)) d all_databases db c (bucket_index `mod` CHUNK_SLOTS)
    0 max_distance.

End table.
End HashtableMcmp.
