(* ===== verification/HashtableMcmpLemmas.v ===== *)
(** * HashtableMcmpLemmas: what the searches of the hashtable are built on

    The mask of matching slots and the loop over it (hash_search_testbit,
    scan_ids_spec), and the locks of a table while one transaction uses it
    (solo, read_lock_spec, write_lock_spec, upgrade_lock_spec, release_solo). *)

From stdpp Require Import gmap.
From S2P Require Import Prelude Pow2 Transaction HashtableMcmp.

Module HashtableMcmpLemmas.
Import Transaction HashtableMcmp.

(** ** Masks of matching slots *)

Lemma hash_search_loop_n_testbit h l : forall i acc s,
  0 <= i -> 0 <= s ->
  Z.testbit (hash_search_loop_n h l i acc) s =
  Z.testbit acc s || ((i <=? s) && bool_decide (zget l (s - i) = Some h)).
Proof.
  induction l as [|x l IH]; intros i acc s Hi Hs; cbn [hash_search_loop_n].
  - rewrite bool_decide_eq_false_2; [by rewrite andb_false_r, orb_false_r|].
    unfold zget. by destruct (_ <? 0).
  - rewrite IH by lia.
    assert (Z.testbit (if x =? h then Z.lor acc (Z.shiftl 1 i) else acc) s =
            Z.testbit acc s || ((i =? s) && (x =? h))) as ->.
    { destruct (Z.eqb_spec x h); [|by rewrite andb_false_r, orb_false_r].
      rewrite andb_true_r, Z.lor_spec, Z.shiftl_1_l, Z.pow2_bits_eqb by lia. done. }
    rewrite <- orb_assoc. f_equal.
    destruct (Z.eqb_spec i s) as [->|Hne].
    + rewrite (proj2 (Z.leb_gt (s + 1) s)), (proj2 (Z.leb_le s s)) by lia.
      cbn. rewrite orb_false_r, Z.sub_diag. unfold zget. cbn.
      destruct (Z.eqb_spec x h) as [->|]; [by rewrite bool_decide_eq_true_2|].
      rewrite bool_decide_eq_false_2; [done|by intros [=]].
    + cbn. destruct (Z.leb_spec (i + 1) s), (Z.leb_spec i s); try lia.
      cbn. apply bool_decide_ext. unfold zget.
      destruct (Z.ltb_spec (s - (i + 1)) 0), (Z.ltb_spec (s - i) 0); try lia.
      replace (Z.to_nat (s - i)) with (S (Z.to_nat (s - (i + 1)))) by lia. done.
Qed.

(** Bit [s] of the mask is set exactly when slot [s] holds the searched id. *)
Lemma hash_search_testbit h l s :
  zlen l = CHUNK_SLOTS -> 0 <= s ->
  Z.testbit (hashtable_mcmp_support_hash_search_loop_14 h l) s = bool_decide (zget l s = Some h).
Proof.
  intros Hl Hs. unfold hashtable_mcmp_support_hash_search_loop_14.
  rewrite take_ge by (unfold zlen, CHUNK_SLOTS in Hl; lia).
  rewrite hash_search_loop_n_testbit by lia.
  rewrite Z.bits_0, Z.sub_0_r, (proj2 (Z.leb_le 0 s)) by lia. done.
Qed.

Lemma hash_search_nonneg_n h l : forall i acc,
  0 <= i -> 0 <= acc -> 0 <= hash_search_loop_n h l i acc.
Proof.
  induction l as [|x l IH]; intros i acc Hi Ha; cbn; [done|]. apply IH; [lia|].
  destruct (x =? h); [|done]. apply Z.lor_nonneg. split; [done|]. apply Z.shiftl_nonneg. lia.
Qed.

Lemma hash_search_nonneg h l : 0 <= hashtable_mcmp_support_hash_search_loop_14 h l.
Proof. apply hash_search_nonneg_n; lia. Qed.

(** ** The slot loop *)

Lemma lowest_one_spec n : forall i x,
  (exists j, i <= j < i + Z.of_nat n /\ Z.testbit x j = true) ->
  let j := lowest_one n i x in
  i <= j < i + Z.of_nat n /\ Z.testbit x j = true /\ forall q, i <= q < j -> Z.testbit x q = false.
Proof.
  induction n as [|n IH]; intros i x (j & Hj & Hb); [lia|]. cbn [lowest_one].
  destruct (Z.testbit x i) eqn:Hi.
  - split_and!; [lia|lia|done|]. intros; lia.
  - assert (j <> i) by congruence.
    destruct (IH (i + 1) x) as (H1 & H2 & H3); [exists j; split; [lia|done]|].
    split_and!; [lia|lia|done|]. intros q Hq. destruct (decide (q = i)) as [->|]; [done|].
    apply H3. lia.
Qed.

Lemma unskipped_testbit mask skip s :
  0 <= s < 14 ->
  Z.testbit (Z.land mask (u32 (Z.lnot (Z.lor skip 0xC000)))) s =
  Z.testbit mask s && negb (Z.testbit skip s).
Proof.
  intros Hs. rewrite Z.land_spec. f_equal. unfold wrap. rewrite Z.mod_pow2_bits_low by lia.
  rewrite Z.lnot_spec, Z.lor_spec by lia.
  assert (Z.testbit 0xC000 s = false) as ->; [|by rewrite orb_false_r].
  assert (s = 0 \/ s = 1 \/ s = 2 \/ s = 3 \/ s = 4 \/ s = 5 \/ s = 6 \/ s = 7 \/ s = 8 \/ s = 9 \/
          s = 10 \/ s = 11 \/ s = 12 \/ s = 13) as Hc by lia.
  by repeat (destruct Hc as [->|Hc]; [done|]); subst.
Qed.

Section scan.
Context (mask : Z) (Hnn : 0 <= mask) (Hmask : forall s, Z.testbit mask s = true -> 0 <= s < 14).
Context (f : Z -> option visit).
Context (Hf : forall s, Z.testbit mask s = true -> f s = Some VContinue \/ f s = Some VFound).

(** All the matching slots below [i] have been skipped: the loop finds the
    lowest of the others that the body accepts, if there is one. *)
(** The slots still to visit, once the matching slots before [i] are skipped. *)
Definition skipped (skip i : Z) : Prop :=
  forall s, 0 <= s -> Z.testbit mask s = true -> Z.testbit skip s = (s <? i).

Lemma unskipped skip i s :
  skipped skip i ->
  Z.testbit (Z.land mask (u32 (Z.lnot (Z.lor skip 0xC000)))) s = Z.testbit mask s && (i <=? s).
Proof using Hmask.
  intros Hskip. destruct (Z.testbit mask s) eqn:Hb; [|by rewrite Z.land_spec, Hb].
  pose proof (Hmask s Hb) as Hr. rewrite unskipped_testbit, Hb, Hskip by (done || lia).
  destruct (Z.ltb_spec s i), (Z.leb_spec i s); (done || lia).
Qed.

(** The lowest bit of what is left is the next matching slot. *)
Lemma next_slot m i :
  0 < m -> (forall s, Z.testbit m s = Z.testbit mask s && (i <=? s)) ->
  let j := builtin_ctz m in
  Z.testbit mask j = true /\ i <= j /\ forall s, Z.testbit mask s = true -> i <= s -> j <= s.
Proof using Hmask.
  intros Hm Hbits j.
  assert (forall s, Z.testbit m s = true <-> Z.testbit mask s = true /\ i <= s) as Hb.
  { intros s. rewrite Hbits, andb_true_iff, Z.leb_le. done. }
  assert (exists q, 0 <= q < 0 + Z.of_nat 32 /\ Z.testbit m q = true) as Hex.
  { exists (Z.log2 m). pose proof (Z.bit_log2 m Hm) as Hl. split; [|done].
    apply Hb in Hl as [Hl _]. pose proof (Hmask _ Hl). lia. }
  destruct (lowest_one_spec 32 0 m Hex) as (Hjr & Hjb & Hjl). fold (builtin_ctz m) in Hjr, Hjb, Hjl. fold j in Hjr, Hjb, Hjl.
  apply Hb in Hjb as [Hj Hij]. split_and!; [done..|]. intros s Hs Hi.
  destruct (Z.le_gt_cases j s) as [|Hlt]; [done|]. pose proof (Hmask s Hs).
  specialize (Hjl s ltac:(lia)). by rewrite (proj2 (Hb s)) in Hjl.
Qed.

Lemma skipped_next skip i j :
  skipped skip i -> 0 <= i <= j -> (forall s, Z.testbit mask s = true -> i <= s -> j <= s) ->
  skipped (Z.lor skip (Z.shiftl 1 j)) (j + 1).
Proof.
  intros Hskip Hij Hl s Hs Hb. rewrite Z.lor_spec, Hskip, Z.shiftl_1_l, Z.pow2_bits_eqb by (done || lia).
  specialize (Hl s Hb).
  destruct (Z.ltb_spec s i), (Z.eqb_spec j s), (Z.ltb_spec s (j + 1)); (done || lia).
Qed.

Lemma scan_from fuel : forall skip i,
  0 <= i -> skipped skip i -> 14 <= i + Z.of_nat fuel ->
  match scan fuel mask skip f with
  | Some (Some s) => Z.testbit mask s = true /\ f s = Some VFound
  | Some None => forall s, i <= s -> Z.testbit mask s = true -> f s = Some VContinue
  | None => False
  end.
Proof using Hnn Hmask Hf.
  induction fuel as [|fuel IH]; intros skip i Hi Hskip Hfuel; cbn [scan];
    pose proof (fun s => unskipped skip i s Hskip) as Hbits; set (m := Z.land mask _) in *;
    assert (0 <= m) as Hm0 by (apply Z.land_nonneg; by left);
    destruct (Z.eqb_spec m 0) as [Hm|Hm].
  1, 3: intros s Hs Hb; specialize (Hbits s); rewrite Hm, Z.bits_0, Hb in Hbits;
    destruct (Z.leb_spec i s); (done || lia).
  all: destruct (next_slot m i ltac:(lia) Hbits) as (Hj & Hij & Hl); set (j := builtin_ctz m) in *;
    pose proof (Hmask j Hj) as Hr.
  - lia.
  - destruct (Hf j Hj) as [Hc|Hc]; rewrite Hc; cbn [mbind option_bind]; [|done].
    specialize (IH (Z.lor skip (Z.shiftl 1 j)) (j + 1) ltac:(lia) (skipped_next skip i j Hskip ltac:(lia) Hl) ltac:(lia)).
    destruct (scan _ _ _ _) as [[s|]|]; [done| |done].
    intros s Hs Hb. specialize (Hl s Hb Hs). destruct (decide (s = j)) as [->|]; [done|]. apply IH; [lia|done].
Qed.

Lemma scan_spec :
  match scan 14 mask 0 f with
  | Some (Some s) => Z.testbit mask s = true /\ f s = Some VFound
  | Some None => forall s, Z.testbit mask s = true -> f s = Some VContinue
  | None => False
  end.
Proof using Hnn Hmask Hf.
  pose proof (scan_from 14 0 0) as H.
  assert (forall s, 0 <= s -> Z.testbit mask s = true -> Z.testbit 0 s = (s <? 0)) as H0.
  { intros s Hs _. rewrite Z.bits_0. by destruct (Z.ltb_spec s 0); [lia|]. }
  specialize (H ltac:(lia) H0 ltac:(lia)).
  destruct (scan 14 mask 0 f) as [[s|]|]; [done| |done].
  intros s Hs. apply H; [|done]. by apply Hmask in Hs as [? _].
Qed.
End scan.

(** The slot loop over the slots that hold a given id. *)
Lemma scan_ids_spec h l f :
  zlen l = CHUNK_SLOTS ->
  (forall s, zget l s = Some h -> f s = Some VContinue \/ f s = Some VFound) ->
  match scan 14 (hashtable_mcmp_support_hash_search_loop_14 h l) 0 f with
  | Some (Some s) => zget l s = Some h /\ f s = Some VFound
  | Some None => forall s, zget l s = Some h -> f s = Some VContinue
  | None => False
  end.
Proof.
  intros Hl Hf. set (mask := hashtable_mcmp_support_hash_search_loop_14 h l).
  assert (forall s, Z.testbit mask s = true <-> zget l s = Some h) as Hb.
  { intros s. destruct (Z.ltb_spec s 0) as [Hs|Hs].
    - rewrite Z.testbit_neg_r by done. unfold zget. by destruct (Z.ltb_spec s 0); [|lia].
    - unfold mask. rewrite hash_search_testbit by done. apply bool_decide_eq_true. }
  pose proof (scan_spec mask (hash_search_nonneg h l)) as H.
  specialize (H ltac:(intros s Hs%Hb%zget_Some_range; rewrite Hl in Hs; done) f).
  specialize (H ltac:(intros s Hs%Hb; by apply Hf)).
  destruct (scan 14 mask 0 f) as [[s|]|]; [| |done].
  - destruct H as [H ?]. by apply Hb in H.
  - intros s Hs%Hb. by apply H.
Qed.

(** ** Locks of a table used by one transaction *)

Lemma with_locks_same d : with_locks d (locks d) = d.
Proof. by destruct d. Qed.

Lemma lock_step_table d tx o :
  lock_step d tx o =
  match lock_step (locks d) tx o with
  | Some (ls, tx', ok) => Some (with_locks d ls, tx', ok)
  | None => None
  end.
Proof.
  destruct o as [r|r|r]; cbn [lock_step];
    unfold transaction_lock_for_read, transaction_lock_for_write, transaction_upgrade_lock_for_write;
    cbn [get_lock set_lock table_lock_store list_lock_store];
    destruct (zget (locks d) r) as [l|]; cbn [mbind option_bind]; try done;
    repeat case_match; simplify_eq; rewrite ?with_locks_same; done.
Qed.

(** Nobody but [tx] holds a lock of [ls]. *)
Record solo (ls : list transaction_rwspinlock) (tx : transaction) : Prop := {
  solo_held : held (replicate (length ls) transaction_rwspinlock_init) ls tx;
  solo_entries : forall e, e ∈ locks_list tx -> 0 <= spinlock e < zlen ls
}.

Lemma solo_lock ls tx r :
  solo ls tx -> 0 <= r < zlen ls ->
  exists l, zget ls r = Some l /\ readers_count l = reads (locks_list tx) r /\
    transaction_id l = (if has_write (locks_list tx) r then tx_id tx else 0).
Proof.
  intros [[_ Hh] _] Hr. specialize (Hh r). cbn [get_lock list_lock_store] in Hh.
  rewrite zget_replicate in Hh by (unfold zlen in Hr; lia).
  destruct Hh as (l & Hl & [H1 _ _ H2 _]). cbn in H1. exists l. split; [done|]. split; [lia|done].
Qed.

Lemma lock_step_length (ls : list transaction_rwspinlock) tx o ls' tx' ok :
  lock_step ls tx o = Some (ls', tx', ok) -> length ls' = length ls.
Proof.
  assert (forall r l, length (zset ls r l) = length ls) as Hz.
  { intros r l. pose proof (zlen_zset ls r l) as H. unfold zlen in H. lia. }
  destruct o as [r|r|r]; cbn [lock_step];
    unfold transaction_lock_for_read, transaction_lock_for_write, transaction_upgrade_lock_for_write;
    cbn [get_lock set_lock list_lock_store];
    destruct (zget ls r) as [l|]; cbn [mbind option_bind]; try done;
    repeat case_match; intros; simplify_eq; auto.
Qed.

Lemma solo_step ls tx o ls' tx' ok :
  solo ls tx -> lock_step ls tx o = Some (ls', tx', ok) -> solo ls' tx'.
Proof.
  intros [Hh He] Ho. pose proof (lock_step_length _ _ _ _ _ _ Ho) as Hlen.
  split; [rewrite Hlen; by eapply lock_step_held|].
  assert (zlen ls' = zlen ls) as -> by (unfold zlen; lia).
  intros e Hin.
  assert (is_Some (get_lock (replicate (length ls) transaction_rwspinlock_init) (spinlock e))) as [l Hl].
  { eapply lock_step_entries; [exact Hh|exact Ho| |exact Hin]. intros e' He'. cbn.
    rewrite zget_replicate; [by eexists|]. specialize (He e' He'). unfold zlen in He. lia. }
  cbn in Hl. apply zget_Some_range in Hl. by rewrite zlen_replicate in Hl.
Qed.

Lemma reads_le_length es r : reads es r <= zlen es.
Proof.
  unfold reads, zlen. pose proof (length_filter (fun e => is_read_of r e = true) es). lia.
Qed.

(** What taking one lock does to the transaction. *)
Record step_of (tx tx' : transaction) (c : Z) (d_reads : Z) : Prop := {
  step_id : tx_id tx' = tx_id tx;
  step_len : zlen (locks_list tx) <= zlen (locks_list tx') <= zlen (locks_list tx) + 1;
  step_reads_ne : forall q, q <> c -> reads (locks_list tx') q = reads (locks_list tx) q;
  step_reads_eq : reads (locks_list tx') c = reads (locks_list tx) c + d_reads;
  step_write : forall q, has_write (locks_list tx) q = true -> has_write (locks_list tx') q = true
}.

Lemma step_of_refl tx c : step_of tx tx c 0.
Proof. split; intros; (done || lia). Qed.

Lemma step_of_add tx c t :
  step_of tx (transaction_locks_list_add tx c t) c (if decide (t = LOCK_TYPE_READ) then 1 else 0).
Proof.
  split; rewrite ?locks_list_add_id, ?locks_list_add_list; [done| | | |].
  - rewrite zlen_app. unfold zlen at 3 5. cbn. lia.
  - intros q Hq. rewrite reads_snoc. unfold is_read_of. cbn.
    rewrite bool_decide_eq_false_2 by naive_solver. lia.
  - rewrite reads_snoc. unfold is_read_of. cbn. f_equal.
    case_decide; [rewrite bool_decide_eq_true_2 by done|rewrite bool_decide_eq_false_2 by naive_solver]; done.
  - intros q Hq. by rewrite has_write_snoc, Hq.
Qed.

Lemma has_write_owned ls tx r l :
  solo ls tx -> zget ls r = Some l ->
  transaction_rwspinlock_is_owned_by_transaction l tx = has_write (locks_list tx) r.
Proof.
  intros Hs Hl. pose proof (zget_Some_range _ _ _ Hl) as Hr.
  destruct (solo_lock ls tx r Hs Hr) as (l' & Hl' & _ & Hid). rewrite Hl in Hl'. injection Hl' as <-.
  unfold transaction_rwspinlock_is_owned_by_transaction. rewrite Hid.
  destruct (has_write (locks_list tx) r); [apply Z.eqb_refl|].
  apply Z.eqb_neq. destruct Hs as [[Hn _] _]. unfold TRANSACTION_ID_NOT_ACQUIRED in Hn. congruence.
Qed.

(** A read lock can always be taken, unless the 16-bit readers counter is
    exhausted by the transaction itself. *)
Lemma read_lock_spec d tx c :
  solo (locks d) tx -> 0 <= c < zlen (locks d) -> zlen (locks_list tx) < UINT16_MAX ->
  exists ls' tx', read_lock_unless_owned d tx c = Some (with_locks d ls', tx', true) /\
    zlen ls' = zlen (locks d) /\ solo ls' tx' /\
    step_of tx tx' c (if has_write (locks_list tx) c then 0 else 1) /\
    (forall q, has_write (locks_list tx') q = has_write (locks_list tx) q).
Proof.
  intros Hs Hc Hlen. destruct (solo_lock _ _ _ Hs Hc) as (l & Hl & Hrd & Hid).
  unfold read_lock_unless_owned. rewrite Hl. cbn [mbind option_bind].
  rewrite (has_write_owned _ _ _ _ Hs Hl). destruct (has_write (locks_list tx) c) eqn:Hw.
  - exists (locks d), tx. rewrite with_locks_same. split_and!; try done. apply step_of_refl.
  - change (transaction_lock_for_read d tx c) with (lock_step d tx (OpLockRead c)).
    rewrite lock_step_table.
    assert (lock_step (locks d) tx (OpLockRead c) =
      Some (zset (locks d) c (transaction_rwspinlock_readers_increment l),
            transaction_locks_list_add tx c LOCK_TYPE_READ, true)) as Ho.
    { cbn [lock_step]. unfold transaction_lock_for_read. cbn [get_lock set_lock list_lock_store].
      rewrite Hl. cbn [mbind option_bind]. rewrite Hid, Hrd.
      destruct Hs as [[Hn _] _]. unfold TRANSACTION_ID_NOT_ACQUIRED in Hn.
      rewrite (proj2 (Z.eqb_neq (tx_id tx) 0) Hn).
      pose proof (reads_le_length (locks_list tx) c).
      destruct (Z.ltb_spec (reads (locks_list tx) c) UINT16_MAX); [|lia]. cbn [orb negb].
      unfold transaction_rwspinlock_wait_write_lock_internal, wait_spins,
        transaction_rwspinlock_is_write_locked, transaction_rwspinlock_readers_increment.
      cbn [transaction_id]. by rewrite Hid. }
    rewrite Ho. eexists _, _. split; [done|]. split; [apply zlen_zset|].
    split; [by eapply solo_step|]. split; [apply step_of_add|].
    intros q. rewrite locks_list_add_list, has_write_snoc. unfold is_write_of. cbn [spinlock lock_type].
    rewrite bool_decide_eq_false_2 by naive_solver. by rewrite orb_false_r.
Qed.

(** A write lock is taken when the transaction is not reading the chunk, also
    as the upgrade of its only read. *)
Lemma write_step_spec (ls : list transaction_rwspinlock) tx c (up : bool) :
  solo ls tx -> 0 <= c < zlen ls ->
  has_write (locks_list tx) c = false ->
  reads (locks_list tx) c = (if up then 1 else 0) ->
  exists ls' tx', lock_step ls tx (if up then OpUpgrade c else OpLockWrite c) = Some (ls', tx', true) /\
    zlen ls' = zlen ls /\ solo ls' tx' /\ step_of tx tx' c 0 /\ has_write (locks_list tx') c = true.
Proof.
  intros Hs Hc Hw Hr. destruct (solo_lock _ _ _ Hs Hc) as (l & Hl & Hrd & Hid).
  pose proof (has_write_owned _ _ _ _ Hs Hl) as Hown. rewrite Hw in Hid, Hown.
  assert (lock_step ls tx (if up then OpUpgrade c else OpLockWrite c) =
    Some (zset ls c (RwSpinlock (tx_id tx) (if up then 1 else 0)),
          transaction_locks_list_add tx c LOCK_TYPE_WRITE, true)) as Ho.
  { destruct up; cbn [lock_step];
      unfold transaction_lock_for_write, transaction_upgrade_lock_for_write;
      cbn [get_lock set_lock list_lock_store]; rewrite Hl; cbn [mbind option_bind]; rewrite Hown;
      unfold transaction_rwspinlock_write_lock_internal, write_lock_spins,
        transaction_rwspinlock_try_write_lock_internal; rewrite Hid, Hrd, Hr; done. }
  rewrite Ho. eexists _, _. split; [done|]. split; [apply zlen_zset|].
  split; [by eapply solo_step|]. split; [apply (step_of_add tx c LOCK_TYPE_WRITE)|].
  rewrite locks_list_add_list, has_write_snoc. unfold is_write_of. cbn [spinlock lock_type].
  rewrite bool_decide_eq_true_2 by naive_solver. by rewrite orb_true_r.
Qed.

Definition no_reads (tx : transaction) : Prop := forall r, reads (locks_list tx) r = 0.

Lemma write_lock_spec d tx c :
  solo (locks d) tx -> 0 <= c < zlen (locks d) -> no_reads tx ->
  exists ls' tx', write_lock_unless_owned d tx c = Some (with_locks d ls', tx', true) /\
    zlen ls' = zlen (locks d) /\ solo ls' tx' /\ no_reads tx' /\ tx_id tx' = tx_id tx /\
    has_write (locks_list tx') c = true.
Proof.
  intros Hs Hc Hno. destruct (solo_lock _ _ _ Hs Hc) as (l & Hl & Hrd & Hid).
  unfold write_lock_unless_owned. rewrite Hl. cbn [mbind option_bind].
  rewrite (has_write_owned _ _ _ _ Hs Hl). destruct (has_write (locks_list tx) c) eqn:Hw.
  - exists (locks d), tx. by rewrite with_locks_same.
  - destruct (write_step_spec (locks d) tx c false Hs Hc Hw (Hno c))
      as (ls' & tx' & Ho & Hlen & Hs' & [H1 _ H2 H3 _] & Hw').
    change (transaction_lock_for_write d tx c) with (lock_step d tx (OpLockWrite c)).
    rewrite lock_step_table, Ho. exists ls', tx'. split_and!; try done.
    intros r. destruct (decide (r = c)) as [->|Hne]; [rewrite H3, Hno; done|by rewrite H2].
Qed.

Lemma upgrade_lock_spec d tx c :
  solo (locks d) tx -> 0 <= c < zlen (locks d) ->
  has_write (locks_list tx) c = true \/ reads (locks_list tx) c = 1 ->
  exists ls' tx', upgrade_lock_unless_owned d tx c = Some (with_locks d ls', tx', true) /\
    zlen ls' = zlen (locks d) /\ solo ls' tx' /\ tx_id tx' = tx_id tx.
Proof.
  intros Hs Hc Hor. destruct (solo_lock _ _ _ Hs Hc) as (l & Hl & Hrd & Hid).
  unfold upgrade_lock_unless_owned. rewrite Hl. cbn [mbind option_bind].
  rewrite (has_write_owned _ _ _ _ Hs Hl). destruct (has_write (locks_list tx) c) eqn:Hw.
  - exists (locks d), tx. by rewrite with_locks_same.
  - destruct Hor as [|Hr]; [done|].
    destruct (write_step_spec (locks d) tx c true Hs Hc Hw Hr)
      as (ls' & tx' & Ho & Hlen & Hs' & [H1 _ _ _ _] & _).
    change (transaction_upgrade_lock_for_write d tx c) with (lock_step d tx (OpUpgrade c)).
    rewrite lock_step_table, Ho. by exists ls', tx'.
Qed.

(** Releasing gives the table back with every lock free. *)
Definition unlocked (d : hashtable_data) : Prop :=
  locks d = replicate (length (locks d)) transaction_rwspinlock_init.

Lemma release_entries_table es : forall d,
  release_entries d es =
  match release_entries (locks d) es with Some ls => Some (with_locks d ls) | None => None end.
Proof.
  induction es as [|e es IH]; intros d; cbn [release_entries].
  - by rewrite with_locks_same.
  - unfold release_entry. cbn [get_lock set_lock table_lock_store list_lock_store].
    destruct (zget (locks d) (spinlock e)) as [l|]; cbn [mbind option_bind]; [|done].
    destruct (lock_type e); [destruct (0 <? readers_count l)|]; cbn [mbind option_bind]; try done;
      rewrite IH; done.
Qed.

Lemma release_solo d tx :
  solo (locks d) tx ->
  exists tx', transaction_release d tx =
    Some (with_locks d (replicate (length (locks d)) transaction_rwspinlock_init), tx').
Proof.
  intros [Hh He]. pose proof (held_releasable _ _ _ Hh) as Hr.
  specialize (Hr ltac:(intros e Hin; cbn; rewrite zget_replicate;
    [by eexists|specialize (He e Hin); unfold zlen in He; lia])).
  destruct (release_entries_spec _ _ _ Hr) as (ls & Hls & Hget).
  assert (ls = replicate (length (locks d)) transaction_rwspinlock_init) as ->.
  { apply list_eq. intros i. specialize (Hget (Z.of_nat i)). cbn in Hget. unfold zget in Hget.
    destruct (Z.ltb_spec (Z.of_nat i) 0); [lia|]. by rewrite Nat2Z.id in Hget. }
  destruct Hh as [Hn _]. unfold transaction_release. unfold TRANSACTION_ID_NOT_ACQUIRED in *.
  rewrite (proj2 (Z.eqb_neq (tx_id tx) 0) Hn), release_entries_table, Hls. cbn. by eexists.
Qed.

Lemma solo_start d tx :
  unlocked d -> tx_id tx <> TRANSACTION_ID_NOT_ACQUIRED -> locks_list tx = [] -> solo (locks d) tx.
Proof.
  intros Hu Hid He. split; [|rewrite He; intros e Hin; by apply elem_of_nil in Hin].
  unfold unlocked in Hu. rewrite <- Hu. apply held_start; [done..|]. intros r l Hl. cbn in Hl.
  rewrite Hu in Hl.
  pose proof (zget_Some_range _ _ _ Hl) as Hr. rewrite zlen_replicate in Hr.
  rewrite zget_replicate in Hl by done. injection Hl as <-. cbn.
  unfold TRANSACTION_SPINLOCK_UNLOCKED, TRANSACTION_ID_NOT_ACQUIRED, UINT16_MAX in *.
  split; [lia|congruence].
Qed.

End HashtableMcmpLemmas.
