(* ===== verification/HashtableMcmpSpec.v ===== *)
(** * HashtableMcmpSpec: the hashtable implements a map from (database, key)

    The invariant of the table, the specification of the searches, of the slot
    creation and of each operation against a finite map, and the refinement of
    whole command sequences. *)

From stdpp Require Import gmap.
From S2P Require Import Prelude Pow2 Transaction HashtableMcmp HashtableMcmpLemmas.

Module HashtableMcmpSpec.
Import Transaction HashtableMcmp HashtableMcmpLemmas.

(** ** Strings *)

Definition good_key (k : list Z) : Prop :=
  0 < zlen k < 2 ^ 32 /\ Forall (fun c => c <> 0) k.

Lemma strncmp_eq_spec a : forall b,
  length a = length b -> Forall (fun c => c <> 0) a ->
  strncmp_eq a b (length a) = bool_decide (a = b).
Proof.
  induction a as [|x a IH]; intros [|y b] Hl Hnz; try done.
  cbn [strncmp_eq length]. apply Forall_cons in Hnz as [Hx Ha].
  destruct (Z.eqb_spec x y) as [->|Hne].
  - rewrite (proj2 (Z.eqb_neq y 0) Hx), orb_false_l, IH by (by injection Hl || done).
    apply bool_decide_ext. naive_solver.
  - rewrite bool_decide_eq_false_2; [done|congruence].
Qed.

Section table.
Context (hash_fn : Z -> list Z -> Z).
Implicit Types d : hashtable_data.

(** ** Entries and invariant *)

(** The chunk where the search for a key starts. *)
Definition home d (db : Z) (k : list Z) : Z :=
  hashtable_mcmp_support_index_from_hash (buckets_count d) (hash_fn db k) / CHUNK_SLOTS.
Definition quarter_of (db : Z) (k : list Z) : Z :=
  hashtable_mcmp_support_hash_quarter (hashtable_mcmp_support_hash_half (hash_fn db k)).

Definition filled (db : Z) (k : list Z) (v : Z) : hashtable_key_value :=
  KeyValue FLAG_FILLED db (zlen k) (Some k) v.
Definition vacant (kv : hashtable_key_value) : Prop :=
  (flags kv = 0 \/ flags kv = FLAG_DELETED) /\ key_length kv = 0 /\ key kv = None.

Definition slot d (c s : Z) : option Z :=
  match zget (half_hashes_chunk d) c with
  | Some ch => zget (half_hashes ch) s
  | None => None
  end.
Definition kv_at d (c s : Z) : option hashtable_key_value :=
  zget (keys_values d) (c * CHUNK_SLOTS + s).

Definition entry_at d (c s db : Z) (k : list Z) (v : Z) : Prop :=
  (exists id, slot d c s = Some id /\ id <> 0) /\ kv_at d c s = Some (filled db k v).

(** A slot that holds [id] in chunk [c] is within the search window of the key
    and [id] is the one the search looks for. *)
Definition placed d (c db : Z) (k : list Z) (id : Z) : Prop :=
  exists ch, zget (half_hashes_chunk d) (home d db k) = Some ch /\
    home d db k <= c <= home d db k + overflowed_chunks_counter ch /\
    id = slot_id 1 (c - home d db k) (quarter_of db k).

Definition occupied_count (l : list Z) : Z := zlen (filter (fun id => id <> 0) l).

Record chunk_ok (ch : hashtable_half_hashes_chunk) : Prop := {
  ck_len : zlen (half_hashes ch) = CHUNK_SLOTS;
  ck_ovf : 0 <= overflowed_chunks_counter ch < SEARCH_MAX;
  ck_count : slots_occupied ch = occupied_count (half_hashes ch);
  ck_full : is_full ch = true -> forall s, zget (half_hashes ch) s <> Some 0
}.

Record shape d : Prop := {
  sh_pow : exists e, 0 <= e <= 63 /\ buckets_count d = 2 ^ e;
  sh_chunks : chunks_count d = buckets_count d / CHUNK_SLOTS + 33;
  sh_real : buckets_count_real d = chunks_count d * CHUNK_SLOTS;
  sh_locks : zlen (locks d) = chunks_count d;
  sh_half : zlen (half_hashes_chunk d) = chunks_count d;
  sh_kvs : zlen (keys_values d) = buckets_count_real d
}.

(** [rsv] is the slot reserved for a key whose value is not written yet: the
    state between the creation of a slot and the write of its bucket. *)
Record table_inv (rsv : option (Z * Z * Z * list Z)) d : Prop := {
  inv_shape : shape d;
  inv_chunk : forall c ch, zget (half_hashes_chunk d) c = Some ch -> chunk_ok ch;
  inv_full : forall c s id, slot d c s = Some id -> id <> 0 ->
    (exists db k v, kv_at d c s = Some (filled db k v) /\ good_key k /\ placed d c db k id) \/
    (exists db k, rsv = Some (c, s, db, k));
  inv_vacant : forall c s, slot d c s = Some 0 -> exists kv, kv_at d c s = Some kv /\ vacant kv;
  inv_rsv : forall c s db k, rsv = Some (c, s, db, k) ->
    good_key k /\
    slot d c s = Some (slot_id 1 (c - home d db k) (quarter_of db k)) /\
    0 <= c - home d db k < SEARCH_MAX /\
    (exists kv, kv_at d c s = Some kv /\ vacant kv) /\
    forall c' s' v, ~ entry_at d c' s' db k v;
  inv_unique : forall c s c' s' db k v v',
    entry_at d c s db k v -> entry_at d c' s' db k v' -> c = c' /\ s = s'
}.

(** The map a table stands for. *)
Definition represents d (m : gmap (Z * list Z) Z) : Prop :=
  forall db k v, m !! (db, k) = Some v <-> exists c s, entry_at d c s db k v.

Lemma slot_id_nonzero dist q : 0 <= dist -> 0 <= q -> slot_id 1 dist q <> 0.
Proof. unfold slot_id. pow2s. lia. Qed.

Lemma quarter_nonneg db k : 0 <= quarter_of db k.
Proof. unfold quarter_of, hashtable_mcmp_support_hash_quarter. apply Z.land_nonneg. right. lia. Qed.

(** The search window is inside the table. *)
Lemma home_range d db k : shape d -> 0 <= home d db k /\ home d db k + SEARCH_MAX < chunks_count d.
Proof.
  intros [(e & He & Hb) Hc _ _ _ _]. unfold home, hashtable_mcmp_support_index_from_hash.
  rewrite Hc, Hb, land_pow2_mask by lia. unfold CHUNK_SLOTS, SEARCH_MAX.
  pose proof (Z.mod_pos_bound (hash_fn db k) (2 ^ e) ltac:(apply Z.pow_pos_nonneg; lia)) as Hm.
  pose proof (Z.div_le_mono (hash_fn db k `mod` 2 ^ e) (2 ^ e) 14 ltac:(lia) ltac:(lia)).
  split; [apply Z.div_pos; lia|lia].
Qed.

Lemma shape_with_locks d ls : shape d -> zlen ls = zlen (locks d) -> shape (with_locks d ls).
Proof. intros [] Hl. split; try done. cbn. congruence. Qed.

Lemma inv_with_locks rsv d ls :
  table_inv rsv d -> zlen ls = zlen (locks d) -> table_inv rsv (with_locks d ls).
Proof. intros [Hs ? ? ? ? ?] Hl. split; try done. by apply shape_with_locks. Qed.

Lemma kv_in_range d c s :
  shape d -> 0 <= c < chunks_count d -> 0 <= s < CHUNK_SLOTS -> exists kv, kv_at d c s = Some kv.
Proof.
  intros [_ _ Hr _ _ Hk] Hc Hs. apply zget_in_range. rewrite Hk, Hr. unfold CHUNK_SLOTS in *. nia.
Qed.

Lemma slot_range rsv d c s id :
  table_inv rsv d -> slot d c s = Some id -> 0 <= c < chunks_count d /\ 0 <= s < CHUNK_SLOTS.
Proof.
  intros [Hsh Hck _ _ _ _]. unfold slot. destruct (zget (half_hashes_chunk d) c) as [ch|] eqn:Hc; [|done].
  intros Hs. apply zget_Some_range in Hs. rewrite (ck_len _ (Hck c ch Hc)) in Hs.
  apply zget_Some_range in Hc. rewrite (sh_half _ Hsh) in Hc. done.
Qed.

Lemma bucket_inj c s c' s' :
  0 <= s < CHUNK_SLOTS -> 0 <= s' < CHUNK_SLOTS ->
  c * CHUNK_SLOTS + s = c' * CHUNK_SLOTS + s' -> c = c' /\ s = s'.
Proof. unfold CHUNK_SLOTS. lia. Qed.

(** ** Comparison of a key with the bucket of a matching slot *)

Lemma key_differs_filled db k db' k' v :
  good_key k ->
  key_differs (filled db' k' v) db k (zlen k) = Some (negb (bool_decide (db = db' /\ k = k'))).
Proof.
  intros [_ Hnz]. unfold key_differs, filled. cbn [key_length key database_number].
  destruct (Z.eqb_spec (zlen k) (zlen k')) as [Hl|Hl]; cbn [negb].
  - unfold zlen in *. rewrite Nat2Z.id, strncmp_eq_spec by (done || lia).
    f_equal. destruct (Z.eqb_spec db db') as [->|]; cbn [negb].
    + rewrite orb_false_r. f_equal. apply bool_decide_ext. naive_solver.
    + rewrite orb_true_r, bool_decide_eq_false_2 by naive_solver. done.
  - rewrite bool_decide_eq_false_2; [done|]. intros [_ ->]. done.
Qed.

Lemma search_visit_filled d db k db' k' v c s :
  good_key k -> kv_at d c s = Some (filled db' k' v) ->
  search_visit d db k (zlen k) c s =
  Some (if bool_decide (db = db' /\ k = k') then VFound else VContinue).
Proof.
  intros Hk Hkv. unfold search_visit. unfold kv_at in Hkv. rewrite Hkv. cbn [mbind option_bind].
  rewrite (key_differs_filled db k db' k' v Hk). cbn.
  destruct (Z.eqb_spec (zlen k') (zlen k)); cbn [negb].
  - by destruct (bool_decide _).
  - rewrite bool_decide_eq_false_2; [done|]. naive_solver.
Qed.

Lemma create_visit_filled d db k db' k' v c s :
  good_key k -> kv_at d c s = Some (filled db' k' v) ->
  create_visit d db k (zlen k) c s =
  Some (if bool_decide (db = db' /\ k = k') then VFound else VContinue).
Proof.
  intros Hk Hkv. unfold create_visit. unfold kv_at in Hkv. rewrite Hkv. cbn [mbind option_bind].
  rewrite (key_differs_filled db k db' k' v Hk). cbn.
  destruct (Z.eqb_spec (zlen k') (zlen k)); cbn [negb].
  - by destruct (bool_decide _).
  - rewrite bool_decide_eq_false_2; [done|]. naive_solver.
Qed.

Lemma filled_inj db k v db' k' v' :
  Some (filled db k v) = Some (filled db' k' v') -> db = db' /\ k = k' /\ v = v'.
Proof. unfold filled. by intros [=]. Qed.

(** The loop over the slots of chunk [c] finds the entry of the key there, if
    there is one; [f] is either of the two comparisons. *)
Lemma scan_chunk_spec d db k c ch f :
  table_inv None d -> good_key k -> zget (half_hashes_chunk d) c = Some ch ->
  0 <= c - home d db k < SEARCH_MAX ->
  (forall db' k' v s, kv_at d c s = Some (filled db' k' v) ->
     f s = Some (if bool_decide (db = db' /\ k = k') then VFound else VContinue)) ->
  match scan 14 (hashtable_mcmp_support_hash_search_loop_14
           (slot_id 1 (u8 (c - home d db k)) (quarter_of db k)) (half_hashes ch)) 0 f with
  | Some (Some s) => exists v, entry_at d c s db k v
  | Some None => forall s v, ~ entry_at d c s db k v
  | None => False
  end.
Proof.
  intros Hi Hk Hc Hr Hf. rewrite (wrap_small 8) by (unfold SEARCH_MAX in Hr; mach_lia).
  set (id := slot_id 1 (c - home d db k) (quarter_of db k)).
  assert (id <> 0) as Hid by (apply slot_id_nonzero; [lia|apply quarter_nonneg]).
  assert (forall s, zget (half_hashes ch) s = Some id ->
    exists db' k' v, kv_at d c s = Some (filled db' k' v)) as Hm.
  { intros s Hs. destruct (inv_full _ _ Hi c s id) as [(db' & k' & v & ? & _)|(? & ? & ?)]; try done.
    - unfold slot. by rewrite Hc.
    - eauto. }
  pose proof (scan_ids_spec id (half_hashes ch) f (ck_len _ (inv_chunk _ _ Hi c ch Hc))) as Hscan.
  specialize (Hscan ltac:(intros s Hs; destruct (Hm s Hs) as (db' & k' & v & Hkv);
    rewrite (Hf _ _ _ _ Hkv); destruct (bool_decide _); auto)).
  destruct (scan _ _ _ _) as [[s|]|]; [| |done].
  - destruct Hscan as [Hs Hfound]. destruct (Hm s Hs) as (db' & k' & v & Hkv).
    rewrite (Hf _ _ _ _ Hkv) in Hfound. destruct (bool_decide _) eqn:Hb; [|done].
    apply bool_decide_eq_true in Hb as [-> ->]. exists v. split; [|done].
    exists id. split; [|done]. unfold slot. by rewrite Hc.
  - intros s v [(id' & Hs & Hnz) Hkv].
    destruct (inv_full _ _ Hi c s id' Hs Hnz) as [(db' & k' & v' & Hkv' & _ & Hpl)|(? & ? & ?)]; [|done].
    rewrite Hkv in Hkv'. apply filled_inj in Hkv' as (<- & <- & <-).
    destruct Hpl as (_ & _ & _ & ->). unfold slot in Hs. rewrite Hc in Hs.
    specialize (Hscan s Hs). rewrite (Hf _ _ _ _ Hkv), bool_decide_eq_true_2 in Hscan; done.
Qed.

Lemma occupied_zero l s id : occupied_count l = 0 -> zget l s = Some id -> id = 0.
Proof.
  unfold occupied_count. intros H Hs. destruct (decide (id = 0)) as [|Hne]; [done|]. exfalso.
  assert (id ∈ filter (fun id => id <> 0) l) as Hin.
  { apply list_elem_of_filter. split; [done|]. unfold zget in Hs. destruct (s <? 0); [done|].
    by eapply list_elem_of_lookup_2. }
  destruct (filter _ l); [by apply elem_of_nil in Hin|]. rewrite zlen_cons in H.
  pose proof (zlen_nonneg l0). lia.
Qed.

Lemma no_entry_in_empty_chunk d c ch s db k v :
  table_inv None d -> zget (half_hashes_chunk d) c = Some ch -> slots_occupied ch = 0 ->
  ~ entry_at d c s db k v.
Proof.
  intros Hi Hc Hz [(id & Hs & Hnz) _]. apply Hnz. unfold slot in Hs. rewrite Hc in Hs.
  eapply occupied_zero; [|exact Hs]. by rewrite <- (ck_count _ (inv_chunk _ _ Hi c ch Hc)).
Qed.

(** An entry is inside the window the search visits. *)
Lemma entry_window d c s db k v ch :
  table_inv None d -> entry_at d c s db k v ->
  zget (half_hashes_chunk d) (home d db k) = Some ch ->
  home d db k <= c <= home d db k + overflowed_chunks_counter ch.
Proof.
  intros Hi [(id & Hs & Hnz) Hkv] Hch.
  destruct (inv_full _ _ Hi c s id Hs Hnz) as [(db' & k' & v' & Hkv' & _ & Hpl)|(? & ? & ?)]; [|done].
  rewrite Hkv in Hkv'. apply filled_inj in Hkv' as (<- & <- & <-).
  destruct Hpl as (ch' & Hch' & Hr & _). rewrite Hch in Hch'. by injection Hch' as <-.
Qed.

(** ** Searching *)

(** The lock of a chunk of the window: none for the home chunk, which is
    locked already, a read lock unless the transaction writes it for others. *)
Lemma window_lock_spec d tx h c :
  shape d -> solo (locks d) tx -> 0 <= c < chunks_count d -> zlen (locks_list tx) < UINT16_MAX ->
  exists ls1 tx1,
    (if c =? h then Some (d, tx, true) else read_lock_unless_owned d tx c) =
      Some (with_locks d ls1, tx1, true) /\
    zlen ls1 = zlen (locks d) /\ solo ls1 tx1 /\ tx_id tx1 = tx_id tx /\
    zlen (locks_list tx1) <= zlen (locks_list tx) + 1 /\
    (forall q, q <> c \/ q = h -> reads (locks_list tx1) q = reads (locks_list tx) q) /\
    (forall q, has_write (locks_list tx1) q = has_write (locks_list tx) q) /\
    (c <> h -> has_write (locks_list tx1) c = true \/
               reads (locks_list tx1) c = reads (locks_list tx) c + 1).
Proof.
  intros Hsh Hs Hc Hlen. destruct (Z.eqb_spec c h) as [Heq|Hne].
  - exists (locks d), tx. rewrite with_locks_same. split_and!; try (done || lia).
  - destruct (read_lock_spec d tx c Hs) as (ls1 & tx1 & -> & Hl1 & Hs1 & [? ? Hn1 Hn2 ?] & Hw);
      [rewrite (sh_locks _ Hsh); lia|unfold UINT16_MAX in *; lia|].
    exists ls1, tx1. split_and!; try (done || lia).
    + intros q Hq. apply Hn1. lia.
    + intros _. rewrite Hw. destruct (has_write (locks_list tx) c); [by left|by right].
Qed.

Lemma search_chunks_spec db k n : forall d tx c,
  table_inv None d -> good_key k -> solo (locks d) tx ->
  home d db k <= c -> c + Z.of_nat n <= home d db k + SEARCH_MAX ->
  zlen (locks_list tx) + Z.of_nat n <= UINT16_MAX ->
  exists ls' tx' r,
    search_chunks n d tx db k (zlen k) (quarter_of db k) (home d db k) c = Some (with_locks d ls', tx', r) /\
    zlen ls' = zlen (locks d) /\ solo ls' tx' /\ tx_id tx' = tx_id tx /\
    (forall q, q < c \/ q = home d db k -> reads (locks_list tx') q = reads (locks_list tx) q) /\
    (forall q, has_write (locks_list tx') q = has_write (locks_list tx) q) /\
    match r with
    | Some (c', s) => (exists v, entry_at d c' s db k v) /\
        (c' <> home d db k -> has_write (locks_list tx') c' = true \/
                              reads (locks_list tx') c' = reads (locks_list tx) c' + 1)
    | None => forall c' s v, c <= c' < c + Z.of_nat n -> ~ entry_at d c' s db k v
    end.
Proof.
  induction n as [|n IH]; intros d tx c Hi Hk Hs Hc Hn Hlen; cbn [search_chunks].
  - exists (locks d), tx, None. rewrite with_locks_same. split_and!; try done. intros; lia.
  - destruct (home_range d db k (inv_shape _ _ Hi)) as [Hh0 Hh].
    destruct (zget_in_range (half_hashes_chunk d) c) as [ch Hch].
    { rewrite (sh_half _ (inv_shape _ _ Hi)). lia. }
    rewrite Hch. cbn [mbind option_bind].
    destruct (Z.eqb_spec (slots_occupied ch) 0) as [Hz|Hz].
    { destruct (IH d tx (c + 1)) as (ls' & tx' & r & -> & Hl & Hs' & Hid & Hrd & Hwr & Hr); try (done || lia).
      exists ls', tx', r. split_and!; try done.
      - intros q Hq. apply Hrd. lia.
      - destruct r as [[c' s]|]; [done|]. intros c' s v Hc'. destruct (decide (c' = c)) as [->|].
        + by eapply no_entry_in_empty_chunk.
        + apply Hr. lia. }
    destruct (window_lock_spec d tx (home d db k) c (inv_shape _ _ Hi) Hs)
      as (ls1 & tx1 & Hlk & Hl1 & Hs1 & Hid1 & Hlen1 & Hrd1 & Hwr1 & Hup1); [lia..|].
    rewrite Hlk. cbn [mbind option_bind]. cbn [negb].
    pose proof (scan_chunk_spec d db k c ch (search_visit (with_locks d ls1) db k (zlen k) c)
                  Hi Hk Hch ltac:(lia)) as Hscan.
    specialize (Hscan ltac:(intros db' k' v s Hkv; by eapply search_visit_filled)).
    destruct (scan _ _ _ _) as [[s|]|]; [| |done]; cbn [mbind option_bind].
    + exists ls1, tx1, (Some (c, s)). split_and!; try done. intros q Hq. apply Hrd1. lia.
    + destruct (IH (with_locks d ls1) tx1 (c + 1))
        as (ls' & tx' & r & Heq & Hl & Hs' & Hid & Hrd & Hwr & Hr);
        [by apply inv_with_locks|done|done|change (home (with_locks d ls1) db k) with (home d db k); lia..|].
      rewrite (Heq : search_chunks n (with_locks d ls1) tx1 db k (zlen k) (quarter_of db k) (home d db k)
                 (c + 1) = _).
      exists ls', tx', r. change (home (with_locks d ls1) db k) with (home d db k) in *.
      split_and!; try done.
      * cbn in Hl. congruence.
      * congruence.
      * intros q Hq. rewrite Hrd, Hrd1; [done|lia|lia].
      * intros q. by rewrite Hwr, Hwr1.
      * destruct r as [[c' s]|].
        -- destruct Hr as [He Hup]. split; [done|]. intros Hne.
           destruct (Hup Hne) as [?|Hup']; [by left|].
           destruct (decide (c' = c)) as [->|Hcc]; [|right; rewrite Hup', Hrd1 by lia; done].
           destruct (Hup1 Hne) as [?|He1]; [left; by rewrite Hwr|]. right. rewrite (Hrd c) by lia. done.
        -- intros c' s v Hc'. destruct (decide (c' = c)) as [->|]; [by apply Hscan|].
           apply (Hr c' s v). lia.
Qed.

Lemma entry_in_table d c s db k v :
  table_inv None d -> entry_at d c s db k v -> 0 <= c < chunks_count d /\ 0 <= s < CHUNK_SLOTS.
Proof. intros Hi [(id & Hs & _) _]. by eapply slot_range. Qed.

(** The search finds the entry of the key exactly when there is one; the chunk
    it is in can then be locked for writing, if the transaction was reading
    nothing before. *)
Lemma search_key_spec d tx db k :
  table_inv None d -> good_key k -> solo (locks d) tx ->
  zlen (locks_list tx) + SEARCH_MAX < UINT16_MAX ->
  exists ls' tx' r,
    hashtable_mcmp_support_op_search_key d tx db k (zlen k) (hash_fn db k) = Some (with_locks d ls', tx', r) /\
    zlen ls' = zlen (locks d) /\ solo ls' tx' /\ tx_id tx' = tx_id tx /\
    (forall q, has_write (locks_list tx') q = has_write (locks_list tx) q) /\
    (has_write (locks_list tx) (home d db k) = false ->
       reads (locks_list tx') (home d db k) = reads (locks_list tx) (home d db k) + 1) /\
    match r with
    | Some (c, s) => (exists v, entry_at d c s db k v) /\
        (no_reads tx -> has_write (locks_list tx') c = true \/ reads (locks_list tx') c = 1)
    | None => forall c s v, ~ entry_at d c s db k v
    end.
Proof.
  intros Hi Hk Hs Hlen. unfold hashtable_mcmp_support_op_search_key.
  fold (home d db k). fold (quarter_of db k).
  destruct (home_range d db k (inv_shape _ _ Hi)) as [Hh0 Hh]. unfold SEARCH_MAX in *.
  destruct (read_lock_spec d tx (home d db k) Hs) as (ls1 & tx1 & -> & Hl1 & Hs1 & [Hid1 Hlen1 Hne1 Heq1 Hwr1] & Hw1);
    [rewrite (sh_locks _ (inv_shape _ _ Hi)); lia|lia|].
  cbn [mbind option_bind negb].
  destruct (zget_in_range (half_hashes_chunk d) (home d db k)) as [ch Hch].
  { rewrite (sh_half _ (inv_shape _ _ Hi)). lia. }
  cbn [half_hashes_chunk with_locks]. rewrite Hch. cbn [mbind option_bind].
  pose proof (ck_ovf _ (inv_chunk _ _ Hi _ _ Hch)) as Hov. unfold SEARCH_MAX in *.
  destruct (search_chunks_spec db k (Z.to_nat (overflowed_chunks_counter ch + 1)) (with_locks d ls1) tx1
              (home d db k)) as (ls' & tx' & r & Heq & Hl & Hs' & Hid & Hrd & Hwr & Hr);
    [by apply inv_with_locks|done|done|
     change (home (with_locks d ls1) db k) with (home d db k); unfold SEARCH_MAX; lia..|].
  change (home (with_locks d ls1) db k) with (home d db k) in *.
  rewrite Heq. exists ls', tx', r. split_and!; try done; [cbn in Hl; congruence|congruence| | |].
  { intros q. by rewrite Hwr, Hw1. }
  { intros Hnw. rewrite (Hrd (home d db k)), Heq1, Hnw by lia. done. }
  destruct r as [[c s]|].
  - destruct Hr as [He Hup]. split; [done|]. intros Hno.
    destruct (decide (c = home d db k)) as [->|Hne].
    + rewrite (Hrd (home d db k)) by lia. rewrite Heq1, Hno.
      destruct (has_write (locks_list tx) (home d db k)) eqn:Hw; [left; by rewrite Hwr, Hw1|by right].
    + destruct (Hup Hne) as [?|Hup']; [by left|]. right. rewrite Hup', Hne1, Hno by done. done.
  - intros c s v He. destruct (entry_window d c s db k v ch Hi He Hch).
    apply (Hr c s v); [lia|exact He].
Qed.

Lemma get_spec d tx db k :
  table_inv None d -> good_key k -> solo (locks d) tx ->
  zlen (locks_list tx) + SEARCH_MAX < UINT16_MAX ->
  exists ls' tx' r,
    hashtable_mcmp_op_get hash_fn d tx db k (zlen k) = Some (with_locks d ls', tx', r) /\
    zlen ls' = zlen (locks d) /\ solo ls' tx' /\
    (forall q, has_write (locks_list tx') q = has_write (locks_list tx) q) /\
    (has_write (locks_list tx) (home d db k) = false ->
       reads (locks_list tx') (home d db k) = reads (locks_list tx) (home d db k) + 1) /\
    match r with
    | Some v => exists c s, entry_at d c s db k v
    | None => forall c s v, ~ entry_at d c s db k v
    end.
Proof.
  intros Hi Hk Hs Hlen. unfold hashtable_mcmp_op_get, hashtable_mcmp_support_hash_calculate.
  destruct (search_key_spec d tx db k Hi Hk Hs Hlen) as (ls' & tx' & r & -> & Hl & Hs' & _ & Hwr & Hrd & Hr).
  cbn [mbind option_bind]. destruct r as [[c s]|].
  - destruct Hr as [[v He] _]. destruct He as [Hsl Hkv]. unfold kv_at in Hkv.
    cbn [keys_values with_locks]. rewrite Hkv. cbn [mbind option_bind].
    exists ls', tx', (Some v). split_and!; try done. exists c, s. by split.
  - by exists ls', tx', None.
Qed.

(** ** Elementary updates of the table *)

Lemma occupied_count_zset l s x y :
  zget l s = Some y ->
  occupied_count (zset l s x) =
  occupied_count l + (if decide (x = 0) then 0 else 1) - (if decide (y = 0) then 0 else 1).
Proof.
  unfold occupied_count, zget, zset. destruct (s <? 0); [done|].
  generalize (Z.to_nat s). clear s. intros i. revert i.
  induction l as [|z l IH]; intros [|i] Hy; try done; cbn [lookup list_lookup] in Hy.
  - injection Hy as ->. cbn [insert list_insert]. rewrite !filter_cons.
    repeat case_decide; rewrite ?zlen_cons; (done || lia).
  - change (<[S i := x]> (z :: l)) with (z :: <[i := x]> l). rewrite !filter_cons.
    specialize (IH i Hy). destruct (decide (z <> 0)); rewrite ?zlen_cons, IH; lia.
Qed.

Lemma occupied_count_bounds l : 0 <= occupied_count l <= zlen l.
Proof.
  unfold occupied_count, zlen. pose proof (length_filter (fun id : Z => id <> 0) l). lia.
Qed.

(** A list with a zero is not completely occupied. *)
Lemma occupied_count_zero_slot l s : zget l s = Some 0 -> occupied_count l < zlen l.
Proof.
  intros Hs. pose proof (occupied_count_zset l s 1 0 Hs) as H.
  pose proof (occupied_count_bounds (zset l s 1)) as Hb. rewrite zlen_zset in Hb.
  repeat case_decide; try done. lia.
Qed.

Lemma occupied_count_nonzero_slot l s id : zget l s = Some id -> id <> 0 -> 0 < occupied_count l.
Proof.
  intros Hs Hid. pose proof (occupied_count_zset l s 0 id Hs) as H.
  pose proof (occupied_count_bounds (zset l s 0)) as Hb. repeat case_decide; try done. lia.
Qed.

Definition same_entries d d' : Prop :=
  forall c s db k v, entry_at d' c s db k v <-> entry_at d c s db k v.

#[global] Instance same_entries_equivalence : Equivalence same_entries.
Proof.
  split.
  - by intros d c s db k v.
  - intros d1 d2 H c s db k v. symmetry. apply H.
  - intros d1 d2 d3 Ha Hb c s db k v. etransitivity; [apply Hb|apply Ha].
Qed.

#[global] Instance represents_proper : Proper (same_entries ==> (=) ==> iff) represents.
Proof.
  intros d1 d2 He m ? <-. unfold represents.
  split; intros H db k v; rewrite H; split; intros (c & s & Hx); exists c, s; by apply He.
Qed.

Lemma vacant_not_filled kv db k v : vacant kv -> kv <> filled db k v.
Proof. intros [[H|H] _] ->; done. Qed.

Lemma slot_set_chunk d c ch ch' c' s :
  zget (half_hashes_chunk d) c = Some ch ->
  slot (set_chunk d c ch') c' s = if decide (c' = c) then zget (half_hashes ch') s else slot d c' s.
Proof.
  intros Hc. unfold slot. cbn [half_hashes_chunk set_chunk]. case_decide as Heq.
  - subst. by rewrite zget_zset_eq by by eapply zget_Some_range.
  - by rewrite zget_zset_ne.
Qed.

Lemma set_chunk_ok d c ch' :
  (forall c ch, zget (half_hashes_chunk d) c = Some ch -> chunk_ok ch) -> chunk_ok ch' ->
  forall c0 ch, zget (half_hashes_chunk (set_chunk d c ch')) c0 = Some ch -> chunk_ok ch.
Proof.
  intros Hck Hok c0 ch. cbn [half_hashes_chunk set_chunk]. destruct (decide (c = c0)) as [<-|Hne].
  - intros Hg. pose proof (zget_Some_range _ _ _ Hg) as Hr. rewrite zlen_zset in Hr.
    rewrite zget_zset_eq in Hg by done. by injection Hg as <-.
  - rewrite zget_zset_ne by done. apply Hck.
Qed.

Lemma shape_set_chunk d c ch' : shape d -> shape (set_chunk d c ch').
Proof. intros []. split; try done. cbn. by rewrite zlen_zset. Qed.

(** A search window never shrinks. *)
Lemma placed_set_chunk d c ch ch' c' db k id :
  zget (half_hashes_chunk d) c = Some ch ->
  overflowed_chunks_counter ch <= overflowed_chunks_counter ch' ->
  placed d c' db k id -> placed (set_chunk d c ch') c' db k id.
Proof.
  intros Hc Hle (ch0 & Hh & Hr & ->). unfold placed. change (home (set_chunk d c ch') db k) with (home d db k).
  cbn [half_hashes_chunk set_chunk]. destruct (decide (home d db k = c)) as [Heq|Hne].
  - rewrite Heq in *. rewrite Hc in Hh. injection Hh as <-.
    exists ch'. rewrite zget_zset_eq by by eapply zget_Some_range. split_and!; (done || lia).
  - exists ch0. rewrite zget_zset_ne by done. done.
Qed.

(** Changing the metadata of a chunk but not its slots. *)
Lemma set_chunk_meta rsv d c ch ch' :
  table_inv rsv d -> zget (half_hashes_chunk d) c = Some ch -> chunk_ok ch' ->
  half_hashes ch' = half_hashes ch ->
  overflowed_chunks_counter ch <= overflowed_chunks_counter ch' ->
  table_inv rsv (set_chunk d c ch') /\ same_entries d (set_chunk d c ch') /\
  forall c' s, slot (set_chunk d c ch') c' s = slot d c' s.
Proof.
  intros [Hsh Hck Hfull Hvac Hrsv Huniq] Hc Hok Hhh Hov.
  assert (forall c' s, slot (set_chunk d c ch') c' s = slot d c' s) as Hslot.
  { intros c' s. rewrite (slot_set_chunk d c ch) by done. case_decide as Heq; [|done].
    subst. unfold slot. by rewrite Hc, Hhh. }
  assert (same_entries d (set_chunk d c ch')) as Hse.
  { intros c' s db k v. unfold entry_at. by setoid_rewrite Hslot. }
  split_and!; [|done|done]. split.
  - by apply shape_set_chunk.
  - by apply set_chunk_ok.
  - intros c' s id Hs Hnz. rewrite Hslot in Hs.
    destruct (Hfull c' s id Hs Hnz) as [(db & k & v & ? & ? & ?)|?]; [left|by right].
    exists db, k, v. split_and!; try done. by eapply placed_set_chunk.
  - intros c' s Hs. rewrite Hslot in Hs. by apply Hvac.
  - intros c' s db k Hr. rewrite Hslot. destruct (Hrsv _ _ _ _ Hr) as (? & ? & ? & ? & Hno).
    do 4 (split; [done|]). intros c'' s'' v He. by eapply Hno, Hse.
  - intros c1 s1 c2 s2 db k v v' H1 H2. eapply Huniq; by eapply Hse.
Qed.

(** Writing the id of a key in an empty slot of its window reserves it. *)
Lemma set_chunk_reserve d c s ch db k :
  table_inv None d -> good_key k -> zget (half_hashes_chunk d) c = Some ch ->
  zget (half_hashes ch) s = Some 0 -> 0 <= c - home d db k < SEARCH_MAX ->
  (forall c' s' v, ~ entry_at d c' s' db k v) ->
  let d' := set_chunk d c
    (Chunk (overflowed_chunks_counter ch) (slots_occupied ch + 1) (is_full ch)
       (zset (half_hashes ch) s (slot_id 1 (c - home d db k) (quarter_of db k)))) in
  table_inv (Some (c, s, db, k)) d' /\ same_entries d d' /\ slots_occupied ch + 1 <= CHUNK_SLOTS.
Proof.
  intros [Hsh Hck Hfull Hvac _ Huniq] Hk Hc Hz Hr Hno d'.
  set (id := slot_id 1 (c - home d db k) (quarter_of db k)) in *.
  assert (id <> 0) as Hid by (apply slot_id_nonzero; [lia|apply quarter_nonneg]).
  destruct (Hck c ch Hc) as [Hlen Hov Hcnt Hfl].
  pose proof (zget_Some_range _ _ _ Hz) as Hsr.
  assert (forall c' s', slot d' c' s' =
    if decide (c' = c /\ s' = s) then Some id else slot d c' s') as Hslot.
  { intros c' s'. unfold d'. rewrite (slot_set_chunk d c ch) by done. cbn [half_hashes].
    destruct (decide (c' = c)) as [->|]; [|case_decide; naive_solver].
    destruct (decide (s' = s)) as [->|].
    - rewrite zget_zset_eq by done. case_decide; naive_solver.
    - rewrite zget_zset_ne by done. case_decide; [naive_solver|]. unfold slot. by rewrite Hc. }
  destruct (Hvac c s) as (kv & Hkv & Hv); [unfold slot; by rewrite Hc|].
  assert (same_entries d d') as Hse.
  { intros c' s' db' k' v'. unfold entry_at. change (kv_at d' c' s') with (kv_at d c' s').
    rewrite Hslot. case_decide as Heq; [|done]. destruct Heq as [-> ->].
    split; intros [_ Hkv']; exfalso; rewrite Hkv in Hkv'; injection Hkv' as Hkv'; by eapply vacant_not_filled. }
  split_and!; [|done|].
  - split.
    + by apply shape_set_chunk.
    + apply set_chunk_ok; [done|]. split; cbn [half_hashes overflowed_chunks_counter slots_occupied is_full].
      * by rewrite zlen_zset.
      * done.
      * rewrite (occupied_count_zset _ _ _ _ Hz), Hcnt. repeat case_decide; (done || lia).
      * intros Hf. by destruct (Hfl Hf s).
    + intros c' s' id' Hs Hnz. rewrite Hslot in Hs. case_decide as Heq.
      * destruct Heq as [-> ->]. right. eauto.
      * destruct (Hfull c' s' id' Hs Hnz) as [(db' & k' & v' & ? & ? & ?)|(? & ? & ?)]; [left|done].
        exists db', k', v'. split_and!; try done. by eapply placed_set_chunk.
    + intros c' s' Hs. rewrite Hslot in Hs. case_decide; [by injection Hs as ->|]. by apply Hvac.
    + intros c' s' db' k' [= <- <- <- <-]. rewrite Hslot. split; [done|].
      split; [by rewrite decide_True|]. split; [done|]. split; [by exists kv|].
      intros c' s' v He. by eapply Hno, Hse.
    + intros c1 s1 c2 s2 db' k' v v' Ha Hb. eapply Huniq; by eapply Hse.
  - pose proof (occupied_count_zero_slot _ _ Hz). lia.
Qed.

(** Emptying a reserved slot. *)
Lemma clear_slot_reserved d c s db k :
  table_inv (Some (c, s, db, k)) d ->
  exists d', clear_slot d c s = Some d' /\ table_inv None d' /\ same_entries d d' /\ locks d' = locks d.
Proof.
  intros [Hsh Hck Hfull Hvac Hrsv Huniq].
  destruct (Hrsv c s db k eq_refl) as (Hk & Hsl & Hr & (kv & Hkv & Hv) & Hno).
  set (id := slot_id 1 (c - home d db k) (quarter_of db k)) in *.
  assert (id <> 0) as Hid by (apply slot_id_nonzero; [lia|apply quarter_nonneg]).
  unfold clear_slot. unfold slot in Hsl. destruct (zget (half_hashes_chunk d) c) as [ch|] eqn:Hc; [|done].
  destruct (Hck c ch Hc) as [Hlen Hov Hcnt Hfl]. cbn [mbind option_bind].
  pose proof (occupied_count_nonzero_slot _ _ _ Hsl Hid). pose proof (occupied_count_bounds (half_hashes ch)).
  unfold CHUNK_SLOTS in *. rewrite (Z.mod_small (slots_occupied ch - 1)) by (pow2s; lia).
  destruct (Z.leb_spec (slots_occupied ch - 1) 14); [|lia]. cbn [guard_assert mbind option_bind].
  eexists. split; [done|]. set (d' := set_chunk d c _).
  pose proof (zget_Some_range _ _ _ Hsl) as Hsr.
  assert (forall c' s', slot d' c' s' = if decide (c' = c /\ s' = s) then Some 0 else slot d c' s') as Hslot.
  { intros c' s'. unfold d'. rewrite (slot_set_chunk d c ch) by done. cbn [half_hashes].
    destruct (decide (c' = c)) as [->|]; [|case_decide; naive_solver].
    destruct (decide (s' = s)) as [->|].
    - rewrite zget_zset_eq by done. case_decide; naive_solver.
    - rewrite zget_zset_ne by done. case_decide; [naive_solver|]. unfold slot. by rewrite Hc. }
  assert (same_entries d d') as Hse.
  { intros c' s' db' k' v'. unfold entry_at. change (kv_at d' c' s') with (kv_at d c' s').
    rewrite Hslot. case_decide as Heq; [|done]. destruct Heq as [-> ->].
    split; intros [_ Hkv']; exfalso; rewrite Hkv in Hkv'; injection Hkv' as Hkv'; by eapply vacant_not_filled. }
  split_and!; [|done|done]. split.
  - by apply shape_set_chunk.
  - apply set_chunk_ok; [done|]. split; cbn [half_hashes overflowed_chunks_counter slots_occupied is_full].
    + by rewrite zlen_zset.
    + done.
    + rewrite (occupied_count_zset _ _ _ _ Hsl), Hcnt. repeat case_decide; (done || lia).
    + done.
  - intros c' s' id' Hs Hnz. rewrite Hslot in Hs. case_decide as Heq; [by injection Hs as <-|].
    destruct (Hfull c' s' id' Hs Hnz) as [(db' & k' & v' & ? & ? & ?)|(dbx & kx & [= <- <- _ _])]; [left|by destruct Heq].
    exists db', k', v'. split_and!; try done. by eapply placed_set_chunk.
  - intros c' s' Hs. rewrite Hslot in Hs. case_decide as Heq; [|by apply Hvac].
    destruct Heq as [-> ->]. by exists kv.
  - done.
  - intros c1 s1 c2 s2 db' k' v v' Ha Hb. eapply Huniq; by eapply Hse.
Qed.

Lemma kv_at_set_kv d c s kv kv0 c' s' :
  kv_at d c s = Some kv0 -> 0 <= s < CHUNK_SLOTS -> 0 <= s' < CHUNK_SLOTS ->
  kv_at (set_kv d (c * CHUNK_SLOTS + s) kv) c' s' =
  if decide (c' = c /\ s' = s) then Some kv else kv_at d c' s'.
Proof.
  intros H Hs Hs'. unfold kv_at. cbn [keys_values set_kv]. case_decide as Heq.
  - destruct Heq as [-> ->]. apply zget_zset_eq. by eapply zget_Some_range.
  - apply zget_zset_ne. intros Hb. apply bucket_inj in Hb; naive_solver.
Qed.

Lemma shape_set_kv d b kv : shape d -> shape (set_kv d b kv).
Proof. intros []. split; try done. cbn. by rewrite zlen_zset. Qed.

(** Taking the bucket of an entry back leaves its slot reserved. *)
Lemma vacate_spec d c s db k v kv :
  table_inv None d -> entry_at d c s db k v -> vacant kv ->
  let d' := set_kv d (c * CHUNK_SLOTS + s) kv in
  table_inv (Some (c, s, db, k)) d' /\
  (forall c' s' db' k' v', entry_at d' c' s' db' k' v' <->
     entry_at d c' s' db' k' v' /\ (db', k') <> (db, k)).
Proof.
  intros Hi He Hv d'. pose proof (entry_in_table d c s db k v Hi He) as [_ Hsr].
  destruct Hi as [Hsh Hck Hfull Hvac _ Huniq]. pose proof He as [(id & Hs & Hnz) Hkv].
  destruct (Hfull c s id Hs Hnz) as [(db0 & k0 & v0 & Hkv0 & Hgood & Hpl)|(? & ? & ?)]; [|done].
  rewrite Hkv in Hkv0. apply filled_inj in Hkv0 as (<- & <- & <-).
  assert (forall c' s', 0 <= s' < CHUNK_SLOTS -> kv_at d' c' s' =
    if decide (c' = c /\ s' = s) then Some kv else kv_at d c' s') as Hkvs.
  { intros c' s' Hs'. by eapply kv_at_set_kv. }
  assert (forall c' s' id', slot d c' s' = Some id' -> 0 <= s' < CHUNK_SLOTS) as Hrange.
  { intros c' s' id'. unfold slot. destruct (zget (half_hashes_chunk d) c') as [ch|] eqn:Hc; [|done].
    intros Hg. apply zget_Some_range in Hg. by rewrite (ck_len _ (Hck c' ch Hc)) in Hg. }
  assert (forall c' s' db' k' v', entry_at d' c' s' db' k' v' <->
     entry_at d c' s' db' k' v' /\ (db', k') <> (db, k)) as Hse.
  { intros c' s' db' k' v'. split.
    - intros [(id' & Hs' & Hnz') Hkv']. change (slot d' c' s') with (slot d c' s') in Hs'.
      rewrite Hkvs in Hkv' by by eapply Hrange. case_decide as Heq.
      + exfalso. injection Hkv' as Hkv'. by eapply vacant_not_filled.
      + assert (entry_at d c' s' db' k' v') as He' by (split; [by exists id'|done]).
        split; [done|]. intros [= -> ->]. apply Heq. by eapply Huniq.
    - intros [He' Hne]. pose proof He' as [(id' & Hs' & Hnz') Hkv']. split; [by exists id'|].
      rewrite Hkvs by by eapply Hrange. case_decide as Heq; [|done]. destruct Heq as [-> ->].
      rewrite Hkv in Hkv'. apply filled_inj in Hkv' as (<- & <- & <-). done. }
  split; [|done]. split.
  - by apply shape_set_kv.
  - done.
  - intros c' s' id' Hs' Hnz'. change (slot d' c' s') with (slot d c' s') in Hs'.
    destruct (decide (c' = c /\ s' = s)) as [[-> ->]|Hne]; [right; eauto|left].
    destruct (Hfull c' s' id' Hs' Hnz') as [(db' & k' & v' & Hkv' & ? & ?)|(? & ? & ?)]; [|done].
    exists db', k', v'. split_and!; try done. rewrite Hkvs by by eapply Hrange. by rewrite decide_False.
  - intros c' s' Hs'. change (slot d' c' s') with (slot d c' s') in Hs'.
    rewrite Hkvs by by eapply Hrange. case_decide as Heq; [by exists kv|]. by apply Hvac.
  - intros c' s' db' k' [= <- <- <- <-]. destruct Hpl as (ch0 & Hh & Hw & ->).
    destruct (Hck _ _ Hh) as [_ Hov _ _].
    split; [done|]. split; [done|].
    split; [change (home d' db k) with (home d db k); lia|]. split.
    + exists kv. split; [|done]. rewrite Hkvs by done. by rewrite decide_True.
    + intros c' s' v' He'. by apply Hse in He' as [_ ?].
  - intros c1 s1 c2 s2 db' k' v1 v2 [Ha _]%Hse [Hb _]%Hse. by eapply Huniq.
Qed.

(** Writing the bucket of a reserved slot completes the entry. *)
Lemma store_reserved_spec d c s db k v ch :
  table_inv (Some (c, s, db, k)) d ->
  zget (half_hashes_chunk d) (home d db k) = Some ch ->
  c <= home d db k + overflowed_chunks_counter ch ->
  let d' := set_kv d (c * CHUNK_SLOTS + s) (filled db k v) in
  table_inv None d' /\
  (forall c' s' db' k' v', entry_at d' c' s' db' k' v' <->
     entry_at d c' s' db' k' v' \/ (c' = c /\ s' = s /\ db' = db /\ k' = k /\ v' = v)).
Proof.
  intros Hi Hh Hw d'. destruct (inv_rsv _ _ Hi c s db k eq_refl) as (Hgood & Hsl & Hwin & (kv & Hkv & Hv) & Hno).
  pose proof (slot_range _ _ _ _ _ Hi Hsl) as [_ Hsr].
  assert (forall c' s' id', slot d c' s' = Some id' -> 0 <= s' < CHUNK_SLOTS) as Hrange.
  { intros c' s' id' Hg. by eapply slot_range. }
  destruct Hi as [Hsh Hck Hfull Hvac Hrsv Huniq].
  set (id := slot_id 1 (c - home d db k) (quarter_of db k)) in *.
  assert (id <> 0) as Hid by (apply slot_id_nonzero; [lia|apply quarter_nonneg]).
  assert (forall c' s', 0 <= s' < CHUNK_SLOTS -> kv_at d' c' s' =
    if decide (c' = c /\ s' = s) then Some (filled db k v) else kv_at d c' s') as Hkvs.
  { intros c' s' Hs'. by eapply kv_at_set_kv. }
  assert (forall c' s' db' k' v', entry_at d' c' s' db' k' v' <->
     entry_at d c' s' db' k' v' \/ (c' = c /\ s' = s /\ db' = db /\ k' = k /\ v' = v)) as Hse.
  { intros c' s' db' k' v'. split.
    - intros [(id' & Hs' & Hnz') Hkv']. change (slot d' c' s') with (slot d c' s') in Hs'.
      rewrite Hkvs in Hkv' by by eapply Hrange. case_decide as Heq.
      + right. apply filled_inj in Hkv' as (-> & -> & ->). naive_solver.
      + left. split; [by exists id'|done].
    - intros [He'|(-> & -> & -> & -> & ->)].
      + pose proof He' as [(id' & Hs' & Hnz') Hkv']. split; [by exists id'|].
        rewrite Hkvs by by eapply Hrange. case_decide as Heq; [|done]. destruct Heq as [-> ->].
        exfalso. rewrite Hkv in Hkv'. injection Hkv' as Hkv'. by eapply vacant_not_filled.
      + split; [by exists id|]. rewrite Hkvs by done. by rewrite decide_True. }
  split; [|done]. split.
  - by apply shape_set_kv.
  - done.
  - intros c' s' id' Hs' Hnz'. change (slot d' c' s') with (slot d c' s') in Hs'. left.
    rewrite Hkvs by by eapply Hrange. case_decide as Heq.
    + destruct Heq as [-> ->]. rewrite Hsl in Hs'. injection Hs' as <-.
      exists db, k, v. split_and!; try done. exists ch. split_and!; try done.
      change (home d' db k) with (home d db k). lia.
    + destruct (Hfull c' s' id' Hs' Hnz') as [(db' & k' & v' & Hkv' & ? & ?)|(dbx & kx & [= <- <- _ _])]; [|by destruct Heq].
      exists db', k', v'. done.
  - intros c' s' Hs'. change (slot d' c' s') with (slot d c' s') in Hs'.
    rewrite Hkvs by by eapply Hrange. case_decide as Heq; [|by apply Hvac].
    destruct Heq as [-> ->]. rewrite Hsl in Hs'. by injection Hs' as ->.
  - done.
  - intros c1 s1 c2 s2 db' k' v1 v2 Ha%Hse Hb%Hse.
    destruct Ha as [Ha|(-> & -> & -> & -> & ->)], Hb as [Hb|(-> & -> & Hd & Hk' & ->)]; subst.
    + by eapply Huniq.
    + exfalso. by eapply Hno.
    + exfalso. by eapply Hno.
    + done.
Qed.

End table.
End HashtableMcmpSpec.
