(* ===== verification/HashtableMcmpRefine.v ===== *)
(** * HashtableMcmpRefine: the operations of the hashtable against a finite map

    The search-or-create routine, every operation that goes through it, and
    the refinement of command sequences. *)

From stdpp Require Import gmap.
From S2P Require Import Prelude Pow2 Transaction HashtableMcmp HashtableMcmpLemmas HashtableMcmpSpec.

Module HashtableMcmpRefine.
Import Transaction HashtableMcmp HashtableMcmpLemmas HashtableMcmpSpec.

Section table.
Context (hash_fn : Z -> list Z -> Z).
Implicit Types d : hashtable_data.

Local Abbreviation home := (HashtableMcmpSpec.home hash_fn).
Local Abbreviation quarter_of := (HashtableMcmpSpec.quarter_of hash_fn).
Local Abbreviation table_inv := (HashtableMcmpSpec.table_inv hash_fn).

Lemma set_chunk_same d c ch : zget (half_hashes_chunk d) c = Some ch -> set_chunk d c ch = d.
Proof. intros H. unfold set_chunk. rewrite zset_same by done. by destruct d. Qed.

Lemma home_chunk rsv d db k :
  table_inv rsv d -> exists ch, zget (half_hashes_chunk d) (home d db k) = Some ch /\ chunk_ok ch.
Proof.
  intros Hi. destruct (home_range hash_fn d db k (inv_shape _ _ _ Hi)) as [H0 H1]. unfold SEARCH_MAX in H1.
  destruct (zget_in_range (half_hashes_chunk d) (home d db k)) as [ch Hch].
  { rewrite (sh_half _ (inv_shape _ _ _ Hi)). lia. }
  exists ch. split; [done|]. by eapply inv_chunk.
Qed.

(** The window of a found entry already covers it. *)
Lemma update_overflowed_found d c s db k v :
  table_inv None d -> entry_at d c s db k v -> update_overflowed d (home d db k) c = Some d.
Proof.
  intros Hi He. destruct (home_chunk None d db k Hi) as (ch & Hch & Hok).
  destruct (entry_window hash_fn d c s db k v ch Hi He Hch) as [Hlo Hhi].
  destruct Hok as [_ Hov _ _]. unfold update_overflowed. rewrite Hch. cbn [mbind option_bind].
  unfold SEARCH_MAX in *. rewrite (wrap_small 8) by mach_lia.
  destruct (Z.ltb_spec (overflowed_chunks_counter ch) (c - home d db k)); [lia|].
  destruct (Z.ltb_spec (overflowed_chunks_counter ch) 32); [|lia]. cbn [guard_assert mbind option_bind].
  f_equal. rewrite set_chunk_same; [done|]. by destruct ch.
Qed.

Definition chunk_full d (c : Z) : Prop := forall s, slot d c s <> Some 0.

(** What the first phase knows of the free space it met before chunk [c]:
    every chunk before the remembered one is full, and so is that one unless
    the flag tells it is not. *)
Definition freespace_ok d (db : Z) (k : list Z) (c : Z) (ff : option (Z * bool)) : Prop :=
  match ff with
  | None => c = home d db k
  | Some (f, found) => home d db k <= f < c /\
      (forall q, home d db k <= q < (if found then f else c) -> chunk_full d q)
  end.

Lemma freespace_next d db k c ch ff :
  table_inv None d -> zget (half_hashes_chunk d) c = Some ch -> home d db k <= c ->
  freespace_ok d db k c ff ->
  freespace_ok d db k (c + 1)
    (match ff with Some (_, true) => ff | _ => Some (c, negb (is_full ch)) end).
Proof.
  intros Hi Hch Hc Hff.
  assert (is_full ch = true -> chunk_full d c) as Hfull.
  { intros Hf s. unfold slot. rewrite Hch. by apply (ck_full _ (inv_chunk _ _ _ Hi c ch Hch)). }
  assert ((forall q, home d db k <= q < c -> chunk_full d q) ->
          freespace_ok d db k (c + 1) (Some (c, negb (is_full ch)))) as Hstep.
  { intros Hall. split; [lia|]. intros q Hq. destruct (decide (q = c)) as [->|].
    - destruct (is_full ch); [by apply Hfull|cbn in Hq; lia].
    - apply Hall. destruct (is_full ch); cbn in Hq; lia. }
  destruct ff as [[f [|]]|]; cbn in Hff.
  - destruct Hff as [? ?]. split; [lia|done].
  - apply Hstep. by destruct Hff.
  - apply Hstep. intros; lia.
Qed.

Lemma write_lock_if_ahead_spec d tx locked c :
  shape d -> solo (locks d) tx -> no_reads tx -> 0 <= c < chunks_count d ->
  exists ls' tx' locked', write_lock_if_ahead d tx locked c = Some (with_locks d ls', tx', locked', true) /\
    zlen ls' = zlen (locks d) /\ solo ls' tx' /\ no_reads tx' /\ tx_id tx' = tx_id tx.
Proof.
  intros Hsh Hs Hno Hc. unfold write_lock_if_ahead. destruct (locked <? c).
  - destruct (write_lock_spec d tx c Hs) as (ls' & tx' & -> & ? & ? & ? & ? & _);
      [rewrite (sh_locks _ Hsh); lia|done|].
    by exists ls', tx', c.
  - exists (locks d), tx, locked. by rewrite with_locks_same.
Qed.

Lemma search_phase_spec db k n : forall d tx c locked ff,
  table_inv None d -> good_key k -> solo (locks d) tx -> no_reads tx ->
  home d db k <= c -> c + Z.of_nat n <= home d db k + SEARCH_MAX ->
  freespace_ok d db k c ff ->
  exists ls' tx' r,
    search_phase n d tx db k (zlen k) (quarter_of db k) (home d db k) c locked ff =
      Some (with_locks d ls', tx', r) /\
    zlen ls' = zlen (locks d) /\ solo ls' tx' /\ no_reads tx' /\ tx_id tx' = tx_id tx /\
    match r with
    | PhaseLockFailed => False
    | PhaseFound c' s => exists v, entry_at d c' s db k v
    | PhaseEnd _ ff' => freespace_ok d db k (c + Z.of_nat n) ff' /\
        forall c' s v, c <= c' < c + Z.of_nat n -> ~ entry_at d c' s db k v
    end.
Proof.
  induction n as [|n IH]; intros d tx c locked ff Hi Hk Hs Hno Hc Hn Hff; cbn [search_phase].
  - exists (locks d), tx, (PhaseEnd locked ff). rewrite with_locks_same, Z.add_0_r.
    split_and!; try done. intros; lia.
  - destruct (home_range hash_fn d db k (inv_shape _ _ _ Hi)) as [Hh0 Hh].
    destruct (write_lock_if_ahead_spec d tx locked c (inv_shape _ _ _ Hi) Hs Hno ltac:(lia))
      as (ls1 & tx1 & locked1 & -> & Hl1 & Hs1 & Hno1 & Hid1).
    cbn [mbind option_bind negb].
    destruct (zget_in_range (half_hashes_chunk d) c) as [ch Hch].
    { rewrite (sh_half _ (inv_shape _ _ _ Hi)). lia. }
    cbn [half_hashes_chunk with_locks]. rewrite Hch. cbn [mbind option_bind].
    pose proof (freespace_next d db k c ch ff Hi Hch Hc Hff) as Hff1.
    set (ff1 := match ff with Some (_, true) => ff | _ => Some (c, negb (is_full ch)) end) in *.
    assert (forall s v, slots_occupied ch = 0 -> ~ entry_at d c s db k v) as Hempty.
    { intros s v Hz. by eapply no_entry_in_empty_chunk. }
    destruct (IH (with_locks d ls1) tx1 (c + 1) locked1 ff1)
      as (ls' & tx' & r & Heq & Hl & Hs' & Hno' & Hid & Hr);
      [by apply inv_with_locks|done|done|done|
       change (home (with_locks d ls1) db k) with (home d db k); lia|
       change (home (with_locks d ls1) db k) with (home d db k); lia|done|].
    change (home (with_locks d ls1) db k) with (home d db k) in *.
    change (with_locks (with_locks d ls1) ls') with (with_locks d ls') in Heq.
    cbn [locks with_locks] in Hl.
    assert ((forall s v, ~ entry_at d c s db k v) ->
      match r with
      | PhaseLockFailed => False
      | PhaseFound c' s => exists v, entry_at d c' s db k v
      | PhaseEnd _ ff' => freespace_ok d db k (c + Z.of_nat (S n)) ff' /\
          forall c' s v, c <= c' < c + Z.of_nat (S n) -> ~ entry_at d c' s db k v
      end) as Hnext.
    { intros Hn0. destruct r as [| |locked' ff']; [done..|]. destruct Hr as [Hf' Hr].
      replace (c + Z.of_nat (S n)) with (c + 1 + Z.of_nat n) by lia. split; [done|].
      intros c' s v Hc'. destruct (decide (c' = c)) as [->|]; [apply Hn0|]. apply (Hr c' s v). lia. }
    destruct (Z.eqb_spec (slots_occupied ch) 0) as [Hz|Hz].
    + exists ls', tx', r. split; [done|]. do 4 (split; [done || congruence|]).
      apply Hnext. intros s v. by apply Hempty.
    + pose proof (scan_chunk_spec hash_fn d db k c ch (create_visit (with_locks d ls1) db k (zlen k) c)
                  Hi Hk Hch ltac:(lia)) as Hscan.
      specialize (Hscan ltac:(intros db' k' v s Hkv; by eapply create_visit_filled)).
      destruct (scan _ _ _ _) as [[s|]|]; [| |done]; cbn [mbind option_bind].
      * destruct Hscan as [v He]. 
        pose proof (update_overflowed_found (with_locks d ls1) c s db k v
          (inv_with_locks _ _ _ _ Hi Hl1) He) as Hup.
        change (home (with_locks d ls1) db k) with (home d db k) in Hup. rewrite Hup.
        cbn [mbind option_bind]. exists ls1, tx1, (PhaseFound c s). split_and!; try done. by exists v.
      * exists ls', tx', r. split; [done|]. do 4 (split; [done || congruence|]). by apply Hnext.
Qed.

(** The scan of a chunk for an empty slot. *)
Lemma scan_empty_spec d c ch :
  table_inv None d -> zget (half_hashes_chunk d) c = Some ch ->
  match scan 14 (hashtable_mcmp_support_hash_search_loop_14 0 (half_hashes ch)) 0
          (fun s => _ ← zget (keys_values d) (c * CHUNK_SLOTS + s); Some VFound) with
  | Some (Some s) => zget (half_hashes ch) s = Some 0
  | Some None => forall s, zget (half_hashes ch) s <> Some 0
  | None => False
  end.
Proof.
  intros Hi Hch. destruct (inv_chunk _ _ _ Hi c ch Hch) as [Hlen _ _ _].
  assert (forall s, zget (half_hashes ch) s = Some 0 ->
    (_ ← zget (keys_values d) (c * CHUNK_SLOTS + s); Some VFound) = Some VFound) as Hv.
  { intros s Hz. destruct (inv_vacant _ _ _ Hi c s) as (kv & Hkv & _); [unfold slot; by rewrite Hch|].
    unfold kv_at in Hkv. by rewrite Hkv. }
  pose proof (scan_ids_spec 0 (half_hashes ch)
    (fun s => _ ← zget (keys_values d) (c * CHUNK_SLOTS + s); Some VFound) Hlen
    ltac:(intros s Hz; right; by apply Hv)) as Hscan.
  destruct (scan _ _ _ _) as [[s|]|]; [by destruct Hscan| |done].
  intros s Hz. specialize (Hscan s Hz). by rewrite Hv in Hscan.
Qed.

(** Raising the overflow counter of the home chunk up to chunk [c]. *)
Lemma update_overflowed_spec rsv d db k c :
  table_inv rsv d -> home d db k <= c < home d db k + SEARCH_MAX ->
  exists d', update_overflowed d (home d db k) c = Some d' /\
    buckets_count d' = buckets_count d /\ locks d' = locks d /\
    table_inv rsv d' /\ same_entries d d' /\
    exists ch, zget (half_hashes_chunk d') (home d db k) = Some ch /\
      c <= home d db k + overflowed_chunks_counter ch.
Proof.
  intros Hi Hc. destruct (home_chunk _ d db k Hi) as (ch & Hch & Hok).
  unfold update_overflowed. rewrite Hch. cbn [mbind option_bind].
  rewrite (wrap_small 8) by (unfold SEARCH_MAX in *; mach_lia).
  set (upd := if overflowed_chunks_counter ch <? c - home d db k then _ else _).
  assert (overflowed_chunks_counter ch <= upd /\ c - home d db k <= upd /\ 0 <= upd < SEARCH_MAX) as Hu.
  { destruct Hok as [_ ? _ _]. unfold upd. destruct (Z.ltb_spec (overflowed_chunks_counter ch) (c - home d db k)); lia. }
  destruct (Z.ltb_spec upd SEARCH_MAX); [|lia]. cbn [guard_assert mbind option_bind].
  set (ch' := Chunk upd (slots_occupied ch) (is_full ch) (half_hashes ch)).
  destruct (set_chunk_meta hash_fn rsv d (home d db k) ch ch' Hi Hch)
    as (Hi' & Hse & _); [destruct Hok; split; cbn; try done; lia|done|cbn; lia|].
  eexists. split; [done|]. split_and!; try done. exists ch'. cbn [half_hashes_chunk set_chunk]. split.
  - apply zget_zset_eq. by eapply zget_Some_range.
  - cbn. lia.
Qed.

(** The second phase takes the first empty slot of the window, or finds the
    whole window occupied. *)
Lemma create_phase_spec db k n : forall d tx c locked,
  table_inv None d -> good_key k -> solo (locks d) tx -> no_reads tx ->
  (forall c' s v, ~ entry_at d c' s db k v) ->
  home d db k <= c -> c + Z.of_nat n = home d db k + SEARCH_MAX ->
  (forall q, home d db k <= q < c -> chunk_full d q) ->
  exists d' tx' r,
    create_phase n d tx (quarter_of db k) (home d db k) c locked = Some (d', tx', r) /\
    buckets_count d' = buckets_count d /\ zlen (locks d') = zlen (locks d) /\
    solo (locks d') tx' /\ no_reads tx' /\ tx_id tx' = tx_id tx /\ same_entries d d' /\
    match r with
    | PhaseLockFailed => False
    | PhaseFound c' s => table_inv (Some (c', s, db, k)) d' /\
        exists ch, zget (half_hashes_chunk d') (home d db k) = Some ch /\
          c' <= home d db k + overflowed_chunks_counter ch
    | PhaseEnd _ _ => table_inv None d' /\
        forall q, home d db k <= q < home d db k + SEARCH_MAX -> chunk_full d' q
    end.
Proof.
  induction n as [|n IH]; intros d tx c locked Hi Hk Hs Hno Hnone Hc Hn Hfull; cbn [create_phase].
  - exists d, tx, (PhaseEnd locked None). split_and!; try done. intros q Hq. apply Hfull. lia.
  - destruct (home_range hash_fn d db k (inv_shape _ _ _ Hi)) as [Hh0 Hh].
    destruct (write_lock_if_ahead_spec d tx locked c (inv_shape _ _ _ Hi) Hs Hno ltac:(lia))
      as (ls1 & tx1 & locked1 & -> & Hl1 & Hs1 & Hno1 & Hid1).
    cbn [mbind option_bind negb].
    destruct (zget_in_range (half_hashes_chunk d) c) as [ch Hch].
    { rewrite (sh_half _ (inv_shape _ _ _ Hi)). lia. }
    cbn [half_hashes_chunk with_locks]. rewrite Hch. cbn [mbind option_bind].
    assert (table_inv None (with_locks d ls1)) as Hi1 by by apply inv_with_locks.
    destruct (inv_chunk _ _ _ Hi c ch Hch) as [Hlen Hov Hcnt Hfl].
    pose proof (scan_empty_spec (with_locks d ls1) c ch Hi1 Hch) as Hscan.
    destruct (scan _ _ _ _) as [[s|]|]; [| |done]; cbn [mbind option_bind].
    + rewrite (wrap_small 8) by (unfold SEARCH_MAX in *; mach_lia).
      destruct (set_chunk_reserve hash_fn (with_locks d ls1) c s ch db k Hi1 Hk Hch Hscan)
        as (Hi2 & Hse & Hocc); [change (home (with_locks d ls1) db k) with (home d db k); lia|done|].
      change (home (with_locks d ls1) db k) with (home d db k) in *.
      pose proof (occupied_count_bounds (half_hashes ch)).
      rewrite (Z.mod_small (slots_occupied ch + 1)) by (unfold CHUNK_SLOTS in *; pow2s; lia).
      destruct (Z.leb_spec (slots_occupied ch + 1) CHUNK_SLOTS); [|lia].
      cbn [guard_assert mbind option_bind].
      set (d2 := set_chunk _ c _) in *.
      destruct (update_overflowed_spec _ d2 db k c Hi2) as (d3 & Hup & Hb3 & Hl3 & Hi3 & Hse3 & Hw3);
        [change (home d2 db k) with (home d db k); lia|].
      change (home d2 db k) with (home d db k) in *. rewrite Hup. cbn [mbind option_bind].
      exists d3, tx1, (PhaseFound c s). rewrite Hb3, Hl3. split_and!; try done.
      etransitivity; [exact Hse|exact Hse3].
    + destruct (set_chunk_meta hash_fn None (with_locks d ls1) c ch
        (Chunk (overflowed_chunks_counter ch) (slots_occupied ch) true (half_hashes ch)) Hi1 Hch)
        as (Hi2 & Hse & Hsl); [by split|done|cbn; lia|].
      set (d2 := set_chunk _ c _) in *.
      destruct (IH d2 tx1 (c + 1) locked1) as (d' & tx' & r & Heq & Hb & Hl & Hs' & Hno' & Hid & Hse' & Hr).
      1-4: done.
      * intros c' s v He. by eapply Hnone, Hse.
      * change (home d2 db k) with (home d db k). lia.
      * change (home d2 db k) with (home d db k). lia.
      * intros q Hq s. rewrite Hsl. change (home d2 db k) with (home d db k) in Hq.
        change (slot (with_locks d ls1) q s) with (slot d q s).
        destruct (decide (q = c)) as [->|]; [unfold slot; rewrite Hch; apply Hscan|].
        apply Hfull. lia.
      * change (home d2 db k) with (home d db k) in *. cbn [locks d2 set_chunk with_locks buckets_count] in *.
        rewrite Heq. exists d', tx', r. do 2 (split; [done || congruence|]).
        do 4 (split; [done || congruence|]).
        split; [etransitivity; [exact Hse|exact Hse']|done].
Qed.

Lemma search_or_create_spec d tx db k :
  table_inv None d -> good_key k -> solo (locks d) tx -> no_reads tx ->
  exists d' tx' r,
    hashtable_mcmp_support_op_search_key_or_create_new d tx db k (zlen k) (hash_fn db k) true =
      Some (d', tx', r) /\
    zlen (locks d') = zlen (locks d) /\ solo (locks d') tx' /\ no_reads tx' /\ same_entries d d' /\
    match r with
    | Some (Found false c s) => table_inv None d' /\ exists v, entry_at d' c s db k v
    | Some (Found true c s) => table_inv (Some (c, s, db, k)) d' /\
        exists ch, zget (half_hashes_chunk d') (home d' db k) = Some ch /\
          c <= home d' db k + overflowed_chunks_counter ch
    | None => table_inv None d' /\ (forall c s v, ~ entry_at d' c s db k v) /\
        forall q, home d' db k <= q < home d' db k + SEARCH_MAX -> chunk_full d' q
    end.
Proof.
  intros Hi Hk Hs Hno. unfold hashtable_mcmp_support_op_search_key_or_create_new.
  cbv zeta. fold (HashtableMcmpSpec.home hash_fn d db k). fold (HashtableMcmpSpec.quarter_of hash_fn db k).
  destruct (home_range hash_fn d db k (inv_shape _ _ _ Hi)) as [Hh0 Hh].
  destruct (Z.eqb_spec (tx_id tx) TRANSACTION_ID_NOT_ACQUIRED) as [Hz|_];
    [by destruct (proj1 (solo_held _ _ Hs))|].
  destruct (write_lock_spec d tx (home d db k) Hs) as (ls1 & tx1 & -> & Hl1 & Hs1 & Hno1 & Hid1 & _);
    [rewrite (sh_locks _ (inv_shape _ _ _ Hi)); unfold SEARCH_MAX in Hh; lia|done|].
  cbn [mbind option_bind negb].
  destruct (home_chunk _ d db k Hi) as (ch & Hch & Hok).
  cbn [half_hashes_chunk with_locks]. rewrite Hch. cbn [mbind option_bind].
  destruct Hok as [_ Hov _ _]. unfold SEARCH_MAX in *. cbn [chunks_count with_locks].
  destruct (Z.leb_spec (home d db k + overflowed_chunks_counter ch + 1) (chunks_count d)); [|lia].
  cbn [guard_assert mbind option_bind].
  destruct (search_phase_spec db k (Z.to_nat (overflowed_chunks_counter ch + 1)) (with_locks d ls1) tx1
    (home d db k) (home d db k) None) as (ls2 & tx2 & r & Heq & Hl2 & Hs2 & Hno2 & Hid2 & Hr);
    [by apply inv_with_locks|done|done|done|
     change (home (with_locks d ls1) db k) with (home d db k); unfold SEARCH_MAX; lia..|done|].
  change (home (with_locks d ls1) db k) with (home d db k) in *.
  change (with_locks (with_locks d ls1) ls2) with (with_locks d ls2) in *.
  rewrite Heq. cbn [mbind option_bind].
  assert (zlen ls2 = zlen (locks d)) as Hl2' by (rewrite Hl2; exact Hl1).
  assert (table_inv None (with_locks d ls2)) as Hi2 by by apply inv_with_locks.
  destruct r as [|c s|locked ff]; [done| |].
  - exists (with_locks d ls2), tx2, (Some (Found false c s)). by split_and!.
  - destruct Hr as [Hff Hnone]. cbn [negb]. destruct ff as [[f found]|]; [|unfold freespace_ok in Hff; change (home (with_locks d ls1) db k) with (home d db k) in Hff; lia].
    cbn [mbind option_bind]. destruct Hff as [Hf Hfull].
    change (home (with_locks d ls1) db k) with (home d db k) in *.
    assert (forall c s v, ~ entry_at (with_locks d ls2) c s db k v) as Hnone'.
    { intros c s v He. destruct (entry_window hash_fn d c s db k v ch Hi He Hch).
      apply (Hnone c s v); [lia|exact He]. }
    destruct (Z.leb_spec f (chunks_count (with_locks d ls2))); [|cbn in *; lia].
    destruct (Z.leb_spec (home d db k + 32) (chunks_count (with_locks d ls2))); [|cbn in *; lia].
    cbn [andb guard_assert mbind option_bind].
    destruct (create_phase_spec db k (Z.to_nat (home d db k + 32 - f)) (with_locks d ls2) tx2 f locked)
      as (d' & tx' & r & Heq' & Hb & Hl3 & Hs3 & Hno3 & Hid3 & Hse & Hr'); try done.
    + change (home (with_locks d ls2) db k) with (home d db k). lia.
    + change (home (with_locks d ls2) db k) with (home d db k). unfold SEARCH_MAX. lia.
    + change (home (with_locks d ls2) db k) with (home d db k). intros q Hq. apply Hfull.
      destruct found; lia.
    + change (home (with_locks d ls2) db k) with (home d db k) in *. rewrite Heq'. cbn [mbind option_bind].
      assert (home d' db k = home d db k) as Hhome by (unfold HashtableMcmpSpec.home; by rewrite Hb).
      assert (zlen (locks d') = zlen (locks d)) as Hl' by (rewrite Hl3; exact Hl2').
      destruct r as [|c s|locked' ff']; [done| |];
        (eexists d', tx', _; split; [done|]; do 3 (split; [done|]); split; [exact Hse|]);
        rewrite Hhome; [exact Hr'|].
      destruct Hr' as [? ?]. split_and!; try done. intros c s v He. by eapply Hnone', Hse.
Qed.

(** ** The map after an update of the entries *)

Lemma represents_delete d d' m db k :
  represents d m ->
  (forall c s db' k' v, entry_at d' c s db' k' v <-> entry_at d c s db' k' v /\ (db', k') <> (db, k)) ->
  represents d' (delete (db, k) m).
Proof.
  intros Hm He db' k' v. rewrite lookup_delete_Some, (Hm db' k' v). split.
  - intros [Hne (c & s & Hx)]. exists c, s. apply He. split; [done|congruence].
  - intros (c & s & [Hx Hne]%He). split; [congruence|by exists c, s].
Qed.

Lemma represents_insert d d' m c s db k v :
  represents d m -> (forall c s v, ~ entry_at d c s db k v) ->
  (forall c' s' db' k' v', entry_at d' c' s' db' k' v' <->
     entry_at d c' s' db' k' v' \/ (c' = c /\ s' = s /\ db' = db /\ k' = k /\ v' = v)) ->
  represents d' (<[(db, k) := v]> m).
Proof.
  intros Hm Hno He db' k' v'. rewrite lookup_insert_Some, (Hm db' k' v'). split.
  - intros [[[= <- <-] <-]|[Hne (c' & s' & Hx)]]; [exists c, s|exists c', s']; apply He; naive_solver.
  - intros (c' & s' & [Hx|(-> & -> & -> & -> & ->)]%He); [|by left].
    right. split; [|by exists c', s']. intros [= <- <-]. by eapply Hno.
Qed.

Lemma represents_None d m db k :
  represents d m -> (forall c s v, ~ entry_at d c s db k v) <-> m !! (db, k) = None.
Proof.
  intros Hm. split.
  - intros Hno. apply eq_None_not_Some. intros [v (c & s & He)%Hm]. by eapply Hno.
  - intros Hnone c s v He. assert (m !! (db, k) = Some v) by (apply Hm; eauto). congruence.
Qed.

Lemma represents_Some d m c s db k v : represents d m -> entry_at d c s db k v -> m !! (db, k) = Some v.
Proof. intros Hm He. apply Hm. eauto. Qed.

(** Writing the value of a reserved slot. *)
Lemma store_new_spec d m c s db k v kv ch :
  table_inv (Some (c, s, db, k)) d -> represents d m ->
  zget (half_hashes_chunk d) (home d db k) = Some ch ->
  c <= home d db k + overflowed_chunks_counter ch ->
  let d' := set_kv d (c * CHUNK_SLOTS + s) (store_value kv true db k (zlen k) v) in
  table_inv None d' /\ represents d' (<[(db, k) := v]> m).
Proof.
  intros Hi Hm Hch Hw d'. destruct (store_reserved_spec hash_fn d c s db k v ch Hi Hch Hw) as [Hi' He'].
  split; [exact Hi'|]. eapply represents_insert; [done| |exact He'].
  by destruct (inv_rsv _ _ _ Hi _ _ _ _ eq_refl) as (_ & _ & _ & _ & ?).
Qed.

(** Overwriting the value of an entry is vacating it and storing it again. *)
Lemma store_existing_spec d m c s db k v0 v kv :
  table_inv None d -> represents d m -> entry_at d c s db k v0 ->
  kv_at d c s = Some kv ->
  let d' := set_kv d (c * CHUNK_SLOTS + s) (store_value kv false db k (zlen k) v) in
  table_inv None d' /\ represents d' (<[(db, k) := v]> m).
Proof.
  intros Hi Hm He Hkv d'. pose proof He as [_ Hf]. rewrite Hf in Hkv. injection Hkv as <-.
  assert (vacant empty_key_value) as Hv by (split_and!; [by left|done..]).
  destruct (vacate_spec hash_fn d c s db k v0 empty_key_value Hi He Hv) as [Hi1 He1].
  set (d1 := set_kv d _ empty_key_value) in *.
  destruct (home_chunk _ d db k Hi) as (ch & Hch & _).
  destruct (entry_window hash_fn d c s db k v0 ch Hi He Hch) as [_ Hw].
  destruct (store_new_spec d1 (delete (db, k) m) c s db k v empty_key_value ch Hi1) as [Hi2 Hm2].
  { by eapply represents_delete. }
  { exact Hch. }
  { exact Hw. }
  assert (d' = set_kv d1 (c * CHUNK_SLOTS + s) (store_value empty_key_value true db k (zlen k) v)) as ->.
  { unfold d', d1, set_kv. cbn. f_equal. unfold zset. case_match; [done|]. by rewrite list_insert_insert_eq. }
  split; [done|]. by rewrite insert_delete_eq in Hm2.
Qed.

(** Clearing the slot and the bucket of an entry: the other entries stay
    where they are. *)
Lemma clear_entry_entries d c s db k v :
  table_inv None d -> entry_at d c s db k v ->
  exists d', (d1 ← clear_slot d c s; clear_bucket d1 (c * CHUNK_SLOTS + s)) = Some d' /\
    table_inv None d' /\ locks d' = locks d /\ chunks_count d' = chunks_count d /\
    forall c' s' db' k' v', entry_at d' c' s' db' k' v' <-> entry_at d c' s' db' k' v' /\ (db', k') <> (db, k).
Proof.
  intros Hi He. pose proof He as [_ Hkv].
  assert (vacant (KeyValue FLAG_DELETED 0 0 None v)) as Hv by (split_and!; [by right|done..]).
  destruct (vacate_spec hash_fn d c s db k v _ Hi He Hv) as [Hi1 He1].
  set (d1 := set_kv d _ _) in *.
  destruct (clear_slot_reserved hash_fn d1 c s db k Hi1) as (d2 & Hc2 & Hi2 & Hse & Hl2).
  exists d2. unfold clear_slot in *. change (half_hashes_chunk d1) with (half_hashes_chunk d) in Hc2.
  destruct (zget (half_hashes_chunk d) c) as [ch|]; [|done]. cbn [mbind option_bind] in *.
  destruct (guard_assert _); [|done]. cbn [mbind option_bind] in *. injection Hc2 as <-.
  split; [unfold clear_bucket; cbn [keys_values set_chunk]; unfold kv_at in Hkv; rewrite Hkv; done|].
  split_and!; try done. intros c' s' db' k' v'. rewrite (Hse c' s' db' k' v'). apply He1.
Qed.

Lemma clear_entry_spec d m c s db k v :
  table_inv None d -> represents d m -> entry_at d c s db k v ->
  exists d', (d1 ← clear_slot d c s; clear_bucket d1 (c * CHUNK_SLOTS + s)) = Some d' /\
    table_inv None d' /\ represents d' (delete (db, k) m) /\ locks d' = locks d.
Proof.
  intros Hi Hm He. destruct (clear_entry_entries d c s db k v Hi He) as (d' & Hc & Hi' & Hl & _ & Hse).
  exists d'. split_and!; try done. by eapply represents_delete.
Qed.

(** ** A failed insertion needs 448 keys *)

Definition key_of (kv : hashtable_key_value) : Z * list Z := (database_number kv, default [] (key kv)).

Lemma window_full_size d m h :
  table_inv None d -> represents d m ->
  0 <= h -> (forall q, h <= q < h + SEARCH_MAX -> q < chunks_count d /\ chunk_full d q) ->
  SEARCH_MAX * CHUNK_SLOTS <= Z.of_nat (size m).
Proof.
  intros Hi Hm Hh Hfull.
  assert (forall i, (i < 448)%nat -> exists db k v,
    entry_at d (h + Z.of_nat (i / 14)) (Z.of_nat (i `mod` 14)) db k v) as Hent.
  { intros i Hlt. pose proof (Nat.Div0.div_lt_upper_bound i 14 32 ltac:(lia)).
    pose proof (Nat.mod_upper_bound i 14 ltac:(lia)).
    destruct (Hfull (h + Z.of_nat (i / 14))) as [Hq Hf]; [unfold SEARCH_MAX; lia|].
    destruct (zget_in_range (half_hashes_chunk d) (h + Z.of_nat (i / 14))) as [ch Hch].
    { rewrite (sh_half _ (inv_shape _ _ _ Hi)). lia. }
    destruct (zget_in_range (half_hashes ch) (Z.of_nat (i `mod` 14))) as [id Hid].
    { rewrite (ck_len _ (inv_chunk _ _ _ Hi _ _ Hch)). unfold CHUNK_SLOTS. lia. }
    assert (slot d (h + Z.of_nat (i / 14)) (Z.of_nat (i `mod` 14)) = Some id) as Hs
      by (unfold slot; by rewrite Hch).
    assert (id <> 0) as Hnz by (intros ->; by apply (Hf (Z.of_nat (i `mod` 14)))).
    destruct (inv_full _ _ _ Hi _ _ _ Hs Hnz) as [(db & k & v & Hkv & _)|(? & ? & ?)]; [|done].
    exists db, k, v. split; [by exists id|done]. }
  set (kf := fun i : nat => match kv_at d (h + Z.of_nat (i / 14)) (Z.of_nat (i `mod` 14)) with
                            | Some kv => key_of kv | None => (0, []) end).
  assert (forall i db k v, entry_at d (h + Z.of_nat (i / 14)) (Z.of_nat (i `mod` 14)) db k v ->
            kf i = (db, k)) as Hkf.
  { intros i db k v [_ Hkv]. unfold kf. by rewrite Hkv. }
  assert (NoDup (kf <$> seq 0 448)) as Hnd.
  { apply NoDup_fmap_2_strong; [|apply NoDup_seq]. intros i j Hi'%elem_of_seq Hj%elem_of_seq Heq.
    destruct (Hent i ltac:(lia)) as (db & k & v & He1). destruct (Hent j ltac:(lia)) as (db' & k' & v' & He2).
    rewrite (Hkf i _ _ _ He1), (Hkf j _ _ _ He2) in Heq. injection Heq as <- <-.
    destruct (inv_unique _ _ _ Hi _ _ _ _ _ _ _ _ He1 He2) as [Hd Hmod].
    rewrite (Nat.div_mod_eq i 14), (Nat.div_mod_eq j 14). lia. }
  pose proof (size_list_to_set (C := gset (Z * list Z)) _ Hnd) as Hsz.
  rewrite length_fmap, length_seq in Hsz.
  assert (list_to_set (C := gset (Z * list Z)) (kf <$> seq 0 448) ⊆ dom m) as Hsub.
  { intros x. rewrite elem_of_list_to_set, list_elem_of_fmap. intros (i & -> & Hi'%elem_of_seq).
    destruct (Hent i ltac:(lia)) as (db & k & v & He). rewrite (Hkf i _ _ _ He).
    apply elem_of_dom. exists v. apply Hm. eauto. }
  apply subseteq_size in Hsub. rewrite size_dom, Hsz in Hsub. unfold SEARCH_MAX, CHUNK_SLOTS. lia.
Qed.

(** ** The operations *)

Lemma assert_key_good k : good_key k -> assert_key k = Some tt.
Proof.
  intros [Hl Hnz]. destruct k as [|c k]; [unfold zlen in Hl; cbn in Hl; lia|].
  apply Forall_cons in Hnz as [Hc _]. cbn. by rewrite (proj2 (Z.eqb_neq c 0) Hc).
Qed.

Lemma set_spec d tx m db k v :
  table_inv None d -> represents d m -> good_key k -> solo (locks d) tx -> no_reads tx ->
  exists d' tx' r, hashtable_mcmp_op_set hash_fn d tx db k (zlen k) v = Some (d', tx', r) /\
    zlen (locks d') = zlen (locks d) /\ solo (locks d') tx' /\ no_reads tx' /\ table_inv None d' /\
    match r with
    | Some res => represents d' (<[(db, k) := v]> m) /\
        previous_value res = m !! (db, k) /\
        out_should_free_key res = bool_decide (is_Some (m !! (db, k)))
    | None => represents d' m /\ m !! (db, k) = None /\ SEARCH_MAX * CHUNK_SLOTS <= Z.of_nat (size m)
    end.
Proof.
  intros Hi Hm Hk Hs Hno. unfold hashtable_mcmp_op_set, hashtable_mcmp_support_hash_calculate.
  rewrite (assert_key_good k Hk). cbn [mbind option_bind].
  destruct (search_or_create_spec d tx db k Hi Hk Hs Hno) as (d1 & tx1 & r & -> & Hl & Hs1 & Hno1 & Hse & Hr).
  cbn [mbind option_bind]. rewrite Hse in Hm.
  destruct r as [[[|] c s]|]; cbn [created_new found_chunk_index found_chunk_slot_index].
  - destruct Hr as (Hi1 & ch & Hch & Hw).
    destruct (inv_rsv _ _ _ Hi1 c s db k eq_refl) as (_ & _ & _ & (kv & Hkv & _) & Hnone).
    unfold kv_at in Hkv. rewrite Hkv. cbn [mbind option_bind].
    destruct (store_new_spec d1 m c s db k v kv ch Hi1 Hm Hch Hw) as [Hi2 Hm2].
    eexists _, tx1, _. split; [done|]. do 4 (split; [done|]). cbn [previous_value out_should_free_key].
    apply (represents_None d1 m db k Hm) in Hnone. rewrite Hnone. by split_and!.
  - destruct Hr as (Hi1 & v0 & He). pose proof He as [_ Hkv]. pose proof Hkv as Hkv'.
    unfold kv_at in Hkv'. rewrite Hkv'. cbn [mbind option_bind].
    destruct (store_existing_spec d1 m c s db k v0 v _ Hi1 Hm He Hkv) as [Hi2 Hm2].
    eexists _, tx1, _. split; [done|]. do 4 (split; [done|]). cbn [previous_value out_should_free_key].
    rewrite (represents_Some d1 m c s db k v0 Hm He). by split_and!.
  - destruct Hr as (Hi1 & Hnone & Hfull). exists d1, tx1, None. do 5 (split; [done|]). split; [done|].
    split; [by apply (represents_None d1 m db k Hm)|].
    destruct (home_range hash_fn d1 db k (inv_shape _ _ _ Hi1)) as [Hh0 Hh].
    apply (window_full_size d1 m (home d1 db k)); try done. intros q Hq. split; [lia|by apply Hfull].
Qed.

Lemma get_spec_map d tx m db k :
  table_inv None d -> represents d m -> good_key k -> solo (locks d) tx ->
  zlen (locks_list tx) + SEARCH_MAX < UINT16_MAX ->
  exists ls' tx', hashtable_mcmp_op_get hash_fn d tx db k (zlen k) =
      Some (with_locks d ls', tx', m !! (db, k)) /\
    zlen ls' = zlen (locks d) /\ solo ls' tx' /\
    (forall q, has_write (locks_list tx') q = has_write (locks_list tx) q) /\
    (has_write (locks_list tx) (home d db k) = false ->
       reads (locks_list tx') (home d db k) = reads (locks_list tx) (home d db k) + 1).
Proof.
  intros Hi Hm Hk Hs Hlen.
  destruct (get_spec hash_fn d tx db k Hi Hk Hs Hlen) as (ls' & tx' & r & -> & Hl & Hs' & Hwr & Hrd & Hr).
  exists ls', tx'. split; [|done]. f_equal. f_equal. destruct r as [v|].
  - destruct Hr as (c & s & He). symmetry. by eapply represents_Some.
  - symmetry. by apply (represents_None d m db k Hm).
Qed.

Lemma slot_id_filled dist q : 0 <= dist < 2 ^ 8 -> 0 <= q -> slot_filled (slot_id 1 dist q) = 1.
Proof.
  intros Hd Hq. unfold slot_filled, slot_id.
  replace (1 + dist * 2 ^ 8 + q * 2 ^ 16) with (1 + (dist + q * 2 ^ 8) * 2 ^ 8) by (pow2s; lia).
  by rewrite Z_mod_plus_full.
Qed.

Lemma slot_id_quarter dist q : 0 <= dist < 2 ^ 8 -> 0 <= q -> slot_quarter_hash (slot_id 1 dist q) = q.
Proof.
  intros Hd Hq. unfold slot_quarter_hash, slot_id. rewrite Z.div_add by done.
  rewrite Z.div_small; [lia|]. pow2s. lia.
Qed.

(** The slot id of an entry. *)
Lemma entry_slot_id d c s db k v :
  table_inv None d -> entry_at d c s db k v ->
  exists ch, zget (half_hashes_chunk d) c = Some ch /\
    zget (half_hashes ch) s = Some (slot_id 1 (c - home d db k) (quarter_of db k)) /\
    0 <= c - home d db k < SEARCH_MAX.
Proof.
  intros Hi [(id & Hs & Hnz) Hkv].
  destruct (inv_full _ _ _ Hi c s id Hs Hnz) as [(db' & k' & v' & Hkv' & _ & Hpl)|(? & ? & ?)]; [|done].
  rewrite Hkv in Hkv'. apply filled_inj in Hkv' as (<- & <- & <-).
  destruct Hpl as (ch0 & Hh & Hw & ->). pose proof (ck_ovf _ (inv_chunk _ _ _ Hi _ _ Hh)).
  unfold slot in Hs. destruct (zget (half_hashes_chunk d) c) as [ch|] eqn:Hc; [|done].
  exists ch. split_and!; (done || lia).
Qed.

Lemma delete_spec d tx m db k :
  table_inv None d -> represents d m -> good_key k -> solo (locks d) tx -> no_reads tx ->
  zlen (locks_list tx) + SEARCH_MAX < UINT16_MAX ->
  exists d' tx', hashtable_mcmp_op_delete hash_fn d tx db k (zlen k) =
      Some (d', tx', m !! (db, k)) /\
    zlen (locks d') = zlen (locks d) /\ solo (locks d') tx' /\
    table_inv None d' /\ represents d' (delete (db, k) m).
Proof.
  intros Hi Hm Hk Hs Hno Hlen. unfold hashtable_mcmp_op_delete, hashtable_mcmp_support_hash_calculate.
  destruct (search_key_spec hash_fn d tx db k Hi Hk Hs Hlen) as (ls1 & tx1 & r & -> & Hl1 & Hs1 & Hid1 & _ & _ & Hr).
  cbn [mbind option_bind]. pose proof (inv_with_locks _ _ _ ls1 Hi Hl1) as Hi1.
  destruct r as [[c s]|].
  - destruct Hr as [[v He] Hup]. specialize (Hup Hno).
    destruct (entry_slot_id d c s db k v Hi He) as (ch & Hch & Hid & Hd).
    destruct (entry_in_table hash_fn d c s db k v Hi He) as [Hc Hsr].
    cbn [half_hashes_chunk with_locks]. rewrite Hch. cbn [mbind option_bind]. rewrite Hid. cbn [mbind option_bind].
    pose proof (HashtableMcmpSpec.quarter_nonneg hash_fn db k) as Hq. unfold SEARCH_MAX in Hd.
    rewrite slot_id_filled by (done || mach_lia). cbn [Z.eqb].
    destruct (upgrade_lock_spec (with_locks d ls1) tx1 c Hs1) as (ls2 & tx2 & -> & Hl2 & Hs2 & Hid2);
      [cbn [locks with_locks]; rewrite Hl1, (sh_locks _ (inv_shape _ _ _ Hi)); done|done|].
    cbn [mbind option_bind negb].
    rewrite slot_id_quarter by (done || mach_lia). fold (HashtableMcmpSpec.quarter_of hash_fn db k).
    rewrite Z.eqb_refl. cbn [negb].
    change (with_locks (with_locks d ls1) ls2) with (with_locks d ls2).
    cbn [locks with_locks] in Hl2.
    assert (zlen ls2 = zlen (locks d)) as Hl2' by congruence.
    destruct (clear_entry_spec (with_locks d ls2) m c s db k v) as (d' & Hclr & Hi' & Hm' & Hl');
      [by apply inv_with_locks|done|done|].
    pose proof He as [_ Hkv]. unfold kv_at in Hkv. cbn [keys_values with_locks]. rewrite Hkv.
    cbn [mbind option_bind]. destruct (clear_slot (with_locks d ls2) c s) as [d2|]; [|done].
    cbn [mbind option_bind] in *. rewrite Hclr. cbn [mbind option_bind data filled].
    exists d', tx2. rewrite (represents_Some d m c s db k v Hm He).
    rewrite Hl'. by split_and!.
  - exists (with_locks d ls1), tx1.
    assert (m !! (db, k) = None) as Hnone by by apply (represents_None d m db k Hm).
    rewrite Hnone. split_and!; try done. rewrite delete_id; done.
Qed.

(** ** Read-modify-write *)

Inductive rmw_action := RmwUpdate (v : Z) | RmwDelete | RmwAbort.

Definition rmw_finish (a : rmw_action) (d : hashtable_data) (st : rmw_status) : option hashtable_data :=
  match a with
  | RmwUpdate v => hashtable_mcmp_op_rmw_commit_update d st v
  | RmwDelete => hashtable_mcmp_op_rmw_commit_delete d st
  | RmwAbort => hashtable_mcmp_op_rmw_abort d st
  end.

(** [begin], the decision of the caller on the current value, and the matching
    commit or abort. *)
Definition run_rmw d (tx : transaction) (db : Z) (k : list Z) (f : option Z -> rmw_action)
    : option (hashtable_data * transaction * option (option Z)) :=
  '(d, tx, r) ← hashtable_mcmp_op_rmw_begin hash_fn d tx db k (zlen k);
  match r with
  | None => Some (d, tx, None)
  | Some (st, current) =>
      d ← rmw_finish (f current) d st;
      Some (d, tx, Some current)
  end.

Definition apply_action (a : rmw_action) (db : Z) (k : list Z) (m : gmap (Z * list Z) Z)
    : gmap (Z * list Z) Z :=
  match a with
  | RmwUpdate v => <[(db, k) := v]> m
  | RmwDelete => delete (db, k) m
  | RmwAbort => m
  end.

(** The action on a slot that [begin] has just reserved. *)
Lemma rmw_new_spec d m c s db k ch a :
  table_inv (Some (c, s, db, k)) d -> represents d m ->
  zget (half_hashes_chunk d) (home d db k) = Some ch ->
  c <= home d db k + overflowed_chunks_counter ch ->
  exists d', rmw_finish a d (RmwStatus db k (zlen k) c s true 0) = Some d' /\
    table_inv None d' /\ represents d' (apply_action a db k m) /\ locks d' = locks d.
Proof.
  intros Hi Hm Hch Hw.
  destruct (inv_rsv _ _ _ Hi c s db k eq_refl) as (_ & _ & _ & (kv & Hkv & _) & Hnone).
  apply (represents_None d m db k Hm) in Hnone.
  destruct (clear_slot_reserved hash_fn d c s db k Hi) as (d1 & Hc1 & Hi1 & Hse & Hl1).
  destruct a as [v| |]; cbn [apply_action rmw_finish].
  - unfold hashtable_mcmp_op_rmw_commit_update, rmw_bucket. cbn.
    unfold kv_at in Hkv. rewrite Hkv. cbn [mbind option_bind].
    destruct (store_new_spec d m c s db k v kv ch Hi Hm Hch Hw) as [Hi2 Hm2].
    eexists. by split.
  - unfold hashtable_mcmp_op_rmw_commit_delete. cbn. rewrite Hc1. cbn. exists d1.
    rewrite delete_id by done. split_and!; try done. by rewrite <- Hse.
  - unfold hashtable_mcmp_op_rmw_abort. cbn. rewrite Hc1. exists d1.
    split_and!; try done. by rewrite <- Hse.
Qed.

(** The action on an entry that exists. *)
Lemma rmw_existing_spec d m c s db k v0 a :
  table_inv None d -> represents d m -> entry_at d c s db k v0 ->
  exists d', rmw_finish a d (RmwStatus db k (zlen k) c s false v0) = Some d' /\
    table_inv None d' /\ represents d' (apply_action a db k m) /\ locks d' = locks d.
Proof.
  intros Hi Hm He. pose proof He as [_ Hkv]. destruct a as [v| |]; cbn [apply_action rmw_finish].
  - unfold hashtable_mcmp_op_rmw_commit_update, rmw_bucket. cbn.
    destruct (store_existing_spec d m c s db k v0 v _ Hi Hm He Hkv) as [Hi2 Hm2].
    unfold kv_at in Hkv. rewrite Hkv. cbn [mbind option_bind]. eexists. by split.
  - unfold hashtable_mcmp_op_rmw_commit_delete, rmw_bucket. cbn.
    destruct (clear_entry_spec d m c s db k v0 Hi Hm He) as (d' & Hc & Hi' & Hm' & Hl').
    exists d'. by split_and!.
  - exists d. by split_and!.
Qed.

(** A slot that is taken, for no key. *)
Definition lost_slot d : Prop :=
  exists c s id kv, slot d c s = Some id /\ id <> 0 /\ kv_at d c s = Some kv /\ vacant kv.

Lemma no_lost_slot d : table_inv None d -> ~ lost_slot d.
Proof.
  intros Hi (c & s & id & kv & Hs & Hid & Hkv & _ & _ & Hk).
  destruct (inv_full _ _ _ Hi c s id Hs Hid) as [(db & k & v & Hf & _)|(? & ? & ?)]; [|done].
  rewrite Hkv in Hf. injection Hf as ->. done.
Qed.

Lemma reserved_slot d c s db k : table_inv (Some (c, s, db, k)) d -> lost_slot d.
Proof.
  intros Hi. destruct (inv_rsv _ _ _ Hi c s db k eq_refl) as (_ & Hs & Hd & (kv & Hkv & Hv) & _).
  eexists c, s, _, kv. split; [exact Hs|]. split; [|done]. apply slot_id_nonzero; [apply Hd|by apply quarter_nonneg].
Qed.

(** The state between [begin] and the commit: [current] is the value of the
    key, and any of the three ways to finish gives the table of the map the
    action stands for. *)
Record rmw_session d (m : gmap (Z * list Z) Z) (db : Z) (k : list Z) (st : rmw_status) (current : option Z)
    : Prop := {
  rs_current : current = m !! (db, k);
  rs_value : rmw_current_value st = default 0 current;
  rs_new : rmw_created_new st = bool_decide (current = None);
  rs_db : rmw_database_number st = db;
  rs_key : rmw_key st = k;
  rs_finish : forall a, exists d', rmw_finish a d st = Some d' /\ table_inv None d' /\
    represents d' (apply_action a db k m) /\ locks d' = locks d;
  rs_found : is_Some current -> table_inv None d /\ represents d m;
  rs_reserved : current = None -> lost_slot d
}.

Lemma rmw_begin_spec d tx m db k :
  table_inv None d -> represents d m -> good_key k -> solo (locks d) tx -> no_reads tx ->
  exists d' tx' r, hashtable_mcmp_op_rmw_begin hash_fn d tx db k (zlen k) = Some (d', tx', r) /\
    zlen (locks d') = zlen (locks d) /\ solo (locks d') tx' /\ no_reads tx' /\
    match r with
    | Some (st, current) => rmw_session d' m db k st current
    | None => table_inv None d' /\ represents d' m /\ m !! (db, k) = None /\
        SEARCH_MAX * CHUNK_SLOTS <= Z.of_nat (size m)
    end.
Proof.
  intros Hi Hm Hk Hs Hno. unfold hashtable_mcmp_op_rmw_begin, hashtable_mcmp_support_hash_calculate.
  destruct (Z.eqb_spec (tx_id tx) TRANSACTION_ID_NOT_ACQUIRED) as [Hz|_];
    [by destruct (proj1 (solo_held _ _ Hs))|].
  rewrite (assert_key_good k Hk). cbn [mbind option_bind].
  destruct (search_or_create_spec d tx db k Hi Hk Hs Hno) as (d1 & tx1 & r & -> & Hl & Hs1 & Hno1 & Hse & Hr).
  cbn [mbind option_bind]. rewrite Hse in Hm.
  destruct r as [[[|] c s]|]; cbn [created_new found_chunk_index found_chunk_slot_index].
  - destruct Hr as (Hi1 & ch & Hch & Hw).
    destruct (inv_rsv _ _ _ Hi1 c s db k eq_refl) as (_ & _ & _ & (kv & Hkv & _) & Hnone).
    unfold kv_at in Hkv. rewrite Hkv. cbn [mbind option_bind].
    eexists d1, tx1, (Some (_, None)). do 4 (split; [done|]). split; try done.
    + symmetry. by apply (represents_None d1 m db k Hm).
    + intros a. exact (rmw_new_spec d1 m c s db k ch a Hi1 Hm Hch Hw).
    + intros _. by eapply reserved_slot.
  - destruct Hr as (Hi1 & v0 & He). pose proof He as [_ Hkv]. unfold kv_at in Hkv. rewrite Hkv.
    cbn [mbind option_bind data filled].
    eexists d1, tx1, (Some (_, Some v0)). do 4 (split; [done|]). split; try done.
    + by rewrite (represents_Some d1 m c s db k v0 Hm He).
    + intros a. exact (rmw_existing_spec d1 m c s db k v0 a Hi1 Hm He).
  - destruct Hr as (Hi1 & Hnone & Hfull). exists d1, tx1, None. do 4 (split; [done|]). split_and!; [done|done| |].
    + by apply (represents_None d1 m db k Hm).
    + destruct (home_range hash_fn d1 db k (inv_shape _ _ _ Hi1)) as [Hh0 Hh].
      apply (window_full_size d1 m (home d1 db k)); try done. intros q Hq. split; [lia|by apply Hfull].
Qed.

Lemma rmw_spec d tx m db k f :
  table_inv None d -> represents d m -> good_key k -> solo (locks d) tx -> no_reads tx ->
  exists d' tx' r, run_rmw d tx db k f = Some (d', tx', r) /\
    zlen (locks d') = zlen (locks d) /\ solo (locks d') tx' /\ no_reads tx' /\ table_inv None d' /\
    match r with
    | Some current => current = m !! (db, k) /\ represents d' (apply_action (f current) db k m)
    | None => represents d' m /\ m !! (db, k) = None /\ SEARCH_MAX * CHUNK_SLOTS <= Z.of_nat (size m)
    end.
Proof.
  intros Hi Hm Hk Hs Hno. unfold run_rmw.
  destruct (rmw_begin_spec d tx m db k Hi Hm Hk Hs Hno) as (d1 & tx1 & r & -> & Hl & Hs1 & Hno1 & Hr).
  cbn [mbind option_bind]. destruct r as [[st current]|].
  - destruct (rs_finish _ _ _ _ _ _ Hr (f current)) as (d' & Hf & Hi' & Hm' & Hl').
    rewrite Hf. cbn [mbind option_bind]. exists d', tx1, (Some current). rewrite Hl'.
    split_and!; try done. exact (rs_current _ _ _ _ _ _ Hr).
  - destruct Hr as (? & ? & ? & ?). exists d1, tx1, None. by split_and!.
Qed.

(** A transaction that reads the home chunk of the key cannot start to modify
    the key: its own read lock stands in the way of the write lock. *)
Lemma rmw_begin_blocked d tx db k :
  shape d -> good_key k -> solo (locks d) tx -> has_write (locks_list tx) (home d db k) = false ->
  reads (locks_list tx) (home d db k) <> 0 ->
  hashtable_mcmp_op_rmw_begin hash_fn d tx db k (zlen k) = Some (d, tx, None).
Proof.
  intros Hsh Hk Hs Hw Hr. unfold hashtable_mcmp_op_rmw_begin, hashtable_mcmp_support_hash_calculate.
  destruct (Z.eqb_spec (tx_id tx) TRANSACTION_ID_NOT_ACQUIRED) as [Hz|Hz];
    [by destruct (proj1 (solo_held _ _ Hs))|].
  rewrite (assert_key_good k Hk). cbn [mbind option_bind].
  unfold hashtable_mcmp_support_op_search_key_or_create_new.
  rewrite (proj2 (Z.eqb_neq _ _) Hz). fold (home d db k).
  destruct (home_range hash_fn d db k Hsh) as [Hh0 Hh1].
  assert (0 <= home d db k < zlen (locks d)) as Hrange by (rewrite (sh_locks d Hsh); unfold SEARCH_MAX in *; lia).
  destruct (solo_lock _ _ _ Hs Hrange) as (l & Hl & Hrd & Hid).
  unfold write_lock_unless_owned. rewrite Hl. cbn [mbind option_bind].
  pose proof (has_write_owned _ _ _ _ Hs Hl) as Hown. rewrite Hw in Hid, Hown. rewrite Hown.
  change (transaction_lock_for_write d tx (home d db k)) with (lock_step d tx (OpLockWrite (home d db k))).
  rewrite lock_step_table. cbn [lock_step]. unfold transaction_lock_for_write. cbn [get_lock list_lock_store].
  rewrite Hl. cbn [mbind option_bind]. rewrite Hown.
  unfold transaction_rwspinlock_write_lock_internal, write_lock_spins, transaction_rwspinlock_try_write_lock_internal.
  rewrite Hrd, (proj2 (Z.eqb_neq _ _) Hr), andb_false_r. cbn. by rewrite with_locks_same.
Qed.

(** ** Commands: one transaction each *)

Inductive command :=
  | CmdSet (db : Z) (k : list Z) (v : Z)
  | CmdGet (db : Z) (k : list Z)
  | CmdDelete (db : Z) (k : list Z)
  | CmdRmw (db : Z) (k : list Z) (f : option Z -> rmw_action).

(** What the caller sees: [ReplyFailed] is the [false] of the C functions that
    create a slot, otherwise the value the key had. *)
Inductive reply := ReplyFailed | ReplyValue (v : option Z).

Definition command_key (c : command) : list Z :=
  match c with CmdSet _ k _ | CmdGet _ k | CmdDelete _ k | CmdRmw _ k _ => k end.

Definition run_op d (tx : transaction) (c : command)
    : option (hashtable_data * transaction * reply) :=
  match c with
  | CmdSet db k v =>
      '(d, tx, r) ← hashtable_mcmp_op_set hash_fn d tx db k (zlen k) v;
      Some (d, tx, match r with Some res => ReplyValue (previous_value res) | None => ReplyFailed end)
  | CmdGet db k =>
      '(d, tx, r) ← hashtable_mcmp_op_get hash_fn d tx db k (zlen k); Some (d, tx, ReplyValue r)
  | CmdDelete db k =>
      '(d, tx, r) ← hashtable_mcmp_op_delete hash_fn d tx db k (zlen k); Some (d, tx, ReplyValue r)
  | CmdRmw db k f =>
      '(d, tx, r) ← run_rmw d tx db k f;
      Some (d, tx, match r with Some current => ReplyValue current | None => ReplyFailed end)
  end.

(** [transaction_acquire], the operation, [transaction_release]. *)
Definition run_command (worker : Z) (st : hashtable_data * transaction_manager) (c : command)
    : option (hashtable_data * transaction_manager * reply) :=
  let '(d, mgr) := st in
  let '(mgr, tx) := transaction_acquire worker mgr in
  '(d, tx, r) ← run_op d tx c;
  '(d, _) ← transaction_release d tx;
  Some (d, mgr, r).

Fixpoint run_commands (worker : Z) (st : hashtable_data * transaction_manager) (cs : list command)
    : option (hashtable_data * transaction_manager * list reply) :=
  match cs with
  | [] => Some (st, [])
  | c :: cs =>
      '(st, r) ← run_command worker st c;
      '(st, rs) ← run_commands worker st cs;
      Some (st, r :: rs)
  end.

(** The specification: a finite map; an insertion may only be refused for a
    missing key when the map has at least 448 keys. *)
Inductive map_step : gmap (Z * list Z) Z -> command -> reply -> gmap (Z * list Z) Z -> Prop :=
  | map_set m db k v : map_step m (CmdSet db k v) (ReplyValue (m !! (db, k))) (<[(db, k) := v]> m)
  | map_get m db k : map_step m (CmdGet db k) (ReplyValue (m !! (db, k))) m
  | map_delete m db k : map_step m (CmdDelete db k) (ReplyValue (m !! (db, k))) (delete (db, k) m)
  | map_rmw m db k f : map_step m (CmdRmw db k f) (ReplyValue (m !! (db, k)))
      (apply_action (f (m !! (db, k))) db k m)
  | map_set_failed m db k v : m !! (db, k) = None -> 448 <= Z.of_nat (size m) ->
      map_step m (CmdSet db k v) ReplyFailed m
  | map_rmw_failed m db k f : m !! (db, k) = None -> 448 <= Z.of_nat (size m) ->
      map_step m (CmdRmw db k f) ReplyFailed m.

Inductive map_steps : gmap (Z * list Z) Z -> list command -> list reply -> gmap (Z * list Z) Z -> Prop :=
  | map_steps_nil m : map_steps m [] [] m
  | map_steps_cons m m' m'' c cs r rs :
      map_step m c r m' -> map_steps m' cs rs m'' -> map_steps m (c :: cs) (r :: rs) m''.

(** A table between two commands. *)
Record quiescent d (m : gmap (Z * list Z) Z) : Prop := {
  q_inv : table_inv None d;
  q_map : represents d m;
  q_unlocked : unlocked d
}.

Lemma unlock_quiescent d m :
  table_inv None d -> represents d m ->
  quiescent (with_locks d (replicate (length (locks d)) transaction_rwspinlock_init)) m.
Proof.
  intros Hi Hm. split; [|done|].
  - apply inv_with_locks; [done|]. by rewrite zlen_replicate.
  - unfold unlocked. cbn. by rewrite length_replicate.
Qed.

(** A new transaction has an id and no lock. *)
Lemma acquire_fresh worker mgr :
  in_u 16 (manager_worker worker mgr) ->
  exists mgr' tx, transaction_acquire worker mgr = (mgr', tx) /\ tx_id tx <> TRANSACTION_ID_NOT_ACQUIRED /\
    locks_list tx = [] /\ manager_worker worker mgr' = manager_worker worker mgr.
Proof.
  intros Hw. destruct (transaction_acquire_id worker mgr Hw) as (i & Hi & Hid & Hnz).
  eexists _, _. split; [apply surjective_pairing|]. split_and!.
  - rewrite Hid. unfold TRANSACTION_ID_NOT_ACQUIRED. mach_lia.
  - unfold transaction_acquire. by destruct (manager_inited mgr).
  - unfold transaction_acquire, manager_worker. by destruct (manager_inited mgr).
Qed.

Lemma run_op_spec d tx m c :
  quiescent d m -> good_key (command_key c) -> tx_id tx <> TRANSACTION_ID_NOT_ACQUIRED ->
  locks_list tx = [] ->
  exists d' tx' r m', run_op d tx c = Some (d', tx', r) /\ map_step m c r m' /\
    table_inv None d' /\ represents d' m' /\ solo (locks d') tx'.
Proof.
  intros [Hi Hm Hu] Hk Hid Hl. pose proof (solo_start d tx Hu Hid Hl) as Hs.
  assert (no_reads tx) as Hno by (intros r; rewrite Hl; done).
  assert (zlen (locks_list tx) + SEARCH_MAX < UINT16_MAX) as Hlen by (rewrite Hl; done).
  destruct c as [db k v|db k|db k|db k f]; cbn [command_key run_op] in *.
  - destruct (set_spec d tx m db k v Hi Hm Hk Hs Hno) as (d' & tx' & r & -> & _ & Hs' & _ & Hi' & Hr).
    cbn. destruct r as [res|].
    + destruct Hr as (Hm' & -> & _). eexists d', tx', _, _. split; [done|]. by split_and!; [constructor|..].
    + destruct Hr as (Hm' & ? & ?). exists d', tx', ReplyFailed, m. split; [done|]. by split_and!; [constructor|..].
  - destruct (get_spec_map d tx m db k Hi Hm Hk Hs Hlen) as (ls' & tx' & -> & Hls & Hs' & _). cbn.
    eexists (with_locks d ls'), tx', _, m. split; [done|]. split_and!; [constructor| |done..].
    by apply inv_with_locks.
  - destruct (delete_spec d tx m db k Hi Hm Hk Hs Hno Hlen) as (d' & tx' & -> & _ & Hs' & Hi' & Hm'). cbn.
    eexists d', tx', _, _. split; [done|]. by split_and!; [constructor|..].
  - destruct (rmw_spec d tx m db k f Hi Hm Hk Hs Hno) as (d' & tx' & r & -> & _ & Hs' & _ & Hi' & Hr).
    cbn. destruct r as [current|].
    + destruct Hr as [-> Hm']. eexists d', tx', _, _. split; [done|]. by split_and!; [constructor|..].
    + destruct Hr as (Hm' & ? & ?). exists d', tx', ReplyFailed, m. split; [done|]. by split_and!; [constructor|..].
Qed.

Lemma run_command_spec worker d mgr m c :
  quiescent d m -> good_key (command_key c) -> in_u 16 (manager_worker worker mgr) ->
  exists d' mgr' r m', run_command worker (d, mgr) c = Some (d', mgr', r) /\ map_step m c r m' /\
    quiescent d' m' /\ in_u 16 (manager_worker worker mgr').
Proof.
  intros Hq Hk Hw. unfold run_command.
  destruct (acquire_fresh worker mgr Hw) as (mgr' & tx & -> & Hid & Hl & Hmw).
  destruct (run_op_spec d tx m c Hq Hk Hid Hl) as (d1 & tx1 & r & m' & -> & Hst & Hi1 & Hm1 & Hs1).
  cbn [mbind option_bind]. destruct (release_solo d1 tx1 Hs1) as [tx' ->]. cbn [mbind option_bind].
  eexists _, mgr', r, m'. split; [done|]. split; [done|]. split; [by apply unlock_quiescent|].
  by rewrite Hmw.
Qed.

Lemma run_commands_spec worker cs : forall d mgr m,
  quiescent d m -> Forall (fun c => good_key (command_key c)) cs -> in_u 16 (manager_worker worker mgr) ->
  exists d' mgr' rs m', run_commands worker (d, mgr) cs = Some (d', mgr', rs) /\ map_steps m cs rs m' /\
    quiescent d' m'.
Proof.
  induction cs as [|c cs IH]; intros d mgr m Hq Hk Hw; cbn [run_commands].
  - exists d, mgr, [], m. split; [done|]. split; [constructor|done].
  - apply Forall_cons in Hk as [Hc Hcs].
    destruct (run_command_spec worker d mgr m c Hq Hc Hw) as (d1 & mgr1 & r & m1 & -> & Hst & Hq1 & Hw1).
    cbn [mbind option_bind].
    destruct (IH d1 mgr1 m1 Hq1 Hcs Hw1) as (d' & mgr' & rs & m' & -> & Hsts & Hq').
    cbn [mbind option_bind]. exists d', mgr', (r :: rs), m'. split; [done|]. split; [by econstructor|done].
Qed.

(** ** A new table is an empty map *)

Lemma init_quiescent n :
  1 <= n <= 2 ^ 63 -> exists d, hashtable_mcmp_init n = Some d /\ quiescent d ∅.
Proof.
  intros Hn. unfold hashtable_mcmp_init, hashtable_mcmp_data_init.
  destruct (Pow2.pow2_next_least n Hn) as (e & He & -> & Hle & _).
  rewrite Pow2.pow2_is_pow2 by lia. cbn [negb].
  assert (0 < 2 ^ e <= 2 ^ 63) as Hb.
  { split; [apply Z.pow_pos_nonneg; lia|apply Z.pow_le_mono_r; lia]. }
  set (b := 2 ^ e) in *. unfold SEARCH_MAX, CHUNK_SLOTS.
  assert (b - b `mod` 14 + 14 + 32 * 14 = (b / 14 + 33) * 14) as Hreal.
  { pose proof (Z.div_mod b 14 ltac:(lia)). lia. }
  rewrite Hreal. pose proof (Z.div_pos b 14 ltac:(lia) ltac:(lia)).
  pose proof (Z.mul_div_le b 14 ltac:(lia)).
  rewrite (wrap_small 64) by mach_lia. rewrite Z.div_mul by lia.
  eexists. split; [done|].
  set (d := HtData _ _ _ _ _ _).
  assert (forall c ch, zget (half_hashes_chunk d) c = Some ch -> ch = empty_chunk) as Hch.
  { intros c ch Hc. pose proof (zget_Some_range _ _ _ Hc) as Hr. cbn [half_hashes_chunk d] in *.
    rewrite zlen_replicate in Hr. rewrite zget_replicate in Hc by lia. by injection Hc as <-. }
  assert (forall c s id, slot d c s = Some id -> id = 0 /\ 0 <= c < b / 14 + 33 /\ 0 <= s < 14) as Hslot.
  { intros c s id. unfold slot. destruct (zget (half_hashes_chunk d) c) as [ch|] eqn:Hc; [|done].
    pose proof (zget_Some_range _ _ _ Hc) as Hr. rewrite (Hch c ch Hc). intros Hs.
    pose proof (zget_Some_range _ _ _ Hs) as Hsr. cbn [half_hashes empty_chunk] in Hs, Hsr.
    rewrite zlen_replicate in Hsr. rewrite zget_replicate in Hs by done.
    cbn [half_hashes_chunk d] in Hr. rewrite zlen_replicate in Hr. injection Hs as <-. lia. }
  assert (forall c s db k v, ~ entry_at d c s db k v) as Hnone.
  { intros c s db k v [(id & Hs & Hnz) _]. apply Hslot in Hs as [? _]. done. }
  split.
  - split.
    + split; cbn [d buckets_count chunks_count buckets_count_real locks half_hashes_chunk keys_values];
        rewrite ?zlen_replicate; try (unfold CHUNK_SLOTS; lia). exists e. split; [lia|done].
    + intros c ch Hc. rewrite (Hch c ch Hc). split; [done|cbn; unfold SEARCH_MAX; lia|done|done].
    + intros c s id Hs Hnz. by apply Hslot in Hs as [? _].
    + intros c s Hs. apply Hslot in Hs as (_ & Hc & Hs). exists empty_key_value. split.
      * unfold kv_at. cbn [keys_values d]. apply zget_replicate. unfold CHUNK_SLOTS. lia.
      * split_and!; [by left|done..].
    + done.
    + intros c s c' s' db k v v' Hx. by apply Hnone in Hx.
  - intros db k v. rewrite lookup_empty. split; [done|]. intros (c & s & Hx). by apply Hnone in Hx.
  - unfold unlocked. cbn [locks d]. by rewrite length_replicate.
Qed.

End table.

(** ** Properties *)

(** A toy hash for the witnesses: any function is allowed. *)
Definition toy_hash (db : Z) (k : list Z) : Z := fold_right (fun c h => (c + 31 * h) `mod` 2 ^ 64) db k.

(** C1: whatever commands one worker runs on a new table, each in its own
    transaction, no assert fails and no memory outside the table is touched,
    and the replies are those of a finite map from (database, key) to value,
    which the final table represents; an insertion may only be refused when the
    map already has 448 keys.  The hash function is arbitrary. *)
Theorem hashtable_refines_map (hash_fn : Z -> list Z -> Z) (n worker : Z) (mgr : transaction_manager)
    (cs : list command) :
  1 <= n <= 2 ^ 63 -> in_u 16 (manager_worker worker mgr) ->
  Forall (fun c => good_key (command_key c)) cs ->
  exists d0 d mgr' rs m,
    hashtable_mcmp_init n = Some d0 /\
    run_commands hash_fn worker (d0, mgr) cs = Some (d, mgr', rs) /\
    map_steps ∅ cs rs m /\ represents d m /\ unlocked d.
Proof.
  intros Hn Hw Hk. destruct (init_quiescent hash_fn n Hn) as (d0 & Hd0 & Hq0).
  destruct (run_commands_spec hash_fn worker cs d0 mgr ∅ Hq0 Hk Hw) as (d & mgr' & rs & m & Hr & Hst & [_ Hm Hu]).
  by exists d0, d, mgr', rs, m.
Qed.

Lemma hashtable_refines_map_witness :
  let cs := [CmdSet 0 [65] 7; CmdRmw 0 [66] (fun _ => RmwUpdate 9); CmdSet 1 [65] 8;
             CmdDelete 0 [65]; CmdGet 0 [65]; CmdGet 1 [65]] in
  exists d0 d mgr' rs m,
    hashtable_mcmp_init 8 = Some d0 /\
    run_commands toy_hash 0 (d0, Manager 0 0 true) cs = Some (d, mgr', rs) /\
    map_steps ∅ cs rs m /\ represents d m /\ unlocked d.
Proof.
  intros cs. apply (hashtable_refines_map toy_hash 8 0 (Manager 0 0 true) cs).
  - split; vm_compute; congruence.
  - split; vm_compute; congruence.
  - repeat constructor; vm_compute; congruence.
Defined.



(** Two different keys of the same length that agree up to a NUL byte are
    taken for the same key by the comparison of the search, which uses
    [strncmp] although keys are byte strings with a length. *)
Theorem search_aliases_embedded_nul (db v : Z) (p a b : list Z) :
  Forall (fun c => c <> 0) p -> length a = length b ->
  key_differs (filled db (p ++ 0 :: a) v) db (p ++ 0 :: b) (zlen (p ++ 0 :: b)) = Some false.
Proof.
  intros Hp Hl. unfold key_differs. cbn [key_length key database_number filled].
  assert (zlen (p ++ 0 :: a) = zlen (p ++ 0 :: b)) as Hz by (unfold zlen; rewrite !length_app; cbn; lia).
  rewrite Hz, Z.eqb_refl. cbn [negb]. rewrite Z.eqb_refl, orb_false_r. f_equal. apply negb_false_iff.
  unfold zlen. rewrite Nat2Z.id. clear Hz Hl.
  induction p as [|c p IH]; cbn [app length strncmp_eq]; [done|].
  apply Forall_cons in Hp as [Hc Hp]. rewrite Z.eqb_refl. rewrite (IH Hp). by rewrite orb_true_r.
Qed.

Lemma search_aliases_embedded_nul_witness :
  key_differs (filled 0 ([107] ++ 0 :: [97]) 1) 0 ([107] ++ 0 :: [98]) (zlen ([107] ++ 0 :: [98])) =
  Some false.
Proof.
  apply (search_aliases_embedded_nul 0 1 [107] [97] [98]).
  - repeat constructor; discriminate.
  - reflexivity.
Defined.

End HashtableMcmpRefine.
