(* ===== verification/HashtableMcmpIter.v ===== *)
(** * HashtableMcmpIter: iteration and access by bucket index

    hashtable_op_iter.c returns the next filled bucket from a bucket index on;
    hashtable_op_get_key.c and the [_by_index] operations read or delete the
    bucket it returned. *)

From Stdlib Require Import Sorted.
From stdpp Require Import gmap.
From S2P Require Import Prelude Pow2 Transaction HashtableMcmp HashtableMcmpLemmas HashtableMcmpSpec HashtableMcmpRefine.

Module HashtableMcmpIter.
Import Transaction HashtableMcmp HashtableMcmpLemmas HashtableMcmpSpec HashtableMcmpRefine.

Section table.
Context (hash_fn : Z -> list Z -> Z).
Implicit Types d : hashtable_data.

Local Abbreviation table_inv := (HashtableMcmpSpec.table_inv hash_fn).
Local Abbreviation quiescent := (HashtableMcmpRefine.quiescent hash_fn).

(** Slot [s] of chunk [c] has an entry of the wanted database. *)
Definition match_at d (all : bool) (db c s : Z) : Prop :=
  exists db' k v, entry_at d c s db' k v /\ (all = true \/ db' = db).

Lemma slot_entry d c s id :
  table_inv None d -> slot d c s = Some id -> id <> 0 -> exists db k v, entry_at d c s db k v.
Proof.
  intros Hi Hs Hnz. destruct (inv_full _ _ _ Hi c s id Hs Hnz) as [(db & k & v & Hkv & _)|(? & ? & ?)]; [|done].
  exists db, k, v. split; [by exists id|done].
Qed.

Lemma iter_slots_spec d ch all db c n : forall s,
  table_inv None d -> zget (half_hashes_chunk d) c = Some ch ->
  0 <= s -> s + Z.of_nat n = CHUNK_SLOTS ->
  exists r, iter_slots n d ch all db c s = Some r /\
    match r with
    | Some b => exists s', s <= s' < CHUNK_SLOTS /\ b = c * CHUNK_SLOTS + s' /\ match_at d all db c s' /\
        forall q, s <= q < s' -> ~ match_at d all db c q
    | None => forall q, s <= q < CHUNK_SLOTS -> ~ match_at d all db c q
    end.
Proof.
  induction n as [|n IH]; intros s Hi Hch Hs Hn; cbn [iter_slots].
  - exists None. split; [done|]. intros; lia.
  - pose proof (zget_Some_range _ _ _ Hch) as Hc. rewrite (sh_half _ (inv_shape _ _ _ Hi)) in Hc.
    pose proof (sh_real _ (inv_shape _ _ _ Hi)) as Hreal. unfold CHUNK_SLOTS in *.
    destruct (Z.ltb_spec (c * 14 + s) (buckets_count_real d)); [|nia]. cbn [guard_assert mbind option_bind].
    destruct (zget_in_range (half_hashes ch) s) as [id Hid].
    { rewrite (ck_len _ (inv_chunk _ _ _ Hi c ch Hch)). unfold CHUNK_SLOTS. lia. }
    rewrite Hid. cbn [mbind option_bind].
    assert (slot d c s = Some id) as Hslot by (unfold slot; by rewrite Hch).
    assert (~ match_at d all db c s -> exists r, iter_slots n d ch all db c (s + 1) = Some r /\
      match r with
      | Some b => exists s', s <= s' < 14 /\ b = c * 14 + s' /\ match_at d all db c s' /\
          forall q, s <= q < s' -> ~ match_at d all db c q
      | None => forall q, s <= q < 14 -> ~ match_at d all db c q
      end) as Hnext.
    { intros Hno. destruct (IH (s + 1) Hi Hch ltac:(lia) ltac:(lia)) as (r & Heq & Hr).
      exists r. split; [done|]. destruct r as [b|].
      - destruct Hr as (s' & Hs' & -> & Hm & Hq). exists s'. split_and!; try (done || lia).
        intros q Hq'. destruct (decide (q = s)) as [->|]; [done|]. apply Hq. lia.
      - intros q Hq. destruct (decide (q = s)) as [->|]; [done|]. apply Hr. lia. }
    destruct (Z.eqb_spec id 0) as [->|Hnz].
    { apply Hnext. intros (db' & k & v & [(id & Hs' & Hnz) _] & _). congruence. }
    destruct (slot_entry d c s id Hi Hslot Hnz) as (db' & k & v & He). pose proof He as [_ Hkv].
    unfold kv_at, CHUNK_SLOTS in Hkv. rewrite Hkv. cbn [mbind option_bind].
    change (KEY_VALUE_IS_EMPTY (flags (filled db' k v)) || KEY_VALUE_HAS_FLAG (flags (filled db' k v)) FLAG_DELETED)
      with false.
    cbn [database_number filled].
    destruct (negb all && negb (db' =? db)) eqn:Hf.
    + apply Hnext. intros (db2 & k2 & v2 & [_ Hkv2] & Hor).
      unfold kv_at, CHUNK_SLOTS in Hkv2. rewrite Hkv in Hkv2. apply filled_inj in Hkv2 as (<- & _).
      apply andb_true_iff in Hf as [Ha Hdb]. apply negb_true_iff in Ha, Hdb. apply Z.eqb_neq in Hdb.
      destruct Hor; congruence.
    + exists (Some (c * 14 + s)). split; [done|]. exists s. split_and!; try (done || lia).
      exists db', k, v. split; [done|]. apply andb_false_iff in Hf as [Ha|Hdb].
      * left. by apply negb_false_iff.
      * right. by apply negb_false_iff, Z.eqb_eq in Hdb.
Qed.

(** The position of a bucket, and "before" in iteration order. *)
Lemma iter_chunks_spec d all db max_distance n : forall c s distance,
  table_inv None d -> 0 <= c -> 0 <= s < CHUNK_SLOTS -> c + Z.of_nat n = chunks_count d ->
  0 <= distance -> distance + CHUNK_SLOTS * Z.of_nat n < max_distance < 2 ^ 64 ->
  exists r, iter_chunks n d all db c s distance max_distance = Some r /\
    ((r = OP_ITER_END /\
      forall c' s', c * CHUNK_SLOTS + s <= c' * CHUNK_SLOTS + s' -> ~ match_at d all db c' s') \/
     (exists c' s', r = c' * CHUNK_SLOTS + s' /\ c * CHUNK_SLOTS + s <= r /\ match_at d all db c' s' /\
      forall c2 s2, c * CHUNK_SLOTS + s <= c2 * CHUNK_SLOTS + s2 < r -> ~ match_at d all db c2 s2)).
Proof.
  intros c s distance Hi. revert c s distance.
  assert (forall c s, match_at d all db c s -> 0 <= c < chunks_count d /\ 0 <= s < 14) as Hrange.
  { intros c s (db' & k & v & He & _). by eapply entry_in_table. }
  unfold CHUNK_SLOTS in *.
  induction n as [|n IH]; intros c s distance Hc Hs Hn Hd Hmax; cbn [iter_chunks].
  - exists OP_ITER_END. split; [done|]. left. split; [done|]. intros c' s' Hle Hm. apply Hrange in Hm. lia.
  - destruct (zget_in_range (half_hashes_chunk d) c) as [ch Hch].
    { rewrite (sh_half _ (inv_shape _ _ _ Hi)). lia. }
    rewrite Hch. cbn [mbind option_bind].
    destruct (Z.leb_spec max_distance distance); [lia|]. unfold CHUNK_SLOTS.
    assert (forall dist', 0 <= dist' -> dist' <= distance + 14 ->
      (forall s', s <= s' < 14 -> ~ match_at d all db c s') ->
      exists r, iter_chunks n d all db (c + 1) 0 dist' max_distance = Some r /\
       ((r = OP_ITER_END /\
         forall c' s', c * 14 + s <= c' * 14 + s' -> ~ match_at d all db c' s') \/
        (exists c' s', r = c' * 14 + s' /\ c * 14 + s <= r /\ match_at d all db c' s' /\
         forall c2 s2, c * 14 + s <= c2 * 14 + s2 < r -> ~ match_at d all db c2 s2))) as Hnext.
    { intros dist' Hd0 Hd' Hno. destruct (IH (c + 1) 0 dist') as (r & Heq & Hr); try lia.
      assert (forall c' s', c * 14 + s <= c' * 14 + s' -> match_at d all db c' s' ->
                (c + 1) * 14 + 0 <= c' * 14 + s') as Hskip.
      { intros c' s' Hle Hm. pose proof (Hrange c' s' Hm). destruct (decide (c' = c)) as [->|]; [|lia].
        exfalso. apply (Hno s'); [lia|done]. }
      exists r. split; [done|]. destruct Hr as [[-> Hr]|(c' & s' & Hr & Hle & Hm & Hb)].
      - left. split; [done|]. intros c' s' Hle Hm. apply (Hr c' s'); [|done]. by apply Hskip.
      - right. exists c', s'. split_and!; try (done || lia). intros c2 s2 Hlt Hm2.
        pose proof (Hskip c2 s2 ltac:(lia) Hm2). apply (Hb c2 s2); [lia|done]. }
    destruct (Z.eqb_spec (slots_occupied ch) 0) as [Hz|Hz].
    + rewrite (wrap_small 64) by mach_lia. apply Hnext; [lia..|].
      intros s' Hs' (db' & k & v & He & _). by eapply no_entry_in_empty_chunk.
    + destruct (iter_slots_spec d ch all db c (Z.to_nat (14 - s)) s Hi Hch) as (r & -> & Hr);
        [lia|unfold CHUNK_SLOTS; lia|]. cbn [mbind option_bind]. unfold CHUNK_SLOTS in Hr.
      destruct r as [b|].
      * destruct Hr as (s' & Hs' & -> & Hm & Hb). exists (c * 14 + s'). split; [done|]. right.
        exists c, s'. split_and!; try (done || lia). intros c2 s2 Hlt Hm2.
        pose proof (Hrange c2 s2 Hm2). assert (c2 = c) as -> by lia. apply (Hb s2); [lia|done].
      * rewrite (wrap_small 64) by mach_lia. apply Hnext; [lia..|]. done.
Qed.

(** ** Following the iteration to its end *)

(** The loop of the callers: resume after the bucket just returned. *)
Fixpoint iterate (fuel : nat) d (all : bool) (db b : Z) : option (list Z) :=
  r ← hashtable_mcmp_op_iter_internal d all db b (2 ^ 64 - 1);
  if r =? OP_ITER_END then Some [] else
  match fuel with
  | O => None
  | S fuel => rest ← iterate fuel d all db (r + 1); Some (r :: rest)
  end.

Definition match_bucket d (all : bool) (db b : Z) : Prop :=
  match_at d all db (b / CHUNK_SLOTS) (b `mod` CHUNK_SLOTS).

Lemma match_at_bucket d all db c s :
  table_inv None d -> match_at d all db c s -> match_bucket d all db (c * CHUNK_SLOTS + s).
Proof.
  intros Hi Hm. assert (0 <= s < 14) as Hs.
  { destruct Hm as (db' & k & v & He & _). by eapply entry_in_table in He as [_ ?]. }
  unfold match_bucket, CHUNK_SLOTS.
  assert ((c * 14 + s) / 14 = c) as -> by (rewrite Z.div_add_l by lia; rewrite Z.div_small; lia).
  assert ((c * 14 + s) `mod` 14 = s) as ->; [|done].
  rewrite Z.add_comm, Z_mod_plus_full. apply Z.mod_small. lia.
Qed.

Lemma iter_internal_spec d all db b :
  table_inv None d -> chunks_count d * CHUNK_SLOTS < 2 ^ 64 - 1 ->
  0 <= b <= chunks_count d * CHUNK_SLOTS ->
  exists r, hashtable_mcmp_op_iter_internal d all db b (2 ^ 64 - 1) = Some r /\
    ((r = OP_ITER_END /\ forall q, b <= q -> ~ match_bucket d all db q) \/
     (b <= r < chunks_count d * CHUNK_SLOTS /\ match_bucket d all db r /\
      forall q, b <= q < r -> ~ match_bucket d all db q)).
Proof.
  intros Hi Hmax Hb. unfold hashtable_mcmp_op_iter_internal.
  pose proof (Z.div_mod b CHUNK_SLOTS ltac:(done)) as Hdm.
  pose proof (Z.mod_pos_bound b CHUNK_SLOTS ltac:(done)) as Hmod.
  assert (0 <= b / CHUNK_SLOTS <= chunks_count d) as Hdiv.
  { split; [apply Z.div_pos; [lia|done]|]. apply Z.div_le_upper_bound; [done|]. lia. }
  destruct (iter_chunks_spec d all db (2 ^ 64 - 1) (Z.to_nat (chunks_count d - b / CHUNK_SLOTS))
    (b / CHUNK_SLOTS) (b `mod` CHUNK_SLOTS) 0 Hi) as (r & -> & Hr); [lia|lia|lia|lia| |].
  { rewrite Z2Nat.id by lia. split; [|lia]. unfold CHUNK_SLOTS in *. lia. }
  replace (b / CHUNK_SLOTS * CHUNK_SLOTS + b `mod` CHUNK_SLOTS) with b in Hr by lia.
  exists r. split; [done|].
  assert (forall q, q = q / CHUNK_SLOTS * CHUNK_SLOTS + q `mod` CHUNK_SLOTS) as Hq.
  { intros q. pose proof (Z.div_mod q CHUNK_SLOTS ltac:(done)). lia. }
  destruct Hr as [[-> Hr]|(c & s & Heq & Hle & Hm & Hbf)].
  - left. split; [done|]. intros q Hle. apply Hr. rewrite <- Hq. lia.
  - right. split_and!.
    + done.
    + destruct Hm as (db' & k & v & He & _). apply (entry_in_table hash_fn) in He; [|done].
      rewrite Heq. unfold CHUNK_SLOTS in *. lia.
    + rewrite Heq. by apply match_at_bucket.
    + intros q Hlt. apply Hbf. by rewrite <- Hq.
Qed.

Lemma match_bucket_range d all db b :
  table_inv None d -> match_bucket d all db b -> 0 <= b < chunks_count d * CHUNK_SLOTS.
Proof.
  intros Hi (db' & k & v & He & _). apply (entry_in_table hash_fn) in He; [|done].
  pose proof (Z.div_mod b CHUNK_SLOTS ltac:(done)). unfold CHUNK_SLOTS in *. lia.
Qed.

Lemma iterate_spec d all db fuel : forall b,
  table_inv None d -> chunks_count d * CHUNK_SLOTS < 2 ^ 64 - 1 ->
  0 <= b <= chunks_count d * CHUNK_SLOTS -> chunks_count d * CHUNK_SLOTS <= b + Z.of_nat fuel ->
  exists l, iterate fuel d all db b = Some l /\ StronglySorted Z.lt l /\
    forall q, q ∈ l <-> b <= q /\ match_bucket d all db q.
Proof.
  induction fuel as [|fuel IH]; intros b Hi Hmax Hb Hf; cbn [iterate];
    destruct (iter_internal_spec d all db b Hi Hmax Hb) as (r & -> & Hr); cbn [mbind option_bind];
    destruct Hr as [[-> Hr]|(Hle & Hm & Hbf)].
  - exists []. split; [done|]. split; [constructor|]. intros q. rewrite elem_of_nil. naive_solver.
  - lia.
  - rewrite Z.eqb_refl. exists []. split; [done|]. split; [constructor|].
    intros q. rewrite elem_of_nil. naive_solver.
  - destruct (Z.eqb_spec r OP_ITER_END) as [->|_]; [unfold OP_ITER_END in *; lia|].
    destruct (IH (r + 1) Hi Hmax ltac:(lia) ltac:(lia)) as (l & -> & Hsort & Hl). cbn [mbind option_bind].
    exists (r :: l). split; [done|]. split.
    + constructor; [done|]. apply List.Forall_forall. intros q Hq%list_elem_of_In%Hl. lia.
    + intros q. rewrite elem_of_cons, Hl. split.
      * intros [->|[? ?]]; split; (lia || done).
      * intros [Hq Hmq]. destruct (decide (q = r)) as [->|]; [by left|]. right. split; [|done].
        destruct (decide (q < r)); [|lia]. exfalso. apply (Hbf q); [lia|done].
Qed.

(** ** Reading and deleting the bucket *)

Lemma get_key_spec d tx c s db k v :
  table_inv None d -> solo (locks d) tx -> zlen (locks_list tx) < UINT16_MAX ->
  entry_at d c s db k v ->
  exists ls' tx', hashtable_mcmp_op_get_key d db tx (c * CHUNK_SLOTS + s) = Some (with_locks d ls', tx', Some k) /\
    zlen ls' = zlen (locks d) /\ solo ls' tx'.
Proof.
  intros Hi Hs Hlen He. destruct (entry_in_table hash_fn d c s db k v Hi He) as [Hc Hsr].
  destruct (entry_slot_id hash_fn d c s db k v Hi He) as (ch & Hch & Hid & _).
  unfold hashtable_mcmp_op_get_key.
  assert ((c * CHUNK_SLOTS + s) / CHUNK_SLOTS = c) as Hdiv.
  { unfold CHUNK_SLOTS in *. rewrite Z.div_add_l by lia. rewrite Z.div_small; lia. }
  assert ((c * CHUNK_SLOTS + s) `mod` CHUNK_SLOTS = s) as Hmod.
  { unfold CHUNK_SLOTS in *. rewrite Z.add_comm, Z_mod_plus_full. apply Z.mod_small. lia. }
  rewrite Hdiv, Hmod.
  destruct (read_lock_spec d tx c Hs) as (ls1 & tx1 & -> & Hl1 & Hs1 & _);
    [rewrite (sh_locks _ (inv_shape _ _ _ Hi)); done|done|].
  cbn [mbind option_bind negb half_hashes_chunk keys_values with_locks]. rewrite Hch. cbn [mbind option_bind].
  rewrite Hid. cbn [mbind option_bind]. pose proof He as [Hnz Hkv]. unfold kv_at in Hkv. rewrite Hkv.
  cbn [mbind option_bind]. cbn [database_number filled flags]. rewrite Z.eqb_refl.
  change (KEY_VALUE_IS_EMPTY FLAG_FILLED || KEY_VALUE_HAS_FLAG FLAG_FILLED FLAG_DELETED || negb true) with false.
  cbv iota. unfold copy_key. rewrite Hdiv, Hmod. cbn [keys_values half_hashes_chunk with_locks]. rewrite Hkv.
  cbn [mbind option_bind key key_length filled].
  assert (good_key k) as [Hk _].
  { destruct Hnz as (id & Hs2 & Hnz).
    destruct (inv_full _ _ _ Hi c s id Hs2 Hnz) as [(db' & k' & v' & Hkv' & Hg & _)|(? & ? & ?)]; [|done].
    unfold kv_at in Hkv'. rewrite Hkv in Hkv'. by apply filled_inj in Hkv' as (_ & -> & _). }
  destruct (Z.ltb_spec 0 (zlen k)); [|lia]. cbn [guard_assert mbind option_bind].
  rewrite Hch. cbn [mbind option_bind]. rewrite Hid. cbn [mbind option_bind]. rewrite !Z.eqb_refl.
  cbn [negb orb flags filled]. exists ls1, tx1. split; [|done].
  change (KEY_VALUE_IS_EMPTY FLAG_FILLED || KEY_VALUE_HAS_FLAG FLAG_FILLED FLAG_DELETED || false) with false.
  cbv iota. do 3 f_equal. apply take_ge. unfold zlen. lia.
Qed.

Lemma bucket_split b : b = b / CHUNK_SLOTS * CHUNK_SLOTS + b `mod` CHUNK_SLOTS.
Proof. pose proof (Z.div_mod b CHUNK_SLOTS ltac:(done)). lia. Qed.

Lemma shape_real_bound d : shape d -> chunks_count d * CHUNK_SLOTS < 2 ^ 64 - 1.
Proof.
  intros [(e & He & Hb) Hc _ _ _ _]. rewrite Hc, Hb. unfold CHUNK_SLOTS.
  assert (0 < 2 ^ e <= 2 ^ 63).
  { split; [apply Z.pow_pos_nonneg; lia|apply Z.pow_le_mono_r; lia]. }
  pose proof (Z.mul_div_le (2 ^ e) 14 ltac:(lia)). set (x := 2 ^ e) in *. mach_lia.
Qed.

Lemma iteration_keys d m db tx :
  quiescent d m -> tx_id tx <> TRANSACTION_ID_NOT_ACQUIRED -> locks_list tx = [] ->
  exists l, iterate (Z.to_nat (buckets_count_real d)) d false db 0 = Some l /\ StronglySorted Z.lt l /\
    forall k, is_Some (m !! (db, k)) <->
      exists b ls' tx', b ∈ l /\ hashtable_mcmp_op_get_key d db tx b = Some (with_locks d ls', tx', Some k).
Proof.
  intros [Hi Hm Hu] Hid Hl. pose proof (solo_start d tx Hu Hid Hl) as Hs.
  assert (zlen (locks_list tx) < UINT16_MAX) as Hlen by (rewrite Hl; done).
  pose proof (inv_shape _ _ _ Hi) as Hsh. pose proof (shape_real_bound d Hsh) as Hmax.
  assert (0 <= chunks_count d * CHUNK_SLOTS) as Hpos.
  { rewrite <- (sh_real _ Hsh), <- (sh_kvs _ Hsh). apply zlen_nonneg. }
  destruct (iterate_spec d false db (Z.to_nat (buckets_count_real d)) 0 Hi Hmax) as (l & Hit & Hsort & Hin);
    [lia|rewrite (sh_real _ Hsh); lia|].
  exists l. split_and!; try done. intros k. split.
  - intros [v (c & s & He)%Hm].
    destruct (get_key_spec d tx c s db k v Hi Hs Hlen He) as (ls' & tx' & Hg & _).
    exists (c * CHUNK_SLOTS + s), ls', tx'. split; [|done]. apply Hin.
    assert (match_bucket d false db (c * CHUNK_SLOTS + s)) as Hmb.
    { apply match_at_bucket; [done|]. exists db, k, v. split; [done|by right]. }
    split; [|done]. by apply match_bucket_range in Hmb as [? _].
  - intros (b & ls' & tx' & [_ (db' & k' & v & He & Hor)]%Hin & Hg).
    destruct Hor as [| ->]; [done|].
    destruct (get_key_spec d tx _ _ db k' v Hi Hs Hlen He) as (ls2 & tx2 & Hg2 & _).
    rewrite <- bucket_split, Hg in Hg2. injection Hg2 as _ _ <-.
    exists v. apply Hm. eauto.
Qed.

End table.

(** ** Properties *)

(** C5: following the iteration of one database from bucket 0 to its end
    terminates, visits buckets in strictly increasing order, and reading the
    key of every bucket it returned yields exactly the keys of that database,
    after any sequence of commands. *)
Theorem hashtable_iteration_enumerates_keys (hash_fn : Z -> list Z -> Z) (n worker : Z)
    (mgr : transaction_manager) (cs : list command) (db : Z) (tx : transaction) :
  1 <= n <= 2 ^ 63 -> in_u 16 (manager_worker worker mgr) ->
  Forall (fun c => good_key (command_key c)) cs ->
  tx_id tx <> TRANSACTION_ID_NOT_ACQUIRED -> locks_list tx = [] ->
  exists d0 d mgr' rs m l,
    hashtable_mcmp_init n = Some d0 /\
    run_commands hash_fn worker (d0, mgr) cs = Some (d, mgr', rs) /\
    map_steps ∅ cs rs m /\
    iterate (Z.to_nat (buckets_count_real d)) d false db 0 = Some l /\ StronglySorted Z.lt l /\
    forall k, is_Some (m !! (db, k)) <->
      exists b ls' tx', b ∈ l /\ hashtable_mcmp_op_get_key d db tx b = Some (with_locks d ls', tx', Some k).
Proof.
  intros Hn Hw Hk Hid Hl. destruct (init_quiescent hash_fn n Hn) as (d0 & Hd0 & Hq0).
  destruct (run_commands_spec hash_fn worker cs d0 mgr ∅ Hq0 Hk Hw) as (d & mgr' & rs & m & Hr & Hst & Hq).
  destruct (iteration_keys hash_fn d m db tx Hq Hid Hl) as (l & Hit & Hsort & Hin).
  by exists d0, d, mgr', rs, m, l.
Qed.

Lemma hashtable_iteration_enumerates_keys_witness :
  let cs := [CmdSet 0 [65] 7; CmdSet 1 [66] 8; CmdSet 0 [67] 9] in
  exists d0 d mgr' rs m l,
    hashtable_mcmp_init 8 = Some d0 /\
    run_commands toy_hash 0 (d0, Manager 0 0 true) cs = Some (d, mgr', rs) /\
    map_steps ∅ cs rs m /\
    iterate (Z.to_nat (buckets_count_real d)) d false 0 0 = Some l /\ StronglySorted Z.lt l /\
    forall k, is_Some (m !! (0, k)) <->
      exists b ls' tx', b ∈ l /\
        hashtable_mcmp_op_get_key d 0 (Tx 9 0 2 []) b = Some (with_locks d ls', tx', Some k).
Proof.
  intros cs. apply (hashtable_iteration_enumerates_keys toy_hash 8 0 (Manager 0 0 true) cs 0 (Tx 9 0 2 [])).
  - split; vm_compute; congruence.
  - split; vm_compute; congruence.
  - repeat constructor; vm_compute; congruence.
  - vm_compute. congruence.
  - reflexivity.
Defined.

(** The [max_distance] of the bounded iterations is not a bound on the
    slots examined: scanning occupied chunks does not advance the distance, so
    with a distance of one slot the search still returns an entry two chunks
    (28 buckets) further on when the chunks in between hold keys of another
    database. *)
Theorem hashtable_iter_max_distance_ignored :
  exists d, hashtable_mcmp_op_iter_internal d false 1 0 1 = Some 28 /\
    forall b, 0 <= b < 28 -> is_Some (zget (keys_values d) b) /\
      (fun kv => database_number kv) <$> zget (keys_values d) b <> Some 1.
Proof.
  exists (HtData 1 42 3 (replicate 3 transaction_rwspinlock_init)
    (replicate 3 (Chunk 0 14 true (replicate 14 1)))
    (replicate 28 (KeyValue FLAG_FILLED 0 1 (Some [65]) 0) ++
     replicate 14 (KeyValue FLAG_FILLED 1 1 (Some [66]) 0))).
  split; [reflexivity|]. intros b Hb. unfold zget. cbn [keys_values].
  destruct (Z.ltb_spec b 0); [lia|].
  rewrite lookup_app_l by (rewrite length_replicate; lia).
  rewrite lookup_replicate_2 by lia. split; [by eexists|]. cbn. congruence.
Qed.

End HashtableMcmpIter.
