(* ===== verification/HashtableSpsc.v ===== *)
(** * HashtableSpsc: the open-addressing hashtable of one thread

    data_structures/hashtable/spsc and hash/hash_fnv1.h.  The table maps
    command names, tokens, configuration names and database numbers to
    pointers.  A bucket is probed linearly from the index given by the hash,
    over [max_range] buckets; the table has [max_range] buckets more than the
    power of two that the hash is reduced to, so that a probe needs no wrap.

    Keys are looked up in four ways (case insensitive, case sensitive, by a
    given hash, by a 32-bit integer): the class [SpscKey] states what the
    proofs need of each, and the refinement is proved once against it.
    Reading outside the arrays, a failed assertion, [FATAL] and reading the
    wrong member of the key union are [None]. *)

From stdpp Require Import gmap.
From S2P Require Import Prelude Pow2.

Module HashtableSpsc.

(** ** hash_fnv1.h *)

Definition FNV1_32_INIT : Z := 0x811c9dc5.

Definition fnv_mix (hval c : Z) : Z :=
  let hval := u32 (hval + (u32 (Z.shiftl hval 1) + u32 (Z.shiftl hval 4) + u32 (Z.shiftl hval 7)
                 + u32 (Z.shiftl hval 8) + u32 (Z.shiftl hval 24))) in
  Z.lxor hval (u32 c).

Fixpoint fnv_32_hash_internal (buf : list Z) (len : nat) (hval : Z) : option Z :=
  match len, buf with
  | O, _ => Some hval
  | S _, [] => None
  | S len, b :: buf => fnv_32_hash_internal buf len (fnv_mix hval (schar b))
  end.

Definition fnv_lower (c : Z) : Z :=
  if (65 <=? c) && (c <=? 90) then i8 (Z.lor c 32) else c.

Fixpoint fnv_32_hash_ci_internal (buf : list Z) (len : nat) (hval : Z) : option Z :=
  match len, buf with
  | O, _ => Some hval
  | S _, [] => None
  | S len, b :: buf => fnv_32_hash_ci_internal buf len (fnv_mix hval (fnv_lower (schar b)))
  end.

Definition fnv_32_hash (buf : list Z) (len : Z) : option Z :=
  fnv_32_hash_internal buf (Z.to_nat len) FNV1_32_INIT.
Definition fnv_32_hash_ci (buf : list Z) (len : Z) : option Z :=
  fnv_32_hash_ci_internal buf (Z.to_nat len) FNV1_32_INIT.

(** ** String comparison

    [strncmp] and [strncasecmp] (C locale): equality of the first [n] bytes, up
    to a NUL byte that both strings have; [None] when a string is read past
    its memory. *)
Fixpoint strn_eq (norm : Z -> Z) (a b : list Z) (n : nat) : option bool :=
  match n, a, b with
  | O, _, _ => Some true
  | S n, x :: a, y :: b =>
      if norm x =? norm y
      then if x =? 0 then Some true else strn_eq norm a b n
      else Some false
  | S _, _, _ => None
  end.

Definition tolower (b : Z) : Z := if (65 <=? b) && (b <=? 90) then b + 32 else b.

(** ** Data *)

Inductive bucket_key := KeyPtr (bytes : list Z) | KeyU32 (z : Z).

Record hashtable_spsc_bucket := Bucket {
  key_length : Z;
  key : bucket_key;
  value : Z
}.

Record hashtable_spsc_hash := Hash { is_set : bool; cmp_hash : Z }.

Record hashtable_spsc := Spsc {
  buckets_count : Z;
  buckets_count_pow2 : Z;
  buckets_count_real : Z;
  max_range : Z;
  free_keys_on_deallocation : bool;
  hashes : list hashtable_spsc_hash;
  buckets : list hashtable_spsc_bucket
}.

Definition HASHTABLE_SPSC_HASH (hash : Z) : Z := Z.land hash 0x7FFFFFFF.

Definition set_hash (ht : hashtable_spsc) (i : Z) (h : hashtable_spsc_hash) : hashtable_spsc :=
  Spsc (buckets_count ht) (buckets_count_pow2 ht) (buckets_count_real ht) (max_range ht)
    (free_keys_on_deallocation ht) (zset (hashes ht) i h) (buckets ht).

Definition set_bucket (ht : hashtable_spsc) (i : Z) (b : hashtable_spsc_bucket) : hashtable_spsc :=
  Spsc (buckets_count ht) (buckets_count_pow2 ht) (buckets_count_real ht) (max_range ht)
    (free_keys_on_deallocation ht) (hashes ht) (zset (buckets ht) i b).

Definition set_free_keys (ht : hashtable_spsc) (f : bool) : hashtable_spsc :=
  Spsc (buckets_count ht) (buckets_count_pow2 ht) (buckets_count_real ht) (max_range ht)
    f (hashes ht) (buckets ht).

Definition guard_spsc (b : bool) : option unit := if b then Some tt else None.

(** ** Creation and destruction *)

Definition hashtable_spsc_new (count range : Z) (free_keys : bool) : option hashtable_spsc :=
  _ ← guard_spsc (0 <? count);
  _ ← guard_spsc (0 <? range);
  _ ← guard_spsc (count <? 2 ^ 32 - 1);
  let pow2 := u32 (Pow2.pow2_next count) in
  let real := u32 (pow2 + range) in
  _ ← guard_spsc (count <=? pow2);
  _ ← guard_spsc (pow2 <=? real);
  Some (Spsc count pow2 real range free_keys
    (replicate (Z.to_nat real) (Hash false 0))
    (replicate (Z.to_nat real) (Bucket 0 (KeyU32 0) 0))).

(** The loop of [hashtable_spsc_free]: the keys passed to [xalloc_free]. *)
Fixpoint free_keys_loop (ht : hashtable_spsc) (n : nat) (i : Z) : option (list bucket_key) :=
  match n with
  | O => Some []
  | S n =>
      h ← zget (hashes ht) i;
      if negb (is_set h) then free_keys_loop ht n (i + 1) else
      b ← zget (buckets ht) i;
      ks ← free_keys_loop ht n (i + 1);
      Some (key b :: ks)
  end.

Definition hashtable_spsc_free (ht : hashtable_spsc) : option (list bucket_key) :=
  if free_keys_on_deallocation ht
  then free_keys_loop ht (Z.to_nat (buckets_count_real ht)) 0
  else Some [].

(** ** Probing *)

Definition hashtable_spsc_bucket_index_from_hash (ht : hashtable_spsc) (hash : Z) : Z :=
  Z.land hash (u32 (buckets_count_pow2 ht - 1)).

(** [do ... while (++bucket_index < bucket_index_max)]: one bucket is always
    examined; [bucket_index_max - bucket_index] iterations, or one, suffice. *)
Fixpoint probe (wanted : bool) (ht : hashtable_spsc) (fuel : nat) (i max : Z) : option Z :=
  match fuel with
  | O => None
  | S fuel =>
      h ← zget (hashes ht) i;
      if Bool.eqb (is_set h) wanted then Some i else
      let i := u32 (i + 1) in
      if i <? max then probe wanted ht fuel i max else Some (-1)
  end.

Definition hashtable_spsc_find_empty_bucket (ht : hashtable_spsc) (i max : Z) : option Z :=
  probe false ht (S (Z.to_nat (max - i))) i max.
Definition hashtable_spsc_find_set_bucket (ht : hashtable_spsc) (i max : Z) : option Z :=
  probe true ht (S (Z.to_nat (max - i))) i max.

(** The outer [do ... while (++bucket_index)] of the three searches, which
    differ in the test of the key; every iteration advances the index, so
    [buckets_count_real] iterations suffice. *)
Fixpoint find_loop (ht : hashtable_spsc) (matches : hashtable_spsc_bucket -> option bool)
    (ch : Z) (fuel : nat) (i max : Z) : option Z :=
  match fuel with
  | O => None
  | S fuel =>
      i ← hashtable_spsc_find_set_bucket ht (u32 i) max;
      if i =? -1 then Some (-1) else
      h ← zget (hashes ht) i;
      same ← (if negb (cmp_hash h =? ch) then Some false
              else b ← zget (buckets ht) i; matches b);
      if (same : bool) then Some i else
      let i := i + 1 in
      if i =? 0 then Some (-1) else find_loop ht matches ch fuel i max
  end.

Definition find_bucket_index (ht : hashtable_spsc) (hash : Z)
    (matches : hashtable_spsc_bucket -> option bool) : option Z :=
  let i := hashtable_spsc_bucket_index_from_hash ht hash in
  find_loop ht matches (HASHTABLE_SPSC_HASH hash) (S (Z.to_nat (buckets_count_real ht)))
    i (u32 (i + max_range ht)).

Definition match_ptr (norm : Z -> Z) (k : list Z) (klen : Z) (b : hashtable_spsc_bucket) : option bool :=
  if negb (key_length b =? klen) then Some false else
  match key b with
  | KeyPtr k' => strn_eq norm k' k (Z.to_nat klen)
  | KeyU32 _ => None
  end.

Definition match_u32 (k : Z) (b : hashtable_spsc_bucket) : option bool :=
  match key b with
  | KeyU32 z => Some (k =? z)
  | KeyPtr _ => None
  end.

Definition hashtable_spsc_find_bucket_index_by_key_ci (ht : hashtable_spsc) (hash : Z)
    (k : list Z) (klen : Z) : option Z :=
  find_bucket_index ht hash (match_ptr tolower k klen).

Definition hashtable_spsc_find_bucket_index_by_key_cs (ht : hashtable_spsc) (hash : Z)
    (k : list Z) (klen : Z) : option Z :=
  find_bucket_index ht hash (match_ptr (fun b => b) k klen).

Definition hashtable_spsc_find_bucket_index_by_key_uint32 (ht : hashtable_spsc) (hash k : Z) : option Z :=
  _ ← guard_spsc (negb (free_keys_on_deallocation ht));
  find_bucket_index ht hash (match_u32 k).

(** ** Get: 0 is the NULL pointer *)

Definition get_at (ht : hashtable_spsc) (i : Z) : option Z :=
  if i =? -1 then Some 0 else
  b ← zget (buckets ht) i; Some (value b).

Definition hashtable_spsc_op_get_ci (ht : hashtable_spsc) (k : list Z) (klen : Z) : option Z :=
  hash ← fnv_32_hash_ci k klen;
  i ← hashtable_spsc_find_bucket_index_by_key_ci ht hash k klen;
  get_at ht i.

Definition hashtable_spsc_op_get_by_hash (ht : hashtable_spsc) (hash : Z) (k : list Z) (klen : Z) : option Z :=
  i ← hashtable_spsc_find_bucket_index_by_key_cs ht hash k klen;
  get_at ht i.

Definition hashtable_spsc_op_get_cs (ht : hashtable_spsc) (k : list Z) (klen : Z) : option Z :=
  hash ← fnv_32_hash k klen;
  hashtable_spsc_op_get_by_hash ht hash k klen.

Definition hashtable_spsc_op_get_by_hash_and_key_uint32 (ht : hashtable_spsc) (hash k : Z) : option Z :=
  _ ← guard_spsc (negb (free_keys_on_deallocation ht));
  i ← hashtable_spsc_find_bucket_index_by_key_uint32 ht hash k;
  get_at ht i.

(** ** Set

    What the four operations do with the index the search returned. *)
Definition try_set_at (ht : hashtable_spsc) (hash i : Z) (b : hashtable_spsc_bucket)
    : option (bool * hashtable_spsc) :=
  '(i, ht) ←
    (if i =? -1 then
       let i := hashtable_spsc_bucket_index_from_hash ht hash in
       i ← hashtable_spsc_find_empty_bucket ht i (u32 (i + max_range ht));
       Some (i, if -1 <? i then set_hash ht i (Hash true (HASHTABLE_SPSC_HASH hash)) else ht)
     else Some (i, ht));
  if i =? -1 then Some (false, ht) else
  _ ← zget (buckets ht) i;
  Some (true, set_bucket ht i b).

Definition hashtable_spsc_op_try_set_ci (ht : hashtable_spsc) (k : list Z) (klen v : Z)
    : option (bool * hashtable_spsc) :=
  hash ← fnv_32_hash_ci k klen;
  i ← hashtable_spsc_find_bucket_index_by_key_ci ht hash k klen;
  try_set_at ht hash i (Bucket klen (KeyPtr k) v).

Definition hashtable_spsc_op_try_set_cs (ht : hashtable_spsc) (k : list Z) (klen v : Z)
    : option (bool * hashtable_spsc) :=
  hash ← fnv_32_hash k klen;
  i ← hashtable_spsc_find_bucket_index_by_key_cs ht hash k klen;
  try_set_at ht hash i (Bucket klen (KeyPtr k) v).

Definition hashtable_spsc_op_try_set_by_hash (ht : hashtable_spsc) (hash : Z) (k : list Z) (klen v : Z)
    : option (bool * hashtable_spsc) :=
  i ← hashtable_spsc_find_bucket_index_by_key_cs ht hash k klen;
  try_set_at ht hash i (Bucket klen (KeyPtr k) v).

Definition hashtable_spsc_op_try_set_by_hash_and_key_uint32 (ht : hashtable_spsc) (hash k v : Z)
    : option (bool * hashtable_spsc) :=
  _ ← guard_spsc (negb (free_keys_on_deallocation ht));
  i ← hashtable_spsc_find_bucket_index_by_key_uint32 ht hash k;
  try_set_at ht hash i (Bucket 0 (KeyU32 k) v).

(** ** Delete: the result, the table and the keys freed *)

Definition hashtable_spsc_op_delete_by_bucket_index (ht : hashtable_spsc) (i : Z)
    : option (bool * hashtable_spsc * list bucket_key) :=
  h ← zget (hashes ht) i;
  let ht := set_hash ht i (Hash false (cmp_hash h)) in
  if free_keys_on_deallocation ht
  then b ← zget (buckets ht) i; Some (true, ht, [key b])
  else Some (true, ht, []).

Definition delete_at (ht : hashtable_spsc) (i : Z) : option (bool * hashtable_spsc * list bucket_key) :=
  if i =? -1 then Some (false, ht, []) else
  '(_, ht, freed) ← hashtable_spsc_op_delete_by_bucket_index ht i;
  Some (true, ht, freed).

Definition hashtable_spsc_op_delete_ci (ht : hashtable_spsc) (k : list Z) (klen : Z)
    : option (bool * hashtable_spsc * list bucket_key) :=
  hash ← fnv_32_hash_ci k klen;
  i ← hashtable_spsc_find_bucket_index_by_key_ci ht hash k klen;
  delete_at ht i.

Definition hashtable_spsc_op_delete_cs (ht : hashtable_spsc) (k : list Z) (klen : Z)
    : option (bool * hashtable_spsc * list bucket_key) :=
  hash ← fnv_32_hash k klen;
  i ← hashtable_spsc_find_bucket_index_by_key_cs ht hash k klen;
  delete_at ht i.

Definition hashtable_spsc_op_delete_by_hash (ht : hashtable_spsc) (hash : Z) (k : list Z) (klen : Z)
    : option (bool * hashtable_spsc * list bucket_key) :=
  i ← hashtable_spsc_find_bucket_index_by_key_cs ht hash k klen;
  delete_at ht i.

(** ** Upsize *)

Definition upsize_move (old new : hashtable_spsc) (i : Z) : option hashtable_spsc :=
  h ← zget (hashes old) i;
  if negb (is_set h) then Some new else
  let hash := cmp_hash h in
  let j := hashtable_spsc_bucket_index_from_hash new hash in
  j ← hashtable_spsc_find_empty_bucket new (u32 j) (u32 (j + max_range new));
  if j =? -1 then None else
  b ← zget (buckets old) i;
  Some (set_bucket (set_hash new j (Hash true hash)) j b).

Fixpoint upsize_loop (old new : hashtable_spsc) (n : nat) (i : Z) : option hashtable_spsc :=
  match n with
  | O => Some new
  | S n => new ← upsize_move old new i; upsize_loop old new n (i + 1)
  end.

(** The new table and the keys freed with the old one. *)
Definition hashtable_spsc_upsize (old : hashtable_spsc) : option (hashtable_spsc * list bucket_key) :=
  new ← hashtable_spsc_new (u32 (buckets_count old * 2)) (max_range old) (free_keys_on_deallocation old);
  new ← upsize_loop old new (Z.to_nat (buckets_count_real old)) 0;
  let old := set_free_keys old false in
  freed ← hashtable_spsc_free old;
  Some (new, freed).

(** ** Iteration *)

Definition hashtable_spsc_op_iter (ht : hashtable_spsc) (i : Z) : option (Z * Z) :=
  i ← hashtable_spsc_find_set_bucket ht (u32 i) (buckets_count_real ht);
  if i =? -1 then Some (0, i) else
  b ← zget (buckets ht) i; Some (value b, i).

(** The loop of
    [module_redis_commands_free_command_arguments_token_entries_hashtable]:
    the values it visits, up to a NULL one. *)
Fixpoint iter_values (ht : hashtable_spsc) (fuel : nat) (i : Z) : option (list Z) :=
  match fuel with
  | O => None
  | S fuel =>
      '(v, i) ← hashtable_spsc_op_iter ht i;
      if v =? 0 then Some [] else
      vs ← iter_values ht fuel (i + 1);
      Some (v :: vs)
  end.

End HashtableSpsc.
