(* ===== verification/HashtableSpscSpec.v ===== *)
(** * HashtableSpscSpec: the single-thread hashtable implements a map

    The key interface, the invariant and the refinement of [HashtableSpsc]. *)

From stdpp Require Import gmap.
From S2P Require Import Prelude Pow2 HashtableSpsc.

Module HashtableSpscSpec.
Import HashtableSpsc.

(** ** The interface of a kind of keys

    [sk_canon] is the identity of a key (its lower-case form for the case
    insensitive operations); two keys with the same identity have the same 31
    bits of hash, and among keys with these bits equal the test of the search
    decides the identity. *)
Class SpscKey (K C : Type) `{Countable C} := {
  sk_wf : K -> Prop;
  sk_canon : K -> C;
  sk_hash : K -> Z;
  sk_bucket : K -> Z -> hashtable_spsc_bucket;
  sk_test : K -> hashtable_spsc_bucket -> option bool;
  sk_free_ok : bool -> bool;
  sk_get : hashtable_spsc -> K -> option Z;
  sk_set : hashtable_spsc -> K -> Z -> option (bool * hashtable_spsc);
  sk_delete : option (hashtable_spsc -> K -> option (bool * hashtable_spsc * list bucket_key));
  sk_hash_range k : sk_wf k -> 0 <= sk_hash k < 2 ^ 32;
  sk_same_hash k k' : sk_wf k -> sk_wf k' -> sk_canon k = sk_canon k' ->
    HASHTABLE_SPSC_HASH (sk_hash k) = HASHTABLE_SPSC_HASH (sk_hash k');
  sk_test_spec k k' v : sk_wf k -> sk_wf k' ->
    HASHTABLE_SPSC_HASH (sk_hash k) = HASHTABLE_SPSC_HASH (sk_hash k') ->
    sk_test k (sk_bucket k' v) = Some (bool_decide (sk_canon k = sk_canon k'));
  sk_value k v : value (sk_bucket k v) = v;
  sk_get_eq ht k : sk_wf k -> sk_free_ok (free_keys_on_deallocation ht) = true ->
    sk_get ht k = (i ← find_bucket_index ht (sk_hash k) (sk_test k); get_at ht i);
  sk_set_eq ht k v : sk_wf k -> sk_free_ok (free_keys_on_deallocation ht) = true ->
    sk_set ht k v = (i ← find_bucket_index ht (sk_hash k) (sk_test k);
                     try_set_at ht (sk_hash k) i (sk_bucket k v));
  sk_delete_eq d ht k : sk_wf k -> sk_free_ok (free_keys_on_deallocation ht) = true ->
    sk_delete = Some d ->
    d ht k = (i ← find_bucket_index ht (sk_hash k) (sk_test k); delete_at ht i)
}.
#[export] Hint Mode SpscKey + - - - : typeclass_instances.

(** ** Geometry *)

Record geometry (ht : hashtable_spsc) (p : Z) : Prop := {
  geo_p : 0 <= p <= 31;
  geo_pow2 : buckets_count_pow2 ht = 2 ^ p;
  geo_range : 0 < max_range ht < 2 ^ 16;
  geo_real : buckets_count_real ht = 2 ^ p + max_range ht;
  geo_hashes : zlen (hashes ht) = buckets_count_real ht;
  geo_buckets : zlen (buckets ht) = buckets_count_real ht;
  geo_count : 1 <= buckets_count ht;
  geo_next : Pow2.pow2_next (buckets_count ht) = 2 ^ p
}.

Definition home (p hash : Z) : Z := hash `mod` 2 ^ p.

Definition occ (ht : hashtable_spsc) (i : Z) : bool :=
  match zget (hashes ht) i with Some h => is_set h | None => false end.

Lemma pow2_p_bound p : 0 <= p <= 31 -> 0 < 2 ^ p <= 2 ^ 31.
Proof.
  intros Hp. split; [apply Z.pow_pos_nonneg; lia|]. apply Z.pow_le_mono_r; lia.
Qed.

Lemma spsc_home_range p hash : 0 <= p -> 0 <= home p hash < 2 ^ p.
Proof. intros Hp. apply Z.mod_pos_bound, Z.pow_pos_nonneg; lia. Qed.

Lemma index_from_hash_home ht p hash :
  geometry ht p -> hashtable_spsc_bucket_index_from_hash ht hash = home p hash.
Proof.
  intros Hg. pose proof (pow2_p_bound p (geo_p _ _ Hg)). pose proof (geo_p _ _ Hg).
  unfold hashtable_spsc_bucket_index_from_hash. rewrite (geo_pow2 _ _ Hg).
  rewrite wrap_small by mach_lia. apply land_pow2_mask. lia.
Qed.

Lemma cmp_hash_mod hash : HASHTABLE_SPSC_HASH hash = hash `mod` 2 ^ 31.
Proof. apply (land_pow2_mask hash 31). lia. Qed.

(** The 31 bits kept in the table determine the home bucket. *)
Lemma home_cmp_hash p hash :
  0 <= p <= 31 -> home p (HASHTABLE_SPSC_HASH hash) = home p hash.
Proof. intros Hp. unfold home. rewrite cmp_hash_mod. by apply (wrap_mod_pow2 31). Qed.

Lemma hashtable_spsc_new_spec count range free_keys :
  1 <= count <= 2 ^ 31 -> 0 < range < 2 ^ 16 ->
  exists p ht, hashtable_spsc_new count range free_keys = Some ht /\ geometry ht p /\
    buckets_count ht = count /\ max_range ht = range /\ free_keys_on_deallocation ht = free_keys /\
    forall i, occ ht i = false.
Proof.
  intros Hc Hr. destruct (Pow2.pow2_next_least count ltac:(mach_lia)) as (p & Hp & Hn & Hle & Hleast).
  assert (p <= 31) by (apply Hleast; lia).
  pose proof (pow2_p_bound p ltac:(lia)).
  exists p. eexists. split.
  { unfold hashtable_spsc_new, guard_spsc. rewrite Hn.
    rewrite (wrap_small 32 (2 ^ p)) by mach_lia.
    rewrite (wrap_small 32 (2 ^ p + range)) by mach_lia.
    repeat (zcase; [|mach_lia]; cbn [mbind option_bind]). reflexivity. }
  split; [|do 3 (split; [done|])].
  - split; cbn; try done; try lia; rewrite zlen_replicate, Z2Nat.id; lia.
  - intros i. unfold occ. cbn. destruct (zget _ i) as [h|] eqn:Hz; [|done].
    pose proof (zget_Some_range _ _ _ Hz) as Hi. rewrite zlen_replicate in Hi.
    rewrite zget_replicate in Hz by done. by injection Hz as <-.
Qed.

(** ** Probing *)

Lemma occ_zget ht p i :
  geometry ht p -> 0 <= i < buckets_count_real ht ->
  exists h, zget (hashes ht) i = Some h /\ is_set h = occ ht i.
Proof.
  intros Hg Hi. rewrite <- (geo_hashes _ _ Hg) in Hi.
  destruct (zget_in_range _ _ Hi) as [h Hh]. exists h. unfold occ. by rewrite Hh.
Qed.

Lemma real_bound ht p : geometry ht p -> 0 < buckets_count_real ht < 2 ^ 32 - 1.
Proof.
  intros Hg. pose proof (pow2_p_bound p (geo_p _ _ Hg)).
  pose proof (geo_range _ _ Hg). rewrite (geo_real _ _ Hg). mach_lia.
Qed.

Lemma probe_spec w ht p fuel i max :
  geometry ht p -> 0 <= i < buckets_count_real ht -> max <= buckets_count_real ht ->
  (Z.to_nat (max - i) < fuel)%nat ->
  (exists j, probe w ht fuel i max = Some j /\ i <= j < buckets_count_real ht /\ (j = i \/ j < max) /\
     occ ht j = w /\ forall q, i <= q < j -> occ ht q = negb w) \/
  (probe w ht fuel i max = Some (-1) /\ occ ht i = negb w /\
     forall q, i <= q < max -> occ ht q = negb w).
Proof.
  intros Hg. pose proof (real_bound _ _ Hg) as Hb. revert i.
  induction fuel as [|fuel IH]; intros i Hi Hmax Hf; [lia|].
  destruct (occ_zget ht p i Hg Hi) as (h & Hh & Hs). cbn [probe].
  rewrite Hh. cbn [mbind option_bind]. rewrite Hs.
  destruct (Bool.eqb_spec (occ ht i) w) as [He|Hne].
  { left. exists i. split; [done|]. split; [lia|]. split; [by left|]. split; [done|]. lia. }
  assert (occ ht i = negb w) as Hn by (destruct (occ ht i), w; done).
  rewrite (wrap_small 32 (i + 1)) by mach_lia. zcase.
  - destruct (IH (i + 1)) as [(j & -> & Hj & Hjm & Ho & Hq) | (-> & Ho & Hq)]; [lia..| |].
    + left. exists j. split; [done|]. split; [lia|]. split; [right; lia|]. split; [done|].
      intros q Hqr. destruct (decide (q = i)) as [->|]; [done|]. apply Hq. lia.
    + right. split; [done|]. split; [done|]. intros q Hqr.
      destruct (decide (q = i)) as [->|]; [done|]. apply Hq. lia.
  - right. split; [done|]. split; [done|]. intros q Hqr. by replace q with i by lia.
Qed.

(** ** Searching

    [hit] gives, for each bucket in use, the verdict of the comparison of its
    hash and of its key. *)
Definition verdict (ht : hashtable_spsc) (test : hashtable_spsc_bucket -> option bool)
    (ch : Z) (hit : Z -> bool) : Prop :=
  forall j h b, zget (hashes ht) j = Some h -> is_set h = true -> zget (buckets ht) j = Some b ->
    if cmp_hash h =? ch then test b = Some (hit j) else hit j = false.

Lemma find_loop_spec ht p test ch hit fuel i max :
  geometry ht p -> occ ht (buckets_count_real ht - 1) = false -> verdict ht test ch hit ->
  0 <= i < buckets_count_real ht -> max < buckets_count_real ht ->
  buckets_count_real ht - i < Z.of_nat fuel ->
  (exists j, find_loop ht test ch fuel i max = Some j /\ i <= j < buckets_count_real ht /\
     occ ht j = true /\ hit j = true) \/
  (find_loop ht test ch fuel i max = Some (-1) /\
     forall q, i <= q < max -> occ ht q = true -> hit q = false).
Proof.
  intros Hg Hlast Hv. pose proof (real_bound _ _ Hg) as Hb. revert i.
  induction fuel as [|fuel IH]; intros i Hi Hmax Hf; [lia|].
  cbn [find_loop]. unfold hashtable_spsc_find_set_bucket.
  rewrite (wrap_small 32 i) by mach_lia.
  destruct (probe_spec true ht p (S (Z.to_nat (max - i))) i max)
    as [(j & -> & Hj & Hjm & Ho & Hq) | (-> & Ho & Hq)]; [done|lia..| |]; cbn [mbind option_bind].
  2:{ right. split; [done|]. intros q Hqr Hqo. rewrite Hq in Hqo; [done|lia]. }
  destruct (Z.eqb_spec j (-1)); [lia|].
  destruct (occ_zget ht p j Hg ltac:(lia)) as (h & Hh & Hs). rewrite Hh. cbn [mbind option_bind].
  destruct (zget_in_range (buckets ht) j) as [b Hbk]; [rewrite (geo_buckets _ _ Hg); lia|].
  assert ((if negb (cmp_hash h =? ch) then Some false else b ← zget (buckets ht) j; test b)
          = Some (hit j)) as Heq.
  { specialize (Hv j h b Hh ltac:(congruence) Hbk). rewrite Hbk.
    destruct (cmp_hash h =? ch); cbn; congruence. }
  cbn [mbind option_bind] in Heq. rewrite Heq.
  destruct (hit j) eqn:Hhit.
  { left. exists j. split; [done|]. split; [lia|]. split; done. }
  destruct (Z.eqb_spec (j + 1) 0); [lia|].
  assert (j <> buckets_count_real ht - 1) by congruence.
  destruct (IH (j + 1)) as [(j' & -> & Hj' & Ho' & Hh') | (-> & Hq')]; [lia..| |].
  - left. exists j'. split; [done|]. split; [lia|]. split; done.
  - right. split; [done|]. intros q Hqr Hqo. destruct (Z.lt_trichotomy q j) as [|[->|]].
    + rewrite Hq in Hqo; [done|lia].
    + done.
    + apply Hq'; [lia|done].
Qed.

(** ** The invariant

    [g] is the ghost content: the key and the value stored in each bucket in
    use. *)
Section refinement.
Context {K C : Type} `{Countable C} `{!SpscKey K C}.
Implicit Types (k : K) (g : gmap Z (K * Z)) (m : gmap C Z).

Record spsc_inv (ht : hashtable_spsc) (p : Z) (g : gmap Z (K * Z)) : Prop := {
  inv_geo : geometry ht p;
  inv_free : sk_free_ok (K := K) (free_keys_on_deallocation ht) = true;
  inv_occ i : occ ht i = true <-> is_Some (g !! i);
  inv_entry i k v : g !! i = Some (k, v) ->
    sk_wf k /\ zget (hashes ht) i = Some (Hash true (HASHTABLE_SPSC_HASH (sk_hash k))) /\
    zget (buckets ht) i = Some (sk_bucket k v) /\
    home p (sk_hash k) <= i < home p (sk_hash k) + max_range ht;
  inv_unique i j k k' v v' : g !! i = Some (k, v) -> g !! j = Some (k', v') ->
    sk_canon k = sk_canon k' -> i = j
}.

(** The map a content stands for. *)
Definition stands_for g m : Prop :=
  forall c v, m !! c = Some v <-> exists i k, g !! i = Some (k, v) /\ sk_canon k = c.

Lemma inv_last ht p g : spsc_inv ht p g -> occ ht (buckets_count_real ht - 1) = false.
Proof.
  intros Hi. apply not_true_is_false. rewrite (inv_occ _ _ _ Hi). intros [[k v] Hg].
  destruct (inv_entry _ _ _ Hi _ _ _ Hg) as (_ & _ & _ & Hr).
  pose proof (spsc_home_range p (sk_hash k) (proj1 (geo_p _ _ (inv_geo _ _ _ Hi)))).
  rewrite (geo_real _ _ (inv_geo _ _ _ Hi)) in Hr. lia.
Qed.

Definition hit_of g k (i : Z) : bool :=
  match g !! i with Some (k', _) => bool_decide (sk_canon k = sk_canon k') | None => false end.

Lemma inv_verdict ht p g k :
  spsc_inv ht p g -> sk_wf k ->
  verdict ht (sk_test k) (HASHTABLE_SPSC_HASH (sk_hash k)) (hit_of g k).
Proof.
  intros Hi Hk j h b Hh Hs Hb. unfold hit_of.
  assert (occ ht j = true) as Ho by (unfold occ; by rewrite Hh).
  apply (inv_occ _ _ _ Hi) in Ho as [[k' v] Hg]. rewrite Hg.
  destruct (inv_entry _ _ _ Hi _ _ _ Hg) as (Hk' & Hh' & Hb' & _).
  rewrite Hh in Hh'. injection Hh' as ->. rewrite Hb in Hb'. injection Hb' as ->.
  cbn [cmp_hash]. zcase.
  - by apply sk_test_spec.
  - apply bool_decide_eq_false. intros Hc. by apply (sk_same_hash k k') in Hc.
Qed.

(** The search finds the bucket of the key, or tells that there is none. *)
Lemma find_bucket_index_spec ht p g k :
  spsc_inv ht p g -> sk_wf k ->
  (exists i k' v, find_bucket_index ht (sk_hash k) (sk_test k) = Some i /\ 0 <= i /\
     g !! i = Some (k', v) /\ sk_canon k' = sk_canon k) \/
  (find_bucket_index ht (sk_hash k) (sk_test k) = Some (-1) /\
     forall i k' v, g !! i = Some (k', v) -> sk_canon k' <> sk_canon k).
Proof.
  intros Hi Hk. pose proof (inv_geo _ _ _ Hi) as Hg. pose proof (geo_p _ _ Hg) as Hp.
  pose proof (real_bound _ _ Hg). pose proof (geo_range _ _ Hg). pose proof (geo_real _ _ Hg).
  pose proof (spsc_home_range p (sk_hash k) (proj1 Hp)).
  unfold find_bucket_index. rewrite (index_from_hash_home ht p) by done.
  rewrite (wrap_small 32 (_ + max_range ht)) by mach_lia.
  destruct (find_loop_spec ht p (sk_test k) (HASHTABLE_SPSC_HASH (sk_hash k)) (hit_of g k)
    (S (Z.to_nat (buckets_count_real ht))) (home p (sk_hash k)) (home p (sk_hash k) + max_range ht))
    as [(j & -> & Hj & Ho & Hh) | (-> & Hq)]; try lia; try done.
  { by apply (inv_last _ _ _ Hi). }
  { by apply (inv_verdict _ p). }
  - left. unfold hit_of in Hh. destruct (g !! j) as [[k' v]|] eqn:Hgj; [|done].
    apply bool_decide_eq_true in Hh. exists j, k', v. split; [done|]. split; [lia|]. done.
  - right. split; [done|]. intros i k' v Hgi Hc.
    destruct (inv_entry _ _ _ Hi _ _ _ Hgi) as (Hk' & _ & _ & Hr).
    assert (home p (sk_hash k') = home p (sk_hash k)) as Hhome.
    { rewrite <- (home_cmp_hash p (sk_hash k')), <- (home_cmp_hash p (sk_hash k)) by done.
      f_equal. by apply sk_same_hash. }
    assert (hit_of g k i = false) as Hf.
    { apply Hq; [lia|]. apply (inv_occ _ _ _ Hi). by eexists. }
    unfold hit_of in Hf. rewrite Hgi in Hf. by apply bool_decide_eq_false in Hf.
Qed.

(** ** Elementary updates *)

Lemma set_hash_same ht i h : zget (hashes ht) i = Some h -> set_hash ht i h = ht.
Proof. intros Hh. unfold set_hash. rewrite zset_same by done. by destruct ht. Qed.

Lemma geometry_set_hash ht p i h : geometry ht p -> geometry (set_hash ht i h) p.
Proof. intros []. by split; cbn; rewrite ?zlen_zset. Qed.

Lemma geometry_set_bucket ht p i b : geometry ht p -> geometry (set_bucket ht i b) p.
Proof. intros []. by split; cbn; rewrite ?zlen_zset. Qed.

Lemma occ_set_hash ht i h j :
  0 <= i < zlen (hashes ht) ->
  occ (set_hash ht i h) j = if decide (j = i) then is_set h else occ ht j.
Proof.
  intros Hi. unfold occ. cbn. destruct (decide (j = i)) as [->|Hne].
  - by rewrite zget_zset_eq.
  - by rewrite zget_zset_ne.
Qed.

(** [i] is the only bucket that may hold the key [k]. *)
Definition sole g k (i : Z) : Prop :=
  forall j k' v', g !! j = Some (k', v') -> sk_canon k' = sk_canon k -> j = i.

Definition put (ht : hashtable_spsc) k (v i : Z) : hashtable_spsc :=
  set_bucket (set_hash ht i (Hash true (HASHTABLE_SPSC_HASH (sk_hash k)))) i (sk_bucket k v).

Lemma inv_put ht p g k v i :
  spsc_inv ht p g -> sk_wf k -> home p (sk_hash k) <= i < home p (sk_hash k) + max_range ht ->
  sole g k i -> spsc_inv (put ht k v i) p (<[i := (k, v)]> g).
Proof.
  intros Hi Hk Hr Hs. pose proof (inv_geo _ _ _ Hi) as Hg. pose proof (geo_p _ _ Hg) as Hp.
  pose proof (spsc_home_range p (sk_hash k) (proj1 Hp)). pose proof (geo_real _ _ Hg).
  assert (0 <= i < zlen (hashes ht)) by (rewrite (geo_hashes _ _ Hg); lia).
  assert (0 <= i < zlen (buckets ht)) by (rewrite (geo_buckets _ _ Hg); lia).
  split.
  - by apply geometry_set_bucket, geometry_set_hash.
  - apply (inv_free _ _ _ Hi).
  - intros j. change (occ (put ht k v i) j) with (occ (set_hash ht i (Hash true (HASHTABLE_SPSC_HASH (sk_hash k)))) j).
    rewrite occ_set_hash, lookup_insert_is_Some by done.
    destruct (decide (j = i)) as [->|Hne]; [naive_solver|].
    rewrite (inv_occ _ _ _ Hi). naive_solver.
  - intros j k' v'. cbn [put set_bucket set_hash hashes buckets max_range].
    destruct (decide (i = j)) as [<-|Hne].
    + rewrite lookup_insert_eq. intros [= <- <-]. rewrite !zget_zset_eq by done. done.
    + rewrite lookup_insert_ne, !zget_zset_ne by done. apply (inv_entry _ _ _ Hi).
  - intros j j' k1 k2 v1 v2. rewrite !lookup_insert_Some.
    intros [[<- [= <- <-]]|[Hn1 Hg1]] [[<- [= <- <-]]|[Hn2 Hg2]] Hc; [done| | |].
    + symmetry. by apply (Hs _ _ _ Hg2).
    + by apply (Hs _ _ _ Hg1).
    + by apply (inv_unique _ _ _ Hi j j' k1 k2 v1 v2).
Qed.

Lemma stands_for_put g m k v i :
  stands_for g m -> sole g k i ->
  (forall k' v', g !! i = Some (k', v') -> sk_canon k' = sk_canon k) ->
  stands_for (<[i := (k, v)]> g) (<[sk_canon k := v]> m).
Proof.
  intros Hm Hs Ho c w. rewrite lookup_insert_Some. rewrite (Hm c w). split.
  - intros [[<- <-]|(Hne & j & k' & Hj & Hc)].
    + exists i, k. by rewrite lookup_insert_eq.
    + exists j, k'. split; [|done]. rewrite lookup_insert_ne; [done|].
      intros ->. apply Hne. rewrite <- Hc. symmetry. by apply (Ho k' w).
  - intros (j & k' & Hj & <-). apply lookup_insert_Some in Hj as [[<- [= <- <-]]|[Hne Hj]].
    + by left.
    + right. split; [|by exists j, k']. intros Hc. apply Hne. symmetry. by apply (Hs _ _ _ Hj).
Qed.

Definition drop (ht : hashtable_spsc) (h i : Z) : hashtable_spsc := set_hash ht i (Hash false h).

Lemma inv_drop ht p g i h :
  spsc_inv ht p g -> is_Some (g !! i) -> spsc_inv (drop ht h i) p (delete i g).
Proof.
  intros Hi [[k v] Hgi]. destruct (inv_entry _ _ _ Hi _ _ _ Hgi) as (Hk & Hh & Hb & _).
  pose proof (zget_Some_range _ _ _ Hh). split.
  - apply geometry_set_hash, (inv_geo _ _ _ Hi).
  - apply (inv_free _ _ _ Hi).
  - intros j. unfold drop. rewrite occ_set_hash, lookup_delete_is_Some by done. destruct (decide (j = i)) as [->|Hne].
    + cbn. naive_solver.
    + rewrite (inv_occ _ _ _ Hi). naive_solver.
  - intros j k' v' [Hne Hj]%lookup_delete_Some. cbn. rewrite zget_zset_ne by done.
    by apply (inv_entry _ _ _ Hi).
  - intros j j' k1 k2 v1 v2 [_ Hg1]%lookup_delete_Some [_ Hg2]%lookup_delete_Some.
    by apply (inv_unique _ _ _ Hi j j' k1 k2 v1 v2).
Qed.

Lemma stands_for_drop g m k k' v i :
  stands_for g m -> g !! i = Some (k', v) -> sk_canon k' = sk_canon k -> sole g k i ->
  stands_for (delete i g) (delete (sk_canon k) m).
Proof.
  intros Hm Hi Hc Hs c w. rewrite lookup_delete_Some, (Hm c w). split.
  - intros (Hne & j & k1 & Hj & Hj'). exists j, k1. split; [|done].
    rewrite lookup_delete_ne; [done|]. intros <-. rewrite Hj in Hi. injection Hi as <- <-. congruence.
  - intros (j & k1 & [Hne Hj]%lookup_delete_Some & <-). split; [|by exists j, k1].
    intros Heq. apply Hne. symmetry. by apply (Hs _ _ _ Hj).
Qed.

Lemma stands_for_None g m k :
  stands_for g m -> (forall i k' v, g !! i = Some (k', v) -> sk_canon k' <> sk_canon k) ->
  m !! sk_canon k = None.
Proof.
  intros Hm Hn. apply eq_None_not_Some. intros [v Hv].
  apply Hm in Hv as (i & k' & Hi & Hc). by apply (Hn i k' v).
Qed.

Lemma inv_sole ht p g k k' v i :
  spsc_inv ht p g -> g !! i = Some (k', v) -> sk_canon k' = sk_canon k -> sole g k i.
Proof.
  intros Hi Hg Hc j k1 v1 Hj Hc1. apply (inv_unique _ _ _ Hi _ _ _ _ _ _ Hj Hg). congruence.
Qed.

(** A window of buckets that are all in use holds as many keys. *)
Lemma full_window_size ht p g m lo n :
  spsc_inv ht p g -> stands_for g m -> 0 <= n ->
  (forall q, lo <= q < lo + n -> occ ht q = true) -> n <= Z.of_nat (size m).
Proof.
  intros Hi Hm Hn Hocc.
  assert (forall t, (Z.of_nat t <= n) -> exists l : list C, length l = t /\ NoDup l /\
    forall c, c ∈ l -> exists q k v, lo <= q < lo + Z.of_nat t /\ g !! q = Some (k, v) /\ sk_canon k = c) as Hl.
  { intros t. induction t as [|t IH]; intros Ht.
    { exists []. split; [done|]. split; [constructor|]. intros c Hc. by apply not_elem_of_nil in Hc. }
    destruct IH as (l & Hlen & Hnd & Hin); [lia|].
    destruct (proj1 (inv_occ _ _ _ Hi (lo + Z.of_nat t))) as [[k v] Hk]; [apply Hocc; lia|].
    exists (sk_canon k :: l). split; [cbn; lia|]. split.
    - constructor; [|done]. intros (q & k' & v' & Hq & Hg & Hc)%Hin.
      pose proof (inv_unique _ _ _ Hi _ _ _ _ _ _ Hg Hk Hc). lia.
    - intros c [->|Hc]%elem_of_cons.
      + exists (lo + Z.of_nat t), k, v. split; [lia|done].
      + destruct (Hin c Hc) as (q & k' & v' & Hq & Hg). exists q, k', v'. split; [lia|done]. }
  destruct (Hl (Z.to_nat n)) as (l & Hlen & Hnd & Hin); [lia|].
  assert (list_to_set l ⊆ dom m) as Hsub.
  { intros c Hc%elem_of_list_to_set. apply Hin in Hc as (q & k & v & _ & Hg & Hc).
    apply elem_of_dom. exists v. apply Hm. by exists q, k. }
  apply subseteq_size in Hsub. rewrite size_list_to_set, size_dom in Hsub by done. lia.
Qed.

(** ** The operations *)

Lemma sk_get_spec ht p g m k :
  spsc_inv ht p g -> stands_for g m -> sk_wf k ->
  sk_get ht k = Some (default 0 (m !! sk_canon k)).
Proof.
  intros Hi Hm Hk. rewrite sk_get_eq by (try apply (inv_free _ _ _ Hi); done).
  destruct (find_bucket_index_spec ht p g k Hi Hk)
    as [(i & k' & v & -> & Hi0 & Hg & Hc)|[-> Hn]]; cbn [mbind option_bind]; unfold get_at.
  - destruct (Z.eqb_spec i (-1)); [lia|].
    destruct (inv_entry _ _ _ Hi _ _ _ Hg) as (_ & _ & Hb & _). rewrite Hb. cbn.
    assert (m !! sk_canon k = Some v) as -> by (apply Hm; by exists i, k').
    cbn. by rewrite sk_value.
  - rewrite Z.eqb_refl. by rewrite (stands_for_None g m k Hm Hn).
Qed.

Lemma sk_set_spec ht p g m k v :
  spsc_inv ht p g -> stands_for g m -> sk_wf k ->
  (exists i, sk_set ht k v = Some (true, put ht k v i) /\
     spsc_inv (put ht k v i) p (<[i := (k, v)]> g) /\
     stands_for (<[i := (k, v)]> g) (<[sk_canon k := v]> m)) \/
  (sk_set ht k v = Some (false, ht) /\ m !! sk_canon k = None /\ max_range ht <= Z.of_nat (size m)).
Proof.
  intros Hi Hm Hk. rewrite sk_set_eq by (try apply (inv_free _ _ _ Hi); done).
  pose proof (inv_geo _ _ _ Hi) as Hg. pose proof (geo_p _ _ Hg) as Hp.
  pose proof (real_bound _ _ Hg). pose proof (geo_range _ _ Hg). pose proof (geo_real _ _ Hg).
  pose proof (spsc_home_range p (sk_hash k) (proj1 Hp)).
  destruct (find_bucket_index_spec ht p g k Hi Hk)
    as [(i & k' & w & -> & Hi0 & Hgi & Hc)|[-> Hn]]; cbn [mbind option_bind]; unfold try_set_at.
  - left. exists i. destruct (inv_entry _ _ _ Hi _ _ _ Hgi) as (Hk' & Hh & Hb & Hr).
    pose proof (inv_sole _ _ _ _ _ _ _ Hi Hgi Hc) as Hs.
    assert (HASHTABLE_SPSC_HASH (sk_hash k') = HASHTABLE_SPSC_HASH (sk_hash k)) as Hhe
      by by apply sk_same_hash.
    destruct (Z.eqb_spec i (-1)); [lia|]. cbn [mbind option_bind].
    destruct (Z.eqb_spec i (-1)); [lia|]. rewrite Hb. cbn [mbind option_bind].
    rewrite Hhe in Hh. split; [unfold put; by rewrite (set_hash_same ht i)|]. split.
    + apply inv_put; try done.
      rewrite <- (home_cmp_hash p (sk_hash k)), <- Hhe, home_cmp_hash by done. done.
    + apply stands_for_put; try done. congruence.
  - rewrite Z.eqb_refl, (index_from_hash_home ht p) by done.
    rewrite (wrap_small 32 (_ + max_range ht)) by mach_lia.
    unfold hashtable_spsc_find_empty_bucket.
    destruct (probe_spec false ht p (S (Z.to_nat (home p (sk_hash k) + max_range ht - home p (sk_hash k))))
      (home p (sk_hash k)) (home p (sk_hash k) + max_range ht))
      as [(j & -> & Hj & Hjm & Ho & _) | (-> & _ & Hq)]; [done|lia..| |]; cbn [mbind option_bind].
    + left. exists j. destruct (Z.ltb_spec (-1) j); [|lia]. destruct (Z.eqb_spec j (-1)); [lia|].
      destruct (zget_in_range (buckets ht) j) as [b Hb]; [rewrite (geo_buckets _ _ Hg); lia|].
      cbn [set_hash buckets]. rewrite Hb. cbn [mbind option_bind]. split; [done|].
      assert (sole g k j) as Hs by (intros q k' v' Hgq Hc; by apply Hn in Hgq).
      split; [apply inv_put; try done; lia|]. apply stands_for_put; try done.
      intros k' v' Hgj. assert (occ ht j = true) by (apply (inv_occ _ _ _ Hi); by eexists). congruence.
    + right. split; [done|]. split; [by apply (stands_for_None g)|].
      apply (full_window_size ht p g m (home p (sk_hash k))); [done|done|lia|]. apply Hq.
Qed.

(** The parameters of the table that no operation changes. *)
Definition same_size (ht' ht : hashtable_spsc) : Prop :=
  max_range ht' = max_range ht /\ buckets_count ht' = buckets_count ht.

Lemma sk_delete_spec d ht p g m k :
  sk_delete = Some d -> spsc_inv ht p g -> stands_for g m -> sk_wf k ->
  exists ht' g' freed, d ht k = Some (bool_decide (is_Some (m !! sk_canon k)), ht', freed) /\
    spsc_inv ht' p g' /\ stands_for g' (delete (sk_canon k) m) /\ same_size ht' ht.
Proof.
  intros Hd Hi Hm Hk. rewrite (sk_delete_eq d) by (try apply (inv_free _ _ _ Hi); done).
  destruct (find_bucket_index_spec ht p g k Hi Hk)
    as [(i & k' & v & -> & Hi0 & Hg & Hc)|[-> Hn]]; cbn [mbind option_bind]; unfold delete_at.
  - destruct (Z.eqb_spec i (-1)); [lia|].
    destruct (inv_entry _ _ _ Hi _ _ _ Hg) as (_ & Hh & Hb & _).
    assert (m !! sk_canon k = Some v) as -> by (apply Hm; by exists i, k').
    unfold hashtable_spsc_op_delete_by_bucket_index. rewrite Hh. cbn [mbind option_bind cmp_hash].
    fold (drop ht (HASHTABLE_SPSC_HASH (sk_hash k')) i).
    exists (drop ht (HASHTABLE_SPSC_HASH (sk_hash k')) i), (delete i g).
    change (free_keys_on_deallocation (drop ht (HASHTABLE_SPSC_HASH (sk_hash k')) i))
      with (free_keys_on_deallocation ht).
    change (buckets (drop ht (HASHTABLE_SPSC_HASH (sk_hash k')) i)) with (buckets ht). rewrite Hb.
    exists (if free_keys_on_deallocation ht then [key (sk_bucket k' v)] else []).
    split; [by destruct (free_keys_on_deallocation ht)|].
    split; [apply inv_drop; [done|by eexists]|]. split; [|done].
    eapply stands_for_drop; [done..|]. by eapply inv_sole.
  - rewrite Z.eqb_refl. pose proof (stands_for_None g m k Hm Hn) as Hnone.
    exists ht, g, []. rewrite Hnone, delete_id by done. done.
Qed.

End refinement.

End HashtableSpscSpec.
