(* ===== verification/HashtableSpscRefine.v ===== *)
(** * HashtableSpscRefine: sequences of operations, upsize, iteration

    The four kinds of keys as instances of [SpscKey], and the theorems on
    whole sequences of operations of the single-thread hashtable. *)

From stdpp Require Import gmap.
From S2P Require Import Prelude Pow2 HashtableSpsc HashtableSpscSpec.

Module HashtableSpscRefine.
Import HashtableSpsc HashtableSpscSpec.

(** ** Hashes and string comparison *)

Lemma lxor_u32 a b : 0 <= a < 2 ^ 32 -> 0 <= b < 2 ^ 32 -> 0 <= Z.lxor a b < 2 ^ 32.
Proof.
  intros Ha Hb.
  assert (0 <= Z.lxor a b) as Hn by (apply Z.lxor_nonneg; lia). split; [done|].
  destruct (decide (Z.lxor a b = 0)) as [->|]; [mach_lia|].
  apply Z.log2_lt_pow2; [lia|]. eapply Z.le_lt_trans; [apply Z.log2_lxor; lia|].
  assert (forall x, 0 <= x < 2 ^ 32 -> Z.log2 x < 32) as Hl.
  { intros x Hx. destruct (decide (x = 0)) as [->|]; [done|]. apply Z.log2_lt_pow2; lia. }
  apply Z.max_lub_lt; auto.
Qed.

Lemma fnv_mix_range hval c : 0 <= fnv_mix hval c < 2 ^ 32.
Proof. unfold fnv_mix. apply lxor_u32; apply wrap_range; lia. Qed.

Lemma fnv_total buf hval :
  0 <= hval < 2 ^ 32 ->
  exists r, fnv_32_hash_internal buf (length buf) hval = Some r /\ 0 <= r < 2 ^ 32.
Proof.
  revert hval. induction buf as [|b buf IH]; intros hval Hh; cbn [fnv_32_hash_internal length].
  - by exists hval.
  - apply IH, fnv_mix_range.
Qed.

Lemma schar_small b : 0 <= b < 128 -> schar b = b.
Proof. intros Hb. apply swrap_small; mach_lia. Qed.

Lemma tolower_byte b : 0 <= b < 256 -> 0 <= tolower b < 256.
Proof. intros Hb. unfold tolower. repeat zcase; cbn; lia. Qed.

(** The hash folds the case of exactly the letters that [strncasecmp] folds. *)
Lemma fnv_lower_schar b : 0 <= b < 256 -> fnv_lower (schar b) = schar (tolower b).
Proof.
  intros Hb.
  assert (forallb (fun b => fnv_lower (schar b) =? schar (tolower b)) (seqZ 0 256) = true) as Hall
    by (vm_compute; reflexivity).
  rewrite forallb_forall in Hall. apply Z.eqb_eq, Hall, list_elem_of_In, elem_of_seqZ. lia.
Qed.

Lemma fnv_ci_tolower buf len hval :
  Forall (fun b => 1 <= b < 256) buf ->
  fnv_32_hash_ci_internal buf len hval = fnv_32_hash_internal (tolower <$> buf) len hval.
Proof.
  intros Hb. revert len hval. induction Hb as [|b buf Hb _ IH]; intros [|len] hval; [done..|].
  cbn [fnv_32_hash_ci_internal fnv_32_hash_internal fmap list_fmap].
  rewrite fnv_lower_schar by lia. apply IH.
Qed.

Lemma strn_eq_spec norm a b :
  length a = length b -> Forall (fun b => 1 <= b < 256) a ->
  strn_eq norm a b (length b) = Some (bool_decide (norm <$> a = norm <$> b)).
Proof.
  revert b. induction a as [|x a IH]; intros [|y b] Hl Ha; try done.
  apply Forall_cons in Ha as [Hx Ha]. cbn [strn_eq length fmap list_fmap].
  destruct (Z.eqb_spec (norm x) (norm y)) as [He|Hne].
  - destruct (Z.eqb_spec x 0); [lia|]. rewrite IH; [|cbn in Hl; lia|done].
    f_equal. apply bool_decide_ext. rewrite He. split; [by intros ->|by intros [= Hab]].
  - symmetry. f_equal. apply bool_decide_eq_false. by intros [= Hxy _].
Qed.

Lemma match_ptr_spec norm k k' v :
  Forall (fun b => 1 <= b < 256) k' ->
  match_ptr norm k (zlen k) (Bucket (zlen k') (KeyPtr k') v)
  = Some (bool_decide (norm <$> k = norm <$> k')).
Proof.
  intros Hk'. unfold match_ptr, zlen. cbn [key_length key].
  destruct (Z.eqb_spec (Z.of_nat (length k')) (Z.of_nat (length k))) as [He|Hne]; cbn [negb].
  - rewrite Nat2Z.id, strn_eq_spec by (done || lia). f_equal. by apply bool_decide_ext.
  - symmetry. f_equal. apply bool_decide_eq_false. intros Heq.
    apply (f_equal length) in Heq. rewrite !length_fmap in Heq. lia.
Qed.

(** ** The kinds of keys *)

Definition wf_bytes (k : list Z) : Prop := Forall (fun b => 1 <= b < 256) k /\ zlen k < 2 ^ 16.

Lemma fnv_hash_range k :
  exists h, fnv_32_hash k (zlen k) = Some h /\ 0 <= h < 2 ^ 32.
Proof. unfold fnv_32_hash, zlen. rewrite Nat2Z.id. apply fnv_total. unfold FNV1_32_INIT. mach_lia. Qed.

Lemma fnv_hash_ci_fold k :
  wf_bytes k -> fnv_32_hash_ci k (zlen k) = fnv_32_hash (tolower <$> k) (zlen (tolower <$> k)).
Proof.
  intros [Hk _]. unfold fnv_32_hash_ci, fnv_32_hash, zlen. rewrite length_fmap.
  by apply fnv_ci_tolower.
Qed.

Record ci_key := CiKey { ci_bytes : list Z }.
Record cs_key := CsKey { cs_bytes : list Z }.
Record hash_key := HashKey { hk_hash : Z; hk_bytes : list Z }.
Record u32_key := U32Key { uk_hash : Z; uk_key : Z }.

#[export, refine] Instance spsc_ci : SpscKey ci_key (list Z) := {|
  sk_wf k := wf_bytes (ci_bytes k);
  sk_canon k := tolower <$> ci_bytes k;
  sk_hash k := default 0 (fnv_32_hash_ci (ci_bytes k) (zlen (ci_bytes k)));
  sk_bucket k v := Bucket (zlen (ci_bytes k)) (KeyPtr (ci_bytes k)) v;
  sk_test k := match_ptr tolower (ci_bytes k) (zlen (ci_bytes k));
  sk_free_ok _ := true;
  sk_get ht k := hashtable_spsc_op_get_ci ht (ci_bytes k) (zlen (ci_bytes k));
  sk_set ht k v := hashtable_spsc_op_try_set_ci ht (ci_bytes k) (zlen (ci_bytes k)) v;
  sk_delete := Some (fun ht k => hashtable_spsc_op_delete_ci ht (ci_bytes k) (zlen (ci_bytes k)))
|}.
Proof.
  - intros k Hk. rewrite fnv_hash_ci_fold by done.
    by destruct (fnv_hash_range (tolower <$> ci_bytes k)) as (h & -> & Hh).
  - intros k k' Hk Hk' Hc. rewrite !fnv_hash_ci_fold by done. by rewrite Hc.
  - intros k k' v _ [Hk' _] _. by apply match_ptr_spec.
  - done.
  - intros ht k Hk _. unfold hashtable_spsc_op_get_ci. rewrite fnv_hash_ci_fold by done.
    by destruct (fnv_hash_range (tolower <$> ci_bytes k)) as (h & -> & Hh).
  - intros ht k v Hk _. unfold hashtable_spsc_op_try_set_ci. rewrite fnv_hash_ci_fold by done.
    by destruct (fnv_hash_range (tolower <$> ci_bytes k)) as (h & -> & Hh).
  - intros d ht k Hk _ [= <-]. unfold hashtable_spsc_op_delete_ci. rewrite fnv_hash_ci_fold by done.
    by destruct (fnv_hash_range (tolower <$> ci_bytes k)) as (h & -> & Hh).
Defined.

#[export, refine] Instance spsc_cs : SpscKey cs_key (list Z) := {|
  sk_wf k := wf_bytes (cs_bytes k);
  sk_canon k := cs_bytes k;
  sk_hash k := default 0 (fnv_32_hash (cs_bytes k) (zlen (cs_bytes k)));
  sk_bucket k v := Bucket (zlen (cs_bytes k)) (KeyPtr (cs_bytes k)) v;
  sk_test k := match_ptr (fun b => b) (cs_bytes k) (zlen (cs_bytes k));
  sk_free_ok _ := true;
  sk_get ht k := hashtable_spsc_op_get_cs ht (cs_bytes k) (zlen (cs_bytes k));
  sk_set ht k v := hashtable_spsc_op_try_set_cs ht (cs_bytes k) (zlen (cs_bytes k)) v;
  sk_delete := Some (fun ht k => hashtable_spsc_op_delete_cs ht (cs_bytes k) (zlen (cs_bytes k)))
|}.
Proof.
  - intros k _. by destruct (fnv_hash_range (cs_bytes k)) as (h & -> & Hh).
  - by intros k k' _ _ ->.
  - intros k k' v _ [Hk' _] _. by rewrite match_ptr_spec, !list_fmap_id.
  - done.
  - intros ht k _ _. unfold hashtable_spsc_op_get_cs.
    by destruct (fnv_hash_range (cs_bytes k)) as (h & -> & Hh).
  - intros ht k v _ _. unfold hashtable_spsc_op_try_set_cs.
    by destruct (fnv_hash_range (cs_bytes k)) as (h & -> & Hh).
  - intros d ht k _ _ [= <-]. unfold hashtable_spsc_op_delete_cs.
    by destruct (fnv_hash_range (cs_bytes k)) as (h & -> & Hh).
Defined.

(** A key looked up with a hash of the caller: the 31 bits of it that the
    table keeps are part of the identity. *)
#[export, refine] Instance spsc_by_hash : SpscKey hash_key (Z * list Z) := {|
  sk_wf k := 0 <= hk_hash k < 2 ^ 32 /\ wf_bytes (hk_bytes k);
  sk_canon k := (HASHTABLE_SPSC_HASH (hk_hash k), hk_bytes k);
  sk_hash k := hk_hash k;
  sk_bucket k v := Bucket (zlen (hk_bytes k)) (KeyPtr (hk_bytes k)) v;
  sk_test k := match_ptr (fun b => b) (hk_bytes k) (zlen (hk_bytes k));
  sk_free_ok _ := true;
  sk_get ht k := hashtable_spsc_op_get_by_hash ht (hk_hash k) (hk_bytes k) (zlen (hk_bytes k));
  sk_set ht k v := hashtable_spsc_op_try_set_by_hash ht (hk_hash k) (hk_bytes k) (zlen (hk_bytes k)) v;
  sk_delete := Some (fun ht k =>
    hashtable_spsc_op_delete_by_hash ht (hk_hash k) (hk_bytes k) (zlen (hk_bytes k)))
|}.
Proof.
  - by intros k [Hk _].
  - by intros k k' _ _ [= ->].
  - intros k k' v _ [_ [Hk' _]] Hh. rewrite match_ptr_spec, !list_fmap_id by done.
    f_equal. apply bool_decide_ext. rewrite Hh. split; [by intros ->|by intros [= ->]].
  - done.
  - done.
  - done.
  - by intros d ht k _ _ [= <-].
Defined.

#[export, refine] Instance spsc_uint32 : SpscKey u32_key (Z * Z) := {|
  sk_wf k := 0 <= uk_hash k < 2 ^ 32;
  sk_canon k := (HASHTABLE_SPSC_HASH (uk_hash k), uk_key k);
  sk_hash k := uk_hash k;
  sk_bucket k v := Bucket 0 (KeyU32 (uk_key k)) v;
  sk_test k := match_u32 (uk_key k);
  sk_free_ok f := negb f;
  sk_get ht k := hashtable_spsc_op_get_by_hash_and_key_uint32 ht (uk_hash k) (uk_key k);
  sk_set ht k v := hashtable_spsc_op_try_set_by_hash_and_key_uint32 ht (uk_hash k) (uk_key k) v;
  sk_delete := None
|}.
Proof.
  - done.
  - by intros k k' _ _ [= ->].
  - intros k k' v _ _ Hh. cbn. f_equal. rewrite Hh.
    destruct (Z.eqb_spec (uk_key k) (uk_key k')) as [->|Hne]; symmetry.
    + by apply bool_decide_eq_true.
    + apply bool_decide_eq_false. by intros [= Heq].
  - done.
  - intros ht k _ Hf. unfold hashtable_spsc_op_get_by_hash_and_key_uint32,
      hashtable_spsc_find_bucket_index_by_key_uint32. by rewrite Hf.
  - intros ht k v _ Hf. unfold hashtable_spsc_op_try_set_by_hash_and_key_uint32,
      hashtable_spsc_find_bucket_index_by_key_uint32. by rewrite Hf.
  - done.
Defined.

(** ** Sequences of operations *)

Inductive spsc_cmd (K : Type) := CSet (k : K) (v : Z) | CGet (k : K) | CDelete (k : K).
Arguments CSet {K} _ _.
Arguments CGet {K} _.
Arguments CDelete {K} _.

Inductive spsc_out := OBool (b : bool) | OVal (v : Z).

Section sequences.
Context {K C : Type} `{Countable C} `{!SpscKey K C}.
Implicit Types (k : K) (g : gmap Z (K * Z)) (m : gmap C Z) (c : spsc_cmd K).

Definition spsc_step (ht : hashtable_spsc) c : option (spsc_out * hashtable_spsc) :=
  match c with
  | CSet k v => '(b, ht) ← sk_set ht k v; Some (OBool b, ht)
  | CGet k => v ← sk_get ht k; Some (OVal v, ht)
  | CDelete k =>
      match sk_delete with
      | Some d => '(b, ht, _) ← d ht k; Some (OBool b, ht)
      | None => None
      end
  end.

Fixpoint spsc_run (ht : hashtable_spsc) (cs : list (spsc_cmd K)) : option (list spsc_out * hashtable_spsc) :=
  match cs with
  | [] => Some ([], ht)
  | c :: cs =>
      '(o, ht) ← spsc_step ht c;
      '(os, ht) ← spsc_run ht cs;
      Some (o :: os, ht)
  end.

(** The specification: which outcomes the map allows, and the next map.  A
    set may be refused, when the key is absent and at least [range] keys are
    stored; 0 is the value of an absent key. *)
Definition abs_allows (range : Z) m c (o : spsc_out) : Prop :=
  match c, o with
  | CSet k v, OBool true => True
  | CSet k v, OBool false => m !! sk_canon k = None /\ range <= Z.of_nat (size m)
  | CGet k, OVal v => v = default 0 (m !! sk_canon k)
  | CDelete k, OBool b => b = bool_decide (is_Some (m !! sk_canon k))
  | _, _ => False
  end.

Definition abs_next m c (o : spsc_out) : gmap C Z :=
  match c, o with
  | CSet k v, OBool true => <[sk_canon k := v]> m
  | CDelete k, _ => delete (sk_canon k) m
  | _, _ => m
  end.

Fixpoint abs_allows_run (range : Z) m (cs : list (spsc_cmd K)) (os : list spsc_out) : Prop :=
  match cs, os with
  | [], [] => True
  | c :: cs, o :: os => abs_allows range m c o /\ abs_allows_run range (abs_next m c o) cs os
  | _, _ => False
  end.

Fixpoint abs_final m (cs : list (spsc_cmd K)) (os : list spsc_out) : gmap C Z :=
  match cs, os with
  | c :: cs, o :: os => abs_final (abs_next m c o) cs os
  | _, _ => m
  end.

Definition cmd_ok c : Prop :=
  match c with
  | CSet k _ | CGet k => sk_wf k
  | CDelete k => sk_wf k /\ is_Some (sk_delete (K := K))
  end.

Lemma spsc_step_spec ht p g m c :
  spsc_inv ht p g -> stands_for g m -> cmd_ok c ->
  exists o ht' g', spsc_step ht c = Some (o, ht') /\ abs_allows (max_range ht) m c o /\
    spsc_inv ht' p g' /\ stands_for g' (abs_next m c o) /\ same_size ht' ht.
Proof.
  intros Hi Hm Hc. destruct c as [k v|k|k]; cbn [cmd_ok spsc_step] in *.
  - destruct (sk_set_spec ht p g m k v Hi Hm Hc) as [(i & -> & Hi' & Hm')|(-> & Hn & Hs)].
    + by exists (OBool true), (put ht k v i), (<[i := (k, v)]> g).
    + by exists (OBool false), ht, g.
  - rewrite (sk_get_spec ht p g m k Hi Hm Hc). by eexists (OVal _), ht, g.
  - destruct Hc as [Hk [d Hd]]. rewrite Hd.
    destruct (sk_delete_spec d ht p g m k Hd Hi Hm Hk) as (ht' & g' & freed & -> & Hi' & Hm' & Hr).
    by eexists (OBool _), ht', g'.
Qed.

Lemma spsc_run_spec ht p g m cs :
  spsc_inv ht p g -> stands_for g m -> Forall cmd_ok cs ->
  exists os ht' g', spsc_run ht cs = Some (os, ht') /\ abs_allows_run (max_range ht) m cs os /\
    spsc_inv ht' p g' /\ stands_for g' (abs_final m cs os) /\ same_size ht' ht.
Proof.
  intros Hi Hm Hcs. revert ht g m Hi Hm. induction Hcs as [|c cs Hc _ IH]; intros ht g m Hi Hm.
  { by exists [], ht, g. }
  destruct (spsc_step_spec ht p g m c Hi Hm Hc) as (o & ht1 & g1 & Hstep & Ha & Hi1 & Hm1 & Hr1 & Hb1).
  destruct (IH ht1 g1 _ Hi1 Hm1) as (os & ht2 & g2 & Hrun & Ha2 & Hi2 & Hm2 & Hr2 & Hb2).
  exists (o :: os), ht2, g2. cbn [spsc_run]. rewrite Hstep. cbn [mbind option_bind].
  rewrite Hrun. rewrite Hr1 in Ha2, Hr2. rewrite Hb1 in Hb2. done.
Qed.

Lemma inv_empty ht p :
  geometry ht p -> sk_free_ok (K := K) (free_keys_on_deallocation ht) = true ->
  (forall i, occ ht i = false) -> spsc_inv ht p (∅ : gmap Z (K * Z)).
Proof.
  intros Hg Hf Ho. split; try done.
  - intros i. rewrite Ho, lookup_empty. split; [done|]. by intros [? ?].
Qed.

Lemma stands_for_empty : stands_for (∅ : gmap Z (K * Z)) ∅.
Proof.
  intros c v. rewrite lookup_empty. split; [done|]. intros (i & k & Hi & _). by rewrite lookup_empty in Hi.
Qed.

Lemma spsc_new_run count range free_keys cs :
  1 <= count <= 2 ^ 31 -> 0 < range < 2 ^ 16 -> sk_free_ok (K := K) free_keys = true ->
  Forall cmd_ok cs ->
  exists ht0 ht os p (g : gmap Z (K * Z)), hashtable_spsc_new count range free_keys = Some ht0 /\
    spsc_run ht0 cs = Some (os, ht) /\ abs_allows_run range ∅ cs os /\
    spsc_inv ht p g /\ stands_for g (abs_final ∅ cs os) /\ max_range ht = range /\
    buckets_count ht = count.
Proof.
  intros Hc Hr Hf Hcs.
  destruct (hashtable_spsc_new_spec count range free_keys Hc Hr) as (p & ht0 & Hn & Hg & Hbc & Hmr & Hfk & Ho).
  rewrite <- Hfk in Hf.
  destruct (spsc_run_spec ht0 p ∅ ∅ cs (inv_empty ht0 p Hg Hf Ho) stands_for_empty Hcs)
    as (os & ht & g & Hrun & Ha & Hi & Hm & Hr' & Hb').
  exists ht0, ht, os, p, g. rewrite Hmr in *. rewrite Hbc in Hb'. done.
Qed.

(** C28: for each kind of keys (case insensitive, case sensitive, by hash,
    32-bit), any sequence of try_set, get and delete on a new table runs without
    leaving the arrays or failing an assertion, and its outcomes are those of a
    map keyed by the identity of the key; a try_set is refused only for an
    absent key and when at least [max_range] keys are stored, and then changes
    nothing. *)
Theorem spsc_refines_map count range free_keys cs :
  1 <= count <= 2 ^ 31 -> 0 < range < 2 ^ 16 -> sk_free_ok (K := K) free_keys = true ->
  Forall cmd_ok cs ->
  exists ht0 ht os, hashtable_spsc_new count range free_keys = Some ht0 /\
    spsc_run ht0 cs = Some (os, ht) /\ abs_allows_run range ∅ cs os /\
    (forall k, sk_wf k -> sk_get ht k = Some (default 0 (abs_final ∅ cs os !! sk_canon k))).
Proof.
  intros Hc Hr Hf Hcs.
  destruct (spsc_new_run count range free_keys cs Hc Hr Hf Hcs)
    as (ht0 & ht & os & p & g & Hn & Hrun & Ha & Hi & Hm & _).
  exists ht0, ht, os. do 3 (split; [done|]). intros k Hk. by apply (sk_get_spec ht p g).
Qed.

End sequences.

(** ** Upsize *)

Lemma cmp_hash_idemp hash : HASHTABLE_SPSC_HASH (HASHTABLE_SPSC_HASH hash) = HASHTABLE_SPSC_HASH hash.
Proof. rewrite !cmp_hash_mod. apply Z.mod_mod. lia. Qed.

Lemma pow2_next_double x p p' :
  1 <= x <= 2 ^ 30 -> Pow2.pow2_next x = 2 ^ p -> Pow2.pow2_next (x * 2) = 2 ^ p' ->
  0 <= p -> 0 <= p' -> p' = p + 1.
Proof.
  intros Hx Hp Hp' Hp0 Hp0'.
  destruct (Pow2.pow2_next_least x ltac:(mach_lia)) as (q & Hq & Hqe & Hqx & Hql).
  destruct (Pow2.pow2_next_least (x * 2) ltac:(mach_lia)) as (q' & Hq' & Hqe' & Hqx' & Hql').
  assert (p = q) as -> by (apply (Z.pow_inj_r 2); lia).
  assert (p' = q') as -> by (apply (Z.pow_inj_r 2); lia).
  assert (q' <= q + 1). { apply Hql'; [lia|]. rewrite Z.pow_add_r by lia. lia. }
  destruct (decide (q' = 0)) as [->|]; [cbn in Hqx'; lia|].
  assert (q <= q' - 1); [|lia]. apply Hql; [lia|].
  assert (2 ^ q' = 2 ^ (q' - 1) * 2); [|lia].
  replace q' with ((q' - 1) + 1) at 1 by lia. rewrite Z.pow_add_r by lia. lia.
Qed.

Lemma home_double p hash :
  0 <= p -> home (p + 1) hash = home p hash \/ home (p + 1) hash = home p hash + 2 ^ p.
Proof.
  intros Hp. unfold home. rewrite Z.pow_add_r by lia. change (2 ^ 1) with 2.
  assert (0 < 2 ^ p) by (apply Z.pow_pos_nonneg; lia).
  rewrite Z.rem_mul_r by lia.
  pose proof (Z.mod_pos_bound (hash / 2 ^ p) 2 ltac:(lia)) as Hb.
  assert ((hash / 2 ^ p) `mod` 2 = 0 \/ (hash / 2 ^ p) `mod` 2 = 1) as [-> | ->] by lia; lia.
Qed.

Section upsize.
Context {K C : Type} `{Countable C} `{!SpscKey K C}.
Implicit Types (k : K) (g : gmap Z (K * Z)) (m : gmap C Z).

(** After the buckets below [i], the new content is the old one restricted to
    them. *)
Record moved (g g' : gmap Z (K * Z)) (i : Z) : Prop := {
  moved_from q k v : g' !! q = Some (k, v) -> exists j, j < i /\ g !! j = Some (k, v);
  moved_to j k v : j < i -> g !! j = Some (k, v) -> exists q, g' !! q = Some (k, v)
}.

(** No entry is further from its home than it was. *)
Definition closer (p p' : Z) (g g' : gmap Z (K * Z)) : Prop :=
  forall q k v j, g' !! q = Some (k, v) -> g !! j = Some (k, v) ->
    q - home p' (sk_hash k) <= j - home p (sk_hash k).

Definition no_overflow (p : Z) (g : gmap Z (K * Z)) : Prop :=
  forall j, is_Some (g !! j) -> j < 2 ^ p.

Lemma moved_skip g g' i : g !! i = None -> moved g g' i -> moved g g' (i + 1).
Proof.
  intros Hn [Hf Ht]. split.
  - intros q k v Hq. destruct (Hf q k v Hq) as (j & Hj & Hg). exists j. split; [lia|done].
  - intros j k v Hj Hg. apply (Ht j); [|done].
    assert (j <> i) by congruence. lia.
Qed.

Lemma moved_put ht p ht' p' g g' i j k v :
  spsc_inv ht p g -> spsc_inv ht' p' g' -> g !! i = Some (k, v) -> g' !! j = None ->
  moved g g' i -> moved g (<[j := (k, v)]> g') (i + 1).
Proof.
  intros Hi Hi' Hg Hj [Hf Ht]. split.
  - intros q k1 v1 [[<- [= <- <-]]|[Hne Hq]]%lookup_insert_Some.
    + exists i. split; [lia|done].
    + destruct (Hf q k1 v1 Hq) as (j1 & Hj1 & Hg1). exists j1. split; [lia|done].
  - intros j1 k1 v1 Hj1 Hg1. destruct (decide (j1 = i)) as [->|Hne].
    + exists j. rewrite lookup_insert_eq. congruence.
    + destruct (Ht j1 k1 v1) as [q Hq]; [lia|done|]. exists q.
      rewrite lookup_insert_ne; [done|]. congruence.
Qed.

Lemma moved_sole ht p g g' i j k v :
  spsc_inv ht p g -> g !! i = Some (k, v) -> moved g g' i -> sole g' k j.
Proof.
  intros Hi Hg [Hf _] q k' v' Hq Hc. destruct (Hf q k' v' Hq) as (j' & Hj' & Hg').
  pose proof (inv_unique _ _ _ Hi _ _ _ _ _ _ Hg' Hg Hc). lia.
Qed.

(** The move of one bucket: the entry goes to the first empty bucket of its
    range in the new table, or the whole range is in use and the code aborts. *)
Lemma upsize_move_spec ht p ht' p' g g' i k v :
  spsc_inv ht p g -> spsc_inv ht' p' g' -> g !! i = Some (k, v) -> moved g g' i ->
  let lo := home p' (sk_hash k) in
  (exists j, upsize_move ht ht' i = Some (put ht' k v j) /\
     spsc_inv (put ht' k v j) p' (<[j := (k, v)]> g') /\ g' !! j = None /\
     forall q, lo <= q < j -> is_Some (g' !! q)) \/
  (upsize_move ht ht' i = None /\ forall q, lo <= q < lo + max_range ht' -> is_Some (g' !! q)).
Proof.
  intros Hi Hi' Hg Hmv lo. destruct (inv_entry _ _ _ Hi _ _ _ Hg) as (Hk & Hh & Hb & _).
  pose proof (inv_geo _ _ _ Hi') as Hg'. pose proof (geo_p _ _ Hg') as Hp'.
  pose proof (real_bound _ _ Hg'). pose proof (geo_range _ _ Hg'). pose proof (geo_real _ _ Hg').
  assert (0 <= lo < 2 ^ p') by (apply spsc_home_range; lia).
  unfold upsize_move. rewrite Hh. cbn [mbind option_bind is_set negb cmp_hash].
  rewrite (index_from_hash_home ht' p'), home_cmp_hash by done. fold lo.
  rewrite (wrap_small 32 lo), (wrap_small 32 (lo + max_range ht')) by mach_lia.
  unfold hashtable_spsc_find_empty_bucket.
  destruct (probe_spec false ht' p' (S (Z.to_nat (lo + max_range ht' - lo))) lo (lo + max_range ht'))
    as [(j & -> & Hj & Hjm & Ho & Hq) | (-> & _ & Hq)]; [done|lia..| |]; cbn [mbind option_bind].
  - left. exists j. destruct (Z.eqb_spec j (-1)); [lia|]. rewrite Hb.
    split; [by rewrite ?cmp_hash_idemp|]. split.
    + apply inv_put; try done; [unfold lo in *; lia|]. by apply (moved_sole ht p g g' i j k v).
    + split.
      * apply eq_None_not_Some. rewrite <- (inv_occ _ _ _ Hi'). congruence.
      * intros q Hqr. apply (inv_occ _ _ _ Hi'). by apply Hq.
  - right. split; [done|]. intros q Hqr. apply (inv_occ _ _ _ Hi'). by apply Hq.
Qed.

Lemma upsize_move_empty ht p g ht' i :
  spsc_inv ht p g -> 0 <= i < buckets_count_real ht -> g !! i = None -> upsize_move ht ht' i = Some ht'.
Proof.
  intros Hi Hr Hn. destruct (occ_zget ht p i (inv_geo _ _ _ Hi) Hr) as (h & Hh & Hs).
  assert (occ ht i = false) as Ho.
  { apply not_true_is_false. rewrite (inv_occ _ _ _ Hi), Hn. by intros [? ?]. }
  unfold upsize_move. rewrite Hh. cbn [mbind option_bind]. by rewrite Hs, Ho.
Qed.

(** Whenever the loop ends, all the entries are in the new table. *)
Lemma upsize_loop_moved ht p g n :
  spsc_inv ht p g -> forall ht' p' g' i ht'',
  0 <= i -> i + Z.of_nat n <= buckets_count_real ht ->
  spsc_inv ht' p' g' -> moved g g' i -> upsize_loop ht ht' n i = Some ht'' ->
  exists g'', spsc_inv ht'' p' g'' /\ moved g g'' (i + Z.of_nat n).
Proof.
  intros Hi. induction n as [|n IH]; intros ht' p' g' i ht'' H0 Hn Hi' Hmv.
  { cbn. intros [= <-]. exists g'. by rewrite Z.add_0_r. }
  cbn [upsize_loop]. replace (i + Z.of_nat (S n)) with ((i + 1) + Z.of_nat n) by lia.
  destruct (g !! i) as [[k v]|] eqn:Hg.
  - destruct (upsize_move_spec ht p ht' p' g g' i k v Hi Hi' Hg Hmv)
      as [(j & -> & Hi1 & Hj & _)|[-> _]]; [|done]. cbn [mbind option_bind].
    apply (IH (put ht' k v j) p' (<[j := (k, v)]> g')); [lia..|done|].
    by apply (moved_put ht p ht' p').
  - rewrite (upsize_move_empty ht p g) by (done || lia). cbn [mbind option_bind].
    apply (IH ht' p' g'); [lia..|done|]. by apply moved_skip.
Qed.

(** The pigeonhole of the doubling: when no bucket past the power of two is
    in use, the entries moved before the one of bucket [i] cannot fill the
    buckets up to its old distance from home. *)
Lemma not_crowded ht p g ht' g' i k v :
  spsc_inv ht p g -> spsc_inv ht' (p + 1) g' -> no_overflow p g -> closer p (p + 1) g g' ->
  moved g g' i -> g !! i = Some (k, v) ->
  (forall q, home (p + 1) (sk_hash k) <= q <= home (p + 1) (sk_hash k) + (i - home p (sk_hash k)) ->
     is_Some (g' !! q)) -> False.
Proof.
  intros Hi Hi' Hno Hcl Hmv Hg Hfull.
  pose proof (geo_p _ _ (inv_geo _ _ _ Hi)) as Hp.
  destruct (inv_entry _ _ _ Hi _ _ _ Hg) as (_ & _ & _ & Hr).
  assert (i < 2 ^ p) by (apply Hno; by eexists).
  pose proof (spsc_home_range p (sk_hash k) (proj1 Hp)).
  remember (home (p + 1) (sk_hash k)) as lo eqn:Elo. remember (home p (sk_hash k)) as h eqn:Eh.
  assert (forall t, Z.of_nat t <= i - h + 1 -> exists l : list Z, length l = t /\ NoDup l /\
    forall j, j ∈ l -> h <= j < i /\ exists q k v, lo <= q < lo + Z.of_nat t /\
      g' !! q = Some (k, v) /\ g !! j = Some (k, v)) as Hl.
  { intros t. induction t as [|t IH]; intros Ht.
    { exists []. split; [done|]. split; [constructor|]. intros j Hj. by apply not_elem_of_nil in Hj. }
    destruct IH as (l & Hlen & Hnd & Hin); [lia|].
    destruct (Hfull (lo + Z.of_nat t)) as [[k1 v1] Hq]; [lia|].
    destruct (moved_from _ _ _ Hmv _ _ _ Hq) as (j & Hji & Hj).
    exists (j :: l). split; [cbn; lia|]. split.
    - constructor; [|done]. intros (_ & q' & k2 & v2 & Hq' & Hg2 & Hj2)%Hin.
      assert (k1 = k2) as <- by congruence.
      pose proof (inv_unique _ _ _ Hi' _ _ _ _ _ _ Hg2 Hq eq_refl). lia.
    - intros j' [->|Hj']%elem_of_cons.
      + split; [|exists (lo + Z.of_nat t), k1, v1; split; [lia|done]]. split; [|done].
        pose proof (Hcl _ _ _ _ Hq Hj) as Hd.
        destruct (inv_entry _ _ _ Hi' _ _ _ Hq) as (_ & _ & _ & Hr1).
        assert (j < 2 ^ p) by (apply Hno; by eexists).
        pose proof (spsc_home_range p (sk_hash k1) (proj1 Hp)).
        destruct (home_double p (sk_hash k) (proj1 Hp)), (home_double p (sk_hash k1) (proj1 Hp)); lia.
      + destruct (Hin j' Hj') as (Hjr & q & k2 & v2 & Hq2 & Hg2). split; [done|].
        exists q, k2, v2. split; [lia|done]. }
  destruct (Hl (Z.to_nat (i - h + 1))) as (l & Hlen & Hnd & Hin); [lia|].
  assert (l ⊆+ seqZ h (i - h)) as Hsub.
  { apply NoDup_submseteq; [done|]. intros j Hj. apply elem_of_seqZ.
    destruct (Hin j Hj) as [? _]. lia. }
  apply submseteq_length in Hsub. rewrite length_seqZ in Hsub. lia.
Qed.

Lemma closer_put ht p p' g g' i j k v :
  spsc_inv ht p g -> closer p p' g g' -> g !! i = Some (k, v) ->
  j - home p' (sk_hash k) <= i - home p (sk_hash k) -> closer p p' g (<[j := (k, v)]> g').
Proof.
  intros Hi Hcl Hg Hd q k1 v1 j1 [[<- [= <- <-]]|[Hne Hq]]%lookup_insert_Some Hj1.
  - by rewrite (inv_unique _ _ _ Hi _ _ _ _ _ _ Hj1 Hg eq_refl).
  - by apply (Hcl q k1 v1 j1).
Qed.

(** Without overflow the loop always finds room. *)
Lemma upsize_loop_succeeds ht p g n :
  spsc_inv ht p g -> no_overflow p g -> forall ht' g' i,
  0 <= i -> i + Z.of_nat n <= buckets_count_real ht -> max_range ht' = max_range ht ->
  spsc_inv ht' (p + 1) g' -> moved g g' i -> closer p (p + 1) g g' ->
  is_Some (upsize_loop ht ht' n i).
Proof.
  intros Hi Hno. induction n as [|n IH]; intros ht' g' i H0 Hn Hr Hi' Hmv Hcl; [by eexists|].
  cbn [upsize_loop]. destruct (g !! i) as [[k v]|] eqn:Hg.
  - pose proof (not_crowded ht p g ht' g' i k v Hi Hi' Hno Hcl Hmv Hg) as Hroom.
    destruct (inv_entry _ _ _ Hi _ _ _ Hg) as (_ & _ & _ & Hw).
    destruct (upsize_move_spec ht p ht' (p + 1) g g' i k v Hi Hi' Hg Hmv)
      as [(j & -> & Hi1 & Hj & Hq)|[_ Hq]]; cbn [mbind option_bind].
    + apply (IH _ (<[j := (k, v)]> g')); [lia..|done|done| |].
      * by apply (moved_put ht p ht' (p + 1)).
      * apply (closer_put ht p (p + 1) g g' i j k v); try done.
        destruct (decide (j - home (p + 1) (sk_hash k) <= i - home p (sk_hash k))); [done|].
        exfalso. apply Hroom. intros q Hqr. apply Hq. lia.
    + exfalso. apply Hroom. intros q Hqr. apply Hq. lia.
  - rewrite (upsize_move_empty ht p g) by (done || lia). cbn [mbind option_bind].
    apply (IH ht' g'); [lia..|done|done| |done]. by apply moved_skip.
Qed.

End upsize.

(** ** Iteration *)

Section iteration.
Context {K C : Type} `{Countable C} `{!SpscKey K C} (ht : hashtable_spsc).
Implicit Types (k : K) (g : gmap Z (K * Z)) (m : gmap C Z).

Lemma moved_stands_for g g' n m p :
  spsc_inv ht p g -> n = buckets_count_real ht -> moved g g' n -> stands_for g m -> stands_for g' m.
Proof.
  intros Hi -> [Hf Ht] Hm c v. rewrite (Hm c v). split.
  - intros (i & k & Hg & Hc). destruct (Ht i k v) as [q Hq]; [|done|by exists q, k].
    destruct (inv_entry _ _ _ Hi _ _ _ Hg) as (_ & Hh & _).
    apply zget_Some_range in Hh. rewrite (geo_hashes _ _ (inv_geo _ _ _ Hi)) in Hh. lia.
  - intros (q & k & Hq & Hc). destruct (Hf q k v Hq) as (j & _ & Hj). by exists j, k.
Qed.

Lemma omap_none {A B} (f : A -> option B) l : (forall x, x ∈ l -> f x = None) -> omap f l = [].
Proof.
  induction l as [|x l IH]; intros Hn; [done|]. cbn. rewrite Hn by (by left).
  apply IH. intros y Hy. apply Hn. by right.
Qed.

Lemma NoDup_omap_inj {A B} (f : A -> option B) l :
  (forall x y z, f x = Some z -> f y = Some z -> x = y) -> NoDup l -> NoDup (omap f l).
Proof.
  intros Hinj. induction 1 as [|x l Hx _ IH]; [constructor|]. cbn.
  destruct (f x) as [z|] eqn:Hf; [|done]. constructor; [|done].
  intros (y & Hy & Hfy)%list_elem_of_omap. apply Hx. by rewrite (Hinj x y z).
Qed.

Definition value_at (g : gmap Z (K * Z)) (i : Z) : option Z := snd <$> g !! i.

Lemma occ_value_at p g i : spsc_inv ht p g -> occ ht i = false -> value_at g i = None.
Proof.
  intros Hi Ho. unfold value_at. destruct (g !! i) eqn:Hg; [|done].
  assert (occ ht i = true) by (apply (inv_occ _ _ _ Hi); by eexists). congruence.
Qed.

Lemma iter_values_spec p g fuel i :
  spsc_inv ht p g -> (forall j k v, g !! j = Some (k, v) -> v <> 0) ->
  0 <= i < buckets_count_real ht -> buckets_count_real ht - i < Z.of_nat fuel ->
  iter_values ht fuel i = Some (omap (value_at g) (seqZ i (buckets_count_real ht - i))).
Proof.
  intros Hi Hnz. pose proof (inv_geo _ _ _ Hi) as Hg. pose proof (real_bound _ _ Hg).
  pose proof (inv_last _ _ _ Hi) as Hlast. revert i.
  induction fuel as [|fuel IH]; intros i Hr Hf; [lia|].
  cbn [iter_values]. unfold hashtable_spsc_op_iter, hashtable_spsc_find_set_bucket.
  rewrite (wrap_small 32 i) by mach_lia.
  destruct (probe_spec true ht p (S (Z.to_nat (buckets_count_real ht - i))) i (buckets_count_real ht))
    as [(j & -> & Hj & _ & Ho & Hq) | (-> & _ & Hq)]; [done|lia..| |]; cbn [mbind option_bind].
  - destruct (Z.eqb_spec j (-1)); [lia|].
    destruct (proj1 (inv_occ _ _ _ Hi j) Ho) as [[k v] Hgj].
    destruct (inv_entry _ _ _ Hi _ _ _ Hgj) as (_ & _ & Hb & _). rewrite Hb. cbn [mbind option_bind].
    rewrite sk_value. destruct (Z.eqb_spec v 0) as [->|]; [by apply Hnz in Hgj|].
    assert (j <> buckets_count_real ht - 1) by congruence.
    rewrite IH by lia. cbn [mbind option_bind]. f_equal.
    replace (buckets_count_real ht - i) with ((j - i) + (1 + (buckets_count_real ht - (j + 1)))) by lia.
    rewrite (seqZ_app i (j - i)), omap_app by lia.
    rewrite (omap_none _ (seqZ i (j - i))), app_nil_l.
    2:{ intros x Hx%elem_of_seqZ. apply (occ_value_at p); [done|]. apply Hq. lia. }
    rewrite (seqZ_cons (i + (j - i))) by lia. replace (i + (j - i)) with j by lia. cbn [omap list_omap].
    unfold value_at at 2. rewrite Hgj. cbn. by replace (Z.pred (1 + (buckets_count_real ht - (j + 1))))
      with (buckets_count_real ht - (j + 1)) by lia.
  - change (-1 =? -1) with true. cbn. f_equal. symmetry. apply omap_none.
    intros x Hx%elem_of_seqZ. apply (occ_value_at p); [done|]. apply Hq. lia.
Qed.

(** The content of the buckets, in order, is the map without repetitions. *)
Lemma values_permutation p g m :
  spsc_inv ht p g -> stands_for g m ->
  omap (value_at g) (seqZ 0 (buckets_count_real ht)) ≡ₚ (map_to_list m).*2.
Proof.
  intros Hi Hm.
  set (f := fun i => (fun '(k, v) => (sk_canon k, v)) <$> g !! i).
  assert (omap (value_at g) (seqZ 0 (buckets_count_real ht))
          = (omap f (seqZ 0 (buckets_count_real ht))).*2) as ->.
  { induction (seqZ 0 (buckets_count_real ht)) as [|i l IH]; [done|]. cbn.
    unfold value_at at 1, f at 1. destruct (g !! i) as [[k v]|]; cbn; by rewrite IH. }
  apply fmap_Permutation. apply NoDup_Permutation.
  - apply NoDup_omap_inj; [|apply NoDup_seqZ]. intros i j [c v].
    unfold f. intros ([ki vi] & Hgi & [= -> ->])%fmap_Some ([kj vj] & Hgj & [= Hc _])%fmap_Some.
    by apply (inv_unique _ _ _ Hi _ _ _ _ _ _ Hgi Hgj).
  - apply NoDup_map_to_list.
  - intros [c v]. rewrite elem_of_map_to_list, list_elem_of_omap, (Hm c v). split.
    + intros (i & _ & ([k w] & Hgi & [= -> ->])%fmap_Some). by exists i, k.
    + intros (i & k & Hgi & <-). exists i. split; [|unfold f; by rewrite Hgi].
      destruct (inv_entry _ _ _ Hi _ _ _ Hgi) as (_ & Hh & _). apply zget_Some_range in Hh.
      rewrite (geo_hashes _ _ (inv_geo _ _ _ Hi)) in Hh. apply elem_of_seqZ. lia.
Qed.

End iteration.

(** ** Reached tables *)

Section reached.
Context {K C : Type} `{Countable C} `{!SpscKey K C}.
Context (count range : Z) (free_keys : bool) (cs : list (spsc_cmd K)) (os : list spsc_out).
Context (ht0 ht : hashtable_spsc).
Implicit Types (k : K) (g : gmap Z (K * Z)) (m : gmap C Z).
Hypothesis Hrange : 0 < range < 2 ^ 16.
Hypothesis Hfree : sk_free_ok (K := K) free_keys = true.
Hypothesis Hcs : Forall cmd_ok cs.
Hypothesis Hnew : hashtable_spsc_new count range free_keys = Some ht0.
Hypothesis Hrun : spsc_run ht0 cs = Some (os, ht).

Lemma reached_inv :
  1 <= count <= 2 ^ 31 ->
  exists p (g : gmap Z (K * Z)), spsc_inv ht p g /\ stands_for g (abs_final ∅ cs os) /\ max_range ht = range /\
    buckets_count ht = count.
Proof using Hrange Hfree Hcs Hnew Hrun.
  intros Hc. destruct (spsc_new_run count range free_keys cs Hc Hrange Hfree Hcs)
    as (ht0' & ht' & os' & p & g & Hn & Hr & _ & Hi & Hm & Hmr & Hb).
  rewrite Hnew in Hn. injection Hn as <-. rewrite Hrun in Hr.
  apply (inj Some) in Hr. apply pair_equal_spec in Hr as [<- <-]. by exists p, g.
Qed.

(** Doubling a table reached by any sequence of operations keeps every
    lookup and frees no key, whenever it returns; and it does return, instead of
    aborting for lack of an empty bucket, when no bucket past the power of two
    is in use. *)
Theorem spsc_upsize_preserves :
  1 <= count <= 2 ^ 30 ->
  (forall ht' freed, hashtable_spsc_upsize ht = Some (ht', freed) ->
     freed = [] /\ forall k, sk_wf (K := K) k -> sk_get ht' k = sk_get ht k) /\
  ((forall i, buckets_count_pow2 ht <= i -> occ ht i = false) ->
     is_Some (hashtable_spsc_upsize ht)).
Proof using Hrange Hfree Hcs Hnew Hrun.
  intros Hc. destruct reached_inv as (p & g & Hi & Hm & Hmr & Hbc); [mach_lia|].
  pose proof (inv_geo _ _ _ Hi) as Hg. pose proof (real_bound _ _ Hg).
  destruct (hashtable_spsc_new_spec (count * 2) range (free_keys_on_deallocation ht))
    as (p' & ht1 & Hn1 & Hg1 & Hbc1 & Hmr1 & Hf1 & Ho1); [mach_lia|done|].
  assert (p' = p + 1) as ->.
  { eapply (pow2_next_double count); [done| | | |].
    - rewrite <- Hbc. apply (geo_next _ _ Hg).
    - rewrite <- Hbc1. apply (geo_next _ _ Hg1).
    - apply (geo_p _ _ Hg).
    - apply (geo_p _ _ Hg1). }
  assert (spsc_inv ht1 (p + 1) (∅ : gmap Z (K * Z))) as Hi1.
  { apply inv_empty; [done| |done]. rewrite Hf1. apply (inv_free _ _ _ Hi). }
  assert (moved g ∅ 0) as Hmv.
  { split; [intros q k v Hq; by rewrite lookup_empty in Hq|]. intros j k v Hj Hgj.
    destruct (inv_entry _ _ _ Hi _ _ _ Hgj) as (_ & Hh & _). apply zget_Some_range in Hh. lia. }
  unfold hashtable_spsc_upsize. rewrite Hbc, (wrap_small 32 (count * 2)) by mach_lia.
  rewrite Hmr, Hn1. cbn [mbind option_bind]. split.
  - intros ht' freed. destruct (upsize_loop _ _ _ _) as [ht2|] eqn:Hl; [|done].
    cbn [mbind option_bind]. cbn. intros [<- <-]%(inj Some)%pair_equal_spec. split; [done|].
    intros k Hk.
    destruct (upsize_loop_moved ht p g (Z.to_nat (buckets_count_real ht)) Hi ht1 (p + 1) ∅ 0 ht2 ltac:(lia) ltac:(lia) Hi1 Hmv Hl)
      as (g2 & Hi2 & Hmv2).
    rewrite (sk_get_spec ht p g (abs_final ∅ cs os)), (sk_get_spec ht2 (p + 1) g2 (abs_final ∅ cs os)); try done.
    eapply moved_stands_for; [exact Hi| |exact Hmv2|exact Hm]. lia.
  - intros Hover. assert (no_overflow p g) as Hno.
    { intros j Hj. apply Z.nle_gt. intros Hge. rewrite <- (geo_pow2 _ _ Hg) in Hge.
      apply Hover in Hge. apply (inv_occ _ _ _ Hi) in Hj. congruence. }
    assert (closer p (p + 1) g ∅) as Hcl by (intros q k v j Hq; by rewrite lookup_empty in Hq).
    destruct (upsize_loop_succeeds ht p g (Z.to_nat (buckets_count_real ht)) Hi Hno ht1 ∅ 0
      ltac:(lia) ltac:(lia) ltac:(congruence) Hi1 Hmv Hcl) as [ht2 ->]. by eexists.
Qed.

(** The iteration idiom of the callers, on a table reached by any
    sequence of operations, stays inside the arrays and visits the value of
    every key of the map exactly once, provided that none of them is NULL. *)
Theorem spsc_iteration_visits_values :
  1 <= count <= 2 ^ 31 -> map_Forall (fun _ v => v <> 0) (abs_final ∅ cs os) ->
  exists vs, iter_values ht (S (Z.to_nat (buckets_count_real ht))) 0 = Some vs /\
    vs ≡ₚ (map_to_list (abs_final ∅ cs os)).*2.
Proof using Hrange Hfree Hcs Hnew Hrun.
  intros Hc Hnz. destruct (reached_inv Hc) as (p & g & Hi & Hm & _).
  pose proof (real_bound _ _ (inv_geo _ _ _ Hi)). eexists. split.
  - apply (iter_values_spec ht p g); [done| |lia|lia].
    intros j k v Hg. apply (Hnz (sk_canon k)). apply Hm. by exists j, k.
  - rewrite Z.sub_0_r. by apply (values_permutation ht p).
Qed.

End reached.

(** ** Instances of the theorems *)

Definition hello : list Z := [72; 101; 108; 108; 111].
Definition HELLO : list Z := [72; 69; 76; 76; 79].
Definition ci_cmds : list (spsc_cmd ci_key) :=
  [CSet (CiKey hello) 7; CGet (CiKey HELLO); CSet (CiKey [71]) 9; CSet (CiKey HELLO) 8;
   CDelete (CiKey [103]); CDelete (CiKey [71])].
Definition ci_outs : list spsc_out :=
  [OBool true; OVal 7; OBool true; OBool true; OBool true; OBool false].

Lemma ci_cmds_ok : Forall (cmd_ok (K := ci_key)) ci_cmds.
Proof.
  repeat constructor; cbn; try lia; try done; by eexists.
Defined.

Definition reached_ci : hashtable_spsc :=
  match hashtable_spsc_new 3 2 true with
  | Some ht0 => match spsc_run ht0 ci_cmds with Some (_, ht) => ht | None => ht0 end
  | None => Spsc 0 0 0 0 false [] []
  end.

Definition new_ci : hashtable_spsc :=
  Spsc 3 4 6 2 true (replicate 6 (Hash false 0)) (replicate 6 (Bucket 0 (KeyU32 0) 0)).

Lemma spsc_refines_map_witness :
  exists ht0 ht os, hashtable_spsc_new 3 2 true = Some ht0 /\
    spsc_run ht0 ci_cmds = Some (os, ht) /\ abs_allows_run 2 ∅ ci_cmds os /\
    (forall k : ci_key, sk_wf k -> sk_get ht k = Some (default 0 (abs_final ∅ ci_cmds os !! sk_canon k))).
Proof. apply (spsc_refines_map 3 2 true ci_cmds); [lia|lia|done|apply ci_cmds_ok]. Defined.

Lemma spsc_upsize_preserves_witness :
  (forall ht' freed, hashtable_spsc_upsize reached_ci = Some (ht', freed) ->
     freed = [] /\ forall k : ci_key, sk_wf k -> sk_get ht' k = sk_get reached_ci k) /\
  ((forall i, buckets_count_pow2 reached_ci <= i -> occ reached_ci i = false) ->
     is_Some (hashtable_spsc_upsize reached_ci)).
Proof.
  apply (spsc_upsize_preserves 3 2 true ci_cmds ci_outs new_ci reached_ci).
  - lia.
  - reflexivity.
  - apply ci_cmds_ok.
  - vm_compute. reflexivity.
  - vm_compute. reflexivity.
  - lia.
Defined.

Lemma spsc_iteration_visits_values_witness :
  exists vs, iter_values reached_ci (S (Z.to_nat (buckets_count_real reached_ci))) 0 = Some vs /\
    vs ≡ₚ (map_to_list (abs_final ∅ ci_cmds ci_outs)).*2.
Proof.
  apply (spsc_iteration_visits_values 3 2 true ci_cmds ci_outs new_ci reached_ci).
  - lia.
  - reflexivity.
  - apply ci_cmds_ok.
  - vm_compute. reflexivity.
  - vm_compute. reflexivity.
  - lia.
  - apply map_Forall_to_list. vm_compute. repeat constructor; discriminate.
Defined.

(** Keys of one database hash, then of the hashes of the second half of the
    doubled table. *)
Definition crowded : list (spsc_cmd u32_key) :=
  ((fun i => CSet (U32Key 127 i) 1) <$> seqZ 0 24) ++ ((fun h => CSet (U32Key h h) 1) <$> seqZ 128 23).

(** The doubling can abort the process on a table that accepted every
    key: with the parameters of the counters of the storage (100 buckets, the
    default range), 47 keys that try_set stores leave no room, in the doubled
    table, for one of them. *)
Theorem spsc_upsize_fatal_reachable :
  exists ht0 ht, hashtable_spsc_new 100 24 false = Some ht0 /\
    spsc_run ht0 crowded = Some (replicate 47 (OBool true), ht) /\
    is_Some (hashtable_spsc_new (buckets_count ht * 2) (max_range ht) false) /\
    hashtable_spsc_upsize ht = None.
Proof.
  eexists. eexists. split; [vm_compute; reflexivity|]. split; [vm_compute; reflexivity|].
  split; [eexists; vm_compute; reflexivity|vm_compute; reflexivity].
Qed.

End HashtableSpscRefine.
