(* ===== verification/Network.v ===== *)
(** * Network: the buffers of a channel

    network/network.c, the calls of network/network_tls.c it makes and the
    structures of network/channel/network_channel.h.  The operations of the
    worker on a socket and those of mbedtls are the class [Transport], whose
    laws are [TransportOk]; its state is whatever is behind the socket.  A
    failed assert and a store outside a buffer are [None].  The code is the one
    built with DEBUG, which checks the acquisition of the slices. *)

From S2P Require Import Prelude Memory.

Module Network.
Import Memory.

Definition NETWORK_CHANNEL_MAX_PACKET_SIZE : Z := 32 * 1024.
Definition NETWORK_CHANNEL_RECV_BUFFER_SIZE : Z := NETWORK_CHANNEL_MAX_PACKET_SIZE * 2.
Definition NETWORK_CHANNEL_SEND_BUFFER_SIZE : Z := NETWORK_CHANNEL_MAX_PACKET_SIZE * 2.

Inductive network_op_result :=
  | NETWORK_OP_RESULT_OK
  | NETWORK_OP_RESULT_CLOSE_SOCKET
  | NETWORK_OP_RESULT_ERROR.

Inductive network_channel_status :=
  | NETWORK_CHANNEL_STATUS_UNDEFINED
  | NETWORK_CHANNEL_STATUS_CONNECTED
  | NETWORK_CHANNEL_STATUS_CLOSED.

#[export] Instance network_op_result_eq_dec : EqDecision network_op_result.
Proof. solve_decision. Defined.
#[export] Instance network_channel_status_eq_dec : EqDecision network_channel_status.
Proof. solve_decision. Defined.

Record network_channel_buffer := Buffer {
  data : mem;
  data_offset : Z;
  data_size : Z;
  length : Z
}.

Record network_channel := Channel {
  status : network_channel_status;
  send : network_channel_buffer;
  send_slice_acquired_length : Z;
  tls_enabled : bool;
  tls_mbedtls : bool
}.

(** The counters of the network in the statistics of the worker. *)
Record network_stats := Stats {
  received_packets : Z;
  received_data : Z;
  sent_packets : Z;
  sent_data : Z
}.

(** What a call works on. *)
Record net (W : Type) := Net { world : W; channel : network_channel; stats : network_stats }.
Arguments Net {W} _ _ _.
Arguments world {W} _.
Arguments channel {W} _.
Arguments stats {W} _.

(** ** What is behind a channel

    A receive gives the result and the bytes stored, a send the result: the
    number of bytes, 0 when the peer closed, or a negative error. *)
Class Transport (W : Type) := {
  worker_op_network_receive : W -> Z -> W * Z * list Z;
  worker_op_network_send : W -> list Z -> W * Z;
  worker_op_network_close : W -> bool -> W * bool;
  mbedtls_ssl_read : W -> Z -> W * Z * list Z;
  mbedtls_ssl_write : W -> list Z -> W * Z;
  network_tls_close : W -> W;
  sent : W -> list Z;
  incoming : W -> list Z;
  connected : W -> Prop
}.

(** While it is connected a transport accepts at least a byte of what it is
    given, and gives at least a byte of what is to come; then it says that the
    peer closed. *)
Class TransportOk (W : Type) `{Transport W} := {
  send_ok w bs w' r : connected w -> bs <> [] -> worker_op_network_send w bs = (w', r) ->
    0 < r <= zlen bs /\ sent w' = sent w ++ take (Z.to_nat r) bs /\ incoming w' = incoming w /\ connected w';
  receive_ok w n w' r bs : connected w -> 0 < n -> worker_op_network_receive w n = (w', r, bs) ->
    sent w' = sent w /\ connected w' /\
    (incoming w = [] -> r = 0) /\
    (incoming w <> [] -> 0 < r <= n /\ zlen bs = r /\ incoming w = bs ++ incoming w')
}.

(** ** The buffers *)

Definition network_buffer_has_enough_space (b : network_channel_buffer) (read_length : Z) : bool :=
  let needed_size_min := u64 (data_size b + read_length) in
  needed_size_min <=? length b.

Definition network_buffer_needs_rewind (b : network_channel_buffer) (read_length : Z) : bool :=
  let needed_size_min := u64 (data_size b + read_length) in
  let needed_size := u64 (data_offset b + needed_size_min) in
  length b <? needed_size.

(** memcpy does not allow that the bytes copied and their destination
    overlap. *)
Definition network_buffer_rewind (b : network_channel_buffer) : option network_channel_buffer :=
  _ ← check ((data_size b <=? data_offset b) && (data_offset b + data_size b <=? zlen (data b)));
  d ← memcpy (data b) 0 (take (Z.to_nat (data_size b)) (drop (Z.to_nat (data_offset b)) (data b)));
  Some (Buffer d 0 (data_size b) (length b)).

Section transport.
Context {W : Type} `{Transport W}.
Implicit Types (n : net W) (c : network_channel).

Definition with_send c b : network_channel :=
  Channel (status c) b (send_slice_acquired_length c) (tls_enabled c) (tls_mbedtls c).
Definition with_slice c l : network_channel :=
  Channel (status c) (send c) l (tls_enabled c) (tls_mbedtls c).
Definition with_status c s : network_channel :=
  Channel s (send c) (send_slice_acquired_length c) (tls_enabled c) (tls_mbedtls c).
Definition without_tls c : network_channel := Channel (status c) (send c) (send_slice_acquired_length c) false false.
Definition with_world n w : net W := Net w (channel n) (stats n).
Definition with_channel n c : net W := Net (world n) c (stats n).

Definition ECANCELED : Z := 125.

(** ** Receiving *)

(** The result, the length received and the bytes stored at the start of the
    space given. *)
Definition network_receive_internal n (buffer_length : Z) : net W * network_op_result * Z * list Z :=
  if decide (status (channel n) = NETWORK_CHANNEL_STATUS_CLOSED) then (n, NETWORK_OP_RESULT_CLOSE_SOCKET, 0, []) else
  let '(w, res, bs) := worker_op_network_receive (world n) buffer_length in
  let n := with_world n w in
  if res =? 0 then (n, NETWORK_OP_RESULT_CLOSE_SOCKET, 0, bs) else
  if res =? - ECANCELED then (n, NETWORK_OP_RESULT_ERROR, 0, bs) else
  if res <? 0 then (n, NETWORK_OP_RESULT_ERROR, 0, bs) else
  (n, NETWORK_OP_RESULT_OK, res, bs).

Definition MBEDTLS_ERR_SSL_WANT_READ : Z := - 0x6900.
Definition MBEDTLS_ERR_SSL_WANT_WRITE : Z := - 0x6880.
Definition MBEDTLS_ERR_SSL_PEER_CLOSE_NOTIFY : Z := - 0x7880.
Definition MBEDTLS_ERR_NET_CONN_RESET : Z := - 0x0050.

Definition tls_retry (res : Z) : bool :=
  (res =? MBEDTLS_ERR_SSL_WANT_READ) || (res =? MBEDTLS_ERR_SSL_WANT_WRITE).

(** What the loops on mbedtls return for a result that is not positive. *)
Definition tls_failure (res : Z) : network_op_result :=
  if (res =? MBEDTLS_ERR_SSL_PEER_CLOSE_NOTIFY) || (res =? MBEDTLS_ERR_NET_CONN_RESET) || (res =? 0)
  then NETWORK_OP_RESULT_CLOSE_SOCKET
  else if res =? - ECANCELED then NETWORK_OP_RESULT_ERROR else NETWORK_OP_RESULT_ERROR.

(** The fuel bounds the retries mbedtls may ask for. *)
Fixpoint tls_receive_loop (retries : nat) (w : W) (buffer_length : Z)
    : option (W * network_op_result * Z * list Z) :=
  let '(w, res, bs) := mbedtls_ssl_read w buffer_length in
  if 0 <? res then Some (w, NETWORK_OP_RESULT_OK, res, bs) else
  if tls_retry res then match retries with O => None | S retries => tls_receive_loop retries w buffer_length end else
  Some (w, tls_failure res, 0, bs).

Definition network_tls_receive_internal (retries : nat) n (buffer_length : Z)
    : option (net W * network_op_result * Z * list Z) :=
  if decide (status (channel n) = NETWORK_CHANNEL_STATUS_CLOSED) then Some (n, NETWORK_OP_RESULT_CLOSE_SOCKET, 0, []) else
  '(w, res, received_length, bs) ← tls_receive_loop retries (world n) buffer_length;
  Some (with_world n w, res, received_length, bs).

Definition network_receive (retries : nat) n (b : network_channel_buffer) (receive_length : Z)
    : option (net W * network_channel_buffer * network_op_result) :=
  let buffer_data_offset := u64 (data_offset b + data_size b) in
  let buffer_data_length := u64 (length b - buffer_data_offset) in
  if buffer_data_length <? receive_length then Some (n, b, NETWORK_OP_RESULT_ERROR) else
  if decide (status (channel n) = NETWORK_CHANNEL_STATUS_CLOSED) then Some (n, b, NETWORK_OP_RESULT_CLOSE_SOCKET) else
  '(n, res, received_length, bs) ←
    (if tls_mbedtls (channel n) then network_tls_receive_internal retries n buffer_data_length
     else Some (network_receive_internal n buffer_data_length));
  d ← memcpy (data b) buffer_data_offset bs;
  let b := Buffer d (data_offset b) (data_size b) (length b) in
  if decide (res = NETWORK_OP_RESULT_OK) then
    let s := stats n in
    Some (Net (world n) (channel n)
            (Stats (u64 (received_packets s + 1)) (u64 (received_data s + received_length)) (sent_packets s) (sent_data s)),
          Buffer d (data_offset b) (u64 (data_size b + received_length)) (length b), res)
  else Some (n, b, res).

(** ** Sending *)

(** The do/while: an iteration sends at least a byte. *)
Fixpoint send_direct_loop (fuel : nat) (w : W) (buffer : list Z) (sent_length : Z)
    : option (W * network_op_result * Z) :=
  match fuel with
  | O => None
  | S fuel =>
      let '(w, res) := worker_op_network_send w (drop (Z.to_nat sent_length) buffer) in
      if res =? 0 then Some (w, NETWORK_OP_RESULT_CLOSE_SOCKET, sent_length) else
      if res =? - ECANCELED then Some (w, NETWORK_OP_RESULT_ERROR, sent_length) else
      if res <? 0 then Some (w, NETWORK_OP_RESULT_ERROR, sent_length) else
      let sent_length := u64 (sent_length + res) in
      if sent_length <? zlen buffer then send_direct_loop fuel w buffer sent_length
      else Some (w, NETWORK_OP_RESULT_OK, sent_length)
  end.

Definition network_send_direct_internal n (buffer : list Z) : option (net W * network_op_result * Z) :=
  '(w, res, sent_length) ← send_direct_loop (S (List.length buffer)) (world n) buffer 0;
  Some (with_world n w, res, sent_length).

Fixpoint tls_send_loop (retries : nat) (w : W) (buffer : list Z) : option (W * network_op_result * Z) :=
  let '(w, res) := mbedtls_ssl_write w buffer in
  if 0 <? res then Some (w, NETWORK_OP_RESULT_OK, res) else
  if tls_retry res then match retries with O => None | S retries => tls_send_loop retries w buffer end else
  Some (w, tls_failure res, 0).

Definition network_tls_send_direct_internal (retries : nat) n (buffer : list Z)
    : option (net W * network_op_result * Z) :=
  if decide (status (channel n) = NETWORK_CHANNEL_STATUS_CLOSED) then Some (n, NETWORK_OP_RESULT_CLOSE_SOCKET, 0) else
  '(w, res, sent_length) ← tls_send_loop retries (world n) buffer;
  Some (with_world n w, res, sent_length).

Definition network_send_direct_wrapper (retries : nat) n (buffer : list Z) : option (net W * network_op_result) :=
  '(n, res, sent_length) ←
    (if tls_mbedtls (channel n) then network_tls_send_direct_internal retries n buffer
     else network_send_direct_internal n buffer);
  if decide (res = NETWORK_OP_RESULT_OK) then
    let s := stats n in
    Some (Net (world n) (channel n)
            (Stats (received_packets s) (received_data s) (u64 (sent_packets s + 1)) (u64 (sent_data s + sent_length))), res)
  else Some (n, res).

Definition network_should_flush_send_buffer n : bool :=
  bool_decide (status (channel n) = NETWORK_CHANNEL_STATUS_CONNECTED) && (0 <? data_size (send (channel n))).

Definition network_flush_send_buffer (retries : nat) n : option (net W * network_op_result) :=
  let b := send (channel n) in
  if data_size b =? 0 then Some (n, NETWORK_OP_RESULT_OK) else
  '(n, res) ← network_send_direct_wrapper retries n (take (Z.to_nat (data_size b)) (data b));
  Some (with_channel n (with_send (channel n) (Buffer (data b) 0 0 (length b))), res).

(** The position of the slice in the buffer, [None] for NULL. *)
Definition network_send_buffer_acquire_slice (retries : nat) n (slice_length : Z) : option (net W * option Z) :=
  _ ← check (slice_length <=? length (send (channel n)));
  _ ← check (send_slice_acquired_length (channel n) =? 0);
  '(n, res) ←
    (if length (send (channel n)) <? u64 (data_size (send (channel n)) + slice_length)
     then network_flush_send_buffer retries n else Some (n, NETWORK_OP_RESULT_OK));
  if decide (res <> NETWORK_OP_RESULT_OK) then Some (n, None) else
  Some (with_channel n (with_slice (channel n) slice_length), Some (data_offset (send (channel n)))).

Definition network_send_buffer_release_slice n (slice_used_length : Z) : option (net W) :=
  let c := channel n in
  let b := send c in
  _ ← check (0 <? send_slice_acquired_length c);
  _ ← check (slice_used_length <=? send_slice_acquired_length c);
  Some (with_channel n (with_slice
    (with_send c (Buffer (data b) (u64 (data_offset b + slice_used_length)) (u64 (data_size b + slice_used_length)) (length b))) 0)).

(** The result of the flush is not looked at. *)
Definition network_send_direct (retries : nat) n (buffer : list Z) : option (net W * network_op_result) :=
  n ← (if network_should_flush_send_buffer n then fst <$> network_flush_send_buffer retries n else Some n);
  network_send_direct_wrapper retries n buffer.

(** An iteration buffers at least a byte unless the buffer has no room. *)
Fixpoint send_buffered_loop (fuel retries : nat) n (buffer : list Z) : option (net W * network_op_result) :=
  match fuel with
  | O => None
  | S fuel =>
      let can_be_sent := Z.min (zlen buffer) (length (send (channel n))) in
      '(n, res) ←
        (if length (send (channel n)) <? u64 (data_size (send (channel n)) + can_be_sent)
         then network_flush_send_buffer retries n else Some (n, NETWORK_OP_RESULT_OK));
      if decide (res <> NETWORK_OP_RESULT_OK) then Some (n, res) else
      let b := send (channel n) in
      d ← memcpy (data b) (data_offset b) (take (Z.to_nat can_be_sent) buffer);
      let n := with_channel n (with_send (channel n)
        (Buffer d (u64 (data_offset b + can_be_sent)) (u64 (data_size b + can_be_sent)) (length b))) in
      let buffer := drop (Z.to_nat can_be_sent) buffer in
      if 0 <? zlen buffer then send_buffered_loop fuel retries n buffer else Some (n, NETWORK_OP_RESULT_OK)
  end.

Definition network_send_buffered (retries : nat) n (buffer : list Z) : option (net W * network_op_result) :=
  _ ← check (send_slice_acquired_length (channel n) =? 0);
  send_buffered_loop (S (List.length buffer)) retries n buffer.

(** ** Closing *)

Definition network_close_internal n (shutdown_may_fail : bool) : option (net W * network_op_result) :=
  _ ← check (bool_decide (status (channel n) <> NETWORK_CHANNEL_STATUS_UNDEFINED));
  if decide (status (channel n) = NETWORK_CHANNEL_STATUS_CLOSED) then Some (n, NETWORK_OP_RESULT_OK) else
  let '(w, ok) := worker_op_network_close (world n) shutdown_may_fail in
  Some (Net w (with_status (channel n) NETWORK_CHANNEL_STATUS_CLOSED) (stats n),
        if ok : bool then NETWORK_OP_RESULT_OK else NETWORK_OP_RESULT_ERROR).

Definition network_close n (shutdown_may_fail : bool) : option (net W * network_op_result) :=
  let n :=
    if tls_enabled (channel n) then
      let w := if tls_mbedtls (channel n) then network_tls_close (world n) else world n in
      Net w (without_tls (channel n)) (stats n)
    else n in
  network_close_internal n shutdown_may_fail.

End transport.

(** ** The bytes of a channel in order *)

Section output.
Context {W : Type} `{TransportOk W}.
Implicit Types (n : net W) (w : W).

(** What the channel has been given to send: what is behind the socket and what
    waits in the buffer. *)
Definition output n : list Z :=
  sent (world n) ++ take (Z.to_nat (data_size (send (channel n)))) (data (send (channel n))).

(** A connected channel without mbedtls and without a slice acquired. *)
Record channel_ok n : Prop := {
  co_status : status (channel n) = NETWORK_CHANNEL_STATUS_CONNECTED;
  co_mbedtls : tls_mbedtls (channel n) = false;
  co_slice : send_slice_acquired_length (channel n) = 0;
  co_offset : data_offset (send (channel n)) = data_size (send (channel n));
  co_size : 0 <= data_size (send (channel n)) <= length (send (channel n));
  co_length : length (send (channel n)) = NETWORK_CHANNEL_SEND_BUFFER_SIZE;
  co_data : zlen (data (send (channel n))) = length (send (channel n));
  co_connected : connected (world n)
}.

(** The rest of the state that sending leaves alone. *)
Definition same_incoming n n' : Prop := incoming (world n') = incoming (world n).

Lemma send_direct_loop_ok fuel : forall w buffer sent_length,
  connected w -> 0 <= sent_length < zlen buffer -> zlen buffer - sent_length < Z.of_nat fuel -> zlen buffer < 2 ^ 64 ->
  exists w', send_direct_loop fuel w buffer sent_length = Some (w', NETWORK_OP_RESULT_OK, zlen buffer) /\
    sent w' = sent w ++ drop (Z.to_nat sent_length) buffer /\ incoming w' = incoming w /\ connected w'.
Proof.
  induction fuel as [|fuel IH]; intros w buffer sl Hc Hs Hf Hmax; [lia|]. cbn [send_direct_loop].
  destruct (worker_op_network_send w (drop (Z.to_nat sl) buffer)) as [w1 r] eqn:Hsend.
  assert (zlen (drop (Z.to_nat sl) buffer) = zlen buffer - sl) as Hdl by (unfold zlen in *; rewrite length_drop; lia).
  destruct (send_ok _ _ _ _ Hc ltac:(intros E; rewrite E in Hdl; unfold zlen in *; cbn in Hdl; lia) Hsend) as (Hr & Hsent & Hin & Hc1).
  destruct (Z.eqb_spec r 0); [lia|]. destruct (Z.eqb_spec r (- ECANCELED)); [unfold ECANCELED in *; lia|]. destruct (Z.ltb_spec r 0); [lia|].
  rewrite wrap_small by mach_lia. destruct (Z.ltb_spec (sl + r) (zlen buffer)).
  - destruct (IH w1 buffer (sl + r) Hc1) as (w' & -> & Hs' & Hi' & Hc'); [lia|lia|lia|]. exists w'. split; [done|]. split; [|split; [congruence|done]].
    rewrite Hs', Hsent, <- app_assoc. f_equal. rewrite <- (take_drop (Z.to_nat r) (drop (Z.to_nat sl) buffer)) at 2. f_equal.
    rewrite drop_drop. f_equal. lia.
  - assert (sl + r = zlen buffer) as -> by lia. exists w1. split; [done|]. split; [|done]. rewrite Hsent. f_equal.
    apply take_ge. unfold zlen in *. lia.
Qed.

Lemma send_direct_wrapper_ok retries n buffer :
  channel_ok n -> buffer <> [] -> zlen buffer < 2 ^ 64 ->
  exists n', network_send_direct_wrapper retries n buffer = Some (n', NETWORK_OP_RESULT_OK) /\
    channel n' = channel n /\ sent (world n') = sent (world n) ++ buffer /\ same_incoming n n' /\ connected (world n').
Proof.
  intros Hn Hne Hmax. unfold network_send_direct_wrapper, network_send_direct_internal. rewrite (co_mbedtls _ Hn).
  assert (0 < zlen buffer) by (destruct buffer; [done|unfold zlen; cbn [List.length]; lia]).
  destruct (send_direct_loop_ok (S (List.length buffer)) (world n) buffer 0 (co_connected _ Hn)) as (w' & -> & Hs & Hi & Hc);
    [lia|unfold zlen in *; lia|done|].
  cbn [mbind option_bind]. rewrite decide_True by done. eexists. split; [done|]. cbn [channel world with_world]. by split_and!.
Qed.

Lemma send_flush_ok retries n :
  channel_ok n -> exists n', network_flush_send_buffer retries n = Some (n', NETWORK_OP_RESULT_OK) /\
    channel_ok n' /\ output n' = output n /\ data_size (send (channel n')) = 0 /\ same_incoming n n'.
Proof.
  intros Hn. unfold network_flush_send_buffer. destruct (Z.eqb_spec (data_size (send (channel n))) 0) as [Hz|Hz].
  { by exists n. }
  pose proof (co_size _ Hn) as Hs. pose proof (co_data _ Hn) as Hd. pose proof (co_length _ Hn) as Hl.
  set (bs := take (Z.to_nat (data_size (send (channel n)))) (data (send (channel n)))).
  assert (zlen bs = data_size (send (channel n))) as Hbs by (unfold bs, zlen in *; rewrite length_take; lia).
  destruct (send_direct_wrapper_ok retries n bs Hn) as (n' & -> & Hc & Hsent & Hi & Hconn).
  { intros E. rewrite E in Hbs. unfold zlen in Hbs. cbn in Hbs. lia. }
  { rewrite Hbs. unfold NETWORK_CHANNEL_SEND_BUFFER_SIZE, NETWORK_CHANNEL_MAX_PACKET_SIZE in Hl. lia. }
  cbn [mbind option_bind]. rewrite Hc. eexists. split; [done|]. split; [|split; [|done]].
  - destruct Hn. split; cbn; try done; lia.
  - unfold output. cbn [world with_channel channel send with_send data_size data take Z.to_nat]. by rewrite Hsent, app_nil_r.
Qed.

(** A slice is acquired, [bs] is written at its start and it is released. *)
Definition write_slice n (pos : Z) (bs : list Z) : net W :=
  let c := channel n in
  with_channel n (with_send c (Buffer (splice (data (send c)) pos bs) (data_offset (send c)) (data_size (send c)) (length (send c)))).

Lemma send_acquire_ok retries n slice_length :
  channel_ok n -> 0 < slice_length <= NETWORK_CHANNEL_SEND_BUFFER_SIZE ->
  exists n0 pos, network_send_buffer_acquire_slice retries n slice_length =
      Some (with_channel n0 (with_slice (channel n0) slice_length), Some pos) /\
    channel_ok n0 /\ output n0 = output n /\ same_incoming n n0 /\ pos = data_size (send (channel n0)) /\
    pos + slice_length <= NETWORK_CHANNEL_SEND_BUFFER_SIZE.
Proof.
  intros Hn Hs. unfold network_send_buffer_acquire_slice. pose proof (co_length _ Hn) as Hl. pose proof (co_size _ Hn) as Hsz.
  rewrite Hl, (co_slice _ Hn). destruct (Z.leb_spec slice_length NETWORK_CHANNEL_SEND_BUFFER_SIZE); [|lia].
  cbn [check mbind option_bind Z.eqb]. rewrite wrap_small by (rewrite Hl in Hsz; unfold NETWORK_CHANNEL_SEND_BUFFER_SIZE, NETWORK_CHANNEL_MAX_PACKET_SIZE in *; mach_lia).
  destruct (Z.ltb_spec NETWORK_CHANNEL_SEND_BUFFER_SIZE (data_size (send (channel n)) + slice_length)).
  - destruct (send_flush_ok retries n Hn) as (n0 & -> & Hn0 & Ho & Hz & Hi). cbn [mbind option_bind]. rewrite decide_False by (intros E; by apply E).
    exists n0, (data_offset (send (channel n0))). split; [done|]. rewrite (co_offset _ Hn0), Hz. split_and!; try done; lia.
  - cbn [mbind option_bind]. rewrite decide_False by (intros E; by apply E). exists n, (data_offset (send (channel n))).
    split; [done|]. rewrite (co_offset _ Hn). split_and!; try done.
Qed.

Lemma send_release_ok n0 slice_length bs :
  channel_ok n0 -> 0 < slice_length -> zlen bs <= slice_length ->
  data_size (send (channel n0)) + slice_length <= NETWORK_CHANNEL_SEND_BUFFER_SIZE ->
  let n1 := with_channel n0 (with_slice (channel n0) slice_length) in
  exists n', network_send_buffer_release_slice (write_slice n1 (data_size (send (channel n0))) bs) (zlen bs) = Some n' /\
    channel_ok n' /\ output n' = output n0 ++ bs /\ same_incoming n0 n'.
Proof.
  intros Hn Hs Hb Hfit n1. unfold network_send_buffer_release_slice. cbn.
  destruct (Z.ltb_spec 0 slice_length); [|lia]. destruct (Z.leb_spec (zlen bs) slice_length); [|lia]. cbn [check mbind option_bind].
  pose proof (co_size _ Hn) as Hsz. pose proof (co_length _ Hn) as Hl. pose proof (co_data _ Hn) as Hd. pose proof (zlen_nonneg bs).
  assert (zlen (splice (data (send (channel n0))) (data_size (send (channel n0))) bs) = zlen (data (send (channel n0)))) as Hsp.
  { apply splice_length; [lia|]. rewrite Hd, Hl. lia. }
  eexists. split; [done|].
  rewrite (co_offset _ Hn), !wrap_small by (unfold NETWORK_CHANNEL_SEND_BUFFER_SIZE, NETWORK_CHANNEL_MAX_PACKET_SIZE in *; mach_lia).
  split; [|split; [|done]].
  - destruct Hn. split; cbn; try done; [lia|]. congruence.
  - unfold output. cbn. rewrite <- app_assoc. f_equal. unfold splice, zlen in *.
    rewrite take_app_ge by (rewrite length_take; lia). rewrite length_take. rewrite take_app_length' by lia. done.
Qed.

Lemma send_direct_ok retries n buffer :
  channel_ok n -> buffer <> [] -> zlen buffer < 2 ^ 64 ->
  exists n', network_send_direct retries n buffer = Some (n', NETWORK_OP_RESULT_OK) /\
    channel_ok n' /\ output n' = output n ++ buffer /\ same_incoming n n'.
Proof.
  intros Hn Hne Hmax. unfold network_send_direct, network_should_flush_send_buffer. rewrite (co_status _ Hn), bool_decide_eq_true_2 by done.
  assert (exists n0, (if true && (0 <? data_size (send (channel n))) then fst <$> network_flush_send_buffer retries n else Some n) = Some n0 /\
    channel_ok n0 /\ output n0 = output n /\ data_size (send (channel n0)) = 0 /\ same_incoming n n0) as (n0 & -> & Hn0 & Ho & Hz & Hi).
  { destruct (Z.ltb_spec 0 (data_size (send (channel n)))); cbn [andb].
    - destruct (send_flush_ok retries n Hn) as (n0 & -> & ?). by exists n0.
    - pose proof (co_size _ Hn). exists n. split_and!; try done. lia. }
  cbn [mbind option_bind]. destruct (send_direct_wrapper_ok retries n0 buffer Hn0 Hne Hmax) as (n' & -> & Hc & Hs & Hi' & Hconn).
  exists n'. split; [done|]. split; [|split; [|unfold same_incoming in *; congruence]].
  - destruct Hn0. split; rewrite ?Hc; done.
  - rewrite <- Ho. unfold output. rewrite Hc, Hz, Hs. cbn. by rewrite !app_nil_r.
Qed.

Lemma send_buffered_loop_ok fuel : forall retries n buffer,
  channel_ok n -> zlen buffer < Z.of_nat fuel -> exists n', send_buffered_loop fuel retries n buffer = Some (n', NETWORK_OP_RESULT_OK) /\
    channel_ok n' /\ output n' = output n ++ buffer /\ same_incoming n n'.
Proof.
  induction fuel as [|fuel IH]; intros retries n buffer Hn Hf; [pose proof (zlen_nonneg buffer); lia|]. cbn [send_buffered_loop].
  pose proof (co_length _ Hn) as Hl. pose proof (co_size _ Hn) as Hsz. pose proof (zlen_nonneg buffer). rewrite Hl.
  set (k := Z.min (zlen buffer) NETWORK_CHANNEL_SEND_BUFFER_SIZE).
  assert (0 <= k <= NETWORK_CHANNEL_SEND_BUFFER_SIZE) as Hk by (unfold k, NETWORK_CHANNEL_SEND_BUFFER_SIZE, NETWORK_CHANNEL_MAX_PACKET_SIZE; lia).
  assert (k <= zlen buffer /\ (0 < zlen buffer -> 0 < k)) as [Hkl Hkp].
  { unfold k, NETWORK_CHANNEL_SEND_BUFFER_SIZE, NETWORK_CHANNEL_MAX_PACKET_SIZE; lia. }
  assert (exists n0, (if NETWORK_CHANNEL_SEND_BUFFER_SIZE <? u64 (data_size (send (channel n)) + k)
      then network_flush_send_buffer retries n else Some (n, NETWORK_OP_RESULT_OK)) = Some (n0, NETWORK_OP_RESULT_OK) /\ channel_ok n0 /\
    output n0 = output n /\ same_incoming n n0 /\ data_size (send (channel n0)) + k <= NETWORK_CHANNEL_SEND_BUFFER_SIZE)
    as (n0 & -> & Hn0 & Ho & Hi & Hfit).
  { rewrite wrap_small by (rewrite Hl in Hsz; unfold NETWORK_CHANNEL_SEND_BUFFER_SIZE, NETWORK_CHANNEL_MAX_PACKET_SIZE in *; mach_lia).
    destruct (Z.ltb_spec NETWORK_CHANNEL_SEND_BUFFER_SIZE (data_size (send (channel n)) + k)); [|by exists n].
    destruct (send_flush_ok retries n Hn) as (n0 & -> & Hn0 & Ho & Hz & Hi). exists n0. split_and!; try done. lia. }
  cbn [mbind option_bind]. rewrite decide_False by (intros E; by apply E). rewrite (co_offset _ Hn0).
  pose proof (co_size _ Hn0) as Hsz0. pose proof (co_length _ Hn0) as Hl0. pose proof (co_data _ Hn0) as Hd0.
  set (bs := take (Z.to_nat k) buffer). assert (zlen bs = k) as Hbs by (unfold bs, zlen in *; rewrite length_take; lia).
  unfold memcpy. destruct (Z.leb_spec 0 (data_size (send (channel n0)))); [|lia].
  destruct (Z.leb_spec (data_size (send (channel n0)) + zlen bs) (zlen (data (send (channel n0))))); [|lia]. cbn [andb mbind option_bind].
  rewrite !wrap_small by (unfold NETWORK_CHANNEL_SEND_BUFFER_SIZE, NETWORK_CHANNEL_MAX_PACKET_SIZE in *; mach_lia).
  set (n1 := with_channel n0 _). assert (zlen (splice (data (send (channel n0))) (data_size (send (channel n0))) bs) = zlen (data (send (channel n0)))) as Hsp.
  { apply splice_length; lia. }
  assert (channel_ok n1) as Hn1 by (destruct Hn0; split; cbn; try done; [lia|congruence]).
  assert (output n1 = output n ++ bs) as Ho1.
  { rewrite <- Ho. unfold output. cbn. rewrite <- app_assoc. f_equal. unfold splice, zlen in *.
    rewrite take_app_ge by (rewrite length_take; lia). rewrite length_take. rewrite take_app_length' by lia. done. }
  destruct (Z.ltb_spec 0 (zlen (drop (Z.to_nat k) buffer))) as [Hmore|Hno].
  - destruct (IH retries n1 (drop (Z.to_nat k) buffer) Hn1) as (n' & -> & Hn' & Ho' & Hi').
    { unfold zlen in *. rewrite length_drop in *. lia. }
    exists n'. split; [done|]. split; [done|]. split; [|unfold same_incoming in *; cbn in Hi'; congruence].
    rewrite Ho', Ho1, <- app_assoc. f_equal. apply take_drop.
  - exists n1. split; [done|]. split; [done|]. split; [|done]. rewrite Ho1. f_equal. apply take_ge. unfold zlen in *. rewrite length_drop in *. lia.
Qed.

(** ** Sequences of sends *)

(** The ways the modules send: a slice of the buffer they write to, a direct or
    a buffered send, a flush. *)
Inductive send_op :=
  | SendSlice (slice_length : Z) (bs : list Z)
  | SendDirect (bs : list Z)
  | SendBuffered (bs : list Z)
  | SendFlush.

Definition op_bytes (o : send_op) : list Z :=
  match o with SendSlice _ bs | SendDirect bs | SendBuffered bs => bs | SendFlush => [] end.

Definition op_ok (o : send_op) : Prop :=
  match o with
  | SendSlice slice_length bs => 0 < slice_length <= NETWORK_CHANNEL_SEND_BUFFER_SIZE /\ zlen bs <= slice_length
  | SendDirect bs => bs <> [] /\ zlen bs < 2 ^ 64
  | SendBuffered _ | SendFlush => True
  end.

Definition run_send (retries : nat) n (o : send_op) : option (net W) :=
  match o with
  | SendSlice slice_length bs =>
      '(n, pos) ← network_send_buffer_acquire_slice retries n slice_length;
      match pos with
      | None => Some n
      | Some pos =>
          let b := send (channel n) in
          d ← memcpy (data b) pos bs;
          network_send_buffer_release_slice
            (with_channel n (with_send (channel n) (Buffer d (data_offset b) (data_size b) (length b)))) (zlen bs)
      end
  | SendDirect bs => fst <$> network_send_direct retries n bs
  | SendBuffered bs => fst <$> network_send_buffered retries n bs
  | SendFlush => fst <$> network_flush_send_buffer retries n
  end.

Fixpoint run_sends (retries : nat) n (os : list send_op) : option (net W) :=
  match os with [] => Some n | o :: os => n ← run_send retries n o; run_sends retries n os end.

Lemma run_send_ok retries n o :
  channel_ok n -> op_ok o -> exists n', run_send retries n o = Some n' /\ channel_ok n' /\ output n' = output n ++ op_bytes o /\
    same_incoming n n'.
Proof.
  intros Hn Ho. destruct o as [l bs|bs|bs|]; cbn [run_send op_bytes].
  - destruct Ho as [Hl Hb]. destruct (send_acquire_ok retries n l Hn Hl) as (n0 & pos & -> & Hn0 & Ho & Hi & -> & Hfit).
    cbn [mbind option_bind channel with_channel with_slice send]. pose proof (co_size _ Hn0). pose proof (co_data _ Hn0).
    pose proof (co_length _ Hn0). unfold memcpy. destruct (Z.leb_spec 0 (data_size (send (channel n0)))); [|lia].
    destruct (Z.leb_spec (data_size (send (channel n0)) + zlen bs) (zlen (data (send (channel n0))))); [|lia].
    cbn [andb mbind option_bind]. destruct (send_release_ok n0 l bs Hn0 ltac:(lia) Hb Hfit) as (n' & Hr & Hn' & Ho' & Hi').
    exists n'. split; [exact Hr|]. split; [done|]. split; [congruence|unfold same_incoming in *; congruence].
  - destruct Ho as [Hne Hmax]. destruct (send_direct_ok retries n bs Hn Hne Hmax) as (n' & -> & ?). by exists n'.
  - unfold network_send_buffered. rewrite (co_slice _ Hn). cbn [Z.eqb check mbind option_bind].
    destruct (send_buffered_loop_ok (S (List.length bs)) retries n bs Hn) as (n' & -> & ?); [unfold zlen; lia|]. by exists n'.
  - destruct (send_flush_ok retries n Hn) as (n' & -> & Hn' & Ho' & _ & Hi). exists n'. split; [done|]. by rewrite app_nil_r.
Qed.

(** C14: what is sent on a connected channel without mbedtls arrives in the
    order it was sent, whatever the sockets accept at a time: after any sequence
    of slices, direct and buffered sends and flushes, no assert has failed, no
    store was outside the buffer, and what is behind the socket followed by what
    waits in the buffer is what it was, followed by the bytes sent. *)
Theorem network_output_in_order (retries : nat) (n : net W) (os : list send_op) :
  channel_ok n -> Forall op_ok os ->
  exists n', run_sends retries n os = Some n' /\ channel_ok n' /\ output n' = output n ++ concat (op_bytes <$> os).
Proof.
  intros Hn Ho. revert n Hn. induction Ho as [|o os Ho _ IH]; intros n Hn; cbn [run_sends fmap list_fmap concat].
  - exists n. by rewrite app_nil_r.
  - destruct (run_send_ok retries n o Hn Ho) as (n1 & -> & Hn1 & Ho1 & _). cbn [mbind option_bind].
    destruct (IH n1 Hn1) as (n' & -> & Hn' & Ho'). exists n'. split; [done|]. split; [done|]. by rewrite Ho', Ho1, <- app_assoc.
Qed.

(** C39: a short write of mbedtls loses bytes.  When mbedtls_ssl_write accepts
    only a part of what a flush gives it, which it may do, the flush reports
    success and forgets the rest. *)
Theorem network_tls_short_write_loses (retries : nat) (n : net W) (w' : W) (r : Z) :
  let b := send (channel n) in
  let pending := take (Z.to_nat (data_size b)) (data b) in
  status (channel n) = NETWORK_CHANNEL_STATUS_CONNECTED -> tls_mbedtls (channel n) = true -> data_size b <> 0 ->
  mbedtls_ssl_write (world n) pending = (w', r) -> 0 < r < zlen pending ->
  sent w' = sent (world n) ++ take (Z.to_nat r) pending ->
  exists n', network_flush_send_buffer retries n = Some (n', NETWORK_OP_RESULT_OK) /\
    output n' = sent (world n) ++ take (Z.to_nat r) pending /\ zlen (output n') < zlen (output n).
Proof.
  intros b pending Hs Ht Hz Hw Hr Hsent. unfold network_flush_send_buffer. fold b pending.
  destruct (Z.eqb_spec (data_size b) 0); [done|].
  unfold network_send_direct_wrapper, network_tls_send_direct_internal. rewrite Ht, decide_False by congruence.
  assert (tls_send_loop retries (world n) pending = Some (w', NETWORK_OP_RESULT_OK, r)) as ->.
  { destruct retries; cbn [tls_send_loop]; rewrite Hw; by destruct (Z.ltb_spec 0 r); [|lia]. }
  cbn [mbind option_bind]. rewrite decide_True by done. cbn [mbind option_bind]. eexists. split; [done|].
  assert (forall n1 : net W, world n1 = w' -> data_size (send (channel n1)) = 0 -> output n1 = sent (world n) ++ take (Z.to_nat r) pending) as Hout.
  { intros n1 Hw1 Hd1. unfold output. by rewrite Hw1, Hd1, app_nil_r, Hsent. }
  rewrite Hout by done. split; [done|]. unfold output. fold b pending. rewrite !zlen_app. unfold zlen in *. rewrite length_take. lia.
Qed.

End output.

(** *** Examples *)

(** A socket, or a TLS connection, that moves [step] bytes at a time at most. *)
Record wire := Wire { wire_sent : list Z; wire_incoming : list Z; step : Z }.

#[export] Instance wire_transport : Transport wire := {
  worker_op_network_receive w n :=
    let r := Z.min (Z.min n (step w)) (zlen (wire_incoming w)) in
    (Wire (wire_sent w) (drop (Z.to_nat r) (wire_incoming w)) (step w), r, take (Z.to_nat r) (wire_incoming w));
  worker_op_network_send w bs :=
    let r := Z.min (step w) (zlen bs) in
    (Wire (wire_sent w ++ take (Z.to_nat r) bs) (wire_incoming w) (step w), r);
  worker_op_network_close w _ := (w, true);
  mbedtls_ssl_read w n :=
    let r := Z.min (Z.min n (step w)) (zlen (wire_incoming w)) in
    (Wire (wire_sent w) (drop (Z.to_nat r) (wire_incoming w)) (step w), r, take (Z.to_nat r) (wire_incoming w));
  mbedtls_ssl_write w bs :=
    let r := Z.min (step w) (zlen bs) in
    (Wire (wire_sent w ++ take (Z.to_nat r) bs) (wire_incoming w) (step w), r);
  network_tls_close w := w;
  sent := wire_sent;
  incoming := wire_incoming;
  connected w := 0 < step w
}.

#[export] Instance wire_ok : TransportOk wire.
Proof.
  split; cbn [worker_op_network_receive worker_op_network_send wire_transport sent incoming connected].
  - intros w bs w' r Hc Hne [= <- <-]. cbn.
    assert (0 < zlen bs) by (destruct bs; [done|unfold zlen; cbn [List.length]; lia]). by split; [lia|].
  - intros w n w' r bs Hc Hn [= <- <- <-]. cbn. split; [done|]. split; [done|]. pose proof (zlen_nonneg (wire_incoming w)). split.
    + intros ->. unfold zlen. cbn. lia.
    + intros Hne. assert (0 < zlen (wire_incoming w)) by (destruct (wire_incoming w); [done|unfold zlen; cbn [List.length]; lia]).
      split; [lia|]. split; [unfold zlen in *; rewrite length_take; lia|by rewrite take_drop].
Qed.

Definition example_data : mem := replicate (Z.to_nat NETWORK_CHANNEL_SEND_BUFFER_SIZE) 7.

Lemma example_data_length : zlen example_data = NETWORK_CHANNEL_SEND_BUFFER_SIZE.
Proof. unfold example_data. rewrite zlen_replicate. apply Z2Nat.id. by cbv. Qed.

#[local] Opaque example_data.

Definition example_net (mbedtls : bool) (step : Z) : net wire :=
  Net (Wire [] [] step)
    (Channel NETWORK_CHANNEL_STATUS_CONNECTED
      (Buffer example_data 0 0 NETWORK_CHANNEL_SEND_BUFFER_SIZE) 0 mbedtls mbedtls)
    (Stats 0 0 0 0).

Lemma example_net_ok step : 0 < step -> channel_ok (example_net false step).
Proof. intros Hs. split; [done|done|done|done|by cbv|done|exact example_data_length|exact Hs]. Qed.

Lemma network_output_in_order_witness :
  exists n', run_sends 0 (example_net false 3) [SendSlice 48 [58; 49; 13; 10]; SendDirect [65; 66; 67; 68]; SendBuffered [33]] = Some n' /\
    output n' = [58; 49; 13; 10; 65; 66; 67; 68; 33].
Proof.
  destruct (network_output_in_order 0 (example_net false 3) [SendSlice 48 [58; 49; 13; 10]; SendDirect [65; 66; 67; 68]; SendBuffered [33]]
    (example_net_ok 3 ltac:(lia)) ltac:(by repeat constructor)) as (n' & Hr & _ & Ho).
  exists n'. split; [exact Hr|]. rewrite Ho. done.
Defined.

(** Twenty bytes wait in the buffer and mbedtls takes sixteen of them. *)
Definition example_tls : net wire :=
  let n := example_net true 16 in
  with_channel n (with_send (channel n) (Buffer (replicate 20 7) 20 20 NETWORK_CHANNEL_SEND_BUFFER_SIZE)).

Lemma network_tls_short_write_loses_witness :
  exists n', network_flush_send_buffer 0 example_tls = Some (n', NETWORK_OP_RESULT_OK) /\ zlen (output n') < zlen (output example_tls).
Proof.
  destruct (network_tls_short_write_loses 0 example_tls (Wire (replicate 16 7) [] 16) 16) as (n' & Hf & _ & Hlt); try done.
  by exists n'.
Defined.

End Network.
