(* ===== verification/RedisInfo.v ===== *)
(** * RedisInfo: the descriptions of the commands and their tables

    The structures of module/redis/module_redis.h that describe the commands,
    and module/redis/module_redis_commands.{c,h}, which builds the tables of
    the commands and of the tokens of their arguments at the start.  The
    descriptions themselves are generated from commands.json: a parameter.  An
    argument is known by its address in a table of arguments, 0 is NULL; the
    address of a command is its position in the array, from 1; a token entry
    allocated is known by its position among the ones allocated, from 1.
    Allocations succeed. *)

From stdpp Require Import gmap.
From S2P Require Import Prelude HashtableSpsc HashtableSpscSpec HashtableSpscRefine.

Module RedisInfo.
Import HashtableSpsc HashtableSpscSpec HashtableSpscRefine.

Definition MODULE_REDIS_COMMAND_MAX_LENGTH : Z := 24.

Inductive argument_type :=
  | ARGUMENT_TYPE_UNSUPPORTED
  | ARGUMENT_TYPE_KEY
  | ARGUMENT_TYPE_SHORT_STRING
  | ARGUMENT_TYPE_LONG_STRING
  | ARGUMENT_TYPE_INTEGER
  | ARGUMENT_TYPE_DOUBLE
  | ARGUMENT_TYPE_UNIXTIME
  | ARGUMENT_TYPE_BOOL
  | ARGUMENT_TYPE_PATTERN
  | ARGUMENT_TYPE_BLOCK
  | ARGUMENT_TYPE_ONEOF.

#[export] Instance argument_type_eq_dec : EqDecision argument_type.
Proof. solve_decision. Defined.

(** sub_arguments_count is the length of sub_arguments. *)
Record argument := Argument {
  arg_name : list Z;
  arg_type : argument_type;
  parent_argument : Z;
  token : option (list Z);
  sub_arguments : list Z;
  is_positional : bool;
  is_optional : bool;
  has_sub_arguments : bool;
  has_multiple_occurrences : bool;
  has_multiple_token : bool;
  argument_context_member_size : Z;
  argument_context_member_offset : Z
}.

(** one_of_token_count is the length of one_of_tokens, an array of 6. *)
Record token_entry := TokenEntry {
  te_token : list Z;
  te_token_length : Z;
  te_argument : Z;
  one_of_tokens : list (list Z)
}.

Definition ONE_OF_TOKENS_SIZE : Z := 6.

Record command_info := Info {
  info_string : list Z;
  requires_authentication : bool;
  context_size : Z;
  info_arguments : list Z;
  required_arguments_count : Z;
  is_container : bool;
  tokens_hashtable : option hashtable_spsc
}.

Definition set_tokens_hashtable (i : command_info) (ht : option hashtable_spsc) : command_info :=
  Info (info_string i) (requires_authentication i) (context_size i) (info_arguments i) (required_arguments_count i)
    (is_container i) ht.

(** ** The table of the commands *)

Fixpoint set_commands (ht : hashtable_spsc) (index : Z) (infos : list command_info) : option (option hashtable_spsc) :=
  match infos with
  | [] => Some (Some ht)
  | i :: infos =>
      '(ok, ht) ← hashtable_spsc_op_try_set_ci ht (info_string i) (zlen (info_string i)) (index + 1);
      if ok : bool then set_commands ht (index + 1) infos
      else _ ← hashtable_spsc_free ht; Some None
  end.

Definition module_redis_commands_build_commands_hashtables (infos : list command_info) : option (option hashtable_spsc) :=
  ht ← hashtable_spsc_new (u32 (zlen infos * 2)) 32 false;
  set_commands ht 0 infos.

(** The values of the table of the disabled commands are true as a pointer. *)
Fixpoint set_disabled (ht : hashtable_spsc) (commands : list (list Z)) : option (option hashtable_spsc) :=
  match commands with
  | [] => Some (Some ht)
  | c :: commands =>
      '(ok, ht) ← hashtable_spsc_op_try_set_ci ht c (zlen c) 1;
      if ok : bool then set_disabled ht commands else _ ← hashtable_spsc_free ht; Some None
  end.

Definition module_redis_commands_build_disabled_commands_hashtables (commands : list (list Z))
    : option (option hashtable_spsc) :=
  if zlen commands =? 0 then Some None else
  ht ← hashtable_spsc_new (u32 (zlen commands * 2)) 32 false;
  set_disabled ht commands.

(** [None] as a table is NULL. *)
Definition module_redis_commands_is_command_disabled (ht : option hashtable_spsc) (command : list Z) (command_length : Z)
    : option bool :=
  match ht with
  | None => Some false
  | Some ht => v ← hashtable_spsc_op_get_ci ht command command_length; Some (negb (v =? 0))
  end.

(** ** The tables of the tokens *)

Section tokens.
Context (arguments : gmap Z argument).

(** The fuel is the depth of the sub arguments. *)
Fixpoint module_redis_commands_count_tokens_in_command_arguments (fuel : nat) (ps : list Z) : option Z :=
  match fuel with
  | O => None
  | S fuel =>
      foldl (fun count p =>
        count ← count;
        a ← arguments !! p;
        count ← (if has_sub_arguments a
                 then n ← module_redis_commands_count_tokens_in_command_arguments fuel (sub_arguments a); Some (u16 (count + n))
                 else Some count);
        Some (match token a with Some _ => u16 (count + 1) | None => count end)) (Some 0) ps
  end.

(** The assert of the code lets a seventh token in, after the end of the array. *)
Definition push_one_of (te : token_entry) (t : list Z) : option token_entry :=
  _ ← check (zlen (one_of_tokens te) <=? ONE_OF_TOKENS_SIZE);
  _ ← check (zlen (one_of_tokens te) <? ONE_OF_TOKENS_SIZE);
  Some (TokenEntry (te_token te) (te_token_length te) (te_argument te) (one_of_tokens te ++ [t])).

Fixpoint oneof_tokens_loop (p : Z) (siblings : list Z) (te : token_entry) : option token_entry :=
  match siblings with
  | [] => Some te
  | q :: siblings =>
      b ← arguments !! q;
      te ← match token b with
           | Some t => if negb (q =? p) then push_one_of te t else Some te
           | None => Some te
           end;
      oneof_tokens_loop p siblings te
  end.

Definition module_redis_commands_build_command_argument_token_entry_oneof_tokens (p : Z) (te : token_entry)
    : option token_entry :=
  a ← arguments !! p;
  parent ← arguments !! parent_argument a;
  oneof_tokens_loop p (sub_arguments parent) te.

Definition module_redis_commands_build_command_argument_token_entry (p : Z) : option token_entry :=
  a ← arguments !! p;
  t ← token a;
  let te := TokenEntry t (u8 (zlen t)) p [] in
  if parent_argument a =? 0 then Some te else
  parent ← arguments !! parent_argument a;
  if decide (arg_type parent = ARGUMENT_TYPE_ONEOF)
  then module_redis_commands_build_command_argument_token_entry_oneof_tokens p te else Some te.

(** The entries allocated so far and the table; the result is whether all the
    tokens were set. *)
Definition build_state : Type := list token_entry * hashtable_spsc.

Definition set_token (p : Z) (t : list Z) (st : build_state) : option (bool * build_state) :=
  te ← module_redis_commands_build_command_argument_token_entry p;
  let entries := st.1 ++ [te] in
  '(ok, ht) ← hashtable_spsc_op_try_set_ci st.2 t (zlen t) (zlen entries);
  Some (ok, (entries, ht)).

Fixpoint module_redis_commands_build_command_arguments_token_entries_hashtable (fuel : nat) (ps : list Z)
    (st : build_state) : option (bool * build_state) :=
  match fuel with
  | O => None
  | S fuel =>
      (fix loop (ps : list Z) (st : build_state) : option (bool * build_state) :=
         match ps with
         | [] => Some (true, st)
         | p :: ps =>
             a ← arguments !! p;
             '(ok, st) ←
               (if has_sub_arguments a
                then module_redis_commands_build_command_arguments_token_entries_hashtable fuel (sub_arguments a) st
                else Some (true, st));
             if negb ok then Some (false, st) else
             match token a with
             | None => loop ps st
             | Some t =>
                 '(ok, st) ← set_token p t st;
                 if ok : bool then loop ps st else Some (false, st)
             end
         end) ps st
  end.

Fixpoint build_tables (fuel : nat) (infos : list command_info) (entries : list token_entry)
    : option (bool * list command_info * list token_entry) :=
  match infos with
  | [] => Some (true, [], entries)
  | i :: infos =>
      token_count ← module_redis_commands_count_tokens_in_command_arguments fuel (info_arguments i);
      if token_count =? 0 then
        '(ok, infos, entries) ← build_tables fuel infos entries; Some (ok, i :: infos, entries)
      else
        ht ← hashtable_spsc_new token_count 8 false;
        '(ok, st) ← module_redis_commands_build_command_arguments_token_entries_hashtable fuel (info_arguments i) (entries, ht);
        if ok : bool then
          '(ok, infos, entries) ← build_tables fuel infos st.1;
          Some (ok, set_tokens_hashtable i (Some st.2) :: infos, entries)
        else Some (false, i :: infos, st.1)
  end.

Definition module_redis_commands_build_commands_arguments_token_entries_hashtable (fuel : nat) (infos : list command_info)
    : option (bool * list command_info * list token_entry) := build_tables fuel infos [].

(** The entries of a command are freed, then its table. *)
Definition module_redis_commands_free_command_arguments_token_entries_hashtable (i : command_info)
    : option (list Z * command_info) :=
  ht ← tokens_hashtable i;
  freed ← iter_values ht (S (Z.to_nat (buckets_count_real ht))) 0;
  _ ← hashtable_spsc_free ht;
  Some (freed, set_tokens_hashtable i None).

Fixpoint module_redis_commands_free_commands_arguments_token_entries_hashtable (infos : list command_info)
    : option (list Z * list command_info) :=
  match infos with
  | [] => Some ([], [])
  | i :: infos =>
      '(freed, i) ← match tokens_hashtable i with
                    | None => Some ([], i)
                    | Some _ => module_redis_commands_free_command_arguments_token_entries_hashtable i
                    end;
      '(freed', infos) ← module_redis_commands_free_commands_arguments_token_entries_hashtable infos;
      Some (freed ++ freed', i :: infos)
  end.

End tokens.

(** ** What a table finds

    The interface of a table: [lookup] is a function of the key folded to lower
    case. *)
Definition finds (ht : hashtable_spsc) (lookup : list Z -> Z) : Prop :=
  forall k, wf_bytes k -> hashtable_spsc_op_get_ci ht k (zlen k) = Some (lookup (tolower <$> k)).

Definition fold_key (k : list Z) : list Z := tolower <$> k.

(** Insertions one after the other. *)
Definition insert_all (m : gmap (list Z) Z) (kvs : list (list Z * Z)) : gmap (list Z) Z :=
  foldl (fun m kv => <[fold_key kv.1 := kv.2]> m) m kvs.

Lemma insert_all_lookup kvs : forall m k,
  NoDup (fold_key <$> kvs.*1) ->
  (forall v, (k, v) ∈ kvs -> insert_all m kvs !! fold_key k = Some v) /\
  (fold_key k ∉ fold_key <$> kvs.*1 -> insert_all m kvs !! fold_key k = m !! fold_key k).
Proof.
  induction kvs as [|[k0 v0] kvs IH]; intros m k Hnd.
  - split; [intros v Hv; by apply elem_of_nil in Hv|done].
  - cbn [fmap list_fmap fst] in Hnd. apply NoDup_cons in Hnd as [Hni Hnd].
    destruct (IH (<[fold_key k0 := v0]> m) k Hnd) as [IH1 IH2]. split.
    all: change (insert_all m ((k0, v0) :: kvs)) with (insert_all (<[fold_key k0 := v0]> m) kvs).
    + intros v [[= -> ->]|Hv]%elem_of_cons; [|by apply IH1].
      rewrite IH2 by done. by rewrite lookup_insert_eq.
    + intros Hn. apply not_elem_of_cons in Hn as [Hne Hn]. rewrite IH2 by done. by rewrite lookup_insert_ne.
Qed.

Lemma stands_finds ht p g m :
  spsc_inv (K := ci_key) ht p g -> stands_for g m -> finds ht (fun k => default 0 (m !! k)).
Proof. intros Hi Hm k Hk. exact (sk_get_spec (K := ci_key) ht p g m (CiKey k) Hi Hm Hk). Qed.

(** One set: it may be refused when the table holds as many keys as the range. *)
Lemma set_ci_spec ht p (g : gmap Z (ci_key * Z)) m k v :
  spsc_inv ht p g -> stands_for g m -> wf_bytes k ->
  exists ok ht', hashtable_spsc_op_try_set_ci ht k (zlen k) v = Some (ok, ht') /\
    if ok : bool then (exists g', spsc_inv (K := ci_key) ht' p g' /\ stands_for g' (<[fold_key k := v]> m)) /\
      max_range ht' = max_range ht /\ free_keys_on_deallocation ht' = free_keys_on_deallocation ht
    else ht' = ht /\ max_range ht <= Z.of_nat (size m).
Proof.
  intros Hi Hm Hk. destruct (sk_set_spec ht p g m (CiKey k) v Hi Hm Hk) as [(i & Hs & Hi' & Hm')|(Hs & _ & Hsz)].
  - exists true, (put ht (CiKey k) v i). split; [exact Hs|]. split; [by eexists|done].
  - exists false, ht. by split.
Qed.

Lemma size_insert_le (m : gmap (list Z) Z) k v : Z.of_nat (size (<[k := v]> m)) <= Z.of_nat (size m) + 1.
Proof.
  destruct (m !! k) eqn:Hk; [rewrite map_size_insert_Some by by eexists|rewrite map_size_insert_None by done]; lia.
Qed.

(** Names with their positions, from an index on. *)
Definition numbered (index : Z) (names : list (list Z)) : list (list Z * Z) :=
  imap (fun i name => (name, index + 1 + Z.of_nat i)) names.

Lemma numbered_cons index name names : numbered index (name :: names) = (name, index + 1) :: numbered (index + 1) names.
Proof.
  unfold numbered. rewrite imap_cons, Z.add_0_r. f_equal. apply imap_ext. intros i n _. cbn. f_equal. lia.
Qed.

Lemma numbered_lookup index names m :
  NoDup (fold_key <$> names) ->
  (forall n k name, names !! n = Some name -> fold_key k = fold_key name ->
     insert_all m (numbered index names) !! fold_key k = Some (index + 1 + Z.of_nat n)) /\
  (forall k, (fold_key k ∉ fold_key <$> names) -> insert_all m (numbered index names) !! fold_key k = m !! fold_key k).
Proof.
  intros Hnd. assert (fold_key <$> (numbered index names).*1 = fold_key <$> names) as Hk.
  { f_equal. unfold numbered. rewrite fmap_imap. transitivity (id <$> names); [exact (imap_const id names)|apply list_fmap_id]. }
  rewrite <- Hk in *. split.
  - intros n k name Hn Heq. rewrite Heq. apply (proj1 (insert_all_lookup _ m name Hnd)).
    apply list_elem_of_lookup. exists n. unfold numbered. by rewrite list_lookup_imap, Hn.
  - intros k Hno. exact (proj2 (insert_all_lookup _ m k Hnd) Hno).
Qed.

Lemma set_commands_spec infos : forall ht p (g : gmap Z (ci_key * Z)) m index,
  spsc_inv ht p g -> stands_for g m -> Forall (fun i => wf_bytes (info_string i)) infos -> free_keys_on_deallocation ht = false ->
  exists r, set_commands ht index infos = Some r /\
    match r with
    | Some ht' => exists g', spsc_inv (K := ci_key) ht' p g' /\ stands_for g' (insert_all m (numbered index (info_string <$> infos)))
    | None => max_range ht < Z.of_nat (size m) + zlen infos
    end.
Proof.
  induction infos as [|i infos IH]; intros ht p g m index Hi Hm Hwf Hfree; cbn [set_commands].
  - exists (Some ht). split; [done|]. by exists g.
  - apply Forall_cons in Hwf as [Hk Hwf].
    destruct (set_ci_spec ht p g m (info_string i) (index + 1) Hi Hm Hk) as (ok & ht' & Hset & Hok). rewrite Hset. cbn [mbind option_bind].
    destruct ok.
    + destruct Hok as ((g' & Hi' & Hm') & Hmr & Hfk).
      destruct (IH ht' p g' _ (index + 1) Hi' Hm' Hwf ltac:(congruence)) as (r & -> & Hr). exists r. split; [done|]. destruct r as [ht2|].
      * destruct Hr as (g2 & Hi2 & Hm2). exists g2. split; [done|]. cbn [fmap list_fmap]. by rewrite numbered_cons.
      * rewrite Hmr in Hr. pose proof (size_insert_le m (fold_key (info_string i)) (index + 1)). rewrite zlen_cons. lia.
    + destruct Hok as [-> Hsz]. unfold hashtable_spsc_free. rewrite Hfree. exists None. split; [done|]. rewrite zlen_cons.
      pose proof (zlen_nonneg infos). lia.
Qed.

(** A new table of keys folded to lower case. *)
Lemma new_ci_table count range :
  1 <= count <= 2 ^ 31 -> 0 < range < 2 ^ 16 ->
  exists ht p, hashtable_spsc_new count range false = Some ht /\
    spsc_inv ht p (∅ : gmap Z (ci_key * Z)) /\ stands_for (K := ci_key) ∅ ∅ /\ max_range ht = range /\
    free_keys_on_deallocation ht = false.
Proof.
  intros Hc Hr. destruct (hashtable_spsc_new_spec count range false Hc Hr) as (p & ht & Hn & Hg & _ & Hmr & Hfk & Ho).
  exists ht, p. split; [exact Hn|]. split; [|split; [exact stands_for_empty|by split]].
  apply inv_empty; [exact Hg|done|exact Ho].
Qed.


Definition example_info (name : list Z) (ps : list Z) : command_info := Info name true 0 ps 0 false None.


(** ** The tokens of a command *)

Section token_lists.
Context (arguments : gmap Z argument).
Abbreviation build_entry := (module_redis_commands_build_command_argument_token_entry arguments).
Abbreviation build_table := (module_redis_commands_build_command_arguments_token_entries_hashtable arguments).
Abbreviation count_tokens := (module_redis_commands_count_tokens_in_command_arguments arguments).

(** The arguments with a token, the inner ones first. *)
Fixpoint token_arguments (fuel : nat) (ps : list Z) : option (list Z) :=
  match fuel with
  | O => None
  | S fuel =>
      (fix loop (ps : list Z) : option (list Z) :=
         match ps with
         | [] => Some []
         | p :: ps =>
             a ← arguments !! p;
             inner ← (if has_sub_arguments a then token_arguments fuel (sub_arguments a) else Some []);
             rest ← loop ps;
             Some (inner ++ match token a with Some _ => p :: rest | None => rest end)
         end) ps
  end.

Fixpoint set_tokens (ps : list Z) (st : build_state) : option (bool * build_state) :=
  match ps with
  | [] => Some (true, st)
  | p :: ps =>
      a ← arguments !! p;
      t ← token a;
      '(ok, st) ← set_token arguments p t st;
      if ok : bool then set_tokens ps st else Some (false, st)
  end.

Lemma set_tokens_app l1 l2 st :
  set_tokens (l1 ++ l2) st = '(ok, st) ← set_tokens l1 st; if ok : bool then set_tokens l2 st else Some (false, st).
Proof.
  revert st. induction l1 as [|p l1 IH]; intros st; [done|]. cbn [app set_tokens].
  destruct (arguments !! p) as [a|]; [|done]. cbn [mbind option_bind]. destruct (token a) as [t|]; [|done]. cbn [mbind option_bind].
  destruct (set_token _ _ _ _) as [[[] st']|]; [apply IH|done|done].
Qed.

Lemma build_table_flat fuel : forall ps st l,
  token_arguments fuel ps = Some l -> build_table fuel ps st = set_tokens l st.
Proof.
  induction fuel as [|fuel IH]; intros ps; [done|]. induction ps as [|p ps IHps]; intros st l Hl.
  { by injection Hl as <-. }
  cbn [module_redis_commands_build_command_arguments_token_entries_hashtable token_arguments] in *.
  destruct (arguments !! p) as [a|] eqn:Ha; [|done]. cbn [mbind option_bind] in *.
  apply bind_Some in Hl as (inner & Hin & Hl). apply bind_Some in Hl as (rest & Hrest & [= <-]). rewrite set_tokens_app.
  assert ((if has_sub_arguments a then build_table fuel (sub_arguments a) st else Some (true, st)) = set_tokens inner st) as ->.
  { destruct (has_sub_arguments a); [by apply IH|by injection Hin as <-]. }
  destruct (set_tokens inner st) as [[[] st1]|]; [|done|done]. cbn [mbind option_bind negb].
  destruct (token a) as [t|] eqn:Ht; [|by apply IHps]. cbn [set_tokens]. rewrite Ha. cbn [mbind option_bind]. rewrite Ht. cbn [mbind option_bind].
  destruct (set_token _ _ _ _) as [[[] st2]|]; [by apply IHps|done|done].
Qed.

Lemma count_tokens_flat fuel : forall ps l, token_arguments fuel ps = Some l -> count_tokens fuel ps = Some (u16 (zlen l)).
Proof.
  induction fuel as [|fuel IH]; intros ps l Hl; [done|]. cbn [module_redis_commands_count_tokens_in_command_arguments].
  change 0 with (u16 0) at 1. change (u16 (zlen l)) with (u16 (0 + zlen l)). generalize 0 as n. revert l Hl.
  induction ps as [|p ps IHps]; intros l Hl n.
  { injection Hl as <-. cbn. f_equal. f_equal. unfold zlen. cbn. lia. }
  cbn [token_arguments] in Hl. cbn [foldl mbind option_bind].
  destruct (arguments !! p) as [a|] eqn:Ha; [|done]. cbn [mbind option_bind] in *.
  apply bind_Some in Hl as (inner & Hin & Hl). apply bind_Some in Hl as (rest & Hrest & [= <-]).
  assert ((if has_sub_arguments a then n0 ← count_tokens fuel (sub_arguments a); Some (u16 (u16 n + n0)) else Some (u16 n)) =
          Some (u16 (n + zlen inner))) as ->.
  { destruct (has_sub_arguments a); [|injection Hin as <-; do 2 f_equal; unfold zlen; cbn; lia].
    rewrite (IH _ _ Hin). cbn. f_equal. unfold u16, wrap. by rewrite <- Z.add_mod. }
  cbn [mbind option_bind]. rewrite zlen_app. destruct (token a).
  - rewrite zlen_cons. replace (u16 (u16 (n + zlen inner) + 1)) with (u16 (n + zlen inner + 1)).
    2:{ unfold u16, wrap. by rewrite Zplus_mod_idemp_l. }
    rewrite (IHps rest Hrest (n + zlen inner + 1)). do 2 f_equal. lia.
  - rewrite (IHps rest Hrest (n + zlen inner)). do 2 f_equal. lia.
Qed.

(** An argument with its token. *)
Definition has_token (p : Z) (t : list Z) : Prop :=
  (exists a, arguments !! p = Some a /\ token a = Some t) /\ wf_bytes t /\ is_Some (build_entry p).

Lemma build_entry_argument p te : build_entry p = Some te -> te_argument te = p.
Proof.
  unfold module_redis_commands_build_command_argument_token_entry. intros He.
  apply bind_Some in He as (a & _ & He). apply bind_Some in He as (t & _ & He).
  destruct (_ =? 0); [by injection He as <-|]. apply bind_Some in He as (parent & _ & He).
  destruct (decide _); [|by injection He as <-].
  unfold module_redis_commands_build_command_argument_token_entry_oneof_tokens in He.
  apply bind_Some in He as (a' & _ & He). apply bind_Some in He as (parent' & _ & He).
  assert (forall q l te0 te1, te_argument te0 = p -> oneof_tokens_loop arguments q l te0 = Some te1 -> te_argument te1 = p) as Hloop.
  2:{ eapply Hloop; [|exact He]. done. }
  clear. intros q l. induction l as [|b l IH]; intros te0 te1 H0 Hl; [by injection Hl as <-|].
  cbn [oneof_tokens_loop] in Hl. apply bind_Some in Hl as (b' & _ & Hl). apply bind_Some in Hl as (te2 & H2 & Hl).
  apply (IH te2); [|done]. destruct (token b'); [|by injection H2 as <-]. destruct (negb _); [|by injection H2 as <-].
  unfold push_one_of in H2. apply bind_Some in H2 as (? & _ & H2). apply bind_Some in H2 as (? & _ & H2). by injection H2 as <-.
Qed.

Lemma set_tokens_spec ps : forall names entries ht p (g : gmap Z (ci_key * Z)) m,
  Forall2 has_token ps names -> spsc_inv ht p g -> stands_for g m ->
  exists ok entries' ht', set_tokens ps (entries, ht) = Some (ok, (entries', ht')) /\
    if ok : bool then
      (exists g', spsc_inv (K := ci_key) ht' p g' /\ stands_for g' (insert_all m (numbered (zlen entries) names))) /\
      exists tes, entries' = entries ++ tes /\ te_argument <$> tes = ps
    else max_range ht < Z.of_nat (size m) + zlen ps.
Proof.
  induction ps as [|q ps IH]; intros names entries ht p g m Hps Hi Hm.
  - inversion Hps; subst. exists true, entries, ht. split; [done|]. split; [by exists g|]. exists []. by rewrite app_nil_r.
  - inversion Hps as [|? t ? names' ((a & Ha & Ht) & Hwf & te & Hte) Hps']; subst. clear Hps. cbn [set_tokens]. rewrite Ha. cbn [mbind option_bind].
    rewrite Ht. cbn [mbind option_bind]. unfold set_token. rewrite Hte. cbn [mbind option_bind fst snd].
    replace (zlen (entries ++ [te])) with (zlen entries + 1) by (rewrite zlen_app; done).
    destruct (set_ci_spec ht p g m t (zlen entries + 1) Hi Hm Hwf) as (ok & ht' & -> & Hok). cbn [mbind option_bind]. destruct ok.
    + destruct Hok as ((g' & Hi' & Hm') & Hmr & _).
      destruct (IH names' (entries ++ [te]) ht' p g' _ Hps' Hi' Hm') as (ok & entries' & ht2 & -> & Hr).
      exists ok, entries', ht2. split; [done|]. destruct ok.
      * destruct Hr as ((g2 & Hi2 & Hm2) & tes & -> & Htes). split.
        -- exists g2. split; [done|]. rewrite numbered_cons. rewrite zlen_app in Hm2. exact Hm2.
        -- exists (te :: tes). rewrite <- app_assoc. split; [done|]. cbn. by rewrite (build_entry_argument _ _ Hte), Htes.
      * rewrite Hmr in Hr. pose proof (size_insert_le m (fold_key t) (zlen entries + 1)). rewrite zlen_cons. lia.
    + destruct Hok as [-> Hsz]. exists false, (entries ++ [te]), ht. split; [done|]. rewrite zlen_cons. pose proof (zlen_nonneg ps). lia.
Qed.

Lemma set_tokens_prefix ps : forall entries ht ok entries' ht',
  set_tokens ps (entries, ht) = Some (ok, (entries', ht')) -> exists tes, entries' = entries ++ tes.
Proof.
  induction ps as [|q ps IH]; intros entries ht ok entries' ht' Hs; cbn [set_tokens] in Hs.
  { injection Hs as _ <- _. exists []. by rewrite app_nil_r. }
  apply bind_Some in Hs as (a & _ & Hs). apply bind_Some in Hs as (t & _ & Hs). apply bind_Some in Hs as ([ok1 [e1 ht1]] & Hset & Hs).
  unfold set_token in Hset. apply bind_Some in Hset as (te & _ & Hset). cbn [fst snd] in Hset.
  apply bind_Some in Hset as ([ok2 ht2] & _ & [= -> <- ->]). destruct ok1; [|injection Hs as _ <- _; by eexists].
  destruct (IH _ _ _ _ _ Hs) as [tes ->]. exists (te :: tes). by rewrite <- app_assoc.
Qed.

(** A command whose tokens are distinct, the arguments that have them and the
    tokens. *)
Definition well_described (fuel : nat) (i : command_info) (d : list Z * list (list Z)) : Prop :=
  token_arguments fuel (info_arguments i) = Some d.1 /\ Forall2 has_token d.1 d.2 /\
  NoDup (fold_key <$> d.2) /\ zlen d.1 < 2 ^ 16.

(** The table finds an entry of the argument of a token, and nothing for what
    is not one. *)
Definition finds_tokens (entries : list token_entry) (d : list Z * list (list Z)) (ht : hashtable_spsc) : Prop :=
  (forall n p t k, d.1 !! n = Some p -> d.2 !! n = Some t -> wf_bytes k -> fold_key k = fold_key t ->
     exists z te, hashtable_spsc_op_get_ci ht k (zlen k) = Some z /\ z <> 0 /\ zget entries (z - 1) = Some te /\ te_argument te = p) /\
  (forall k, wf_bytes k -> (fold_key k ∉ fold_key <$> d.2) -> hashtable_spsc_op_get_ci ht k (zlen k) = Some 0).

Definition token_table_ok (entries : list token_entry) (d : list Z * list (list Z)) (i i' : command_info) : Prop :=
  if decide (d.1 = []) then i' = i
  else exists ht, i' = set_tokens_hashtable i (Some ht) /\ finds_tokens entries d ht.

Lemma token_table_ok_app entries more d i i' : token_table_ok entries d i i' -> token_table_ok (entries ++ more) d i i'.
Proof.
  unfold token_table_ok. destruct (decide _); [done|]. intros (ht & -> & Hf & Hn). exists ht. split; [done|]. split; [|exact Hn].
  intros n0 q t k Hp Ht Hk Heq. destruct (Hf n0 q t k Hp Ht Hk Heq) as (z & te & Hg & Hz & He & Ha). exists z, te. split; [exact Hg|]. split; [exact Hz|]. split; [|exact Ha].
  pose proof (zget_Some_range _ _ _ He). rewrite zget_app by lia. zcase; [exact He|lia].
Qed.

Lemma build_one_table fuel i d entries :
  well_described fuel i d -> d.1 <> [] ->
  exists ht ok entries' ht', hashtable_spsc_new (zlen d.1) 8 false = Some ht /\
    build_table fuel (info_arguments i) (entries, ht) = Some (ok, (entries', ht')) /\
    if ok : bool then (exists tes, entries' = entries ++ tes) /\ finds_tokens entries' d ht' else 8 < zlen d.1.
Proof.
  destruct d as [ps names]. cbn [fst snd]. intros (Hps & Hf & Hnd & Hlen) Hne. cbn [fst snd] in *. assert (0 < zlen ps) by (destruct ps; [done|rewrite zlen_cons; pose proof (zlen_nonneg ps); lia]).
  destruct (new_ci_table (zlen ps) 8 ltac:(mach_lia) ltac:(mach_lia)) as (ht & p & Hn & Hi & Hm & Hr & _).
  destruct (set_tokens_spec ps names entries ht p ∅ ∅ Hf Hi Hm) as (ok & entries' & ht' & Hset & Hok).
  exists ht, ok, entries', ht'. split; [exact Hn|]. split; [by rewrite (build_table_flat _ _ _ _ Hps)|]. destruct ok; [|rewrite map_size_empty, Hr in Hok; lia].
  destruct Hok as ((g' & Hi' & Hm') & tes & -> & Htes). split; [by exists tes|].
  pose proof (stands_finds _ _ _ _ Hi' Hm') as Hfind. destruct (numbered_lookup (zlen entries) names ∅ Hnd) as [Hin Hout]. split; cbn [fst snd].
  - intros n q t k Hq Ht Hk Heq. rewrite <- Htes in Hq. rewrite list_lookup_fmap in Hq. destruct (tes !! n) as [te|] eqn:Hte; [|done]. cbn in Hq.
    exists (zlen entries + 1 + Z.of_nat n), te. rewrite Hfind by done. change (tolower <$> k) with (fold_key k). rewrite (Hin n k t Ht Heq).
    pose proof (zlen_nonneg entries). split; [done|]. split; [lia|]. split; [|congruence].
    replace (zlen entries + 1 + Z.of_nat n - 1) with (zlen entries + Z.of_nat n) by lia. rewrite zget_app by lia. zcase; [lia|].
    replace (zlen entries + Z.of_nat n - zlen entries) with (Z.of_nat n) by lia. unfold zget. zcase; [lia|]. by rewrite Nat2Z.id.
  - intros k Hk Hno. rewrite Hfind by done. change (tolower <$> k) with (fold_key k). by rewrite (Hout k Hno).
Qed.

Lemma build_tables_spec fuel infos : forall ds entries,
  Forall2 (well_described fuel) infos ds ->
  exists ok infos' entries', build_tables arguments fuel infos entries = Some (ok, infos', entries') /\
    (exists tes, entries' = entries ++ tes) /\
    if ok : bool then Forall3 (token_table_ok entries') ds infos infos' else Exists (fun d => 8 < zlen d.1) ds.
Proof.
  induction infos as [|i infos IH]; intros ds entries Hds.
  - inversion Hds; subst. exists true, [], entries. split; [done|]. split; [exists []; by rewrite app_nil_r|constructor].
  - inversion Hds as [|? d ? ds' Hd Hds']; subst. pose proof Hd as (Hps & Hf & Hnd & Hlen). cbn [build_tables].
    rewrite (count_tokens_flat _ _ _ Hps). cbn [mbind option_bind]. pose proof (zlen_nonneg d.1). rewrite (wrap_small 16) by mach_lia. zcase.
    + destruct (IH ds' entries Hds') as (ok & infos' & entries' & -> & Hpre & Hok). exists ok, (i :: infos'), entries'. split; [done|]. split; [exact Hpre|].
      destruct ok; [|by right]. constructor; [|exact Hok]. unfold token_table_ok. rewrite decide_True; [done|]. by apply zlen_nil_inv.
    + destruct (build_one_table fuel i d entries Hd) as (ht & ok & entries1 & ht' & -> & Hb & Hok).
      { intros Hnil. rewrite Hnil in *. done. }
      cbn [mbind option_bind]. rewrite Hb. cbn [mbind option_bind fst snd]. destruct ok.
      2:{ exists false, (i :: infos), entries1. split; [done|]. rewrite (build_table_flat _ _ _ _ Hps) in Hb.
          split; [by eapply set_tokens_prefix|by left]. }
      destruct Hok as ((tes1 & ->) & Hfind). destruct (IH ds' (entries ++ tes1) Hds') as (ok & infos' & entries' & -> & (tes & ->) & Hok).
      exists ok, (set_tokens_hashtable i (Some ht') :: infos'), ((entries ++ tes1) ++ tes). split; [done|]. split; [exists (tes1 ++ tes); by rewrite app_assoc|].
      destruct ok; [|by right]. constructor; [|exact Hok]. apply token_table_ok_app. unfold token_table_ok.
      destruct (decide _) as [Hnil|]; [rewrite Hnil in *; done|]. by exists ht'.
Qed.

End token_lists.

(** C15: for every command whose tokens are distinct strings, the start builds
    the table of its tokens without a fault, counting them as it does the
    sub arguments included; a token finds the entry of the argument that has
    it, whatever the case of its letters and however deep the argument is, and
    anything else finds nothing; a command without tokens is left without a
    table.  The build is given up only when a command has more than 8 tokens. *)
Theorem tokens_tables_find arguments fuel infos ds :
  Forall2 (well_described arguments fuel) infos ds ->
  exists ok infos' entries,
    module_redis_commands_build_commands_arguments_token_entries_hashtable arguments fuel infos = Some (ok, infos', entries) /\
    if ok : bool then Forall3 (token_table_ok entries) ds infos infos' else Exists (fun d => 8 < zlen d.1) ds.
Proof.
  intros Hds. destruct (build_tables_spec arguments fuel infos ds [] Hds) as (ok & infos' & entries & Hb & _ & Hok).
  exists ok, infos', entries. by split.
Qed.

(** A condition NX or XX of the command, as of SET. *)
Definition example_arguments : gmap Z argument :=
  list_to_map [(1, Argument [] ARGUMENT_TYPE_ONEOF 0 None [2; 3] false true true false false 8 0);
               (2, Argument [] ARGUMENT_TYPE_BOOL 1 (Some [78; 88]) [] false true false false false 1 0);
               (3, Argument [] ARGUMENT_TYPE_BOOL 1 (Some [88; 88]) [] false true false false false 1 1)].

Lemma tokens_tables_find_witness :
  exists infos' entries,
    module_redis_commands_build_commands_arguments_token_entries_hashtable example_arguments 3 [example_info [83; 69; 84] [1]] =
      Some (true, infos', entries) /\
    Forall3 (token_table_ok entries) [([2; 3], [[78; 88]; [88; 88]])] [example_info [83; 69; 84] [1]] infos'.
Proof.
  destruct (tokens_tables_find example_arguments 3 [example_info [83; 69; 84] [1]] [([2; 3], [[78; 88]; [88; 88]])])
    as (ok & infos' & entries & Hb & Hok).
  - constructor; [|by constructor]. split; [by vm_compute|]. split; [|split; [|by vm_compute]].
    + cbn [fst snd]. constructor; [|constructor; [|by constructor]].
      all: split; [by eexists|]; split; [apply (bool_decide_unpack _); by vm_compute|]; by eexists.
    + cbn [snd]. apply (bool_decide_unpack _). by vm_compute.
  - exists infos', entries. destruct ok; [split; [exact Hb|exact Hok]|]. exfalso. inversion Hok as [? ? H|? ? H]; subst; [unfold zlen in H; cbn in H; lia|inversion H].
Defined.

End RedisInfo.
