(* ===== verification/RedisWriter.v ===== *)
(** * RedisWriter: the RESP encoder

    protocol/redis/protocol_redis_writer.c and .h.  A writer gets the memory
    that holds the output buffer, a position in it and the bytes left after it
    ([buffer], [buffer_length]); it returns the new memory and position, NULL
    when the buffer is too small, and [None] for a store outside the memory.
    The double and the printf variants are not modelled. *)

From Stdlib Require Import Ascii String.
From S2P Require Import Prelude Memory Decimal.

Module RedisWriter.
Import Memory Decimal.

(** ** Types of the protocol *)

Definition TYPE_SIMPLE_STRING : Z := 43.
Definition TYPE_BLOB_STRING : Z := 36.
Definition TYPE_NUMBER : Z := 58.
Definition TYPE_BIG_NUMBER : Z := 40.
Definition TYPE_NULL : Z := 95.
Definition TYPE_BOOLEAN : Z := 35.
Definition TYPE_ARRAY : Z := 42.
Definition TYPE_MAP : Z := 37.
Definition TYPE_SET : Z := 126.
Definition TYPE_ATTRIBUTE : Z := 124.
Definition TYPE_PUSH : Z := 62.
Definition TYPE_SIMPLE_ERROR : Z := 45.
Definition TYPE_BLOB_ERROR : Z := 33.

(** The outcome of a writer: the memory and the position after the output, or
    NULL. *)
Definition outcome := option (mem * Z).
Definition writer := mem -> Z -> Z -> option outcome.

(** PROTOCOL_REDIS_WRITER_WRITE_ARGUMENT_WRAPPER: run [w]; on NULL return NULL,
    otherwise go on after its output. *)
Definition andthen (w1 w2 : writer) : writer := fun m buffer buffer_length =>
  r ← w1 m buffer buffer_length;
  match r with
  | None => Some None
  | Some (m', buffer') => w2 m' buffer' (buffer_length - (buffer' - buffer))
  end.

Notation "w1 >-> w2" := (andthen w1 w2) (at level 60, right associativity).

Definition enough_space_in_buffer (length requested_size : Z) : bool := requested_size <? length.

(** ** Numbers *)

Definition maxdigits : list Z :=
  [1; 1; 1; 1; 2; 2; 2; 3; 3; 3; 4; 4; 4; 4; 5; 5; 5; 6; 6; 6;
   7; 7; 7; 7; 8; 8; 8; 9; 9; 9; 10; 10; 10; 10; 11; 11; 11;
   12; 12; 12; 13; 13; 13; 13; 14; 14; 14; 15; 15; 15;
   16; 16; 16; 16; 17; 17; 17; 18; 18; 18; 19; 19; 19; 19; 20].

Definition powers : list Z :=
  [0; 1; 10; 100; 1000; 10000; 100000; 1000000; 10000000;
   100000000; 1000000000; 10000000000; 100000000000;
   1000000000000; 10000000000000; 100000000000000;
   1000000000000000; 10000000000000000; 100000000000000000;
   1000000000000000000; 10000000000000000000].

Definition builtin_clzll (x : Z) : Z := 63 - Z.log2 x.

Definition uint64_str_length (number : Z) : option Z :=
  if number =? 0 then Some 1 else
  let bits := 64 - builtin_clzll number in
  digits ← zget maxdigits bits;
  p ← zget powers digits;
  Some (if number <? p then digits - 1 else digits).

(** [number *= -1] on the smallest 64-bit number is taken as the two's
    complement wrap-around. *)
Definition int64_str_length (number : Z) : option Z :=
  let add_minus_sign := if number <? 0 then 1 else 0 in
  let number := if number <? 0 then i64 (number * -1) else number in
  n ← uint64_str_length (u64 number);
  Some (n + add_minus_sign).

(** The do/while of [uint64_to_str]; [number_str_length] is the [size_t]
    counter, one iteration per digit: at most 20. *)
Fixpoint to_str_loop (fuel : nat) (m : mem) (buffer number number_str_length : Z)
    : option (mem * Z * Z) :=
  match fuel with
  | O => None
  | S fuel =>
      m ← store m (buffer + (number_str_length - 1)) (number `mod` 10 + 48);
      if 0 <? number_str_length then
        if 0 <? number / 10
        then to_str_loop fuel m buffer (number / 10) (number_str_length - 1)
        else Some (m, number / 10, number_str_length - 1)
      else Some (m, number, u64 (number_str_length - 1))
  end.

Definition uint64_to_str (number number_str_length : Z) : writer := fun m buffer buffer_length =>
  let buffer_end_ptr := buffer + number_str_length in
  if (number_str_length =? 0) || (buffer_length <? number_str_length) then Some None else
  '(m, number, number_str_length) ← to_str_loop 21 m buffer number number_str_length;
  if (number_str_length =? 0) && (0 <? number) then Some None else
  Some (Some (m, buffer_end_ptr)).

Definition int64_to_str (number number_str_length : Z) : writer := fun m buffer buffer_length =>
  if (number_str_length =? 0) || (buffer_length <? number_str_length) then Some None else
  if number <? 0 then
    m ← store m buffer 45;
    uint64_to_str (u64 (i64 (number * -1))) (u64 (number_str_length - 1)) m (buffer + 1)
      (u64 (buffer_length - 1))
  else uint64_to_str number number_str_length m buffer buffer_length.

(** ** Arguments *)

Definition write_argument_type (type : Z) : writer := fun m buffer buffer_length =>
  if negb (enough_space_in_buffer buffer_length 1) then Some None else
  m ← store m buffer type; Some (Some (m, buffer + 1)).

Definition write_argument_boolean (is_true : bool) : writer := fun m buffer buffer_length =>
  if negb (enough_space_in_buffer buffer_length 1) then Some None else
  m ← store m buffer (if is_true then 116 else 102); Some (Some (m, buffer + 1)).

Definition write_argument_number (number : Z) : writer := fun m buffer buffer_length =>
  number_size ← int64_str_length number;
  if negb (enough_space_in_buffer buffer_length number_size) then Some None else
  int64_to_str number number_size m buffer buffer_length.

(** [string_length] is a [size_t]; the copy reads that many bytes of the
    string. *)
Definition write_argument_string (string : list Z) (string_length : Z) : writer :=
  fun m buffer buffer_length =>
  let string_length := u64 string_length in
  if negb (enough_space_in_buffer buffer_length string_length) then Some None else
  if zlen string <? string_length then None else
  m ← memcpy m buffer (take (Z.to_nat string_length) string);
  Some (Some (m, buffer + string_length)).

Definition write_argument_eol : writer := fun m buffer buffer_length =>
  if negb (enough_space_in_buffer buffer_length 2) then Some None else
  m ← store m buffer 13;
  m ← store m (buffer + 1) 10;
  Some (Some (m, buffer + 2)).

Definition write_argument_blob_start (is_error : bool) (string_length : Z) : writer :=
  write_argument_type (if is_error then TYPE_BLOB_ERROR else TYPE_BLOB_STRING) >->
  write_argument_number string_length >->
  write_argument_eol.

Definition write_argument_blob_end : writer := write_argument_eol.

Definition write_nothing : writer := fun m buffer _ => Some (Some (m, buffer)).

Definition write_argument_blob (is_error : bool) (string : list Z) (string_length : Z) : writer :=
  write_argument_blob_start is_error string_length >->
  (if -1 <? string_length
   then write_argument_string string string_length >-> write_argument_blob_end
   else write_nothing).

Definition write_argument_simple (is_error : bool) (string : list Z) (string_length : Z) : writer :=
  write_argument_type (if is_error then TYPE_SIMPLE_ERROR else TYPE_SIMPLE_STRING) >->
  write_argument_string string string_length >->
  write_argument_eol.

(** ** Values *)

Definition write_null : writer := write_argument_type TYPE_NULL >-> write_argument_eol.
Definition write_boolean (is_true : bool) : writer :=
  write_argument_type TYPE_BOOLEAN >-> write_argument_boolean is_true >-> write_argument_eol.
Definition write_blob_string (string : list Z) (string_length : Z) : writer :=
  write_argument_blob false string string_length.
Definition write_blob_string_null : writer := write_argument_blob false [] (-1).
Definition write_blob_error (string : list Z) (string_length : Z) : writer :=
  write_argument_blob true string string_length.
Definition write_simple_string (string : list Z) (string_length : Z) : writer :=
  write_argument_simple false string string_length.
Definition write_simple_error (string : list Z) (string_length : Z) : writer :=
  write_argument_simple true string string_length.
Definition write_number (number : Z) : writer :=
  write_argument_type TYPE_NUMBER >-> write_argument_number number >-> write_argument_eol.
Definition write_big_number (bignumber : list Z) (bignumber_length : Z) : writer :=
  write_argument_type TYPE_BIG_NUMBER >-> write_argument_number bignumber_length >->
  write_argument_eol >-> write_argument_string bignumber bignumber_length >-> write_argument_eol.
Definition write_array (array_count : Z) : writer :=
  write_argument_type TYPE_ARRAY >-> write_argument_number array_count >-> write_argument_eol.
Definition write_map (items_count : Z) : writer :=
  write_argument_type TYPE_MAP >-> write_argument_number items_count >-> write_argument_eol.
Definition write_set (set_count : Z) : writer :=
  write_argument_type TYPE_SET >-> write_argument_number set_count >-> write_argument_eol.
Definition write_attribute (attributes_count : Z) : writer :=
  write_argument_type TYPE_ATTRIBUTE >-> write_argument_number attributes_count >-> write_argument_eol.
Definition write_push (messages_count : Z) : writer :=
  write_argument_type TYPE_PUSH >-> write_argument_number messages_count >-> write_argument_eol.

(** ** What a writer writes *)

(** [w] emits exactly [bs], at the position, when the buffer has room for one
    byte more, touching nothing else; otherwise it returns NULL. *)
Definition writes (w : writer) (bs : list Z) : Prop :=
  forall m buffer buffer_length,
    0 <= buffer -> 0 <= buffer_length < 2 ^ 64 -> buffer + buffer_length <= zlen m ->
    w m buffer buffer_length =
    Some (if zlen bs <? buffer_length then Some (splice m buffer bs, buffer + zlen bs) else None).

Lemma writes_byte x w :
  (forall m buffer buffer_length, w m buffer buffer_length =
     (if negb (enough_space_in_buffer buffer_length 1) then Some None else
      m ← store m buffer x; Some (Some (m, buffer + 1)))) -> writes w [x].
Proof.
  intros Hw m buffer len Hb Hl Hfit. rewrite Hw. unfold enough_space_in_buffer.
  change (zlen [x]) with 1. destruct (Z.ltb_spec 1 len); [|done]. cbn [negb].
  by rewrite store_splice by lia.
Qed.

Lemma writes_type x : writes (write_argument_type x) [x].
Proof. by apply writes_byte. Qed.

Lemma writes_boolean b : writes (write_argument_boolean b) [if b then 116 else 102].
Proof. by apply writes_byte. Qed.

Lemma writes_eol : writes write_argument_eol [13; 10].
Proof.
  intros m buffer len Hb Hl Hfit. unfold write_argument_eol, enough_space_in_buffer.
  change (zlen [13; 10]) with 2. destruct (Z.ltb_spec 2 len); [|done]. cbn [negb].
  rewrite store_splice by lia. cbn [mbind option_bind].
  rewrite store_splice by (rewrite splice_length; change (zlen [13]) with 1; lia).
  cbn [mbind option_bind]. do 2 f_equal. f_equal.
  apply (splice_app m buffer [13] [10] Hb). change (zlen [13]) with 1. change (zlen [10]) with 1. lia.
Qed.

Lemma writes_andthen w1 w2 b1 b2 : writes w1 b1 -> writes w2 b2 -> writes (w1 >-> w2) (b1 ++ b2).
Proof.
  intros H1 H2 m buffer len Hb Hl Hfit. unfold andthen. rewrite H1 by done.
  pose proof (zlen_nonneg b1). pose proof (zlen_nonneg b2). rewrite zlen_app.
  destruct (Z.ltb_spec (zlen b1) len) as [Hlt|Hge]; cbn [mbind option_bind].
  - replace (len - (buffer + zlen b1 - buffer)) with (len - zlen b1) by lia.
    rewrite H2 by (rewrite ?splice_length; lia).
    destruct (Z.ltb_spec (zlen b2) (len - zlen b1)), (Z.ltb_spec (zlen b1 + zlen b2) len); try lia; [|done].
    rewrite splice_app by lia. do 2 f_equal. f_equal. lia.
  - destruct (Z.ltb_spec (zlen b1 + zlen b2) len); [lia|done].
Qed.

Lemma writes_string s : zlen s < 2 ^ 64 -> writes (write_argument_string s (zlen s)) s.
Proof.
  intros Hs m buffer len Hb Hl Hfit. unfold write_argument_string, enough_space_in_buffer.
  pose proof (zlen_nonneg s). rewrite wrap_small by lia.
  destruct (Z.ltb_spec (zlen s) len); [|done]. cbn [negb].
  destruct (Z.ltb_spec (zlen s) (zlen s)); [lia|].
  unfold memcpy. rewrite take_ge by (unfold zlen; lia).
  destruct (Z.leb_spec 0 buffer), (Z.leb_spec (buffer + zlen s) (zlen m)); try lia. done.
Qed.

(** ** Numbers *)

(** Each of the 64 widths: the numbers of [bits] bits have [maxdigits[bits]]
    digits or one less. *)
Definition width_ok (b : Z) : bool :=
  match zget maxdigits b with
  | None => false
  | Some d =>
      match zget powers d with
      | None => false
      | Some p => (p =? 10 ^ (d - 1)) && (1 <=? d) && (2 ^ b - 1 <? 10 ^ d) &&
                  ((d =? 1) || (10 ^ (d - 2) <=? 2 ^ (b - 1)))
      end
  end.

Lemma widths_ok : forallb width_ok (seqZ 1 64) = true.
Proof. vm_compute. reflexivity. Qed.

Lemma uint64_str_length_spec n :
  0 <= n < 2 ^ 64 -> uint64_str_length n = Some (Z.of_nat (ndigits n)).
Proof.
  intros Hn. unfold uint64_str_length. destruct (Z.eqb_spec n 0) as [->|Hnz]; [done|].
  assert (0 <= Z.log2 n < 64) as Hlog.
  { split; [apply Z.log2_nonneg|]. apply Z.log2_lt_pow2; lia. }
  destruct (Z.log2_spec n ltac:(lia)) as [Hlo Hhi].
  unfold builtin_clzll. replace (64 - (63 - Z.log2 n)) with (Z.log2 n + 1) by lia.
  assert (width_ok (Z.log2 n + 1) = true) as Hok.
  { pose proof widths_ok as Hall. rewrite forallb_forall in Hall. apply Hall.
    apply list_elem_of_In, elem_of_seqZ. lia. }
  unfold width_ok in Hok. replace (Z.succ (Z.log2 n)) with (Z.log2 n + 1) in Hhi by lia.
  replace (Z.log2 n + 1 - 1) with (Z.log2 n) in Hok by lia.
  destruct (zget maxdigits (Z.log2 n + 1)) as [d|]; [|done].
  destruct (zget powers d) as [p|] eqn:Hp; [|done]. cbn [mbind option_bind]. rewrite Hp.
  cbn [mbind option_bind].
  apply andb_true_iff in Hok as [Hok H4]. apply andb_true_iff in Hok as [Hok H3].
  apply andb_true_iff in Hok as [H1 H2]. apply Z.eqb_eq in H1 as ->.
  apply Z.leb_le in H2. apply Z.ltb_lt in H3. f_equal. symmetry.
  destruct (Z.ltb_spec n (10 ^ (d - 1))) as [Hlt|Hge].
  - destruct (Z.eqb_spec d 1) as [->|Hd].
    + change (10 ^ (1 - 1)) with 1 in Hlt. lia.
    + cbn [orb] in H4. apply Z.leb_le in H4. apply ndigits_unique; [lia..|].
      replace (d - 1 - 1) with (d - 2) by lia. lia.
  - apply ndigits_unique; lia.
Qed.

Lemma to_str_loop_spec d : forall m buffer n fuel,
  (d < fuel)%nat -> 0 <= n < 10 ^ (Z.of_nat d + 1) -> (0 < Z.of_nat d -> 10 ^ Z.of_nat d <= n) ->
  0 <= buffer -> buffer + Z.of_nat d + 1 <= zlen m ->
  to_str_loop fuel m buffer n (Z.of_nat d + 1) = Some (splice m buffer (digits (S d) n), 0, 0).
Proof.
  induction d as [|d IH]; intros m buffer n fuel Hf Hn Hlo Hb Hfit; (destruct fuel as [|fuel]; [lia|]);
    cbn [to_str_loop].
  - change (10 ^ (Z.of_nat 0 + 1)) with 10 in Hn. rewrite store_splice by lia. cbn [mbind option_bind].
    change (0 <? Z.of_nat 0 + 1) with true. cbv iota.
    rewrite Z.div_small by lia. change (0 <? 0) with false. cbv iota. cbn [digits app].
    replace (buffer + (Z.of_nat 0 + 1 - 1)) with buffer by lia. rewrite Z.add_comm. done.
  - rewrite store_splice by lia. cbn [mbind option_bind].
    destruct (Z.ltb_spec 0 (Z.of_nat (S d) + 1)); [|lia].
    assert (10 ^ Z.of_nat (S d) = 10 * 10 ^ Z.of_nat d) as Hp.
    { rewrite Nat2Z.inj_succ, Z.pow_succ_r by lia. done. }
    assert (10 ^ (Z.of_nat (S d) + 1) = 10 * 10 ^ (Z.of_nat d + 1)) as Hp'.
    { rewrite <- Z.pow_succ_r by lia. f_equal. lia. }
    rewrite Hp in Hlo. rewrite Hp' in Hn. specialize (Hlo ltac:(lia)).
    pose proof (Z.div_mod n 10 ltac:(lia)) as Hdm. pose proof (Z.mod_pos_bound n 10 ltac:(lia)) as Hm.
    assert (0 < 10 ^ Z.of_nat d) by (apply Z.pow_pos_nonneg; lia).
    destruct (Z.ltb_spec 0 (n / 10)); [|lia].
    replace (Z.of_nat (S d) + 1 - 1) with (Z.of_nat d + 1) by lia.
    rewrite IH; [|lia|lia|lia|lia|rewrite splice_length; change (zlen [n `mod` 10 + 48]) with 1; lia].
    f_equal. f_equal. f_equal. change (digits (S (S d)) n) with (digits (S d) (n / 10) ++ [48 + n `mod` 10]).
    replace (n `mod` 10 + 48) with (48 + n `mod` 10) by lia.
    pose proof (digits_length (S d) (n / 10)) as Hlen. set (ds := digits (S d) (n / 10)) in *.
    replace (buffer + (Z.of_nat d + 1)) with (buffer + zlen ds) by (unfold zlen; lia).
    unfold splice, zlen in *. set (x := 48 + n `mod` 10).
    replace (Z.to_nat (buffer + Z.of_nat (length ds))) with (Z.to_nat buffer + length ds)%nat by lia.
    rewrite take_app_le by (rewrite length_take; lia). rewrite take_take.
    replace (Z.to_nat buffer `min` (Z.to_nat buffer + length ds))%nat with (Z.to_nat buffer) by lia.
    f_equal. rewrite <- app_assoc. f_equal. rewrite length_app. cbn [length].
    rewrite drop_app_ge by (rewrite length_take; lia). rewrite length_take.
    replace (Z.to_nat buffer + length ds - (Z.to_nat buffer + length ds) `min` length m)%nat with 0%nat by lia.
    rewrite drop_0. cbn. f_equal. f_equal. lia.
Qed.

(** The digits fill the announced length exactly. *)
Lemma uint64_to_str_spec n m buffer buffer_length :
  0 <= n < 2 ^ 64 -> 0 <= buffer -> zlen (dec n) <= buffer_length -> buffer + buffer_length <= zlen m ->
  uint64_to_str n (zlen (dec n)) m buffer buffer_length =
  Some (Some (splice m buffer (dec n), buffer + zlen (dec n))).
Proof.
  intros Hn Hb Hle Hfit. unfold uint64_to_str.
  destruct (ndigits_spec n Hn) as (H1 & H2 & H3).
  assert (zlen (dec n) = Z.of_nat (ndigits n)) as Hlen by (unfold zlen, dec; by rewrite digits_length).
  destruct (Z.eqb_spec (zlen (dec n)) 0); [lia|]. destruct (Z.ltb_spec buffer_length (zlen (dec n))); [lia|].
  cbn [orb]. assert (ndigits n <= 21)%nat as Hmax.
  { destruct (le_lt_dec (ndigits n) 21) as [|Hgt]; [done|]. exfalso.
    destruct (Z.eqb_spec n 0) as [->|Hnz]; [vm_compute in Hgt; lia|].
    specialize (H3 ltac:(lia)).
    pose proof (Z.pow_le_mono_r 10 21 (Z.of_nat (ndigits n) - 1) ltac:(lia) ltac:(lia)) as Hp.
    change (10 ^ 21) with 1000000000000000000000 in Hp. mach_lia. }
  destruct (ndigits n) as [|d] eqn:Hd; [lia|].
  replace (zlen (dec n)) with (Z.of_nat d + 1) by lia.
  rewrite (to_str_loop_spec d).
  - cbn [mbind option_bind]. cbn [Z.eqb Z.ltb andb]. unfold dec. rewrite Hd. done.
  - lia.
  - rewrite Nat2Z.inj_succ in H2. split; [lia|]. by replace (Z.of_nat d + 1) with (Z.succ (Z.of_nat d)) by lia.
  - intros Hpos. destruct (Z.eqb_spec n 0) as [->|Hnz].
    + vm_compute in Hd. injection Hd as <-. cbn in Hpos. lia.
    + replace (Z.of_nat d) with (Z.of_nat (S d) - 1) by lia. apply H3. lia.
  - done.
  - lia.
Qed.

Lemma zlen_dec n : zlen (dec n) = Z.of_nat (ndigits n).
Proof. unfold zlen, dec. by rewrite digits_length. Qed.

Lemma writes_number n : - 2 ^ 63 <= n < 2 ^ 63 -> writes (write_argument_number n) (dec_signed n).
Proof.
  intros Hn m buffer len Hb Hl Hfit. unfold write_argument_number, int64_str_length, dec_signed.
  destruct (Z.ltb_spec n 0) as [Hneg|Hpos].
  - assert (u64 (i64 (n * -1)) = - n) as Hu.
    { destruct (decide (n = - 2 ^ 63)) as [->|]; [reflexivity|].
      rewrite (swrap_small 64) by (pow2s; lia). rewrite wrap_small by mach_lia. lia. }
    rewrite Hu, uint64_str_length_spec by mach_lia. cbn [mbind option_bind].
    unfold enough_space_in_buffer. rewrite zlen_cons, zlen_dec.
    replace (Z.of_nat (ndigits (- n)) + 1) with (1 + Z.of_nat (ndigits (- n))) by lia.
    destruct (Z.ltb_spec (1 + Z.of_nat (ndigits (- n))) len); [|done]. cbn [negb].
    unfold int64_to_str. destruct (Z.eqb_spec (1 + Z.of_nat (ndigits (- n))) 0); [lia|].
    destruct (Z.ltb_spec len (1 + Z.of_nat (ndigits (- n)))); [lia|]. cbn [orb].
    destruct (Z.ltb_spec n 0); [|lia]. rewrite store_splice by lia. cbn [mbind option_bind].
    rewrite Hu. rewrite (wrap_small 64 (1 + _ - 1)), (wrap_small 64 (len - 1)) by mach_lia.
    replace (1 + Z.of_nat (ndigits (- n)) - 1) with (zlen (dec (- n))) by (rewrite zlen_dec; lia).
    rewrite uint64_to_str_spec;
      [|mach_lia|lia|rewrite zlen_dec; lia|rewrite splice_length; change (zlen [45]) with 1; lia].
    do 2 f_equal. f_equal; [|rewrite zlen_dec; lia].
    apply (splice_app m buffer [45] (dec (- n)) Hb). change (zlen [45]) with 1. rewrite zlen_dec. lia.
  - rewrite (wrap_small 64 n), uint64_str_length_spec by mach_lia. cbn [mbind option_bind].
    unfold enough_space_in_buffer. rewrite zlen_dec, Z.add_0_r.
    destruct (Z.ltb_spec (Z.of_nat (ndigits n)) len); [|done]. cbn [negb].
    unfold int64_to_str. destruct (ndigits_spec n ltac:(mach_lia)) as (Hd1 & _).
    destruct (Z.eqb_spec (Z.of_nat (ndigits n)) 0); [lia|].
    destruct (Z.ltb_spec len (Z.of_nat (ndigits n))); [lia|]. cbn [orb].
    destruct (Z.ltb_spec n 0); [lia|]. rewrite <- zlen_dec.
    apply uint64_to_str_spec; [mach_lia|lia|rewrite zlen_dec; lia|lia].
Qed.

Create HintDb writes discriminated.
#[export] Hint Resolve writes_type writes_boolean writes_eol writes_string writes_number : writes.

(** ** Replies *)

Inductive resp :=
  | RespNull
  | RespBoolean (b : bool)
  | RespBlobString (s : list Z)
  | RespBlobStringNull
  | RespBlobError (s : list Z)
  | RespSimpleString (s : list Z)
  | RespSimpleError (s : list Z)
  | RespNumber (n : Z)
  | RespBigNumber (s : list Z)
  | RespArray (count : Z)
  | RespMap (count : Z)
  | RespSet (count : Z)
  | RespAttribute (count : Z)
  | RespPush (count : Z).

Definition write_resp (r : resp) : writer :=
  match r with
  | RespNull => write_null
  | RespBoolean b => write_boolean b
  | RespBlobString s => write_blob_string s (zlen s)
  | RespBlobStringNull => write_blob_string_null
  | RespBlobError s => write_blob_error s (zlen s)
  | RespSimpleString s => write_simple_string s (zlen s)
  | RespSimpleError s => write_simple_error s (zlen s)
  | RespNumber n => write_number n
  | RespBigNumber s => write_big_number s (zlen s)
  | RespArray n => write_array n
  | RespMap n => write_map n
  | RespSet n => write_set n
  | RespAttribute n => write_attribute n
  | RespPush n => write_push n
  end.

Definition crlf : list Z := [13; 10].

(** The encoding the protocol prescribes. *)
Definition encode (r : resp) : list Z :=
  match r with
  | RespNull => bytes_of "_" ++ crlf
  | RespBoolean b => bytes_of "#" ++ bytes_of (if b then "t" else "f") ++ crlf
  | RespBlobString s => bytes_of "$" ++ dec (zlen s) ++ crlf ++ s ++ crlf
  | RespBlobStringNull => bytes_of "$-1" ++ crlf
  | RespBlobError s => bytes_of "!" ++ dec (zlen s) ++ crlf ++ s ++ crlf
  | RespSimpleString s => bytes_of "+" ++ s ++ crlf
  | RespSimpleError s => bytes_of "-" ++ s ++ crlf
  | RespNumber n => bytes_of ":" ++ dec_signed n ++ crlf
  | RespBigNumber s => bytes_of "(" ++ dec (zlen s) ++ crlf ++ s ++ crlf
  | RespArray n => bytes_of "*" ++ dec n ++ crlf
  | RespMap n => bytes_of "%" ++ dec n ++ crlf
  | RespSet n => bytes_of "~" ++ dec n ++ crlf
  | RespAttribute n => bytes_of "|" ++ dec n ++ crlf
  | RespPush n => bytes_of ">" ++ dec n ++ crlf
  end.

(** The ranges of the C parameters: [int] lengths, [long] numbers, [uint32_t]
    counts. *)
Definition resp_in_range (r : resp) : Prop :=
  match r with
  | RespNull | RespBoolean _ | RespBlobStringNull => True
  | RespBlobString s | RespBlobError s | RespSimpleString s | RespSimpleError s | RespBigNumber s =>
      zlen s < 2 ^ 31
  | RespNumber n => - 2 ^ 63 <= n < 2 ^ 63
  | RespArray n | RespMap n | RespSet n | RespAttribute n | RespPush n => in_u 32 n
  end.

Lemma writes_count n : in_u 63 n -> writes (write_argument_number n) (dec n).
Proof.
  intros Hn. assert (dec n = dec_signed n) as ->.
  { unfold dec_signed. destruct (Z.ltb_spec n 0); [mach_lia|done]. }
  apply writes_number. mach_lia.
Qed.

Lemma writes_blob e s :
  zlen s < 2 ^ 31 ->
  writes (write_argument_blob e s (zlen s))
    ([if e then TYPE_BLOB_ERROR else TYPE_BLOB_STRING] ++ dec (zlen s) ++ crlf ++ s ++ crlf).
Proof.
  intros Hs. pose proof (zlen_nonneg s). unfold write_argument_blob, write_argument_blob_start.
  destruct (Z.ltb_spec (-1) (zlen s)); [|lia].
  replace ([if e then TYPE_BLOB_ERROR else TYPE_BLOB_STRING] ++ dec (zlen s) ++ crlf ++ s ++ crlf)
    with (([if e then TYPE_BLOB_ERROR else TYPE_BLOB_STRING] ++ dec (zlen s) ++ crlf) ++ (s ++ crlf))
    by by rewrite <- !app_assoc.
  repeat apply writes_andthen; eauto with writes.
  - apply writes_count. mach_lia.
  - apply writes_string. mach_lia.
Qed.

Lemma writes_simple e s :
  zlen s < 2 ^ 31 ->
  writes (write_argument_simple e s (zlen s))
    ([if e then TYPE_SIMPLE_ERROR else TYPE_SIMPLE_STRING] ++ s ++ crlf).
Proof.
  intros Hs. apply writes_andthen; [destruct e; apply writes_type|].
  apply writes_andthen; [|apply writes_eol]. apply writes_string. mach_lia.
Qed.

(** A type byte, a count and an end of line. *)
Lemma writes_header t n :
  in_u 32 n ->
  writes (write_argument_type t >-> write_argument_number n >-> write_argument_eol) ([t] ++ dec n ++ crlf).
Proof.
  intros Hn. apply writes_andthen; [apply writes_type|].
  apply writes_andthen; [|apply writes_eol]. apply writes_count. mach_lia.
Qed.

Lemma writes_blob_null : writes write_blob_string_null (bytes_of "$-1" ++ crlf).
Proof.
  intros m buffer len Hb Hl Hfit.
  unfold write_blob_string_null, write_argument_blob, write_argument_blob_start.
  change (-1 <? -1) with false. cbv iota.
  assert (writes (write_argument_type TYPE_BLOB_STRING >-> write_argument_number (-1) >->
    write_argument_eol) (bytes_of "$-1" ++ crlf)) as Hw.
  { change (bytes_of "$-1" ++ crlf) with ([TYPE_BLOB_STRING] ++ dec_signed (-1) ++ crlf).
    repeat apply writes_andthen; eauto with writes. apply writes_number. mach_lia. }
  unfold andthen at 1. rewrite Hw by done. cbn [mbind option_bind].
  by destruct (_ <? len).
Qed.

Lemma write_resp_writes r : resp_in_range r -> writes (write_resp r) (encode r).
Proof.
  destruct r as [|b|s| |s|s|s|n|s|n|n|n|n|n]; cbn [write_resp encode resp_in_range]; intros Hr.
  - apply writes_andthen; eauto with writes.
  - apply writes_andthen; [apply (writes_type TYPE_BOOLEAN)|]. apply writes_andthen; [|apply writes_eol].
    destruct b; apply (writes_boolean).
  - apply (writes_blob false s Hr).
  - apply writes_blob_null.
  - apply (writes_blob true s Hr).
  - apply (writes_simple false s Hr).
  - apply (writes_simple true s Hr).
  - apply writes_andthen; [apply (writes_type TYPE_NUMBER)|]. apply writes_andthen; [|apply writes_eol].
    by apply writes_number.
  - pose proof (zlen_nonneg s). apply writes_andthen; [apply (writes_type TYPE_BIG_NUMBER)|].
    apply writes_andthen; [apply writes_count; mach_lia|]. apply writes_andthen; [apply writes_eol|].
    apply writes_andthen; [apply writes_string; mach_lia|apply writes_eol].
  - apply (writes_header TYPE_ARRAY n Hr).
  - apply (writes_header TYPE_MAP n Hr).
  - apply (writes_header TYPE_SET n Hr).
  - apply (writes_header TYPE_ATTRIBUTE n Hr).
  - apply (writes_header TYPE_PUSH n Hr).
Qed.

Lemma to_str_loop_underrun fuel m buffer n :
  10 <= n < 100 -> 1 <= buffer < zlen m ->
  to_str_loop (S (S fuel)) m buffer n 1 =
  Some (zset (zset m buffer (n `mod` 10 + 48)) (buffer - 1) (n / 10 + 48), n / 10, u64 (1 - 1 - 1)).
Proof.
  intros Hn Hb. assert (0 < n / 10 < 10) as Hd.
  { pose proof (Z.div_mod n 10 ltac:(lia)). pose proof (Z.mod_pos_bound n 10 ltac:(lia)). lia. }
  cbn [to_str_loop]. replace (buffer + (1 - 1)) with buffer by lia.
  replace (buffer + (1 - 1 - 1)) with (buffer - 1) by lia.
  rewrite store_ok by lia. cbn [mbind option_bind]. change (0 <? 1) with true. cbv iota.
  destruct (Z.ltb_spec 0 (n / 10)); [|lia].
  rewrite store_ok by (rewrite zlen_zset; lia). cbn [mbind option_bind].
  rewrite (Z.mod_small (n / 10)) by lia. done.
Qed.

(** ** Properties *)



(** The table-driven digit count is the number of decimal digits of every
    64-bit number, the powers of ten included. *)
Theorem uint64_str_length_correct (n : Z) :
  in_u 64 n -> uint64_str_length n = Some (zlen (dec n)).
Proof. intros Hn. rewrite zlen_dec. by apply uint64_str_length_spec. Qed.

Lemma uint64_str_length_correct_witness : uint64_str_length 1000 = Some (zlen (dec 1000)).
Proof. apply (uint64_str_length_correct 1000). split; vm_compute; congruence. Defined.

(** Called with a length one digit too short, [uint64_to_str] does not
    return NULL as its final check intends: it stores the leading digit in the
    byte before the buffer and reports success. *)
Theorem uint64_to_str_short_length_underruns (n buffer buffer_length : Z) (m : mem) :
  10 <= n < 100 -> 1 <= buffer -> 1 <= buffer_length -> buffer + buffer_length <= zlen m ->
  uint64_to_str n 1 m buffer buffer_length =
  Some (Some (zset (zset m buffer (n `mod` 10 + 48)) (buffer - 1) (n / 10 + 48), buffer + 1)).
Proof.
  intros Hn Hb Hl Hfit. unfold uint64_to_str. destruct (Z.ltb_spec buffer_length 1); [lia|].
  cbn [Z.eqb orb]. rewrite (to_str_loop_underrun 19) by lia. cbn [mbind option_bind].
  by change (u64 (1 - 1 - 1) =? 0) with false.
Qed.

Lemma uint64_to_str_short_length_underruns_witness :
  uint64_to_str 42 1 [0; 0; 0] 1 2 = Some (Some ([52; 50; 0], 2)).
Proof.
  apply (uint64_to_str_short_length_underruns 42 1 2 [0; 0; 0]); vm_compute; intuition congruence.
Defined.

End RedisWriter.
