(* ===== verification/RedisReader.v ===== *)
(** * RedisReader: the incremental RESP parser of commands

    protocol/redis/protocol_redis_reader.c and .h.  One call parses at most one
    step of each kind (command header, argument header, argument data, argument
    end) from the bytes received so far and reports what it found as a list of
    operations; the caller advances its buffer by their [data_read_len] and
    calls again.  A read outside of the buffer is [None]. *)

From Stdlib Require Import Ascii String.
From S2P Require Import Prelude Decimal RedisWriter.

Module RedisReader.
Import Decimal RedisWriter.

(** ** Data *)

Inductive reader_error :=
  | ERROR_OK
  | ERROR_NO_DATA
  | ERROR_INLINE_PROTOCOL_NOT_SUPPORTED
  | ERROR_ARGS_ARRAY_INVALID_LENGTH
  | ERROR_ARGS_INLINE_UNBALANCED_QUOTES
  | ERROR_COMMAND_ALREADY_PARSED
  | ERROR_ARGS_BLOB_STRING_EXPECTED
  | ERROR_ARGS_BLOB_STRING_INVALID_LENGTH
  | ERROR_ARGS_BLOB_STRING_MISSING_END_SIGNATURE.

Inductive reader_state :=
  | STATE_BEGIN
  | STATE_INLINE_WAITING_ARGUMENT
  | STATE_RESP_WAITING_ARGUMENT_LENGTH
  | STATE_RESP_WAITING_ARGUMENT_DATA
  | STATE_RESP_WAITING_ARGUMENT_DATA_END
  | STATE_COMMAND_PARSED.

#[export] Instance reader_error_eq_dec : EqDecision reader_error.
Proof. solve_decision. Defined.
#[export] Instance reader_state_eq_dec : EqDecision reader_state.
Proof. solve_decision. Defined.

(** The fields each kind of operation sets; all start with [data_read_len]. *)
Inductive reader_op :=
  | OP_COMMAND_BEGIN (data_read_len arguments_count : Z)
  | OP_COMMAND_END (data_read_len arguments_count : Z)
  | OP_ARGUMENT_BEGIN (data_read_len index length : Z)
  | OP_ARGUMENT_DATA (data_read_len index length offset data_length : Z)
  | OP_ARGUMENT_END (data_read_len index length offset : Z).

Definition op_data_read_len (o : reader_op) : Z :=
  match o with
  | OP_COMMAND_BEGIN l _ | OP_COMMAND_END l _ | OP_ARGUMENT_BEGIN l _ _
  | OP_ARGUMENT_DATA l _ _ _ _ | OP_ARGUMENT_END l _ _ _ => l
  end.

Inductive protocol_type := PROTOCOL_TYPE_INLINE | PROTOCOL_TYPE_RESP.

Record reader_context := Ctx {
  state : reader_state;
  protocol : protocol_type;
  error : reader_error;
  count : Z;
  current_index : Z;
  current_beginning : bool;
  current_length : Z;
  current_received_length : Z
}.

Definition reader_context_reset : reader_context :=
  Ctx STATE_BEGIN PROTOCOL_TYPE_INLINE ERROR_OK 0 0 false 0 0.

Definition set_error (c : reader_context) (e : reader_error) : reader_context :=
  Ctx (state c) (protocol c) e (count c) (current_index c) (current_beginning c) (current_length c)
    (current_received_length c).
Definition set_state (c : reader_context) (s : reader_state) : reader_context :=
  Ctx s (protocol c) (error c) (count c) (current_index c) (current_beginning c) (current_length c)
    (current_received_length c).

(** The locals of a call: what is left of the buffer ([length] is its length),
    [read_offset] and the operations found. *)
Record locals := Locals {
  ctx : reader_context;
  buffer : list Z;
  read_offset : Z;
  ops : list reader_op
}.

Inductive outcome :=
  | Continue (l : locals)
  | Return (l : locals)
  | Error (c : reader_context).

Definition NL : Z := 10.
Definition CR : Z := 13.

Fixpoint memchr (l : list Z) (c : Z) : option nat :=
  match l with
  | [] => None
  | x :: l => if x =? c then Some O else S <$> memchr l c
  end.

(** At least one character and a CR before the new line. *)
Definition line_ending_ok (buf : list Z) (new_line : Z) : bool :=
  negb ((new_line <? 2) || negb (bool_decide (zget buf (new_line - 1) = Some CR))).

(** [strtol] from the byte after the type; the number has to end where the CR
    is. *)
Definition line_number (buf : list Z) (new_line : Z) : option (option Z) :=
  '(v, end_offset) ← strtol (tail buf);
  Some (if new_line - 1 =? 1 + end_offset then Some v else None).

(** ** The stages of protocol_redis_reader_read *)

(** [state == BEGIN]: the header of the command. *)
Definition read_begin (l : locals) : option outcome :=
  let c := ctx l in
  first_byte ← head (buffer l);
  if negb (first_byte =? TYPE_ARRAY) then
    if (6 <=? zlen (buffer l)) && bool_decide (take 6 (buffer l) = bytes_of "PING" ++ [CR; NL]) then
      let c := Ctx STATE_COMMAND_PARSED (protocol c) (error c) 1 (current_index c) (current_beginning c)
                 (current_length c) (u64 (current_received_length c + 6)) in
      Some (Return (Locals c (drop 6 (buffer l)) (read_offset l + 6)
        (ops l ++ [OP_COMMAND_BEGIN 0 1; OP_ARGUMENT_BEGIN 0 0 4; OP_ARGUMENT_DATA 4 0 4 0 4;
                   OP_ARGUMENT_END 0 0 4 4; OP_COMMAND_END 2 1])))
    else Some (Error (set_error c ERROR_INLINE_PROTOCOL_NOT_SUPPORTED))
  else
  match memchr (buffer l) NL with
  | None => Some (Return l)
  | Some nl =>
      if negb (line_ending_ok (buffer l) (Z.of_nat nl))
      then Some (Error (set_error c ERROR_ARGS_ARRAY_INVALID_LENGTH)) else
      r ← line_number (buffer l) (Z.of_nat nl);
      match r with
      | None => Some (Error (set_error c ERROR_ARGS_ARRAY_INVALID_LENGTH))
      | Some args_count =>
          if args_count <=? 0 then Some (Error (set_error c ERROR_ARGS_ARRAY_INVALID_LENGTH)) else
          let move_offset := Z.of_nat nl + 1 in
          let c := Ctx STATE_RESP_WAITING_ARGUMENT_LENGTH PROTOCOL_TYPE_RESP (error c) (u32 args_count)
                     (-1) true 0 (current_received_length c) in
          Some (Continue (Locals c (drop (nl + 1) (buffer l)) (read_offset l + move_offset)
            (ops l ++ [OP_COMMAND_BEGIN move_offset (count c)])))
      end
  end.

(** [state == WAITING_ARGUMENT_LENGTH]: the header of an argument. *)
Definition read_argument_length (l : locals) : option outcome :=
  let c := ctx l in
  first_byte ← head (buffer l);
  if negb (first_byte =? TYPE_BLOB_STRING)
  then Some (Error (set_error c ERROR_ARGS_BLOB_STRING_EXPECTED)) else
  match memchr (buffer l) NL with
  | None => Some (Return l)
  | Some nl =>
      if negb (line_ending_ok (buffer l) (Z.of_nat nl))
      then Some (Error (set_error c ERROR_ARGS_ARRAY_INVALID_LENGTH)) else
      r ← line_number (buffer l) (Z.of_nat nl);
      match r with
      | None => Some (Error (set_error c ERROR_ARGS_BLOB_STRING_INVALID_LENGTH))
      | Some data_length =>
          if data_length <? 0 then Some (Error (set_error c ERROR_ARGS_BLOB_STRING_INVALID_LENGTH)) else
          let move_offset := Z.of_nat nl + 1 in
          let c := Ctx STATE_RESP_WAITING_ARGUMENT_DATA (protocol c) (error c) (count c)
                     (current_index c + 1) (current_beginning c) data_length 0 in
          Some (Continue (Locals c (drop (nl + 1) (buffer l)) (read_offset l + move_offset)
            (ops l ++ [OP_ARGUMENT_BEGIN move_offset (u32 (current_index c)) data_length])))
      end
  end.

(** [state == WAITING_ARGUMENT_DATA]: as much of the argument as there is. *)
Definition read_argument_data (l : locals) : outcome :=
  let c := ctx l in
  let argument_waiting_data_length := u64 (current_length c - current_received_length c) in
  let end_found := negb (zlen (buffer l) <? argument_waiting_data_length) in
  let data_length := if end_found then argument_waiting_data_length else zlen (buffer l) in
  let c := Ctx (if end_found then STATE_RESP_WAITING_ARGUMENT_DATA_END else state c) (protocol c) (error c)
             (count c) (current_index c) (current_beginning c) (current_length c)
             (u64 (current_received_length c + data_length)) in
  let read_offset := read_offset l + data_length in
  Continue (Locals c (drop (Z.to_nat data_length) (buffer l)) read_offset
    (ops l ++ [OP_ARGUMENT_DATA data_length (u32 (current_index c)) (current_length c)
                 (read_offset - data_length) data_length])).

(** [state == WAITING_ARGUMENT_DATA_END]: the CR LF after the data. *)
Definition read_argument_end (l : locals) : outcome :=
  let c := ctx l in
  match buffer l with
  | b0 :: b1 :: rest =>
      if negb (b0 =? CR) || negb (b1 =? NL)
      then Error (set_error c ERROR_ARGS_BLOB_STRING_MISSING_END_SIGNATURE) else
      let read_offset := read_offset l + 2 in
      let last := current_index c =? u32 (count c - 1) in
      let c := Ctx (if last then STATE_COMMAND_PARSED else STATE_RESP_WAITING_ARGUMENT_LENGTH)
                 (protocol c) (error c) (count c) (current_index c) (current_beginning c)
                 (current_length c) (u64 (current_received_length c + 2)) in
      Continue (Locals c rest read_offset
        (ops l ++ [OP_ARGUMENT_END 2 (u32 (current_index c)) (current_length c) (read_offset - 2)]
               ++ (if last then [OP_COMMAND_END 0 (count c)] else [])))
  | _ => Continue l
  end.

(** Runs a stage when the parser is in its state (and there are bytes left). *)
Definition stage_if (s : reader_state) (f : locals -> option outcome) (o : outcome) : option outcome :=
  match o with
  | Continue l =>
      if bool_decide (buffer l <> []) && bool_decide (state (ctx l) = s) then f l else Some (Continue l)
  | _ => Some o
  end.

(** The context after the call and the operations, or [None] for the -1 of an
    error.  The first test of the code is on an empty buffer, so the BEGIN
    stage is entered with bytes as well. *)
Definition reader_read (buf : list Z) (c : reader_context)
    : option (reader_context * option (list reader_op)) :=
  if bool_decide (error c <> ERROR_OK) then Some (c, None) else
  if bool_decide (buf = []) then Some (set_error c ERROR_NO_DATA, None) else
  if bool_decide (state c = STATE_COMMAND_PARSED)
  then Some (set_error c ERROR_COMMAND_ALREADY_PARSED, None) else
  o ← stage_if STATE_BEGIN read_begin (Continue (Locals c buf 0 []));
  o ← stage_if STATE_RESP_WAITING_ARGUMENT_LENGTH read_argument_length o;
  o ← stage_if STATE_RESP_WAITING_ARGUMENT_DATA (fun l => Some (read_argument_data l)) o;
  o ← stage_if STATE_RESP_WAITING_ARGUMENT_DATA_END (fun l => Some (read_argument_end l)) o;
  Some (match o with
        | Continue l | Return l => (ctx l, Some (ops l))
        | Error c => (c, None)
        end).

(** ** A consumer of the operations *)

(** The bytes a call consumed. *)
Definition consumed (os : list reader_op) : Z := foldr (fun o n => op_data_read_len o + n) 0 os.

(** Arguments completed so far and bytes of the current one. *)
Definition collected : Type := list (list Z) * list Z.

Definition slice (buf : list Z) (offset len : Z) : list Z :=
  take (Z.to_nat len) (drop (Z.to_nat offset) buf).

Definition apply_op (buf : list Z) (acc : collected) (o : reader_op) : collected :=
  match o with
  | OP_COMMAND_BEGIN _ _ | OP_COMMAND_END _ _ => acc
  | OP_ARGUMENT_BEGIN _ _ _ => (acc.1, [])
  | OP_ARGUMENT_DATA _ _ _ offset data_length => (acc.1, acc.2 ++ slice buf offset data_length)
  | OP_ARGUMENT_END _ _ _ _ => (acc.1 ++ [acc.2], [])
  end.

Definition apply_ops (buf : list Z) (acc : collected) (os : list reader_op) : collected :=
  foldl (apply_op buf) acc os.

(** Calls the reader on the bytes received as long as it makes progress and
    the command is not complete. *)
Fixpoint drain (fuel : nat) (c : reader_context) (pending : list Z) (acc : collected)
    : option (reader_context * list Z * collected) :=
  if bool_decide (pending = []) || bool_decide (state c = STATE_COMMAND_PARSED)
  then Some (c, pending, acc) else
  match fuel with
  | O => None
  | S fuel =>
      '(c, r) ← reader_read pending c;
      os ← r;
      if bool_decide (os = []) then Some (c, pending, acc) else
      drain fuel c (drop (Z.to_nat (consumed os)) pending) (apply_ops pending acc os)
  end.

(** Every productive call consumes a byte or ends the data of an argument. *)
Definition drain_fuel (pending : list Z) : nat := 2 * length pending + 2.

Fixpoint feed (c : reader_context) (pending : list Z) (acc : collected) (chunks : list (list Z))
    : option (reader_context * list Z * collected) :=
  match chunks with
  | [] => Some (c, pending, acc)
  | chunk :: chunks =>
      let pending := pending ++ chunk in
      '(c, pending, acc) ← drain (drain_fuel pending) c pending acc;
      feed c pending acc chunks
  end.

Definition encode_argument (a : list Z) : list Z := encode (RespBlobString a).
Definition encode_arguments (args : list (list Z)) : list Z := concat (encode_argument <$> args).

(** A command as a client sends it: an array of blob strings. *)
Definition encode_command (args : list (list Z)) : list Z :=
  encode (RespArray (zlen args)) ++ encode_arguments args.

(** ** Reading the lines *)

Lemma memchr_line c h : forall buf fut R,
  Forall (fun x => x <> c) h -> buf ++ fut = h ++ c :: R ->
  match memchr buf c with
  | Some nl => nl = length h /\ exists b', buf = h ++ c :: b' /\ b' ++ fut = R
  | None => fut <> []
  end.
Proof.
  induction h as [|x h IH]; intros buf fut R Hh Heq.
  - destruct buf as [|y buf]; cbn in *.
    + by intros ->.
    + injection Heq as -> Heq. rewrite Z.eqb_refl. split; [done|]. by exists buf.
  - apply Forall_cons in Hh as [Hx Hh]. destruct buf as [|y buf]; cbn [memchr].
    + cbn in Heq. by intros ->.
    + injection Heq as -> Heq. rewrite (proj2 (Z.eqb_neq x c) Hx).
      specialize (IH buf fut R Hh Heq). destruct (memchr buf c) as [nl|]; [|done]. cbn.
      destruct IH as (-> & b' & -> & ?). split; [done|]. by exists b'.
Qed.

Lemma dec_no_newline n : Forall (fun x => x <> NL) (dec n).
Proof.
  pose proof (dec_digits n) as H. eapply Forall_impl; [exact H|]. intros x Hx. cbn in Hx.
  unfold is_digit, NL in *. lia.
Qed.

(** The header line [t n CR LF]. *)
Lemma header_line t n buf fut R :
  0 <= n < 2 ^ 63 -> t <> NL -> buf ++ fut = t :: dec n ++ crlf ++ R ->
  match memchr buf NL with
  | Some nl => line_ending_ok buf (Z.of_nat nl) = true /\ line_number buf (Z.of_nat nl) = Some (Some n) /\
      drop (nl + 1) buf ++ fut = R /\ (nl + 1 <= length buf)%nat
  | None => fut <> []
  end.
Proof.
  intros Hn Ht Heq.
  pose proof (memchr_line NL (t :: dec n ++ [CR]) buf fut R) as H.
  specialize (H ltac:(constructor; [done|]; apply Forall_app; split;
    [apply dec_no_newline|by constructor; [|constructor]])).
  specialize (H ltac:(rewrite Heq; cbn; by rewrite <- app_assoc)).
  destruct (memchr buf NL) as [nl|]; [|done]. destruct H as (-> & b' & -> & Hb').
  pose proof (dec_length_pos n ltac:(mach_lia)) as Hlen. unfold zlen in Hlen.
  cbn [length]. rewrite !length_app. cbn [length].
  split_and!.
  - unfold line_ending_ok. destruct (Z.ltb_spec (Z.of_nat (S (length (dec n) + 1))) 2); [lia|].
    rewrite bool_decide_eq_true_2; [done|]. unfold zget.
    destruct (Z.ltb_spec (Z.of_nat (S (length (dec n) + 1)) - 1) 0); [lia|].
    replace (Z.to_nat (Z.of_nat (S (length (dec n) + 1)) - 1)) with (S (length (dec n))) by lia.
    replace ((t :: dec n ++ [CR]) ++ NL :: b') with ((t :: dec n) ++ CR :: NL :: b')
      by (cbn; by rewrite <- app_assoc).
    by apply list_lookup_middle.
  - unfold line_number. cbn [tail app]. rewrite <- app_assoc. cbn [app].
    rewrite strtol_dec by done. cbn [mbind option_bind]. unfold zlen.
    destruct (Z.eqb_spec (Z.of_nat (S (length (dec n) + 1)) - 1) (1 + Z.of_nat (length (dec n)))); [done|lia].
  - replace (S (length (dec n) + 1) + 1)%nat with (length (t :: dec n ++ [CR]) + 1)%nat
      by (cbn [length]; rewrite length_app; cbn; lia).
    rewrite drop_app_add. done.
  - cbn [app length]. rewrite !length_app. cbn [length]. lia.
Qed.

(** ** Where the parser is in a command *)

Section parsing.
Context (args : list (list Z)).

Definition rest (i : nat) : list Z := encode_arguments (drop i args).

(** [R] is what is still to come of the encoding when the parser is in [c] and
    has collected [acc]. *)
Definition at_pos (c : reader_context) (acc : collected) (R : list Z) : Prop :=
  error c = ERROR_OK /\
  match state c with
  | STATE_BEGIN => R = encode_command args /\ acc = ([], [])
  | STATE_RESP_WAITING_ARGUMENT_LENGTH => exists i, (i < length args)%nat /\ count c = zlen args /\
      current_index c = Z.of_nat i - 1 /\ acc = (take i args, []) /\ R = rest i
  | STATE_RESP_WAITING_ARGUMENT_DATA => exists i pre post, args !! i = Some (pre ++ post) /\
      count c = zlen args /\ current_index c = Z.of_nat i /\ current_length c = zlen (pre ++ post) /\
      current_received_length c = zlen pre /\ acc = (take i args, pre) /\
      R = post ++ crlf ++ rest (S i)
  | STATE_RESP_WAITING_ARGUMENT_DATA_END => exists i a, args !! i = Some a /\ count c = zlen args /\
      current_index c = Z.of_nat i /\ acc = (take i args, a) /\ R = crlf ++ rest (S i)
  | STATE_COMMAND_PARSED => acc = (args, []) /\ R = []
  | STATE_INLINE_WAITING_ARGUMENT => False
  end.

Context (Hcount : 0 < zlen args < 2 ^ 32) (Hargs : Forall (fun a => zlen a < 2 ^ 31) args).

(** The locals of a call on [buf], started with [acc0] collected, while [fut]
    is what will be received later. *)
Record locals_ok (buf fut : list Z) (acc0 : collected) (l : locals) : Prop := {
  lo_pos : at_pos (ctx l) (apply_ops buf acc0 (ops l)) (buffer l ++ fut);
  lo_buffer : buffer l = drop (Z.to_nat (read_offset l)) buf;
  lo_offset : 0 <= read_offset l <= zlen buf;
  lo_consumed : consumed (ops l) = read_offset l
}.

Lemma apply_ops_snoc buf acc os os' :
  apply_ops buf acc (os ++ os') = apply_ops buf (apply_ops buf acc os) os'.
Proof. unfold apply_ops. apply foldl_app. Qed.

Lemma consumed_snoc os os' : consumed (os ++ os') = consumed os + consumed os'.
Proof. unfold consumed. induction os as [|o os IH]; cbn in *; [done|]. rewrite IH. lia. Qed.

Lemma arg_bound i a : args !! i = Some a -> zlen a < 2 ^ 31.
Proof using Hargs. intros H. rewrite Forall_lookup in Hargs. by apply (Hargs i). Qed.

Lemma rest_split i a : args !! i = Some a ->
  rest i = TYPE_BLOB_STRING :: dec (zlen a) ++ crlf ++ a ++ crlf ++ rest (S i).
Proof.
  intros Hi. unfold rest, encode_arguments. rewrite (drop_S _ _ _ Hi). cbn [fmap list_fmap concat].
  unfold encode_argument at 1. cbn [encode]. by rewrite <- !app_assoc.
Qed.

(** What a stage has to do: go on in a good state with more operations, or
    wait for bytes that are still to come. *)
Definition measure (c : reader_context) (b : list Z) : Z :=
  2 * zlen b + (if bool_decide (state c = STATE_RESP_WAITING_ARGUMENT_DATA_END) then 0 else 1).

Lemma measure_bounds c b : 2 * zlen b <= measure c b <= 2 * zlen b + 1.
Proof. unfold measure. case_bool_decide; lia. Qed.

Definition stage_ok (buf fut : list Z) (acc0 : collected) (l : locals) (o : outcome) : Prop :=
  match o with
  | Continue l' => locals_ok buf fut acc0 l' /\ ops l' <> [] /\
      measure (ctx l') (buffer l') < measure (ctx l) (buffer l)
  | Return l' => l' = l /\ fut <> []
  | Error _ => False
  end.

(** Consuming bytes makes progress whatever the states are. *)
Lemma measure_drop c c' b n :
  (0 < n <= length b)%nat -> measure c' (drop n b) < measure c b.
Proof.
  intros Hn. pose proof (measure_bounds c b). pose proof (measure_bounds c' (drop n b)).
  unfold zlen in *. rewrite length_drop in *. lia.
Qed.

Lemma snoc_not_nil {A} (l : list A) x l' : l ++ x :: l' <> [].
Proof. by destruct l. Qed.

Lemma read_begin_ok buf fut acc0 l :
  locals_ok buf fut acc0 l -> state (ctx l) = STATE_BEGIN -> buffer l <> [] ->
  exists o, read_begin l = Some o /\ stage_ok buf fut acc0 l o.
Proof using Hcount.
  intros [Hpos Hbuf Hoff Hcons] Hst Hne. unfold at_pos in Hpos. rewrite Hst in Hpos.
  destruct Hpos as (Herr & HR & Hacc).
  assert (buffer l ++ fut = TYPE_ARRAY :: dec (zlen args) ++ crlf ++ encode_arguments args) as Heq.
  { rewrite HR. unfold encode_command. cbn [encode]. by rewrite <- !app_assoc. }
  unfold read_begin. destruct (buffer l) as [|b0 bt] eqn:Hb; [done|]. cbn [head mbind option_bind].
  assert (b0 = TYPE_ARRAY) as -> by by injection Heq. rewrite Z.eqb_refl. cbn [negb].
  pose proof (header_line TYPE_ARRAY (zlen args) _ fut _ ltac:(mach_lia) ltac:(done) Heq) as Hline.
  destruct (memchr (TYPE_ARRAY :: bt) NL) as [nl|].
  2: { eexists. split; [done|]. by split. }
  destruct Hline as (-> & -> & Hdrop & Hnl). cbn [negb mbind option_bind].
  destruct (Z.leb_spec (zlen args) 0); [lia|]. eexists. split; [done|].
  split; [|split; [apply snoc_not_nil|cbn [ctx buffer]; rewrite Hb; apply measure_drop; lia]].
  rewrite (wrap_small 32) by mach_lia. rewrite <- Hb in *.
  assert (Z.of_nat (length (buffer l)) = zlen buf - read_offset l) as Hlen.
  { rewrite Hbuf, length_drop. unfold zlen in *. lia. }
  split; cbn [ctx ops buffer read_offset].
  - rewrite apply_ops_snoc, Hacc. cbn [apply_ops foldl apply_op]. split; [done|]. cbn [state].
    exists O. split; [unfold zlen in *; lia|]. do 3 (split; [done|]). exact Hdrop.
  - rewrite Hbuf, drop_drop. f_equal. lia.
  - lia.
  - rewrite consumed_snoc, Hcons. cbn [consumed foldr op_data_read_len]. lia.
Qed.

Lemma read_argument_length_ok buf fut acc0 l :
  locals_ok buf fut acc0 l -> state (ctx l) = STATE_RESP_WAITING_ARGUMENT_LENGTH -> buffer l <> [] ->
  exists o, read_argument_length l = Some o /\ stage_ok buf fut acc0 l o.
Proof using Hcount Hargs.
  intros [Hpos Hbuf Hoff Hcons] Hst Hne. unfold at_pos in Hpos. rewrite Hst in Hpos.
  destruct Hpos as (Herr & i & Hi & Hcnt & Hidx & Hacc & HR).
  destruct (lookup_lt_is_Some_2 args i Hi) as [a Ha]. rewrite (rest_split i a Ha) in HR.
  pose proof (arg_bound i a Ha) as Hab. pose proof (zlen_nonneg a).
  unfold read_argument_length. destruct (buffer l) as [|b0 bt] eqn:Hb; [done|]. cbn [head mbind option_bind].
  assert (b0 = TYPE_BLOB_STRING) as -> by by injection HR. rewrite Z.eqb_refl. cbn [negb].
  pose proof (header_line TYPE_BLOB_STRING (zlen a) _ fut _ ltac:(mach_lia) ltac:(done) HR) as Hline.
  destruct (memchr (TYPE_BLOB_STRING :: bt) NL) as [nl|].
  2: { eexists. split; [done|]. by split. }
  destruct Hline as (-> & -> & Hdrop & Hnl). cbn [negb mbind option_bind].
  destruct (Z.ltb_spec (zlen a) 0); [lia|]. eexists. split; [done|].
  split; [|split; [apply snoc_not_nil|cbn [ctx buffer]; rewrite Hb; apply measure_drop; lia]]. rewrite <- Hb in *.
  assert (Z.of_nat (length (buffer l)) = zlen buf - read_offset l) as Hlen.
  { rewrite Hbuf, length_drop. unfold zlen in *. lia. }
  split; cbn [ctx ops buffer read_offset].
  - rewrite apply_ops_snoc, Hacc. cbn [apply_ops foldl apply_op]. split; [done|]. cbn [state].
    exists i, [], a. split_and!; try done. cbn. lia.
  - rewrite Hbuf, drop_drop. f_equal. lia.
  - lia.
  - rewrite consumed_snoc, Hcons. cbn [consumed foldr op_data_read_len]. lia.
Qed.

Lemma read_argument_data_ok buf fut acc0 l :
  locals_ok buf fut acc0 l -> state (ctx l) = STATE_RESP_WAITING_ARGUMENT_DATA -> buffer l <> [] ->
  stage_ok buf fut acc0 l (read_argument_data l).
Proof using Hargs.
  intros [Hpos Hbuf Hoff Hcons] Hst Hne. unfold at_pos in Hpos. rewrite Hst in Hpos.
  destruct Hpos as (Herr & i & pre & post & Ha & Hcnt & Hidx & Hcl & Hrl & Hacc & HR).
  pose proof (arg_bound i _ Ha) as Hab. rewrite zlen_app in Hab.
  pose proof (zlen_nonneg pre). pose proof (zlen_nonneg post).
  assert (zlen (buffer l) = zlen buf - read_offset l) as Hlen.
  { rewrite Hbuf. unfold zlen in *. rewrite length_drop. lia. }
  unfold read_argument_data. rewrite Hcl, Hrl, zlen_app.
  replace (zlen pre + zlen post - zlen pre) with (zlen post) by lia.
  rewrite (wrap_small 64 (zlen post)) by mach_lia.
  (* the bytes of the argument in this buffer, and the rest of it *)
  set (n := if negb (zlen (buffer l) <? zlen post) then zlen post else zlen (buffer l)).
  assert (0 <= n <= zlen post /\ n <= zlen (buffer l)) as Hn.
  { unfold n. pose proof (zlen_nonneg (buffer l)). destruct (Z.ltb_spec (zlen (buffer l)) (zlen post)); cbn; lia. }
  rewrite (wrap_small 64 (zlen pre + n)) by mach_lia.
  assert (take (Z.to_nat n) (buffer l) = take (Z.to_nat n) post /\
          drop (Z.to_nat n) (buffer l) ++ fut = drop (Z.to_nat n) post ++ crlf ++ rest (S i)) as [Htake Hdrop].
  { unfold zlen in *. split.
    - rewrite <- (take_app_le (buffer l) fut) by lia. rewrite HR. rewrite take_app_le by lia. done.
    - rewrite <- drop_app_le by lia. rewrite HR. by rewrite drop_app_le by lia. }
  split; [|split; [apply snoc_not_nil|]].
  2: { cbn [ctx buffer]. destruct (decide (n = 0)) as [Hz|Hz].
    - assert ((zlen (buffer l) <? zlen post) = false) as Hend.
      { unfold n in Hz. destruct (Z.ltb_spec (zlen (buffer l)) (zlen post)) as [Hlt|]; [|done]. cbn in Hz.
        destruct (buffer l); [done|]. rewrite zlen_cons in Hz. pose proof (zlen_nonneg l0). lia. }
      rewrite Hz, Hend. cbn [negb Z.to_nat]. unfold measure. cbn [state].
      rewrite bool_decide_eq_true_2 by done. rewrite bool_decide_eq_false_2 by congruence.
      change (drop (Z.to_nat 0) (buffer l)) with (buffer l). lia.
    - apply measure_drop. unfold zlen in *. lia. }
  split; cbn [ctx ops buffer read_offset].
  - rewrite apply_ops_snoc, Hacc. cbn [apply_ops foldl apply_op fst snd].
    assert (slice buf (read_offset l + n - n) n = take (Z.to_nat n) post) as ->.
    { unfold slice. replace (read_offset l + n - n) with (read_offset l) by lia. by rewrite <- Hbuf. }
    rewrite Hdrop. split; [done|]. cbn [state].
    destruct (Z.ltb_spec (zlen (buffer l)) (zlen post)) as [Hlt|Hge]; cbn [negb].
    + rewrite Hst. exists i, (pre ++ take (Z.to_nat n) post), (drop (Z.to_nat n) post).
      rewrite <- app_assoc, take_drop. cbn [count current_index current_length current_received_length].
      split_and!; try done; [by rewrite zlen_app|].
      rewrite zlen_app. f_equal. unfold zlen in *. rewrite length_take. lia.
    + assert (n = zlen post) as Hnp by (unfold n; destruct (Z.ltb_spec (zlen (buffer l)) (zlen post)); [lia|done]).
      rewrite Hnp. unfold zlen. rewrite Nat2Z.id, firstn_all, skipn_all.
      exists i, (pre ++ post). by split_and!.
  - rewrite Hbuf, drop_drop. f_equal. lia.
  - lia.
  - rewrite consumed_snoc, Hcons. cbn [consumed foldr op_data_read_len]. lia.
Qed.

Lemma read_argument_end_ok buf fut acc0 l :
  locals_ok buf fut acc0 l -> state (ctx l) = STATE_RESP_WAITING_ARGUMENT_DATA_END -> buffer l <> [] ->
  (read_argument_end l = Continue l /\ fut <> []) \/ stage_ok buf fut acc0 l (read_argument_end l).
Proof using Hcount.
  intros [Hpos Hbuf Hoff Hcons] Hst Hne. unfold at_pos in Hpos. rewrite Hst in Hpos.
  destruct Hpos as (Herr & i & a & Ha & Hcnt & Hidx & Hacc & HR).
  unfold read_argument_end. destruct (buffer l) as [|b0 [|b1 bt]] eqn:Hb; [done| |].
  { left. split; [done|]. intros ->. cbn in HR. discriminate. }
  right. cbn [app] in HR. unfold crlf in HR. injection HR as -> -> HR. cbn [Z.eqb negb orb CR NL].
  change (13 =? CR) with true. change (10 =? NL) with true. cbn [negb orb].
  pose proof (lookup_lt_Some _ _ _ Ha) as Hi.
  assert (zlen buf - read_offset l = 2 + zlen bt) as Hlen.
  { assert (zlen (buffer l) = zlen buf - read_offset l) as <-.
    { rewrite Hb, Hbuf. unfold zlen in *. rewrite length_drop. lia. }
    rewrite Hb, !zlen_cons. lia. }
  pose proof (zlen_nonneg bt).
  rewrite Hidx, Hcnt, (wrap_small 32 (zlen args - 1)) by mach_lia.
  assert (forall new, consumed new = 2 -> apply_ops buf (apply_ops buf acc0 (ops l)) new = (take (S i) args, []) ->
    new <> [] -> forall st, 
    match st with
    | STATE_RESP_WAITING_ARGUMENT_LENGTH => (S i < length args)%nat
    | STATE_COMMAND_PARSED => S i = length args
    | _ => False
    end ->
    stage_ok buf fut acc0 l (Continue (Locals
      (Ctx st (protocol (ctx l)) (error (ctx l)) (zlen args) (Z.of_nat i) (current_beginning (ctx l))
         (current_length (ctx l)) (u64 (current_received_length (ctx l) + 2))) bt (read_offset l + 2)
      (ops l ++ new)))) as Hgoal.
  { intros new Hc Happ Hnew st Hstate. split; [|split; [by destruct (ops l), new|]].
    2: { cbn [ctx buffer]. rewrite Hb. apply (measure_drop _ _ (CR :: NL :: bt) 2). cbn; lia. }
    split; cbn [ctx ops buffer read_offset].
    - rewrite apply_ops_snoc, Happ, HR. split; [done|]. cbn [state].
      destruct st; try done.
      + exists (S i). split_and!; try done. cbn. lia.
      + rewrite Hstate, firstn_all. split; [done|]. unfold rest. by rewrite drop_all.
    - replace (Z.to_nat (read_offset l + 2)) with (Z.to_nat (read_offset l) + 2)%nat by lia.
      rewrite <- drop_drop, <- Hbuf. done.
    - lia.
    - rewrite consumed_snoc, Hcons, Hc. lia. }
  rewrite Hacc in Hgoal. unfold zlen in Hgoal |- *.
  destruct (Z.eqb_spec (Z.of_nat i) (Z.of_nat (length args) - 1)) as [Hlast|Hlast];
    (apply Hgoal; [done| |done|lia]); cbn [apply_ops foldl app apply_op fst snd];
    by rewrite (take_S_r _ _ _ Ha).
Qed.

(** ** One call *)

(** Nothing done, or something found. *)
Definition same_or_progress (l0 l : locals) : Prop :=
  l = l0 \/ (ops l <> [] /\ measure (ctx l) (buffer l) < measure (ctx l0) (buffer l0)).

(** The outcome after the stages of the states in [tried]: nothing is done only
    when the stage of the current state waits for bytes to come. *)
Definition good (buf fut : list Z) (acc0 : collected) (l0 : locals) (tried : list reader_state)
    (o : outcome) : Prop :=
  match o with
  | Continue l => locals_ok buf fut acc0 l /\ same_or_progress l0 l /\
      (l = l0 -> state (ctx l0) ∈ tried -> fut <> [])
  | Return l => locals_ok buf fut acc0 l /\ same_or_progress l0 l /\ fut <> []
  | Error _ => False
  end.

Lemma stage_if_good buf fut acc0 l0 tried s f o :
  ops l0 = [] -> buffer l0 <> [] ->
  (forall l, locals_ok buf fut acc0 l -> state (ctx l) = s -> buffer l <> [] ->
     exists o', f l = Some o' /\ ((o' = Continue l /\ fut <> []) \/ stage_ok buf fut acc0 l o')) ->
  good buf fut acc0 l0 tried o ->
  exists o', stage_if s f o = Some o' /\ good buf fut acc0 l0 (s :: tried) o'.
Proof.
  intros Hops0 Hbuf0 Hf Hg. destruct o as [l|l|c]; cbn [stage_if]; [|by exists (Return l)|done].
  destruct Hg as (Hok & Hor & Ht).
  destruct (bool_decide (buffer l <> []) && bool_decide (state (ctx l) = s)) eqn:Hc.
  - apply andb_true_iff in Hc as [Hb%bool_decide_eq_true Hs%bool_decide_eq_true].
    destruct (Hf l Hok Hs Hb) as (o' & -> & Ho). exists o'. split; [done|].
    destruct Ho as [[-> Hfut]|Ho]; [by split|]. destruct o' as [l'|l'|c']; [| |done].
    + destruct Ho as (Hok' & Hne & Hm). split; [done|]. split.
      * right. split; [done|]. destruct Hor as [->|[_ ?]]; lia.
      * intros ->. by rewrite Hops0 in Hne.
    + destruct Ho as [-> Hfut]. by split.
  - exists (Continue l). split; [done|]. split; [done|]. split; [done|].
    intros -> [Hs|Hs]%elem_of_cons; [|by apply Ht].
    apply andb_false_iff in Hc as [Hb%bool_decide_eq_false|Hs'%bool_decide_eq_false]; [|done].
    by destruct Hb.
Qed.

Lemma reader_read_ok c acc buf fut :
  at_pos c acc (buf ++ fut) -> buf <> [] -> state c <> STATE_COMMAND_PARSED ->
  exists c' os, reader_read buf c = Some (c', Some os) /\
    at_pos c' (apply_ops buf acc os) (drop (Z.to_nat (consumed os)) buf ++ fut) /\
    (os = [] -> c' = c /\ fut <> []) /\
    (os <> [] -> measure c' (drop (Z.to_nat (consumed os)) buf) < measure c buf).
Proof using Hcount Hargs.
  intros Hpos Hne Hst. pose proof Hpos as [Herr Hpos']. unfold reader_read.
  rewrite bool_decide_eq_false_2 by (intros Hx; by apply Hx).
  rewrite bool_decide_eq_false_2 by done. rewrite bool_decide_eq_false_2 by done.
  set (l0 := Locals c buf 0 []).
  assert (locals_ok buf fut acc l0) as H0.
  { split; cbn; [done|done|pose proof (zlen_nonneg buf); lia|done]. }
  assert (good buf fut acc l0 [] (Continue l0)) as Hg.
  { split; [done|]. split; [by left|]. intros _ Hin. by apply elem_of_nil in Hin. }
  destruct (stage_if_good buf fut acc l0 [] STATE_BEGIN read_begin _ eq_refl Hne
    ltac:(intros l Hl Hs Hb; destruct (read_begin_ok buf fut acc l Hl Hs Hb) as (o & ? & ?); eauto) Hg)
    as (o1 & -> & Hg1). cbn [mbind option_bind].
  destruct (stage_if_good buf fut acc l0 _ STATE_RESP_WAITING_ARGUMENT_LENGTH read_argument_length _ eq_refl Hne
    ltac:(intros l Hl Hs Hb; destruct (read_argument_length_ok buf fut acc l Hl Hs Hb) as (o & ? & ?); eauto) Hg1)
    as (o2 & -> & Hg2). cbn [mbind option_bind].
  destruct (stage_if_good buf fut acc l0 _ STATE_RESP_WAITING_ARGUMENT_DATA
    (fun l => Some (read_argument_data l)) _ eq_refl Hne
    ltac:(intros l Hl Hs Hb; pose proof (read_argument_data_ok buf fut acc l Hl Hs Hb); eauto) Hg2)
    as (o3 & -> & Hg3). cbn [mbind option_bind].
  destruct (stage_if_good buf fut acc l0 _ STATE_RESP_WAITING_ARGUMENT_DATA_END
    (fun l => Some (read_argument_end l)) _ eq_refl Hne
    ltac:(intros l Hl Hs Hb; pose proof (read_argument_end_ok buf fut acc l Hl Hs Hb); eauto) Hg3)
    as (o4 & -> & Hg4). cbn [mbind option_bind].
  assert (exists l, (match o4 with Continue l | Return l => (ctx l, Some (ops l)) | Error c => (c, None) end) =
      (ctx l, Some (ops l)) /\ locals_ok buf fut acc l /\ same_or_progress l0 l /\ (l = l0 -> fut <> []))
    as (l & -> & [Hp Hbuf Hoff Hcons] & Hsp & Hfut).
  { destruct o4 as [l|l|c']; [| |done]; exists l; destruct Hg4 as (? & ? & Ht); split_and!; try done.
    intros Hl. apply (Ht Hl). cbn [ctx l0]. destruct (state c); try done; set_solver. }
  exists (ctx l), (ops l). split; [done|]. rewrite Hcons, <- Hbuf. split; [done|].
  destruct Hsp as [->|[Hops Hm]].
  - split; [|done]. intros _. split; [done|]. by apply Hfut.
  - split; [|done]. done.
Qed.

(** ** A whole command, received in any pieces *)

Lemma drain_ok fuel : forall c acc pending fut,
  at_pos c acc (pending ++ fut) -> measure c pending < Z.of_nat fuel ->
  exists c' pending' acc', drain fuel c pending acc = Some (c', pending', acc') /\
    at_pos c' acc' (pending' ++ fut) /\
    (fut = [] -> state c' = STATE_COMMAND_PARSED).
Proof using Hcount Hargs.
  induction fuel as [|fuel IH]; intros c acc pending fut Hpos Hm.
  { pose proof (measure_bounds c pending). pose proof (zlen_nonneg pending). lia. }
  cbn [drain].
  destruct (bool_decide (pending = []) || bool_decide (state c = STATE_COMMAND_PARSED)) eqn:Hstop.
  - exists c, pending, acc. split; [done|]. split; [done|]. intros ->.
    apply orb_true_iff in Hstop as [Hp%bool_decide_eq_true|Hs%bool_decide_eq_true]; [|done].
    subst. destruct Hpos as [_ Hpos]. cbn in Hpos. destruct (state c); try done.
    + destruct Hpos as [Hx _]. unfold encode_command in Hx. by cbn in Hx.
    + destruct Hpos as (i & Hi & _ & _ & _ & Hx). destruct (lookup_lt_is_Some_2 args i Hi) as [a Ha].
      by rewrite (rest_split i a Ha) in Hx.
    + destruct Hpos as (i & pre & post & _ & _ & _ & _ & _ & _ & Hx). by destruct post.
    + by destruct Hpos as (i & a & _ & _ & _ & _ & Hx).
  - apply orb_false_iff in Hstop as [Hp%bool_decide_eq_false Hs%bool_decide_eq_false].
    destruct (reader_read_ok c acc pending fut Hpos Hp Hs) as (c' & os & -> & Hpos' & Hnil & Hprog).
    cbn [mbind option_bind]. destruct (bool_decide (os = [])) eqn:Hos.
    + apply bool_decide_eq_true in Hos. destruct (Hnil Hos) as [-> Hfut].
      exists c, pending, acc. split; [done|]. split; [done|]. done.
    + apply bool_decide_eq_false in Hos. apply IH; [done|]. specialize (Hprog Hos). lia.
Qed.

Lemma feed_ok chunks : forall c acc pending,
  at_pos c acc (pending ++ concat chunks) -> chunks <> [] ->
  exists c' acc', feed c pending acc chunks = Some (c', [], acc') /\
    at_pos c' acc' [] /\ state c' = STATE_COMMAND_PARSED.
Proof using Hcount Hargs.
  induction chunks as [|ch chunks IH]; intros c acc pending Hpos Hne; [done|]. cbn [feed].
  cbn [concat] in Hpos. rewrite app_assoc in Hpos.
  destruct (drain_ok (drain_fuel (pending ++ ch)) c acc (pending ++ ch) (concat chunks) Hpos)
    as (c' & pending' & acc' & -> & Hpos' & Hdone).
  { pose proof (measure_bounds c (pending ++ ch)). unfold drain_fuel, zlen in *. lia. }
  cbn [mbind option_bind]. destruct chunks as [|ch' chunks].
  - cbn [feed concat] in *. specialize (Hdone eq_refl). rewrite app_nil_r in Hpos'.
    pose proof Hpos' as [_ Hx]. rewrite Hdone in Hx. destruct Hx as [_ ->].
    exists c', acc'. done.
  - by apply IH.
Qed.

End parsing.

(** ** Any input *)

(** The data an operation refers to is inside the buffer. *)
Definition op_in_bounds (buf : list Z) (o : reader_op) : Prop :=
  match o with
  | OP_ARGUMENT_DATA _ _ _ offset data_length =>
      0 <= offset /\ 0 <= data_length /\ offset + data_length <= zlen buf
  | _ => True
  end.

Record locals_in (buf : list Z) (k : nat) (l : locals) : Prop := {
  li_buffer : buffer l = drop (Z.to_nat (read_offset l)) buf;
  li_offset : 0 <= read_offset l <= zlen buf;
  li_consumed : consumed (ops l) = read_offset l;
  li_ops : Forall (op_in_bounds buf) (ops l);
  li_count : (length (ops l) <= k)%nat
}.

Definition outcome_in (buf : list Z) (k : nat) (o : outcome) : Prop :=
  match o with
  | Continue l => locals_in buf k l
  | Return l => locals_in buf 5 l
  | Error c => error c <> ERROR_OK
  end.

Lemma locals_in_weaken buf k k' l : (k <= k')%nat -> locals_in buf k l -> locals_in buf k' l.
Proof. intros Hk []. split; try done. lia. Qed.

Lemma locals_in_length buf k l : locals_in buf k l -> zlen (buffer l) = zlen buf - read_offset l.
Proof. intros [Hb Ho _ _ _]. rewrite Hb. unfold zlen in *. rewrite length_drop. lia. Qed.

(** A stage that consumes the next [n] bytes and appends [new]. *)
Lemma locals_in_advance buf k l c n new :
  locals_in buf k l -> (n <= length (buffer l))%nat -> consumed new = Z.of_nat n ->
  Forall (op_in_bounds buf) new ->
  locals_in buf (k + length new) (Locals c (drop n (buffer l)) (read_offset l + Z.of_nat n) (ops l ++ new)).
Proof.
  intros Hl Hn Hc Hnew. pose proof (locals_in_length _ _ _ Hl) as Hlen. destruct Hl as [Hb Ho Hcons Hops Hk].
  split; cbn [buffer read_offset ops].
  - rewrite Hb, drop_drop. f_equal. lia.
  - unfold zlen in *. lia.
  - rewrite consumed_snoc, Hcons, Hc. lia.
  - by apply Forall_app.
  - rewrite length_app. lia.
Qed.

Lemma memchr_lt l c nl : memchr l c = Some nl -> (nl < length l)%nat.
Proof.
  revert nl. induction l as [|x l IH]; intros nl; [done|]. cbn. destruct (x =? c).
  - intros [= <-]. lia.
  - destruct (memchr l c) as [i|]; [|done]. cbn. intros [= <-]. specialize (IH i eq_refl). lia.
Qed.

Lemma read_begin_in buf l o :
  locals_in buf 0 l -> read_begin l = Some o -> outcome_in buf 1 o.
Proof.
  intros Hl. unfold read_begin. destruct (head (buffer l)) as [b0|]; [|done]. cbn [mbind option_bind].
  destruct (negb (b0 =? TYPE_ARRAY)).
  - destruct ((6 <=? zlen (buffer l)) && _) eqn:Hc; intros [= <-]; [|done].
    apply andb_true_iff in Hc as [H6%Z.leb_le _]. pose proof (locals_in_length _ _ _ Hl) as Hlen.
    change (read_offset l + 6) with (read_offset l + Z.of_nat 6).
    apply (locals_in_advance buf 0 l _ 6 [_; _; _; _; _] Hl).
    + unfold zlen in H6. lia.
    + done.
    + pose proof (li_offset _ _ _ Hl). repeat constructor; cbn; lia.
  - destruct (memchr (buffer l) NL) as [nl|] eqn:Hm.
    2: { intros [= <-]. eapply locals_in_weaken; [|done]. lia. }
    apply memchr_lt in Hm. destruct (negb (line_ending_ok _ _)); [by intros [= <-]|].
    destruct (line_number (buffer l) (Z.of_nat nl)) as [[n|]|]; [|by intros [= <-]|done].
    cbn [mbind option_bind]. destruct (n <=? 0); intros [= <-]; [done|]. cbn [outcome_in].
    replace (Z.of_nat nl + 1) with (Z.of_nat (nl + 1)) by lia.
    apply (locals_in_advance buf 0 l _ (nl + 1) [_] Hl); [lia|cbn; lia|by repeat constructor].
Qed.

Lemma read_argument_length_in buf k l o :
  (k <= 4)%nat -> locals_in buf k l -> read_argument_length l = Some o -> outcome_in buf (k + 1) o.
Proof.
  intros Hk Hl. unfold read_argument_length. destruct (head (buffer l)) as [b0|]; [|done]. cbn [mbind option_bind].
  destruct (negb (b0 =? TYPE_BLOB_STRING)); [by intros [= <-]|].
  destruct (memchr (buffer l) NL) as [nl|] eqn:Hm.
  2: { intros [= <-]. eapply locals_in_weaken; [|done]. lia. }
  apply memchr_lt in Hm. destruct (negb (line_ending_ok _ _)); [by intros [= <-]|].
  destruct (line_number (buffer l) (Z.of_nat nl)) as [[n|]|]; [|by intros [= <-]|done].
  cbn [mbind option_bind]. destruct (n <? 0); intros [= <-]; [done|]. cbn [outcome_in].
  replace (Z.of_nat nl + 1) with (Z.of_nat (nl + 1)) by lia.
  apply (locals_in_advance buf k l _ (nl + 1) [_] Hl); [lia|cbn; lia|by repeat constructor].
Qed.

Lemma read_argument_data_in buf k l :
  locals_in buf k l -> outcome_in buf (k + 1) (read_argument_data l).
Proof.
  intros Hl. pose proof (locals_in_length _ _ _ Hl) as Hlen. pose proof (li_offset _ _ _ Hl) as Ho.
  unfold read_argument_data. set (w := u64 (current_length (ctx l) - current_received_length (ctx l))).
  assert (0 <= w) by (apply wrap_range; lia).
  set (n := if negb (zlen (buffer l) <? w) then w else zlen (buffer l)).
  assert (0 <= n <= zlen (buffer l)) as Hn.
  { unfold n. pose proof (zlen_nonneg (buffer l)). destruct (Z.ltb_spec (zlen (buffer l)) w); cbn; lia. }
  cbn [outcome_in]. replace (read_offset l + n) with (read_offset l + Z.of_nat (Z.to_nat n)) by lia.
  apply (locals_in_advance buf k l _ (Z.to_nat n) [_] Hl).
  - unfold zlen in Hn. lia.
  - cbn. lia.
  - repeat constructor; cbn; lia.
Qed.

Lemma read_argument_end_in buf k l :
  locals_in buf k l -> outcome_in buf (k + 2) (read_argument_end l).
Proof.
  intros Hl. unfold read_argument_end. destruct (buffer l) as [|b0 [|b1 bt]] eqn:Hb;
    [apply (locals_in_weaken buf k); [lia|done]..|].
  destruct (negb (b0 =? CR) || negb (b1 =? NL)); [done|].
  set (c' := Ctx _ _ _ _ _ _ _ _). set (last := current_index (ctx l) =? u32 (count (ctx l) - 1)).
  set (new := _ ++ (if last then _ else _)).
  apply (locals_in_weaken buf (k + length new)); [destruct last; cbn; lia|].
  assert (bt = drop 2 (buffer l)) as -> by by rewrite Hb.
  apply (locals_in_advance buf k l c' 2 new Hl); [rewrite Hb; cbn; lia|..];
    unfold new; destruct last; (done || by repeat constructor).
Qed.

Lemma stage_if_in buf k n s f o o' :
  (forall l o, locals_in buf k l -> f l = Some o -> outcome_in buf (k + n) o) ->
  outcome_in buf k o -> stage_if s f o = Some o' -> outcome_in buf (k + n) o'.
Proof.
  intros Hf Ho. destruct o as [l|l|c]; cbn [stage_if].
  - destruct (_ && _).
    + by apply Hf.
    + intros [= <-]. apply (locals_in_weaken buf k); [lia|done].
  - by intros [= <-].
  - by intros [= <-].
Qed.

(** ** Properties *)

(** C35: whatever the bytes and the context are, a call that returns
    operations returns at most 5 of them (the caller's array has 8, the assert
    asks for 6), consumes no more bytes than it was given, and every piece of
    argument data it points to lies inside the buffer; a call that returns -1
    has set the error of the context. *)
Theorem redis_reader_in_bounds (buf : list Z) (c c' : reader_context) (r : option (list reader_op)) :
  reader_read buf c = Some (c', r) ->
  match r with
  | Some os => (length os <= 5)%nat /\ 0 <= consumed os <= zlen buf /\ Forall (op_in_bounds buf) os
  | None => error c' <> ERROR_OK
  end.
Proof.
  unfold reader_read. case_bool_decide; [by intros [= <- <-]|]. case_bool_decide; [by intros [= <- <-]|].
  case_bool_decide; [by intros [= <- <-]|].
  assert (outcome_in buf 0 (Continue (Locals c buf 0 []))) as Hstart.
  { split; cbn; [done|pose proof (zlen_nonneg buf); lia|done|constructor|lia]. }
  destruct (stage_if STATE_BEGIN _ _) as [o1|] eqn:E1; [|done]. cbn [mbind option_bind].
  apply (stage_if_in buf 0 1) in E1; [|apply read_begin_in|done].
  destruct (stage_if STATE_RESP_WAITING_ARGUMENT_LENGTH _ _) as [o2|] eqn:E2; [|done]. cbn [mbind option_bind].
  apply (stage_if_in buf 1 1) in E2; [|intros l o; by apply read_argument_length_in; lia|done].
  destruct (stage_if STATE_RESP_WAITING_ARGUMENT_DATA _ _) as [o3|] eqn:E3; [|done]. cbn [mbind option_bind].
  apply (stage_if_in buf 2 1) in E3; [|intros l o Hl [= <-]; by apply read_argument_data_in|done].
  destruct (stage_if STATE_RESP_WAITING_ARGUMENT_DATA_END _ _) as [o4|] eqn:E4; [|done]. cbn [mbind option_bind].
  apply (stage_if_in buf 3 2) in E4; [|intros l o Hl [= <-]; by apply read_argument_end_in|done].
  destruct o4 as [l|l|ce]; intros [= <- <-]; [..|done]; destruct E4 as [Hb Ho Hc Hops Hk];
    (split; [lia|]; split; [lia|done]).
Qed.

Lemma redis_reader_in_bounds_witness :
  let buf := bytes_of "*1" ++ [13; 10] ++ bytes_of "$4" ++ [13; 10] ++ bytes_of "PI" in
  exists c' os, reader_read buf reader_context_reset = Some (c', Some os) /\ length os = 3%nat /\
    (length os <= 5)%nat /\ 0 <= consumed os <= zlen buf /\ Forall (op_in_bounds buf) os.
Proof.
  intros buf.
  pose proof (fun c' os H => redis_reader_in_bounds buf reader_context_reset c' (Some os) H) as Hb.
  cbn beta iota in Hb. eexists _, _. split; [reflexivity|]. split; [reflexivity|].
  eapply Hb. reflexivity.
Defined.

(** A header whose number is missing, blank up to the end of the bytes
    received, makes the reader run past the end of the buffer: [strtol] skips
    the CR and the LF as white space and goes on reading whatever follows. *)
Theorem redis_reader_blank_header_overreads (blanks : list Z) :
  Forall (fun c => is_space c = true /\ c <> NL) blanks ->
  reader_read (TYPE_ARRAY :: blanks ++ [CR; NL]) reader_context_reset = None.
Proof.
  intros Hb. unfold reader_read. rewrite bool_decide_eq_false_2 by (intros Hx; by apply Hx).
  rewrite bool_decide_eq_false_2 by done. rewrite bool_decide_eq_false_2 by done.
  cbn [stage_if buffer ctx state reader_context_reset]. rewrite !bool_decide_eq_true_2 by done. cbn [andb].
  set (buf := TYPE_ARRAY :: blanks ++ [CR; NL]).
  assert (read_begin (Locals reader_context_reset buf 0 []) = None) as Hnone; [|by rewrite Hnone].
  unfold read_begin. cbn [buffer ctx]. change (head buf) with (Some TYPE_ARRAY). cbn [mbind option_bind].
  change (negb (TYPE_ARRAY =? TYPE_ARRAY)) with false. cbv iota.
  pose proof (memchr_line NL (TYPE_ARRAY :: blanks ++ [CR]) buf [] []) as Hm.
  specialize (Hm ltac:(constructor; [done|]; apply Forall_app; split;
    [eapply Forall_impl; [exact Hb|]; by intros x [_ ?]|by constructor; [|constructor]])).
  specialize (Hm ltac:(unfold buf; cbn; by rewrite app_nil_r, <- app_assoc)).
  destruct (memchr buf NL) as [nl|]; [|done]. destruct Hm as (-> & _).
  cbn [length]. rewrite length_app. cbn [length].
  assert (line_ending_ok buf (Z.of_nat (S (length blanks + 1))) = true) as ->.
  { unfold line_ending_ok. destruct (Z.ltb_spec (Z.of_nat (S (length blanks + 1))) 2); [lia|].
    rewrite bool_decide_eq_true_2; [done|]. unfold zget.
    destruct (Z.ltb_spec (Z.of_nat (S (length blanks + 1)) - 1) 0); [lia|].
    replace (Z.to_nat (Z.of_nat (S (length blanks + 1)) - 1)) with (length (TYPE_ARRAY :: blanks)) by (cbn; lia).
    change buf with ((TYPE_ARRAY :: blanks) ++ CR :: [NL]). by apply list_lookup_middle. }
  cbn [negb]. unfold line_number, strtol, buf. cbn [tail].
  assert (skip_spaces (blanks ++ [CR; NL]) = None) as ->; [|done].
  clear buf. induction blanks as [|x blanks IH]; [done|].
  apply Forall_cons in Hb as [[Hx _] Hb]. cbn. rewrite Hx. by apply IH.
Qed.

Lemma redis_reader_blank_header_overreads_witness :
  reader_read (TYPE_ARRAY :: [32] ++ [CR; NL]) reader_context_reset = None.
Proof.
  apply (redis_reader_blank_header_overreads [32]). repeat constructor; vm_compute; congruence.
Defined.

(** C6: however the bytes of a command (an array of blob strings, as the
    writer encodes it) are split into packets, feeding them to the reader
    ends with the command parsed, no error, every byte consumed, and exactly
    the arguments of the command collected from the operations it reports. *)
Theorem redis_command_roundtrip (args : list (list Z)) (chunks : list (list Z)) :
  0 < zlen args < 2 ^ 32 -> Forall (fun a => zlen a < 2 ^ 31) args ->
  concat chunks = encode_command args ->
  exists c, feed reader_context_reset [] ([], []) chunks = Some (c, [], (args, [])) /\
    state c = STATE_COMMAND_PARSED /\ error c = ERROR_OK.
Proof.
  intros Hn Ha Hc.
  assert (chunks <> []) as Hne.
  { intros ->. unfold encode_command in Hc. by cbn in Hc. }
  assert (at_pos args reader_context_reset ([], []) ([] ++ concat chunks)) as Hpos by by rewrite Hc.
  destruct (feed_ok args Hn Ha chunks _ _ _ Hpos Hne) as (c & acc & Hf & [Herr Hx] & Hs).
  rewrite Hs in Hx. destruct Hx as [-> _]. by exists c.
Qed.

Lemma redis_command_roundtrip_witness :
  let args := [bytes_of "SET"; []; bytes_of "v"] in
  let e := encode_command args in
  exists c, feed reader_context_reset [] ([], []) [take 2 e; []; take 15 (drop 2 e); drop 17 e] =
      Some (c, [], (args, [])) /\
    state c = STATE_COMMAND_PARSED /\ error c = ERROR_OK.
Proof.
  intros args e.
  apply (redis_command_roundtrip args [take 2 e; []; take 15 (drop 2 e); drop 17 e]).
  - split; vm_compute; congruence.
  - repeat constructor; vm_compute; congruence.
  - reflexivity.
Defined.

End RedisReader.
