(* ===== verification/RdbPrimitive.v ===== *)
(** * RdbPrimitive: the encoders of the snapshot file

    module/redis/snapshot/module_redis_snapshot_serialize_primitive.c.  An
    encoder gets the memory that holds the output, the address of the buffer in
    it, the size of the buffer and the offset to write at; it returns its
    result code, the memory and the new offset, or [None] for a store outside
    the memory or a failed assert.  liblzf is third-party code: the compressor
    is a parameter. *)

From Stdlib Require Import Ascii String.
From S2P Require Import Prelude Memory Decimal.

Module RdbPrimitive.
Import Memory Decimal.

Inductive serialize_result :=
  | RESULT_OK
  | RESULT_BUFFER_OVERFLOW
  | RESULT_INVALID_INTEGER
  | RESULT_COMPRESSION_FAILED
  | RESULT_COMPRESSION_RATIO_TOO_LOW
  | RESULT_INVALID_VALUE_TYPE
  | RESULT_BUFFER_TOO_LARGE
  | RESULT_NUMBER_TOO_BIG.

#[export] Instance serialize_result_eq_dec : EqDecision serialize_result.
Proof. solve_decision. Defined.

Definition OPCODES_MIN : Z := 0xF5.
Definition OPCODE_AUX : Z := 0xFA.
Definition OPCODE_RESIZE_DB : Z := 0xFB.
Definition OPCODE_EXPIRE_TIME_MS : Z := 0xFC.
Definition OPCODE_EXPIRE_TIME : Z := 0xFD.
Definition OPCODE_DB_NUMBER : Z := 0xFE.
Definition OPCODE_EOF : Z := 0xFF.
Definition VALUE_TYPE_STRING : Z := 0.
Definition VALUE_TYPE_MAX : Z := 0x16.

Definition LZF_MAX_COMPRESSED_SIZE (n : Z) : Z := u64 (Z.shiftr (u64 (n * 33)) 5 + 1).

(** ** Integers in memory

    [le_bytes n v]: the [n] bytes of an integer of the (little endian) host;
    [be_bytes]: after the conversion to the network order. *)
Fixpoint le_bytes (n : nat) (v : Z) : list Z :=
  match n with
  | O => []
  | S n => v `mod` 256 :: le_bytes n (v / 256)
  end.
Definition be_bytes (n : nat) (v : Z) : list Z := rev (le_bytes n v).

(** ** Lengths *)

Definition encoder := mem -> Z -> Z -> Z -> option (serialize_result * mem * Z).

Definition encode_length_required_buffer_space (length : Z) : Z :=
  if length <=? 63 then 1 else if length <=? 16383 then 2 else if length <=? 2 ^ 32 - 1 then 5 else 9.

(** A store at the offset, followed by its increment. *)
Definition put_byte (m : mem) (buffer off x : Z) : option (mem * Z) :=
  m ← store m (buffer + off) x; Some (m, off + 1).

Definition encode_length_up_to_uint63 (length : Z) : encoder := fun m buffer size off =>
  let required := encode_length_required_buffer_space length in
  if 63 <? length then Some (RESULT_NUMBER_TOO_BIG, m, off) else
  if size <? u64 (off + required) then Some (RESULT_BUFFER_OVERFLOW, m, off) else
  '(m, off) ← put_byte m buffer off (Z.land length 0x3F);
  Some (RESULT_OK, m, off).

Definition encode_length_up_to_uint16383 (length : Z) : encoder := fun m buffer size off =>
  let required := encode_length_required_buffer_space length in
  if 16383 <? length then Some (RESULT_NUMBER_TOO_BIG, m, off) else
  if size <? u64 (off + required) then Some (RESULT_BUFFER_OVERFLOW, m, off) else
  '(m, off) ← put_byte m buffer off (Z.lor (Z.land (Z.shiftr length 8) 0x3F) 0x40);
  '(m, off) ← put_byte m buffer off (Z.land length 0xFF);
  Some (RESULT_OK, m, off).

Definition encode_length_up_to_uint32b (length : Z) : encoder := fun m buffer size off =>
  let required := encode_length_required_buffer_space length in
  if 2 ^ 32 - 1 <? length then Some (RESULT_NUMBER_TOO_BIG, m, off) else
  if size <? u64 (off + required) then Some (RESULT_BUFFER_OVERFLOW, m, off) else
  '(m, off) ← put_byte m buffer off 0x80;
  m ← memcpy m (buffer + off) (be_bytes 4 (u32 length));
  Some (RESULT_OK, m, off + 4).

Definition encode_length_up_to_uint64b (length : Z) : encoder := fun m buffer size off =>
  let required := encode_length_required_buffer_space length in
  if size <? u64 (off + required) then Some (RESULT_BUFFER_OVERFLOW, m, off) else
  '(m, off) ← put_byte m buffer off 0x81;
  m ← memcpy m (buffer + off) (be_bytes 8 length);
  Some (RESULT_OK, m, off + 8).

Definition encode_length (length : Z) : encoder :=
  if length <=? 63 then encode_length_up_to_uint63 length
  else if length <=? 16383 then encode_length_up_to_uint16383 length
  else if length <=? 2 ^ 32 - 1 then encode_length_up_to_uint32b length
  else encode_length_up_to_uint64b length.

(** ** Header, keys and strings *)

(** [version] is an [uint8_t], so ["%04d"] prints its four lowest digits. *)
Definition encode_header (version : Z) : encoder := fun m buffer size off =>
  if size <? u64 (off + 9) then Some (RESULT_BUFFER_OVERFLOW, m, off) else
  let version_buffer := digits 4 version in
  m ← memcpy m (buffer + off) (bytes_of "REDIS");
  let off := off + 5 in
  m ← memcpy m (buffer + off) version_buffer;
  Some (RESULT_OK, m, off + 4).

Definition copy_bytes (s : list Z) (len : Z) (m : mem) (pos : Z) : option mem :=
  if zlen s <? len then None else memcpy m pos (take (Z.to_nat len) s).

Definition encode_key (s : list Z) (len : Z) : encoder := fun m buffer size off =>
  if len =? 0 then None else
  let required := u64 (encode_length_required_buffer_space len + len) in
  if size <? u64 (off + required) then Some (RESULT_BUFFER_OVERFLOW, m, off) else
  '(r, m, off) ← encode_length len m buffer size off;
  if negb (bool_decide (r = RESULT_OK)) then Some (r, m, off) else
  m ← copy_bytes s len m (buffer + off);
  Some (RESULT_OK, m, off + len).

Definition encode_string_length (len : Z) : encoder := encode_length len.

Definition encode_string_data_plain (s : list Z) (len : Z) : encoder := fun m buffer size off =>
  if size <? u64 (off + len) then Some (RESULT_BUFFER_OVERFLOW, m, off) else
  m ← copy_bytes s len m (buffer + off);
  Some (RESULT_OK, m, off + len).

(** The integer a string stands for, if the code takes it for one.  The test
    against INT64_MAX compares an unsigned with a signed 64-bit integer, which
    converts the latter to unsigned. *)
Definition can_encode_string_int (s : list Z) (len : Z) : option (bool * Z) :=
  if zlen s <? len then None else
  let dup := take (Z.to_nat len) s ++ [0] in
  c ← head dup;
  '(out, string_end, ok) ←
    (if c =? 45 then
       '(v, string_end) ← strtol dup; Some (v, string_end, true)
     else
       '(v, string_end) ← strtoull dup;
       let out := i64 v in
       Some (out, string_end, negb (u64 out <? v)));
  if negb ok then Some (false, out) else
  e ← zget dup string_end;
  if (string_end =? 0) || negb (e =? 0) then Some (false, out) else
  if (out <? - 2 ^ 31) || (2 ^ 31 - 1 <? out) then Some (false, out) else
  Some (true, out).

Definition encode_small_string_int (n : Z) : encoder := fun m buffer size off =>
  if (- 2 ^ 7 <=? n) && (n <=? 2 ^ 7 - 1) then
    if size <? u64 (off + 2) then Some (RESULT_BUFFER_OVERFLOW, m, off) else
    '(m, off) ← put_byte m buffer off (Z.lor 0xC0 0x00);
    '(m, off) ← put_byte m buffer off (Z.land n 0xFF);
    Some (RESULT_OK, m, off)
  else if (- 2 ^ 15 <=? n) && (n <=? 2 ^ 15 - 1) then
    if size <? u64 (off + 3) then Some (RESULT_BUFFER_OVERFLOW, m, off) else
    '(m, off) ← put_byte m buffer off (Z.lor 0xC0 0x01);
    '(m, off) ← put_byte m buffer off (Z.land n 0xFF);
    '(m, off) ← put_byte m buffer off (Z.land (Z.shiftr n 8) 0xFF);
    Some (RESULT_OK, m, off)
  else if (- 2 ^ 31 <=? n) && (n <=? 2 ^ 31 - 1) then
    if size <? u64 (off + 5) then Some (RESULT_BUFFER_OVERFLOW, m, off) else
    '(m, off) ← put_byte m buffer off (Z.lor 0xC0 0x02);
    '(m, off) ← put_byte m buffer off (Z.land n 0xFF);
    '(m, off) ← put_byte m buffer off (Z.land (Z.shiftr n 8) 0xFF);
    '(m, off) ← put_byte m buffer off (Z.land (Z.shiftr n 16) 0xFF);
    '(m, off) ← put_byte m buffer off (Z.land (Z.shiftr n 24) 0xFF);
    Some (RESULT_OK, m, off)
  else Some (RESULT_INVALID_INTEGER, m, off).

Section lzf.
(** [lzf_compress s capacity]: the bytes stored in the output area, and whether
    the result is their number (0 means failure). *)
Context (lzf_compress : list Z -> Z -> list Z * bool).

Definition encode_small_string_lzf (s : list Z) (len : Z) : encoder := fun m buffer size off =>
  if 65536 <=? len then Some (RESULT_BUFFER_TOO_LARGE, m, off) else
  let header_length := 1 + 5 + 5 in
  let max_required := header_length + LZF_MAX_COMPRESSED_SIZE len in
  if size <? u64 (off + max_required) then Some (RESULT_BUFFER_OVERFLOW, m, off) else
  if zlen s <? len then None else
  let '(out, ok) := lzf_compress (take (Z.to_nat len) s) (u64 (size - off - header_length)) in
  let compressed_length := if (ok : bool) then zlen out else 0 in
  m ← memcpy m (buffer + off + header_length) out;
  if compressed_length =? 0 then Some (RESULT_COMPRESSION_FAILED, m, off) else
  if len <? compressed_length then Some (RESULT_COMPRESSION_RATIO_TOO_LOW, m, off) else
  '(m, off) ← put_byte m buffer off (Z.lor 0xC0 0x03);
  '(r, m, off) ← encode_length_up_to_uint32b compressed_length m buffer size off;
  if negb (bool_decide (r = RESULT_OK)) then Some (r, m, off) else
  '(r, m, off) ← encode_length_up_to_uint32b len m buffer size off;
  if negb (bool_decide (r = RESULT_OK)) then Some (r, m, off) else
  Some (RESULT_OK, m, off + compressed_length).

Definition encode_plain (s : list Z) (len : Z) : encoder := fun m buffer size off =>
  '(r, m, off) ← encode_string_length len m buffer size off;
  if negb (bool_decide (r = RESULT_OK)) then Some (r, m, off) else
  encode_string_data_plain s len m buffer size off.

Definition encode_small_string (s : list Z) (len : Z) : encoder := fun m buffer size off =>
  if 65536 <=? len then Some (RESULT_BUFFER_TOO_LARGE, m, off) else
  '(is_int, n) ← can_encode_string_int s len;
  if (is_int : bool) then encode_small_string_int n m buffer size off else
  if 32 <? len then
    '(r, m, off') ← encode_small_string_lzf s len m buffer size off;
    if negb (bool_decide (r = RESULT_COMPRESSION_RATIO_TOO_LOW)) then Some (r, m, off')
    else encode_plain s len m buffer size off
  else encode_plain s len m buffer size off.

Definition encode_opcode_aux (k : list Z) (klen : Z) (v : list Z) (vlen : Z) : encoder :=
  fun m buffer size off =>
  if size <? u64 (off + 1 + klen + vlen) then Some (RESULT_BUFFER_OVERFLOW, m, off) else
  '(m, off) ← put_byte m buffer off OPCODE_AUX;
  '(r, m, off) ← encode_small_string k klen m buffer size off;
  if negb (bool_decide (r = RESULT_OK)) then Some (r, m, off) else
  encode_small_string v vlen m buffer size off.
End lzf.

(** ** Opcodes *)

Definition encode_opcode_db_number (db_number : Z) : encoder := fun m buffer size off =>
  if size <? u64 (off + 2) then Some (RESULT_BUFFER_OVERFLOW, m, off) else
  '(m, off) ← put_byte m buffer off OPCODE_DB_NUMBER;
  encode_length db_number m buffer size off.

Definition encode_opcode_expire_time_s (expire_time_s : Z) : encoder := fun m buffer size off =>
  if size <? u64 (off + 5) then Some (RESULT_BUFFER_OVERFLOW, m, off) else
  '(m, off) ← put_byte m buffer off OPCODE_EXPIRE_TIME;
  m ← memcpy m (buffer + off) (le_bytes 4 expire_time_s);
  Some (RESULT_OK, m, off + 4).

Definition encode_opcode_expire_time_ms (expire_time_ms : Z) : encoder := fun m buffer size off =>
  if size <? u64 (off + 8) then Some (RESULT_BUFFER_OVERFLOW, m, off) else
  '(m, off) ← put_byte m buffer off OPCODE_EXPIRE_TIME_MS;
  m ← memcpy m (buffer + off) (le_bytes 8 expire_time_ms);
  Some (RESULT_OK, m, off + 8).

Definition is_value_type_valid (value_type : Z) : bool :=
  (value_type <=? VALUE_TYPE_MAX) && negb (value_type =? 8).
Definition is_value_type_supported (value_type : Z) : bool :=
  existsb (fun t => t =? value_type) [VALUE_TYPE_STRING].

Definition encode_opcode_value_type (value_type : Z) : encoder := fun m buffer size off =>
  if size <? u64 (off + 1) then Some (RESULT_BUFFER_OVERFLOW, m, off) else
  if negb (is_value_type_valid value_type) then None else
  if negb (is_value_type_supported value_type) then None else
  '(m, off) ← put_byte m buffer off value_type;
  Some (RESULT_OK, m, off).

Definition encode_opcode_eof (checksum : Z) : encoder := fun m buffer size off =>
  if size <? u64 (off + 9) then Some (RESULT_BUFFER_OVERFLOW, m, off) else
  '(m, off) ← put_byte m buffer off OPCODE_EOF;
  m ← memcpy m (buffer + off) (le_bytes 8 checksum);
  Some (RESULT_OK, m, off + 8).

End RdbPrimitive.
