(* ===== verification/RdbLoad.v ===== *)
(** * RdbLoad: the reader of the snapshot file

    module/redis/snapshot/module_redis_snapshot_load.c.  The channel is the
    bytes of the file from [rdb_offset] on; a read past the end of the file,
    [FATAL] and the use of uninitialised memory are [None].  Writing the loaded
    pairs into the database is the list of the [storage_db_op_set] calls. *)

From Stdlib Require Import Ascii String.
From S2P Require Import Prelude Memory Decimal RdbPrimitive.

Module RdbLoad.
Import Memory Decimal RdbPrimitive.

(** The value of the bytes of an integer of the host. *)
Fixpoint le_value (l : list Z) : Z :=
  match l with
  | [] => 0
  | b :: l => b + 256 * le_value l
  end.
(** [int32_ntoh] and [int64_ntoh] of the integer read from the bytes. *)
Definition be_value (l : list Z) : Z := le_value (rev l).

Definition load_read (l : list Z) (n : Z) : option (list Z * list Z) :=
  if (n <? 0) || (zlen l <? n) then None else Some (take (Z.to_nat n) l, drop (Z.to_nat n) l).

Definition read_byte (l : list Z) : option (Z * list Z) :=
  '(bs, l) ← load_read l 1; b ← head bs; Some (b, l).

Definition load_read_length_encoded_int (l : list Z) : option (Z * list Z) :=
  '(byte, l) ← read_byte l;
  if Z.land byte 0xC0 =? 0 then Some (Z.land byte 0x3F, l)
  else if Z.land byte 0xC0 =? 0x40 then
    '(next_byte, l) ← read_byte l;
    Some (Z.lor (Z.shiftl (Z.land byte 0x3F) 8) next_byte, l)
  else if (Z.land byte 0xC0 =? 0x80) && (Z.land byte 0x01 =? 0) then
    '(bs, l) ← load_read l 4; Some (be_value bs, l)
  else if (Z.land byte 0xC0 =? 0x80) && (Z.land byte 0x01 =? 1) then
    '(bs, l) ← load_read l 8; Some (be_value bs, l)
  else Some (0, l).

Section lzf.
(** [lzf_decompress compressed capacity]: the bytes produced; no bytes (0) for
    an error. *)
Context (lzf_decompress : list Z -> Z -> list Z).

(** The cases of [byte & 0x3F] of a string that is not stored as it is. *)
Definition read_encoded_string (type : Z) (l : list Z) : option (list Z * list Z) :=
  if type =? 0 then
    '(bs, l) ← load_read l 1; Some (dec_signed (swrap 8 (le_value bs)), l)
  else if type =? 1 then
    '(bs, l) ← load_read l 2; Some (dec_signed (swrap 16 (le_value bs)), l)
  else if type =? 2 then
    '(bs, l) ← load_read l 4; Some (dec_signed (swrap 32 (le_value bs)), l)
  else if type =? 3 then
    '(compressed_length, l) ← load_read_length_encoded_int l;
    '(uncompressed_length, l) ← load_read_length_encoded_int l;
    '(compressed, l) ← load_read l compressed_length;
    let out := lzf_decompress compressed uncompressed_length in
    if zlen out =? 0 then None else
    if negb (zlen out =? uncompressed_length) then None else
    Some (out, l)
  else None.

Definition load_read_string (l : list Z) : option (list Z * list Z) :=
  '(byte, l) ← read_byte l;
  if Z.land byte 0xC0 =? 0 then load_read l (Z.land byte 0x3F)
  else if Z.land byte 0xC0 =? 0x40 then
    '(next_byte, l) ← read_byte l;
    load_read l (Z.lor (Z.shiftl (Z.land byte 0x3F) 8) next_byte)
  else if (Z.land byte 0xC0 =? 0x80) && (Z.land byte 0x01 =? 0) then
    '(bs, l) ← load_read l 4; load_read l (be_value bs)
  else if (Z.land byte 0xC0 =? 0x80) && (Z.land byte 0x01 =? 1) then
    '(bs, l) ← load_read l 8; load_read l (be_value bs)
  else read_encoded_string (Z.land byte 0x3F) l.

(** ** The header and the checksum *)

Definition load_validate_magic (l : list Z) : option (bool * list Z) :=
  '(magic, l) ← load_read l 5;
  Some (bool_decide (magic = bytes_of "REDIS"), l).

Definition load_validate_version (l : list Z) : option (bool * list Z) :=
  '(bs, l) ← load_read l 4;
  let version := bs ++ [0] in
  if negb (bool_decide (take 2 version = [48; 48])) then Some (false, l) else
  '(v, endptr) ← strtol version;
  if 11 <? v then Some (false, l) else
  e ← zget version endptr;
  Some (e =? 0, l).

Definition load_validate_checksum (l : list Z) : option (bool * list Z) :=
  '(bs, l) ← load_read l 8;
  Some (true, l).

Definition load_read_opcode (l : list Z) : option (Z * list Z) := read_byte l.

(** ** The state of a load *)

Record load_op := LoadSet {
  ls_database : Z;
  ls_key : list Z;
  ls_value : list Z;
  ls_expiry_ms : Z
}.

Record load_state := LoadState {
  current_database_number : Z;
  counter_strings : Z;
  counter_expires : Z;
  counter_expires_expired : Z;
  sets : list load_op
}.

Definition load_process_opcode_aux (l : list Z) : option (list Z) :=
  '(_, l) ← load_read_string l;
  '(_, l) ← load_read_string l;
  Some l.

Definition load_process_opcode_db_number (st : load_state) (l : list Z) : option (load_state * list Z) :=
  '(n, l) ← load_read_length_encoded_int l;
  Some (LoadState (u32 n) (counter_strings st) (counter_expires st)
          (counter_expires_expired st) (sets st), l).

Definition load_process_opcode_resize_db (l : list Z) : option (list Z) :=
  '(_, l) ← load_read_length_encoded_int l;
  '(_, l) ← load_read_length_encoded_int l;
  Some l.

(** [start] is [rdb_load_start]; a time in seconds is multiplied as a 32-bit
    integer. *)
Definition load_process_opcode_expire_time (start : Z) (st : load_state) (opcode : Z) (l : list Z)
    : option (Z * load_state * list Z) :=
  '(expiry_ms, l) ←
    (if opcode =? OPCODE_EXPIRE_TIME_MS then '(bs, l) ← load_read l 8; Some (le_value bs, l)
     else if opcode =? OPCODE_EXPIRE_TIME then
       '(bs, l) ← load_read l 4; Some (u32 (le_value bs * 1000), l)
     else Some (0, l));
  Some (expiry_ms,
    LoadState (current_database_number st) (counter_strings st) (u64 (counter_expires st + 1))
      (if expiry_ms <=? start then u64 (counter_expires_expired st + 1) else counter_expires_expired st)
      (sets st), l).

Definition load_process_value_string (start : Z) (st : load_state) (expiry_ms : Z) (l : list Z)
    : option (load_state * list Z) :=
  '(k, l) ← load_read_string l;
  '(v, l) ← load_read_string l;
  Some (LoadState (current_database_number st) (u64 (counter_strings st + 1)) (counter_expires st)
          (counter_expires_expired st)
          (if (expiry_ms =? 0) || (start <? expiry_ms)
           then sets st ++ [LoadSet (current_database_number st) k v expiry_ms] else sets st), l).

(** One iteration of the loop over the opcodes; [inl] at the end of the file. *)
Definition load_opcode (start : Z) (st : load_state) (expiry_ms : Z) (l : list Z)
    : option (load_state * list Z + load_state * Z * list Z) :=
  '(opcode, l) ← load_read_opcode l;
  if opcode =? OPCODE_EOF then Some (inl (st, l)) else
  '(st, expiry_ms, l) ←
    (if opcode =? OPCODE_AUX then l ← load_process_opcode_aux l; Some (st, expiry_ms, l)
     else if opcode =? OPCODE_DB_NUMBER then
       '(st, l) ← load_process_opcode_db_number st l; Some (st, expiry_ms, l)
     else if opcode =? OPCODE_RESIZE_DB then
       l ← load_process_opcode_resize_db l; Some (st, expiry_ms, l)
     else if (opcode =? OPCODE_EXPIRE_TIME) || (opcode =? OPCODE_EXPIRE_TIME_MS) then
       '(e, st, l) ← load_process_opcode_expire_time start st opcode l; Some (st, e, l)
     else if opcode =? VALUE_TYPE_STRING then
       '(st, l) ← load_process_value_string start st expiry_ms l; Some (st, expiry_ms, l)
     else None);
  Some (inr (st, if opcode <? OPCODES_MIN then 0 else expiry_ms, l)).

(** Every iteration consumes a byte: as many as the file has suffice. *)
Fixpoint load_opcodes (start : Z) (fuel : nat) (st : load_state) (expiry_ms : Z) (l : list Z)
    : option (load_state * list Z) :=
  match fuel with
  | O => None
  | S fuel =>
      r ← load_opcode start st expiry_ms l;
      match r with
      | inl (st, l) => Some (st, l)
      | inr (st, expiry_ms, l) => load_opcodes start fuel st expiry_ms l
      end
  end.

(** The load of a whole file: the calls that set the pairs, in order.  The
    current database is a static variable that a load does not reset. *)
Definition load_data (start database : Z) (file : list Z) : option load_state :=
  '(ok, l) ← load_validate_magic file;
  if negb ok then None else
  '(ok, l) ← load_validate_version l;
  if negb ok then None else
  '(st, l) ← load_opcodes start (S (length l)) (LoadState database 0 0 0 []) 0 l;
  '(ok, l) ← load_validate_checksum l;
  if negb ok then None else
  Some st.

End lzf.

End RdbLoad.
