(* ===== verification/RdbSpec.v ===== *)
(** * RdbSpec: what the snapshot encoders write and how it is read back *)

From Stdlib Require Import Ascii String.
From S2P Require Import Prelude Memory Decimal RdbPrimitive RdbLoad.

Module RdbSpec.
Import Memory Decimal RdbPrimitive RdbLoad.

(** ** Integers in bytes *)

Lemma le_bytes_length n v : length (le_bytes n v) = n.
Proof. revert v. induction n as [|n IH]; intros v; cbn; [done|]. by rewrite IH. Qed.

Lemma be_bytes_length n v : length (be_bytes n v) = n.
Proof. unfold be_bytes. rewrite length_rev. apply le_bytes_length. Qed.

Lemma le_value_bytes n v : le_value (le_bytes n v) = v `mod` 256 ^ Z.of_nat n.
Proof.
  revert v. induction n as [|n IH]; intros v; cbn [le_bytes le_value].
  - cbn. by rewrite Z.mod_1_r.
  - rewrite IH, Nat2Z.inj_succ, Z.pow_succ_r by lia.
    rewrite Z.rem_mul_r by (try apply Z.pow_nonzero; lia). lia.
Qed.

Lemma be_value_bytes n v : be_value (be_bytes n v) = v `mod` 256 ^ Z.of_nat n.
Proof. unfold be_value, be_bytes. rewrite rev_involutive. apply le_value_bytes. Qed.

Lemma swrap_le_value w n v :
  w = 8 * Z.of_nat n -> 0 < w -> - 2 ^ (w - 1) <= v < 2 ^ (w - 1) -> swrap w (le_value (le_bytes n v)) = v.
Proof.
  intros -> Hw Hv. rewrite le_value_bytes. replace (256 ^ Z.of_nat n) with (2 ^ (8 * Z.of_nat n))
    by (rewrite Z.pow_mul_r by lia; done).
  unfold swrap. rewrite Zplus_mod_idemp_l. apply (swrap_small (8 * Z.of_nat n) v); done.
Qed.

(** A fact about bytes, checked on all of them. *)
Lemma byte_facts (P : Z -> bool) b :
  forallb P (seqZ 0 256) = true -> 0 <= b < 256 -> P b = true.
Proof.
  intros Hall Hb. rewrite forallb_forall in Hall. apply Hall, list_elem_of_In, elem_of_seqZ. lia.
Qed.

Lemma lor_shift_byte x y : 0 <= y < 256 -> Z.lor (Z.shiftl x 8) y = 256 * x + y.
Proof.
  intros Hy.
  assert (Z.land (Z.shiftl x 8) y = 0) as Hd.
  { apply Z.bits_inj'. intros i Hi. rewrite Z.land_spec, Z.bits_0.
    destruct (Z.lt_ge_cases i 8); [by rewrite Z.shiftl_spec_low by lia|].
    replace y with (y `mod` 2 ^ 8) by (apply Z.mod_small; mach_lia).
    rewrite Z.mod_pow2_bits_high by lia. apply andb_false_r. }
  rewrite <- Z.lxor_lor, <- Z.add_nocarry_lxor, Z.shiftl_mul_pow2 by (done || lia). lia.
Qed.

(** ** The bytes of each item *)

Definition length_bytes (n : Z) : list Z :=
  if n <=? 63 then [n]
  else if n <=? 16383 then [64 + n / 256; n `mod` 256]
  else if n <=? 2 ^ 32 - 1 then 0x80 :: be_bytes 4 n
  else 0x81 :: be_bytes 8 n.

Definition int_bytes (n : Z) : list Z :=
  if (- 2 ^ 7 <=? n) && (n <=? 2 ^ 7 - 1) then 0xC0 :: le_bytes 1 n
  else if (- 2 ^ 15 <=? n) && (n <=? 2 ^ 15 - 1) then 0xC1 :: le_bytes 2 n
  else 0xC2 :: le_bytes 4 n.

Definition plain_bytes (s : list Z) : list Z := length_bytes (zlen s) ++ s.

(** [e] emits exactly [bs] at the offset, touching nothing else, whenever the
    buffer has room for [bs]. *)
Definition emits (e : encoder) (bs : list Z) : Prop :=
  forall m buffer size off, 0 <= buffer -> 0 <= off -> size < 2 ^ 63 ->
    buffer + size <= zlen m -> off + zlen bs <= size ->
    e m buffer size off = Some (RESULT_OK, splice m (buffer + off) bs, off + zlen bs).

Lemma put_byte_splice m buffer off x :
  0 <= buffer + off < zlen m -> put_byte m buffer off x = Some (splice m (buffer + off) [x], off + 1).
Proof. intros Hr. unfold put_byte. by rewrite store_splice by lia. Qed.

(** Stores one byte, then what is left. *)
Lemma put_byte_then m buffer off x bs :
  0 <= buffer + off -> buffer + off + 1 + zlen bs <= zlen m ->
  splice (splice m (buffer + off) [x]) (buffer + (off + 1)) bs = splice m (buffer + off) (x :: bs).
Proof.
  intros Hp Hl. replace (buffer + (off + 1)) with (buffer + off + zlen [x]) by (change (zlen [x]) with 1; lia).
  rewrite splice_app; [done|lia|]. change (zlen [x]) with 1. lia.
Qed.

Ltac overflow_guard :=
  match goal with
  | |- context [?size <? u64 (?off + ?n)] =>
      rewrite (wrap_small 64 (off + n)) by mach_lia; destruct (Z.ltb_spec size (off + n)); [lia|]
  end.

Ltac emit_byte :=
  rewrite put_byte_splice by (rewrite ?splice_length; cbn [zlen length] in *; lia); cbn [mbind option_bind].

Lemma zlen1 {A} (x : A) : zlen [x] = 1.
Proof. done. Qed.

Lemma zlen_le_bytes n v : zlen (le_bytes n v) = Z.of_nat n.
Proof. unfold zlen. by rewrite le_bytes_length. Qed.

Lemma zlen_be_bytes n v : zlen (be_bytes n v) = Z.of_nat n.
Proof. unfold zlen. by rewrite be_bytes_length. Qed.

(** A guard on the space, a tag byte and a block of bytes. *)
Lemma emits_tagged x bs n e :
  zlen bs = n -> n < 2 ^ 32 ->
  (forall m buffer size off, e m buffer size off =
    (if size <? u64 (off + (1 + n)) then Some (RESULT_BUFFER_OVERFLOW, m, off) else
     '(m, off) ← put_byte m buffer off x;
     m ← memcpy m (buffer + off) bs;
     Some (RESULT_OK, m, off + n))) ->
  emits e (x :: bs).
Proof.
  intros Hn Hn32 He m buffer size off Hb Ho Hs Hm Hfit. rewrite He.
  pose proof (zlen_nonneg bs). rewrite zlen_cons in *. rewrite Hn in *. overflow_guard.
  rewrite put_byte_splice by lia. cbn [mbind option_bind].
  rewrite memcpy_splice by (rewrite ?splice_length; rewrite ?zlen1; lia). cbn [mbind option_bind].
  rewrite put_byte_then by lia. do 2 f_equal. lia.
Qed.

(** The same with the block stored byte by byte. *)
Fixpoint put_bytes (m : mem) (buffer off : Z) (bs : list Z) : option (mem * Z) :=
  match bs with
  | [] => Some (m, off)
  | b :: bs => '(m, off) ← put_byte m buffer off b; put_bytes m buffer off bs
  end.

Lemma put_bytes_splice bs : forall m buffer off,
  0 <= buffer + off -> buffer + off + zlen bs <= zlen m ->
  put_bytes m buffer off bs = Some (splice m (buffer + off) bs, off + zlen bs).
Proof.
  induction bs as [|b bs IH]; intros m buffer off Hp Hl; cbn [put_bytes].
  - by rewrite splice_nil, Z.add_0_r.
  - rewrite zlen_cons in *. pose proof (zlen_nonneg bs).
    rewrite put_byte_splice by lia. cbn [mbind option_bind].
    rewrite IH by (rewrite ?splice_length; rewrite ?zlen1; lia).
    rewrite put_byte_then by lia. do 2 f_equal. lia.
Qed.

Lemma emits_bytes bs n e :
  zlen bs = n -> n < 2 ^ 32 ->
  (forall m buffer size off, e m buffer size off =
    (if size <? u64 (off + n) then Some (RESULT_BUFFER_OVERFLOW, m, off) else
     '(m, off) ← put_bytes m buffer off bs; Some (RESULT_OK, m, off))) ->
  emits e bs.
Proof.
  intros Hn Hn32 He m buffer size off Hb Ho Hs Hm Hfit. rewrite He.
  pose proof (zlen_nonneg bs). rewrite Hn in *. overflow_guard.
  rewrite put_bytes_splice by lia. cbn [mbind option_bind]. by rewrite Hn.
Qed.

Lemma emits_length n : 0 <= n < 2 ^ 64 -> emits (encode_length n) (length_bytes n).
Proof.
  intros Hn. unfold encode_length, length_bytes.
  destruct (Z.leb_spec n 63); [|destruct (Z.leb_spec n 16383); [|destruct (Z.leb_spec n (2 ^ 32 - 1))]].
  - apply (emits_bytes [n] 1); [done|lia|]. intros m buffer size off.
    unfold encode_length_up_to_uint63, encode_length_required_buffer_space.
    destruct (Z.ltb_spec 63 n), (Z.leb_spec n 63); try lia.
    assert (Z.land n 0x3F = n) as ->; [|cbn [put_bytes]; by destruct (put_byte m buffer off n) as [[??]|]].
    change 0x3F with (2 ^ 6 - 1). rewrite land_pow2_mask by lia. apply Z.mod_small. mach_lia.
  - apply (emits_bytes [64 + n / 256; n `mod` 256] 2); [done|lia|]. intros m buffer size off.
    unfold encode_length_up_to_uint16383, encode_length_required_buffer_space.
    destruct (Z.ltb_spec 16383 n), (Z.leb_spec n 63), (Z.leb_spec n 16383); try lia.
    assert (Z.land n 0xFF = n `mod` 256) as -> by (apply (land_pow2_mask n 8); lia).
    assert (Z.lor (Z.land (Z.shiftr n 8) 0x3F) 0x40 = 64 + n / 256) as ->.
    { rewrite Z.shiftr_div_pow2 by lia. change (2 ^ 8) with 256.
      assert (0 <= n / 256 < 64) by (split; [apply Z.div_pos; lia|apply Z.div_lt_upper_bound; lia]).
      pose proof (byte_facts (fun x => (64 <=? x) || (Z.lor (Z.land x 0x3F) 0x40 =? 64 + x)) (n / 256)
        ltac:(vm_compute; reflexivity) ltac:(lia)) as Hf. cbn beta in Hf. lia. }
    cbn [put_bytes]. destruct (size <? _); [done|].
    destruct (put_byte m buffer off _) as [[m1 off1]|]; [|done]. cbn [mbind option_bind].
    by destruct (put_byte m1 buffer off1 _) as [[??]|].
  - apply (emits_tagged 0x80 (be_bytes 4 n) 4); [by rewrite zlen_be_bytes|lia|]. intros m buffer size off.
    unfold encode_length_up_to_uint32b, encode_length_required_buffer_space.
    destruct (Z.ltb_spec (2 ^ 32 - 1) n), (Z.leb_spec n 63), (Z.leb_spec n 16383), (Z.leb_spec n (2 ^ 32 - 1)); try lia.
    by rewrite (wrap_small 32 n) by lia.
  - apply (emits_tagged 0x81 (be_bytes 8 n) 8); [by rewrite zlen_be_bytes|lia|]. intros m buffer size off.
    unfold encode_length_up_to_uint64b, encode_length_required_buffer_space.
    by destruct (Z.leb_spec n 63), (Z.leb_spec n 16383), (Z.leb_spec n (2 ^ 32 - 1)); try lia.
Qed.

Lemma land_ff n : Z.land n 0xFF = n `mod` 256.
Proof. apply (land_pow2_mask n 8). lia. Qed.

Lemma shiftr_land_ff n k : 0 <= k -> Z.land (Z.shiftr n k) 0xFF = (n / 2 ^ k) `mod` 256.
Proof. intros Hk. rewrite land_ff. by rewrite Z.shiftr_div_pow2 by lia. Qed.

(** Binds of stores, one after the other. *)
Ltac put_steps :=
  repeat (match goal with
    | |- context [put_byte ?m ?b ?o ?x] => destruct (put_byte m b o x) as [[? ?]|]; [|done]
    end; cbn [mbind option_bind]); try done.

Ltac int_bytes_steps :=
  cbn [andb]; rewrite ?shiftr_land_ff, ?land_ff by lia; cbn [le_bytes put_bytes];
  rewrite ?Z.div_div by lia; change (256 * 256) with (2 ^ 16); change (256 * 2 ^ 16) with (2 ^ 24);
  change 256 with (2 ^ 8);
  match goal with |- context [?s <? u64 (?o + ?k)] => destruct (s <? u64 (o + k)) end;
  try done; change (Z.lor 0xC0 0x00) with 0xC0; change (Z.lor 0xC0 0x01) with 0xC1;
  change (Z.lor 0xC0 0x02) with 0xC2; put_steps.

Lemma emits_int n : - 2 ^ 31 <= n < 2 ^ 31 -> emits (encode_small_string_int n) (int_bytes n).
Proof.
  intros Hn. unfold int_bytes.
  destruct ((- 2 ^ 7 <=? n) && (n <=? 2 ^ 7 - 1)) eqn:H7.
  - apply (emits_bytes _ 2); [done|lia|]. intros m buffer size off. unfold encode_small_string_int.
    rewrite H7. int_bytes_steps.
  - destruct ((- 2 ^ 15 <=? n) && (n <=? 2 ^ 15 - 1)) eqn:H15.
    + apply (emits_bytes _ 3); [done|lia|]. intros m buffer size off. unfold encode_small_string_int.
      rewrite H7, H15. int_bytes_steps.
    + apply (emits_bytes _ 5); [done|lia|]. intros m buffer size off. unfold encode_small_string_int.
      rewrite H7, H15. destruct (Z.leb_spec (- 2 ^ 31) n), (Z.leb_spec n (2 ^ 31 - 1)); try lia.
      int_bytes_steps.
Qed.

(** One encoder after another. *)
Definition then_enc (e1 e2 : encoder) : encoder := fun m buffer size off =>
  '(r, m, off) ← e1 m buffer size off;
  if negb (bool_decide (r = RESULT_OK)) then Some (r, m, off) else e2 m buffer size off.

Lemma emits_then e1 e2 b1 b2 : emits e1 b1 -> emits e2 b2 -> emits (then_enc e1 e2) (b1 ++ b2).
Proof.
  intros H1 H2 m buffer size off Hb Ho Hs Hm Hfit. rewrite zlen_app in *.
  pose proof (zlen_nonneg b1). pose proof (zlen_nonneg b2).
  unfold then_enc. rewrite H1 by lia. cbn [mbind option_bind].
  rewrite bool_decide_eq_true_2 by done. cbn [negb].
  rewrite H2 by (rewrite ?splice_length; lia).
  replace (buffer + (off + zlen b1)) with (buffer + off + zlen b1) by lia.
  rewrite splice_app by lia. do 2 f_equal. lia.
Qed.

Lemma emits_ext e1 e2 bs :
  (forall m buffer size off, e1 m buffer size off = e2 m buffer size off) -> emits e2 bs -> emits e1 bs.
Proof. intros He H2 m buffer size off. intros. rewrite He. by apply H2. Qed.

Lemma emits_data s : zlen s < 2 ^ 63 -> emits (encode_string_data_plain s (zlen s)) s.
Proof.
  intros Hl m buffer size off Hb Ho Hs Hm Hfit. pose proof (zlen_nonneg s).
  unfold encode_string_data_plain, copy_bytes. overflow_guard.
  destruct (Z.ltb_spec (zlen s) (zlen s)); [lia|]. rewrite take_ge by (unfold zlen; lia).
  by rewrite memcpy_splice by lia.
Qed.

Lemma emits_plain s : zlen s < 2 ^ 63 -> emits (encode_plain s (zlen s)) (plain_bytes s).
Proof.
  intros Hl. pose proof (zlen_nonneg s).
  apply (emits_ext _ (then_enc (encode_length (zlen s)) (encode_string_data_plain s (zlen s)))); [done|].
  apply emits_then; [apply emits_length; mach_lia|by apply emits_data].
Qed.

Lemma length_bytes_pos n : 1 <= zlen (length_bytes n) <= 9.
Proof.
  unfold length_bytes. repeat case_match; rewrite ?zlen_cons, ?zlen_be_bytes; change (zlen (@nil Z)) with 0; lia.
Qed.

Lemma required_space n : zlen (length_bytes n) = encode_length_required_buffer_space n.
Proof.
  unfold length_bytes, encode_length_required_buffer_space.
  repeat case_match; rewrite ?zlen_cons, ?zlen_be_bytes; change (zlen (@nil Z)) with 0; lia.
Qed.

Lemma emits_key s : 0 < zlen s < 2 ^ 63 -> emits (encode_key s (zlen s)) (plain_bytes s).
Proof.
  intros Hl m buffer size off Hb Ho Hs Hm Hfit.
  pose proof (length_bytes_pos (zlen s)). unfold plain_bytes in *. rewrite zlen_app in *.
  unfold encode_key. destruct (Z.eqb_spec (zlen s) 0); [lia|]. rewrite <- required_space.
  rewrite (wrap_small 64 (zlen (length_bytes (zlen s)) + zlen s)) by mach_lia. overflow_guard.
  rewrite (emits_length (zlen s) ltac:(mach_lia)) by lia. cbn [mbind option_bind].
  rewrite bool_decide_eq_true_2 by done. cbn [negb]. unfold copy_bytes.
  destruct (Z.ltb_spec (zlen s) (zlen s)); [lia|]. rewrite take_ge by (unfold zlen; lia).
  rewrite memcpy_splice by (rewrite ?splice_length; lia). cbn [mbind option_bind].
  replace (buffer + (off + zlen (length_bytes (zlen s)))) with (buffer + off + zlen (length_bytes (zlen s))) by lia.
  rewrite splice_app by lia. do 2 f_equal. lia.
Qed.

Definition header_bytes (version : Z) : list Z := bytes_of "REDIS" ++ digits 4 version.

Lemma emits_header version : emits (encode_header version) (header_bytes version).
Proof.
  intros m buffer size off Hb Ho Hs Hm Hfit. unfold header_bytes in *. rewrite zlen_app in *.
  assert (zlen (digits 4 version) = 4) as Hd by (unfold zlen; by rewrite digits_length).
  change (zlen (bytes_of "REDIS")) with 5 in *. rewrite Hd in *. unfold encode_header. overflow_guard.
  rewrite memcpy_splice by (change (zlen (bytes_of "REDIS")) with 5; lia). cbn [mbind option_bind].
  rewrite memcpy_splice by (rewrite ?splice_length; change (zlen (bytes_of "REDIS")) with 5; lia).
  cbn [mbind option_bind]. replace (buffer + (off + 5)) with (buffer + off + zlen (bytes_of "REDIS"))
    by (change (zlen (bytes_of "REDIS")) with 5; lia).
  rewrite splice_app by (change (zlen (bytes_of "REDIS")) with 5; lia). do 2 f_equal. lia.
Qed.

Lemma emits_db_number n :
  0 <= n < 2 ^ 64 -> emits (encode_opcode_db_number n) (OPCODE_DB_NUMBER :: length_bytes n).
Proof.
  intros Hn m buffer size off Hb Ho Hs Hm Hfit. pose proof (length_bytes_pos n). rewrite zlen_cons in *.
  unfold encode_opcode_db_number. overflow_guard.
  rewrite put_byte_splice by lia. cbn [mbind option_bind].
  rewrite (emits_length n Hn) by (rewrite ?splice_length; rewrite ?zlen1; lia).
  rewrite put_byte_then by lia. do 2 f_equal. lia.
Qed.

Lemma emits_expire_s t : emits (encode_opcode_expire_time_s t) (OPCODE_EXPIRE_TIME :: le_bytes 4 t).
Proof. by apply (emits_tagged _ _ 4); [rewrite zlen_le_bytes|lia|]. Qed.

Lemma emits_eof c : emits (encode_opcode_eof c) (OPCODE_EOF :: le_bytes 8 c).
Proof. by apply (emits_tagged _ _ 8); [rewrite zlen_le_bytes|lia|]. Qed.

Lemma emits_expire_ms t : emits (encode_opcode_expire_time_ms t) (OPCODE_EXPIRE_TIME_MS :: le_bytes 8 t).
Proof.
  intros m buffer size off Hb Ho Hs Hm Hfit. rewrite zlen_cons, zlen_le_bytes in *.
  unfold encode_opcode_expire_time_ms. overflow_guard.
  rewrite put_byte_splice by lia. cbn [mbind option_bind].
  rewrite memcpy_splice by (rewrite ?splice_length; rewrite ?zlen_le_bytes, ?zlen1; lia).
  cbn [mbind option_bind]. rewrite put_byte_then by (rewrite ?zlen_le_bytes; lia). do 2 f_equal. lia.
Qed.

Lemma emits_value_type : emits (encode_opcode_value_type VALUE_TYPE_STRING) [VALUE_TYPE_STRING].
Proof.
  apply (emits_bytes _ 1); [done|lia|]. intros m buffer size off. unfold encode_opcode_value_type.
  change (is_value_type_valid VALUE_TYPE_STRING) with true.
  change (is_value_type_supported VALUE_TYPE_STRING) with true. cbn [negb put_bytes].
  destruct (size <? _); [done|]. put_steps.
Qed.

(** ** Reading back *)

Lemma load_read_app bs rest n : n = zlen bs -> load_read (bs ++ rest) n = Some (bs, rest).
Proof.
  intros ->. unfold load_read. rewrite zlen_app. pose proof (zlen_nonneg bs). pose proof (zlen_nonneg rest).
  destruct (Z.ltb_spec (zlen bs) 0), (Z.ltb_spec (zlen bs + zlen rest) (zlen bs)); try lia. cbn [orb].
  unfold zlen. by rewrite Nat2Z.id, take_app_length, drop_app_length.
Qed.

Lemma read_byte_cons b rest : read_byte (b :: rest) = Some (b, rest).
Proof. unfold read_byte. change (b :: rest) with ([b] ++ rest). by rewrite load_read_app. Qed.

(** The first byte tells the kind of the length. *)
Lemma tag_small n : 0 <= n <= 63 -> Z.land n 0xC0 = 0 /\ Z.land n 0x3F = n.
Proof.
  intros Hn. pose proof (byte_facts (fun x => (63 <? x) || ((Z.land x 0xC0 =? 0) && (Z.land x 0x3F =? x))) n
    ltac:(vm_compute; reflexivity) ltac:(lia)) as Hf. cbn beta in Hf. lia.
Qed.

Lemma tag_medium x : 0 <= x <= 63 -> Z.land (64 + x) 0xC0 = 0x40 /\ Z.land (64 + x) 0x3F = x.
Proof.
  intros Hn. pose proof (byte_facts (fun x => (63 <? x) ||
    ((Z.land (64 + x) 0xC0 =? 0x40) && (Z.land (64 + x) 0x3F =? x))) x
    ltac:(vm_compute; reflexivity) ltac:(lia)) as Hf. cbn beta in Hf. lia.
Qed.

Lemma read_length_bytes n rest :
  0 <= n < 2 ^ 64 -> load_read_length_encoded_int (length_bytes n ++ rest) = Some (n, rest).
Proof.
  intros Hn. unfold load_read_length_encoded_int, length_bytes.
  destruct (Z.leb_spec n 63); [|destruct (Z.leb_spec n 16383); [|destruct (Z.leb_spec n (2 ^ 32 - 1))]];
    cbn [app]; rewrite read_byte_cons; cbn [mbind option_bind].
  - destruct (tag_small n ltac:(lia)) as [-> ->]. done.
  - assert (0 <= n / 256 <= 63).
    { split; [apply Z.div_pos; lia|]. assert (n / 256 < 64); [|lia]. apply Z.div_lt_upper_bound; lia. }
    destruct (tag_medium (n / 256) ltac:(lia)) as [-> ->]. cbn [Z.eqb Pos.eqb].
    rewrite read_byte_cons. cbn [mbind option_bind].
    rewrite lor_shift_byte by (apply Z.mod_pos_bound; lia). do 2 f_equal.
    rewrite (Z.div_mod n 256) at 3 by lia. lia.
  - change (Z.land 128 0xC0) with 0x80. change (Z.land 128 0x01) with 0. cbn [Z.eqb Pos.eqb andb].
    rewrite (load_read_app (be_bytes 4 n) rest 4) by (by rewrite zlen_be_bytes). cbn [mbind option_bind].
    rewrite be_value_bytes, Z.mod_small by (change (256 ^ Z.of_nat 4) with (2 ^ 32); lia). done.
  - change (Z.land 129 0xC0) with 0x80. change (Z.land 129 0x01) with 1. cbn [Z.eqb Pos.eqb andb].
    rewrite (load_read_app (be_bytes 8 n) rest 8) by (by rewrite zlen_be_bytes). cbn [mbind option_bind].
    rewrite be_value_bytes, Z.mod_small by (change (256 ^ Z.of_nat 8) with (2 ^ 64); lia). done.
Qed.

Section reading.
Context (lzf_decompress : list Z -> Z -> list Z).

Lemma read_plain_bytes s rest :
  zlen s < 2 ^ 64 -> load_read_string lzf_decompress (plain_bytes s ++ rest) = Some (s, rest).
Proof.
  intros Hs. pose proof (zlen_nonneg s). unfold plain_bytes, load_read_string, length_bytes.
  rewrite <- app_assoc.
  destruct (Z.leb_spec (zlen s) 63); [|destruct (Z.leb_spec (zlen s) 16383);
    [|destruct (Z.leb_spec (zlen s) (2 ^ 32 - 1))]]; cbn [app]; rewrite read_byte_cons; cbn [mbind option_bind].
  - destruct (tag_small (zlen s) ltac:(lia)) as [-> ->]. by apply load_read_app.
  - assert (0 <= zlen s / 256 <= 63).
    { split; [apply Z.div_pos; lia|]. assert (zlen s / 256 < 64); [|lia]. apply Z.div_lt_upper_bound; lia. }
    destruct (tag_medium (zlen s / 256) ltac:(lia)) as [-> ->]. cbn [Z.eqb Pos.eqb].
    rewrite read_byte_cons. cbn [mbind option_bind].
    rewrite lor_shift_byte by (apply Z.mod_pos_bound; lia).
    rewrite <- Z.div_mod by lia. by apply load_read_app.
  - change (Z.land 128 0xC0) with 0x80. change (Z.land 128 0x01) with 0. cbn [Z.eqb Pos.eqb andb].
    rewrite (load_read_app (be_bytes 4 _) _ 4) by (by rewrite zlen_be_bytes). cbn [mbind option_bind].
    rewrite be_value_bytes, Z.mod_small by (change (256 ^ Z.of_nat 4) with (2 ^ 32); lia).
    by apply load_read_app.
  - change (Z.land 129 0xC0) with 0x80. change (Z.land 129 0x01) with 1. cbn [Z.eqb Pos.eqb andb].
    rewrite (load_read_app (be_bytes 8 _) _ 8) by (by rewrite zlen_be_bytes). cbn [mbind option_bind].
    rewrite be_value_bytes, Z.mod_small by (change (256 ^ Z.of_nat 8) with (2 ^ 64); lia).
    by apply load_read_app.
Qed.

Lemma read_int_bytes n rest :
  - 2 ^ 31 <= n < 2 ^ 31 ->
  load_read_string lzf_decompress (int_bytes n ++ rest) = Some (dec_signed n, rest).
Proof.
  intros Hn. unfold int_bytes, load_read_string.
  destruct ((- 2 ^ 7 <=? n) && (n <=? 2 ^ 7 - 1)) eqn:H7;
    [|destruct ((- 2 ^ 15 <=? n) && (n <=? 2 ^ 15 - 1)) eqn:H15];
    rewrite <- app_comm_cons, read_byte_cons; cbn [mbind option_bind].
  - change (Z.land 0xC0 0xC0) with 0xC0. change (Z.land 0xC0 0x3F) with 0. cbn [Z.eqb Pos.eqb andb].
    unfold read_encoded_string. cbn [Z.eqb Pos.eqb].
    rewrite (load_read_app (le_bytes 1 n) rest 1) by (by rewrite zlen_le_bytes). cbn [mbind option_bind].
    by rewrite swrap_le_value by mach_lia.
  - change (Z.land 0xC1 0xC0) with 0xC0. change (Z.land 0xC1 0x3F) with 1. cbn [Z.eqb Pos.eqb andb].
    unfold read_encoded_string. cbn [Z.eqb Pos.eqb].
    rewrite (load_read_app (le_bytes 2 n) rest 2) by (by rewrite zlen_le_bytes). cbn [mbind option_bind].
    by rewrite swrap_le_value by mach_lia.
  - change (Z.land 0xC2 0xC0) with 0xC0. change (Z.land 0xC2 0x3F) with 2. cbn [Z.eqb Pos.eqb andb].
    unfold read_encoded_string. cbn [Z.eqb Pos.eqb].
    rewrite (load_read_app (le_bytes 4 n) rest 4) by (by rewrite zlen_le_bytes). cbn [mbind option_bind].
    by rewrite swrap_le_value by mach_lia.
Qed.

End reading.

(** ** Strings that stand for integers *)

Lemma skip_spaces_nul s :
  exists t, skip_spaces (s ++ [0]) = Some (t ++ [0]) /\ (length t <= length s)%nat.
Proof.
  induction s as [|c s IH]; [by exists []|]. cbn [app skip_spaces].
  destruct (is_space c); [|by exists (c :: s)].
  destruct IH as (t & -> & Hl). exists t. split; [done|]. cbn. lia.
Qed.

Lemma strtol_digits_nul t acc :
  exists v u, strtol_digits (t ++ [0]) acc = Some (v, u ++ [0]) /\ (length u <= length t)%nat.
Proof.
  revert acc. induction t as [|c t IH]; intros acc; [by exists acc, []|].
  cbn [app strtol_digits]. destruct (is_digit c); [|by exists acc, (c :: t)].
  destruct (IH (acc * 10 + (c - 48))) as (v & u & -> & Hl). exists v, u. split; [done|]. cbn. lia.
Qed.

(** On a NUL-terminated string the conversions never read past the NUL. *)
Ltac strto_total s :=
  destruct (skip_spaces_nul s) as (t & -> & Ht); cbn [mbind option_bind];
  destruct t as [|c t]; [exists 0, 0; split; [done|]; pose proof (zlen_nonneg s); lia|];
  cbn [app head mbind option_bind tail];
  destruct (Z.eqb_spec c 45); [|destruct (Z.eqb_spec c 43)];
  [destruct t as [|c2 t]; [exists 0, 0; split; [done|]; pose proof (zlen_nonneg s); lia|]
  |destruct t as [|c2 t]; [exists 0, 0; split; [done|]; pose proof (zlen_nonneg s); lia|] |];
  cbn [app head mbind option_bind];
  (match goal with |- context [is_digit ?d] => destruct (is_digit d) end;
   [|eexists 0, 0; split; [done|]; pose proof (zlen_nonneg s); lia]);
  match goal with |- context [strtol_digits ?l 0] =>
    match l with ?d :: ?l' ++ [0] =>
      destruct (strtol_digits_nul (d :: l') 0) as (v & u & Hv & Hu); cbn [app] in Hv; rewrite Hv end end;
  cbn [mbind option_bind]; eexists _, _; (split; [reflexivity|]);
  unfold zlen; rewrite !length_app; cbn [length] in *; lia.

Lemma strtol_nul s : exists v e, strtol (s ++ [0]) = Some (v, e) /\ 0 <= e <= zlen s.
Proof. unfold strtol. strto_total s. Qed.

Lemma strtoull_nul s : exists v e, strtoull (s ++ [0]) = Some (v, e) /\ 0 <= e <= zlen s.
Proof. unfold strtoull. strto_total s. Qed.

Lemma zget_dup s e : 0 <= e <= zlen s -> is_Some (zget (s ++ [0]) e).
Proof. intros He. destruct (zget_in_range (s ++ [0]) e) as [x Hx]; [rewrite zlen_app, zlen1; lia|]. by exists x. Qed.

(** The code decides every string, and an integer it accepts has 32 bits. *)
Lemma can_encode_total s :
  exists b n, can_encode_string_int s (zlen s) = Some (b, n) /\ (b = true -> - 2 ^ 31 <= n < 2 ^ 31).
Proof.
  unfold can_encode_string_int. destruct (Z.ltb_spec (zlen s) (zlen s)); [lia|].
  rewrite take_ge by (unfold zlen; lia).
  destruct (head (s ++ [0])) as [c|] eqn:Hc; [|by destruct s]. cbn [mbind option_bind].
  destruct (strtol_nul s) as (v & e & Hv & He). destruct (strtoull_nul s) as (w & e' & Hw & He').
  destruct (c =? 45).
  - rewrite Hv. cbn [mbind option_bind negb]. destruct (zget_dup s e He) as [x ->]. cbn [mbind option_bind].
    destruct ((e =? 0) || negb (x =? 0)); [by exists false, v|].
    destruct (Z.ltb_spec v (- 2 ^ 31)), (Z.ltb_spec (2 ^ 31 - 1) v); cbn [orb]; eexists _, _; (split; [done|]); try done.
    intros _. lia.
  - rewrite Hw. cbn [mbind option_bind]. destruct (negb (u64 (i64 w) <? w)); cbn [negb]; [|by eexists false, _].
    destruct (zget_dup s e' He') as [x ->]. cbn [mbind option_bind].
    destruct ((e' =? 0) || negb (x =? 0)); [by eexists false, _|].
    destruct (Z.ltb_spec (i64 w) (- 2 ^ 31)), (Z.ltb_spec (2 ^ 31 - 1) (i64 w)); cbn [orb];
      eexists _, _; (split; [done|]); try done. intros _. lia.
Qed.

(** The decimal rendering of a number, followed by a NUL. *)
Lemma dec_head n :
  0 <= n < 2 ^ 64 -> exists x l, dec n = x :: l /\ is_digit x = true /\ is_space x = false /\ x <> 45 /\ x <> 43.
Proof.
  intros Hn. pose proof (dec_digits n) as Hall. pose proof (dec_length_pos n Hn) as Hlen.
  destruct (dec n) as [|x l]; [done|]. apply Forall_cons in Hall as [Hx _]. exists x, l.
  split; [done|]. split; [done|]. unfold is_digit, is_space in *. lia.
Qed.

Lemma strtol_digits_dec n acc :
  0 <= n < 2 ^ 64 -> acc = 0 -> strtol_digits (dec n ++ [0]) acc = Some (n, [0]).
Proof.
  intros Hn ->. destruct (ndigits_spec n Hn) as (_ & Hd & _). unfold dec.
  rewrite strtol_digits_digits by lia. cbn [strtol_digits]. change (is_digit 0) with false. cbv iota.
  by rewrite Z.mul_0_l, Z.add_0_l.
Qed.

Lemma strtoull_dec n : 0 <= n < 2 ^ 64 -> strtoull (dec n ++ [0]) = Some (n, zlen (dec n)).
Proof.
  intros Hn. pose proof (strtol_digits_dec n 0 Hn eq_refl) as Hd.
  destruct (dec_head n Hn) as (x & l & Heq & Hx & Hsp & H45 & H43). unfold strtoull.
  rewrite Heq in *. cbn [app skip_spaces] in *. rewrite Hsp. cbn [mbind option_bind head].
  destruct (Z.eqb_spec x 45), (Z.eqb_spec x 43); try done. cbn [head mbind option_bind]. rewrite Hx, Hd.
  cbn [mbind option_bind]. destruct (Z.leb_spec (2 ^ 64) n); [lia|]. do 2 f_equal.
  rewrite app_comm_cons, zlen_app, zlen1. lia.
Qed.

Lemma strtol_neg_dec n : 0 <= n <= 2 ^ 63 -> strtol (45 :: dec n ++ [0]) = Some (- n, 1 + zlen (dec n)).
Proof.
  intros Hn. pose proof (strtol_digits_dec n 0 ltac:(mach_lia) eq_refl) as Hd.
  destruct (dec_head n ltac:(mach_lia)) as (x & l & Heq & Hx & _). unfold strtol.
  cbn [skip_spaces]. change (is_space 45) with false. cbn [mbind option_bind head]. cbn [Z.eqb Pos.eqb tail].
  rewrite Heq in *. cbn [app head mbind option_bind] in *. rewrite Hx, Hd. cbn [mbind option_bind].
  do 2 f_equal; [unfold clamp_long; lia|].
  rewrite !zlen_cons, zlen_app, ?zlen_cons. change (zlen (@nil Z)) with 0. lia.
Qed.

Lemma zget_end s : zget (s ++ [0]) (zlen s) = Some 0.
Proof.
  unfold zget, zlen. destruct (Z.ltb_spec (Z.of_nat (length s)) 0); [lia|].
  rewrite Nat2Z.id, lookup_app_r, Nat.sub_diag by lia. done.
Qed.

(** The canonical rendering of a 32-bit integer is taken for that integer. *)
Lemma can_encode_dec n :
  - 2 ^ 31 <= n < 2 ^ 31 ->
  can_encode_string_int (dec_signed n) (zlen (dec_signed n)) = Some (true, n).
Proof.
  intros Hn. unfold can_encode_string_int. destruct (Z.ltb_spec (zlen (dec_signed n)) (zlen (dec_signed n))); [lia|].
  rewrite take_ge by (unfold zlen; lia). unfold dec_signed. destruct (Z.ltb_spec n 0).
  - pose proof (dec_length_pos (- n) ltac:(mach_lia)).
    cbn [app head mbind option_bind]. cbn [Z.eqb Pos.eqb]. rewrite strtol_neg_dec by mach_lia.
    cbn [mbind option_bind negb]. rewrite <- (zlen_cons 45 (dec (- n))), app_comm_cons, zget_end, zlen_cons.
    cbn [mbind option_bind].
    destruct (Z.eqb_spec (1 + zlen (dec (- n))) 0), (Z.ltb_spec (- - n) (- 2 ^ 31)), (Z.ltb_spec (2 ^ 31 - 1) (- - n));
      try lia. cbn. by rewrite Z.opp_involutive.
  - pose proof (dec_length_pos n ltac:(mach_lia)).
    destruct (dec_head n ltac:(mach_lia)) as (x & l & Heq & Hx & _ & H45 & _).
    replace (head (dec n ++ [0])) with (Some x) by (by rewrite Heq). cbn [mbind option_bind].
    destruct (Z.eqb_spec x 45); [done|]. rewrite strtoull_dec by mach_lia. cbn [mbind option_bind].
    rewrite (swrap_small 64 n), (wrap_small 64 n) by mach_lia. destruct (Z.ltb_spec n n); [lia|]. cbn [negb].
    rewrite zget_end. cbn [mbind option_bind].
    destruct (Z.eqb_spec (zlen (dec n)) 0), (Z.ltb_spec n (- 2 ^ 31)), (Z.ltb_spec (2 ^ 31 - 1) n); try lia. done.
Qed.

(** What the loader gets for a saved string. *)
Definition saved_form (s : list Z) : list Z :=
  match can_encode_string_int s (zlen s) with
  | Some (true, n) => dec_signed n
  | _ => s
  end.

Lemma saved_form_dec n : - 2 ^ 31 <= n < 2 ^ 31 -> saved_form (dec_signed n) = dec_signed n.
Proof. intros Hn. unfold saved_form. by rewrite can_encode_dec. Qed.

Lemma saved_form_not_int s n : can_encode_string_int s (zlen s) = Some (false, n) -> saved_form s = s.
Proof. intros Hc. unfold saved_form. by rewrite Hc. Qed.

(** A string the snapshot code takes for an integer is saved as that
    integer even when it is not the integer's decimal form, so that the loader
    gives back a different string: 2^64 - 1 comes back as -1 (the range check
    compares a signed with an unsigned integer), leading zeros, a sign or blanks are
    lost, and so is what follows a NUL byte. *)
Theorem rdb_integer_like_strings_altered :
  saved_form (bytes_of "18446744073709551615") = bytes_of "-1" /\
  saved_form (bytes_of "007") = bytes_of "7" /\
  saved_form (bytes_of " +5") = bytes_of "5" /\
  saved_form (bytes_of "5" ++ [0; 65]) = bytes_of "5".
Proof. vm_compute. split_and!; reflexivity. Qed.

(** The check of the opcode of a time in milliseconds asks for 8 bytes and
    the encoder stores 9: with exactly 8 bytes left at the end of the memory it
    writes past it. *)
Theorem rdb_expire_time_ms_overruns (t : Z) (m : mem) (buffer size off : Z) :
  0 <= buffer -> 0 <= off -> size < 2 ^ 63 -> off + 8 = size -> buffer + size = zlen m ->
  encode_opcode_expire_time_ms t m buffer size off = None.
Proof.
  intros Hb Ho Hs He Hm. unfold encode_opcode_expire_time_ms.
  overflow_guard. rewrite put_byte_splice by lia. cbn [mbind option_bind].
  unfold memcpy. rewrite splice_length by (rewrite ?zlen1; lia). rewrite zlen_le_bytes.
  destruct (Z.leb_spec (buffer + (off + 1) + Z.of_nat 8) (zlen m)); [lia|]. by rewrite andb_false_r.
Qed.

(** An expiry in seconds is converted to milliseconds in a 32-bit
    integer: the loader keeps the product modulo 2^32, so a time later than
    4294967 seconds after the epoch (February 1970) is loaded as another one. *)
Theorem rdb_expire_seconds_truncated (start t : Z) (st : load_state) (rest : list Z) :
  0 <= t < 2 ^ 32 ->
  exists st', load_process_opcode_expire_time start st OPCODE_EXPIRE_TIME (le_bytes 4 t ++ rest)
    = Some ((t * 1000) `mod` 2 ^ 32, st', rest).
Proof.
  intros Ht. unfold load_process_opcode_expire_time.
  change (OPCODE_EXPIRE_TIME =? OPCODE_EXPIRE_TIME_MS) with false. rewrite Z.eqb_refl.
  rewrite (load_read_app (le_bytes 4 t) rest 4) by (by rewrite zlen_le_bytes). cbn [mbind option_bind].
  rewrite le_value_bytes, (Z.mod_small t) by (change (256 ^ Z.of_nat 4) with (2 ^ 32); lia). by eexists.
Qed.

Lemma rdb_expire_seconds_truncated_witness :
  exists st', load_process_opcode_expire_time 0 (LoadState 0 0 0 0 []) OPCODE_EXPIRE_TIME
      (le_bytes 4 1700000000 ++ [9]) = Some (3487918080, st', [9]).
Proof. apply (rdb_expire_seconds_truncated 0 1700000000 (LoadState 0 0 0 0 []) [9]). lia. Defined.

Lemma rdb_expire_time_ms_overruns_witness :
  encode_opcode_expire_time_ms 1700000000000 (repeat 0 8) 0 8 0 = None.
Proof. apply (rdb_expire_time_ms_overruns 1700000000000 (repeat 0 8) 0 8 0); try lia; reflexivity. Defined.

(** ** Strings, compressed or not *)

Lemma emits_length32 n : 0 <= n < 2 ^ 32 -> emits (encode_length_up_to_uint32b n) (0x80 :: be_bytes 4 n).
Proof.
  intros Hn m buffer size off Hb Ho Hs Hm Hfit. rewrite zlen_cons, zlen_be_bytes in *.
  unfold encode_length_up_to_uint32b. destruct (Z.ltb_spec (2 ^ 32 - 1) n); [lia|].
  assert (encode_length_required_buffer_space n <= 5) as Hr.
  { unfold encode_length_required_buffer_space. repeat zcase; lia. }
  assert (1 <= encode_length_required_buffer_space n) as Hr1.
  { unfold encode_length_required_buffer_space. repeat zcase; lia. }
  overflow_guard. rewrite put_byte_splice by lia. cbn [mbind option_bind].
  rewrite (wrap_small 32 n) by lia.
  rewrite memcpy_splice by (rewrite ?splice_length; rewrite ?zlen_be_bytes, ?zlen1; lia).
  cbn [mbind option_bind]. rewrite put_byte_then by (rewrite ?zlen_be_bytes; lia). do 2 f_equal. lia.
Qed.

Lemma read_length32 n rest :
  0 <= n < 2 ^ 32 -> load_read_length_encoded_int (0x80 :: be_bytes 4 n ++ rest) = Some (n, rest).
Proof.
  intros Hn. unfold load_read_length_encoded_int. rewrite read_byte_cons. cbn [mbind option_bind].
  change (Z.land 128 0xC0) with 0x80. change (Z.land 128 0x01) with 0. cbn [Z.eqb Pos.eqb andb].
  rewrite (load_read_app (be_bytes 4 n) rest 4) by (by rewrite zlen_be_bytes). cbn [mbind option_bind].
  rewrite be_value_bytes, Z.mod_small by (change (256 ^ Z.of_nat 4) with (2 ^ 32); lia). done.
Qed.

Definition lzf_bytes (len : Z) (c : list Z) : list Z :=
  0xC3 :: (0x80 :: be_bytes 4 (zlen c)) ++ (0x80 :: be_bytes 4 len) ++ c.

Lemma zlen_lzf_bytes len c : zlen (lzf_bytes len c) = 11 + zlen c.
Proof. unfold lzf_bytes. unfold zlen. cbn [length app]. rewrite !length_app. cbn [length]. rewrite !length_app, !be_bytes_length. lia. Qed.

Lemma lzf_max_bound n : 0 <= n < 65536 -> n <= LZF_MAX_COMPRESSED_SIZE n < 2 ^ 32.
Proof.
  intros Hn. unfold LZF_MAX_COMPRESSED_SIZE. rewrite (wrap_small 64 (n * 33)) by mach_lia.
  rewrite Z.shiftr_div_pow2 by lia. change (2 ^ 5) with 32.
  assert (n <= n * 33 / 32 <= n * 33).
  { split; [apply Z.div_le_lower_bound; lia|]. apply Z.div_le_upper_bound; lia. }
  rewrite wrap_small; mach_lia.
Qed.

Section lzf.
Context (lzf_compress : list Z -> Z -> list Z * bool) (lzf_decompress : list Z -> Z -> list Z).

(** The output stays in the capacity; LZF_MAX_COMPRESSED_SIZE bytes are enough
    for any input; decompressing gives the input back. *)
Hypothesis compress_bound : forall s cap, 0 <= cap -> zlen (fst (lzf_compress s cap)) <= cap.
Hypothesis compress_room : forall s cap, 0 < zlen s < 65536 -> LZF_MAX_COMPRESSED_SIZE (zlen s) <= cap ->
  snd (lzf_compress s cap) = true /\ fst (lzf_compress s cap) <> [].
Hypothesis decompress_compress : forall s cap c,
  lzf_compress s cap = (c, true) -> lzf_decompress c (zlen s) = s.

Lemma read_lzf_bytes s cap c rest :
  0 < zlen s < 65536 -> lzf_compress s cap = (c, true) -> zlen c < 2 ^ 32 ->
  load_read_string lzf_decompress (lzf_bytes (zlen s) c ++ rest) = Some (s, rest).
Proof using decompress_compress.
  intros Hs Hc Hcl. unfold load_read_string, lzf_bytes. pose proof (zlen_nonneg c).
  rewrite <- app_comm_cons, read_byte_cons. cbn [mbind option_bind].
  change (Z.land 0xC3 0xC0) with 0xC0. change (Z.land 0xC3 0x3F) with 3. cbn [Z.eqb Pos.eqb andb].
  unfold read_encoded_string. cbn [Z.eqb Pos.eqb].
  rewrite <- !app_assoc, <- !app_comm_cons. rewrite read_length32 by lia. cbn [mbind option_bind].
  rewrite read_length32 by lia. cbn [mbind option_bind].
  rewrite load_read_app by done. cbn [mbind option_bind]. rewrite (decompress_compress s cap c) by done.
  destruct (Z.eqb_spec (zlen s) 0); [lia|]. by rewrite Z.eqb_refl.
Qed.

(** The compressed form: the code in front of the data was checked for. *)
Lemma encode_lzf_spec s m buffer size off :
  32 < zlen s < 65536 -> 0 <= buffer -> 0 <= off -> size < 2 ^ 63 -> buffer + size <= zlen m ->
  off + 11 + LZF_MAX_COMPRESSED_SIZE (zlen s) <= size ->
  exists c cap m', lzf_compress s cap = (c, true) /\ zlen c <= size - off - 11 /\
    zlen m' = zlen m /\ take (Z.to_nat (buffer + off)) m' = take (Z.to_nat (buffer + off)) m /\
    encode_small_string_lzf lzf_compress s (zlen s) m buffer size off =
      if zlen s <? zlen c then Some (RESULT_COMPRESSION_RATIO_TOO_LOW, m', off)
      else Some (RESULT_OK, splice m (buffer + off) (lzf_bytes (zlen s) c), off + zlen (lzf_bytes (zlen s) c)).
Proof using compress_bound compress_room.
  intros Hs Hb Ho Hsz Hm Hfit. pose proof (lzf_max_bound (zlen s) ltac:(lia)) as Hmax.
  set (cap := size - off - 11). assert (0 <= cap) by lia.
  destruct (compress_room s cap) as [Hok Hne]; [lia|lia|].
  pose proof (compress_bound s cap ltac:(lia)) as Hbd.
  destruct (lzf_compress s cap) as [c b] eqn:Hc. cbn [fst snd] in *. subst b.
  pose proof (zlen_nonneg c). assert (zlen c <> 0) by (destruct c; [done|rewrite zlen_cons; pose proof (zlen_nonneg c); lia]).
  set (m1 := splice m (buffer + off + 11) c).
  assert (zlen m1 = zlen m) as Hm1 by (unfold m1; rewrite splice_length; lia).
  exists c, cap, m1. split; [done|]. split; [lia|]. split; [done|].
  split; [unfold m1; apply splice_prefix; lia|].
  unfold encode_small_string_lzf. destruct (Z.leb_spec 65536 (zlen s)); [lia|].
  change (1 + 5 + 5) with 11. rewrite (wrap_small 64 (off + (11 + _))) by mach_lia.
  destruct (Z.ltb_spec size (off + (11 + LZF_MAX_COMPRESSED_SIZE (zlen s)))); [lia|].
  destruct (Z.ltb_spec (zlen s) (zlen s)); [lia|]. rewrite take_ge by (unfold zlen; lia).
  rewrite (wrap_small 64 (size - off - 11)) by mach_lia. fold cap. rewrite Hc.
  rewrite memcpy_splice by lia. cbn [mbind option_bind]. fold m1.
  destruct (Z.eqb_spec (zlen c) 0); [lia|]. destruct (Z.ltb_spec (zlen s) (zlen c)); [done|].
  rewrite put_byte_splice by lia. cbn [mbind option_bind]. change (Z.lor 0xC0 0x03) with 0xC3.
  rewrite (emits_length32 (zlen c) ltac:(lia)) by
    (rewrite ?splice_length; rewrite ?zlen_cons, ?zlen_be_bytes, ?zlen1; change (zlen (@nil Z)) with 0; lia).
  cbn [mbind option_bind]. rewrite bool_decide_eq_true_2 by done. cbn [negb].
  rewrite put_byte_then by (rewrite ?zlen_cons, ?zlen_be_bytes; lia).
  rewrite (emits_length32 (zlen s) ltac:(lia)) by
    (rewrite ?splice_length; rewrite ?zlen_cons, ?zlen_be_bytes; lia).
  cbn [mbind option_bind]. rewrite bool_decide_eq_true_2 by done. cbn [negb].
  set (h1 := 0xC3 :: 0x80 :: be_bytes 4 (zlen c)). set (h2 := 0x80 :: be_bytes 4 (zlen s)).
  assert (zlen h1 = 6) as Hh1 by (unfold h1; rewrite !zlen_cons, zlen_be_bytes; lia).
  assert (zlen h2 = 5) as Hh2 by (unfold h2; rewrite !zlen_cons, zlen_be_bytes; lia).
  replace (zlen (0x80 :: be_bytes 4 (zlen c))) with 5 by (rewrite zlen_cons, zlen_be_bytes; lia).
  replace (buffer + (off + 1 + 5)) with (buffer + off + zlen h1) by lia.
  rewrite splice_app by lia. unfold m1. replace (buffer + off + 11) with (buffer + off + zlen (h1 ++ h2))
    by (rewrite zlen_app; lia).
  rewrite splice_before by (rewrite ?zlen_app; lia).
  assert ((h1 ++ h2) ++ c = lzf_bytes (zlen s) c) as -> by (unfold lzf_bytes, h1, h2; by rewrite <- app_assoc).
  do 2 f_equal. rewrite zlen_lzf_bytes. lia.
Qed.

(** A string shorter than 64 KiB, encoded with room for its compressed
    form, is read back by the loader: as the integer it was taken for, and
    otherwise unchanged, whether it was compressed or not. *)
Theorem rdb_small_string_roundtrip (s rest : list Z) (m : mem) (buffer size off : Z) :
  zlen s < 65536 -> 0 <= buffer -> 0 <= off -> size < 2 ^ 63 -> buffer + size <= zlen m ->
  off + 11 + LZF_MAX_COMPRESSED_SIZE (zlen s) <= size ->
  exists m' off', encode_small_string lzf_compress s (zlen s) m buffer size off = Some (RESULT_OK, m', off') /\
    off <= off' <= size /\
    take (Z.to_nat (buffer + off)) m' = take (Z.to_nat (buffer + off)) m /\
    load_read_string lzf_decompress (take (Z.to_nat (off' - off)) (drop (Z.to_nat (buffer + off)) m') ++ rest)
      = Some (saved_form s, rest).
Proof using compress_bound compress_room decompress_compress.
  intros Hs Hb Ho Hsz Hm Hfit. pose proof (zlen_nonneg s) as Hz0.
  pose proof (lzf_max_bound (zlen s) ltac:(lia)) as Hmax.
  assert (forall m1 bs, zlen m1 = zlen m -> off + zlen bs <= size ->
    take (Z.to_nat (buffer + off)) m1 = take (Z.to_nat (buffer + off)) m ->
    load_read_string lzf_decompress (bs ++ rest) = Some (saved_form s, rest) ->
    exists m' off', Some (RESULT_OK, splice m1 (buffer + off) bs, off + zlen bs) = Some (RESULT_OK, m', off') /\
      off <= off' <= size /\
      take (Z.to_nat (buffer + off)) m' = take (Z.to_nat (buffer + off)) m /\
      load_read_string lzf_decompress (take (Z.to_nat (off' - off)) (drop (Z.to_nat (buffer + off)) m') ++ rest)
        = Some (saved_form s, rest)) as Hdone.
  { intros m1 bs Hm1 Hfb Hpre Hr. pose proof (zlen_nonneg bs).
    exists (splice m1 (buffer + off) bs), (off + zlen bs). split; [done|]. split; [lia|]. split.
    - rewrite splice_prefix by lia. done.
    - replace (Z.to_nat (off + zlen bs - off)) with (length bs) by (unfold zlen; lia).
      rewrite splice_read by lia. done. }
  assert (forall m1, zlen m1 = zlen m -> take (Z.to_nat (buffer + off)) m1 = take (Z.to_nat (buffer + off)) m ->
    saved_form s = s ->
    exists m' off', encode_plain s (zlen s) m1 buffer size off = Some (RESULT_OK, m', off') /\
      off <= off' <= size /\
      take (Z.to_nat (buffer + off)) m' = take (Z.to_nat (buffer + off)) m /\
      load_read_string lzf_decompress (take (Z.to_nat (off' - off)) (drop (Z.to_nat (buffer + off)) m') ++ rest)
        = Some (saved_form s, rest)) as Hplain.
  { intros m1 Hm1 Hpre Hsf. pose proof (length_bytes_pos (zlen s)).
    assert (off + zlen (plain_bytes s) <= size) by (unfold plain_bytes; rewrite zlen_app; lia).
    rewrite (emits_plain s ltac:(mach_lia)) by lia. apply Hdone; [done|lia|done|].
    rewrite Hsf. apply read_plain_bytes. mach_lia. }
  unfold encode_small_string. destruct (Z.leb_spec 65536 (zlen s)); [lia|].
  destruct (can_encode_total s) as (b & n & Hcan & Hn). rewrite Hcan. cbn [mbind option_bind].
  destruct b.
  - assert (zlen (int_bytes n) <= 5) by (unfold int_bytes; repeat case_match; rewrite zlen_cons, zlen_le_bytes; lia).
    rewrite (emits_int n (Hn eq_refl)) by lia. apply Hdone; [done|lia|done|].
    unfold saved_form. rewrite Hcan. apply read_int_bytes. by apply Hn.
  - pose proof (saved_form_not_int s n Hcan) as Hsf. destruct (Z.ltb_spec 32 (zlen s)); [|by apply Hplain].
    destruct (encode_lzf_spec s m buffer size off ltac:(lia) Hb Ho Hsz Hm Hfit) as (c & cap & m1 & Hc & Hcl & Hm1 & Hpre & ->).
    destruct (Z.ltb_spec (zlen s) (zlen c)); cbn [mbind option_bind].
    + rewrite bool_decide_eq_true_2 by done. cbn [negb]. by apply Hplain.
    + rewrite bool_decide_eq_false_2 by done. cbn [negb]. apply Hdone; [done| |done|].
      * rewrite zlen_lzf_bytes. lia.
      * rewrite Hsf. apply (read_lzf_bytes s cap c); [lia|done|lia].
Qed.
End lzf.

(** A compressor that keeps its input when it fits, to instantiate the
    parameters. *)
Definition keep_compress (s : list Z) (cap : Z) : list Z * bool :=
  if zlen s <=? cap then (s, true) else ([], false).
Definition keep_decompress (c : list Z) (_ : Z) : list Z := c.

Lemma keep_compress_ok :
  (forall s cap, 0 <= cap -> zlen (fst (keep_compress s cap)) <= cap) /\
  (forall s cap, 0 < zlen s < 65536 -> LZF_MAX_COMPRESSED_SIZE (zlen s) <= cap ->
    snd (keep_compress s cap) = true /\ fst (keep_compress s cap) <> []).
Proof.
  split.
  - intros s cap Hc. unfold keep_compress. destruct (Z.leb_spec (zlen s) cap); [done|]. cbn [fst]. change (zlen (@nil Z)) with 0. lia.
  - intros s cap Hs Hc. pose proof (lzf_max_bound (zlen s) ltac:(lia)). unfold keep_compress.
    destruct (Z.leb_spec (zlen s) cap); [|lia]. split; [done|]. destruct s; [change (zlen (@nil Z)) with 0 in Hs; lia|done].
Qed.

Lemma keep_decompress_ok s cap c : keep_compress s cap = (c, true) -> keep_decompress c (zlen s) = s.
Proof. unfold keep_compress. destruct (zlen s <=? cap); by intros [= <-]. Qed.

Lemma rdb_small_string_roundtrip_witness :
  exists m' off', encode_small_string keep_compress (repeat 65 40) 40 (repeat 0 100) 5 90 3
      = Some (RESULT_OK, m', off') /\
    3 <= off' <= 90 /\ take 8 m' = repeat 0 8 /\
    load_read_string keep_decompress (take (Z.to_nat (off' - 3)) (drop 8 m') ++ [1; 2])
      = Some (saved_form (repeat 65 40), [1; 2]).
Proof.
  apply (rdb_small_string_roundtrip keep_compress keep_decompress (proj1 keep_compress_ok)
    (proj2 keep_compress_ok) keep_decompress_ok (repeat 65 40) [1; 2] (repeat 0 100) 5 90 3).
  all: vm_compute; done.
Defined.

End RdbSpec.
