(* ===== verification/SnapshotRdb.v ===== *)
(** * SnapshotRdb: writing a snapshot file

    The writer of storage/db/storage_db_snapshot.c on top of the buffered
    channel of storage/storage_buffered.{h,c}: entries are encoded in slices of
    a 64 KiB buffer that is flushed to the file when the next slice does not
    fit.  [storage_write] (the file system) is a parameter.  The theorem is the
    round trip through [RdbLoad]; the selection of the buckets of a block of
    the hashtable is modelled as well. *)

From Stdlib Require Import Ascii String.
From S2P Require Import Prelude Memory Decimal RdbPrimitive RdbLoad RdbSpec Transaction HashtableMcmp.

Module SnapshotRdb.
Import Memory Decimal RdbPrimitive RdbLoad RdbSpec.

Definition STORAGE_BUFFERED_CHANNEL_BUFFER_SIZE : Z := 64 * 1024.
Definition STORAGE_DB_SNAPSHOT_RDB_VERSION : Z := 9.
Definition STORAGE_DB_SNAPSHOT_BLOCK_SIZE : Z := 64 * 1024.

(** ** The buffered channel *)

Record buffered_channel := Channel {
  file : list Z;
  offset : Z;
  data : mem;
  data_offset : Z;
  data_size : Z;
  buffer_length : Z;
  slice_acquired_length : Z
}.

Definition with_data (ch : buffered_channel) (m : mem) : buffered_channel :=
  Channel (file ch) (offset ch) m (data_offset ch) (data_size ch) (buffer_length ch)
    (slice_acquired_length ch).

Definition with_slice (ch : buffered_channel) (n : Z) : buffered_channel :=
  Channel (file ch) (offset ch) (data ch) (data_offset ch) (data_size ch) (buffer_length ch) n.

(** A new channel on an empty file; the content of the buffer is arbitrary. *)
Definition storage_buffered_channel_new (garbage : mem) : buffered_channel :=
  Channel [] 0 garbage 0 0 STORAGE_BUFFERED_CHANNEL_BUFFER_SIZE 0.

Section writer.
(** [storage_write file bytes offset]: the file after the write, [None] when
    it failed. *)
Context (storage_write : list Z -> list Z -> Z -> option (list Z)).

Definition storage_buffered_flush_write (ch : buffered_channel) : option (bool * buffered_channel) :=
  _ ← check (slice_acquired_length ch =? 0);
  match storage_write (file ch) (take (Z.to_nat (data_size ch)) (data ch)) (offset ch) with
  | None => Some (false, ch)
  | Some f =>
      Some (true, Channel f (offset ch + data_size ch) (data ch) 0 0 (buffer_length ch)
                    (slice_acquired_length ch))
  end.

(** The address of the slice, [None] for the NULL of a failed flush. *)
Definition storage_buffered_write_buffer_acquire_slice (ch : buffered_channel) (slice_length : Z)
    : option (option Z * buffered_channel) :=
  _ ← check (slice_length <=? buffer_length ch);
  _ ← check (slice_acquired_length ch =? 0);
  '(ok, ch) ←
    (if buffer_length ch <? data_size ch + slice_length then storage_buffered_flush_write ch
     else Some (true, ch));
  if negb ok then Some (None, ch) else
  Some (Some (data_offset ch), with_slice ch slice_length).

Definition storage_buffered_write_buffer_release_slice (ch : buffered_channel) (used : Z)
    : option buffered_channel :=
  _ ← check (0 <? slice_acquired_length ch);
  _ ← check (used <=? slice_acquired_length ch);
  Some (Channel (file ch) (offset ch) (data ch) (data_offset ch + used) (data_size ch + used)
          (buffer_length ch) 0).

(** ** The snapshot *)

Record snapshot := Snapshot {
  channel : buffered_channel;
  data_written : Z;
  keys_written : Z;
  start_time_ms : Z
}.

Definition with_channel (sn : snapshot) (ch : buffered_channel) : snapshot :=
  Snapshot ch (data_written sn) (keys_written sn) (start_time_ms sn).

Definition storage_db_snapshot_rdb_release_slice (sn : snapshot) (used : Z) : option snapshot :=
  ch ← storage_buffered_write_buffer_release_slice (channel sn) used;
  Some (Snapshot ch (u64 (data_written sn + used)) (keys_written sn) (start_time_ms sn)).

Definition acquire (sn : snapshot) (slice_length : Z) : option (option Z * snapshot) :=
  '(a, ch) ← storage_buffered_write_buffer_acquire_slice (channel sn) slice_length;
  Some (a, with_channel sn ch).

(** Runs an encoder in the slice at [a]. *)
Definition encode_in (sn : snapshot) (a size off : Z) (e : encoder)
    : option (serialize_result * snapshot * Z) :=
  '(r, m, off) ← e (data (channel sn)) a size off;
  Some (r, with_channel sn (with_data (channel sn) m), off).

Definition copy_in (sn : snapshot) (pos : Z) (bs : list Z) : option snapshot :=
  m ← memcpy (data (channel sn)) pos bs;
  Some (with_channel sn (with_data (channel sn) m)).

Definition is_ok (r : serialize_result) : bool := bool_decide (r = RESULT_OK).

(** The part of [storage_db_snapshot_rdb_write_*] that is one encoder in a
    slice of its own. *)
Definition write_encoded (sn : snapshot) (buffer_size : Z) (e : encoder) : option (bool * snapshot) :=
  '(a, sn) ← acquire sn buffer_size;
  match a with
  | None => Some (false, sn)
  | Some a =>
      '(r, sn, off) ← encode_in sn a buffer_size 0 e;
      if negb (is_ok r) then Some (false, sn) else
      sn ← storage_db_snapshot_rdb_release_slice sn off;
      Some (true, sn)
  end.

(** The entry index: its value is a sequence of chunks. *)
Record entry_index := Entry {
  value : list (list Z);
  expiry_time_ms : Z;
  snapshot_time_ms : Z
}.

Definition value_count (e : entry_index) : Z := zlen (value e).
Definition value_size (e : entry_index) : Z := zlen (concat (value e)).

Definition storage_db_snapshot_rdb_write_value_header (sn : snapshot) (key : list Z) (key_length : Z)
    (e : entry_index) : option (bool * snapshot) :=
  let buffer_can_contain_key := 128 + key_length <? buffer_length (channel sn) in
  let buffer_size := if buffer_can_contain_key then 128 + key_length else 128 in
  '(a, sn) ← acquire sn buffer_size;
  match a with None => Some (false, sn) | Some a =>
  '(ok, sn, off) ←
    (if negb (expiry_time_ms e =? 0) then
       '(r, sn, off) ← encode_in sn a buffer_size 0 (encode_opcode_expire_time_ms (u64 (expiry_time_ms e)));
       Some (is_ok r, sn, off)
     else Some (true, sn, 0));
  if negb ok then Some (false, sn) else
  '(r, sn, off) ← encode_in sn a buffer_size off (encode_opcode_value_type VALUE_TYPE_STRING);
  if negb (is_ok r) then Some (false, sn) else
  '(r, sn, off) ← encode_in sn a buffer_size off (encode_length key_length);
  if negb (is_ok r) then Some (false, sn) else
  if negb (zlen key =? key_length) then None else
  if buffer_can_contain_key then
    sn ← copy_in sn (a + off) key;
    sn ← storage_db_snapshot_rdb_release_slice sn (off + key_length);
    Some (true, sn)
  else
    sn ← storage_db_snapshot_rdb_release_slice sn off;
    '(a, sn) ← acquire sn key_length;
    match a with None => Some (false, sn) | Some a =>
    sn ← copy_in sn a key;
    sn ← storage_db_snapshot_rdb_release_slice sn key_length;
    Some (true, sn)
    end
  end.

(** The loop over the chunks of a value. *)
Fixpoint write_chunks (sn : snapshot) (chunks : list (list Z)) : option (bool * snapshot) :=
  match chunks with
  | [] => Some (true, sn)
  | c :: chunks =>
      '(a, sn) ← acquire sn (zlen c);
      match a with
      | None => Some (false, sn)
      | Some a =>
          sn ← copy_in sn a c;
          sn ← storage_db_snapshot_rdb_release_slice sn (zlen c);
          write_chunks sn chunks
      end
  end.

(** The test that should keep long strings from the integer encoding is
    applied to the result of [unlikely], 0 or 1, and always holds. *)
Definition size_test (size : Z) : bool := (if size =? 0 then 0 else 1) <=? 21.

Definition storage_db_snapshot_rdb_write_value_string (sn : snapshot) (e : entry_index)
    : option (bool * snapshot) :=
  '(is_int, n) ←
    (if (value_count e =? 1) && size_test (value_size e) then
       c ← head (value e); can_encode_string_int c (value_size e)
     else Some (false, 0));
  if (is_int : bool) then write_encoded sn 128 (encode_small_string_int n) else
  '(ok, sn) ← write_encoded sn 128 (encode_length (value_size e));
  if negb ok then Some (false, sn) else
  write_chunks sn (value e).

Definition storage_db_snapshot_rdb_write_database_number (sn : snapshot) (database_number : Z)
    : option (bool * snapshot) :=
  write_encoded sn 128 (encode_opcode_db_number database_number).

Definition storage_db_snapshot_rdb_process_entry_index (sn : snapshot) (key : list Z) (key_size : Z)
    (e : entry_index) : option (bool * snapshot) :=
  if start_time_ms sn <? snapshot_time_ms e then Some (true, sn) else
  '(ok, sn) ← storage_db_snapshot_rdb_write_value_header sn key key_size e;
  if negb ok then Some (false, sn) else
  storage_db_snapshot_rdb_write_value_string sn e.

(** What a block does with an entry it selected (the change of the current
    database included). *)
Definition process_selected (sn : snapshot) (current_database_number database_number : Z)
    (key : list Z) (e : entry_index) : option (bool * snapshot * Z) :=
  '(ok, sn) ←
    (if negb (current_database_number =? database_number)
     then storage_db_snapshot_rdb_write_database_number sn database_number else Some (true, sn));
  if negb ok then Some (false, sn, database_number) else
  '(ok, sn) ← storage_db_snapshot_rdb_process_entry_index sn key (zlen key) e;
  if negb ok then Some (false, sn, database_number) else
  Some (true, Snapshot (channel sn) (data_written sn) (u64 (keys_written sn + 1)) (start_time_ms sn),
        database_number).

Fixpoint process_all (sn : snapshot) (current_database_number : Z)
    (entries : list (Z * list Z * entry_index)) : option (bool * snapshot) :=
  match entries with
  | [] => Some (true, sn)
  | (db, key, e) :: entries =>
      '(ok, sn, current) ← process_selected sn current_database_number db key e;
      if negb ok then Some (false, sn) else process_all sn current entries
  end.

(** The header of [storage_db_snapshot_rdb_prepare]; the start time is taken
    after it. *)
Definition storage_db_snapshot_rdb_prepare (garbage : mem) (now : Z) : option (bool * snapshot) :=
  let sn := Snapshot (storage_buffered_channel_new garbage) 0 0 0 in
  '(ok, sn) ← write_encoded sn 128 (encode_header STORAGE_DB_SNAPSHOT_RDB_VERSION);
  if negb ok then Some (false, sn) else
  '(ok, sn) ← storage_db_snapshot_rdb_write_database_number sn 0;
  if negb ok then Some (false, sn) else
  Some (true, Snapshot (channel sn) (data_written sn) (keys_written sn) now).

(** The end of the file and the flush of [storage_db_snapshot_completed_successfully]. *)
Definition storage_db_snapshot_rdb_completed_successfully (sn : snapshot) : option (bool * snapshot) :=
  '(ok, sn) ← write_encoded sn 128 (encode_opcode_eof 0);
  if negb ok then Some (false, sn) else
  '(_, ch) ← storage_buffered_flush_write (channel sn);
  Some (true, with_channel sn ch).

(** A whole snapshot of the given entries: the bytes of the file. *)
Definition snapshot_file (garbage : mem) (now : Z) (entries : list (Z * list Z * entry_index))
    : option (list Z) :=
  '(ok, sn) ← storage_db_snapshot_rdb_prepare garbage now;
  if negb ok then None else
  '(ok, sn) ← process_all sn 0 entries;
  if negb ok then None else
  '(ok, sn) ← storage_db_snapshot_rdb_completed_successfully sn;
  if negb ok then None else
  Some (file (channel sn)).

End writer.

(** ** The buckets of a block

    [storage_db_snapshot_rdb_process_block]: the indexes of the buckets the
    loop fetches, with its two increments per iteration and its start at
    [block_start - 1]. *)
Fixpoint block_loop (d : HashtableMcmp.hashtable_data) (fuel : nat) (bucket_index block_end buckets_end : Z)
    : option (list Z) :=
  match fuel with
  | O => None
  | S fuel =>
      if negb ((bucket_index <? block_end) && (bucket_index <? buckets_end)) then Some [] else
      let bucket_index := u64 (bucket_index + 1) in
      bucket_index ← HashtableMcmp.hashtable_mcmp_op_iter_internal d true 0 bucket_index
                       (u64 (block_end - bucket_index));
      if bucket_index =? HashtableMcmp.OP_ITER_END then Some [] else
      rest ← block_loop d fuel (u64 (bucket_index + 1)) block_end buckets_end;
      Some (bucket_index :: rest)
  end.

Definition block_buckets (d : HashtableMcmp.hashtable_data) (block_index : Z) : option (list Z) :=
  let buckets_end := HashtableMcmp.buckets_count_real d in
  let block_start := u64 (block_index * STORAGE_DB_SNAPSHOT_BLOCK_SIZE) in
  let block_end := u64 (block_start + STORAGE_DB_SNAPSHOT_BLOCK_SIZE) in
  block_loop d (S (Z.to_nat STORAGE_DB_SNAPSHOT_BLOCK_SIZE)) (u64 (block_start - 1)) block_end buckets_end.

(** ** The channel writes a stream

    What has been written so far: the file and the part of the buffer in use. *)
Definition stream (ch : buffered_channel) : list Z :=
  file ch ++ take (Z.to_nat (data_size ch)) (data ch).

Record chan_ok (ch : buffered_channel) : Prop := {
  co_offset : offset ch = zlen (file ch);
  co_same : data_offset ch = data_size ch;
  co_size : 0 <= data_size ch <= buffer_length ch;
  co_length : buffer_length ch = STORAGE_BUFFERED_CHANNEL_BUFFER_SIZE;
  co_data : zlen (data ch) = buffer_length ch
}.

(** Between two writes: no slice is acquired. *)
Definition ready (sn : snapshot) (now : Z) (w : list Z) : Prop :=
  chan_ok (channel sn) /\ slice_acquired_length (channel sn) = 0 /\
  stream (channel sn) = w /\ start_time_ms sn = now.

(** Inside a slice of [size] bytes at [a], of which [bs] has been written. *)
Definition in_slice (sn : snapshot) (now : Z) (w : list Z) (a size : Z) (bs : list Z) : Prop :=
  exists m, chan_ok (with_data (channel sn) m) /\ stream (with_data (channel sn) m) = w /\
    data (channel sn) = splice m a bs /\ a = data_offset (channel sn) /\
    slice_acquired_length (channel sn) = size /\ a + size <= zlen m /\ zlen bs <= size /\
    start_time_ms sn = now.

Section writing.
Context (storage_write : list Z -> list Z -> Z -> option (list Z)).
(** Writing at the end of the file appends. *)
Hypothesis write_appends : forall f d, storage_write f d (zlen f) = Some (f ++ d).

Lemma flush_ok ch :
  chan_ok ch -> slice_acquired_length ch = 0 ->
  exists ch', storage_buffered_flush_write storage_write ch = Some (true, ch') /\ chan_ok ch' /\
    slice_acquired_length ch' = 0 /\ file ch' = stream ch /\ data_size ch' = 0.
Proof using write_appends.
  intros [Ho Hs Hz Hl Hd] Hsl. unfold storage_buffered_flush_write. rewrite Hsl, Ho, write_appends.
  eexists. split; [reflexivity|]. split; [|done].
  split; cbn; try done; [|lia]. rewrite zlen_app. f_equal.
  unfold zlen in *. rewrite length_take. lia.
Qed.

Lemma acquire_ok sn now w size :
  ready sn now w -> 0 <= size <= STORAGE_BUFFERED_CHANNEL_BUFFER_SIZE ->
  exists a sn', acquire storage_write sn size = Some (Some a, sn') /\ in_slice sn' now w a size [].
Proof using write_appends.
  intros (Hok & Hsl & Hw & Hnow) Hsize. unfold acquire, storage_buffered_write_buffer_acquire_slice.
  pose proof Hok as [Ho Hs Hz Hl Hd]. rewrite Hl.
  destruct (Z.leb_spec size STORAGE_BUFFERED_CHANNEL_BUFFER_SIZE); [|lia]. cbn [check mbind option_bind].
  rewrite Hsl. cbn [Z.eqb check mbind option_bind].
  destruct (Z.ltb_spec STORAGE_BUFFERED_CHANNEL_BUFFER_SIZE (data_size (channel sn) + size)).
  - destruct (flush_ok _ Hok Hsl) as (ch' & -> & Hok' & Hsl' & Hf & Hz'). cbn [mbind option_bind negb].
    pose proof Hok' as [Ho2 Hs2 Hz2 Hl2 Hd2].
    eexists _, _. split; [reflexivity|]. exists (data ch'). cbn.
    assert (with_data (with_slice ch' size) (data ch') = with_slice ch' size) as -> by by destruct ch'.
    split; [by destruct Hok'; split|]. split; [|split; [by rewrite splice_nil|]].
    + unfold stream in *. cbn. rewrite Hz', Hf, Hw. cbn. by rewrite app_nil_r.
    + split; [done|]. split; [done|]. change (zlen (@nil Z)) with 0.
      split; [rewrite Hs2, Hz', Hd2, Hl2; lia|]. split; [lia|done].
  - cbn [mbind option_bind negb]. eexists _, _. split; [reflexivity|]. exists (data (channel sn)). cbn.
    split; [by destruct Hok; split|]. split; [done|]. split; [by rewrite splice_nil|].
    split; [done|]. split; [done|]. change (zlen (@nil Z)) with 0. rewrite Hs, Hd, Hl. split; [lia|]. split; [lia|done].
Qed.

Lemma encode_in_ok sn now w a size bs e b1 :
  in_slice sn now w a size bs -> emits e b1 -> size <= STORAGE_BUFFERED_CHANNEL_BUFFER_SIZE ->
  zlen bs + zlen b1 <= size ->
  exists sn', encode_in sn a size (zlen bs) e = Some (RESULT_OK, sn', zlen bs + zlen b1) /\
    in_slice sn' now w a size (bs ++ b1).
Proof using Type.
  intros (m & Hok & Hw & Hd & Ha & Hsl & Hfit & Hl & Hnow) He Hsize Hl1. unfold encode_in.
  pose proof (zlen_nonneg bs). pose proof (zlen_nonneg b1). pose proof (co_size _ Hok) as Hz.
  pose proof (co_same _ Hok) as Hs. cbn in Hz, Hs. rewrite Hd.
  rewrite (He (splice m a bs) a size (zlen bs)) by (rewrite ?splice_length; unfold STORAGE_BUFFERED_CHANNEL_BUFFER_SIZE in *; lia).
  cbn [mbind option_bind]. eexists. split; [reflexivity|].
  exists m. cbn. rewrite splice_app by lia. rewrite zlen_app. split; [done|]. done.
Qed.

Lemma copy_in_ok sn now w a size bs b1 pos :
  in_slice sn now w a size bs -> zlen bs + zlen b1 <= size -> pos = a + zlen bs ->
  exists sn', copy_in sn pos b1 = Some sn' /\ in_slice sn' now w a size (bs ++ b1).
Proof using Type.
  intros (m & Hok & Hw & Hd & Ha & Hsl & Hfit & Hl & Hnow) Hl1 ->. unfold copy_in.
  pose proof (zlen_nonneg bs). pose proof (zlen_nonneg b1). pose proof (co_size _ Hok) as Hz.
  pose proof (co_same _ Hok) as Hs. cbn in Hz, Hs. rewrite Hd.
  rewrite memcpy_splice by (rewrite ?splice_length; lia). cbn [mbind option_bind].
  eexists. split; [reflexivity|]. exists m. cbn. rewrite splice_app by lia. rewrite zlen_app. done.
Qed.

Lemma release_ok sn now w a size bs used :
  in_slice sn now w a size bs -> used = zlen bs -> 0 < size ->
  exists sn', storage_db_snapshot_rdb_release_slice sn used = Some sn' /\ ready sn' now (w ++ bs).
Proof using Type.
  intros (m & Hok & Hw & Hd & Ha & Hsl & Hfit & Hl & Hnow) -> Hsize.
  unfold storage_db_snapshot_rdb_release_slice, storage_buffered_write_buffer_release_slice.
  rewrite Hsl. destruct (Z.ltb_spec 0 size), (Z.leb_spec (zlen bs) size); try lia. cbn [check mbind option_bind].
  pose proof (zlen_nonneg bs). destruct Hok as [Ho Hs Hz Hlen Hdata]. cbn in *.
  eexists. split; [reflexivity|]. split; [|split; [done|split; [|done]]].
  - split; cbn; try done; [lia|lia|]. rewrite Hd, splice_length by lia. done.
  - unfold stream in *. cbn in *. rewrite <- Hw, Hd, <- app_assoc. f_equal.
    unfold splice. rewrite Ha, Hs. unfold zlen in *.
    replace (Z.to_nat (data_size (channel sn) + Z.of_nat (length bs)))
      with (length (take (Z.to_nat (data_size (channel sn))) m ++ bs)) by (rewrite length_app, length_take; lia).
    by rewrite app_assoc, take_app_length.
Qed.

Lemma write_encoded_ok sn now w size e bs :
  ready sn now w -> emits e bs -> 0 < size <= STORAGE_BUFFERED_CHANNEL_BUFFER_SIZE -> zlen bs <= size ->
  exists sn', write_encoded storage_write sn size e = Some (true, sn') /\ ready sn' now (w ++ bs).
Proof using write_appends.
  intros Hr He Hsize Hl. unfold write_encoded.
  destruct (acquire_ok sn now w size Hr ltac:(lia)) as (a & sn1 & -> & Hin). cbn [mbind option_bind].
  destruct (encode_in_ok sn1 now w a size [] e bs Hin He ltac:(lia) ltac:(change (zlen (@nil Z)) with 0; lia)) as (sn2 & He2 & Hin2).
  change (zlen (@nil Z)) with 0 in He2. rewrite He2. cbn [mbind option_bind app] in *.
  destruct (release_ok sn2 now w a size bs (0 + zlen bs) Hin2 ltac:(lia) ltac:(lia)) as (sn3 & -> & Hr3).
  by exists sn3.
Qed.

(** ** The bytes of an entry *)

Definition value_bytes (e : entry_index) : list Z :=
  match value e with
  | [c] => match can_encode_string_int c (zlen c) with Some (true, n) => int_bytes n | _ => plain_bytes c end
  | cs => plain_bytes (concat cs)
  end.

Definition entry_bytes (key : list Z) (e : entry_index) : list Z :=
  (if expiry_time_ms e =? 0 then [] else OPCODE_EXPIRE_TIME_MS :: le_bytes 8 (u64 (expiry_time_ms e))) ++
  [VALUE_TYPE_STRING] ++ plain_bytes key ++ value_bytes e.

(** Keys fit in the buffer; chunks are not empty and fit in it. *)
Definition entry_fits (key : list Z) (e : entry_index) : Prop :=
  0 < zlen key <= STORAGE_BUFFERED_CHANNEL_BUFFER_SIZE /\
  Forall (fun c => 0 < zlen c <= STORAGE_BUFFERED_CHANNEL_BUFFER_SIZE) (value e) /\
  zlen (concat (value e)) < 2 ^ 63.

Lemma write_chunks_ok chunks : forall sn now w,
  ready sn now w -> Forall (fun c => 0 < zlen c <= STORAGE_BUFFERED_CHANNEL_BUFFER_SIZE) chunks ->
  exists sn', write_chunks storage_write sn chunks = Some (true, sn') /\ ready sn' now (w ++ concat chunks).
Proof using write_appends.
  induction chunks as [|c chunks IH]; intros sn now w Hr Hc; cbn [write_chunks concat].
  { exists sn. by rewrite app_nil_r. }
  apply Forall_cons in Hc as [Hc Hcs].
  destruct (acquire_ok sn now w (zlen c) Hr ltac:(lia)) as (a & sn1 & -> & Hin). cbn [mbind option_bind].
  destruct (copy_in_ok sn1 now w a (zlen c) [] c a Hin ltac:(change (zlen (@nil Z)) with 0; lia)
    ltac:(change (zlen (@nil Z)) with 0; lia)) as (sn2 & -> & Hin2). cbn [mbind option_bind].
  destruct (release_ok sn2 now w a (zlen c) c (zlen c) Hin2 eq_refl ltac:(lia)) as (sn3 & -> & Hr3).
  cbn [mbind option_bind]. destruct (IH sn3 now (w ++ c) Hr3 Hcs) as (sn4 & -> & Hr4).
  exists sn4. by rewrite app_assoc.
Qed.

Lemma write_plain_ok sn now w size chunks :
  ready sn now w -> Forall (fun c => 0 < zlen c <= STORAGE_BUFFERED_CHANNEL_BUFFER_SIZE) chunks ->
  size = zlen (concat chunks) -> size < 2 ^ 63 ->
  exists sn', ('(ok, sn) ← write_encoded storage_write sn 128 (encode_length size);
    if negb ok then Some (false, sn) else write_chunks storage_write sn chunks) = Some (true, sn') /\
    ready sn' now (w ++ plain_bytes (concat chunks)).
Proof using write_appends.
  intros Hr Hc -> Hl. pose proof (length_bytes_pos (zlen (concat chunks))). pose proof (zlen_nonneg (concat chunks)).
  destruct (write_encoded_ok sn now w 128 (encode_length (zlen (concat chunks))) (length_bytes (zlen (concat chunks))) Hr)
    as (sn1 & -> & Hr1); [apply emits_length; mach_lia|unfold STORAGE_BUFFERED_CHANNEL_BUFFER_SIZE; lia|lia|].
  cbn [mbind option_bind negb]. destruct (write_chunks_ok chunks sn1 now _ Hr1 Hc) as (sn2 & -> & Hr2).
  exists sn2. split; [done|]. unfold plain_bytes. by rewrite app_assoc.
Qed.

Lemma int_bytes_short n : zlen (int_bytes n) <= 5.
Proof using Type. unfold int_bytes. repeat case_match; rewrite zlen_cons, zlen_le_bytes; lia. Qed.

Lemma write_value_string_ok sn now w key e :
  ready sn now w -> entry_fits key e ->
  exists sn', storage_db_snapshot_rdb_write_value_string storage_write sn e = Some (true, sn') /\
    ready sn' now (w ++ value_bytes e).
Proof using write_appends.
  intros Hr (_ & Hc & Hl). unfold storage_db_snapshot_rdb_write_value_string, value_bytes, value_count, value_size.
  assert (forall z, size_test z = true) as Hst by (intros z; unfold size_test; by destruct (z =? 0)).
  rewrite Hst, andb_true_r.
  destruct (value e) as [|c [|c2 cs]] eqn:Hv.
  - cbn [zlen length Z.eqb mbind option_bind]. by apply write_plain_ok.
  - change (zlen [c] =? 1) with true. cbn [head mbind option_bind concat] in *. rewrite app_nil_r in *.
    destruct (can_encode_total c) as (b & n & Hcan & Hn). rewrite Hcan. cbn [mbind option_bind]. destruct b.
    + pose proof (int_bytes_short n).
      apply (write_encoded_ok sn now w 128); [done|by apply emits_int, Hn|unfold STORAGE_BUFFERED_CHANNEL_BUFFER_SIZE; lia|lia].
    + destruct (write_plain_ok sn now w (zlen c) [c] Hr Hc) as (sn' & Hw & Hr');
        [cbn [concat]; by rewrite app_nil_r|done|].
      cbn [concat] in Hr'. rewrite app_nil_r in Hr'. by exists sn'.
  - assert ((zlen (c :: c2 :: cs) =? 1) = false) as ->
      by (rewrite !zlen_cons; pose proof (zlen_nonneg cs); lia).
    cbn [mbind option_bind]. by apply write_plain_ok.
Qed.
Definition expiry_bytes (e : entry_index) : list Z :=
  if expiry_time_ms e =? 0 then [] else OPCODE_EXPIRE_TIME_MS :: le_bytes 8 (u64 (expiry_time_ms e)).

Lemma expiry_bytes_short e : zlen (expiry_bytes e) <= 9.
Proof using Type.
  unfold expiry_bytes. destruct (expiry_time_ms e =? 0); rewrite ?zlen_cons, ?zlen_le_bytes; [|lia].
  change (zlen (@nil Z)) with 0. lia.
Qed.

Lemma zlen0 : zlen (@nil Z) = 0.
Proof using Type. done. Qed.

Lemma encode_expiry_ok sn now w a size e :
  in_slice sn now w a size [] -> 128 <= size <= STORAGE_BUFFERED_CHANNEL_BUFFER_SIZE ->
  exists sn',
    (if negb (expiry_time_ms e =? 0) then
       '(r, sn, off) ← encode_in sn a size 0 (encode_opcode_expire_time_ms (u64 (expiry_time_ms e)));
       Some (is_ok r, sn, off)
     else Some (true, sn, 0)) = Some (true, sn', zlen (expiry_bytes e)) /\
    in_slice sn' now w a size (expiry_bytes e).
Proof using Type.
  intros Hin Hs. pose proof (expiry_bytes_short e) as Hb. unfold expiry_bytes in *.
  destruct (expiry_time_ms e =? 0); cbn [negb]; [by exists sn|].
  destruct (encode_in_ok sn now w a size [] _ _ Hin (emits_expire_ms (u64 (expiry_time_ms e))))
    as (sn' & He & Hin'); [lia|rewrite zlen0; lia|].
  rewrite zlen0 in He. rewrite He. cbn [mbind option_bind]. exists sn'. split; [done|]. done.
Qed.

Lemma write_value_header_ok sn now w key e :
  ready sn now w -> entry_fits key e ->
  exists sn', storage_db_snapshot_rdb_write_value_header storage_write sn key (zlen key) e = Some (true, sn') /\
    ready sn' now (w ++ expiry_bytes e ++ [VALUE_TYPE_STRING] ++ plain_bytes key).
Proof using write_appends.
  intros Hr (Hk & _ & _). unfold storage_db_snapshot_rdb_write_value_header.
  pose proof (expiry_bytes_short e) as Hb. pose proof (length_bytes_pos (zlen key)) as Hlb.
  pose proof (zlen_nonneg (expiry_bytes e)).
  assert (buffer_length (channel sn) = STORAGE_BUFFERED_CHANNEL_BUFFER_SIZE) as -> by (destruct Hr as [[] _]; done).
  set (can := 128 + zlen key <? STORAGE_BUFFERED_CHANNEL_BUFFER_SIZE).
  set (size := if can then 128 + zlen key else 128).
  assert (128 <= size <= STORAGE_BUFFERED_CHANNEL_BUFFER_SIZE /\ (can = true -> size = 128 + zlen key)) as [Hsize Hcan].
  { unfold size, can. destruct (Z.ltb_spec (128 + zlen key) STORAGE_BUFFERED_CHANNEL_BUFFER_SIZE);
      unfold STORAGE_BUFFERED_CHANNEL_BUFFER_SIZE in *; split; done || lia. }
  destruct (acquire_ok sn now w size Hr ltac:(lia)) as (a & sn1 & -> & Hin1). cbn [mbind option_bind].
  destruct (encode_expiry_ok sn1 now w a size e Hin1 Hsize) as (sn2 & He2 & Hin2). cbn [mbind option_bind] in He2.
  rewrite He2. cbn [mbind option_bind negb].
  destruct (encode_in_ok sn2 now w a size _ _ _ Hin2 emits_value_type) as (sn3 & -> & Hin3);
    [lia|rewrite zlen1; lia|]. cbn [mbind option_bind]. change (is_ok RESULT_OK) with true. cbn [negb].
  rewrite <- zlen_app.
  destruct (encode_in_ok sn3 now w a size _ _ _ Hin3 (emits_length (zlen key) ltac:(unfold STORAGE_BUFFERED_CHANNEL_BUFFER_SIZE in *; mach_lia)))
    as (sn4 & -> & Hin4); [lia|rewrite zlen_app, zlen1; lia|].
  cbn [mbind option_bind]. change (is_ok RESULT_OK) with true. cbn [negb].
  rewrite Z.eqb_refl. cbn [negb]. rewrite <- zlen_app.
  set (hb := (expiry_bytes e ++ [VALUE_TYPE_STRING]) ++ length_bytes (zlen key)) in *.
  assert (zlen hb <= 128) as Hhb by (unfold hb; rewrite !zlen_app, zlen1; lia).
  assert (forall x, w ++ expiry_bytes e ++ [VALUE_TYPE_STRING] ++ plain_bytes key ++ x = (w ++ hb) ++ key ++ x) as Heq
    by (intros x; unfold hb, plain_bytes; by rewrite <- !app_assoc).
  specialize (Heq []). rewrite !app_nil_r in Heq. rewrite Heq.
  destruct can.
  - destruct (copy_in_ok sn4 now w a size hb key (a + zlen hb) Hin4) as (sn5 & -> & Hin5);
      [rewrite (Hcan eq_refl); lia|done|]. cbn [mbind option_bind].
    destruct (release_ok sn5 now w a size (hb ++ key) (zlen hb + zlen key) Hin5) as (sn6 & -> & Hr6);
      [by rewrite zlen_app|lia|]. exists sn6. by rewrite <- app_assoc.
  - destruct (release_ok sn4 now w a size hb (zlen hb) Hin4 eq_refl ltac:(lia)) as (sn5 & -> & Hr5).
    cbn [mbind option_bind].
    destruct (acquire_ok sn5 now (w ++ hb) (zlen key) Hr5 ltac:(lia)) as (a' & sn6 & -> & Hin6). cbn [mbind option_bind].
    destruct (copy_in_ok sn6 now _ a' (zlen key) [] key a' Hin6) as (sn7 & -> & Hin7); [rewrite zlen0; lia|rewrite zlen0; lia|].
    cbn [mbind option_bind].
    destruct (release_ok sn7 now _ a' (zlen key) key (zlen key) Hin7 eq_refl ltac:(lia)) as (sn8 & -> & Hr8).
    by exists sn8.
Qed.

(** An entry that changed after the start of the snapshot was saved when it
    changed, and is skipped. *)
Definition selected_bytes (now current db : Z) (key : list Z) (e : entry_index) : list Z :=
  (if current =? db then [] else OPCODE_DB_NUMBER :: length_bytes db) ++
  (if now <? snapshot_time_ms e then [] else
     expiry_bytes e ++ [VALUE_TYPE_STRING] ++ plain_bytes key ++ value_bytes e).

Fixpoint entries_bytes (now current : Z) (entries : list (Z * list Z * entry_index)) : list Z :=
  match entries with
  | [] => []
  | (db, key, e) :: entries => selected_bytes now current db key e ++ entries_bytes now db entries
  end.

Lemma write_database_number_ok sn now w db :
  ready sn now w -> 0 <= db < 2 ^ 32 ->
  exists sn', storage_db_snapshot_rdb_write_database_number storage_write sn db = Some (true, sn') /\
    ready sn' now (w ++ OPCODE_DB_NUMBER :: length_bytes db).
Proof using write_appends.
  intros Hr Hdb. pose proof (length_bytes_pos db).
  apply write_encoded_ok; [done|apply emits_db_number; mach_lia| |rewrite zlen_cons; lia].
  unfold STORAGE_BUFFERED_CHANNEL_BUFFER_SIZE. lia.
Qed.

Lemma process_selected_ok sn now w current db key e :
  ready sn now w -> 0 <= db < 2 ^ 32 -> entry_fits key e ->
  exists sn', process_selected storage_write sn current db key e = Some (true, sn', db) /\
    ready sn' now (w ++ selected_bytes now current db key e).
Proof using write_appends.
  intros Hr Hdb Hfit. unfold process_selected, selected_bytes.
  assert (exists sn1, (if negb (current =? db) then storage_db_snapshot_rdb_write_database_number storage_write sn db
    else Some (true, sn)) = Some (true, sn1) /\
    ready sn1 now (w ++ (if current =? db then [] else OPCODE_DB_NUMBER :: length_bytes db))) as (sn1 & -> & Hr1).
  { destruct (current =? db); cbn [negb]; [exists sn; by rewrite app_nil_r|]. by apply write_database_number_ok. }
  cbn [mbind option_bind negb]. unfold storage_db_snapshot_rdb_process_entry_index.
  rewrite (app_assoc w). set (w1 := w ++ _) in *.
  pose proof Hr1 as (_ & _ & _ & ->). destruct (now <? snapshot_time_ms e).
  - cbn [mbind option_bind negb]. eexists. split; [reflexivity|]. rewrite app_nil_r. exact Hr1.
  - destruct (write_value_header_ok sn1 now w1 key e Hr1 Hfit) as (sn2 & -> & Hr2). cbn [mbind option_bind negb].
    destruct (write_value_string_ok sn2 now _ key e Hr2 Hfit) as (sn3 & -> & Hr3). cbn [mbind option_bind negb].
    eexists. split; [reflexivity|]. rewrite <- !app_assoc in Hr3. exact Hr3.
Qed.

Definition entry_ok (x : Z * list Z * entry_index) : Prop :=
  let '(db, key, e) := x in 0 <= db < 2 ^ 32 /\ entry_fits key e.

Lemma process_all_ok entries : forall sn now w current,
  ready sn now w -> Forall entry_ok entries ->
  exists sn', process_all storage_write sn current entries = Some (true, sn') /\
    ready sn' now (w ++ entries_bytes now current entries).
Proof using write_appends.
  induction entries as [|[[db key] e] entries IH]; intros sn now w current Hr Hok; cbn [process_all entries_bytes].
  { exists sn. by rewrite app_nil_r. }
  apply Forall_cons in Hok as [[Hdb Hfit] Hok].
  destruct (process_selected_ok sn now w current db key e Hr Hdb Hfit) as (sn1 & -> & Hr1).
  cbn [mbind option_bind negb]. destruct (IH sn1 now _ db Hr1 Hok) as (sn2 & -> & Hr2).
  exists sn2. by rewrite app_assoc.
Qed.

Definition file_bytes (now : Z) (entries : list (Z * list Z * entry_index)) : list Z :=
  header_bytes STORAGE_DB_SNAPSHOT_RDB_VERSION ++ (OPCODE_DB_NUMBER :: length_bytes 0) ++
  entries_bytes now 0 entries ++ OPCODE_EOF :: le_bytes 8 0.

Lemma snapshot_file_ok garbage now entries :
  zlen garbage = STORAGE_BUFFERED_CHANNEL_BUFFER_SIZE -> Forall entry_ok entries ->
  snapshot_file storage_write garbage now entries = Some (file_bytes now entries).
Proof using write_appends.
  intros Hg Hok. unfold snapshot_file, storage_db_snapshot_rdb_prepare, storage_db_snapshot_rdb_completed_successfully.
  assert (ready (Snapshot (storage_buffered_channel_new garbage) 0 0 0) 0 []) as Hr0.
  { split; [by split; cbn; unfold STORAGE_BUFFERED_CHANNEL_BUFFER_SIZE|]. done. }
  destruct (write_encoded_ok _ 0 [] 128 _ _ Hr0 (emits_header STORAGE_DB_SNAPSHOT_RDB_VERSION))
    as (sn1 & -> & Hr1); [unfold STORAGE_BUFFERED_CHANNEL_BUFFER_SIZE; lia|by vm_compute|].
  cbn [mbind option_bind negb app] in *.
  destruct (write_database_number_ok sn1 0 _ 0 Hr1 ltac:(lia)) as (sn2 & -> & (Hc2 & Hs2 & Hw2 & _)).
  cbn [mbind option_bind negb].
  assert (ready (Snapshot (channel sn2) (data_written sn2) (keys_written sn2) now) now
    (header_bytes STORAGE_DB_SNAPSHOT_RDB_VERSION ++ OPCODE_DB_NUMBER :: length_bytes 0)) as Hr2 by done.
  destruct (process_all_ok entries _ now _ 0 Hr2 Hok) as (sn3 & -> & Hr3). cbn [mbind option_bind negb].
  destruct (write_encoded_ok sn3 now _ 128 _ _ Hr3 (emits_eof 0)) as (sn4 & -> & (Hc4 & Hs4 & Hw4 & _));
    [unfold STORAGE_BUFFERED_CHANNEL_BUFFER_SIZE; lia|rewrite zlen_cons, zlen_le_bytes; lia|].
  cbn [mbind option_bind negb]. destruct (flush_ok _ Hc4 Hs4) as (ch & -> & _ & _ & Hf & _).
  cbn [mbind option_bind negb]. cbn. rewrite Hf, Hw4. unfold file_bytes. by rewrite <- !app_assoc.
Qed.
End writing.

(** ** Reading the file back *)

Definition loaded_value (e : entry_index) : list Z :=
  match value e with [c] => saved_form c | cs => concat cs end.

(** The pair an entry is loaded as, if it has not expired when the load
    starts. *)
Definition loaded (start now : Z) (x : Z * list Z * entry_index) : list load_op :=
  let '(db, key, e) := x in
  if now <? snapshot_time_ms e then [] else
  if (expiry_time_ms e =? 0) || (start <? expiry_time_ms e)
  then [LoadSet db key (loaded_value e) (expiry_time_ms e)] else [].

Section loading.
Context (lzf_decompress : list Z -> Z -> list Z) (start : Z).

(** The loop ends in a given state, with any sufficient fuel. *)
Definition loads (st : load_state) (x : Z) (l : list Z) (st' : load_state) (l' : list Z) : Prop :=
  forall fuel, (length l < fuel)%nat ->
    load_opcodes lzf_decompress start fuel st x l = Some (st', l').

Lemma loads_step st x l st1 x1 l1 st' l' :
  load_opcode lzf_decompress start st x l = Some (inr (st1, x1, l1)) -> (length l1 < length l)%nat ->
  loads st1 x1 l1 st' l' -> loads st x l st' l'.
Proof.
  intros Ho Hl Hr [|fuel] Hf; [lia|]. cbn [load_opcodes]. rewrite Ho. cbn [mbind option_bind].
  apply Hr. lia.
Qed.

Lemma loads_eof st x rest : loads st x (OPCODE_EOF :: rest) st rest.
Proof.
  intros [|fuel] Hf; [cbn in Hf; lia|]. cbn [load_opcodes]. unfold load_opcode, load_read_opcode.
  by rewrite read_byte_cons.
Qed.

Lemma load_db st x db rest :
  0 <= db < 2 ^ 32 ->
  load_opcode lzf_decompress start st x (OPCODE_DB_NUMBER :: length_bytes db ++ rest) =
  Some (inr (LoadState db (counter_strings st) (counter_expires st) (counter_expires_expired st) (sets st), x, rest)).
Proof.
  intros Hdb. unfold load_opcode, load_read_opcode. rewrite read_byte_cons. cbn [mbind option_bind].
  cbn [Z.eqb Pos.eqb OPCODE_DB_NUMBER OPCODE_EOF OPCODE_AUX]. unfold load_process_opcode_db_number.
  rewrite read_length_bytes by mach_lia. cbn [mbind option_bind]. by rewrite (wrap_small 32 db) by mach_lia.
Qed.

Lemma load_expiry st x t rest :
  0 <= t < 2 ^ 64 ->
  exists st', load_opcode lzf_decompress start st x (OPCODE_EXPIRE_TIME_MS :: le_bytes 8 t ++ rest) =
    Some (inr (st', t, rest)) /\
    current_database_number st' = current_database_number st /\ sets st' = sets st.
Proof.
  intros Ht. unfold load_opcode, load_read_opcode. rewrite read_byte_cons. cbn [mbind option_bind].
  cbn [Z.eqb Pos.eqb OPCODE_EXPIRE_TIME_MS OPCODE_EXPIRE_TIME OPCODE_DB_NUMBER OPCODE_RESIZE_DB OPCODE_EOF OPCODE_AUX orb].
  unfold load_process_opcode_expire_time. cbn [Z.eqb Pos.eqb OPCODE_EXPIRE_TIME_MS].
  rewrite (load_read_app (le_bytes 8 t) rest 8) by (by rewrite zlen_le_bytes). cbn [mbind option_bind].
  rewrite le_value_bytes, Z.mod_small by (change (256 ^ Z.of_nat 8) with (2 ^ 64); lia).
  by eexists.
Qed.

Lemma read_value_bytes e rest :
  zlen (concat (value e)) < 2 ^ 63 ->
  load_read_string lzf_decompress (value_bytes e ++ rest) = Some (loaded_value e, rest).
Proof.
  intros Hl. unfold value_bytes, loaded_value.
  destruct (value e) as [|c [|c2 cs]]; [by apply read_plain_bytes| |apply read_plain_bytes; mach_lia].
  cbn [concat] in Hl. rewrite app_nil_r in Hl. unfold saved_form.
  destruct (can_encode_total c) as (b & n & -> & Hn). destruct b.
  - by apply read_int_bytes, Hn.
  - apply read_plain_bytes. mach_lia.
Qed.

Lemma load_value st x key e rest :
  entry_fits key e ->
  exists st', load_opcode lzf_decompress start st x
      (VALUE_TYPE_STRING :: plain_bytes key ++ value_bytes e ++ rest) = Some (inr (st', 0, rest)) /\
    current_database_number st' = current_database_number st /\
    sets st' = sets st ++ (if (x =? 0) || (start <? x)
                           then [LoadSet (current_database_number st) key (loaded_value e) x] else []).
Proof.
  intros (Hk & _ & Hl). unfold load_opcode, load_read_opcode. rewrite read_byte_cons. cbn [mbind option_bind].
  cbn [Z.eqb Pos.eqb VALUE_TYPE_STRING OPCODE_EXPIRE_TIME_MS OPCODE_EXPIRE_TIME OPCODE_DB_NUMBER OPCODE_RESIZE_DB OPCODE_EOF OPCODE_AUX orb].
  unfold load_process_value_string.
  rewrite read_plain_bytes by (unfold STORAGE_BUFFERED_CHANNEL_BUFFER_SIZE in *; mach_lia). cbn [mbind option_bind].
  rewrite read_value_bytes by done. cbn [mbind option_bind].
  eexists. split; [reflexivity|]. split; [done|]. cbn [sets].
  destruct ((x =? 0) || (start <? x)); [done|]. by rewrite app_nil_r.
Qed.

Definition entry_saved (x : Z * list Z * entry_index) : Prop :=
  entry_ok x /\ let '(_, _, e) := x in 0 <= expiry_time_ms e < 2 ^ 63.

Lemma loads_value st key e rest :
  entry_fits key e -> 0 <= expiry_time_ms e < 2 ^ 63 ->
  exists st1, current_database_number st1 = current_database_number st /\
    sets st1 = sets st ++ (if (expiry_time_ms e =? 0) || (start <? expiry_time_ms e)
      then [LoadSet (current_database_number st) key (loaded_value e) (expiry_time_ms e)] else []) /\
    forall st' l', loads st1 0 rest st' l' ->
      loads st 0 (expiry_bytes e ++ [VALUE_TYPE_STRING] ++ plain_bytes key ++ value_bytes e ++ rest) st' l'.
Proof.
  intros Hfit He. unfold expiry_bytes. destruct (Z.eqb_spec (expiry_time_ms e) 0) as [H0|H0].
  - cbn [app]. destruct (load_value st 0 key e rest Hfit) as (st1 & Hl & Hd & Hs).
    exists st1. split; [done|]. split; [by rewrite Hs, H0|]. intros st' l' Hr.
    eapply loads_step; [exact Hl|cbn; rewrite !length_app; lia|done].
  - rewrite (wrap_small 64) by mach_lia.
    destruct (load_expiry st 0 (expiry_time_ms e) ([VALUE_TYPE_STRING] ++ plain_bytes key ++ value_bytes e ++ rest)
      ltac:(mach_lia)) as (st1 & Hl1 & Hd1 & Hs1).
    destruct (load_value st1 (expiry_time_ms e) key e rest Hfit) as (st2 & Hl2 & Hd2 & Hs2).
    exists st2. split; [congruence|]. split.
    + rewrite Hs2, Hs1, Hd1. do 2 f_equal. destruct (Z.eqb_spec (expiry_time_ms e) 0); done.
    + intros st' l' Hr. eapply loads_step; [exact Hl1|cbn; rewrite !length_app; cbn; lia|]. cbn [app].
      eapply loads_step; [exact Hl2|cbn; rewrite !length_app; lia|done].
Qed.

Lemma loads_entries now entries : forall st current,
  Forall entry_saved entries -> current_database_number st = current ->
  exists st', loads st 0 (entries_bytes now current entries ++ OPCODE_EOF :: le_bytes 8 0) st' (le_bytes 8 0) /\
    sets st' = sets st ++ flat_map (loaded start now) entries.
Proof.
  induction entries as [|[[db key] e] entries IH]; intros st current Hok Hcur; cbn [entries_bytes flat_map].
  { exists st. split; [apply loads_eof|by rewrite app_nil_r]. }
  apply Forall_cons in Hok as [[[Hdb Hfit] He] Hok]. unfold selected_bytes. rewrite <- !app_assoc.
  set (st1 := LoadState db (counter_strings st) (counter_expires st) (counter_expires_expired st) (sets st)).
  assert (forall rest st' l', loads st1 0 rest st' l' ->
    loads st 0 ((if current =? db then [] else OPCODE_DB_NUMBER :: length_bytes db) ++ rest) st' l') as Hdbs.
  { intros rest st' l' Hr. destruct (Z.eqb_spec current db) as [->|Hne]; cbn [app].
    - replace st with st1 by (unfold st1; rewrite <- Hcur; by destruct st). done.
    - eapply loads_step; [by apply load_db|cbn; rewrite length_app; lia|done]. }
  unfold loaded at 1. destruct (now <? snapshot_time_ms e).
  - destruct (IH st1 db Hok eq_refl) as (st' & Hl & Hs). exists st'. split; [by apply Hdbs|done].
  - rewrite <- !app_assoc.
    destruct (loads_value st1 key e (entries_bytes now db entries ++ OPCODE_EOF :: le_bytes 8 0) Hfit He)
      as (st2 & Hd2 & Hs2 & Hl2).
    destruct (IH st2 db Hok Hd2) as (st' & Hl & Hs). exists st'. split; [by apply Hdbs, Hl2|].
    rewrite Hs, Hs2. by rewrite <- app_assoc.
Qed.

Lemma validate_magic rest :
  load_validate_magic (header_bytes STORAGE_DB_SNAPSHOT_RDB_VERSION ++ rest) =
  Some (true, digits 4 STORAGE_DB_SNAPSHOT_RDB_VERSION ++ rest).
Proof.
  unfold load_validate_magic, header_bytes. rewrite <- app_assoc, load_read_app by done.
  cbn [mbind option_bind]. by rewrite bool_decide_eq_true_2.
Qed.

Lemma validate_version rest :
  load_validate_version (digits 4 STORAGE_DB_SNAPSHOT_RDB_VERSION ++ rest) = Some (true, rest).
Proof. unfold load_validate_version. by rewrite load_read_app. Qed.

End loading.


(** Appending is what [storage_write] does on a file that is only written at
    its end. *)
Definition append_write (f d : list Z) (off : Z) : option (list Z) :=
  if off =? zlen f then Some (f ++ d) else None.

Definition example_entries : list (Z * list Z * entry_index) :=
  [(0, bytes_of "k", Entry [bytes_of "hello"] 0 0);
   (3, bytes_of "n", Entry [bytes_of "-42"] 5000 0);
   (3, bytes_of "gone", Entry [bytes_of "x"] 10 0);
   (3, bytes_of "later", Entry [bytes_of "x"] 0 101)].


Example example_loaded :
  flat_map (loaded 1000 100) example_entries =
  [LoadSet 0 (bytes_of "k") (bytes_of "hello") 0; LoadSet 3 (bytes_of "n") (bytes_of "-42") 5000].
Proof. vm_compute. reflexivity. Qed.

(** ** The buckets of a block *)

Lemma iter_slots_ge n d ch all db c : forall slot r,
  HashtableMcmp.iter_slots n d ch all db c slot = Some (Some r) ->
  c * HashtableMcmp.CHUNK_SLOTS + slot <= r < HashtableMcmp.buckets_count_real d.
Proof.
  induction n as [|n IH]; intros slot r; cbn [HashtableMcmp.iter_slots]; [done|].
  unfold HashtableMcmp.guard_assert. destruct (Z.ltb_spec (c * HashtableMcmp.CHUNK_SLOTS + slot)
    (HashtableMcmp.buckets_count_real d)); [|done]. cbn [mbind option_bind].
  destruct (zget _ slot) as [id|]; [|done]. cbn [mbind option_bind].
  destruct (id =? 0); [intros Hr; apply IH in Hr; lia|].
  destruct (zget _ (_ + slot)) as [kv|]; [|done]. cbn [mbind option_bind].
  destruct (_ || _); [intros Hr; apply IH in Hr; lia|].
  destruct (_ && _); [intros Hr; apply IH in Hr; lia|]. intros [= <-]. lia.
Qed.

Lemma iter_chunks_ge n d all db : forall c slot distance max r,
  HashtableMcmp.iter_chunks n d all db c slot distance max = Some r -> 0 <= slot < HashtableMcmp.CHUNK_SLOTS ->
  r = HashtableMcmp.OP_ITER_END \/
  c * HashtableMcmp.CHUNK_SLOTS + slot <= r < HashtableMcmp.buckets_count_real d.
Proof.
  induction n as [|n IH]; intros c slot distance max r; cbn [HashtableMcmp.iter_chunks].
  { intros [= <-] _. by left. }
  destruct (zget _ c) as [ch|]; [|done]. cbn [mbind option_bind].
  destruct (max <=? distance); [intros [= <-] _; by left|].
  destruct (_ =? 0).
  { intros Hr Hs. apply IH in Hr as [|]; [by left|right|]; unfold HashtableMcmp.CHUNK_SLOTS in *; lia. }
  destruct (HashtableMcmp.iter_slots _ _ _ _ _ _ _) as [[b|]|] eqn:Hsl; [| |done]; cbn [mbind option_bind].
  - intros [= <-] _. right. by apply iter_slots_ge in Hsl.
  - intros Hr Hs. apply IH in Hr as [|]; [by left|right|]; unfold HashtableMcmp.CHUNK_SLOTS in *; lia.
Qed.

(** The iteration returns an entry not before the bucket it starts from. *)
Lemma iter_internal_ge d all db i max r :
  HashtableMcmp.hashtable_mcmp_op_iter_internal d all db i max = Some r ->
  r = HashtableMcmp.OP_ITER_END \/ i <= r < HashtableMcmp.buckets_count_real d.
Proof.
  unfold HashtableMcmp.hashtable_mcmp_op_iter_internal. intros Hr.
  apply iter_chunks_ge in Hr; [|apply Z.mod_pos_bound; done].
  destruct Hr as [|Hr]; [by left|right].
  rewrite (Z.div_mod i HashtableMcmp.CHUNK_SLOTS) by done. lia.
Qed.

(** Consecutive fetches are at least two buckets apart. *)
Fixpoint spaced (l : list Z) : Prop :=
  match l with
  | b :: ((b' :: _) as l) => b + 2 <= b' /\ spaced l
  | _ => True
  end.

Lemma block_loop_spaced d be bend fuel : forall b l,
  HashtableMcmp.buckets_count_real d < 2 ^ 64 -> bend < 2 ^ 64 -> 0 <= b ->
  block_loop d fuel b be bend = Some l ->
  spaced l /\ forall x l', l = x :: l' -> b + 1 <= x.
Proof.
  induction fuel as [|fuel IH]; intros b l Hd Hbend Hb; cbn [block_loop]; [done|].
  destruct (Z.ltb_spec b be), (Z.ltb_spec b bend); cbn [andb negb]; try (intros [= <-]; done).
  rewrite (wrap_small 64 (b + 1)) by mach_lia.
  destruct (HashtableMcmp.hashtable_mcmp_op_iter_internal _ _ _ _ _) as [r|] eqn:Hr; [|done].
  cbn [mbind option_bind]. apply iter_internal_ge in Hr.
  destruct (Z.eqb_spec r HashtableMcmp.OP_ITER_END); [intros [= <-]; done|].
  destruct Hr as [|Hr]; [done|]. rewrite (wrap_small 64 (r + 1)) by (unfold HashtableMcmp.OP_ITER_END in *; mach_lia).
  destruct (block_loop d fuel (r + 1) be bend) as [rest|] eqn:Hrest; [|done].
  cbn [mbind option_bind]. intros [= <-].
  destruct (IH (r + 1) rest Hd Hbend ltac:(lia) Hrest) as [Hsp Hhd].
  split; [|intros x l' [= <- <-]; lia].
  destruct rest as [|r' rest]; [done|]. split; [|done]. specialize (Hhd r' rest eq_refl). lia.
Qed.

(** A snapshot does not save every entry.  Whatever the table holds, the
    first block fetches no bucket at all (its loop starts from the index before
    bucket 0, which wraps to the greatest 64-bit number); and in every block,
    the bucket after a fetched one is never fetched, since the index is
    incremented twice. *)
Theorem snapshot_block_misses_buckets (d : HashtableMcmp.hashtable_data) (block_index : Z) (l : list Z) :
  HashtableMcmp.buckets_count_real d < 2 ^ 64 -> block_buckets d block_index = Some l ->
  (block_index = 0 -> l = []) /\ spaced l.
Proof.
  intros Hd Hl. split.
  - intros ->. unfold block_buckets in Hl.
    change (u64 (u64 (0 * STORAGE_DB_SNAPSHOT_BLOCK_SIZE) - 1)) with (2 ^ 64 - 1) in Hl.
    change (u64 (u64 (0 * STORAGE_DB_SNAPSHOT_BLOCK_SIZE) + STORAGE_DB_SNAPSHOT_BLOCK_SIZE)) with 65536 in Hl.
    cbn [block_loop] in Hl. change (2 ^ 64 - 1 <? 65536) with false in Hl. by injection Hl as <-.
  - unfold block_buckets in Hl. eapply block_loop_spaced; [exact Hd|exact Hd| |exact Hl].
    apply wrap_range. lia.
Qed.

(** A table with one entry, in bucket 0. *)
Definition one_entry : HashtableMcmp.hashtable_data :=
  HashtableMcmp.HtData 1 14 1 [Transaction.Transaction.transaction_rwspinlock_init]
    [HashtableMcmp.Chunk 0 1 false (1 :: replicate 13 0)]
    (HashtableMcmp.KeyValue 2 0 1 (Some [65]) 7 :: replicate 13 HashtableMcmp.empty_key_value).

Lemma snapshot_block_misses_buckets_witness : (0 = 0 -> @nil Z = []) /\ spaced [].
Proof.
  apply (snapshot_block_misses_buckets one_entry 0 []); [done|]. unfold block_buckets.
  change (u64 (u64 (0 * STORAGE_DB_SNAPSHOT_BLOCK_SIZE) - 1)) with (2 ^ 64 - 1).
  cbn [block_loop]. reflexivity.
Defined.

End SnapshotRdb.
