(* ===== verification/EntryStatus.v ===== *)
(** * EntryStatus: the status word of an entry, its readers and its deletion

    storage/db/storage_db.h and storage_db.c.  The status of an entry is one
    64-bit word: a 31-bit counter of readers, the deleted flag and a 32-bit
    counter of accesses.  The first part models the operations on the word; the
    second one is a transition system of any number of readers and of the
    worker that deletes the entry, each atomic access being one step. *)

From S2P Require Import Prelude.

Module EntryStatus.

(** ** The word: [union storage_db_entry_index_status] *)

Definition readers_counter (w : Z) : Z := Z.land w 0x7FFFFFFF.
Definition deleted (w : Z) : bool := Z.testbit w 31.
Definition accesses_counter (w : Z) : Z := Z.shiftr w 32.

Definition status_pack (readers : Z) (del : bool) (accesses : Z) : Z :=
  readers + Z.b2z del * 2 ^ 31 + accesses * 2 ^ 32.

Definition UINT32_MAX : Z := 2 ^ 32 - 1.

(** The new value of the compare-and-swap loop of [increase_readers_counter]. *)
Definition status_bump (old : Z) : Z :=
  let accesses := u32 (accesses_counter old + 1) in
  let accesses := if accesses =? UINT32_MAX then u32 (accesses - 1) else accesses in
  status_pack (wrap 31 (readers_counter old + 1)) (deleted old) accesses.

(** The new word and the status given back to the caller. *)
Definition storage_db_entry_index_status_increase_readers_counter (w : Z) : option (Z * Z) :=
  let new := status_bump w in
  if Z.land w 0x7FFFFFFF =? 0x7FFFFFFF then None else
  if deleted w then Some (u64 (new - 1), new) else Some (new, new).

Definition storage_db_entry_index_status_decrease_readers_counter (w : Z) : option (Z * Z) :=
  let old_cas_wrapper_ret := u32 w in
  if negb (0 <? Z.land old_cas_wrapper_ret 0x7FFFFFFF) then None else
  Some (u64 (w - 1), old_cas_wrapper_ret).

Definition storage_db_entry_index_status_set_deleted (w : Z) (del : bool) : Z * Z :=
  (Z.lor w (if del then 0x80000000 else 0), u32 w).

(** ** The fields of a packed word *)

Definition fields_ok (r a : Z) : Prop := 0 <= r < 2 ^ 31 /\ 0 <= a < 2 ^ 32.

Lemma b2z_bounds b : 0 <= Z.b2z b <= 1.
Proof. by destruct b. Qed.

Lemma readers_pack r d a : fields_ok r a -> readers_counter (status_pack r d a) = r.
Proof.
  intros [Hr Ha]. unfold readers_counter, status_pack. change 0x7FFFFFFF with (Z.ones 31).
  rewrite Z.land_ones by lia.
  replace (r + Z.b2z d * 2 ^ 31 + a * 2 ^ 32) with (r + (Z.b2z d + a * 2) * 2 ^ 31) by lia.
  rewrite Z_mod_plus_full. by apply Z.mod_small.
Qed.

Lemma deleted_pack r d a : fields_ok r a -> deleted (status_pack r d a) = d.
Proof.
  intros [Hr Ha]. unfold deleted, status_pack. apply Z.b2z_inj. rewrite Z.testbit_spec' by lia.
  replace (r + Z.b2z d * 2 ^ 31 + a * 2 ^ 32) with (r + (Z.b2z d + a * 2) * 2 ^ 31) by lia.
  rewrite Z.div_add, (Z.div_small r), Z.add_0_l, Z_mod_plus_full by lia.
  pose proof (b2z_bounds d). apply Z.mod_small. lia.
Qed.

Lemma accesses_pack r d a : fields_ok r a -> accesses_counter (status_pack r d a) = a.
Proof.
  intros [Hr Ha]. unfold accesses_counter, status_pack. rewrite Z.shiftr_div_pow2 by lia.
  rewrite Z.div_add by lia. rewrite Z.div_small; [lia|]. pose proof (b2z_bounds d). lia.
Qed.

Lemma pack_range r d a : fields_ok r a -> 0 <= status_pack r d a < 2 ^ 64.
Proof. intros [Hr Ha]. unfold status_pack. pose proof (b2z_bounds d). mach_lia. Qed.

(** The word [w] holds [r] readers and the flag [d]; the accesses counter never
    reaches its greatest value. *)
Definition holds (w r : Z) (d : bool) : Prop :=
  0 <= r < 2 ^ 31 /\ exists a, 0 <= a < UINT32_MAX /\ w = status_pack r d a.

Lemma holds_zero : holds 0 0 false.
Proof. split; [lia|]. exists 0. split; [done|]. done. Qed.

Lemma holds_fields w r d : holds w r d -> readers_counter w = r /\ deleted w = d /\ 0 <= w < 2 ^ 64.
Proof.
  intros (Hr & a & Ha & ->). assert (fields_ok r a) as Hok by (unfold UINT32_MAX in Ha; split; mach_lia).
  split_and!; [by apply readers_pack|by apply deleted_pack|by apply pack_range..].
Qed.

Lemma holds_bump w r d : holds w r d -> r < 2 ^ 31 - 1 -> holds (status_bump w) (r + 1) d.
Proof.
  intros (Hr & a & Ha & ->) Hlt. split; [lia|]. unfold UINT32_MAX in *.
  assert (fields_ok r a) as Hok by (split; mach_lia).
  unfold status_bump, UINT32_MAX. rewrite readers_pack, deleted_pack, accesses_pack by done.
  rewrite (wrap_small 31), (wrap_small 32 (a + 1)) by mach_lia.
  destruct (Z.eqb_spec (a + 1) (2 ^ 32 - 1)) as [He|He].
  - rewrite (wrap_small 32) by mach_lia. exists (a + 1 - 1). split; [lia|done].
  - exists (a + 1). split; [lia|done].
Qed.

Lemma holds_sub w r d : holds w r d -> 0 < r -> holds (u64 (w - 1)) (r - 1) d.
Proof.
  intros Hw Hr. destruct (holds_fields w r d Hw) as (_ & _ & Hw0). destruct Hw as (Hr0 & a & Ha & ->).
  split; [lia|]. exists a. split; [done|]. rewrite wrap_small; unfold status_pack in *.
  - lia.
  - pose proof (b2z_bounds d). lia.
Qed.

Lemma holds_set_deleted w r d : holds w r d -> holds (Z.lor w 0x80000000) r true.
Proof.
  intros (Hr & a & Ha & ->). split; [done|]. exists a. split; [done|]. unfold UINT32_MAX in Ha.
  assert (fields_ok r a) as Hok by (split; mach_lia).
  change 0x80000000 with (2 ^ 31). destruct d.
  - apply Z.bits_inj. intros i. rewrite Z.lor_spec. destruct (decide (i < 0)); [by rewrite !Z.testbit_neg_r|].
    rewrite Z.pow2_bits_eqb by lia. destruct (Z.eqb_spec 31 i) as [<-|]; [|by rewrite orb_false_r].
    rewrite orb_true_r. symmetry. exact (deleted_pack r true a Hok).
  - rewrite Z.lor_comm, <- Z.lxor_lor, <- Z.add_nocarry_lxor; unfold status_pack; cbn [Z.b2z]; [lia|..].
    all: apply Z.bits_inj; intros i; rewrite Z.land_spec, Z.bits_0.
    all: destruct (decide (i < 0)); [by rewrite !Z.testbit_neg_r|].
    all: rewrite Z.pow2_bits_eqb by lia; destruct (Z.eqb_spec 31 i) as [<-|]; [|done].
    all: rewrite andb_true_l; exact (deleted_pack r false a Hok).
Qed.

Lemma land32 w : Z.land (u32 w) 0x7FFFFFFF = readers_counter w.
Proof.
  unfold readers_counter. change 0x7FFFFFFF with (Z.ones 31). rewrite !Z.land_ones by lia.
  unfold wrap.
  apply Z.mod_mod_divide. by exists 2.
Qed.

(** ** The operations on the fields *)

Lemma increase_live w r :
  holds w r false -> r < 2 ^ 31 - 1 ->
  exists w', storage_db_entry_index_status_increase_readers_counter w = Some (w', w') /\ holds w' (r + 1) false.
Proof.
  intros Hw Hr. destruct (holds_fields w r false Hw) as (Hrd & Hd & _).
  exists (status_bump w). split; [|by apply holds_bump].
  unfold storage_db_entry_index_status_increase_readers_counter.
  fold (readers_counter w). rewrite Hrd, Hd. destruct (Z.eqb_spec r 0x7FFFFFFF); [lia|done].
Qed.

Lemma decrease_ok w r d :
  holds w r d -> 0 < r ->
  exists w' old, storage_db_entry_index_status_decrease_readers_counter w = Some (w', old) /\ holds w' (r - 1) d.
Proof.
  intros Hw Hr. destruct (holds_fields w r d Hw) as (Hrd & _ & _).
  exists (u64 (w - 1)), (u32 w). split; [|by apply holds_sub].
  unfold storage_db_entry_index_status_decrease_readers_counter. rewrite land32, Hrd.
  by destruct (Z.ltb_spec 0 r); [|lia].
Qed.

Lemma set_deleted_ok w r d :
  holds w r d ->
  holds (storage_db_entry_index_status_set_deleted w true).1 r true /\
  readers_counter (storage_db_entry_index_status_set_deleted w true).2 = r.
Proof.
  intros Hw. split; [by eapply holds_set_deleted|]. cbn [snd storage_db_entry_index_status_set_deleted].
  unfold readers_counter. rewrite land32. by destruct (holds_fields w r d Hw).
Qed.

(** ** Readers and deletion of one entry

    A reader got the pointer from the hashtable, maybe before the entry was
    deleted.  [RFailed] is a reader whose compare-and-swap found the deleted
    flag, before its [__sync_fetch_and_sub]; [RReading] has been given the
    entry.  The worker that removed the entry from the hashtable marks it and
    either frees its chunks at once or leaves it in the list of the deleting
    entries, from which the garbage collection frees it. *)

Inductive reader := RIdle | RFailed | RReading.
Inductive phase := Live | Deleting | Freed.

#[global] Instance phase_eq_dec : EqDecision phase.
Proof. solve_decision. Defined.

Record entry_config := EntryConfig {
  word : Z;
  life : phase;
  readers : list reader
}.

Inductive entry_step : entry_config -> entry_config -> Prop :=
  | step_acquire w p rs t :
      rs !! t = Some RIdle -> Z.land w 0x7FFFFFFF <> 0x7FFFFFFF ->
      entry_step (EntryConfig w p rs)
        (EntryConfig (status_bump w) p (<[t := if deleted w then RFailed else RReading]> rs))
  | step_drop w p rs t :
      rs !! t = Some RFailed ->
      entry_step (EntryConfig w p rs) (EntryConfig (u64 (w - 1)) p (<[t := RIdle]> rs))
  | step_release w p rs t w' old :
      rs !! t = Some RReading ->
      storage_db_entry_index_status_decrease_readers_counter w = Some (w', old) ->
      entry_step (EntryConfig w p rs) (EntryConfig w' p (<[t := RIdle]> rs))
  | step_mark w rs w' old :
      storage_db_entry_index_status_set_deleted w true = (w', old) ->
      entry_step (EntryConfig w Live rs)
        (EntryConfig w' (if readers_counter old =? 0 then Freed else Deleting) rs)
  | step_collect w rs :
      readers_counter w = 0 ->
      entry_step (EntryConfig w Deleting rs) (EntryConfig w Freed rs).

Definition entry_init (n : nat) : entry_config := EntryConfig 0 Live (replicate n RIdle).

Definition counts (r : reader) : Z := match r with RIdle => 0 | _ => 1 end.

Lemma counts_nonneg r : 0 <= counts r.
Proof. by destruct r. Qed.

Record entry_inv (c : entry_config) : Prop := {
  ei_word : holds (word c) (zsum counts (readers c)) (if decide (life c = Live) then false else true);
  ei_freed : life c = Freed -> forall t, readers c !! t <> Some RReading
}.

Lemma no_reader_counted rs : zsum counts rs = 0 -> forall t, rs !! t <> Some RReading.
Proof. intros Hz t Ht. pose proof (zsum_lookup counts counts_nonneg _ _ _ Ht) as Hl. cbn in Hl. lia. Qed.

Lemma not_reading_insert (rs : list reader) t x :
  (forall u, rs !! u <> Some RReading) -> x <> RReading -> forall u, <[t := x]> rs !! u <> Some RReading.
Proof. intros Hno Hx u [(_ & ? & _)|[_ Hu]]%list_lookup_insert_Some; [done|]. by eapply Hno. Qed.

Lemma entry_step_inv c c' : entry_step c c' -> entry_inv c -> entry_inv c'.
Proof.
  intros Hstep [Hw Hf]. pose proof (holds_fields _ _ _ Hw) as (Hr & Hd & _).
  destruct Hstep as [w p rs t Ht Hmax|w p rs t Ht|w p rs t w' old Ht Hdec|w rs w' old Hset|w rs Hz];
    cbn [word life readers] in *.
  - fold (readers_counter w) in Hmax. rewrite Hr in Hmax. pose proof (proj1 Hw).
    split; cbn [word life readers].
    + rewrite (zsum_insert counts _ _ _ _ Ht). cbn [counts].
      replace (zsum counts rs - 0 + _) with (zsum counts rs + 1) by (destruct (deleted w); cbn; lia).
      apply holds_bump; [done|lia].
    + intros ->. apply not_reading_insert; [by apply Hf|]. by rewrite Hd.
  - pose proof (zsum_lookup counts counts_nonneg _ _ _ Ht) as Hl. cbn [counts] in Hl.
    split; cbn [word life readers].
    + rewrite (zsum_insert counts _ _ _ _ Ht). cbn [counts]. rewrite Z.add_0_r. apply holds_sub; [done|lia].
    + intros Hp. apply not_reading_insert; [by apply Hf|done].
  - pose proof (zsum_lookup counts counts_nonneg _ _ _ Ht) as Hl. cbn [counts] in Hl.
    destruct (decrease_ok _ _ _ Hw ltac:(lia)) as (w1 & old1 & Hdec1 & Hw1).
    rewrite Hdec in Hdec1. injection Hdec1 as <- <-. split; cbn [word life readers].
    + rewrite (zsum_insert counts _ _ _ _ Ht). cbn [counts]. by rewrite Z.add_0_r.
    + intros Hp. apply not_reading_insert; [by apply Hf|done].
  - destruct (set_deleted_ok w _ _ Hw) as [Hw1 Hr1]. rewrite Hset in Hw1, Hr1. cbn [fst snd] in Hw1, Hr1.
    rewrite Hr1. split; cbn [word life readers].
    + by destruct (_ =? 0).
    + destruct (Z.eqb_spec (zsum counts rs) 0) as [H0|]; [|done]. intros _. by apply no_reader_counted.
  - split; cbn [word life readers]; [done|]. intros _. apply no_reader_counted. congruence.
Qed.

Lemma entry_init_inv n : entry_inv (entry_init n).
Proof.
  split; cbn; [|done]. replace (zsum counts (replicate n RIdle)) with 0; [apply holds_zero|].
  induction n as [|n IH]; cbn; [done|]. by rewrite <- IH.
Qed.

(** ** Properties *)

(** C8: however the readers of an entry and the worker that deletes it
    interleave, the chunks of the entry are only freed when no reader holds it
    and nobody can get hold of it afterwards; and once the readers of a deleted
    entry have left, the garbage collection can free it. *)
Theorem entry_index_no_use_after_free (n : nat) (c : entry_config) :
  rtc entry_step (entry_init n) c ->
  (life c = Freed -> forall t, readers c !! t <> Some RReading) /\
  (life c = Deleting -> Forall (fun r => r = RIdle) (readers c) ->
     entry_step c (EntryConfig (word c) Freed (readers c))).
Proof.
  intros Hr. assert (entry_inv c) as [Hw Hf].
  { pose proof (entry_init_inv n) as Hi. clear - Hr Hi. induction Hr; [done|]. eauto using entry_step_inv. }
  split; [done|]. intros Hd Hidle. destruct c as [w p rs]. cbn [word life readers] in *. subst p.
  constructor. destruct (holds_fields _ _ _ Hw) as [-> _].
  clear - Hidle. induction Hidle as [|x rs -> _ IH]; cbn; [done|]. by rewrite IH.
Qed.

(** Two readers, one of which arrives after the deletion. *)
Lemma entry_index_no_use_after_free_witness :
  let c := EntryConfig (status_pack 0 true 2) Freed [RIdle; RIdle] in
  rtc entry_step (entry_init 2) c /\ (forall t, readers c !! t <> Some RReading).
Proof.
  intros c. assert (rtc entry_step (entry_init 2) c) as Hr.
  { eapply rtc_l; [apply (step_acquire 0 Live _ 0); [done|by vm_compute]|].
    eapply rtc_l; [by apply (step_mark _ _ (status_pack 1 true 1))|].
    eapply rtc_l; [apply (step_acquire _ Deleting _ 1); [done|by vm_compute]|].
    eapply rtc_l; [by apply (step_drop _ Deleting _ 1)|].
    eapply rtc_l; [by eapply (step_release _ Deleting _ 0)|].
    eapply rtc_l; [by apply step_collect|]. apply rtc_refl. }
  split; [exact Hr|]. apply (entry_index_no_use_after_free 2 c Hr). reflexivity.
Defined.

End EntryStatus.
