(* ===== verification/Eviction.v ===== *)
(** * Eviction: the sorting network of the keys eviction

    storage/db/storage_db.c.  The candidates for eviction are sorted by a
    bitonic network unrolled over an array of fixed length.  The proof follows
    the zero-one principle: the network commutes with the comparison with any
    threshold, and on arrays of booleans each stage merges the runs of the
    previous one, which is checked by computation block by block. *)

From S2P Require Import Prelude.

Module Eviction.

Definition ARRAY_LENGTH : Z := 64.

Record kv_list_entry := KvEntry { kv_value : Z; kv_key : Z }.

(** ** The code *)

Definition exchange (kv : list kv_list_entry) (i j : Z) : option (list kv_list_entry) :=
  t ← zget kv i;
  u ← zget kv j;
  Some (zset (zset kv i u) j t).

(** The body of the innermost loop. *)
Definition compare_exchange (k j i : Z) (kv : list kv_list_entry) : option (list kv_list_entry) :=
  let ij := Z.lxor i j in
  if i <? ij then
    a ← zget kv i;
    b ← zget kv ij;
    kv ← (if (Z.land i k =? 0) && (kv_key b <? kv_key a) then exchange kv i ij else Some kv);
    a ← zget kv i;
    b ← zget kv ij;
    if negb (Z.land i k =? 0) && (kv_key a <? kv_key b) then exchange kv i ij else Some kv
  else Some kv.

(** for (i = 0; i < array_length; i++) *)
Fixpoint loop_i (fuel : nat) (k j i : Z) (kv : list kv_list_entry) : option (list kv_list_entry) :=
  match fuel with
  | O => None
  | S fuel => if i <? ARRAY_LENGTH then kv ← compare_exchange k j i kv; loop_i fuel k j (u16 (i + 1)) kv
              else Some kv
  end.

(** for (j = k >> 1; j > 0; j = j >> 1) *)
Fixpoint loop_j (fuel : nat) (k j : Z) (kv : list kv_list_entry) : option (list kv_list_entry) :=
  match fuel with
  | O => None
  | S fuel => if 0 <? j then kv ← loop_i 65 k j 0 kv; loop_j fuel k (Z.shiftr j 1) kv else Some kv
  end.

(** for (k = 2; k <= array_length; k = 2 * k) *)
Fixpoint loop_k (fuel : nat) (k : Z) (kv : list kv_list_entry) : option (list kv_list_entry) :=
  match fuel with
  | O => None
  | S fuel => if k <=? ARRAY_LENGTH
              then kv ← loop_j 7 k (Z.shiftr k 1) kv; loop_k fuel (u16 (2 * k)) kv else Some kv
  end.

Definition storage_db_keys_eviction_bitonic_sort_16_elements (kv : list kv_list_entry)
    : option (list kv_list_entry) := loop_k 7 2 kv.

(** ** The network as a list of comparators

    A comparator [(p, q)] leaves the smaller key at [p] and the greater at [q]. *)

Definition comparator := (nat * nat)%type.

Fixpoint sched_i (fuel : nat) (k j i : Z) : list comparator :=
  match fuel with
  | O => []
  | S fuel =>
      if i <? ARRAY_LENGTH then
        let ij := Z.lxor i j in
        (if i <? ij then [if Z.land i k =? 0 then (Z.to_nat i, Z.to_nat ij) else (Z.to_nat ij, Z.to_nat i)]
         else []) ++ sched_i fuel k j (u16 (i + 1))
      else []
  end.

Fixpoint sched_j (fuel : nat) (k j : Z) : list comparator :=
  match fuel with
  | O => []
  | S fuel => if 0 <? j then sched_i 65 k j 0 ++ sched_j fuel k (Z.shiftr j 1) else []
  end.

Definition stage (k : Z) : list comparator := sched_j 7 k (Z.shiftr k 1).

Definition compare (c : comparator) (l : list kv_list_entry) : list kv_list_entry :=
  match l !! c.1, l !! c.2 with
  | Some x, Some y => if kv_key y <? kv_key x then <[c.2 := x]> (<[c.1 := y]> l) else l
  | _, _ => l
  end.

Definition run (cs : list comparator) (l : list kv_list_entry) : list kv_list_entry :=
  fold_left (fun l c => compare c l) cs l.

Lemma run_app cs1 cs2 l : run (cs1 ++ cs2) l = run cs2 (run cs1 l).
Proof. apply fold_left_app. Qed.

Lemma length_compare c l : length (compare c l) = length l.
Proof.
  unfold compare. destruct (l !! c.1), (l !! c.2); try done.
  destruct (_ <? _); [|done]. by rewrite !length_insert.
Qed.

Lemma length_run cs l : length (run cs l) = length l.
Proof.
  revert l. induction cs as [|c cs IH]; intros l; [done|]. cbn. rewrite IH. apply length_compare.
Qed.

Lemma zget_nat {A} (l : list A) i : 0 <= i -> zget l i = l !! Z.to_nat i.
Proof. intros Hi. unfold zget. by destruct (Z.ltb_spec i 0); [lia|]. Qed.

Lemma zset_nat {A} (l : list A) i x : 0 <= i -> zset l i x = <[Z.to_nat i := x]> l.
Proof. intros Hi. unfold zset. by destruct (Z.ltb_spec i 0); [lia|]. Qed.

(** The body of the loop is one comparator. *)
Lemma compare_exchange_compare k j i kv :
  length kv = 64%nat -> 0 <= i < 64 -> 0 <= Z.lxor i j < 64 -> i < Z.lxor i j ->
  compare_exchange k j i kv =
    Some (compare (if Z.land i k =? 0 then (Z.to_nat i, Z.to_nat (Z.lxor i j))
                   else (Z.to_nat (Z.lxor i j), Z.to_nat i)) kv).
Proof.
  intros Hl Hi Hij Hlt. unfold compare_exchange, exchange, compare. set (ij := Z.lxor i j) in *.
  destruct (Z.ltb_spec i ij); [|lia]. rewrite !zget_nat by lia.
  destruct (lookup_lt_is_Some_2 kv (Z.to_nat i)) as [a Ha]; [lia|].
  destruct (lookup_lt_is_Some_2 kv (Z.to_nat ij)) as [b Hb]; [lia|].
  rewrite Ha, Hb. cbn [mbind option_bind].
  destruct (Z.land i k =? 0); cbn [andb negb fst snd mbind option_bind]; rewrite ?Ha, ?Hb.
  - destruct (Z.ltb_spec (kv_key b) (kv_key a)); cbn [mbind option_bind].
    + rewrite !zset_nat, !zget_nat by lia.
      rewrite (list_lookup_insert_ne _ (Z.to_nat ij) (Z.to_nat i)) by lia.
      by rewrite !list_lookup_insert_eq by (rewrite ?length_insert; lia).
    + by rewrite !zget_nat, Ha, Hb by lia.
  - rewrite !zget_nat, Ha, Hb by lia. cbn [mbind option_bind].
    destruct (Z.ltb_spec (kv_key a) (kv_key b)); [|done].
    rewrite !zset_nat by lia. f_equal. by rewrite list_insert_insert_ne by lia.
Qed.

Lemma lxor_64 i j : 0 <= i < 64 -> 0 <= j < 64 -> 0 <= Z.lxor i j < 64.
Proof.
  intros Hi Hj. assert (0 <= Z.lxor i j) as H0 by (apply Z.lxor_nonneg; lia). split; [done|].
  change 64 with (2 ^ 6) in *. apply Z.lt_nge. intros Hge.
  assert (6 <= Z.log2 (Z.lxor i j)) as Hlog by (apply Z.log2_le_pow2; lia).
  pose proof (Z.log2_lxor i j ltac:(lia) ltac:(lia)).
  assert (Z.log2 i < 6 \/ i = 0) by (destruct (decide (i = 0)); [by right|left; apply Z.log2_lt_pow2; lia]).
  assert (Z.log2 j < 6 \/ j = 0) by (destruct (decide (j = 0)); [by right|left; apply Z.log2_lt_pow2; lia]).
  destruct H0; repeat match goal with H : _ \/ _ |- _ => destruct H; subst end; cbn in *; lia.
Qed.

Lemma loop_i_run fuel k j : forall i kv,
  length kv = 64%nat -> 0 <= i <= 64 -> 0 <= j < 64 -> 64 - i < Z.of_nat fuel ->
  loop_i fuel k j i kv = Some (run (sched_i fuel k j i) kv).
Proof.
  induction fuel as [|fuel IH]; intros i kv Hl Hi Hj Hf; cbn [loop_i sched_i]; unfold ARRAY_LENGTH.
  - lia.
  - destruct (Z.ltb_spec i 64) as [Hi64|]; [|done].
    pose proof (lxor_64 i j ltac:(lia) Hj). rewrite run_app, (wrap_small 16) by mach_lia.
    destruct (Z.ltb_spec i (Z.lxor i j)) as [Hlt|Hge].
    + rewrite compare_exchange_compare by lia. cbn [mbind option_bind]. cbn [run fold_left].
      apply IH; [by rewrite length_compare|lia..].
    + unfold compare_exchange. destruct (Z.ltb_spec i (Z.lxor i j)); [lia|]. cbn [mbind option_bind run fold_left].
      apply IH; (done || lia).
Qed.

Lemma loop_j_run fuel k : forall j kv,
  length kv = 64%nat -> 0 <= j < 64 -> j < 2 ^ (Z.of_nat fuel - 1) ->
  loop_j fuel k j kv = Some (run (sched_j fuel k j) kv).
Proof.
  induction fuel as [|fuel IH]; intros j kv Hl Hj Hf; cbn [loop_j sched_j].
  - cbn in Hf. lia.
  - destruct (Z.ltb_spec 0 j); [|done]. rewrite run_app, loop_i_run by lia. cbn [mbind option_bind].
    rewrite Z.shiftr_div_pow2 by lia. change (2 ^ 1) with 2.
    assert (0 < Z.of_nat fuel) as Hpos.
    { destruct fuel; [|lia]. cbn in Hf. lia. }
    replace (Z.of_nat (S fuel) - 1) with (Z.succ (Z.of_nat fuel - 1)) in Hf by lia.
    rewrite Z.pow_succ_r in Hf by lia.
    apply IH; [by rewrite length_run| |].
    + split; [apply Z.div_pos; lia|]. apply Z.div_lt_upper_bound; lia.
    + apply Z.div_lt_upper_bound; lia.
Qed.

Abbreviation network := (stage 2 ++ stage 4 ++ stage 8 ++ stage 16 ++ stage 32 ++ stage 64).

Lemma sort_run kv :
  length kv = 64%nat ->
  storage_db_keys_eviction_bitonic_sort_16_elements kv = Some (run network kv).
Proof.
  intros Hl. unfold storage_db_keys_eviction_bitonic_sort_16_elements.
  assert (forall n k kv, length kv = 64%nat -> 0 <= k < 128 -> (k <=? 64) = true ->
    loop_k (S n) k kv = loop_k n (u16 (2 * k)) (run (stage k) kv)) as Hk.
  { intros n k l Hll Hk Hle. cbn [loop_k]. unfold ARRAY_LENGTH. rewrite Hle.
    assert (0 <= Z.shiftr k 1 < 64) as Hs.
    { rewrite Z.shiftr_div_pow2 by lia. change (2 ^ 1) with 2.
      split; [apply Z.div_pos; lia|apply Z.div_lt_upper_bound; lia]. }
    unfold stage. rewrite loop_j_run; [done|done|lia|change (2 ^ (Z.of_nat 7 - 1)) with 64; lia]. }
  rewrite !run_app.
  do 6 (rewrite Hk by (rewrite ?length_run; (done || lia))).
  reflexivity.
Qed.

(** ** The zero-one principle *)

Definition compare_b (c : comparator) (v : list bool) : list bool :=
  match v !! c.1, v !! c.2 with
  | Some x, Some y => <[c.2 := x || y]> (<[c.1 := x && y]> v)
  | _, _ => v
  end.

Definition run_b (cs : list comparator) (v : list bool) : list bool :=
  fold_left (fun v c => compare_b c v) cs v.

Lemma run_b_app cs1 cs2 v : run_b (cs1 ++ cs2) v = run_b cs2 (run_b cs1 v).
Proof. apply fold_left_app. Qed.

Lemma length_compare_b c v : length (compare_b c v) = length v.
Proof. unfold compare_b. destruct (v !! c.1), (v !! c.2); rewrite ?length_insert; done. Qed.

Lemma length_run_b cs v : length (run_b cs v) = length v.
Proof. revert v. induction cs as [|c cs IH]; intros v; [done|]. cbn. rewrite IH. apply length_compare_b. Qed.

Definition above (t : Z) (x : kv_list_entry) : bool := t <? kv_key x.

Lemma compare_above t c l :
  c.1 <> c.2 -> above t <$> compare c l = compare_b c (above t <$> l).
Proof.
  intros Hne. unfold compare, compare_b. rewrite !list_lookup_fmap.
  destruct (l !! c.1) as [x|] eqn:Hx, (l !! c.2) as [y|] eqn:Hy; cbn; try done.
  unfold above. destruct (Z.ltb_spec (kv_key y) (kv_key x)) as [Hlt|Hge].
  - rewrite !list_fmap_insert. unfold above. f_equal; [|f_equal];
      destruct (Z.ltb_spec t (kv_key x)), (Z.ltb_spec t (kv_key y)); (done || lia).
  - rewrite (list_insert_id (fmap _ l)); [|rewrite list_lookup_fmap, Hx; cbn; f_equal; unfold above;
      destruct (Z.ltb_spec t (kv_key x)), (Z.ltb_spec t (kv_key y)); (done || lia)].
    rewrite list_insert_id; [done|]. rewrite list_lookup_fmap, Hy. cbn. f_equal. unfold above.
    destruct (Z.ltb_spec t (kv_key x)), (Z.ltb_spec t (kv_key y)); (done || lia).
Qed.

Lemma run_above t cs l :
  Forall (fun c : comparator => c.1 <> c.2) cs -> above t <$> run cs l = run_b cs (above t <$> l).
Proof.
  intros Hcs. revert l. induction Hcs as [|c cs Hc _ IH]; intros l; [done|].
  cbn. by rewrite IH, compare_above.
Qed.

(** ** Locality: a block that the comparators do not leave *)

Definition slice {A} (lo n : nat) (v : list A) : list A := take n (drop lo v).

Definition inside (lo n p : nat) : bool := Nat.leb lo p && Nat.ltb p (lo + n).

Definition local (lo n : nat) (cs : list comparator) : bool :=
  forallb (fun c => Bool.eqb (inside lo n c.1) (inside lo n c.2)) cs.

Definition restrict (lo n : nat) (cs : list comparator) : list comparator :=
  (fun c => (c.1 - lo, c.2 - lo)%nat) <$> List.filter (fun c => inside lo n c.1) cs.

Lemma inside_spec lo n p : inside lo n p = true <-> (lo <= p < lo + n)%nat.
Proof. unfold inside. rewrite andb_true_iff, Nat.leb_le, Nat.ltb_lt. done. Qed.

Lemma slice_insert_in {A} lo n p (x : A) v :
  (lo <= p < lo + n)%nat -> slice lo n (<[p := x]> v) = <[(p - lo)%nat := x]> (slice lo n v).
Proof. intros Hp. unfold slice. rewrite drop_insert_ge by lia. rewrite take_insert_lt by lia. done. Qed.

Lemma slice_insert_out {A} lo n p (x : A) v :
  ~ (lo <= p < lo + n)%nat -> slice lo n (<[p := x]> v) = slice lo n v.
Proof.
  intros Hp. unfold slice. destruct (decide (p < lo)%nat).
  - by rewrite drop_insert_lt by lia.
  - rewrite drop_insert_ge by lia. rewrite take_insert_ge by lia. done.
Qed.

Lemma slice_lookup {A} lo n p (v : list A) :
  (lo <= p < lo + n)%nat -> slice lo n v !! (p - lo)%nat = v !! p.
Proof. intros Hp. unfold slice. rewrite lookup_take_lt by lia. rewrite lookup_drop. f_equal. lia. Qed.

Lemma slice_run_b lo n cs : forall v,
  local lo n cs = true -> slice lo n (run_b cs v) = run_b (restrict lo n cs) (slice lo n v).
Proof.
  induction cs as [|[p q] cs IH]; intros v Hl; [done|].
  cbn [local forallb] in Hl. apply andb_true_iff in Hl as [Hc Hl]. apply eqb_prop in Hc. cbn [fst snd] in Hc.
  cbn [run_b fold_left]. change (fold_left _ cs ?w) with (run_b cs w). rewrite IH by done.
  unfold restrict. cbn [List.filter fst]. destruct (inside lo n p) eqn:Hp.
  - symmetry in Hc. apply inside_spec in Hp, Hc. cbn [fmap list_fmap fold_left run_b fst snd].
    unfold run_b. f_equal. unfold compare_b. cbn [fst snd]. rewrite !slice_lookup by lia.
    destruct (v !! p), (v !! q); try done. by rewrite !slice_insert_in by lia.
  - assert (~ (lo <= p < lo + n)%nat /\ ~ (lo <= q < lo + n)%nat) as [Hp' Hq'].
    { rewrite <- !inside_spec, Hp, <- Hc. done. }
    f_equal. unfold compare_b. cbn [fst snd]. destruct (v !! p), (v !! q); try done.
    by rewrite !slice_insert_out by done.
Qed.

(** ** Runs of booleans and the merge of two of them *)

Definition rise (n a : nat) : list bool := replicate (n - a) false ++ replicate a true.
Definition fall (n a : nat) : list bool := replicate a true ++ replicate (n - a) false.

Lemma length_rise n a : (a <= n)%nat -> length (rise n a) = n.
Proof. intros Ha. unfold rise. rewrite length_app, !length_replicate. lia. Qed.

Lemma length_fall n a : (a <= n)%nat -> length (fall n a) = n.
Proof. intros Ha. unfold fall. rewrite length_app, !length_replicate. lia. Qed.

(** The run of length [n]: rising when [asc], falling otherwise. *)
Definition run_of (asc : bool) (n : nat) (v : list bool) : Prop :=
  exists a, (a <= n)%nat /\ v = if asc then rise n a else fall n a.

Fixpoint rises (v : list bool) : bool :=
  match v with
  | [] => true
  | false :: v => rises v
  | true :: v => forallb id v
  end.

Definition is_run (asc : bool) (v : list bool) : bool := rises (if asc then v else negb <$> v).

Lemma forallb_replicate v : forallb id v = true -> v = replicate (length v) true.
Proof.
  induction v as [|x v IH]; cbn; [done|]. intros [Hx Hv]%andb_true_iff. unfold id in Hx. subst x. f_equal. auto.
Qed.

Lemma rises_rise v : rises v = true -> exists a, (a <= length v)%nat /\ v = rise (length v) a.
Proof.
  induction v as [|[|] v IH]; cbn [rises length]; intros Hv.
  - by exists 0%nat.
  - exists (S (length v)). split; [done|]. unfold rise. rewrite Nat.sub_diag. cbn. f_equal.
    by apply forallb_replicate.
  - destruct (IH Hv) as (a & Ha & Heq). exists a. split; [lia|]. unfold rise in *.
    replace (S (length v) - a)%nat with (S (length v - a)) by lia. cbn. by f_equal.
Qed.

Lemma is_run_sound asc v : is_run asc v = true -> run_of asc (length v) v.
Proof.
  unfold is_run. intros Hv. destruct asc.
  - apply rises_rise in Hv as (a & Ha & Heq). by exists a.
  - apply rises_rise in Hv as (a & Ha & Heq). rewrite length_fmap in *.
    exists (length v - a)%nat. split; [lia|].
    apply (f_equal (fmap negb)) in Heq. rewrite <- list_fmap_compose in Heq.
    rewrite (list_fmap_ext _ id) in Heq by (intros ? x ?; cbn; by destruct x). rewrite list_fmap_id in Heq.
    rewrite Heq at 1. unfold rise, fall. rewrite fmap_app, !fmap_replicate. cbn [negb].
    do 2 f_equal. lia.
Qed.

Definition check_block (k b : nat) : bool :=
  let cs := restrict (b * (2 * k)) (2 * k) (stage (2 * Z.of_nat k)) in
  forallb (fun a => forallb (fun c => is_run (Nat.even b) (run_b cs (rise k a ++ fall k c)))
    (seq 0 (S k))) (seq 0 (S k)).

Definition check_stage (k : nat) : bool :=
  forallb (fun b => local (b * (2 * k)) (2 * k) (stage (2 * Z.of_nat k)) && check_block k b)
    (seq 0 (64 / (2 * k))).

(** Every block of [k] elements is a run, rising and falling in turn. *)
Definition blocks_ok (k : nat) (v : list bool) : Prop :=
  forall b, (b * k + k <= 64)%nat -> run_of (Nat.even b) k (slice (b * k) k v).

Lemma length_slice {A} lo n (v : list A) : (lo + n <= length v)%nat -> length (slice lo n v) = n.
Proof. intros H. unfold slice. rewrite length_take, length_drop. lia. Qed.

Lemma stage_merge k v :
  (0 < k)%nat -> check_stage k = true -> length v = 64%nat ->
  blocks_ok k v -> blocks_ok (2 * k) (run_b (stage (2 * Z.of_nat k)) v).
Proof.
  intros Hk Hcheck Hl Hb b Hr. unfold check_stage in Hcheck. rewrite forallb_forall in Hcheck.
  specialize (Hcheck b). rewrite in_seq in Hcheck.
  assert (b < 64 / (2 * k))%nat as Hbk by (apply Nat.div_le_lower_bound; lia).
  specialize (Hcheck ltac:(lia)). apply andb_true_iff in Hcheck as [Hloc Hblk].
  rewrite slice_run_b by done.
  assert (slice (b * (2 * k)) (2 * k) v = slice (2 * b * k) k v ++ slice ((2 * b + 1) * k) k v) as ->.
  { unfold slice. replace (2 * k)%nat with (k + k)%nat by lia.
    replace (b * (k + k))%nat with (2 * b * k)%nat by lia.
    rewrite <- (take_drop k (take (k + k) (drop (2 * b * k) v))), take_take. f_equal; [f_equal; lia|].
    rewrite skipn_firstn_comm, drop_drop. f_equal; [lia|f_equal; lia]. }
  destruct (Hb (2 * b)%nat ltac:(lia)) as (a & Ha & ->). rewrite Nat.even_mul. cbn [Nat.even orb].
  destruct (Hb (2 * b + 1)%nat ltac:(lia)) as (c & Hc & ->).
  rewrite Nat.even_add, Nat.even_mul. cbn [Nat.even orb Bool.eqb].
  unfold check_block in Hblk. rewrite forallb_forall in Hblk.
  specialize (Hblk a ltac:(apply in_seq; lia)). rewrite forallb_forall in Hblk.
  specialize (Hblk c ltac:(apply in_seq; lia)). apply is_run_sound in Hblk.
  rewrite length_run_b, length_app, length_rise, length_fall in Hblk by lia.
  by replace (k + k)%nat with (2 * k)%nat in Hblk by lia.
Qed.

(** The same with the numbers of the stage as they are written. *)
Lemma stage_merge_at k n z v :
  (0 < k)%nat -> check_stage k = true -> n = (2 * k)%nat -> z = 2 * Z.of_nat k -> length v = 64%nat ->
  blocks_ok k v -> blocks_ok n (run_b (stage z) v).
Proof. intros Hk Hc -> ->. by apply stage_merge. Qed.

Lemma checks :
  check_stage 1 = true /\ check_stage 2 = true /\ check_stage 4 = true /\ check_stage 8 = true /\
  check_stage 16 = true /\ check_stage 32 = true.
Proof. split_and!; vm_compute; exact eq_refl. Qed.

Definition merges (k n : nat) (cs : list comparator) : Prop :=
  forall v, length v = 64%nat -> blocks_ok k v -> blocks_ok n (run_b cs v).

Lemma blocks_ok_1 v : length v = 64%nat -> blocks_ok 1 v.
Proof.
  intros Hl b Hb. pose proof (length_slice (b * 1) 1 v ltac:(lia)) as Hs.
  destruct (slice (b * 1) 1 v) as [|x [|]]; cbn in Hs; try lia.
  exists (if x then 1%nat else 0%nat). split; [destruct x; lia|]. by destruct (Nat.even b), x.
Qed.

Lemma merges_all c1 c2 c3 c4 c5 c6 v :
  merges 1 2 c1 -> merges 2 4 c2 -> merges 4 8 c3 -> merges 8 16 c4 -> merges 16 32 c5 -> merges 32 64 c6 ->
  length v = 64%nat -> run_of true 64 (run_b (c1 ++ c2 ++ c3 ++ c4 ++ c5 ++ c6) v).
Proof.
  intros H1 H2 H3 H4 H5 H6 Hl. rewrite !run_b_app.
  assert (blocks_ok 64 (run_b c6 (run_b c5 (run_b c4 (run_b c3 (run_b c2 (run_b c1 v))))))) as Hb.
  { apply H6, H5, H4, H3, H2, H1, blocks_ok_1; rewrite ?length_run_b; done. }
  specialize (Hb 0%nat ltac:(lia)). unfold slice in Hb. cbn [Nat.mul Nat.even] in Hb.
  by rewrite drop_0, take_ge in Hb by (rewrite !length_run_b; lia).
Qed.

Lemma network_b v : length v = 64%nat -> run_of true 64 (run_b network v).
Proof.
  destruct checks as (H1 & H2 & H4 & H8 & H16 & H32). apply merges_all; intros w Hw.
  - apply (stage_merge_at 1 2 2); [lia|exact H1|lia|lia|exact Hw].
  - apply (stage_merge_at 2 4 4); [lia|exact H2|lia|lia|exact Hw].
  - apply (stage_merge_at 4 8 8); [lia|exact H4|lia|lia|exact Hw].
  - apply (stage_merge_at 8 16 16); [lia|exact H8|lia|lia|exact Hw].
  - apply (stage_merge_at 16 32 32); [lia|exact H16|lia|lia|exact Hw].
  - apply (stage_merge_at 32 64 64); [lia|exact H32|lia|lia|exact Hw].
Qed.

Lemma network_distinct : Forall (fun c : comparator => c.1 <> c.2) network.
Proof.
  apply List.Forall_forall. intros c Hc.
  assert (forallb (fun c => negb (Nat.eqb c.1 c.2)) network = true) as Hall by by vm_compute.
  rewrite forallb_forall in Hall. specialize (Hall c Hc). by apply negb_true_iff, Nat.eqb_neq in Hall.
Qed.

Lemma rise_lookup n a i j x y :
  rise n a !! i = Some x -> rise n a !! j = Some y -> (i <= j)%nat -> x = true -> y = true.
Proof.
  unfold rise. intros Hi Hj Hij ->.
  apply lookup_app_Some in Hi as [[? _]%lookup_replicate|[Hi _]]; [done|]. rewrite length_replicate in Hi.
  rewrite lookup_app_r in Hj by (rewrite length_replicate; lia). by apply lookup_replicate in Hj as [<- _].
Qed.

Lemma run_permutation cs kv : run cs kv ≡ₚ kv.
Proof.
  revert kv. induction cs as [|c cs IH]; intros kv; [done|].
  cbn. rewrite IH. unfold compare. destruct (kv !! c.1) eqn:Hx, (kv !! c.2) eqn:Hy; try done.
  destruct (_ <? _); [|done]. by apply Permutation_insert_swap.
Qed.

Lemma sort_permutation kv :
  zlen kv = ARRAY_LENGTH -> exists kv', storage_db_keys_eviction_bitonic_sort_16_elements kv = Some kv' /\ kv' ≡ₚ kv.
Proof.
  unfold zlen, ARRAY_LENGTH. intros Hl. exists (run network kv). split; [apply sort_run; lia|apply run_permutation].
Qed.

(** ** Properties *)

(** C26: the network the eviction sorts its candidates with is a sort: for any
    array of the fixed length it returns a permutation of the array in the
    order of the keys. *)
Theorem eviction_sort_sorts (kv : list kv_list_entry) :
  zlen kv = ARRAY_LENGTH ->
  exists kv', storage_db_keys_eviction_bitonic_sort_16_elements kv = Some kv' /\ kv' ≡ₚ kv /\
    forall i j x y, (i <= j)%nat -> kv' !! i = Some x -> kv' !! j = Some y -> kv_key x <= kv_key y.
Proof.
  unfold zlen, ARRAY_LENGTH. intros Hz. assert (length kv = 64%nat) as Hl by lia.
  exists (run network kv). split; [by apply sort_run|]. split.
  - apply run_permutation.
  - intros i j x y Hij Hx Hy. apply Z.nlt_ge. intros Hlt.
    destruct (network_b (above (kv_key y) <$> kv)) as (a & _ & Ha); [by rewrite length_fmap|].
    rewrite <- run_above in Ha by exact network_distinct.
    assert (above (kv_key y) y = true) as Habs; [|unfold above in Habs; apply Z.ltb_lt in Habs; lia].
    apply (rise_lookup 64 a i j (above (kv_key y) x)); [..|done|unfold above; by apply Z.ltb_lt].
    + by rewrite <- Ha, list_lookup_fmap, Hx.
    + by rewrite <- Ha, list_lookup_fmap, Hy.
Qed.

Definition example_candidates : list kv_list_entry :=
  (fun n => KvEntry (Z.of_nat n) ((37 * Z.of_nat n) `mod` 64)) <$> seq 0 64.

Lemma eviction_sort_sorts_witness :
  exists kv', storage_db_keys_eviction_bitonic_sort_16_elements example_candidates = Some kv' /\
    kv' ≡ₚ example_candidates /\
    forall i j x y, (i <= j)%nat -> kv' !! i = Some x -> kv' !! j = Some y -> kv_key x <= kv_key y.
Proof. apply (eviction_sort_sorts example_candidates). vm_compute. reflexivity. Defined.

End Eviction.
