(* ===== verification/UtilsString.v ===== *)
(** * UtilsString: comparisons, glob patterns and integers

    utils_string.c, utils_string_sw.c and utils_string_avx2.c.  A pointer to a
    string is the list of the bytes from it to the end of the memory it points
    into; reading past that end is an error of the model. *)

From S2P Require Import Prelude Decimal HashtableSpsc.

Module UtilsString.

(** ** Comparison of strings, 32 bytes at a time *)

(** The portable versions: [strncmp] and [strncasecmp]. *)
Definition utils_string_cmp_eq_32_sw (a : list Z) (a_len : Z) (b : list Z) (b_len : Z) : option bool :=
  if negb (a_len =? b_len) then Some false else
  HashtableSpsc.strn_eq (fun x => x) a b (Z.to_nat (Z.max a_len b_len)).

Definition utils_string_casecmp_eq_32_sw (a : list Z) (a_len : Z) (b : list Z) (b_len : Z) : option bool :=
  if negb (a_len =? b_len) then Some false else
  HashtableSpsc.strn_eq HashtableSpsc.tolower a b (Z.to_nat (Z.max a_len b_len)).

(** The vector instructions, on 32 bytes: a comparison gives 255 or 0 in each
    byte, and [_mm256_cmpgt_epi8] compares them as signed. *)
Definition mm256_loadu (p : list Z) : option (list Z) :=
  if 32 <=? zlen p then Some (take 32 p) else None.
Definition mm256_cmpeq_epi8 (a b : list Z) : list Z := zip_with (fun x y => if x =? y then 255 else 0) a b.
Definition mm256_cmpgt_epi8 (a b : list Z) : list Z :=
  zip_with (fun x y => if schar y <? schar x then 255 else 0) a b.
Definition mm256_andnot (a b : list Z) : list Z := zip_with (fun x y => Z.land (Z.lxor x 255) y) a b.
Definition mm256_and (a b : list Z) : list Z := zip_with Z.land a b.
Definition mm256_or (a b : list Z) : list Z := zip_with Z.lor a b.

(** The mask of the most significant bits, byte 0 in bit 0. *)
Fixpoint mm256_movemask_epi8 (a : list Z) : Z :=
  match a with
  | [] => 0
  | x :: a => Z.b2z (Z.testbit x 7) + 2 * mm256_movemask_epi8 a
  end.

Definition len_mask_table : list Z :=
  [0x0000; 0x0001; 0x0003; 0x0007; 0x000f; 0x001f; 0x003f; 0x007f; 0x00ff;
   0x01ff; 0x03ff; 0x07ff; 0x0fff; 0x1fff; 0x3fff; 0x7fff; 0xffff; 0x1ffff;
   0x3ffff; 0x7ffff; 0xfffff; 0x1fffff; 0x3fffff; 0x7fffff; 0xffffff;
   0x1ffffff; 0x3ffffff; 0x7ffffff; 0xfffffff; 0x1fffffff; 0x3fffffff;
   0x7fffffff; 0xffffffff].

(** The asserts compare with the size of the table in bytes, 132. *)
Definition guard_string (b : bool) : option unit := if b then Some tt else None.

Definition utils_string_cmp_eq_32_avx2_internal (a : list Z) (a_len : Z) (b : list Z) (b_len : Z) : option bool :=
  _ ← guard_string ((a_len <=? 132) && (b_len <=? 132));
  if negb (a_len =? b_len) then Some false else
  a_block ← mm256_loadu a;
  b_block ← mm256_loadu b;
  let eq_mask := mm256_movemask_epi8 (mm256_cmpeq_epi8 a_block b_block) in
  m ← zget len_mask_table a_len;
  Some (Z.land eq_mask m =? m).

Definition letter_uppercase_range_lower : list Z := replicate 32 0x40.
Definition letter_uppercase_range_upper : list Z := replicate 32 0x5a.
Definition letter_lowercase_bit : list Z := replicate 32 0x20.

(** The upper case letters of a block get the bit of the lower case. *)
Definition lowercase_block (a_block : list Z) : list Z :=
  let lower_mask := mm256_cmpgt_epi8 a_block letter_uppercase_range_lower in
  let upper_mask := mm256_cmpgt_epi8 a_block letter_uppercase_range_upper in
  let uppercase_mask := mm256_andnot upper_mask lower_mask in
  mm256_or a_block (mm256_and uppercase_mask letter_lowercase_bit).

Definition utils_string_casecmp_eq_32_avx2_internal (a : list Z) (a_len : Z) (b : list Z) (b_len : Z)
    : option bool :=
  _ ← guard_string ((a_len <=? 132) && (b_len <=? 132));
  if negb (a_len =? b_len) then Some false else
  a_block ← mm256_loadu a;
  b_block ← mm256_loadu b;
  let eq_mask := mm256_movemask_epi8 (mm256_cmpeq_epi8 (lowercase_block a_block) (lowercase_block b_block)) in
  m ← zget len_mask_table a_len;
  Some (Z.land eq_mask m =? m).

(** The loop of the two functions: [rest] is [a_len - index], so that it is
    also [b_len]. *)
Fixpoint blocks_eq (internal : list Z -> Z -> list Z -> Z -> option bool) (n : nat) (a b : list Z) (rest : Z)
    : option bool :=
  if 0 <? rest then
    match n with
    | O => None
    | S n =>
        r ← internal a (Z.min rest 32) b (Z.min rest 32);
        if (r : bool) then blocks_eq internal n (drop 32 a) (drop 32 b) (rest - 32) else Some false
    end
  else Some true.

Definition utils_string_cmp_eq_32_avx2 (a : list Z) (a_len : Z) (b : list Z) (b_len : Z) : option bool :=
  if negb (a_len =? b_len) then Some false else
  blocks_eq utils_string_cmp_eq_32_avx2_internal (Z.to_nat (a_len / 32 + 1)) a b a_len.

Definition utils_string_casecmp_eq_32_avx2 (a : list Z) (a_len : Z) (b : list Z) (b_len : Z) : option bool :=
  if negb (a_len =? b_len) then Some false else
  blocks_eq utils_string_casecmp_eq_32_avx2_internal (Z.to_nat (a_len / 32 + 1)) a b a_len.

(** ** Integers *)

Definition UTILS_STRING_INT64_MIN_STR_LENGTH : Z := 20.

(** The loop over the digits; the result is the number, none when the string
    is invalid. *)
Fixpoint int64_digits (l : list Z) (number : Z) : option Z :=
  match l with
  | [] => Some number
  | c :: l =>
      if negb (Decimal.is_digit c) then None else
      let prev_number := number in
      let number := u64 (u64 (number * 10) + (c - 48)) in
      if number <? prev_number then None else int64_digits l number
  end.

(** The result and [*invalid]. *)
Definition utils_string_to_int64 (string : list Z) : Z * bool :=
  if zlen string =? 0 then (0, false) else
  if UTILS_STRING_INT64_MIN_STR_LENGTH <? zlen string then (0, true) else
  let '(sign_multiplier, digits) :=
    match string with
    | c :: l => if c =? 45 then (-1, l) else (1, string)
    | [] => (1, string)
    end in
  match int64_digits digits 0 with
  | None => (0, true)
  | Some number =>
      if 2 ^ 63 - 1 + (if sign_multiplier =? -1 then 1 else 0) <? number then (0, true)
      else (i64 (i64 number * sign_multiplier), false)
  end.

(** ** Glob patterns *)

(** A run ends with a result, reads outside of the pattern, or has not ended
    when the fuel has. *)
Inductive outcome (A : Type) := Done (r : A) | OutOfBounds | OutOfFuel.
Arguments Done {A} r.
Arguments OutOfBounds {A}.
Arguments OutOfFuel {A}.

Definition deref {A} (p : list Z) (f : Z -> outcome A) : outcome A :=
  match p with [] => OutOfBounds | c :: _ => f c end.

(** The loop over a class: [c0] is [*string]; the result is the pattern, its
    length and [matched].  A character is a signed [char]. *)
Fixpoint class_loop (fuel : nat) (c0 : Z) (pattern : list Z) (pattern_length : Z) (matched : bool) (prev_char : Z)
    : outcome (list Z * Z * bool) :=
  match fuel with
  | O => OutOfFuel
  | S fuel =>
      if negb (0 <? pattern_length) then Done (pattern, pattern_length, matched) else
      deref pattern (fun c =>
      if c =? 93 then Done (pattern, pattern_length, matched) else
      if c =? 45 then
        if prev_char =? -1 then class_loop fuel c0 pattern pattern_length matched prev_char else
        let pattern := tail pattern in
        let pattern_length := pattern_length - 1 in
        if pattern_length =? 0 then class_loop fuel c0 pattern pattern_length matched prev_char else
        deref pattern (fun c =>
        let matched := matched || ((prev_char <=? schar c0) && (schar c0 <=? schar c)) in
        class_loop fuel c0 pattern pattern_length matched prev_char)
      else
        let '(pattern, pattern_length) :=
          if c =? 92 then (tail pattern, pattern_length - 1) else (pattern, pattern_length) in
        if (c =? 92) && (pattern_length =? 0) then class_loop fuel c0 pattern pattern_length matched prev_char else
        deref pattern (fun c =>
        class_loop fuel c0 (tail pattern) (pattern_length - 1) (matched || (c0 =? c)) (schar c)))
  end.

(** What the [switch] does: go on with the string and the pattern, or break. *)
Inductive glob_move := GNext (string pattern : list Z) (pattern_length : Z) | GBreak.

(** The literal of the [default] case. *)
Definition glob_literal (c0 : Z) (string pattern : list Z) (pattern_length : Z) : outcome glob_move :=
  deref pattern (fun c =>
  if c =? c0 then Done (GNext string (tail pattern) (u64 (pattern_length - 1))) else Done GBreak).

Definition glob_class (fuel : nat) (c0 : Z) (string pattern : list Z) (pattern_length : Z) : outcome glob_move :=
  if pattern_length <=? 1 then Done GBreak else
  let pattern := tail pattern in
  let pattern_length := pattern_length - 1 in
  deref pattern (fun c =>
  let reverse := c =? 94 in
  let '(pattern, pattern_length) :=
    if reverse then (tail pattern, pattern_length - 1) else (pattern, pattern_length) in
  match class_loop fuel c0 pattern pattern_length false (-1) with
  | OutOfBounds => OutOfBounds
  | OutOfFuel => OutOfFuel
  | Done (pattern, pattern_length, matched) =>
      deref pattern (fun c =>
      if negb (c =? 93) then Done GBreak else
      if negb (xorb reverse matched) then Done GBreak
      else Done (GNext string (tail pattern) (u64 (pattern_length - 1))))
  end).

(** The case of [*pattern] other than a star; [c0 :: string] is the string. *)
Definition glob_char (fuel : nat) (c0 : Z) (string pattern : list Z) (pattern_length : Z) : outcome glob_move :=
  deref pattern (fun c =>
  if c =? 63 then Done (GNext string (tail pattern) (u64 (pattern_length - 1)))
  else if c =? 91 then glob_class fuel c0 string pattern pattern_length
  else if c =? 92 then
    let pattern_length := u64 (pattern_length - 1) in
    if pattern_length =? 0 then Done GBreak else glob_literal c0 string (tail pattern) pattern_length
  else glob_literal c0 string pattern pattern_length).

(** The stars at the end of the pattern, then the result. *)
Fixpoint glob_end (fuel : nat) (pattern : list Z) (pattern_length : Z) : outcome bool :=
  match fuel with
  | O => OutOfFuel
  | S fuel =>
      if negb (0 <? pattern_length) then Done true else
      deref pattern (fun c =>
      if c =? 42 then glob_end fuel (tail pattern) (pattern_length - 1) else Done false)
  end.

(** [backup] is the string, the pattern and its length after the last star. *)
Fixpoint glob_loop (fuel : nat) (string pattern : list Z) (pattern_length : Z)
    (backup : option (list Z * list Z * Z)) : outcome bool :=
  match fuel with
  | O => OutOfFuel
  | S fuel =>
      match string with
      | [] => glob_end fuel pattern pattern_length
      | c0 :: string' =>
          deref pattern (fun c =>
          if c =? 42 then
            glob_loop fuel string (tail pattern) (u64 (pattern_length - 1))
              (Some (string, tail pattern, u64 (pattern_length - 1)))
          else
            match glob_char fuel c0 string' pattern pattern_length with
            | OutOfBounds => OutOfBounds
            | OutOfFuel => OutOfFuel
            | Done (GNext string pattern pattern_length) => glob_loop fuel string pattern pattern_length backup
            | Done GBreak =>
                match backup with
                | None => Done false
                | Some (string_backup, pattern_backup, length_backup) =>
                    glob_loop fuel (tail string_backup) pattern_backup length_backup
                      (Some (tail string_backup, pattern_backup, length_backup))
                end
            end)
      end
  end.

Definition utils_string_glob_match (fuel : nat) (string pattern : list Z) (pattern_length : Z) : outcome bool :=
  if (pattern_length =? 0) || (zlen string =? 0) then Done false else
  deref pattern (fun c =>
  if (pattern_length =? 1) && ((c =? 42) || (c =? 63)) then Done true
  else glob_loop fuel string pattern pattern_length None).

(** ** The vector comparison is the comparison of the bytes *)

Lemma movemask_ones l : forall n,
  (n <= length l)%nat ->
  (mm256_movemask_epi8 l `mod` 2 ^ Z.of_nat n =? 2 ^ Z.of_nat n - 1) =
  forallb (fun x => Z.testbit x 7) (take n l).
Proof.
  induction l as [|x l IH]; intros [|n] Hn; cbn [length] in Hn; try (cbn; by rewrite ?Z.mod_1_r); [lia|].
  cbn [mm256_movemask_epi8 take forallb]. rewrite <- IH by lia.
  rewrite Nat2Z.inj_succ, Z.pow_succ_r by lia.
  set (m := mm256_movemask_epi8 l). set (k := 2 ^ Z.of_nat n). assert (0 < k) by (apply Z.pow_pos_nonneg; lia).
  rewrite Z.rem_mul_r by lia. rewrite Z.mul_comm, Z_mod_plus_full, Z.div_add by lia.
  destruct (Z.testbit x 7); cbn [Z.b2z andb].
  - change (1 `mod` 2) with 1. change (1 / 2) with 0. apply eq_bool_prop_intro.
    rewrite !Is_true_true, !Z.eqb_eq. rewrite ?Z.add_0_l. lia.
  - change (0 `mod` 2) with 0. change (0 / 2) with 0. apply Z.eqb_neq. lia.
Qed.

Lemma len_mask n : 0 <= n <= 32 -> zget len_mask_table n = Some (Z.ones n).
Proof.
  intros Hn. assert (forallb (fun n => bool_decide (zget len_mask_table n = Some (Z.ones n))) (seqZ 0 33) = true) as Hall
    by (vm_compute; exact eq_refl).
  rewrite List.forallb_forall in Hall. specialize (Hall n).
  apply bool_decide_eq_true in Hall; [done|]. apply list_elem_of_In, elem_of_seqZ. lia.
Qed.

Lemma cmpeq_all n : forall a b,
  length a = length b ->
  forallb (fun x => Z.testbit x 7) (take n (mm256_cmpeq_epi8 a b)) = bool_decide (take n a = take n b).
Proof.
  induction n as [|n IH]; intros [|x a] [|y b] Hl; try done.
  cbn. unfold mm256_cmpeq_epi8 in *. rewrite IH by (cbn in Hl; lia).
  destruct (Z.eqb_spec x y) as [->|Hne].
  - cbn. apply bool_decide_ext. split; [by intros ->|by intros [= ->]].
  - cbn. symmetry. apply bool_decide_eq_false. by intros [= ? _].
Qed.

(** The masked comparison tests the first [n] bytes. *)
Lemma masked_eq n a b :
  0 <= n <= 32 -> length a = 32%nat -> length b = 32%nat ->
  (Z.land (mm256_movemask_epi8 (mm256_cmpeq_epi8 a b)) (Z.ones n) =? Z.ones n) =
  bool_decide (take (Z.to_nat n) a = take (Z.to_nat n) b).
Proof.
  intros Hn Ha Hb. rewrite Z.land_ones by lia. rewrite Z.ones_equiv.
  replace (Z.pred (2 ^ n)) with (2 ^ Z.of_nat (Z.to_nat n) - 1) by (rewrite Z2Nat.id by lia; lia).
  replace (2 ^ n) with (2 ^ Z.of_nat (Z.to_nat n)) by (by rewrite Z2Nat.id by lia).
  rewrite movemask_ones by (unfold mm256_cmpeq_epi8; rewrite length_zip_with; lia).
  apply cmpeq_all. lia.
Qed.

(** Folding the case of a block folds the case of its bytes. *)
Definition fold_byte (x : Z) : Z :=
  let upper := if schar 0x5a <? schar x then 255 else 0 in
  let lower := if schar 0x40 <? schar x then 255 else 0 in
  Z.lor x (Z.land (Z.land (Z.lxor upper 255) lower) 0x20).

Lemma fold_byte_tolower x : is_byte x -> fold_byte x = HashtableSpsc.tolower x.
Proof.
  intros Hx. assert (forallb (fun x => fold_byte x =? HashtableSpsc.tolower x) (seqZ 0 256) = true) as Hall
    by (vm_compute; exact eq_refl).
  rewrite List.forallb_forall in Hall. apply Z.eqb_eq, Hall, list_elem_of_In, elem_of_seqZ. unfold is_byte in Hx. lia.
Qed.

Lemma zip_with_replicate {A B C} (f : A -> B -> C) l n y :
  length l = n -> zip_with f l (replicate n y) = (fun x => f x y) <$> l.
Proof. intros <-. induction l as [|x l IH]; cbn; [done|]. by f_equal. Qed.

Lemma zip_with_fmaps {A B C D} (f : B -> C -> D) (g : A -> B) (h : A -> C) l :
  zip_with f (g <$> l) (h <$> l) = (fun x => f (g x) (h x)) <$> l.
Proof. induction l as [|x l IH]; cbn; [done|]. by f_equal. Qed.

Lemma lowercase_block_spec l :
  length l = 32%nat -> Forall is_byte l -> lowercase_block l = HashtableSpsc.tolower <$> l.
Proof.
  intros Hl Hb. unfold lowercase_block, mm256_or, mm256_and, mm256_andnot, mm256_cmpgt_epi8,
    letter_uppercase_range_lower, letter_uppercase_range_upper, letter_lowercase_bit.
  rewrite !(zip_with_replicate _ l 32 _ Hl). rewrite zip_with_fmaps.
  rewrite zip_with_replicate by (by rewrite length_fmap). rewrite <- list_fmap_compose.
  rewrite <- (list_fmap_id l) at 1. rewrite zip_with_fmaps.
  apply list_fmap_ext. intros i x Hi. apply Forall_lookup_1 with (i := i) (x := x) in Hb; [|done].
  rewrite <- fold_byte_tolower by done. done.
Qed.

Section blocks.
(** A comparison of blocks that compares the first bytes up to [norm]. *)
Context (norm : Z -> Z) (internal : list Z -> Z -> list Z -> Z -> option bool).
Context (Hinternal : forall n a b, 0 <= n <= 32 -> 32 <= zlen a -> 32 <= zlen b -> Forall is_byte a ->
  Forall is_byte b -> internal a n b n =
    Some (bool_decide (norm <$> take (Z.to_nat n) a = norm <$> take (Z.to_nat n) b))).

Lemma blocks_eq_spec n : forall a b rest,
  rest < 32 * Z.of_nat n -> rest + 31 <= zlen a -> rest + 31 <= zlen b -> Forall is_byte a -> Forall is_byte b ->
  blocks_eq internal n a b rest =
    Some (bool_decide (norm <$> take (Z.to_nat rest) a = norm <$> take (Z.to_nat rest) b)).
Proof using Hinternal.
  induction n as [|n IH]; intros a b rest Hn Ha Hb Hba Hbb; cbn [blocks_eq];
    (destruct (Z.ltb_spec 0 rest) as [Hr|Hr];
     [|replace (Z.to_nat rest) with 0%nat by lia; by rewrite bool_decide_eq_true_2]); [lia|].
  rewrite Hinternal by (done || lia). cbn [mbind option_bind].
  destruct (decide (rest <= 32)) as [Hle|Hgt].
  - replace (Z.min rest 32) with rest by lia. case_bool_decide; [|done].
    destruct n; cbn [blocks_eq]; by destruct (Z.ltb_spec 0 (rest - 32)); [lia|].
  - replace (Z.min rest 32) with 32 by lia.
    assert (forall l : list Z, take (Z.to_nat rest) l = take 32 l ++ take (Z.to_nat (rest - 32)) (drop 32 l)) as Hsplit.
    { intros l. replace (Z.to_nat rest) with (32 + Z.to_nat (rest - 32))%nat by lia. symmetry. apply take_take_drop. }
    rewrite !Hsplit, !fmap_app. change (Z.to_nat 32) with 32%nat.
    assert (forall l : list Z, 32 <= zlen l -> zlen (drop 32 l) = zlen l - 32) as Hd by (intros l Hl; unfold zlen in *; rewrite length_drop; lia).
    case_bool_decide as Heq.
    + rewrite IH; [|lia|rewrite Hd; lia|rewrite Hd; lia|by apply Forall_drop|by apply Forall_drop].
      f_equal. rewrite Heq. apply bool_decide_ext. split; [by intros ->|]. by intros ?%(inj (app _)).
    + f_equal. symmetry. apply bool_decide_eq_false. intros H. apply Heq.
      apply app_inj_1 in H as [? _]; [done|]. rewrite !length_fmap, !length_take. unfold zlen in *. lia.
Qed.
End blocks.

Lemma loadu_spec a : 32 <= zlen a -> mm256_loadu a = Some (take 32 a) /\ length (take 32 a) = 32%nat.
Proof.
  intros Ha. unfold mm256_loadu. destruct (Z.leb_spec 32 (zlen a)); [|lia].
  split; [done|]. unfold zlen in Ha. rewrite length_take. lia.
Qed.

Lemma take_take_32 n (a : list Z) : 0 <= n <= 32 -> take (Z.to_nat n) (take 32 a) = take (Z.to_nat n) a.
Proof. intros Hn. rewrite take_take. f_equal. lia. Qed.

Lemma cmp_internal_spec n a b :
  0 <= n <= 32 -> 32 <= zlen a -> 32 <= zlen b -> Forall is_byte a -> Forall is_byte b ->
  utils_string_cmp_eq_32_avx2_internal a n b n =
    Some (bool_decide ((fun x => x) <$> take (Z.to_nat n) a = (fun x => x) <$> take (Z.to_nat n) b)).
Proof.
  intros Hn Ha Hb _ _. unfold utils_string_cmp_eq_32_avx2_internal, guard_string.
  destruct (Z.leb_spec n 132); [|lia]. rewrite Z.eqb_refl. cbn [andb negb mbind option_bind].
  destruct (loadu_spec a Ha) as [-> Hla], (loadu_spec b Hb) as [-> Hlb]. cbn [mbind option_bind].
  rewrite len_mask by done. cbn [mbind option_bind].
  rewrite masked_eq, !take_take_32, !list_fmap_id by done. done.
Qed.

Lemma casecmp_internal_spec n a b :
  0 <= n <= 32 -> 32 <= zlen a -> 32 <= zlen b -> Forall is_byte a -> Forall is_byte b ->
  utils_string_casecmp_eq_32_avx2_internal a n b n =
    Some (bool_decide (HashtableSpsc.tolower <$> take (Z.to_nat n) a = HashtableSpsc.tolower <$> take (Z.to_nat n) b)).
Proof.
  intros Hn Ha Hb Hba Hbb. unfold utils_string_casecmp_eq_32_avx2_internal, guard_string.
  destruct (Z.leb_spec n 132); [|lia]. rewrite Z.eqb_refl. cbn [andb negb mbind option_bind].
  destruct (loadu_spec a Ha) as [-> Hla], (loadu_spec b Hb) as [-> Hlb]. cbn [mbind option_bind].
  rewrite len_mask by done. cbn [mbind option_bind].
  rewrite !lowercase_block_spec by (done || by apply Forall_take).
  rewrite masked_eq by (rewrite ?length_fmap; done). rewrite <- !fmap_take, !take_take_32 by done. done.
Qed.

(** The portable versions on strings without NUL bytes. *)
Lemma strn_eq_take norm n : forall a b,
  (forall x, norm x = 0 -> x = 0) -> (n <= length a)%nat -> (n <= length b)%nat ->
  Forall (fun x => x <> 0) (take n a) ->
  HashtableSpsc.strn_eq norm a b n = Some (bool_decide (norm <$> take n a = norm <$> take n b)).
Proof.
  induction n as [|n IH]; intros [|x a] [|y b] H0 Ha Hb Hnz; cbn [length] in *; try done; try lia.
  cbn [take] in Hnz. apply Forall_cons in Hnz as [Hx Hnz]. cbn.
  destruct (Z.eqb_spec (norm x) (norm y)) as [He|Hne].
  - destruct (Z.eqb_spec x 0); [done|]. rewrite IH by (done || lia). f_equal.
    apply bool_decide_ext. rewrite He. split; [by intros ->|by intros [= ->]].
  - f_equal. symmetry. apply bool_decide_eq_false. by intros [= ? _].
Qed.

Lemma tolower_nonzero x : HashtableSpsc.tolower x = 0 -> x = 0.
Proof. unfold HashtableSpsc.tolower. repeat zcase; cbn; lia. Qed.

(** C24: the AVX2 comparisons agree with the portable ones they stand for.  On
    strings of bytes without a NUL, with 31 readable bytes after each of them,
    the vector versions, which compare 32 bytes at a time under a mask and fold
    the case with signed comparisons, return what [strncmp] and [strncasecmp]
    return, whatever follows the strings. *)
Theorem utils_string_avx2_is_sw (a b pad_a pad_b : list Z) :
  Forall is_byte (a ++ pad_a) -> Forall is_byte (b ++ pad_b) -> 31 <= zlen pad_a -> 31 <= zlen pad_b ->
  Forall (fun c => c <> 0) a ->
  utils_string_cmp_eq_32_avx2 (a ++ pad_a) (zlen a) (b ++ pad_b) (zlen b) =
    utils_string_cmp_eq_32_sw (a ++ pad_a) (zlen a) (b ++ pad_b) (zlen b) /\
  utils_string_casecmp_eq_32_avx2 (a ++ pad_a) (zlen a) (b ++ pad_b) (zlen b) =
    utils_string_casecmp_eq_32_sw (a ++ pad_a) (zlen a) (b ++ pad_b) (zlen b).
Proof.
  intros Hba Hbb Hpa Hpb Hnz.
  unfold utils_string_cmp_eq_32_avx2, utils_string_casecmp_eq_32_avx2, utils_string_cmp_eq_32_sw,
    utils_string_casecmp_eq_32_sw.
  destruct (Z.eqb_spec (zlen a) (zlen b)) as [Hl|]; [|done]. cbn [negb]. rewrite <- Hl, Z.max_id.
  pose proof (zlen_nonneg a). pose proof (Z.div_mod (zlen a) 32 ltac:(lia)). pose proof (Z.mod_pos_bound (zlen a) 32 ltac:(lia)).
  pose proof (Z.div_pos (zlen a) 32 ltac:(lia) ltac:(lia)).
  assert (Forall (fun x => x <> 0) (take (Z.to_nat (zlen a)) (a ++ pad_a))) as Hnz'.
  { unfold zlen. rewrite Nat2Z.id, take_app_length. done. }
  split.
  - rewrite (blocks_eq_spec (fun x => x) _ cmp_internal_spec) by (rewrite ?zlen_app; done || lia).
    rewrite strn_eq_take; [done|done|rewrite length_app; unfold zlen in *; lia..|done].
  - rewrite (blocks_eq_spec HashtableSpsc.tolower _ casecmp_internal_spec) by (rewrite ?zlen_app; done || lia).
    rewrite strn_eq_take; [done|exact tolower_nonzero|rewrite length_app; unfold zlen in *; lia..|done].
Qed.

Lemma utils_string_avx2_is_sw_witness :
  let a := [77; 97; 120] in let b := [109; 65; 120] in
  utils_string_cmp_eq_32_avx2 (a ++ replicate 31 7) (zlen a) (b ++ replicate 31 9) (zlen b) =
    utils_string_cmp_eq_32_sw (a ++ replicate 31 7) (zlen a) (b ++ replicate 31 9) (zlen b) /\
  utils_string_casecmp_eq_32_avx2 (a ++ replicate 31 7) (zlen a) (b ++ replicate 31 9) (zlen b) =
    utils_string_casecmp_eq_32_sw (a ++ replicate 31 7) (zlen a) (b ++ replicate 31 9) (zlen b).
Proof.
  apply (utils_string_avx2_is_sw [77; 97; 120] [109; 65; 120] (replicate 31 7) (replicate 31 9)).
  - apply (bool_decide_unpack _). vm_compute. exact I.
  - apply (bool_decide_unpack _). vm_compute. exact I.
  - done.
  - done.
  - apply (bool_decide_unpack _). vm_compute. exact I.
Defined.

(** ** Glob patterns without classes *)

(** The reference: a star stands for any string, a question mark for any
    character, a backslash quotes the next character. *)
Fixpoint wild (p s : list Z) : bool :=
  match p with
  | [] => match s with [] => true | _ :: _ => false end
  | c :: p' =>
      if c =? 42 then
        (fix star (s : list Z) : bool :=
           wild p' s || match s with [] => false | _ :: s' => star s' end) s
      else if c =? 92 then
        match p', s with
        | c1 :: p'', x :: s' => (c1 =? x) && wild p'' s'
        | _, _ => false
        end
      else match s with [] => false | x :: s' => ((c =? 63) || (c =? x)) && wild p' s' end
  end.

Fixpoint no_class (p : list Z) : Prop :=
  match p with
  | [] => True
  | c :: p' =>
      c <> 91 /\ if c =? 92 then match p' with [] => True | _ :: p'' => no_class p'' end else no_class p'
  end.

Definition starts_with_star (p : list Z) : bool := match p with c :: _ => c =? 42 | [] => false end.

(** The pattern after its first token, when that token is not a star, and the
    characters the token accepts. *)
Definition after_token (p : list Z) : option (list Z) :=
  match p with
  | [] => None
  | c :: p' =>
      if c =? 42 then None
      else if c =? 92 then match p' with [] => None | _ :: p'' => Some p'' end
      else Some p'
  end.

Definition token_accepts (x : Z) (p : list Z) : bool :=
  match p with
  | [] => false
  | c :: p' => if c =? 92 then match p' with [] => false | c1 :: _ => c1 =? x end else (c =? 63) || (c =? x)
  end.

Lemma wild_token p x s :
  starts_with_star p = false ->
  wild p (x :: s) = match after_token p with Some p' => token_accepts x p && wild p' s | None => false end.
Proof.
  destruct p as [|c p]; [done|]. cbn. intros ->. destruct (c =? 92); [by destruct p|done].
Qed.

Lemma wild_nil_token p p' : after_token p = Some p' -> wild p [] = false.
Proof.
  destruct p as [|c p]; cbn; [done|]. destruct (c =? 42); [done|]. destruct (c =? 92); [by destruct p|done].
Qed.

Lemma wild_star p s : wild (42 :: p) s = true <-> exists k, (k <= length s)%nat /\ wild p (drop k s) = true.
Proof.
  cbn. induction s as [|x s IH]; cbn.
  - rewrite orb_false_r. split; [by exists 0%nat|]. intros (k & Hk & Hw). by replace k with 0%nat in Hw by lia.
  - rewrite orb_true_iff, IH. split.
    + intros [Hw|(k & Hk & Hw)]; [by exists 0%nat; split; [lia|]|]. exists (S k). split; [lia|done].
    + intros ([|k] & Hk & Hw); [by left|]. right. exists k. split; [lia|done].
Qed.

(** The pattern [p] is what is left of [q] after [n] tokens. *)
Inductive tokens : nat -> list Z -> list Z -> Prop :=
  | tokens_0 q : tokens 0 q q
  | tokens_S n q p p' : tokens n q p -> after_token p = Some p' -> tokens (S n) q p'.

Lemma tokens_wild n q p t :
  tokens n q p -> wild q t = true -> (n <= length t)%nat /\ wild p (drop n t) = true.
Proof.
  induction 1 as [q|n q p p' Ht IH Hp]; intros Hw; [split; [lia|done]|].
  destruct (IH Hw) as [Hn Hw']. destruct (drop n t) as [|x u] eqn:Hd.
  - by rewrite (wild_nil_token p p' Hp) in Hw'.
  - assert (starts_with_star p = false) as Hs.
    { destruct p as [|c p]; [done|]. cbn in Hp |- *. by destruct (c =? 42). }
    rewrite (wild_token p x u Hs), Hp in Hw'. apply andb_true_iff in Hw' as [_ Hw'].
    pose proof (length_drop t n) as Hl. rewrite Hd in Hl. cbn in Hl. split; [lia|].
    replace (S n) with (n + 1)%nat by lia. rewrite <- drop_drop, Hd. done.
Qed.

Lemma after_token_length p p' : after_token p = Some p' -> (length p' < length p)%nat.
Proof.
  destruct p as [|c p]; cbn; [done|]. destruct (c =? 42); [done|]. destruct (c =? 92).
  - destruct p; intros; simplify_eq; cbn; lia.
  - intros; simplify_eq; lia.
Qed.

Lemma tokens_length n q p : tokens n q p -> (length p <= length q)%nat.
Proof. induction 1 as [|n q p p' Ht IH Hp%after_token_length]; lia. Qed.

Lemma no_class_after p p' : no_class p -> after_token p = Some p' -> no_class p'.
Proof.
  destruct p as [|c p]; cbn; [done|]. intros [_ Hn]. destruct (c =? 42); [done|]. destruct (c =? 92).
  - by destruct p; intros; simplify_eq.
  - by intros; simplify_eq.
Qed.

Lemma no_class_star p : no_class (42 :: p) -> no_class p.
Proof. by intros [_ H]. Qed.

(** The code on one token; a NUL byte follows the pattern. *)
Lemma glob_char_spec fuel c0 s p t :
  no_class p -> starts_with_star p = false -> c0 <> 0 -> zlen p < 2 ^ 64 ->
  glob_char fuel c0 s (p ++ 0 :: t) (zlen p) =
  Done (match after_token p with
        | Some p' => if token_accepts c0 p then GNext s (p' ++ 0 :: t) (zlen p') else GBreak
        | None => GBreak
        end).
Proof.
  intros Hn Hs Hc Hlen. assert (forall c (q : list Z), zlen (c :: q) < 2 ^ 64 -> u64 (zlen (c :: q) - 1) = zlen q) as Hz.
  { intros c q Hq. rewrite zlen_cons in Hq |- *. pose proof (zlen_nonneg q).
    replace (1 + zlen q - 1) with (zlen q) by lia. apply wrap_small. lia. }
  destruct p as [|c p]; unfold glob_char, glob_literal; cbn [app deref].
  - cbn. by destruct c0.
  - cbn in Hs, Hn. destruct Hn as [Hc91 Hn]. cbn [after_token token_accepts]. rewrite Hs.
    rewrite (proj2 (Z.eqb_neq c 91) Hc91).
    destruct (Z.eqb_spec c 63) as [->|H63]; [cbn [Z.eqb]; by rewrite Hz|].
    destruct (Z.eqb_spec c 92) as [->|H92].
    + rewrite Hz by done. destruct p as [|c1 p]; [done|].
      destruct (Z.eqb_spec (zlen (c1 :: p)) 0) as [Hz0|_].
      { rewrite zlen_cons in Hz0. pose proof (zlen_nonneg p). lia. }
      cbn [tail app deref]. rewrite Hz by (rewrite !zlen_cons in *; lia). by destruct (c1 =? c0).
    + cbn [deref tail app orb]. rewrite Hz by done. by destruct (c =? c0).
Qed.

Lemma glob_end_spec t : forall p fuel,
  (length p < fuel)%nat -> glob_end fuel (p ++ 0 :: t) (zlen p) = Done (wild p []).
Proof.
  induction p as [|c p IH]; intros [|fuel] Hf; cbn [length] in Hf; try lia; cbn [glob_end]; [done|].
  rewrite zlen_cons. pose proof (zlen_nonneg p). destruct (Z.ltb_spec 0 (1 + zlen p)); [|lia].
  cbn [negb app deref tail wild]. destruct (Z.eqb_spec c 42).
  - replace (1 + zlen p - 1) with (zlen p) by lia. rewrite IH by lia. by rewrite orb_false_r.
  - destruct (c =? 92); [by destruct p|done].
Qed.

(** Where the matching is: no star yet, or the string and the pattern of the
    last star, [n] tokens before. *)
Definition glob_target (p s : list Z) (backup : option (list Z * list Z)) : bool :=
  match backup with None => wild p s | Some (sb, pb) => wild (42 :: pb) sb end.

Definition glob_at (p s : list Z) (backup : option (list Z * list Z)) : Prop :=
  match backup with
  | None => True
  | Some (sb, pb) => exists n, tokens n pb p /\ s = drop n sb /\ (n <= length sb)%nat /\
      wild pb sb = wild p s /\ no_class pb /\ Forall (fun c => c <> 0) sb
  end.

Definition glob_fuel (W P : nat) (p s : list Z) (backup : option (list Z * list Z)) : nat :=
  match backup with
  | None => (length p + 1) * (W * W)
  | Some (sb, pb) => length pb * (W * W) + length sb * W
  end + length s + P + 1.

Lemma fuel_star (W a b c : nat) : (a < b)%nat -> (c + 2 <= W)%nat -> (a * (W * W) + c * W + W + W <= b * (W * W))%nat.
Proof.
  intros Hab Hc. pose proof (Nat.mul_le_mono_r (a + 1) b (W * W) ltac:(lia)).
  pose proof (Nat.mul_le_mono_r (c + 2) W W Hc). lia.
Qed.

Definition with_nul (t : list Z) (b : list Z * list Z) : list Z * list Z * Z :=
  (b.1, b.2 ++ 0 :: t, zlen b.2).

(** A star forgets the one before. *)
Lemma glob_target_star p s backup :
  glob_at (42 :: p) s backup -> glob_target (42 :: p) s backup = wild (42 :: p) s.
Proof.
  destruct backup as [[sb pb]|]; [|done]. intros (n & Ht & -> & Hn & Hw & _). cbn [glob_target].
  apply eq_bool_prop_intro. rewrite !Is_true_true. rewrite wild_star. split.
  - intros (k & Hk & Hwk). destruct (tokens_wild _ _ _ _ Ht Hwk) as [Hnk Hwn].
    rewrite drop_drop in Hwn. rewrite Nat.add_comm, <- drop_drop in Hwn.
    apply wild_star in Hwn as (j & Hj & Hwj). apply wild_star. exists (k + j)%nat.
    rewrite !drop_drop in *. rewrite !length_drop in *. split; [lia|done].
  - intros Hs. exists 0%nat. split; [lia|]. change (drop 0 sb) with sb. by rewrite Hw.
Qed.

Lemma glob_target_end p backup : glob_at p [] backup -> glob_target p [] backup = wild p [].
Proof.
  destruct backup as [[sb pb]|]; [|done]. intros (n & Ht & Hd & Hn & Hw & _). cbn [glob_target]. rewrite <- Hw.
  assert (n = length sb) as ->.
  { apply (f_equal length) in Hd. rewrite length_drop in Hd. cbn in Hd. lia. }
  apply eq_bool_prop_intro. rewrite !Is_true_true, wild_star. split.
  - intros (k & Hk & Hwk). destruct (tokens_wild _ _ _ _ Ht Hwk) as [Hl _]. rewrite length_drop in Hl.
    by replace k with 0%nat in Hwk by lia.
  - intros Hs. exists 0%nat. split; [lia|done].
Qed.

(** A mismatch restarts one character further than the last star did. *)
Lemma glob_target_retry p s sb pb :
  glob_at p s (Some (sb, pb)) -> wild p s = false -> s <> [] ->
  exists x sb', sb = x :: sb' /\ glob_target p s (Some (sb, pb)) = wild (42 :: pb) sb' /\
    glob_at pb sb' (Some (sb', pb)).
Proof.
  intros (n & Ht & -> & Hn & Hw & Hnc & Hnz) Hf Hs. destruct sb as [|x sb']; [by rewrite drop_nil in Hs|].
  exists x, sb'. split; [done|]. split.
  - cbn [glob_target]. rewrite Hf in Hw. cbn [wild Z.eqb]. by rewrite Hw.
  - apply Forall_cons in Hnz as [_ Hnz]. exists 0%nat. split_and!; try done; [constructor|lia].
Qed.

Lemma glob_loop_spec N P t fuel : forall p s backup,
  no_class p -> Forall (fun c => c <> 0) s -> glob_at p s backup -> Z.of_nat P < 2 ^ 64 ->
  (length p <= P)%nat -> (length s <= N)%nat ->
  match backup with Some (sb, pb) => (length sb <= N)%nat /\ (length pb <= P)%nat | None => True end ->
  (glob_fuel (N + 2) P p s backup < fuel)%nat ->
  glob_loop fuel s (p ++ 0 :: t) (zlen p) (with_nul t <$> backup) = Done (glob_target p s backup).
Proof.
  induction fuel as [|fuel IH]; intros p s backup Hnc Hnz Hat HP Hp Hs Hb Hf; [lia|].
  cbn [glob_loop]. destruct s as [|c0 s].
  { rewrite glob_end_spec by (unfold glob_fuel in Hf; destruct backup as [[]|]; lia).
    by rewrite glob_target_end. }
  apply Forall_cons in Hnz as [Hc0 Hnz]. assert (zlen p < 2 ^ 64) as Hlen by (unfold zlen; lia).
  destruct (starts_with_star p) eqn:Hstar.
  - destruct p as [|c p]; [done|]. cbn in Hstar. apply Z.eqb_eq in Hstar as ->. cbn [app deref Z.eqb tail].
    replace (u64 (zlen (42 :: p) - 1)) with (zlen p).
    2: { rewrite zlen_cons in Hlen |- *. pose proof (zlen_nonneg p). rewrite wrap_small; lia. }
    rewrite glob_target_star by done.
    apply (IH p (c0 :: s) (Some (c0 :: s, p))); try done; cbn [length] in *.
    + by apply no_class_star in Hnc.
    + by constructor.
    + exists 0%nat. split_and!; try done; [constructor|lia|by apply no_class_star in Hnc|by constructor].
    + lia.
    + lia.
    + unfold glob_fuel in *. destruct backup as [[sb pb]|]; cbn [length] in *.
      * destruct Hat as (n & Ht & _ & _ & _). apply tokens_length in Ht. cbn [length] in Ht.
        pose proof (fuel_star (N + 2) (length p) (length pb) (S (length s)) ltac:(lia) ltac:(lia)). lia.
      * pose proof (fuel_star (N + 2) (length p) (S (length p) + 1) (S (length s)) ltac:(lia) ltac:(lia)). lia.
  - assert (wild p (c0 :: s) = match after_token p with Some p' => token_accepts c0 p && wild p' s | None => false end)
      as Hw by (by apply wild_token).
    pose proof (glob_char_spec fuel c0 s p t Hnc Hstar Hc0 Hlen) as Hchar.
    assert (exists c q, p ++ 0 :: t = c :: q /\ (c =? 42) = false) as (c & q & Hhead & Hc42).
    { destruct p as [|c p]; [by exists 0, t|]. by exists c, (p ++ 0 :: t). }
    rewrite Hchar, Hhead. cbn [deref]. rewrite Hc42. clear Hchar Hhead Hc42.
    assert (wild p (c0 :: s) = false ->
      match with_nul t <$> backup with
      | None => Done false
      | Some (string_backup, pattern_backup, length_backup) =>
          glob_loop fuel (tail string_backup) pattern_backup length_backup
            (Some (tail string_backup, pattern_backup, length_backup))
      end = Done (glob_target p (c0 :: s) backup)) as Hretry.
    { clear Hw. intros Hw. destruct backup as [[sb pb]|]; cbn [fmap option_fmap option_map with_nul fst snd];
        [|cbn; by rewrite Hw].
      destruct (glob_target_retry p (c0 :: s) sb pb Hat Hw ltac:(done)) as (x & sb' & -> & -> & Hat').
      destruct Hat as (n & Ht & Hd & Hn & _ & Hncb & Hnzb). apply tokens_length in Ht.
      apply Forall_cons in Hnzb as [_ Hnzb]. cbn [tail length] in *.
      apply (IH pb sb' (Some (sb', pb))); try done; try lia.
      unfold glob_fuel in *. cbn [length] in *. lia. }
    destruct (after_token p) as [p'|] eqn:Hp'; [destruct (token_accepts c0 p) eqn:Hacc|]; cbn [andb] in Hw.
    + pose proof (after_token_length _ _ Hp') as Hpl.
      rewrite (IH p' s backup); try done; try lia.
      * destruct backup as [[sb pb]|]; [done|]. cbn. by rewrite Hw.
      * by eapply no_class_after.
      * destruct backup as [[sb pb]|]; [|done]. destruct Hat as (n & Ht & Hd & Hn & Hwb & Hrest).
        exists (S n). split; [by econstructor|]. split.
        { replace (S n) with (n + 1)%nat by lia. by rewrite <- drop_drop, <- Hd. }
        split; [|split; [by rewrite Hwb|done]].
        apply (f_equal length) in Hd. rewrite length_drop in Hd. cbn in Hd. lia.
      * cbn in Hs. lia.
      * unfold glob_fuel in *. destruct backup as [[sb pb]|]; cbn [length] in *; [lia|].
        pose proof (Nat.mul_le_mono_r (length p' + 1) (length p + 1) ((N + 2) * (N + 2)) ltac:(lia)). lia.
    + exact (Hretry Hw).
    + exact (Hretry Hw).
Qed.



(** Where the matcher does not do that: the pattern "?" alone matches every
    string, a class that starts with a dash never ends, and a pattern without a
    byte after it is read past its end. *)
Theorem glob_match_faults :
  (forall fuel c string t, utils_string_glob_match fuel (c :: string) (63 :: t) 1 = Done true) /\
  (forall fuel c string t, utils_string_glob_match fuel (c :: string) ([91; 45; 97; 93] ++ t) 4 = OutOfFuel) /\
  (forall fuel, utils_string_glob_match (S (S fuel)) [97; 98] [97] 1 = OutOfBounds).
Proof.
  assert (forall c (l : list Z), (zlen (c :: l) =? 0) = false) as Hz.
  { intros c l. apply Z.eqb_neq. rewrite zlen_cons. pose proof (zlen_nonneg l). lia. }
  split_and!.
  - intros fuel c string t. unfold utils_string_glob_match. by rewrite Hz.
  - intros fuel c string t. assert (forall n, class_loop n c (45 :: 97 :: 93 :: t) 3 false (-1) = OutOfFuel) as Hl
      by (by induction n).
    unfold utils_string_glob_match. rewrite Hz. destruct fuel as [|fuel]; [done|].
    cbn -[class_loop]. by rewrite Hl.
  - done.
Qed.

(** ** Integers *)

Lemma int64_digits_step acc r rest :
  0 <= acc -> 0 <= r < 10 -> acc * 10 + r < 2 ^ 64 ->
  int64_digits ((48 + r) :: rest) acc = int64_digits rest (acc * 10 + r).
Proof.
  intros Ha Hr Hlt. cbn [int64_digits]. assert (Decimal.is_digit (48 + r) = true) as -> by (unfold Decimal.is_digit; lia).
  cbn [negb]. replace (48 + r - 48) with r by lia.
  rewrite (wrap_small 64 (acc * 10)) by lia. rewrite (wrap_small 64) by lia.
  destruct (Z.ltb_spec (acc * 10 + r) acc); [lia|done].
Qed.

Lemma int64_digits_digits d : forall n rest acc,
  0 <= n < 10 ^ Z.of_nat d -> 0 <= acc -> acc * 10 ^ Z.of_nat d + n < 2 ^ 64 ->
  int64_digits (Decimal.digits d n ++ rest) acc = int64_digits rest (acc * 10 ^ Z.of_nat d + n).
Proof.
  induction d as [|d IH]; intros n rest acc Hn Ha Hlt.
  - cbn in *. f_equal. lia.
  - cbn [Decimal.digits]. rewrite <- app_assoc. rewrite Nat2Z.inj_succ, Z.pow_succ_r in Hn, Hlt by lia.
    pose proof (Z.div_mod n 10 ltac:(lia)). pose proof (Z.mod_pos_bound n 10 ltac:(lia)).
    assert (0 <= n / 10 < 10 ^ Z.of_nat d) as Hd.
    { split; [apply Z.div_pos; lia|]. apply Z.div_lt_upper_bound; lia. }
    assert (0 < 10 ^ Z.of_nat d) as Hp by (apply Z.pow_pos_nonneg; lia).
    rewrite IH by (done || nia). cbn [app].
    rewrite int64_digits_step by nia.
    f_equal. rewrite Nat2Z.inj_succ, Z.pow_succ_r by lia. nia.
Qed.

Lemma int64_digits_dec n : 0 <= n < 2 ^ 64 -> int64_digits (Decimal.dec n) 0 = Some n.
Proof.
  intros Hn. destruct (Decimal.ndigits_spec n Hn) as (_ & Hlt & _).
  pose proof (int64_digits_digits (Decimal.ndigits n) n [] 0 ltac:(lia) ltac:(lia) ltac:(lia)) as Hd.
  rewrite app_nil_r in Hd. exact Hd.
Qed.

Lemma dec_length n d : 0 <= n -> 1 <= d -> n < 10 ^ d -> n < 2 ^ 64 -> 1 <= zlen (Decimal.dec n) <= d.
Proof.
  intros Hn Hd Hlt Hb. unfold zlen, Decimal.dec. rewrite Decimal.digits_length.
  destruct (Decimal.ndigits_spec n ltac:(lia)) as (H1 & H2 & H3). split; [lia|].
  destruct (decide (n = 0)) as [->|Hne]; [change (Decimal.ndigits 0) with 1%nat; lia|].
  specialize (H3 ltac:(lia)). assert (Z.of_nat (Decimal.ndigits n) - 1 < d); [|lia].
  apply (Z.pow_lt_mono_r_iff 10); lia.
Qed.

(** A number is not written with a minus sign first. *)
Lemma decimal_head n : 0 <= n < 2 ^ 64 -> exists c l, Decimal.dec n = c :: l /\ c <> 45.
Proof.
  intros Hn. pose proof (Decimal.dec_digits n) as Hd. pose proof (Decimal.dec_length_pos n Hn) as Hl.
  destruct (Decimal.dec n) as [|c l]; [unfold zlen in Hl; cbn in Hl; lia|].
  apply Forall_cons in Hd as [Hc _]. exists c, l. split; [done|]. intros ->. done.
Qed.

(** Every 64-bit signed number is read back from its decimal form. *)
Lemma string_to_int64_dec n : - 2 ^ 63 <= n < 2 ^ 63 -> utils_string_to_int64 (Decimal.dec_signed n) = (n, false).
Proof.
  intros Hn. unfold utils_string_to_int64, Decimal.dec_signed, UTILS_STRING_INT64_MIN_STR_LENGTH.
  destruct (Z.ltb_spec n 0) as [Hneg|Hpos].
  - pose proof (dec_length (- n) 19 ltac:(lia) ltac:(lia) ltac:(mach_lia) ltac:(mach_lia)) as Hl.
    rewrite zlen_cons. destruct (Z.eqb_spec (1 + zlen (Decimal.dec (- n))) 0); [lia|].
    destruct (Z.ltb_spec 20 (1 + zlen (Decimal.dec (- n)))); [lia|].
    change (45 =? 45) with true. cbv beta iota. rewrite int64_digits_dec by mach_lia.
    change (-1 =? -1) with true. cbv iota. destruct (Z.ltb_spec (2 ^ 63 - 1 + 1) (- n)); [mach_lia|].
    f_equal. destruct (decide (n = - 2 ^ 63)) as [->|]; [done|].
    rewrite (swrap_small 64 (- n)) by mach_lia. rewrite swrap_small by mach_lia. lia.
  - pose proof (dec_length n 19 ltac:(lia) ltac:(lia) ltac:(mach_lia) ltac:(mach_lia)) as Hl.
    destruct (Z.eqb_spec (zlen (Decimal.dec n)) 0); [lia|].
    destruct (Z.ltb_spec 20 (zlen (Decimal.dec n))); [lia|].
    destruct (decimal_head n ltac:(mach_lia)) as (c & l & Hdec & Hc).
    rewrite Hdec. destruct (Z.eqb_spec c 45); [done|]. rewrite <- Hdec.
    rewrite int64_digits_dec by mach_lia.
    change (1 =? -1) with false. cbv iota. destruct (Z.ltb_spec (2 ^ 63 - 1 + 0) n); [mach_lia|].
    f_equal. rewrite (swrap_small 64 n) by mach_lia. rewrite swrap_small by mach_lia. lia.
Qed.

(** A number that does not fit 64 bits is read as another number: the test
    for an overflow, that the number has become smaller, misses the numbers of
    20 digits between 2^64 * 10/9 and 2^64 + 2^63, which are read modulo 2^64. *)
Theorem string_to_int64_misses_overflow (n : Z) :
  20496382304121724018 <= n < 2 ^ 64 + 2 ^ 63 -> utils_string_to_int64 (Decimal.digits 20 n) = (n - 2 ^ 64, false).
Proof.
  intros Hn. unfold utils_string_to_int64, UTILS_STRING_INT64_MIN_STR_LENGTH.
  assert (zlen (Decimal.digits 20 n) = 20) as -> by (unfold zlen; by rewrite Decimal.digits_length).
  change (20 =? 0) with false. change (20 <? 20) with false. cbv iota.
  pose proof (Decimal.digits_are_digits 20 n) as Hd. pose proof (Decimal.digits_length 20 n) as Hlen.
  assert (int64_digits (Decimal.digits 20 n) 0 = Some (n - 2 ^ 64)) as Hdig.
  { change (Decimal.digits 20 n) with (Decimal.digits 19 (n / 10) ++ [48 + n `mod` 10]).
    pose proof (Z.div_mod n 10 ltac:(lia)). pose proof (Z.mod_pos_bound n 10 ltac:(lia)).
    rewrite int64_digits_digits by (change (10 ^ Z.of_nat 19) with 10000000000000000000; mach_lia).
    cbn [int64_digits]. rewrite Decimal.digit_char. cbn [negb].
    replace (48 + n `mod` 10 - 48) with (n `mod` 10) by lia.
    rewrite wrap_add_l by lia. replace (0 * 10 ^ Z.of_nat 19 + n / 10) with (n / 10) by lia.
    replace (n / 10 * 10 + n `mod` 10) with n by lia.
    assert (u64 n = n - 2 ^ 64) as ->.
    { rewrite (wrap_eq_add 64 n (n - 2 ^ 64) 1) by lia. apply wrap_small. mach_lia. }
    destruct (Z.ltb_spec (n - 2 ^ 64) (n / 10)); [mach_lia|done]. }
  destruct (Decimal.digits 20 n) as [|c l]; [done|]. apply Forall_cons in Hd as [Hc _].
  destruct (Z.eqb_spec c 45) as [->|_]; [done|]. rewrite Hdig.
  change (1 =? -1) with false. cbv iota. destruct (Z.ltb_spec (2 ^ 63 - 1 + 0) (n - 2 ^ 64)); [mach_lia|].
  rewrite (swrap_small 64 (n - 2 ^ 64)) by mach_lia. rewrite swrap_small by mach_lia. f_equal. lia.
Qed.

Lemma string_to_int64_misses_overflow_witness :
  utils_string_to_int64 (Decimal.digits 20 25000000000000000000) = (25000000000000000000 - 2 ^ 64, false).
Proof. apply (string_to_int64_misses_overflow 25000000000000000000). split; [done|reflexivity]. Defined.

End UtilsString.
