(* ===== verification/StorageDb.v ===== *)
(** * StorageDb: the entries of the database

    storage/db/storage_db.c with the memory backend, as one worker runs it.
    The hashtable maps a key to the address of an entry; entries live in a heap
    ([heap]), where an address that is not allocated is [None].  A deleted
    entry that nobody reads goes to a ring from which it is reused once the
    ring is full, and one that has readers waits in the list of the deleting
    entries for the garbage collection.  Reading a clock is an argument of the
    operation: [now] is the realtime clock and [mono] the monotonic one, in
    milliseconds; the coarse clocks give the same time during an operation.
    The sequence of the deleting entries stands for the linked list of
    [DoubleLinkedList], and the counters of a database are found through the
    single-thread hashtable. *)

From stdpp Require Import gmap.
From S2P Require Import Prelude Pow2 RingQueue Transaction HashtableMcmp HashtableSpsc EntryStatus SnapshotRdb.

Module StorageDb.
Import Transaction HashtableMcmp EntryStatus.

Definition STORAGE_DB_ENTRY_NO_EXPIRY : Z := 0.
Definition STORAGE_DB_WORKER_ENTRY_INDEX_RING_BUFFER_SIZE : Z := 512.
Definition STORAGE_DB_CHUNK_MAX_SIZE : Z := 64 * 1024 - 1.

(** ** Data *)

(** [seq_sequence] is the array of chunks, [None] for a NULL pointer. *)
Record chunk_sequence := ChunkSequence {
  seq_count : Z;
  seq_sequence : option (list (list Z));
  seq_size : Z
}.

Definition no_chunks : chunk_sequence := ChunkSequence 0 None 0.

Record entry_index := EntryIndex {
  status : Z;
  entry_database_number : Z;
  created_time_ms : Z;
  expiry_time_ms : Z;
  last_access_time_ms : Z;
  snapshot_time_ms : Z;
  value : chunk_sequence
}.

Definition set_status (e : entry_index) (w : Z) : entry_index :=
  EntryIndex w (entry_database_number e) (created_time_ms e) (expiry_time_ms e) (last_access_time_ms e)
    (snapshot_time_ms e) (value e).
Definition set_value (e : entry_index) (v : chunk_sequence) : entry_index :=
  EntryIndex (status e) (entry_database_number e) (created_time_ms e) (expiry_time_ms e)
    (last_access_time_ms e) (snapshot_time_ms e) v.
Definition set_expiry (e : entry_index) (t : Z) : entry_index :=
  EntryIndex (status e) (entry_database_number e) (created_time_ms e) t (last_access_time_ms e)
    (snapshot_time_ms e) (value e).
Definition set_last_access (e : entry_index) (t : Z) : entry_index :=
  EntryIndex (status e) (entry_database_number e) (created_time_ms e) (expiry_time_ms e) t
    (snapshot_time_ms e) (value e).

Record counters := Counters {
  keys_count : Z;
  data_size : Z;
  keys_changed : Z;
  data_changed : Z
}.

Definition zero_counters : counters := Counters 0 0 0 0.

(** The configuration: [enforced_ttl]. *)
Record config := Config { default_ms : Z; max_ms : Z }.

(** What the operations use of the state of a snapshot in progress; an item of
    the queue is the bucket, the key and the entry. *)
Record snapshot_state := SnapshotState {
  in_progress : bool;
  start_time_ms : Z;
  block_index : Z;
  entry_index_to_be_deleted_queue : list (Z * list Z * Z)
}.

Record storage_db := Db {
  hashtable : hashtable_data;
  heap : gmap Z entry_index;
  heap_next : Z;
  deleted_entry_index_ring_buffer : RingQueue.ring Z;
  deleting_entry_index_list : list Z;
  counters_global : counters;
  counters_per_db : HashtableSpsc.hashtable_spsc;
  counters_cells : gmap Z counters;
  snapshot : snapshot_state
}.

Definition with_table (db : storage_db) (d : hashtable_data) : storage_db :=
  Db d (heap db) (heap_next db) (deleted_entry_index_ring_buffer db) (deleting_entry_index_list db)
    (counters_global db) (counters_per_db db) (counters_cells db) (snapshot db).
Definition with_heap (db : storage_db) (h : gmap Z entry_index) : storage_db :=
  Db (hashtable db) h (heap_next db) (deleted_entry_index_ring_buffer db) (deleting_entry_index_list db)
    (counters_global db) (counters_per_db db) (counters_cells db) (snapshot db).
Definition with_next (db : storage_db) (n : Z) : storage_db :=
  Db (hashtable db) (heap db) n (deleted_entry_index_ring_buffer db) (deleting_entry_index_list db)
    (counters_global db) (counters_per_db db) (counters_cells db) (snapshot db).
Definition with_ring (db : storage_db) (r : RingQueue.ring Z) : storage_db :=
  Db (hashtable db) (heap db) (heap_next db) r (deleting_entry_index_list db)
    (counters_global db) (counters_per_db db) (counters_cells db) (snapshot db).
Definition with_deleting (db : storage_db) (l : list Z) : storage_db :=
  Db (hashtable db) (heap db) (heap_next db) (deleted_entry_index_ring_buffer db) l
    (counters_global db) (counters_per_db db) (counters_cells db) (snapshot db).
Definition with_counters (db : storage_db) (g : counters) (t : HashtableSpsc.hashtable_spsc)
    (c : gmap Z counters) : storage_db :=
  Db (hashtable db) (heap db) (heap_next db) (deleted_entry_index_ring_buffer db)
    (deleting_entry_index_list db) g t c (snapshot db).
Definition with_queue (db : storage_db) (q : list (Z * list Z * Z)) : storage_db :=
  Db (hashtable db) (heap db) (heap_next db) (deleted_entry_index_ring_buffer db)
    (deleting_entry_index_list db) (counters_global db) (counters_per_db db) (counters_cells db)
    (SnapshotState (in_progress (snapshot db)) (start_time_ms (snapshot db)) (block_index (snapshot db)) q).

Definition update_entry (db : storage_db) (p : Z) (e : entry_index) : storage_db :=
  with_heap db (<[p := e]> (heap db)).

(** ** Chunk sequences *)

(** ceil((double)size / (double)STORAGE_DB_CHUNK_MAX_SIZE): exact in double
    precision for the sizes below 2^53. *)
Definition storage_db_chunk_sequence_calculate_chunk_count (sz : Z) : Z :=
  (sz + STORAGE_DB_CHUNK_MAX_SIZE - 1) / STORAGE_DB_CHUNK_MAX_SIZE.

(** ** Entries *)

Definition storage_db_chunk_sequence_free_chunks (s : chunk_sequence) : chunk_sequence := no_chunks.

(** With the memory backend only the chunks of the value exist. *)
Definition storage_db_entry_index_chunks_free (db : storage_db) (p : Z) : option storage_db :=
  e ← heap db !! p;
  Some (if 0 <? seq_size (value e)
        then update_entry db p (set_value e (storage_db_chunk_sequence_free_chunks (value e))) else db).

Definition storage_db_entry_index_free (db : storage_db) (p : Z) : option storage_db :=
  db ← storage_db_entry_index_chunks_free db p;
  Some (with_heap db (delete p (heap db))).

Definition storage_db_entry_index_touch (db : storage_db) (p mono : Z) : option storage_db :=
  e ← heap db !! p;
  Some (update_entry db p (set_last_access e mono)).

Definition storage_db_entry_index_new (db : storage_db) : storage_db * Z :=
  (with_next (update_entry db (heap_next db) (EntryIndex 0 0 0 0 0 0 no_chunks)) (heap_next db + 1),
   heap_next db).

Definition storage_db_entry_index_ring_buffer_new (db : storage_db) (mono : Z) : option (storage_db * Z) :=
  let rb := deleted_entry_index_ring_buffer db in
  '(db, p) ← (if RingQueue.is_full rb then
                let '(rb, (p, _)) := RingQueue.dequeue 0 rb in
                let db := with_ring db rb in
                e ← heap db !! p;
                Some (update_entry db p
                  (EntryIndex 0 (entry_database_number e) (created_time_ms e) (expiry_time_ms e)
                     (last_access_time_ms e) 0 (value e)), p)
              else Some (storage_db_entry_index_new db));
  e ← heap db !! p;
  Some (update_entry db p
    (EntryIndex (status e) (entry_database_number e) mono (expiry_time_ms e) (last_access_time_ms e)
       (snapshot_time_ms e) (value e)), p).

Definition storage_db_entry_index_ring_buffer_free (db : storage_db) (p : Z) : option storage_db :=
  let rb := deleted_entry_index_ring_buffer db in
  db ← (if RingQueue.is_full rb then
          let '(rb, (q, _)) := RingQueue.dequeue 0 rb in
          storage_db_entry_index_free (with_ring db rb) q
        else Some db);
  let '(rb, result) := RingQueue.enqueue (deleted_entry_index_ring_buffer db) p in
  _ ← check result;
  Some (with_ring db rb).

(** ** The status word of an entry *)

Definition increase_readers (db : storage_db) (p : Z) : option (storage_db * Z) :=
  e ← heap db !! p;
  '(w, old) ← storage_db_entry_index_status_increase_readers_counter (status e);
  Some (update_entry db p (set_status e w), old).

Definition decrease_readers (db : storage_db) (p : Z) : option storage_db :=
  e ← heap db !! p;
  '(w, _) ← storage_db_entry_index_status_decrease_readers_counter (status e);
  Some (update_entry db p (set_status e w)).

(** ** Deleted entries *)

Definition storage_db_worker_mark_deleted_or_deleting_previous_entry_index (db : storage_db) (p : Z)
    : option storage_db :=
  e ← heap db !! p;
  let '(w, old) := storage_db_entry_index_status_set_deleted (status e) true in
  let db := update_entry db p (set_status e w) in
  if readers_counter old =? 0 then
    db ← storage_db_entry_index_chunks_free db p;
    storage_db_entry_index_ring_buffer_free db p
  else
    let l := deleting_entry_index_list db ++ [p] in
    _ ← check (zlen l <? 1000);
    Some (with_deleting db l).

(** The loop over the list: [n] items are left to examine, [kept] are the
    ones before them that stay. *)
Fixpoint collect_loop (n : nat) (db : storage_db) (kept todo : list Z) : option storage_db :=
  match n, todo with
  | S n, p :: todo =>
      e ← heap db !! p;
      if readers_counter (status e) =? 0 then
        let db := with_deleting db (kept ++ todo) in
        db ← storage_db_entry_index_chunks_free db p;
        db ← storage_db_entry_index_ring_buffer_free db p;
        collect_loop n db kept todo
      else collect_loop n db (kept ++ [p]) todo
  | _, _ => Some db
  end.

Definition storage_db_worker_garbage_collect_deleting_entry_index_when_no_readers (db : storage_db)
    : option storage_db :=
  let l := deleting_entry_index_list db in
  let max_iterations := 1000 + (if 1000 <? zlen l then zlen l / 25 else 0) in
  collect_loop (Z.to_nat max_iterations) db [] l.

(** ** Counters: STORAGE_DB_COUNTERS_UPDATE

    The counters of the thread and the ones of the database in the hashtable of
    the thread, where a NULL pointer is 0.  The result of [try_set] is not
    looked at. *)

Definition storage_db_counters_per_thread_get_or_create (db : storage_db) (database_number : Z)
    : option (storage_db * Z) :=
  p ← HashtableSpsc.hashtable_spsc_op_get_by_hash_and_key_uint32 (counters_per_db db) database_number
        database_number;
  if p =? 0 then
    let p := heap_next db in
    let cells := <[p := zero_counters]> (counters_cells db) in
    '(_, t) ← HashtableSpsc.hashtable_spsc_op_try_set_by_hash_and_key_uint32 (counters_per_db db)
                database_number database_number p;
    Some (with_next (with_counters db (counters_global db) t cells) (heap_next db + 1), p)
  else Some (db, p).

Definition STORAGE_DB_COUNTERS_UPDATE (db : storage_db) (database_number : Z) (f : counters -> counters)
    : option storage_db :=
  let db := with_counters db (f (counters_global db)) (counters_per_db db) (counters_cells db) in
  '(db, p) ← storage_db_counters_per_thread_get_or_create db database_number;
  c ← counters_cells db !! p;
  Some (with_counters db (counters_global db) (counters_per_db db) (<[p := f c]> (counters_cells db))).

Definition add_counters (keys size keys_c data_c : Z) (c : counters) : counters :=
  Counters (i64 (keys_count c + keys)) (i64 (data_size c + size)) (i64 (keys_changed c + keys_c))
    (i64 (data_changed c + data_c)).

(** ** Snapshot of an entry about to be replaced *)

Definition storage_db_snapshot_should_entry_index_be_processed_block_not_processed (db : storage_db)
    (bucket_index : Z) : bool :=
  block_index (snapshot db) <=? bucket_index / SnapshotRdb.STORAGE_DB_SNAPSHOT_BLOCK_SIZE.

Definition storage_db_snapshot_should_entry_index_be_processed_creation_time (db : storage_db)
    (e : entry_index) : bool := created_time_ms e <? start_time_ms (snapshot db).

Definition storage_db_snapshot_queue_entry_index_to_be_deleted (db : storage_db) (bucket_index : Z)
    (k : list Z) (p : Z) : storage_db :=
  with_queue db (entry_index_to_be_deleted_queue (snapshot db) ++ [(bucket_index, k, p)]).

(** ** Expiry *)

Definition storage_db_entry_index_is_expired (now : Z) (e : entry_index) : bool :=
  (0 <? expiry_time_ms e) && (expiry_time_ms e <? now).

Definition storage_db_entry_index_ttl_ms (now : Z) (e : entry_index) : Z :=
  if expiry_time_ms e =? STORAGE_DB_ENTRY_NO_EXPIRY then -1 else i64 (expiry_time_ms e - now).

(** The expiry an entry is stored with. *)
Definition enforce_ttl (cfg : config) (now expiry : Z) : Z :=
  if (expiry =? STORAGE_DB_ENTRY_NO_EXPIRY) && negb (default_ms cfg =? STORAGE_DB_ENTRY_NO_EXPIRY)
  then i64 (now + default_ms cfg)
  else if negb (max_ms cfg =? STORAGE_DB_ENTRY_NO_EXPIRY) then
    let max_ttl_ms := i64 (now + max_ms cfg) in
    if negb (max_ms cfg =? STORAGE_DB_ENTRY_NO_EXPIRY) && (max_ttl_ms <? expiry) then max_ttl_ms else expiry
  else expiry.

(** The result is NULL, 0, when the entry is deleted or expired. *)
Definition storage_db_get_entry_index_for_read_prep_no_expired_eviction (db : storage_db) (now p : Z)
    : option (storage_db * Z) :=
  '(db, old) ← increase_readers db p;
  if deleted old then Some (db, 0) else
  e ← heap db !! p;
  if storage_db_entry_index_is_expired now e then
    db ← decrease_readers db p;
    Some (db, 0)
  else Some (db, p).

Section operations.
Context (hash_fn : Z -> list Z -> Z) (cfg : config).

(** ** Read-modify-write *)

Record storage_db_op_rmw_status := RmwStatusDb {
  rmw_hashtable : rmw_status;
  rmw_current_entry_index : Z;
  delete_entry_index_on_abort : bool
}.

(** The result is the status and the current entry, 0 when there is none or
    when it is expired. *)
Definition storage_db_op_rmw_begin (db : storage_db) (tx : transaction) (now database_number : Z) (k : list Z)
    : option (storage_db * transaction * option (storage_db_op_rmw_status * Z)) :=
  _ ← check (negb (tx_id tx =? TRANSACTION_ID_NOT_ACQUIRED));
  '(d, tx, r) ← hashtable_mcmp_op_rmw_begin hash_fn (hashtable db) tx database_number k (zlen k);
  let db := with_table db d in
  match r with
  | None => Some (db, tx, None)
  | Some (st, current) =>
      let p := default 0 current in
      expired ← (if p =? 0 then Some false
                 else e ← heap db !! p; Some (storage_db_entry_index_is_expired now e));
      Some (db, tx, Some (RmwStatusDb st p expired, if expired then 0 else p))
  end.

Definition storage_db_op_rmw_current_entry_index_prep_for_read (db : storage_db) (mono : Z)
    (st : storage_db_op_rmw_status) (p : Z) : option (storage_db * Z) :=
  db ← (if negb (p =? 0) && negb (delete_entry_index_on_abort st)
        then storage_db_entry_index_touch db p mono else Some db);
  '(db, _) ← increase_readers db p;
  Some (db, p).

Definition storage_db_op_rmw_commit_metadata (db : storage_db) (mono : Z) (st : storage_db_op_rmw_status)
    : option storage_db :=
  let p := rmw_current_entry_index st in
  db ← (if negb (p =? 0) && negb (delete_entry_index_on_abort st)
        then storage_db_entry_index_touch db p mono else Some db);
  d ← hashtable_mcmp_op_rmw_commit_update (hashtable db) (rmw_hashtable st) p;
  Some (with_table db d).

(** The fields of a new entry, common to [op_set] and [op_rmw_commit_update]. *)
Definition fill_entry (db : storage_db) (p database_number now : Z) (v : chunk_sequence) (expiry : Z)
    : option storage_db :=
  e ← heap db !! p;
  Some (update_entry db p
    (EntryIndex (status e) database_number (created_time_ms e) (enforce_ttl cfg now expiry)
       (last_access_time_ms e) (snapshot_time_ms e) v)).

Definition value_size (db : storage_db) (p : Z) : option Z :=
  e ← heap db !! p; Some (seq_size (value e)).

Definition storage_db_op_rmw_commit_update (db : storage_db) (now mono : Z) (st : storage_db_op_rmw_status)
    (v : chunk_sequence) (expiry : Z) : option storage_db :=
  '(db, p) ← storage_db_entry_index_ring_buffer_new db mono;
  db ← fill_entry db p (rmw_database_number (rmw_hashtable st)) now v expiry;
  db ← storage_db_entry_index_touch db p mono;
  e ← heap db !! p;
  _ ← check (negb (deleted (status e)));
  d ← hashtable_mcmp_op_rmw_commit_update (hashtable db) (rmw_hashtable st) p;
  let db := with_table db d in
  let previous := rmw_current_value (rmw_hashtable st) in
  '(db, delta) ← (if negb (previous =? 0) then
                    n ← value_size db previous;
                    db ← storage_db_worker_mark_deleted_or_deleting_previous_entry_index db previous;
                    Some (db, i64 (seq_size v) - n)
                  else Some (db, i64 (seq_size v)));
  STORAGE_DB_COUNTERS_UPDATE db (rmw_database_number (rmw_hashtable st))
    (add_counters (if negb (previous =? 0) then 0 else 1) delta 1 (i64 (seq_size v))).

Definition storage_db_op_rmw_commit_delete (db : storage_db) (st : storage_db_op_rmw_status)
    : option storage_db :=
  let previous := rmw_current_value (rmw_hashtable st) in
  n ← value_size db previous;
  db ← STORAGE_DB_COUNTERS_UPDATE db (rmw_database_number (rmw_hashtable st)) (add_counters (-1) (- n) 1 n);
  db ← storage_db_worker_mark_deleted_or_deleting_previous_entry_index db previous;
  d ← hashtable_mcmp_op_rmw_commit_delete (hashtable db) (rmw_hashtable st);
  Some (with_table db d).

Definition storage_db_op_rmw_abort (db : storage_db) (st : storage_db_op_rmw_status) : option storage_db :=
  if delete_entry_index_on_abort st then storage_db_op_rmw_commit_delete db st
  else d ← hashtable_mcmp_op_rmw_abort (hashtable db) (rmw_hashtable st); Some (with_table db d).

Definition storage_db_op_rmw_commit_rename (db : storage_db) (mono : Z)
    (source destination : storage_db_op_rmw_status) : option storage_db :=
  let p := rmw_current_entry_index source in
  d ← hashtable_mcmp_op_rmw_commit_update (hashtable db) (rmw_hashtable destination) p;
  let db := with_table db d in
  let previous := rmw_current_value (rmw_hashtable destination) in
  db ← (if negb (previous =? 0)
        then storage_db_worker_mark_deleted_or_deleting_previous_entry_index db previous else Some db);
  d ← hashtable_mcmp_op_rmw_commit_delete (hashtable db) (rmw_hashtable source);
  let db := with_table db d in
  if negb (p =? 0) && negb (delete_entry_index_on_abort source)
  then storage_db_entry_index_touch db p mono else Some db.

(** ** Get *)

Definition storage_db_get_entry_index (db : storage_db) (tx : transaction) (mono database_number : Z)
    (k : list Z) : option (storage_db * transaction * Z) :=
  '(d, tx, r) ← hashtable_mcmp_op_get hash_fn (hashtable db) tx database_number k (zlen k);
  let db := with_table db d in
  match r with
  | None => Some (db, tx, 0)
  | Some p =>
      db ← (if negb (p =? 0) then storage_db_entry_index_touch db p mono else Some db);
      Some (db, tx, p)
  end.

Definition storage_db_get_entry_index_for_read_prep (db : storage_db) (tx : transaction)
    (now database_number : Z) (k : list Z) (p : Z) : option (storage_db * transaction * Z) :=
  '(db, old) ← increase_readers db p;
  if deleted old then Some (db, tx, 0) else
  e ← heap db !! p;
  if storage_db_entry_index_is_expired now e then
    db ← decrease_readers db p;
    '(db, tx, r) ← storage_db_op_rmw_begin db tx now database_number k;
    match r with
    | None => Some (db, tx, 0)
    | Some (st, _) =>
        db ← (if negb (rmw_current_entry_index st =? p) then
                db ← storage_db_worker_mark_deleted_or_deleting_previous_entry_index db p;
                storage_db_op_rmw_abort db st
              else storage_db_op_rmw_commit_delete db st);
        Some (db, tx, 0)
    end
  else Some (db, tx, p).

Definition storage_db_get_entry_index_for_read (db : storage_db) (tx : transaction)
    (now mono database_number : Z) (k : list Z) : option (storage_db * transaction * Z) :=
  '(db, tx, p) ← storage_db_get_entry_index db tx mono database_number k;
  if negb (p =? 0) then storage_db_get_entry_index_for_read_prep db tx now database_number k p
  else Some (db, tx, p).

(** ** Set *)

Definition storage_db_set_entry_index (db : storage_db) (tx : transaction) (now mono database_number : Z)
    (k : list Z) (p : Z) : option (storage_db * transaction * bool) :=
  db ← storage_db_entry_index_touch db p mono;
  e ← heap db !! p;
  let n := seq_size (value e) in
  _ ← check (negb (deleted (status e)));
  '(d, tx, r) ← hashtable_mcmp_op_set hash_fn (hashtable db) tx database_number k (zlen k) p;
  let db := with_table db d in
  db ← match r with
       | None => Some db
       | Some res =>
           let previous := default 0 (previous_value res) in
           '(db, delta) ←
             (if negb (previous =? 0) then
                e ← heap db !! previous;
                db ← (if in_progress (snapshot db) &&
                         (storage_db_snapshot_should_entry_index_be_processed_creation_time db e &&
                          storage_db_snapshot_should_entry_index_be_processed_block_not_processed db
                            (out_bucket_index res)) then
                        '(db, q) ← storage_db_get_entry_index_for_read_prep_no_expired_eviction db now previous;
                        Some (if negb (q =? 0)
                              then storage_db_snapshot_queue_entry_index_to_be_deleted db
                                     (out_bucket_index res) k q else db)
                      else Some db);
                db ← storage_db_worker_mark_deleted_or_deleting_previous_entry_index db previous;
                Some (db, i64 n - seq_size (value e))
              else Some (db, i64 n));
           STORAGE_DB_COUNTERS_UPDATE db database_number
             (fun c => Counters (i64 (keys_count c + (if negb (previous =? 0) then 0 else 1)))
                         (i64 (data_size c + delta)) (keys_changed c) (data_changed c))
       end;
  db ← STORAGE_DB_COUNTERS_UPDATE db database_number
         (fun c => Counters (keys_count c) (data_size c) (i64 (keys_changed c + 1)) (i64 (data_changed c + i64 n)));
  Some (db, tx, bool_decide (is_Some r)).

Definition storage_db_op_set (db : storage_db) (tx : transaction) (now mono database_number : Z) (k : list Z)
    (v : chunk_sequence) (expiry : Z) : option (storage_db * transaction * bool) :=
  '(db, p) ← storage_db_entry_index_ring_buffer_new db mono;
  db ← fill_entry db p database_number now v expiry;
  '(db, tx, result_res) ← storage_db_set_entry_index db tx now mono database_number k p;
  if (result_res : bool) then Some (db, tx, true) else
  e ← heap db !! p;
  let db := update_entry db p (set_value e no_chunks) in
  db ← storage_db_entry_index_free db p;
  Some (db, tx, false).

(** ** Delete *)

(** What the three deletes do with the entry they removed from the table. *)
Definition delete_current (db : storage_db) (database_number p : Z) : option storage_db :=
  n ← value_size db p;
  db ← STORAGE_DB_COUNTERS_UPDATE db database_number (add_counters (-1) (- n) 1 n);
  storage_db_worker_mark_deleted_or_deleting_previous_entry_index db p.

Definition storage_db_op_delete (db : storage_db) (tx : transaction) (database_number : Z) (k : list Z)
    : option (storage_db * transaction * bool) :=
  '(d, tx, r) ← hashtable_mcmp_op_delete hash_fn (hashtable db) tx database_number k (zlen k);
  let db := with_table db d in
  db ← match r with
       | Some p => if negb (p =? 0) then delete_current db database_number p else Some db
       | None => Some db
       end;
  Some (db, tx, bool_decide (is_Some r)).

Definition storage_db_op_delete_by_index (db : storage_db) (tx : transaction) (database_number : Z)
    (already_locked_for_read : bool) (bucket_index : Z) : option (storage_db * transaction * bool) :=
  '(d, tx, r) ← hashtable_mcmp_op_delete_by_index (hashtable db) database_number tx already_locked_for_read
                  bucket_index;
  let db := with_table db d in
  db ← match r with
       | Some p => if negb (p =? 0) then delete_current db database_number p else Some db
       | None => Some db
       end;
  Some (db, tx, bool_decide (is_Some r)).

(** The last component is [*out_current_entry_index]. *)
Definition storage_db_op_delete_by_index_all_databases (db : storage_db) (tx : transaction)
    (already_locked_for_read : bool) (bucket_index : Z)
    : option (storage_db * transaction * bool * Z) :=
  '(d, tx, r) ← hashtable_mcmp_op_delete_by_index_all_databases (hashtable db) tx already_locked_for_read
                  bucket_index;
  let db := with_table db d in
  match r with
  | Some p =>
      if negb (p =? 0) then
        e ← heap db !! p;
        db ← delete_current db (entry_database_number e) p;
        Some (db, tx, true, p)
      else Some (db, tx, true, 0)
  | None => Some (db, tx, false, 0)
  end.

End operations.

(** ** A new database *)

Definition storage_db_new (keys_hard_limit : Z) : option storage_db :=
  d ← hashtable_mcmp_init (Pow2.pow2_next keys_hard_limit);
  per_db ← HashtableSpsc.hashtable_spsc_new 100 24 false;
  Some (Db d ∅ 1 (RingQueue.init 0 STORAGE_DB_WORKER_ENTRY_INDEX_RING_BUFFER_SIZE) [] zero_counters per_db ∅
    (SnapshotState false 0 0 [])).

End StorageDb.
