(* ===== verification/StorageDbChunks.v ===== *)
(** * StorageDbChunks: values as sequences of chunks

    A value is cut in chunks of at most 65535 bytes.  The chunks of the memory
    backend (storage/db/storage_db.c), the copies of module_redis_command_append.c
    and module_redis_command_setrange.c, which build a value from others, and the
    range a reply sends (module_redis_command.c).  The length of a chunk is the
    length of its list of bytes; a read or a write past it is an error of the
    model, [None], as are the failed asserts.  A new chunk holds the byte [fill],
    whichever it is. *)

From stdpp Require Import gmap.
From S2P Require Import Prelude StorageDb.

Module StorageDbChunks.
Import StorageDb.

Definition NETWORK_CHANNEL_MAX_PACKET_SIZE : Z := 32 * 1024.

(** ** Allocation, reads and writes *)

(** MIN(remaining_length, STORAGE_DB_CHUNK_MAX_SIZE) bytes for each chunk. *)
Fixpoint allocate_chunks (n : nat) (fill remaining_length : Z) : list (list Z) :=
  match n with
  | O => []
  | S n => replicate (Z.to_nat (Z.min remaining_length STORAGE_DB_CHUNK_MAX_SIZE)) fill
             :: allocate_chunks n fill (u64 (remaining_length - STORAGE_DB_CHUNK_MAX_SIZE))
  end.

Definition storage_db_chunk_sequence_allocate (fill size : Z) : chunk_sequence :=
  let count := u16 (u32 (storage_db_chunk_sequence_calculate_chunk_count size)) in
  if 0 <? size then ChunkSequence count (Some (allocate_chunks (Z.to_nat count) fill size)) size
  else ChunkSequence count None size.

(** [None] is the NULL pointer. *)
Definition storage_db_chunk_sequence_get (s : option chunk_sequence) (chunk_index : Z) : option (list Z) :=
  s ← s;
  if seq_count s <=? chunk_index then None else
  l ← seq_sequence s;
  zget l chunk_index.

(** With the memory backend the data of a chunk is in memory: the reads of
    [storage_db_get_chunk_data] give its address, and [chunk_slice] is what is
    read from there. *)
Definition chunk_slice (c : list Z) (offset length : Z) : option (list Z) :=
  if (0 <=? offset) && (0 <=? length) && (offset + length <=? zlen c)
  then Some (take (Z.to_nat length) (drop (Z.to_nat offset) c)) else None.

Definition storage_db_chunk_read (c : list Z) (offset length : Z) : option (list Z) :=
  _ ← check (u64 (offset + length) <=? zlen c);
  chunk_slice c offset length.

Definition storage_db_chunk_write (s : chunk_sequence) (chunk_index chunk_offset : Z) (buffer : list Z)
    : option chunk_sequence :=
  l ← seq_sequence s;
  c ← zget l chunk_index;
  if (0 <=? chunk_offset) && (chunk_offset + zlen buffer <=? zlen c) then
    Some (ChunkSequence (seq_count s)
      (Some (zset l chunk_index
         (take (Z.to_nat chunk_offset) c ++ buffer ++ drop (Z.to_nat (chunk_offset + zlen buffer)) c)))
      (seq_size s))
  else None.

(** ** Append: the chunks of the sources are spliced in the destination *)

(** The [do] loop over the bytes of a chunk; the state is the destination, the
    index of its chunk and the offset in it. *)
Fixpoint splice_buffer (fuel : nat) (d : chunk_sequence) (index offset : Z) (buffer : list Z)
    : option (chunk_sequence * Z * Z) :=
  match fuel with
  | O => None
  | S fuel =>
      c ← storage_db_chunk_sequence_get (Some d) index;
      let available_space := u64 (zlen c - offset) in
      let n := if zlen buffer <? available_space then zlen buffer else available_space in
      d ← storage_db_chunk_write d index offset (take (Z.to_nat n) buffer);
      let offset := u32 (offset + n) in
      let buffer := drop (Z.to_nat n) buffer in
      let '(index, offset) := if offset =? zlen c then (u16 (index + 1), 0) else (index, offset) in
      if 0 <? zlen buffer then splice_buffer fuel d index offset buffer else Some (d, index, offset)
  end.

Fixpoint splice_chunks (d : chunk_sequence) (index offset : Z) (source : list (list Z))
    : option (chunk_sequence * Z * Z) :=
  match source with
  | [] => Some (d, index, offset)
  | c :: source =>
      '(d, index, offset) ← splice_buffer (S (length c)) d index offset c;
      splice_chunks d index offset source
  end.

(** The chunks the loops visit: the first [count]. *)
Definition source_chunks (s : chunk_sequence) : list (list Z) :=
  take (Z.to_nat (seq_count s)) (default [] (seq_sequence s)).

(** The value APPEND stores. *)
Definition append_value (fill : Z) (current : option chunk_sequence) (v : chunk_sequence) : option chunk_sequence :=
  let length := u64 (match current with Some s => seq_size s | None => 0 end + seq_size v) in
  let d := storage_db_chunk_sequence_allocate fill length in
  '(d, index, offset) ← splice_chunks d 0 0 (match current with Some s => source_chunks s | None => [] end);
  '(d, _, _) ← splice_chunks d index offset (source_chunks v);
  Some d.

(** ** A value received or copied

    The [do] loop of module_redis_command_process_argument_stream_data, and of
    module_redis_command_copy.c: the state is the sequence, the index of its
    chunk and the offset in it. *)
Fixpoint stream_data (fuel : nat) (d : chunk_sequence) (index offset : Z) (chunk_data : list Z)
    : option (chunk_sequence * Z * Z) :=
  match fuel with
  | O => None
  | S fuel =>
      _ ← check (index <? seq_count d);
      c ← storage_db_chunk_sequence_get (Some d) index;
      let chunk_length_to_write := zlen chunk_data in
      let chunk_available_size := u64 (zlen c - offset) in
      let n := if chunk_available_size <? chunk_length_to_write then chunk_available_size else chunk_length_to_write in
      _ ← check (0 <? chunk_length_to_write);
      _ ← check (0 <? n);
      d ← storage_db_chunk_write d index offset (take (Z.to_nat n) chunk_data);
      let offset := i64 (offset + n) in
      let chunk_data := drop (Z.to_nat n) chunk_data in
      let '(index, offset) := if offset =? zlen c then (u16 (index + 1), 0) else (index, offset) in
      if 0 <? zlen chunk_data then stream_data fuel d index offset chunk_data else Some (d, index, offset)
  end.

(** The state of the argument: its sequence and [current_chunk]. *)
Definition module_redis_command_process_argument_stream_data (a : chunk_sequence * Z * Z) (chunk_data : list Z)
    : option (chunk_sequence * Z * Z) :=
  if zlen chunk_data =? 0 then Some a else
  let '(d, index, offset) := a in stream_data (S (length chunk_data)) d index offset chunk_data.

(** The packets of an argument of [argument_length] bytes, one after the other. *)
Definition receive_argument (fill argument_length : Z) (packets : list (list Z)) : option chunk_sequence :=
  '(d, _, _) ← foldl (fun a packet => a ← a; module_redis_command_process_argument_stream_data a packet)
    (Some (storage_db_chunk_sequence_allocate fill argument_length, 0, 0)) packets;
  Some d.

(** The value COPY stores. *)
Fixpoint copy_chunks (d : chunk_sequence) (index offset : Z) (source : list (list Z))
    : option (chunk_sequence * Z * Z) :=
  match source with
  | [] => Some (d, index, offset)
  | c :: source =>
      '(d, index, offset) ← stream_data (S (length c)) d index offset c;
      copy_chunks d index offset source
  end.

Definition copy_value (fill : Z) (source : chunk_sequence) : option chunk_sequence :=
  '(d, _, _) ← copy_chunks (storage_db_chunk_sequence_allocate fill (seq_size source)) 0 0 (source_chunks source);
  Some d.

(** ** Setrange: a window over the destination, the current value and the range *)

Record window := Window {
  destination : chunk_sequence;
  destination_chunk_index : Z;
  destination_offset : Z;
  destination_chunk_offset : Z;
  current_chunk_index : Z;
  range_value_chunk_index : Z;
  range_value_chunk_offset : Z
}.

Section setrange.
Context (current : option chunk_sequence) (offset : Z) (v : chunk_sequence).

Definition requested_total_length : Z := u64 (offset + seq_size v).
Definition current_chunk_sequence_length : Z := match current with Some s => seq_size s | None => 0 end.
Definition chunk_sequence_required_length : Z :=
  if current_chunk_sequence_length <? requested_total_length then requested_total_length
  else current_chunk_sequence_length.

(** The bytes to write next, and the position in the value of the range. *)
Definition window_data (w : window) (d : list Z) : option (list Z * Z * Z) :=
  if (offset <=? destination_offset w) && (destination_offset w <? requested_total_length) then
    r ← storage_db_chunk_sequence_get (Some v) (range_value_chunk_index w);
    let can_write_length := u64 (zlen r - range_value_chunk_offset w) in
    let available_space := u64 (zlen d - destination_chunk_offset w) in
    let n := if available_space <? can_write_length then available_space else can_write_length in
    data ← chunk_slice r (range_value_chunk_offset w) n;
    let o := u64 (range_value_chunk_offset w + n) in
    _ ← check (o <=? zlen r);
    Some (data, if o =? zlen r then u16 (range_value_chunk_index w + 1) else range_value_chunk_index w,
          if o =? zlen r then 0 else o)
  else
    data ←
      match storage_db_chunk_sequence_get current (current_chunk_index w) with
      | None =>
          let needed_padding := i64 (offset - destination_offset w) in
          _ ← check (0 <=? needed_padding);
          Some (replicate (Z.to_nat (if STORAGE_DB_CHUNK_MAX_SIZE <? needed_padding
                                     then STORAGE_DB_CHUNK_MAX_SIZE else needed_padding)) 0)
      | Some c =>
          let can_write_length := u64 (zlen c - destination_chunk_offset w) in
          let destination_offset_after_write := u64 (destination_offset w + can_write_length) in
          let can_write_length :=
            if (destination_offset w <? requested_total_length) && (offset <? destination_offset_after_write)
            then u64 (offset - destination_offset w) else can_write_length in
          chunk_slice c (destination_chunk_offset w) can_write_length
      end;
    Some (data, range_value_chunk_index w, range_value_chunk_offset w).

(** An iteration of the loop. *)
Definition window_step (w : window) : option window :=
  d ← storage_db_chunk_sequence_get (Some (destination w)) (destination_chunk_index w);
  '(data, range_index, range_offset) ← window_data w d;
  dest ← storage_db_chunk_write (destination w) (destination_chunk_index w) (destination_chunk_offset w) data;
  let n := zlen data in
  let chunk_offset := u64 (destination_chunk_offset w + n) in
  let total := u64 (destination_offset w + n) in
  Some
    (if chunk_offset =? zlen d then
       Window dest (u16 (destination_chunk_index w + 1)) total 0 (u16 (current_chunk_index w + 1)) range_index range_offset
     else
       Window dest (destination_chunk_index w) total chunk_offset
         (match storage_db_chunk_sequence_get current (current_chunk_index w) with
          | Some c => if chunk_offset =? zlen c then u16 (current_chunk_index w + 1) else current_chunk_index w
          | None => current_chunk_index w
          end)
         range_index range_offset).

Fixpoint window_loop (fuel : nat) (w : window) : option window :=
  match fuel with
  | O => None
  | S fuel =>
      w ← window_step w;
      if destination_chunk_index w <? seq_count (destination w) then window_loop fuel w else Some w
  end.

(** The value SETRANGE stores; every iteration writes a byte at least. *)
Definition setrange_value (fill : Z) : option chunk_sequence :=
  let d := storage_db_chunk_sequence_allocate fill chunk_sequence_required_length in
  w ← window_loop (S (Z.to_nat chunk_sequence_required_length)) (Window d 0 0 0 0 0 0);
  Some (destination w).

End setrange.

(** ** The range of a value sent to the client *)

(** The [do] loop over a chunk: the bytes sent, the new [sent_data] and what is
    left of [length]. *)
Fixpoint send_chunk (fuel : nat) (c : list Z) (chunk_length_to_send sent_data length : Z)
    : option (list Z * Z * Z) :=
  match fuel with
  | O => None
  | S fuel =>
      let data_available := u64 (chunk_length_to_send - sent_data) in
      let n := if NETWORK_CHANNEL_MAX_PACKET_SIZE <? data_available then NETWORK_CHANNEL_MAX_PACKET_SIZE
               else data_available in
      data ← chunk_slice c sent_data n;
      let sent_data := u64 (sent_data + n) in
      let length := u64 (length - n) in
      if sent_data <? chunk_length_to_send then
        '(rest, sent_data, length) ← send_chunk fuel c chunk_length_to_send sent_data length;
        Some (data ++ rest, sent_data, length)
      else Some (data, sent_data, length)
  end.

(** The loop over the chunks. *)
Fixpoint send_chunks (chunks : list (list Z)) (sent_data length : Z) : option (list Z) :=
  match chunks with
  | [] => Some []
  | c :: chunks =>
      if 0 <? length then
        let chunk_length_to_send := if zlen c <? length then zlen c else u64 (length + sent_data) in
        '(data, sent_data, length) ← send_chunk (S (Z.to_nat chunk_length_to_send)) c chunk_length_to_send sent_data length;
        _ ← check (sent_data =? chunk_length_to_send);
        rest ← send_chunks chunks 0 length;
        Some (data ++ rest)
      else Some []
  end.

(** The chunks before the one of the offset are skipped. *)
Fixpoint skip_chunks (chunks : list (list Z)) (offset : Z) : list (list Z) * Z :=
  match chunks with
  | [] => ([], offset)
  | c :: rest => if offset <? zlen c then (chunks, offset) else skip_chunks rest (offset - zlen c)
  end.

Definition module_redis_command_stream_entry_range_with_multiple_chunks (s : chunk_sequence) (offset length : Z)
    : option (list Z) :=
  _ ← check ((1 <? seq_count s) || (NETWORK_CHANNEL_MAX_PACKET_SIZE <? u64 (length + 32)));
  let '(chunks, sent_data) := skip_chunks (source_chunks s) offset in
  send_chunks chunks sent_data length.

Definition module_redis_command_stream_entry_range_with_one_chunk (s : chunk_sequence) (offset length : Z)
    : option (list Z) :=
  _ ← check ((seq_count s =? 1) && (u64 (length + 32) <=? NETWORK_CHANNEL_MAX_PACKET_SIZE));
  c ← storage_db_chunk_sequence_get (Some s) 0;
  storage_db_chunk_read c offset length.

(** [None] is a failed assert or a read out of a chunk; [Some None] is the
    [false] of a range out of the value. *)
Definition module_redis_command_stream_entry_range (s : chunk_sequence) (offset length : Z)
    : option (option (list Z)) :=
  if seq_size s <? u64 (offset + length) then Some None else
  data ← (if (seq_count s =? 1) && (u64 (seq_size s + 32) <=? NETWORK_CHANNEL_MAX_PACKET_SIZE)
          then module_redis_command_stream_entry_range_with_one_chunk s offset length
          else module_redis_command_stream_entry_range_with_multiple_chunks s offset length);
  Some (Some data).

(** ** The bytes of a value

    [CHUNK] is the size of the chunks; the greatest value has 65535 of them. *)

Abbreviation CHUNK := STORAGE_DB_CHUNK_MAX_SIZE.

(** The chunks of a value of [size] bytes: full ones, then the rest. *)
Record layout (l : list (list Z)) (size : Z) : Prop := {
  la_size : 0 < size <= CHUNK * CHUNK;
  la_count : zlen l = storage_db_chunk_sequence_calculate_chunk_count size;
  la_chunk i c : zget l i = Some c -> zlen c = Z.min CHUNK (size - i * CHUNK)
}.

Definition byte_at (l : list (list Z)) (q : Z) : option Z := c ← zget l (q / CHUNK); zget c (q `mod` CHUNK).

(** The sequence [s] is the value [b]. *)
Definition stores (s : chunk_sequence) (b : list Z) : Prop :=
  seq_size s = zlen b /\
  ((b = [] /\ s = no_chunks) \/
   exists l, s = ChunkSequence (zlen l) (Some l) (zlen b) /\ layout l (zlen b) /\
     concat l = b).

Lemma chunk_count_spec size i :
  0 < size -> 0 <= i -> (i < storage_db_chunk_sequence_calculate_chunk_count size <-> i * CHUNK < size).
Proof.
  intros Hs Hi. unfold storage_db_chunk_sequence_calculate_chunk_count, CHUNK.
  set (K := 64 * 1024 - 1). change (64 * 1024 - 1) with K. assert (0 < K) by done.
  pose proof (Z.div_mod (size + K - 1) K ltac:(lia)). pose proof (Z.mod_pos_bound (size + K - 1) K ltac:(lia)).
  split; intros; nia.
Qed.

Lemma layout_get l size q :
  layout l size -> 0 <= q < size ->
  exists c, zget l (q / CHUNK) = Some c /\ zlen c = Z.min CHUNK (size - q / CHUNK * CHUNK) /\
    q `mod` CHUNK < zlen c.
Proof.
  intros [Hs Hn Hc] Hq. assert (0 < CHUNK) by done.
  pose proof (Z.div_mod q CHUNK ltac:(lia)). pose proof (Z.mod_pos_bound q CHUNK ltac:(lia)).
  pose proof (Z.div_pos q CHUNK ltac:(lia) ltac:(lia)).
  destruct (zget_in_range l (q / CHUNK)) as [c Hget].
  { split; [lia|]. rewrite Hn. apply chunk_count_spec; [lia|lia|]. lia. }
  exists c. rewrite (Hc _ _ Hget). split_and!; [done|done|]. lia.
Qed.

Lemma zget_cons {A} (x : A) l i : 0 < i -> zget (x :: l) i = zget l (i - 1).
Proof.
  intros Hi. unfold zget. destruct (Z.ltb_spec i 0), (Z.ltb_spec (i - 1) 0); try lia.
  by replace (Z.to_nat i) with (S (Z.to_nat (i - 1))) by lia.
Qed.

Lemma layout_cons c l size :
  layout (c :: l) size ->
  (l = [] /\ zlen c = size) \/ (zlen c = CHUNK /\ CHUNK < size /\ layout l (size - CHUNK)).
Proof.
  intros [Hs Hn Hc]. assert (CHUNK = 65535) as HK by done. pose proof (Hc 0 c eq_refl) as H0.
  rewrite zlen_cons in Hn. pose proof (zlen_nonneg l). destruct (Z.le_gt_cases size CHUNK).
  - left. split; [|lia]. assert (~ 1 < 1 + zlen l) as Hl.
    { rewrite Hn. intros Hlt. apply chunk_count_spec in Hlt; lia. }
    destruct l as [|c' l]; [done|]. rewrite zlen_cons in Hl. pose proof (zlen_nonneg l). exfalso; lia.
  - right. split_and!; [lia|lia|]. split; [lia| |].
    + assert (storage_db_chunk_sequence_calculate_chunk_count size =
        storage_db_chunk_sequence_calculate_chunk_count (size - CHUNK) + 1); [|lia].
      unfold storage_db_chunk_sequence_calculate_chunk_count, CHUNK.
      rewrite <- Z.div_add by done. f_equal. lia.
    + intros i d Hd. pose proof (zget_Some_range _ _ _ Hd). rewrite (Hc (i + 1) d); [lia|].
      unfold zget in *. destruct (Z.ltb_spec i 0), (Z.ltb_spec (i + 1) 0); try lia.
      by replace (Z.to_nat (i + 1)) with (S (Z.to_nat i)) by lia.
Qed.

Lemma layout_concat l : forall size,
  layout l size -> zlen (concat l) = size /\ forall q, 0 <= q < size -> byte_at l q = zget (concat l) q.
Proof.
  induction l as [|c l IH]; intros size Hl.
  - destruct Hl as [Hs Hn _]. assert (0 < storage_db_chunk_sequence_calculate_chunk_count size) by
      (apply chunk_count_spec; lia). unfold zlen in Hn. cbn in Hn. lia.
  - assert (0 < CHUNK) by done. pose proof (la_size _ _ Hl). cbn [concat]. rewrite zlen_app.
    destruct (layout_cons _ _ _ Hl) as [[-> Hc]|(Hc & Hlt & Ht)].
    + cbn [concat]. split; [unfold zlen at 2; cbn; lia|]. intros q Hq. rewrite app_nil_r. unfold byte_at.
      assert (zlen c <= CHUNK) as Hle by (rewrite (la_chunk _ _ Hl 0 c eq_refl); lia).
      rewrite Z.div_small, Z.mod_small by lia. done.
    + destruct (IH _ Ht) as [Hlen Hb]. split; [lia|]. intros q Hq. rewrite zget_app by lia.
      pose proof (Z.div_mod q CHUNK ltac:(lia)). pose proof (Z.mod_pos_bound q CHUNK ltac:(lia)).
      destruct (Z.ltb_spec q (zlen c)).
      * unfold byte_at. rewrite Z.div_small, Z.mod_small by lia. done.
      * rewrite Hc, <- Hb by lia. unfold byte_at.
        replace (q - CHUNK) with (q + (-1) * CHUNK) by lia. rewrite Z.div_add, Z_mod_plus_full by lia.
        assert (0 < q / CHUNK) by nia. replace (q / CHUNK + -1) with (q / CHUNK - 1) by lia. by rewrite zget_cons by lia.
Qed.

Lemma allocate_spec n fill : forall remaining l,
  allocate_chunks n fill remaining = l -> 0 <= remaining -> (Z.of_nat n - 1) * CHUNK <= remaining < 2 ^ 63 ->
  zlen l = Z.of_nat n /\ forall i c, zget l i = Some c -> zlen c = Z.min CHUNK (remaining - i * CHUNK).
Proof.
  induction n as [|n IH]; intros remaining l <- H0 Hn; cbn [allocate_chunks].
  - split; [done|]. intros i c Hi. apply zget_Some_range in Hi. unfold zlen in Hi. cbn in Hi. lia.
  - assert (CHUNK = 65535) as HK by done. rewrite zlen_cons.
    destruct n as [|n].
    + cbn [allocate_chunks]. split; [done|]. intros i c Hi. pose proof (zget_Some_range _ _ _ Hi) as Hr.
      unfold zlen in Hr. cbn in Hr. assert (i = 0) as -> by lia. injection Hi as <-.
      rewrite zlen_replicate. lia.
    + rewrite wrap_small by mach_lia.
      destruct (IH (remaining - CHUNK) _ eq_refl ltac:(lia) ltac:(lia)) as [Hl Hc]. split; [lia|].
      intros i c Hi. destruct (decide (i = 0)) as [->|Hne].
      * injection Hi as <-. rewrite zlen_replicate. lia.
      * pose proof (zget_Some_range _ _ _ Hi) as Hr. rewrite (Hc (i - 1) c); [lia|].
        unfold zget in *. destruct (Z.ltb_spec i 0), (Z.ltb_spec (i - 1) 0); try lia.
        replace (Z.to_nat i) with (S (Z.to_nat (i - 1))) in Hi by lia. done.
Qed.

Lemma sequence_allocate_spec fill size :
  0 < size <= CHUNK * CHUNK ->
  exists l, storage_db_chunk_sequence_allocate fill size = ChunkSequence (zlen l) (Some l) size /\ layout l size.
Proof.
  intros Hs. assert (CHUNK = 65535) as HK by done. unfold storage_db_chunk_sequence_allocate.
  set (n := storage_db_chunk_sequence_calculate_chunk_count size).
  assert (0 < n /\ (n - 1) * CHUNK < size /\ n <= 65535) as (Hn0 & Hn1 & Hn2).
  { assert (0 < n) by (apply chunk_count_spec; lia).
    split_and!; [done|apply chunk_count_spec; lia|].
    destruct (Z.le_gt_cases n 65535); [done|]. pose proof (proj1 (chunk_count_spec size 65535 ltac:(lia) ltac:(lia)) ltac:(lia)). lia. }
  destruct (Z.ltb_spec 0 size); [|lia].
  rewrite (wrap_small 32) by mach_lia. rewrite (wrap_small 16) by mach_lia.
  destruct (allocate_spec (Z.to_nat n) fill size _ eq_refl ltac:(lia)) as [Hl Hc]; [rewrite Z2Nat.id by lia; mach_lia|].
  rewrite Z2Nat.id in Hl by lia. exists (allocate_chunks (Z.to_nat n) fill size). rewrite Hl. split; [done|].
  by split.
Qed.

(** ** Writing and moving on *)

Lemma chunk_write_spec l n size i c off buf :
  layout l size -> zget l i = Some c -> 0 <= off -> off + zlen buf <= zlen c ->
  exists l', storage_db_chunk_write (ChunkSequence n (Some l) size) i off buf = Some (ChunkSequence n (Some l') size) /\
    zlen l' = zlen l /\ layout l' size /\
    forall q, byte_at l' q =
      if decide (i * CHUNK + off <= q < i * CHUNK + off + zlen buf) then zget buf (q - (i * CHUNK + off))
      else byte_at l q.
Proof.
  intros Hl Hc Hoff Hlen. unfold storage_db_chunk_write. cbn [seq_sequence mbind option_bind]. rewrite Hc.
  cbn [mbind option_bind]. destruct (Z.leb_spec 0 off); [|lia].
  destruct (Z.leb_spec (off + zlen buf) (zlen c)); [|lia]. cbn [andb seq_count seq_size].
  set (c' := take (Z.to_nat off) c ++ buf ++ drop (Z.to_nat (off + zlen buf)) c).
  assert (zlen c' = zlen c) as Hlc.
  { unfold c', zlen in *. rewrite !length_app, length_take, length_drop. lia. }
  pose proof (zget_Some_range _ _ _ Hc) as Hri.
  assert (forall j, zget (zset l i c') j = if decide (j = i) then Some c' else zget l j) as Hget.
  { intros j. destruct (decide (j = i)) as [->|]; [by apply zget_zset_eq|by apply zget_zset_ne]. }
  exists (zset l i c'). split; [done|]. split; [apply zlen_zset|]. split.
  - destruct Hl as [Hs Hn Hch]. split; [done|by rewrite zlen_zset|]. intros j d. rewrite Hget.
    case_decide; [intros [= <-]; subst; rewrite Hlc|]; by apply Hch.
  - intros q. unfold byte_at. rewrite Hget. assert (0 < CHUNK) by done.
    pose proof (Z.div_mod q CHUNK ltac:(lia)). pose proof (Z.mod_pos_bound q CHUNK ltac:(lia)).
    pose proof (la_chunk _ _ Hl _ _ Hc). pose proof (zlen_nonneg buf).
    destruct (decide (q / CHUNK = i)) as [He|Hne].
    + rewrite He, Hc. cbn [mbind option_bind]. unfold c', zget.
      destruct (Z.ltb_spec (q `mod` CHUNK) 0); [lia|].
      case_decide as Hin.
      * destruct (Z.ltb_spec (q - (i * CHUNK + off)) 0); [lia|]. unfold zlen in *.
        rewrite lookup_app_r by (rewrite length_take; lia). rewrite length_take.
        rewrite lookup_app_l by lia. f_equal. lia.
      * unfold zlen in *. destruct (decide (q `mod` CHUNK < off)).
        -- rewrite lookup_app_l by (rewrite length_take; lia). rewrite lookup_take_lt by lia. done.
        -- rewrite lookup_app_r by (rewrite length_take; lia). rewrite length_take.
           rewrite lookup_app_r by lia. rewrite lookup_drop. f_equal. lia.
    + case_decide; [|done]. exfalso. apply Hne. symmetry. apply Z.div_unique with (q - i * CHUNK); lia.
Qed.

(** The position [pos] in chunks: past the last one at the end. *)
Definition cursor (size pos index offset : Z) : Prop :=
  if decide (pos < size) then index = pos / CHUNK /\ offset = pos `mod` CHUNK
  else index = storage_db_chunk_sequence_calculate_chunk_count size /\ offset = 0.

Lemma cursor_advance size pos n len :
  0 < size <= CHUNK * CHUNK -> 0 <= pos < size -> len = Z.min CHUNK (size - pos / CHUNK * CHUNK) ->
  0 < n -> pos `mod` CHUNK + n <= len ->
  pos + n <= size /\
  cursor size (pos + n) (if pos `mod` CHUNK + n =? len then u16 (pos / CHUNK + 1) else pos / CHUNK)
    (if pos `mod` CHUNK + n =? len then 0 else pos `mod` CHUNK + n).
Proof.
  intros Hs Hpos Hlen Hn Hle. assert (CHUNK = 65535) as HK by done. unfold cursor.
  pose proof (Z.div_mod pos CHUNK ltac:(lia)). pose proof (Z.mod_pos_bound pos CHUNK ltac:(lia)).
  set (i := pos / CHUNK) in *. set (r := pos `mod` CHUNK) in *.
  assert (0 <= i) by (apply Z.div_pos; lia).
  split; [lia|]. destruct (Z.eqb_spec (r + n) len) as [He|Hne].
  - assert (i < 65535) by nia. rewrite wrap_small by mach_lia. case_decide as Hd.
    + split; [apply Z.div_unique with 0|apply Z.mod_unique with (i + 1)]; lia.
    + split; [|done].
      assert (i < storage_db_chunk_sequence_calculate_chunk_count size) by (apply chunk_count_spec; lia).
      assert (~ i + 1 < storage_db_chunk_sequence_calculate_chunk_count size); [|lia].
      intros Hlt. apply chunk_count_spec in Hlt; lia.
  - rewrite decide_True by lia. split; [apply Z.div_unique with (r + n)|apply Z.mod_unique with i]; lia.
Qed.

(** What the loops that build a value of [size] bytes keep: the bytes [w] are
    written and the next one goes at the cursor. *)
Definition written (size : Z) (w : list Z) (d : chunk_sequence) (index offset : Z) : Prop :=
  exists l, d = ChunkSequence (zlen l) (Some l) size /\ layout l size /\
    zlen w <= size /\ cursor size (zlen w) index offset /\
    forall q, 0 <= q < zlen w -> byte_at l q = zget w q.

(** The chunk under the cursor. *)
Lemma written_chunk size w d index offset :
  written size w d index offset -> zlen w < size ->
  exists c, storage_db_chunk_sequence_get (Some d) index = Some c /\ index = zlen w / CHUNK /\
    offset = zlen w `mod` CHUNK /\ 0 <= offset < zlen c /\ zlen c = Z.min CHUNK (size - zlen w / CHUNK * CHUNK).
Proof.
  intros (l & -> & Hl & Hle & Hcur & Hb) Hlt. unfold cursor in Hcur. rewrite decide_True in Hcur by done.
  destruct Hcur as [-> ->]. pose proof (zlen_nonneg w). assert (0 < CHUNK) by done.
  destruct (layout_get _ _ (zlen w) Hl) as (c & Hc & Hlc & Hoff); [done|].
  pose proof (Z.mod_pos_bound (zlen w) CHUNK ltac:(lia)).
  pose proof (zget_Some_range _ _ _ Hc). exists c. split_and!; try done; [|lia].
  unfold storage_db_chunk_sequence_get. cbn [mbind option_bind seq_count seq_sequence].
  by destruct (Z.leb_spec (zlen l) (zlen w / CHUNK)); [lia|].
Qed.

(** A write at the cursor. *)
Lemma written_write size w d index offset c data :
  written size w d index offset -> zlen w < size ->
  storage_db_chunk_sequence_get (Some d) index = Some c ->
  0 < zlen data -> offset + zlen data <= zlen c ->
  exists d', storage_db_chunk_write d index offset data = Some d' /\ seq_count d' = seq_count d /\
    zlen w + zlen data <= size /\
    written size (w ++ data) d' (if offset + zlen data =? zlen c then u16 (index + 1) else index)
      (if offset + zlen data =? zlen c then 0 else offset + zlen data).
Proof.
  intros Hw Hlt Hg Hd Hle. destruct (written_chunk _ _ _ _ _ Hw Hlt) as (c' & Hg' & Hi & Ho & Hoff & Hlc).
  rewrite Hg in Hg'. injection Hg' as <-. destruct Hw as (l & -> & Hl & Hwl & Hcur & Hb).
  assert (zget l index = Some c) as Hc.
  { revert Hg. unfold storage_db_chunk_sequence_get. cbn [mbind option_bind seq_count seq_sequence].
    by case_match. }
  pose proof (Z.div_mod (zlen w) CHUNK ltac:(done)).
  destruct (chunk_write_spec l (zlen l) size index c offset data Hl Hc ltac:(lia) Hle) as (l' & -> & Hlen & Hl' & Hb').
  pose proof (zlen_nonneg w).
  destruct (cursor_advance size (zlen w) (zlen data) (zlen c) (la_size _ _ Hl) ltac:(lia) Hlc Hd ltac:(lia)) as [Hsz Hcur'].
  eexists. split_and!; [done|done|lia|]. exists l'. rewrite zlen_app, Hlen. split_and!; [done|done|lia| |].
  - subst index offset. exact Hcur'.
  - intros q Hq. rewrite Hb', zget_app by lia. replace (index * CHUNK + offset) with (zlen w) by lia.
    case_decide; destruct (Z.ltb_spec q (zlen w)); try lia; [done|]. apply Hb. lia.
Qed.

Lemma written_done size w d index offset :
  written size w d index offset -> zlen w = size -> stores d w.
Proof.
  intros (l & -> & Hl & _ & _ & Hb) <-. split; [done|]. right. exists l. split_and!; [done|done|].
  destruct (layout_concat _ _ Hl) as [Hlen Hq]. apply list_eq. intros i.
  destruct (decide (Z.of_nat i < zlen w)) as [Hi|Hi].
  - specialize (Hb (Z.of_nat i) ltac:(lia)). rewrite Hq in Hb by lia. unfold zget in Hb.
    destruct (Z.ltb_spec (Z.of_nat i) 0); [lia|]. by rewrite Nat2Z.id in Hb.
  - unfold zlen in *. rewrite !(proj2 (lookup_ge_None _ _)); [done|lia|lia].
Qed.

Lemma written_fresh fill size :
  0 < size <= CHUNK * CHUNK -> written size [] (storage_db_chunk_sequence_allocate fill size) 0 0.
Proof.
  intros Hs. destruct (sequence_allocate_spec fill size Hs) as (l & -> & Hl). exists l.
  split_and!; [done|done|unfold zlen; cbn; lia| |unfold zlen; cbn; lia].
  unfold cursor. rewrite decide_True by (unfold zlen; cbn; lia). done.
Qed.

Lemma splice_buffer_spec size : forall fuel buf w d index offset,
  written size w d index offset -> 0 < zlen buf -> zlen w + zlen buf <= size -> zlen buf < Z.of_nat fuel ->
  exists d' i' o', splice_buffer fuel d index offset buf = Some (d', i', o') /\ written size (w ++ buf) d' i' o'.
Proof.
  induction fuel as [|fuel IH]; intros buf w d index offset Hw Hb Hle Hf; [lia|]. cbn [splice_buffer].
  destruct (written_chunk _ _ _ _ _ Hw ltac:(lia)) as (c & Hg & Hi & Ho & Hoff & Hlc).
  assert (CHUNK = 65535) as HK by done.
  rewrite Hg. cbn [mbind option_bind]. rewrite (wrap_small 64) by mach_lia.
  set (n := if zlen buf <? zlen c - offset then zlen buf else zlen c - offset).
  assert (0 < n /\ n <= zlen buf /\ offset + n <= zlen c) as (Hn & Hnb & Hnc)
    by (unfold n; destruct (Z.ltb_spec (zlen buf) (zlen c - offset)); lia).
  assert (zlen (take (Z.to_nat n) buf) = n) as Hdl by (unfold zlen in *; rewrite length_take; lia).
  destruct (written_write _ _ _ _ _ _ (take (Z.to_nat n) buf) Hw ltac:(lia) Hg ltac:(lia) ltac:(lia))
    as (d' & -> & _ & _ & Hw'). rewrite Hdl in Hw'. cbn [mbind option_bind].
  rewrite (wrap_small 32) by mach_lia.
  assert (zlen (drop (Z.to_nat n) buf) = zlen buf - n) as Hrl by (unfold zlen in *; rewrite length_drop; lia).
  destruct (offset + n =? zlen c) eqn:He; rewrite Hrl; destruct (Z.ltb_spec 0 (zlen buf - n)).
  1,3: destruct (IH (drop (Z.to_nat n) buf) _ _ _ _ Hw') as (d'' & i' & o' & -> & Hw'');
    [lia|rewrite zlen_app, Hdl; lia|lia|]; rewrite <- app_assoc, take_drop in Hw''; eauto 6.
  all: do 3 eexists; split; [done|]; rewrite take_ge in Hw' by (unfold zlen in *; lia); exact Hw'.
Qed.

Lemma splice_chunks_spec size : forall source w d index offset,
  written size w d index offset -> Forall (fun c => 0 < zlen c) source -> zlen w + zlen (concat source) <= size ->
  exists d' i' o', splice_chunks d index offset source = Some (d', i', o') /\
    written size (w ++ concat source) d' i' o'.
Proof.
  induction source as [|c source IH]; intros w d index offset Hw Hf Hle; cbn [splice_chunks].
  - do 3 eexists. split; [done|]. by rewrite app_nil_r.
  - inversion Hf; subst. cbn [concat] in *. rewrite zlen_app in Hle. pose proof (zlen_nonneg (concat source)).
    destruct (splice_buffer_spec size (S (length c)) c w d index offset Hw) as (d' & i' & o' & -> & Hw');
      [done|lia|unfold zlen; lia|]. cbn [mbind option_bind].
    destruct (IH _ _ _ _ Hw') as (d'' & i'' & o'' & -> & Hw''); [done|rewrite zlen_app; lia|].
    rewrite <- app_assoc in Hw''. eauto 6.
Qed.

(** The two loops write the same bytes. *)
Lemma stream_data_splice size : forall fuel buf w d index offset,
  written size w d index offset -> 0 < zlen buf -> zlen w + zlen buf <= size -> zlen buf < Z.of_nat fuel ->
  stream_data fuel d index offset buf = splice_buffer fuel d index offset buf.
Proof.
  induction fuel as [|fuel IH]; intros buf w d index offset Hw Hb Hle Hf; [lia|]. cbn [stream_data splice_buffer].
  destruct (written_chunk _ _ _ _ _ Hw ltac:(lia)) as (c & Hg & Hi & Ho & Hoff & Hlc).
  assert (CHUNK = 65535) as HK by done.
  assert (index < seq_count d) as Hcount.
  { revert Hg. unfold storage_db_chunk_sequence_get. cbn [mbind option_bind].
    by destruct (Z.leb_spec (seq_count d) index). }
  destruct (Z.ltb_spec index (seq_count d)); [|lia]. cbn [check]. rewrite Hg. cbn [mbind option_bind].
  rewrite (wrap_small 64) by mach_lia. destruct (Z.ltb_spec 0 (zlen buf)); [|lia]. cbn [check mbind option_bind].
  set (n := if zlen buf <? zlen c - offset then zlen buf else zlen c - offset).
  assert ((if zlen c - offset <? zlen buf then zlen c - offset else zlen buf) = n) as ->
    by (unfold n; destruct (Z.ltb_spec (zlen c - offset) (zlen buf)), (Z.ltb_spec (zlen buf) (zlen c - offset)); lia).
  assert (0 < n /\ n <= zlen buf /\ offset + n <= zlen c) as (Hn & Hnb & Hnc)
    by (unfold n; destruct (Z.ltb_spec (zlen buf) (zlen c - offset)); lia).
  destruct (Z.ltb_spec 0 n); [|lia]. cbn [check mbind option_bind].
  assert (zlen (take (Z.to_nat n) buf) = n) as Hdl by (unfold zlen in *; rewrite length_take; lia).
  destruct (written_write _ _ _ _ _ _ (take (Z.to_nat n) buf) Hw ltac:(lia) Hg ltac:(lia) ltac:(lia))
    as (d' & -> & _ & _ & Hw'). rewrite Hdl in Hw'. cbn [mbind option_bind].
  rewrite (wrap_small 32), swrap_small by (pow2s; lia).
  assert (zlen (drop (Z.to_nat n) buf) = zlen buf - n) as Hrl by (unfold zlen in *; rewrite length_drop; lia).
  destruct (offset + n =? zlen c) eqn:He; rewrite Hrl; destruct (Z.ltb_spec 0 (zlen buf - n)); try done;
    eapply IH; try exact Hw'; rewrite ?zlen_app, ?Hdl; lia.
Qed.

Lemma stream_data_spec size buf w d index offset :
  written size w d index offset -> 0 < zlen buf -> zlen w + zlen buf <= size ->
  exists d' i' o', stream_data (S (length buf)) d index offset buf = Some (d', i', o') /\
    written size (w ++ buf) d' i' o'.
Proof.
  intros Hw Hb Hle. rewrite (stream_data_splice size _ _ w) by (try done; unfold zlen; lia).
  apply splice_buffer_spec; try done. unfold zlen; lia.
Qed.

(** The chunks of a value. *)
Lemma stores_chunks s b :
  stores s b -> concat (source_chunks s) = b /\ Forall (fun c => 0 < zlen c) (source_chunks s).
Proof.
  intros [Hs [[-> ->]|(l & -> & Hl & <-)]]; [done|]. unfold source_chunks.
  cbn [seq_count seq_sequence default from_option id]. rewrite take_ge by (unfold zlen; lia). split; [done|].
  apply Forall_lookup. intros i c Hi. assert (zget l (Z.of_nat i) = Some c) as Hg.
  { unfold zget. destruct (Z.ltb_spec (Z.of_nat i) 0); [lia|]. by rewrite Nat2Z.id. }
  pose proof (zget_Some_range _ _ _ Hg) as Hr. rewrite (la_count _ _ Hl) in Hr.
  pose proof (la_size _ _ Hl). rewrite (la_chunk _ _ Hl _ _ Hg). assert (0 < CHUNK) by done.
  destruct Hr as [_ Hr]. apply chunk_count_spec in Hr; lia.
Qed.

(** A value of one chunk. *)
Lemma stores_one b : 0 < zlen b <= CHUNK -> stores (ChunkSequence 1 (Some [b]) (zlen b)) b.
Proof.
  intros Hb. assert (CHUNK = 65535) as HK by done. split; [done|]. right. exists [b].
  split_and!; [done| |by cbn; rewrite app_nil_r]. pose proof (chunk_count_spec (zlen b) 0 ltac:(lia) ltac:(lia)).
  pose proof (chunk_count_spec (zlen b) 1 ltac:(lia) ltac:(lia)). split; [lia|unfold zlen at 1; cbn [List.length]; lia|].
  intros i c Hi. pose proof (zget_Some_range _ _ _ Hi) as Hr. unfold zlen in Hr. cbn [List.length] in Hr.
  assert (i = 0) as -> by lia. injection Hi as <-. lia.
Qed.

Lemma append_value_spec fill current v b bv :
  match current with Some s => stores s b | None => b = [] end -> stores v bv ->
  0 < zlen b + zlen bv <= CHUNK * CHUNK ->
  exists d, append_value fill current v = Some d /\ stores d (b ++ bv).
Proof.
  intros Hc Hv Hle. assert (CHUNK = 65535) as HK by done. unfold append_value.
  assert (match current with Some s => seq_size s | None => 0 end = zlen b /\
          concat (match current with Some s => source_chunks s | None => [] end) = b /\
          Forall (fun c => 0 < zlen c) (match current with Some s => source_chunks s | None => [] end)) as (-> & Hcb & Hcf).
  { destruct current as [s|]; [|by subst]. split; [apply Hc|by apply stores_chunks]. }
  destruct (stores_chunks _ _ Hv) as [Hvb Hvf]. rewrite (proj1 Hv). pose proof (zlen_nonneg b).
  pose proof (zlen_nonneg bv). rewrite (wrap_small 64) by mach_lia.
  destruct (splice_chunks_spec _ _ _ _ _ _ (written_fresh fill (zlen b + zlen bv) Hle) Hcf) as (d1 & i1 & o1 & -> & H1).
  { rewrite Hcb. unfold zlen; cbn; lia. }
  cbn [mbind option_bind app] in *. rewrite Hcb in H1.
  destruct (splice_chunks_spec _ _ _ _ _ _ H1 Hvf) as (d2 & i2 & o2 & -> & H2); [rewrite Hvb; lia|].
  cbn [mbind option_bind]. exists d2. split; [done|]. rewrite Hvb in H2.
  apply (written_done _ _ _ _ _ H2). by rewrite zlen_app.
Qed.

(** C9: APPEND.  The value APPEND stores is the current one, or nothing when
    the key has none, followed by the bytes given: for values cut in whatever
    number of chunks, the splice of the chunks of one and the other neither
    fails nor writes out of a chunk, and the sequence it builds has the chunks
    of a value of that length, up to the 65535 chunks a value can have. *)
Theorem append_value_appends fill current v b bv :
  match current with Some s => stores s b | None => b = [] end -> stores v bv ->
  0 < zlen b + zlen bv <= CHUNK * CHUNK ->
  exists d, append_value fill current v = Some d /\ stores d (b ++ bv).
Proof. apply append_value_spec. Qed.

Lemma append_value_appends_witness :
  exists d, append_value 7 (Some (ChunkSequence 1 (Some [[1; 2]]) 2)) (ChunkSequence 1 (Some [[3]]) 1) = Some d /\
    stores d [1; 2; 3].
Proof. apply (append_value_appends 7 (Some _) _ [1; 2] [3]); [by apply (stores_one [1; 2])|by apply (stores_one [3])|done]. Defined.

(** The packets of an argument, one after the other. *)
Definition receive_packets (a : chunk_sequence * Z * Z) (packets : list (list Z)) : option (chunk_sequence * Z * Z) :=
  foldl (fun a packet => a ← a; module_redis_command_process_argument_stream_data a packet) (Some a) packets.

Lemma receive_packets_written size packets : forall w d i o,
  written size w d i o -> zlen w + zlen (concat packets) <= size ->
  exists d' i' o', receive_packets (d, i, o) packets = Some (d', i', o') /\ written size (w ++ concat packets) d' i' o'.
Proof.
  induction packets as [|p ps IH]; intros w d i o Hw Hs; unfold receive_packets in *; cbn [foldl concat mbind option_bind].
  - rewrite app_nil_r. eauto.
  - cbn [concat] in Hs. rewrite zlen_app in Hs. pose proof (zlen_nonneg (concat ps)). pose proof (zlen_nonneg p).
    unfold module_redis_command_process_argument_stream_data at 2. destruct (Z.eqb_spec (zlen p) 0) as [Hz|Hz].
    + rewrite (zlen_nil_inv _ Hz) in *. by apply IH.
    + destruct (stream_data_spec size p w d i o Hw ltac:(lia) ltac:(lia)) as (d' & i' & o' & -> & Hw').
      rewrite app_assoc. apply IH; [done|]. rewrite zlen_app. lia.
Qed.

Lemma receive_packets_stores fill packets :
  zlen (concat packets) <= CHUNK * CHUNK ->
  exists d i o, receive_packets (storage_db_chunk_sequence_allocate fill (zlen (concat packets)), 0, 0) packets = Some (d, i, o) /\
    stores d (concat packets).
Proof.
  intros Hle. pose proof (zlen_nonneg (concat packets)). destruct (Z.eq_dec (zlen (concat packets)) 0) as [Hz|Hz].
  - assert (forall a, receive_packets a packets = Some a) as Hr.
    { clear Hle H. induction packets as [|p ps IH]; [done|]. cbn [concat] in Hz. rewrite zlen_app in Hz.
      pose proof (zlen_nonneg p). pose proof (zlen_nonneg (concat ps)). intros a. unfold receive_packets in *. cbn [foldl mbind option_bind].
      unfold module_redis_command_process_argument_stream_data at 2. destruct (Z.eqb_spec (zlen p) 0); [|lia]. apply IH. lia. }
    do 3 eexists. split; [apply Hr|]. rewrite (zlen_nil_inv _ Hz). split; [done|]. by left.
  - destruct (receive_packets_written (zlen (concat packets)) packets [] _ 0 0 (written_fresh fill (zlen (concat packets)) ltac:(lia)))
      as (d & i & o & -> & Hw); [unfold zlen at 1; cbn; lia|].
    exists d, i, o. split; [done|]. by apply (written_done _ _ _ _ _ Hw).
Qed.

(** A value received.  The bytes of an argument that is streamed, however
    they are split in packets, empty ones included, are stored in the chunks
    allocated for its length, in order; no assert fails and nothing is written
    out of a chunk. *)
Theorem argument_stream_stores fill packets :
  0 < zlen (concat packets) <= CHUNK * CHUNK ->
  exists d, receive_argument fill (zlen (concat packets)) packets = Some d /\ stores d (concat packets).
Proof.
  intros Hle. destruct (receive_packets_stores fill packets ltac:(lia)) as (d & i & o & Hr & Hs).
  exists d. split; [|done]. unfold receive_argument. unfold receive_packets in Hr. by rewrite Hr.
Qed.

Lemma argument_stream_stores_witness :
  exists d, receive_argument 7 3 [[1]; []; [2; 3]] = Some d /\ stores d [1; 2; 3].
Proof. apply (argument_stream_stores 7 [[1]; []; [2; 3]]). done. Defined.

Lemma copy_chunks_spec size : forall source w d index offset,
  written size w d index offset -> Forall (fun c => 0 < zlen c) source -> zlen w + zlen (concat source) <= size ->
  exists d' i' o', copy_chunks d index offset source = Some (d', i', o') /\
    written size (w ++ concat source) d' i' o'.
Proof.
  induction source as [|c source IH]; intros w d index offset Hw Hf Hle; cbn [copy_chunks].
  - do 3 eexists. split; [done|]. by rewrite app_nil_r.
  - inversion Hf; subst. cbn [concat] in *. rewrite zlen_app in Hle. pose proof (zlen_nonneg (concat source)).
    destruct (stream_data_spec size c w d index offset Hw) as (d' & i' & o' & -> & Hw'); [done|lia|].
    cbn [mbind option_bind].
    destruct (IH _ _ _ _ Hw') as (d'' & i'' & o'' & -> & Hw''); [done|rewrite zlen_app; lia|].
    rewrite <- app_assoc in Hw''. eauto 6.
Qed.

Lemma copy_value_spec fill s b :
  stores s b -> exists d, copy_value fill s = Some d /\ stores d b.
Proof.
  intros Hs. destruct (stores_chunks _ _ Hs) as [Hb Hf]. unfold copy_value. rewrite (proj1 Hs).
  destruct Hs as [_ [[-> ->]|(l & Heq & Hl & Hc)]].
  - exists no_chunks. split; [done|]. split; [done|by left].
  - destruct (copy_chunks_spec _ _ [] _ 0 0 (written_fresh fill (zlen b) (la_size _ _ Hl)) Hf) as (d & i & o & -> & Hw).
    { rewrite Hb. unfold zlen at 1; cbn; lia. }
    exists d. split; [done|]. cbn [app] in Hw. rewrite Hb in Hw. by apply (written_done _ _ _ _ _ Hw).
Qed.

(** ** The bytes SETRANGE stores *)

(** The bytes before the offset, with zeroes where there are none, the bytes of
    the range, and the bytes after it. *)
Definition setrange_bytes (b : list Z) (offset : Z) (bv : list Z) : list Z :=
  take (Z.to_nat offset) b ++ replicate (Z.to_nat (offset - zlen b)) 0 ++ bv ++ drop (Z.to_nat (offset + zlen bv)) b.

Lemma setrange_length b offset bv :
  0 <= offset -> zlen (setrange_bytes b offset bv) = Z.max (zlen b) (offset + zlen bv).
Proof.
  intros. unfold setrange_bytes. rewrite !zlen_app, zlen_replicate. unfold zlen.
  rewrite length_take, length_drop. lia.
Qed.

Lemma zget_take (l : list Z) n q : 0 <= q < n -> zget (take (Z.to_nat n) l) q = zget l q.
Proof. intros Hq. unfold zget. destruct (Z.ltb_spec q 0); [done|]. apply lookup_take_lt. lia. Qed.

Lemma zget_drop (l : list Z) n q : 0 <= n -> 0 <= q -> zget (drop (Z.to_nat n) l) q = zget l (n + q).
Proof.
  intros. unfold zget. destruct (Z.ltb_spec q 0), (Z.ltb_spec (n + q) 0); try lia.
  rewrite lookup_drop. f_equal. lia.
Qed.

Lemma setrange_get b offset bv q :
  0 <= offset -> 0 <= q < Z.max (zlen b) (offset + zlen bv) ->
  zget (setrange_bytes b offset bv) q =
    if decide (offset <= q < offset + zlen bv) then zget bv (q - offset)
    else if decide (q < zlen b) then zget b q else Some 0.
Proof.
  intros Ho Hq. unfold setrange_bytes. pose proof (zlen_nonneg b). pose proof (zlen_nonneg bv).
  rewrite zget_app by lia. assert (zlen (take (Z.to_nat offset) b) = Z.min offset (zlen b)) as ->
    by (unfold zlen in *; rewrite length_take; lia).
  destruct (Z.ltb_spec q (Z.min offset (zlen b))).
  { rewrite decide_False, decide_True by lia. apply zget_take. lia. }
  rewrite zget_app, zlen_replicate by lia. set (t := q - Z.min offset (zlen b)).
  destruct (Z.ltb_spec t (Z.of_nat (Z.to_nat (offset - zlen b)))).
  { rewrite !decide_False by lia. apply zget_replicate. lia. }
  rewrite zget_app by lia.
  replace (t - Z.of_nat (Z.to_nat (offset - zlen b))) with (q - offset) by lia.
  destruct (Z.ltb_spec (q - offset) (zlen bv)).
  { by rewrite decide_True by lia. }
  rewrite decide_False, decide_True by lia. rewrite zget_drop by lia. f_equal. lia.
Qed.

Lemma take_extend (l data : list Z) p :
  0 <= p -> p + zlen data <= zlen l ->
  (forall k, 0 <= k < zlen data -> zget data k = zget l (p + k)) ->
  take (Z.to_nat p) l ++ data = take (Z.to_nat (p + zlen data)) l.
Proof.
  intros Hp Hle Hd. replace (Z.to_nat (p + zlen data)) with (Z.to_nat p + length data)%nat by (unfold zlen; lia).
  rewrite <- take_take_drop. f_equal. apply list_eq. intros i.
  destruct (decide (i < length data)%nat).
  - rewrite lookup_take_lt, lookup_drop by done. specialize (Hd (Z.of_nat i) ltac:(unfold zlen; lia)).
    unfold zget in Hd. destruct (Z.ltb_spec (Z.of_nat i) 0), (Z.ltb_spec (p + Z.of_nat i) 0); try lia.
    rewrite Nat2Z.id in Hd. rewrite Hd. f_equal. lia.
  - rewrite !(proj2 (lookup_ge_None _ _)); [done| |lia]. rewrite length_take. lia.
Qed.

Lemma chunk_slice_spec c o n :
  0 <= o -> 0 <= n -> o + n <= zlen c ->
  exists data, chunk_slice c o n = Some data /\ zlen data = n /\
    forall k, 0 <= k < n -> zget data k = zget c (o + k).
Proof.
  intros Ho Hn Hle. unfold chunk_slice. destruct (Z.leb_spec 0 o), (Z.leb_spec 0 n), (Z.leb_spec (o + n) (zlen c)); try lia.
  eexists. split_and!; [done|unfold zlen in *; rewrite length_take, length_drop; lia|].
  intros k Hk. rewrite zget_take, zget_drop by lia. done.
Qed.

(** The chunk of the byte [q] of a value, and the bytes from there to its end. *)
Lemma stores_get s b q :
  stores s b -> 0 <= q < zlen b ->
  exists c, storage_db_chunk_sequence_get (Some s) (q / CHUNK) = Some c /\
    zlen c = Z.min CHUNK (zlen b - q / CHUNK * CHUNK) /\ 0 <= q `mod` CHUNK < zlen c /\
    forall k, 0 <= k -> q `mod` CHUNK + k < zlen c -> zget c (q `mod` CHUNK + k) = zget b (q + k).
Proof.
  intros [Hs [[-> ->]|(l & -> & Hl & <-)]] Hq; [unfold zlen in Hq; cbn in Hq; lia|].
  assert (0 < CHUNK) by done. set (size := zlen (concat l)) in *.
  destruct (layout_get _ _ q Hl Hq) as (c & Hc & Hlc & Hoff). pose proof (zget_Some_range _ _ _ Hc).
  pose proof (Z.div_mod q CHUNK ltac:(lia)). pose proof (Z.mod_pos_bound q CHUNK ltac:(lia)).
  exists c. split_and!; [|done|lia|done|].
  - unfold storage_db_chunk_sequence_get. cbn [mbind option_bind seq_count seq_sequence].
    by destruct (Z.leb_spec (zlen l) (q / CHUNK)); [lia|].
  - intros k Hk Hlt. destruct (layout_concat _ _ Hl) as [_ Hb]. rewrite <- Hb by lia. unfold byte_at.
    assert ((q + k) / CHUNK = q / CHUNK) as -> by (symmetry; apply Z.div_unique with (q `mod` CHUNK + k); lia).
    assert ((q + k) `mod` CHUNK = q `mod` CHUNK + k) as -> by (symmetry; apply Z.mod_unique with (q / CHUNK); lia).
    by rewrite Hc.
Qed.

(** The first chunk of a value. *)
Lemma stores_first s b :
  stores s b -> b <> [] -> storage_db_chunk_sequence_get (Some s) 0 = Some (take (Z.to_nat CHUNK) b).
Proof.
  intros Hs Hne. assert (CHUNK = 65535) as HK by done.
  assert (0 < zlen b) as Hpos by (destruct b; [done|rewrite zlen_cons; pose proof (zlen_nonneg b); lia]).
  destruct (stores_get s b 0 Hs ltac:(lia)) as (c & Hc & Hlc & _ & Hb).
  rewrite Z.div_0_l, Z.mul_0_l, Z.sub_0_r in * by lia. rewrite Z.mod_0_l in Hb by lia. rewrite Hc. f_equal.
  apply list_eq. intros i. destruct (decide (Z.of_nat i < zlen c)) as [Hi|Hi].
  - specialize (Hb (Z.of_nat i) ltac:(lia) ltac:(lia)). rewrite !Z.add_0_l in Hb. unfold zget in Hb.
    destruct (Z.ltb_spec (Z.of_nat i) 0); [lia|]. rewrite Nat2Z.id in Hb. rewrite lookup_take_lt by lia. done.
  - unfold zlen in *. rewrite !(proj2 (lookup_ge_None _ _)); [done|rewrite length_take; lia|lia].
Qed.

(** A value of one chunk that is written at once. *)
Lemma write_whole_spec fill buf :
  0 < zlen buf <= CHUNK ->
  exists d, storage_db_chunk_write (storage_db_chunk_sequence_allocate fill (zlen buf)) 0 0 buf = Some d /\ stores d buf.
Proof.
  intros Hb. assert (CHUNK = 65535) as HK by done.
  pose proof (written_fresh fill (zlen buf) ltac:(lia)) as Hw.
  destruct (written_chunk _ _ _ _ _ Hw ltac:(unfold zlen at 1; cbn; lia)) as (c & Hg & _ & _ & _ & Hlc).
  change (zlen (@nil Z)) with 0 in Hlc. rewrite Z.div_0_l, Z.mul_0_l, Z.sub_0_r in Hlc by lia.
  destruct (written_write _ _ _ _ _ _ buf Hw ltac:(unfold zlen at 1; cbn; lia) Hg ltac:(lia) ltac:(lia))
    as (d & -> & _ & _ & Hw'). exists d. split; [done|]. by eapply written_done.
Qed.

(** ** The loop of SETRANGE *)

(** There are no zeroes to write, or the current value ends with its last chunk,
    or they end in it. *)
Definition padding_fits (size offset : Z) : Prop :=
  offset <= size \/ size `mod` CHUNK = 0 \/ offset <= (size / CHUNK + 1) * CHUNK.

#[export] Instance padding_fits_dec size offset : Decision (padding_fits size offset).
Proof. unfold padding_fits. apply _. Defined.

Section setrange_loop.
Context (current : option chunk_sequence) (b : list Z) (offset : Z) (v : chunk_sequence) (bv : list Z).
Context (Hcur : match current with Some s => stores s b | None => b = [] end) (Hv : stores v bv).
Context (Hoff : 0 <= offset) (Hbv : 0 < zlen bv) (Hsize : offset + zlen bv <= CHUNK * CHUNK).

Abbreviation total := (offset + zlen bv).
Abbreviation size := (Z.max (zlen b) total).
Abbreviation D := (setrange_bytes b offset bv).

Definition current_count : Z := match current with Some s => seq_count s | None => 0 end.

Record window_inv (w : window) : Prop := {
  wi_pos : 0 <= destination_offset w <= size;
  wi_written : written size (take (Z.to_nat (destination_offset w)) D) (destination w)
    (destination_chunk_index w) (destination_chunk_offset w);
  wi_cur : destination_offset w < zlen b -> current_chunk_index w = destination_offset w / CHUNK;
  wi_past : zlen b <= destination_offset w <= offset -> destination_offset w < size ->
    current_count <= current_chunk_index w <= destination_chunk_index w + 1;
  wi_pad : zlen b < destination_offset w < offset -> destination_offset w `mod` CHUNK = 0;
  wi_range : destination_offset w < total ->
    cursor (zlen bv) (Z.max 0 (destination_offset w - offset)) (range_value_chunk_index w) (range_value_chunk_offset w)
}.

Lemma current_size : zlen b <= CHUNK * CHUNK.
Proof using Hcur.
  clear - Hcur.
  pose proof (zlen_nonneg b). assert (0 < CHUNK) by done.
  destruct current as [s|]; [|subst; unfold zlen; cbn; lia].
  destruct Hcur as [_ [[-> _]|(l & _ & Hl & _)]]; [unfold zlen; cbn; lia|apply (la_size _ _ Hl)].
Qed.

Lemma taken p : 0 <= p <= size -> zlen (take (Z.to_nat p) D) = p.
Proof using Hoff.
  clear - Hoff.
  intros Hp. pose proof (setrange_length b offset bv Hoff) as Hl. unfold zlen in *. rewrite length_take. lia.
Qed.

Lemma current_get p :
  0 <= p < zlen b ->
  exists c, storage_db_chunk_sequence_get current (p / CHUNK) = Some c /\
    zlen c = Z.min CHUNK (zlen b - p / CHUNK * CHUNK) /\ 0 <= p `mod` CHUNK < zlen c /\
    forall k, 0 <= k -> p `mod` CHUNK + k < zlen c -> zget c (p `mod` CHUNK + k) = zget b (p + k).
Proof using Hcur.
  clear - Hcur.
  intros Hp. destruct current as [s|]; [by apply stores_get|]. subst. unfold zlen in Hp. cbn in Hp. lia.
Qed.

Lemma current_end i : current_count <= i -> storage_db_chunk_sequence_get current i = None.
Proof using.
  clear.
  unfold current_count. intros Hi. destruct current as [s|]; [|done]. cbn [storage_db_chunk_sequence_get mbind option_bind].
  by destruct (Z.leb_spec (seq_count s) i); [|lia].
Qed.

Lemma current_count_spec : 0 < zlen b -> current_count = storage_db_chunk_sequence_calculate_chunk_count (zlen b).
Proof using Hcur.
  clear - Hcur.
  intros Hb. unfold current_count. destruct current as [s|]; [|subst; unfold zlen in Hb; cbn in Hb; lia].
  destruct Hcur as [Hs [[-> _]|(l & -> & Hl & _)]]; [unfold zlen in Hb; cbn in Hb; lia|]. apply (la_count _ _ Hl).
Qed.

(** The bytes copied from the chunk of the current value. *)
Lemma window_copy_spec p :
  0 <= p < zlen b -> p < offset \/ total <= p ->
  exists c data, storage_db_chunk_sequence_get current (p / CHUNK) = Some c /\
    chunk_slice c (p `mod` CHUNK)
      (if (p <? total) && (offset <? u64 (p + u64 (zlen c - p `mod` CHUNK))) then u64 (offset - p)
       else u64 (zlen c - p `mod` CHUNK)) = Some data /\
    0 < zlen data /\ p `mod` CHUNK + zlen data <= Z.min CHUNK (size - p / CHUNK * CHUNK) /\
    (forall k, 0 <= k < zlen data -> zget data k = zget D (p + k)) /\
    p + zlen data <= zlen b /\ (p < offset -> p + zlen data <= offset).
Proof using Hcur Hoff Hbv Hsize.
  clear - Hcur Hoff Hbv Hsize. intros Hp Hr. pose proof current_size as Hcs. assert (CHUNK = 65535) as HK by done.
  destruct (current_get p Hp) as (c & Hc & Hlc & Hpc & Hcb).
  pose proof (Z.div_mod p CHUNK ltac:(lia)). pose proof (Z.mod_pos_bound p CHUNK ltac:(lia)).
  exists c. rewrite (wrap_small 64 (zlen c - _)) by mach_lia. rewrite (wrap_small 64 (p + _)) by mach_lia.
  set (n := if _ && _ then _ else _).
  assert (0 < n <= zlen c - p `mod` CHUNK /\ (p < offset -> p + n <= offset)) as [Hn Hno].
  { unfold n. destruct (Z.ltb_spec p total), (Z.ltb_spec offset (p + (zlen c - p `mod` CHUNK))); cbn [andb]; try lia.
    rewrite wrap_small by mach_lia. lia. }
  destruct (chunk_slice_spec c (p `mod` CHUNK) n ltac:(lia) ltac:(lia) ltac:(lia)) as (data & Hs & Hdl & Hdb).
  exists data. rewrite Hdl. split_and!; [done|done|lia|lia| |lia|done].
  intros k Hk. rewrite Hdb, Hcb, setrange_get by lia. by rewrite decide_False, decide_True by lia.
Qed.

(** The bytes of an iteration: those the value at the destination has, as many
    as fit in the chunk, up to the next border of the range or of the value. *)
Lemma window_data_spec w d :
  window_inv w -> destination_offset w < size ->
  (zlen b <= destination_offset w < offset -> padding_fits (zlen b) offset) ->
  storage_db_chunk_sequence_get (Some (destination w)) (destination_chunk_index w) = Some d ->
  exists data ri ro, window_data current offset v w d = Some (data, ri, ro) /\
    0 < zlen data /\ destination_chunk_offset w + zlen data <= zlen d /\
    (forall k, 0 <= k < zlen data -> zget data k = zget D (destination_offset w + k)) /\
    (destination_offset w + zlen data < total ->
      cursor (zlen bv) (Z.max 0 (destination_offset w + zlen data - offset)) ri ro) /\
    (destination_offset w < zlen b -> destination_offset w + zlen data <= offset \/ total <= destination_offset w ->
      destination_offset w + zlen data <= zlen b) /\
    (destination_offset w < offset -> destination_offset w + zlen data <= offset) /\
    (zlen b <= destination_offset w -> destination_offset w + zlen data < offset ->
      (destination_offset w + zlen data) `mod` CHUNK = 0).
Proof using Hcur Hv Hoff Hbv Hsize.
  intros [Hpos Hw Hc Hpast Hp Hr] Hlt Hpad Hd.
  set (p := destination_offset w) in *. assert (CHUNK = 65535) as HK by done. pose proof current_size as Hcs.
  destruct (written_chunk _ _ _ _ _ Hw) as (d' & Hd' & Hi & Ho & Hor & Hld); [by rewrite taken|].
  rewrite Hd in Hd'. injection Hd' as <-. rewrite taken in Hi, Ho, Hld by done.
  pose proof (Z.div_mod p CHUNK ltac:(lia)). pose proof (Z.mod_pos_bound p CHUNK ltac:(lia)).
  pose proof (Z.div_pos p CHUNK ltac:(lia) ltac:(lia)).
  unfold window_data, requested_total_length. fold p. rewrite (proj1 Hv). rewrite (wrap_small 64 total) by mach_lia.
  destruct (Z.leb_spec offset p) as [Hop|Hop]; destruct (Z.ltb_spec p total) as [Hpt|Hpt]; try lia; cbn [andb].
  - (* the range *)
    specialize (Hr Hpt). rewrite Z.max_r in Hr by lia. unfold cursor in Hr. rewrite decide_True in Hr by lia.
    destruct Hr as [-> ->]. destruct (stores_get v bv (p - offset) Hv ltac:(lia)) as (r & -> & Hlr & Hrr & Hrb).
    cbn [mbind option_bind]. rewrite !(wrap_small 64 (zlen r - _)), !(wrap_small 64 (zlen d - _)) by mach_lia.
    set (n := if _ <? _ then _ else _).
    assert (0 < n /\ (p - offset) `mod` CHUNK + n <= zlen r /\ destination_chunk_offset w + n <= zlen d) as (Hn & Hnr & Hnd)
      by (unfold n; destruct (Z.ltb_spec (zlen d - destination_chunk_offset w) (zlen r - (p - offset) `mod` CHUNK)); lia).
    destruct (chunk_slice_spec r ((p - offset) `mod` CHUNK) n ltac:(lia) ltac:(lia) Hnr) as (data & -> & Hdl & Hdb).
    cbn [mbind option_bind]. rewrite (wrap_small 64 (_ + n)) by mach_lia.
    destruct (Z.leb_spec ((p - offset) `mod` CHUNK + n) (zlen r)); [|lia]. cbn [check mbind option_bind].
    do 3 eexists. split; [done|]. rewrite Hdl.
    destruct (cursor_advance (zlen bv) (p - offset) n (zlen r) ltac:(lia) ltac:(lia) Hlr Hn ltac:(lia)) as [Hle Hcu].
    split_and!; [done|done| |intros _; rewrite Z.max_r by lia;
      replace (p + n - offset) with (p - offset + n) by lia; exact Hcu|lia|lia|lia].
    intros k Hk. rewrite Hdb, Hrb, setrange_get by lia. rewrite decide_True by lia. f_equal. lia.
  - (* after the range *)
    destruct (window_copy_spec p) as (c & data & Hg & Hs & Hdl & Hfit & Hdb & Hpb & Hpo); [lia|lia|].
    rewrite Hc, Hg, Ho by lia. destruct (Z.ltb_spec p total); [lia|]. cbn [andb] in *. rewrite Hs.
    do 3 eexists. split; [done|]. split_and!; [done|lia|done|lia|lia|lia|lia].
  - destruct (Z.lt_ge_cases p (zlen b)) as [Hpb|Hpb]; [|].
    { destruct (window_copy_spec p) as (c & data & Hg & Hs & Hdl & Hfit & Hdb & Hpb' & Hpo); [lia|lia|].
      rewrite Hc, Hg, Ho by lia. destruct (Z.ltb_spec p total); [|lia]. cbn [andb] in *. rewrite Hs.
      specialize (Hr Hpt). rewrite Z.max_l in Hr by lia.
      do 3 eexists. split; [done|]. split_and!; [done|lia|done| |lia|done|lia].
      intros _. rewrite Z.max_l by lia. exact Hr. }
    (* the zeroes *)
    specialize (Hpad ltac:(lia)). unfold padding_fits in Hpad.
    rewrite (current_end (current_chunk_index w)) by (apply Hpast; lia). cbn [mbind option_bind].
    rewrite (swrap_small 64 (offset - p)) by (pow2s; lia). destruct (Z.leb_spec 0 (offset - p)); [|lia].
    cbn [check mbind option_bind].
    set (n := if _ <? _ then _ else _).
    assert (n = Z.min CHUNK (offset - p)) as Hn by (unfold n; destruct (Z.ltb_spec CHUNK (offset - p)); lia).
    do 3 eexists. split; [done|]. rewrite zlen_replicate, Z2Nat.id by lia.
    assert (destination_chunk_offset w + n <= zlen d /\ (p + n < offset -> p `mod` CHUNK = 0)) as [Hfit Hmod].
    { destruct (Z.eq_dec (p `mod` CHUNK) 0) as [Hm|Hm]; [split; lia|].
      assert (p = zlen b) as Hpe by lia. rewrite <- Hpe in Hpad. split; lia. }
    split_and!; [lia|done| |intros _|lia|lia|].
    + intros k Hk. rewrite setrange_get by lia. rewrite !decide_False by lia. apply zget_replicate. lia.
    + specialize (Hr Hpt). rewrite Z.max_l in Hr by lia. rewrite Z.max_l by lia. exact Hr.
    + intros _ Hlto. assert (n = CHUNK) as -> by lia. rewrite <- (Z.mul_1_l CHUNK) at 1. rewrite Z_mod_plus_full. auto.
Qed.

(** The index in the current value follows. *)
Lemma window_current_spec p n ci dlen :
  0 <= p < size -> 0 < n -> p `mod` CHUNK + n <= dlen -> dlen = Z.min CHUNK (size - p / CHUNK * CHUNK) ->
  (p < zlen b -> ci = p / CHUNK) ->
  (zlen b <= p <= offset -> current_count <= ci <= p / CHUNK + 1) ->
  (p < zlen b -> p + n <= offset \/ total <= p -> p + n <= zlen b) ->
  (p < offset -> p + n <= offset) ->
  let ci' := if p `mod` CHUNK + n =? dlen then u16 (ci + 1) else
             match storage_db_chunk_sequence_get current ci with
             | Some c => if p `mod` CHUNK + n =? zlen c then u16 (ci + 1) else ci
             | None => ci
             end in
  let di := if p `mod` CHUNK + n =? dlen then p / CHUNK + 1 else p / CHUNK in
  (p + n < zlen b -> ci' = (p + n) / CHUNK) /\
  (zlen b <= p + n <= offset -> p + n < size -> current_count <= ci' <= di + 1).
Proof using Hcur Hoff Hbv Hsize.
  clear - Hcur Hoff Hbv Hsize. intros Hp Hn Hfit Hd Hc Hpast Hle Ho. cbv zeta.
  pose proof current_size as Hcs. assert (CHUNK = 65535) as HK by done.
  pose proof (Z.div_mod p CHUNK ltac:(lia)). pose proof (Z.mod_pos_bound p CHUNK ltac:(lia)).
  set (i := p / CHUNK) in *. set (r := p `mod` CHUNK) in *. assert (0 <= i) by (apply Z.div_pos; lia).
  assert (i < 65535) by nia.
  assert (0 < zlen b -> forall j, 0 <= j -> (j < current_count <-> j * CHUNK < zlen b)) as Hcount
    by (intros; rewrite current_count_spec by done; by apply chunk_count_spec).
  destruct (Z.lt_ge_cases p (zlen b)) as [Hpb|Hpb].
  - rewrite Hc by done. destruct (current_get p ltac:(lia)) as (c & Hg & Hlc & _). fold i in Hg, Hlc. rewrite Hg.
    rewrite (wrap_small 16) by mach_lia. specialize (Hcount ltac:(lia)).
    pose proof (Hcount (i + 1) ltac:(lia)). split.
    + intros Hlt. destruct (Z.eqb_spec (r + n) dlen); [apply Z.div_unique with 0; lia|].
      destruct (Z.eqb_spec (r + n) (zlen c)); [|apply Z.div_unique with (r + n)]; lia.
    + intros Hin Hlt. destruct (Z.eqb_spec (r + n) dlen); [lia|].
      destruct (Z.eqb_spec (r + n) (zlen c)); lia.
  - split; [lia|]. intros Hin Hlt. specialize (Hpast ltac:(lia)). rewrite (current_end ci) by lia.
    destruct (Z.eqb_spec (r + n) dlen); [|lia]. assert (i + 1 < 65535) by nia. rewrite wrap_small; [lia|].
    assert (0 <= current_count); [|mach_lia].
    destruct (Z.eq_dec (zlen b) 0) as [Hz|Hz]; [|pose proof (zlen_nonneg b); pose proof (Hcount ltac:(lia) 0); lia].
    unfold current_count. destruct current as [s|]; [|lia]. destruct Hcur as [_ [[_ ->]|(l & -> & _)]]; [done|apply zlen_nonneg].
Qed.

Lemma window_step_spec w :
  window_inv w -> destination_offset w < size ->
  (zlen b <= destination_offset w < offset -> padding_fits (zlen b) offset) ->
  exists w', window_step current offset v w = Some w' /\ window_inv w' /\
    destination_offset w < destination_offset w' /\
    (destination_offset w < zlen b -> zlen b < offset -> destination_offset w' <= zlen b).
Proof using Hcur Hv Hoff Hbv Hsize.
  intros Hw Hlt Hpad. pose proof (wi_pos _ Hw) as Hpos. assert (CHUNK = 65535) as HK by done. pose proof current_size.
  destruct (written_chunk _ _ _ _ _ (wi_written _ Hw)) as (d & Hd & Hi & Ho & Hor & Hld); [by rewrite taken|].
  rewrite taken in Hi, Ho, Hld by done.
  destruct (window_data_spec w d Hw Hlt Hpad Hd) as (data & ri & ro & Hdata & Hn & Hfit & Hb & Hr & Hle & Hleo & Hm).
  destruct (written_write _ _ _ _ _ _ data (wi_written _ Hw) ltac:(by rewrite taken) Hd Hn Hfit)
    as (dest & Hwr & Hcount & Hsz & Hwr').
  rewrite taken in Hsz by done.
  rewrite take_extend in Hwr'; [|lia|rewrite setrange_length by lia; lia|done].
  pose proof (window_current_spec (destination_offset w) (zlen data) (current_chunk_index w) (zlen d)
    ltac:(lia) Hn ltac:(lia) Hld (wi_cur _ Hw)) as Hci.
  rewrite <- Hi, <- Ho in Hci. specialize (Hci ltac:(intros; apply (wi_past _ Hw); lia) Hle Hleo). cbv zeta in Hci.
  unfold window_step. rewrite Hd. cbn [mbind option_bind]. rewrite Hdata. cbn [mbind option_bind]. rewrite Hwr. cbn [mbind option_bind].
  rewrite (wrap_small 64 (destination_chunk_offset w + _)) by mach_lia.
  rewrite (wrap_small 64 (destination_offset w + _)) by mach_lia.
  pose proof (Z.div_mod (destination_offset w) CHUNK ltac:(lia)).
  assert (0 <= destination_chunk_index w < 65535) by (rewrite Hi; split; [apply Z.div_pos; lia|apply Z.div_lt_upper_bound; lia]).
  rewrite (wrap_small 16 (destination_chunk_index w + 1)) in * by mach_lia.
  destruct (Z.eqb_spec (destination_chunk_offset w + zlen data) (zlen d)) as [He|Hne];
    eexists; (split; [reflexivity|]); (split; [|cbn [destination_offset]; split; [lia|intros; apply Hle; lia]]);
    destruct Hci as [Hci1 Hci2]; split; cbn [destination destination_chunk_index destination_offset destination_chunk_offset
      current_chunk_index range_value_chunk_index range_value_chunk_offset];
    try done; try lia; try (intros; apply Hm; lia).
Qed.

(** The zeroes that do not fit. *)
Lemma window_step_overruns w :
  window_inv w -> destination_offset w = zlen b -> ~ padding_fits (zlen b) offset ->
  window_step current offset v w = None.
Proof using Hcur Hv Hoff Hbv Hsize.
  intros Hw Hp Hpad. pose proof (wi_pos _ Hw) as Hpos. assert (CHUNK = 65535) as HK by done. pose proof current_size.
  unfold padding_fits in Hpad. pose proof (zlen_nonneg b).
  destruct (written_chunk _ _ _ _ _ (wi_written _ Hw)) as (d & Hd & Hi & Ho & Hor & Hld); [rewrite taken; lia|].
  rewrite taken in Hi, Ho, Hld by done. unfold window_step. rewrite Hd. cbn [mbind option_bind].
  unfold window_data, requested_total_length. destruct (Z.leb_spec offset (destination_offset w)); [lia|].
  cbn [andb]. rewrite (current_end (current_chunk_index w)) by (apply (wi_past _ Hw); lia).
  rewrite (swrap_small 64 (offset - _)) by (pow2s; lia). destruct (Z.leb_spec 0 (offset - destination_offset w)); [|lia].
  cbn [check mbind option_bind]. set (n := if _ <? _ then _ else _).
  assert (n = Z.min CHUNK (offset - destination_offset w)) as Hn
    by (unfold n; destruct (Z.ltb_spec CHUNK (offset - destination_offset w)); lia).
  unfold storage_db_chunk_write. unfold storage_db_chunk_sequence_get in Hd. cbn [mbind option_bind] in Hd.
  destruct (seq_count (destination w) <=? destination_chunk_index w); [done|].
  destruct (seq_sequence (destination w)) as [l|]; [|done]. cbn [mbind option_bind] in *. rewrite Hd. cbn [mbind option_bind].
  rewrite zlen_replicate, Z2Nat.id by lia.
  pose proof (Z.div_mod (zlen b) CHUNK ltac:(lia)). pose proof (Z.mod_pos_bound (zlen b) CHUNK ltac:(lia)).
  rewrite Hp in *. destruct (Z.leb_spec (destination_chunk_offset w + n) (zlen d)); [lia|]. by rewrite andb_false_r.
Qed.

(** The loop goes on while there are bytes to write. *)
Lemma window_more w :
  window_inv w -> (destination_chunk_index w <? seq_count (destination w)) = (destination_offset w <? size).
Proof using Hcur Hv Hoff Hbv Hsize.
  intros Hw. pose proof (wi_pos _ Hw) as Hpos. destruct (Z.ltb_spec (destination_offset w) size).
  - destruct (written_chunk _ _ _ _ _ (wi_written _ Hw)) as (d & Hd & _); [by rewrite taken|].
    revert Hd. unfold storage_db_chunk_sequence_get. cbn [mbind option_bind].
    destruct (Z.leb_spec (seq_count (destination w)) (destination_chunk_index w)); [done|]. intros _. by apply Z.ltb_lt.
  - destruct (wi_written _ Hw) as (l & -> & Hl & _ & Hcu & _). rewrite taken in Hcu by done. unfold cursor in Hcu.
    rewrite decide_False in Hcu by lia. destruct Hcu as [-> _]. cbn [seq_count]. rewrite (la_count _ _ Hl). apply Z.ltb_irrefl.
Qed.

Lemma window_loop_spec : padding_fits (zlen b) offset -> forall fuel w,
  window_inv w -> destination_offset w < size -> size - destination_offset w < Z.of_nat fuel ->
  exists w', window_loop current offset v fuel w = Some w' /\ window_inv w' /\ destination_offset w' = size.
Proof using Hcur Hv Hoff Hbv Hsize.
  intros Hpad. induction fuel as [|fuel IH]; intros w Hw Hlt Hf; [lia|]. cbn [window_loop].
  destruct (window_step_spec w Hw Hlt (fun _ => Hpad)) as (w' & -> & Hw' & Hgt & _). cbn [mbind option_bind].
  rewrite (window_more _ Hw'). pose proof (wi_pos _ Hw'). destruct (Z.ltb_spec (destination_offset w') size) as [Hl|Hl].
  - apply IH; [done|done|lia].
  - exists w'. split_and!; [done|done|lia].
Qed.

(** An iteration that is not the last. *)
Definition iterates (w w' : window) : Prop :=
  window_step current offset v w = Some w' /\ destination_chunk_index w' < seq_count (destination w').

Lemma window_loop_reaches w w' : rtc iterates w w' -> window_step current offset v w' = None ->
  forall fuel, window_loop current offset v fuel w = None.
Proof using.
  intros Hr Hn. induction Hr as [w|w w1 w' [H1 Hlt] Hr IH]; intros [|fuel]; cbn [window_loop]; try done.
  - by rewrite Hn.
  - rewrite H1. cbn [mbind option_bind]. apply Z.ltb_lt in Hlt. rewrite Hlt. by apply IH.
Qed.

Lemma window_reaches_end : zlen b < offset -> forall n w,
  (Z.to_nat (zlen b - destination_offset w) <= n)%nat -> window_inv w -> destination_offset w <= zlen b ->
  exists w', rtc iterates w w' /\ window_inv w' /\ destination_offset w' = zlen b.
Proof using Hcur Hv Hoff Hbv Hsize.
  intros Hbo. induction n as [|n IH]; intros w Hn Hw Hle.
  - exists w. split_and!; [apply rtc_refl|done|lia].
  - destruct (Z.eq_dec (destination_offset w) (zlen b)); [exists w; split_and!; [apply rtc_refl|done|done]|].
    destruct (window_step_spec w Hw ltac:(lia) ltac:(lia)) as (w1 & H1 & Hw1 & Hgt & Hb).
    destruct (IH w1) as (w' & Hr & Hw' & He); [lia|done|lia|].
    exists w'. split_and!; [|done|done]. apply rtc_l with w1; [|done]. split; [done|].
    apply Z.ltb_lt. rewrite window_more by done. apply Z.ltb_lt. lia.
Qed.

Lemma window_start fill :
  window_inv (Window (storage_db_chunk_sequence_allocate fill size) 0 0 0 0 0 0).
Proof using Hcur Hv Hoff Hbv Hsize.
  pose proof current_size. pose proof (zlen_nonneg b).
  split; cbn [destination destination_chunk_index destination_offset destination_chunk_offset
    current_chunk_index range_value_chunk_index range_value_chunk_offset]; try done; try lia.
  - apply written_fresh. lia.
  - intros Hz _. assert (current_count = 0) as ->; [|lia]. unfold current_count.
    destruct current as [s|]; [|done]. destruct Hcur as [_ [[_ ->]|(l & _ & Hl & _)]]; [done|].
    pose proof (la_size _ _ Hl). lia.
  - intros _. rewrite Z.max_l by lia. unfold cursor. by rewrite decide_True by lia.
Qed.

Lemma required_length : chunk_sequence_required_length current offset v = size.
Proof using Hcur Hv Hoff Hbv Hsize.
  assert (CHUNK = 65535) as HK by done. unfold chunk_sequence_required_length, requested_total_length.
  rewrite (proj1 Hv), wrap_small by mach_lia.
  assert (current_chunk_sequence_length current = zlen b) as ->.
  { unfold current_chunk_sequence_length. destruct current as [s|]; [apply Hcur|by subst]. }
  destruct (Z.ltb_spec (zlen b) total); lia.
Qed.

End setrange_loop.

Lemma setrange_value_spec fill current v b bv offset :
  match current with Some s => stores s b | None => b = [] end -> stores v bv ->
  0 <= offset -> 0 < zlen bv -> offset + zlen bv <= CHUNK * CHUNK -> padding_fits (zlen b) offset ->
  exists d, setrange_value current offset v fill = Some d /\ stores d (setrange_bytes b offset bv).
Proof.
  intros Hcur Hv Ho Hbv Hs Hpad. pose proof (zlen_nonneg b). unfold setrange_value.
  rewrite (required_length current b offset v bv) by done.
  destruct (window_loop_spec current b offset v bv Hcur Hv Ho Hbv Hs Hpad
    (S (Z.to_nat (Z.max (zlen b) (offset + zlen bv)))) _ (window_start current b offset v bv Hcur Hv Ho Hbv Hs fill))
    as (w & -> & Hw & He); [cbn [destination_offset]; lia|cbn [destination_offset]; lia|].
  exists (destination w). split; [done|]. pose proof (wi_written _ _ _ _ _ Hw) as Hwr. rewrite He in Hwr.
  assert (take (Z.to_nat (Z.max (zlen b) (offset + zlen bv))) (setrange_bytes b offset bv) = setrange_bytes b offset bv) as Ht.
  { apply take_ge. pose proof (setrange_length b offset bv Ho). unfold zlen in *. lia. }
  rewrite Ht in Hwr. apply (written_done _ _ _ _ _ Hwr). by apply setrange_length.
Qed.

(** SETRANGE.  When the zeroes between the end of the current value and the
    offset fit in its last chunk, or it ends with a full one, the value
    SETRANGE stores has the bytes given at the offset, the zeroes before them
    where the value had no byte, and the other bytes of the current value, for
    values and ranges of whatever number of chunks: no iteration reads or
    writes out of a chunk, and the loop ends. *)
Theorem setrange_value_writes fill current v b bv offset :
  match current with Some s => stores s b | None => b = [] end -> stores v bv ->
  0 <= offset -> 0 < zlen bv -> offset + zlen bv <= CHUNK * CHUNK -> padding_fits (zlen b) offset ->
  exists d, setrange_value current offset v fill = Some d /\ stores d (setrange_bytes b offset bv).
Proof. apply setrange_value_spec. Qed.

Lemma setrange_value_writes_witness :
  exists d, setrange_value (Some (ChunkSequence 1 (Some [[1; 2]]) 2)) 4 (ChunkSequence 1 (Some [[3]]) 1) 7 = Some d /\
    stores d [1; 2; 0; 0; 3].
Proof.
  apply (setrange_value_writes 7 (Some _) _ [1; 2] [3] 4); try done.
  - by apply (stores_one [1; 2]).
  - by apply (stores_one [3]).
  - by right; right.
Defined.

(** When they do not fit, the loop reaches the end of the current value and
    writes zeroes past the end of the chunk: a write is limited to the size of
    a chunk, not to what is left of the one it goes in.  So SETRANGE one chunk
    or more after the end of a value that does not end with a chunk overruns
    the memory of a chunk. *)
Theorem setrange_value_overruns fill current v b bv offset :
  match current with Some s => stores s b | None => b = [] end -> stores v bv ->
  0 <= offset -> 0 < zlen bv -> offset + zlen bv <= CHUNK * CHUNK -> ~ padding_fits (zlen b) offset ->
  setrange_value current offset v fill = None /\
  exists w, rtc (iterates current offset v)
      (Window (storage_db_chunk_sequence_allocate fill (chunk_sequence_required_length current offset v)) 0 0 0 0 0 0) w /\
    destination_offset w = zlen b /\ window_step current offset v w = None.
Proof.
  intros Hcur Hv Ho Hbv Hs Hpad. pose proof (zlen_nonneg b). unfold setrange_value.
  rewrite (required_length current b offset v bv) by done.
  pose proof (window_start current b offset v bv Hcur Hv Ho Hbv Hs fill) as Hw0.
  destruct (window_reaches_end current b offset v bv Hcur Hv Ho Hbv Hs ltac:(unfold padding_fits in Hpad; lia)
    _ _ (le_n _) Hw0 ltac:(cbn [destination_offset]; lia)) as (w & Hr & Hw & He).
  pose proof (window_step_overruns current b offset v bv Hcur Hv Ho Hbv Hs w Hw He Hpad) as Hn.
  split; [|by exists w].
  by rewrite (window_loop_reaches current offset v _ w Hr Hn).
Qed.

Lemma setrange_value_overruns_witness :
  setrange_value (Some (ChunkSequence 1 (Some [[1; 2]]) 2)) 65536 (ChunkSequence 1 (Some [[3]]) 1) 7 = None.
Proof.
  apply (setrange_value_overruns 7 (Some _) _ [1; 2] [3] 65536); try done.
  - by apply (stores_one [1; 2]).
  - by apply (stores_one [3]).
  - unfold padding_fits. vm_compute. intuition discriminate.
Defined.


(** ** The range a reply sends *)

Definition slice (b : list Z) (offset length : Z) : list Z := take (Z.to_nat length) (drop (Z.to_nat offset) b).

(** What the asserts and the first chunk ask of a range of a value of [size]
    bytes. *)
Definition range_fits (size offset length : Z) : Prop :=
  if decide (size <= CHUNK) then size + 32 <= NETWORK_CHANNEL_MAX_PACKET_SIZE \/ NETWORK_CHANNEL_MAX_PACKET_SIZE < length + 32
  else offset `mod` CHUNK + length <= CHUNK \/ CHUNK < length.

#[export] Instance range_fits_dec size offset length : Decision (range_fits size offset length).
Proof. unfold range_fits. case_decide; apply _. Defined.

Lemma range_fits_small size offset length :
  size <= CHUNK -> (range_fits size offset length <->
    size + 32 <= NETWORK_CHANNEL_MAX_PACKET_SIZE \/ NETWORK_CHANNEL_MAX_PACKET_SIZE < length + 32).
Proof. intros. unfold range_fits. by rewrite decide_True by lia. Qed.

Lemma range_fits_big size offset length :
  CHUNK < size -> (range_fits size offset length <-> offset `mod` CHUNK + length <= CHUNK \/ CHUNK < length).
Proof. intros. unfold range_fits. by rewrite decide_False by lia. Qed.

(** A whole value fits. *)
Lemma range_fits_whole size : range_fits size 0 size.
Proof. unfold range_fits. case_decide; lia. Qed.

Lemma slice_after pre l offset k length :
  0 <= k -> zlen pre = offset - k -> slice (pre ++ l) offset length = slice l k length.
Proof.
  intros Hk Hp. unfold slice. f_equal. unfold zlen in Hp. rewrite drop_app_ge by lia. f_equal. lia.
Qed.

Lemma slice_split c t k e length :
  0 <= k -> k <= e <= zlen c -> e <= k + length -> (e = zlen c \/ e = k + length) ->
  slice (c ++ t) k length = slice c k (e - k) ++ take (Z.to_nat (length - (e - k))) t.
Proof.
  intros Hk He Hl Hor. unfold slice, zlen in *. rewrite drop_app_le by lia. rewrite take_app, length_drop. f_equal.
  - destruct Hor as [->| ->]; [|f_equal; lia]. rewrite !take_ge by (rewrite length_drop; lia). done.
  - destruct Hor as [->| ->]; [f_equal; lia|].
    replace (Z.to_nat (length - (k + length - k))) with 0%nat by lia.
    by replace (Z.to_nat length - (List.length c - Z.to_nat k))%nat with 0%nat by lia.
Qed.

Lemma send_chunk_spec c to_send : forall fuel sent length,
  0 <= sent < to_send -> to_send - sent < Z.of_nat fuel -> to_send - sent <= length -> length < 2 ^ 63 -> to_send < 2 ^ 63 ->
  send_chunk fuel c to_send sent length =
    if to_send <=? zlen c then Some (slice c sent (to_send - sent), to_send, length - (to_send - sent)) else None.
Proof.
  induction fuel as [|fuel IH]; intros sent length Hs Hf Hl Hl2 Ht2; [lia|]. cbn [send_chunk].
  assert (NETWORK_CHANNEL_MAX_PACKET_SIZE = 32768) as HN by done.
  rewrite (wrap_small 64 (to_send - sent)) by mach_lia.
  set (n := if _ <? _ then _ else _).
  assert (0 < n <= to_send - sent /\ (sent + n = to_send \/ n = NETWORK_CHANNEL_MAX_PACKET_SIZE)) as [Hn He]
    by (unfold n; destruct (Z.ltb_spec NETWORK_CHANNEL_MAX_PACKET_SIZE (to_send - sent)); lia).
  unfold chunk_slice. destruct (Z.leb_spec 0 sent), (Z.leb_spec 0 n); try lia. cbn [andb].
  destruct (Z.leb_spec (sent + n) (zlen c)) as [Hc|Hc]; cbn [mbind option_bind]; [|by destruct (Z.leb_spec to_send (zlen c)); [lia|]].
  rewrite (wrap_small 64 (sent + n)), (wrap_small 64 (length - n)) by mach_lia.
  destruct (Z.ltb_spec (sent + n) to_send) as [Hlt|Hge].
  - rewrite IH by lia. destruct (to_send <=? zlen c); [|done]. cbn [mbind option_bind].
    f_equal. f_equal; [f_equal|lia]. unfold slice.
    replace (Z.to_nat (to_send - sent)) with (Z.to_nat n + Z.to_nat (to_send - (sent + n)))%nat by lia.
    rewrite <- take_take_drop, drop_drop. do 3 f_equal. lia.
  - assert (sent + n = to_send) as He' by lia. rewrite <- He'. destruct (Z.leb_spec (sent + n) (zlen c)); [|lia].
    unfold slice. by replace (sent + n - sent) with n by lia.
Qed.

(** The chunks after the first one are sent from their first byte. *)
Lemma send_chunks_spec : forall l size length,
  layout l size -> 0 <= length <= size -> send_chunks l 0 length = Some (take (Z.to_nat length) (concat l)).
Proof.
  induction l as [|c l IH]; intros size length Hl Hlen.
  - destruct (layout_concat _ _ Hl) as [H0 _]. unfold zlen in H0. cbn in H0. destruct (la_size _ _ Hl); lia.
  - assert (CHUNK = 65535) as HK by done. cbn [send_chunks concat]. pose proof (la_size _ _ Hl).
    destruct (Z.ltb_spec 0 length); [|by replace (Z.to_nat length) with 0%nat by lia].
    set (to_send := if zlen c <? length then zlen c else _).
    assert (to_send = Z.min length (zlen c)) as Ht
      by (unfold to_send; destruct (Z.ltb_spec (zlen c) length); [lia|rewrite Z.add_0_r, wrap_small by mach_lia; lia]).
    clearbody to_send. pose proof (layout_cons _ _ _ Hl) as Hcons.
    assert (0 < zlen c) by (destruct Hcons as [[_ ?]|[? _]]; lia).
    rewrite send_chunk_spec by lia. destruct (Z.leb_spec to_send (zlen c)); [|lia]. cbn [mbind option_bind].
    rewrite Z.eqb_refl. cbn [check mbind option_bind]. unfold slice. rewrite Z.sub_0_r. change (drop (Z.to_nat 0) c) with c.
    assert (send_chunks l 0 (length - to_send) = Some (take (Z.to_nat (length - to_send)) (concat l))) as ->.
    { destruct Hcons as [[-> ?]|(? & ? & Ht')]; [|by apply IH with (size - CHUNK); [|lia]].
      by replace (Z.to_nat (length - to_send)) with 0%nat by lia. }
    cbn [mbind option_bind]. f_equal. unfold zlen in *. rewrite take_app. f_equal.
    + destruct (Z.le_gt_cases length (Z.of_nat (List.length c))); [f_equal; lia|rewrite !take_ge by lia; done].
    + f_equal. lia.
Qed.

Lemma skip_chunks_spec : forall l size offset,
  layout l size -> 0 <= offset < size ->
  exists pre c l', skip_chunks l offset = (c :: l', offset `mod` CHUNK) /\ concat l = pre ++ concat (c :: l') /\
    zlen pre = offset / CHUNK * CHUNK /\ layout (c :: l') (size - offset / CHUNK * CHUNK).
Proof.
  induction l as [|c l IH]; intros size offset Hl Hr.
  - destruct (layout_concat _ _ Hl) as [H0 _]. unfold zlen in H0. cbn in H0. lia.
  - assert (CHUNK = 65535) as HK by done. cbn [skip_chunks].
    pose proof (la_chunk _ _ Hl 0 c eq_refl). destruct (Z.ltb_spec offset (zlen c)) as [Hlt|Hge].
    + rewrite Z.div_small, Z.mod_small by lia. exists [], c, l. rewrite Z.sub_0_r. done.
    + destruct (layout_cons _ _ _ Hl) as [[_ ?]|(Hc & ? & Ht)]; [lia|].
      destruct (IH _ (offset - zlen c) Ht ltac:(lia)) as (pre & c' & l' & -> & Hcat & Hpre & Hl').
      rewrite Hc in *. replace (offset - CHUNK) with (offset + (-1) * CHUNK) in * by lia.
      rewrite Z.div_add, Z_mod_plus_full in * by lia.
      exists (c ++ pre), c', l'. split_and!; [done|by cbn [concat] in *; rewrite Hcat, app_assoc|rewrite zlen_app; lia|].
      by replace (size - offset / CHUNK * CHUNK) with (size - CHUNK - (offset / CHUNK + -1) * CHUNK) by lia.
Qed.

Lemma skip_chunks_all : forall l size, layout l size -> skip_chunks l size = ([], 0).
Proof.
  induction l as [|c l IH]; intros size Hl.
  - destruct (layout_concat _ _ Hl) as [H0 _]. unfold zlen in H0. cbn in H0. destruct (la_size _ _ Hl); lia.
  - cbn [skip_chunks]. destruct (layout_cons _ _ _ Hl) as [[-> Hc]|(Hc & ? & Ht)]; rewrite Hc.
    + rewrite Z.ltb_irrefl, Z.sub_diag. done.
    + destruct (Z.ltb_spec size CHUNK); [lia|]. by apply IH.
Qed.

(** A value of one chunk. *)
Lemma stream_one_chunk l b offset length :
  layout l (zlen b) -> concat l = b -> 0 <= offset -> 0 <= length -> offset + length <= zlen b -> zlen b <= CHUNK ->
  let s := ChunkSequence (zlen l) (Some l) (zlen b) in
    (data ← (if (zlen l =? 1) && (u64 (zlen b + 32) <=? NETWORK_CHANNEL_MAX_PACKET_SIZE)
             then module_redis_command_stream_entry_range_with_one_chunk s offset length
             else module_redis_command_stream_entry_range_with_multiple_chunks s offset length);
     Some (Some data)) =
      if decide (range_fits (zlen b) offset length) then Some (Some (slice b offset length)) else None.
Proof.
  intros Hl Hcat Ho Hlen Hle Hsmall s. subst s.
  assert (CHUNK = 65535) as HK by done. assert (NETWORK_CHANNEL_MAX_PACKET_SIZE = 32768) as HN by done.
  pose proof (la_size _ _ Hl) as Hsz. pose proof (la_count _ _ Hl) as Hn.
  pose proof (chunk_count_spec (zlen b) 1 ltac:(lia) ltac:(lia)) as H1.
  pose proof (chunk_count_spec (zlen b) 0 ltac:(lia) ltac:(lia)) as H0. rewrite <- Hn in H0, H1.
  pose proof (range_fits_small (zlen b) offset length Hsmall) as Hrf. 
  assert (zlen l = 1) as Hl1 by lia. destruct l as [|c [|c' l']]; try (unfold zlen in Hl1; cbn in Hl1; lia).
  cbn [concat] in Hcat. rewrite app_nil_r in Hcat. subst c. rewrite Hl1. cbn [Z.eqb Pos.eqb andb]. rewrite wrap_small by mach_lia.
  destruct (Z.leb_spec (zlen b + 32) NETWORK_CHANNEL_MAX_PACKET_SIZE) as [Hpk|Hpk].
  + rewrite decide_True by (apply Hrf; lia). unfold module_redis_command_stream_entry_range_with_one_chunk. cbn [seq_count].
    rewrite wrap_small by mach_lia. destruct (Z.leb_spec (length + 32) NETWORK_CHANNEL_MAX_PACKET_SIZE); [|lia].
    cbn [Z.eqb Pos.eqb andb check mbind option_bind storage_db_chunk_sequence_get seq_count seq_sequence].
    change (1 <=? 0) with false. cbn iota. change (zget [b] 0) with (Some b). cbn [mbind option_bind].
    unfold storage_db_chunk_read, chunk_slice. rewrite wrap_small by mach_lia.
    destruct (Z.leb_spec (offset + length) (zlen b)), (Z.leb_spec 0 offset), (Z.leb_spec 0 length); try lia. done.
  + unfold module_redis_command_stream_entry_range_with_multiple_chunks. cbn [seq_count].
    rewrite wrap_small by mach_lia. change (1 <? 1) with false. cbn [orb].
    destruct (Z.ltb_spec NETWORK_CHANNEL_MAX_PACKET_SIZE (length + 32)).
    2:{ rewrite decide_False by (rewrite Hrf; lia). done. }
    rewrite decide_True by (apply Hrf; lia). cbn [check mbind option_bind]. unfold source_chunks.
    cbn [seq_count seq_sequence default from_option id]. change (take (Z.to_nat 1) [b]) with [b]. cbn [skip_chunks].
    destruct (Z.ltb_spec offset (zlen b)); [|lia]. cbn [send_chunks]. destruct (Z.ltb_spec 0 length); [|lia].
    destruct (Z.ltb_spec (zlen b) length); [lia|]. rewrite (wrap_small 64) by mach_lia.
    rewrite send_chunk_spec by lia. destruct (Z.leb_spec (length + offset) (zlen b)); [|lia].
    cbn [mbind option_bind]. rewrite Z.eqb_refl. cbn [check mbind option_bind]. rewrite app_nil_r.
    by replace (length + offset - offset) with length by lia.
Qed.

(** A value of more chunks. *)
Lemma stream_many_chunks l b offset length :
  layout l (zlen b) -> concat l = b -> 0 <= offset -> 0 <= length -> offset + length <= zlen b -> CHUNK < zlen b ->
  let s := ChunkSequence (zlen l) (Some l) (zlen b) in
    (data ← (if (zlen l =? 1) && (u64 (zlen b + 32) <=? NETWORK_CHANNEL_MAX_PACKET_SIZE)
             then module_redis_command_stream_entry_range_with_one_chunk s offset length
             else module_redis_command_stream_entry_range_with_multiple_chunks s offset length);
     Some (Some data)) =
      if decide (range_fits (zlen b) offset length) then Some (Some (slice b offset length)) else None.
Proof.
  intros Hl Hcat Ho Hlen Hle Hsmall s. subst s.
  assert (CHUNK = 65535) as HK by done. assert (NETWORK_CHANNEL_MAX_PACKET_SIZE = 32768) as HN by done.
  pose proof (la_size _ _ Hl) as Hsz. pose proof (la_count _ _ Hl) as Hn.
  pose proof (chunk_count_spec (zlen b) 1 ltac:(lia) ltac:(lia)) as H1.
  pose proof (chunk_count_spec (zlen b) 0 ltac:(lia) ltac:(lia)) as H0. rewrite <- Hn in H0, H1.
  pose proof (range_fits_big (zlen b) offset length Hsmall) as Hrf.
  destruct (Z.eqb_spec (zlen l) 1); [lia|]. cbn [andb].
  unfold module_redis_command_stream_entry_range_with_multiple_chunks. cbn [seq_count].
  destruct (Z.ltb_spec 1 (zlen l)); [|lia]. cbn [orb check mbind option_bind]. unfold source_chunks.
  cbn [seq_count seq_sequence default from_option id]. rewrite take_ge by (unfold zlen; lia).
  assert (slice b offset 0 = []) as Hnil by done.
  destruct (Z.eq_dec offset (zlen b)) as [->|Hob].
  { rewrite (skip_chunks_all _ _ Hl). cbn [send_chunks mbind option_bind].
    assert (length = 0) as -> by lia. pose proof (Z.mod_pos_bound (zlen b) CHUNK ltac:(lia)).
    rewrite Hnil. by rewrite decide_True by (apply Hrf; lia). }
  destruct (skip_chunks_spec _ _ offset Hl ltac:(lia)) as (pre & c & l' & -> & Hpre & Hlp & Hl').
  pose proof (Z.div_mod offset CHUNK ltac:(lia)). pose proof (Z.mod_pos_bound offset CHUNK ltac:(lia)).
  cbn [send_chunks]. destruct (Z.ltb_spec 0 length) as [Hpos|].
  2:{ assert (length = 0) as -> by lia. rewrite Hnil. by rewrite decide_True by (apply Hrf; lia). }
  pose proof (la_chunk _ _ Hl' 0 c eq_refl) as Hc. rewrite Z.mul_0_l, Z.sub_0_r in Hc.
  set (to_send := if zlen c <? length then zlen c else _).
  assert (to_send = if zlen c <? length then zlen c else length + offset `mod` CHUNK) as Ht
    by (unfold to_send; destruct (Z.ltb_spec (zlen c) length); [lia|rewrite wrap_small by mach_lia; lia]).
  clearbody to_send. rewrite send_chunk_spec by (destruct (Z.ltb_spec (zlen c) length); lia).
  destruct (Z.leb_spec to_send (zlen c)) as [Hfit|Hfit].
  2:{ rewrite decide_False; [done|]. rewrite Hrf. destruct (Z.ltb_spec (zlen c) length); lia. }
  rewrite decide_True by (apply Hrf; destruct (Z.ltb_spec (zlen c) length); lia). cbn [mbind option_bind].
  rewrite Z.eqb_refl. cbn [check mbind option_bind].
  set (rest := length - (to_send - offset `mod` CHUNK)).
  assert (send_chunks l' 0 rest = Some (take (Z.to_nat rest) (concat l'))) as ->.
  { destruct (layout_cons _ _ _ Hl') as [[-> _]|(Hc' & _ & Ht')]; [cbn [concat send_chunks]; by rewrite take_nil|].
    apply send_chunks_spec with (1 := Ht'). unfold rest. destruct (Z.ltb_spec (zlen c) length); lia. }
  cbn [mbind option_bind]. do 2 f_equal. rewrite <- Hcat, Hpre. cbn [concat].
  rewrite (slice_after pre (c ++ concat l') offset (offset `mod` CHUNK)) by lia.
  rewrite (slice_split c (concat l') _ to_send) by (try lia; destruct (Z.ltb_spec (zlen c) length); lia). done.
Qed.

Lemma stream_entry_range_spec s b offset length :
  stores s b -> 0 < zlen b -> 0 <= offset -> 0 <= length -> offset + length <= zlen b ->
  module_redis_command_stream_entry_range s offset length =
    if decide (range_fits (zlen b) offset length) then Some (Some (slice b offset length)) else None.
Proof.
  intros [Hs [[-> _]|(l & -> & Hl & Hcat)]] Hb Ho Hlen Hle; [by unfold zlen in Hb; cbn in Hb; lia|].
  assert (CHUNK = 65535) as HK by done. pose proof (la_size _ _ Hl).
  unfold module_redis_command_stream_entry_range. cbn [seq_size seq_count].
  rewrite (wrap_small 64 (offset + length)) by mach_lia. destruct (Z.ltb_spec (zlen b) (offset + length)); [lia|].
  destruct (Z.le_gt_cases (zlen b) CHUNK); [by apply stream_one_chunk|by apply stream_many_chunks].
Qed.

(** The bytes of a reply.  For every range of a value that is not empty, in
    any number of chunks, what is sent is exactly the range, when the value is
    in one small chunk, or the range is long, or it does not leave the chunk it
    starts in; otherwise an assert fails (a short range of a chunk that does
    not fit in a packet) or bytes past the end of the chunk are sent (a range
    shorter than a chunk that goes over its end).  A whole value is always
    sent right. *)
Theorem stream_entry_range_sends s b offset length :
  stores s b -> 0 < zlen b -> 0 <= offset -> 0 <= length -> offset + length <= zlen b ->
  module_redis_command_stream_entry_range s offset length =
    if decide (range_fits (zlen b) offset length) then Some (Some (slice b offset length)) else None.
Proof. apply stream_entry_range_spec. Qed.

Lemma stream_entry_range_sends_witness :
  module_redis_command_stream_entry_range (ChunkSequence 1 (Some [[1; 2; 3; 4]]) 4) 1 2 = Some (Some [2; 3]).
Proof.
  rewrite (stream_entry_range_sends (ChunkSequence 1 (Some [[1; 2; 3; 4]]) 4) [1; 2; 3; 4] 1 2) by (by try apply (stores_one [1; 2; 3; 4])).
  by vm_compute.
Defined.

End StorageDbChunks.
