(* ===== verification/StorageDbHeap.v ===== *)
(** * StorageDbHeap: the life of the entries

    The invariant of the heap of entries, the ring of the reusable ones and the
    list of the deleting ones, with respect to the entries in use (the live
    ones, reachable from the hashtable) and the readers that hold an entry; and
    the specification of every operation that changes them. *)

From stdpp Require Import gmap.
From S2P Require Import Prelude RingQueue EntryStatus StorageDb.

Module StorageDbHeap.
Import EntryStatus StorageDb.

(** The value and the expiry of a live entry. *)
Abbreviation live_map := (gmap Z (chunk_sequence * Z)).
(** The readers: who holds which entry, and the value it got. *)
Abbreviation holders := (list (Z * chunk_sequence)).

Definition readers_of (H : holders) (p : Z) : Z := zlen (filter (fun x => x.1 = p) H).

Lemma readers_of_cons x H p : readers_of (x :: H) p = (if decide (x.1 = p) then 1 else 0) + readers_of H p.
Proof. unfold readers_of. rewrite filter_cons. case_decide; [by rewrite zlen_cons|lia]. Qed.

Lemma readers_of_app H1 H2 p : readers_of (H1 ++ H2) p = readers_of H1 p + readers_of H2 p.
Proof. unfold readers_of. by rewrite filter_app, zlen_app. Qed.

Lemma readers_of_nonneg H p : 0 <= readers_of H p.
Proof. apply zlen_nonneg. Qed.

Lemma readers_of_elem H p v : (p, v) ∈ H -> 0 < readers_of H p.
Proof.
  intros Hin. assert ((p, v) ∈ filter (fun x : Z * chunk_sequence => x.1 = p) H) as Hf.
  { by apply list_elem_of_filter. }
  unfold readers_of, zlen. destruct (filter _ H); [by apply elem_of_nil in Hf|cbn; lia].
Qed.

Lemma readers_of_le H p : readers_of H p <= zlen H.
Proof. unfold readers_of, zlen. pose proof (length_filter (fun x : Z * chunk_sequence => x.1 = p) H). lia. Qed.

(** What the invariant says of an entry with [r] readers. *)
Definition entry_ok (e : entry_index) (r : Z) (d : bool) : Prop := holds (status e) r d.

(** A value an entry may have: the chunks are there exactly when it is not empty. *)
Definition value_wf (v : chunk_sequence) : Prop := 0 <= seq_size v /\ (seq_size v = 0 -> v = no_chunks).

Definition ring_of (db : storage_db) : list Z := RingQueue.contents 0 (deleted_entry_index_ring_buffer db).

Record heap_inv (db : storage_db) (L : live_map) (H : holders) : Prop := {
  hi_wf : RingQueue.wf (deleted_entry_index_ring_buffer db);
  hi_dom p : is_Some (heap db !! p) <->
    is_Some (L !! p) \/ p ∈ deleting_entry_index_list db \/ p ∈ ring_of db;
  hi_fresh p : is_Some (heap db !! p) -> 0 < p < heap_next db;
  hi_next : 0 < heap_next db;
  hi_nodup : NoDup (deleting_entry_index_list db ++ ring_of db);
  hi_disjoint p : is_Some (L !! p) -> p ∉ deleting_entry_index_list db ++ ring_of db;
  hi_live p v t : L !! p = Some (v, t) -> exists e, heap db !! p = Some e /\
    entry_ok e (readers_of H p) false /\ value e = v /\ expiry_time_ms e = t /\ value_wf v;
  hi_deleting p : p ∈ deleting_entry_index_list db -> exists e, heap db !! p = Some e /\
    entry_ok e (readers_of H p) true /\ value_wf (value e);
  hi_ring p : p ∈ ring_of db -> readers_of H p = 0 /\ exists e, heap db !! p = Some e /\
    entry_ok e 0 true /\ value e = no_chunks;
  hi_held p v : (p, v) ∈ H -> exists e, heap db !! p = Some e /\ value e = v
}.

(** What the operations on entries leave alone. *)
Definition same_rest (db db' : storage_db) : Prop :=
  hashtable db' = hashtable db /\ counters_global db' = counters_global db /\
  counters_per_db db' = counters_per_db db /\ counters_cells db' = counters_cells db /\
  snapshot db' = snapshot db /\ heap_next db <= heap_next db'.

Lemma same_rest_refl db : same_rest db db.
Proof. by split_and!. Qed.

Lemma same_rest_trans db1 db2 db3 : same_rest db1 db2 -> same_rest db2 db3 -> same_rest db1 db3.
Proof. intros (?&?&?&?&?&?) (?&?&?&?&?&?). split_and!; (congruence || lia). Qed.

(** ** Changing one entry *)

(** Replacing an entry whose status still counts its readers. *)
Lemma update_live db L H p e v t :
  heap_inv db L H -> is_Some (L !! p) -> entry_ok e (readers_of H p) false ->
  value e = v -> expiry_time_ms e = t -> value_wf v ->
  (forall w, (p, w) ∈ H -> v = w) ->
  heap_inv (update_entry db p e) (<[p := (v, t)]> L) H.
Proof.
  intros Hi Hp He Hv Ht Hwf Hh. pose proof (hi_disjoint _ _ _ Hi p Hp) as Hnot. rewrite elem_of_app in Hnot.
  split; cbn.
  - apply Hi.
  - intros q. rewrite !lookup_insert_is_Some'. unfold ring_of in *. cbn. rewrite (hi_dom _ _ _ Hi q). split.
    + naive_solver.
    + naive_solver.
  - intros q Hq%lookup_insert_is_Some'. apply (hi_fresh _ _ _ Hi).
    destruct Hq as [<-|Hq]; [|done]. apply (proj2 (hi_dom _ _ _ Hi p)). by left.
  - exact (hi_next _ _ _ Hi).
  - exact (hi_nodup _ _ _ Hi).
  - intros q Hq%lookup_insert_is_Some'. apply (hi_disjoint _ _ _ Hi). by destruct Hq as [<-|].
  - intros q w u. destruct (decide (q = p)) as [->|Hne].
    + rewrite !lookup_insert_eq. intros [= <- <-]. by exists e.
    + rewrite !lookup_insert_ne by done. apply Hi.
  - intros q Hq. rewrite lookup_insert_ne by (intros ->; tauto). by apply Hi.
  - intros q Hq. rewrite lookup_insert_ne by (intros ->; tauto). by apply Hi.
  - intros q w Hq. destruct (decide (q = p)) as [->|Hne].
    + rewrite lookup_insert_eq. exists e. split; [done|]. rewrite Hv. by apply Hh.
    + rewrite lookup_insert_ne by done. by eapply Hi.
Qed.

Lemma live_entry db L H p v t :
  heap_inv db L H -> L !! p = Some (v, t) -> exists e, heap db !! p = Some e /\
    entry_ok e (readers_of H p) false /\ value e = v /\ expiry_time_ms e = t /\ value_wf v /\
    forall w, (p, w) ∈ H -> v = w.
Proof.
  intros Hi Hp. destruct (hi_live _ _ _ Hi p v t Hp) as (e & He & Hok & Hv & Ht & Hwf).
  exists e. split_and!; try done. intros w Hw. destruct (hi_held _ _ _ Hi p w Hw) as (e' & He' & Hv').
  congruence.
Qed.

Lemma live_id (L : live_map) p a : L !! p = Some a -> <[p := a]> L = L.
Proof. apply insert_id. Qed.

Lemma touch_spec db L H p v t mono :
  heap_inv db L H -> L !! p = Some (v, t) ->
  exists db', storage_db_entry_index_touch db p mono = Some db' /\ heap_inv db' L H /\ same_rest db db' /\
    deleting_entry_index_list db' = deleting_entry_index_list db.
Proof.
  intros Hi Hp. destruct (live_entry _ _ _ _ _ _ Hi Hp) as (e & He & Hok & Hv & Ht & Hwf & Hh).
  unfold storage_db_entry_index_touch. rewrite He. cbn [mbind option_bind]. eexists. split; [done|].
  split; [|by split_and!]. rewrite <- (live_id L p (v, t) Hp). by eapply update_live.
Qed.
(** ** Readers *)

(** The status of an entry changes with its readers. *)
Lemma change_readers db L H H' p e0 e :
  heap_inv db L H -> heap db !! p = Some e0 -> p ∉ ring_of db ->
  value e = value e0 -> expiry_time_ms e = expiry_time_ms e0 ->
  (forall d, entry_ok e0 (readers_of H p) d -> entry_ok e (readers_of H' p) d) ->
  (forall q, q <> p -> readers_of H' q = readers_of H q) ->
  (forall x, x ∈ H' -> x ∈ H \/ x = (p, value e0)) ->
  heap_inv (update_entry db p e) L H'.
Proof.
  intros Hi Hp Hnr Hv Ht Hst Hr Hin. split; cbn.
  - apply Hi.
  - intros q. rewrite lookup_insert_is_Some'. rewrite <- (hi_dom _ _ _ Hi q). naive_solver.
  - intros q Hq%lookup_insert_is_Some'. apply (hi_fresh _ _ _ Hi). by destruct Hq as [<-|].
  - exact (hi_next _ _ _ Hi).
  - exact (hi_nodup _ _ _ Hi).
  - exact (hi_disjoint _ _ _ Hi).
  - intros q w u Hq. destruct (hi_live _ _ _ Hi q w u Hq) as (e' & He' & Hok & Hw & Hu & Hwf).
    destruct (decide (q = p)) as [->|Hne].
    + rewrite Hp in He'. injection He' as <-. rewrite lookup_insert_eq. exists e. split_and!; [done|auto|congruence..|done].
    + rewrite lookup_insert_ne, Hr by done. by exists e'.
  - intros q Hq. destruct (hi_deleting _ _ _ Hi q Hq) as (e' & He' & Hok & Hwf).
    destruct (decide (q = p)) as [->|Hne].
    + rewrite Hp in He'. injection He' as <-. rewrite lookup_insert_eq. exists e. by rewrite Hv; auto.
    + rewrite lookup_insert_ne, Hr by done. by exists e'.
  - intros q Hq. assert (q <> p) as Hne by (intros ->; done). rewrite lookup_insert_ne, Hr by done. by apply Hi.
  - intros q w Hq. destruct (decide (q = p)) as [->|Hne].
    + rewrite lookup_insert_eq. exists e. split; [done|]. rewrite Hv.
      apply Hin in Hq as [Hq|[= <-]]; [|done]. destruct (hi_held _ _ _ Hi p w Hq) as (e' & He' & Hw). congruence.
    + rewrite lookup_insert_ne by done. apply Hin in Hq as [Hq|[= -> ->]]; [|done]. by eapply Hi.
Qed.

Lemma increase_spec db L H p v t :
  heap_inv db L H -> L !! p = Some (v, t) -> zlen H < 2 ^ 31 - 1 ->
  exists db' w, increase_readers db p = Some (db', w) /\ deleted w = false /\
    (exists e, heap db' !! p = Some e /\ expiry_time_ms e = t /\ value e = v) /\
    heap_inv db' L ((p, v) :: H) /\ same_rest db db' /\
    deleting_entry_index_list db' = deleting_entry_index_list db.
Proof.
  intros Hi Hp Hlen. destruct (live_entry _ _ _ _ _ _ Hi Hp) as (e & He & Hok & Hv & Ht & _ & Hh).
  pose proof (readers_of_le H p). unfold increase_readers. rewrite He. cbn [mbind option_bind].
  destruct (increase_live _ _ Hok ltac:(lia)) as (w & Hw & Hw').
  rewrite Hw. cbn [mbind option_bind]. exists (update_entry db p (set_status e w)), w. split; [done|].
  split; [by destruct (holds_fields _ _ _ Hw') as (_ & ? & _)|]. split.
  { exists (set_status e w). cbn. by rewrite lookup_insert_eq. }
  split; [|by split_and!].
  apply (change_readers db L H _ p e); try done.
  - intros Hr. destruct (hi_disjoint _ _ _ Hi p ltac:(by eexists)). rewrite elem_of_app. by right.
  - intros d Hd. rewrite readers_of_cons, decide_True by done. cbn.
    destruct (holds_fields _ _ _ Hok) as (_ & Hd1 & _), (holds_fields _ _ _ Hd) as (_ & Hd2 & _).
    rewrite Z.add_comm. unfold entry_ok. cbn. congruence.
  - intros q Hq. rewrite readers_of_cons, decide_False by (cbn; congruence). lia.
  - intros x [->|Hx]%elem_of_cons; [right; by rewrite Hv|by left].
Qed.

Lemma decrease_spec db L H p v :
  heap_inv db L ((p, v) :: H) ->
  exists db', decrease_readers db p = Some db' /\ heap_inv db' L H /\ same_rest db db' /\
    deleting_entry_index_list db' = deleting_entry_index_list db.
Proof.
  intros Hi. destruct (hi_held _ _ _ Hi p v ltac:(left)) as (e & He & Hv).
  pose proof (readers_of_nonneg H p).
  assert (0 < readers_of ((p, v) :: H) p) as Hpos by (rewrite readers_of_cons, decide_True by done; lia).
  assert (p ∉ ring_of db) as Hnr.
  { intros Hr. destruct (hi_ring _ _ _ Hi p Hr). lia. }
  assert (exists d, entry_ok e (readers_of ((p, v) :: H) p) d) as [d Hd].
  { destruct (proj1 (hi_dom _ _ _ Hi p) ltac:(by eexists)) as [[[w u] Hl]|[Hl|?]]; [| |done].
    - destruct (hi_live _ _ _ Hi p w u Hl) as (e' & He' & Hok & _). exists false. congruence.
    - destruct (hi_deleting _ _ _ Hi p Hl) as (e' & He' & Hok & _). exists true. congruence. }
  unfold decrease_readers. rewrite He. cbn [mbind option_bind].
  destruct (decrease_ok _ _ _ Hd Hpos) as (w & old & Hw & Hw'). rewrite Hw. cbn [mbind option_bind].
  eexists. split; [done|]. split; [|by split_and!].
  assert (forall q, readers_of ((p, v) :: H) q = (if decide (p = q) then 1 else 0) + readers_of H q) as Hc.
  { intros q. by rewrite readers_of_cons. }
  apply (change_readers db L ((p, v) :: H) H p e); try done.
  - intros d' Hd'. unfold entry_ok in *. cbn.
    destruct (holds_fields _ _ _ Hd) as (_ & Hd1 & _), (holds_fields _ _ _ Hd') as (_ & Hd2 & _).
    rewrite Hc, decide_True in Hw' by done. replace (1 + readers_of H p - 1) with (readers_of H p) in Hw' by lia.
    congruence.
  - intros q Hq. rewrite Hc, decide_False by done. lia.
  - intros x Hx. left. by right.
Qed.

(** The order of the readers does not matter. *)
Lemma heap_inv_perm db L H H' : H ≡ₚ H' -> heap_inv db L H -> heap_inv db L H'.
Proof.
  intros Hp Hi. assert (forall q, readers_of H' q = readers_of H q) as Hr.
  { intros q. unfold readers_of, zlen. by rewrite Hp. }
  destruct Hi as [? ? ? ? ? ? Hl Hd Hg Hh]. split; try done.
  - intros q w u Hq. rewrite Hr. by apply Hl.
  - intros q Hq. rewrite Hr. by apply Hd.
  - intros q Hq. rewrite Hr. by apply Hg.
  - intros q w Hq. rewrite <- Hp in Hq. by eapply Hh.
Qed.

(** ** Deletion *)

Abbreviation deleting := deleting_entry_index_list.

Lemma heap_inv_deleting db L H D D' :
  D ≡ₚ D' -> heap_inv (with_deleting db D) L H -> heap_inv (with_deleting db D') L H.
Proof.
  intros Hp [? Hdom ? ? Hnd Hdis ? Hdel ? ?]. split; try done; unfold ring_of in *; cbn in *.
  - intros q. rewrite <- Hp. apply Hdom.
  - by rewrite <- Hp.
  - intros q Hq. rewrite <- Hp. by apply Hdis.
  - intros q Hq. rewrite <- Hp in Hq. by apply Hdel.
Qed.

Lemma with_deleting_same db : with_deleting db (deleting db) = db.
Proof. by destruct db. Qed.

Lemma chunks_free_eq db p e :
  heap db !! p = Some e -> value_wf (value e) ->
  storage_db_entry_index_chunks_free db p = Some (update_entry db p (set_value e no_chunks)).
Proof.
  intros He [Hs Hz]. unfold storage_db_entry_index_chunks_free. rewrite He. cbn [mbind option_bind].
  destruct (Z.ltb_spec 0 (seq_size (value e))); [done|]. f_equal.
  assert (set_value e no_chunks = e) as ->.
  { destruct e. unfold set_value. cbn in *. rewrite Hz by lia. done. }
  unfold update_entry, with_heap. rewrite insert_id by done. by destruct db.
Qed.

(** The entry that was live is marked and joins the deleting ones. *)
Lemma doom_spec db L H p e w v t :
  heap_inv db L H -> L !! p = Some (v, t) -> heap db !! p = Some e -> holds w (readers_of H p) true ->
  heap_inv (with_deleting (update_entry db p (set_status e w)) (p :: deleting db)) (delete p L) H.
Proof.
  intros Hi Hp He Hw. pose proof (hi_disjoint _ _ _ Hi p ltac:(by eexists)) as Hnot.
  pose proof Hnot as Hnot'. rewrite elem_of_app in Hnot'.
  destruct (live_entry _ _ _ _ _ _ Hi Hp) as (e' & He' & Hok & Hv & Ht & Hwf & Hh).
  rewrite He in He'. injection He' as <-. split; unfold ring_of in *; cbn.
  - apply Hi.
  - intros q. rewrite lookup_insert_is_Some', (hi_dom _ _ _ Hi q), elem_of_cons, lookup_delete_is_Some.
    unfold ring_of. destruct (decide (q = p)) as [->|]; naive_solver.
  - intros q Hq%lookup_insert_is_Some'. apply (hi_fresh _ _ _ Hi). by destruct Hq as [<-|].
  - exact (hi_next _ _ _ Hi).
  - constructor; [done|exact (hi_nodup _ _ _ Hi)].
  - intros q [Hne Hq]%lookup_delete_is_Some.
    rewrite not_elem_of_cons. split; [congruence|]. by apply (hi_disjoint _ _ _ Hi).
  - intros q u s [Hne Hq]%lookup_delete_Some. rewrite lookup_insert_ne by done. by apply (hi_live _ _ _ Hi).
  - intros q [->|Hq]%elem_of_cons.
    + exists (set_status e w). rewrite lookup_insert_eq. split_and!; [done|done|]. cbn. by rewrite Hv.
    + rewrite lookup_insert_ne by (intros ->; tauto). by apply (hi_deleting _ _ _ Hi).
  - intros q Hq. rewrite lookup_insert_ne by (intros ->; tauto). by apply (hi_ring _ _ _ Hi).
  - intros q u Hq. destruct (decide (q = p)) as [->|Hne].
    + exists (set_status e w). rewrite lookup_insert_eq. split; [done|]. cbn. rewrite Hv. by apply Hh.
    + rewrite lookup_insert_ne by done. by eapply (hi_held _ _ _ Hi).
Qed.

Lemma free_chunks_deleting db L H p e :
  heap_inv db L H -> p ∈ deleting db -> heap db !! p = Some e -> readers_of H p = 0 ->
  heap_inv (update_entry db p (set_value e no_chunks)) L H.
Proof.
  intros Hi Hp He Hr0.
  assert (p ∉ ring_of db) as Hnr.
  { intros Hr. pose proof (hi_nodup _ _ _ Hi) as Hnd. apply NoDup_app in Hnd as (_ & Hd & _). by eapply Hd. }
  assert (L !! p = None) as Hnl.
  { destruct (L !! p) as [a|] eqn:Hl; [|done]. destruct (hi_disjoint _ _ _ Hi p ltac:(by eexists)).
    rewrite elem_of_app. by left. }
  split; cbn.
  - apply Hi.
  - intros q. rewrite lookup_insert_is_Some'. rewrite <- (hi_dom _ _ _ Hi q). naive_solver.
  - intros q Hq%lookup_insert_is_Some'. apply (hi_fresh _ _ _ Hi). by destruct Hq as [<-|].
  - exact (hi_next _ _ _ Hi).
  - exact (hi_nodup _ _ _ Hi).
  - exact (hi_disjoint _ _ _ Hi).
  - intros q w u Hq. rewrite lookup_insert_ne by congruence. by apply (hi_live _ _ _ Hi).
  - intros q Hq. destruct (decide (q = p)) as [->|Hne].
    + destruct (hi_deleting _ _ _ Hi p Hp) as (e' & He' & Hok & _). rewrite He in He'. injection He' as <-.
      exists (set_value e no_chunks). by rewrite lookup_insert_eq.
    + rewrite lookup_insert_ne by done. by apply (hi_deleting _ _ _ Hi).
  - intros q Hq. rewrite lookup_insert_ne by (intros ->; done). by apply (hi_ring _ _ _ Hi).
  - intros q w Hq. rewrite lookup_insert_ne; [by eapply (hi_held _ _ _ Hi)|].
    intros ->. apply readers_of_elem in Hq. lia.
Qed.

(** The oldest entry of the ring is freed. *)
Lemma evict_spec db L H q R rb :
  heap_inv db L H -> ring_of db = q :: R -> RingQueue.wf rb -> RingQueue.contents 0 rb = R ->
  exists db', storage_db_entry_index_free (with_ring db rb) q = Some db' /\ heap_inv db' L H /\
    same_rest db db' /\ deleting db' = deleting db /\ heap db' = delete q (heap db) /\
    deleted_entry_index_ring_buffer db' = rb.
Proof.
  intros Hi Hring Hwf HR. destruct (hi_ring _ _ _ Hi q ltac:(rewrite Hring; left)) as (Hr0 & e & He & Hok & Hv).
  unfold storage_db_entry_index_free, storage_db_entry_index_chunks_free. cbn [heap with_ring].
  rewrite He. cbn [mbind option_bind]. rewrite Hv. cbn [seq_size no_chunks]. cbn [Z.ltb Z.compare].
  eexists. split; [done|]. split; [|by split_and!].
  pose proof (hi_nodup _ _ _ Hi) as Hnd. rewrite Hring in Hnd.
  assert ((q ∉ deleting db ++ R) /\ NoDup (deleting db ++ R)) as [Hnq Hnd'].
  { rewrite <- Permutation_middle in Hnd. by apply NoDup_cons in Hnd. }
  rewrite elem_of_app in Hnq.
  assert (L !! q = None) as Hnl.
  { destruct (L !! q) as [a|] eqn:Hl; [|done]. destruct (hi_disjoint _ _ _ Hi q ltac:(by eexists)).
    rewrite Hring, elem_of_app. right. left. }
  split; unfold ring_of; cbn; rewrite ?HR.
  - done.
  - intros x. rewrite lookup_delete_is_Some, (hi_dom _ _ _ Hi x), Hring, elem_of_cons.
    destruct (decide (x = q)) as [->|]; [|naive_solver]. rewrite Hnl.
    split; [naive_solver|]. intros [[? ?]|?]; [done|tauto].
  - intros x Hx%lookup_delete_is_Some. apply (hi_fresh _ _ _ Hi). by destruct Hx.
  - exact (hi_next _ _ _ Hi).
  - done.
  - intros x Hx Hin. apply (hi_disjoint _ _ _ Hi x Hx). rewrite Hring. set_solver.
  - intros x w u Hx. rewrite lookup_delete_ne by congruence. by apply (hi_live _ _ _ Hi).
  - intros x Hx. rewrite lookup_delete_ne by (intros ->; tauto). by apply (hi_deleting _ _ _ Hi).
  - intros x Hx. rewrite lookup_delete_ne by (intros ->; tauto). apply (hi_ring _ _ _ Hi). rewrite Hring. by right.
  - intros x w Hx. rewrite lookup_delete_ne; [by eapply (hi_held _ _ _ Hi)|].
    intros ->. apply readers_of_elem in Hx. lia.
Qed.

(** A deleting entry without chunks and readers goes to the ring. *)
Lemma push_spec db L H p e rb :
  heap_inv (with_deleting db (p :: deleting db)) L H -> heap db !! p = Some e -> value e = no_chunks ->
  readers_of H p = 0 ->
  RingQueue.enqueue (deleted_entry_index_ring_buffer db) p = (rb, true) ->
  heap_inv (with_ring db rb) L H.
Proof.
  intros Hi He Hv Hr0 Henq. pose proof (hi_wf _ _ _ Hi) as Hwf. cbn in Hwf.
  destruct (RingQueue.enqueue_spec 0 _ p rb true Hwf Henq) as (Hwf' & _ & _ & Hc). cbn in Hc.
  pose proof (hi_nodup _ _ _ Hi) as Hnd. unfold ring_of in Hnd. cbn in Hnd.
  destruct (hi_deleting _ _ _ Hi p ltac:(left)) as (e' & He' & Hok & _). cbn in He'.
  rewrite He in He'. injection He' as <-. rewrite Hr0 in Hok.
  assert (p ∉ deleting db) as Hnp.
  { apply NoDup_cons in Hnd as [Hn _]. rewrite elem_of_app in Hn. tauto. }
  split; unfold ring_of; cbn; rewrite ?Hc.
  - done.
  - intros x. rewrite (hi_dom _ _ _ Hi x). unfold ring_of. cbn. rewrite elem_of_cons, elem_of_app, list_elem_of_singleton.
    naive_solver.
  - exact (hi_fresh _ _ _ Hi).
  - exact (hi_next _ _ _ Hi).
  - rewrite app_assoc, <- Permutation_cons_append. done.
  - intros x Hx. pose proof (hi_disjoint _ _ _ Hi x Hx) as Hd. unfold ring_of in Hd. cbn in Hd. set_solver.
  - exact (hi_live _ _ _ Hi).
  - intros x Hx. apply (hi_deleting _ _ _ Hi). by right.
  - intros x [Hx|Hx]%elem_of_app; [by apply (hi_ring _ _ _ Hi)|].
    apply list_elem_of_singleton in Hx as ->. split; [done|]. by exists e.
  - exact (hi_held _ _ _ Hi).
Qed.

Lemma enqueue_room (rb : RingQueue.ring Z) p :
  RingQueue.is_full rb = false -> exists rb', RingQueue.enqueue rb p = (rb', true).
Proof. intros Hf. unfold RingQueue.enqueue. rewrite Hf. by eexists. Qed.

(** The chunks of a deleting entry without readers are freed and the entry
    goes to the ring, the oldest entry of which is freed when it is full. *)
Lemma retire_spec db L H p e :
  heap_inv (with_deleting db (p :: deleting db)) L H -> heap db !! p = Some e -> readers_of H p = 0 ->
  exists db1 db', storage_db_entry_index_chunks_free db p = Some db1 /\
    storage_db_entry_index_ring_buffer_free db1 p = Some db' /\
    heap_inv db' L H /\ same_rest db db' /\ deleting db' = deleting db /\ is_Some (heap db' !! p).
Proof.
  intros Hi He Hr0.
  destruct (hi_deleting _ _ _ Hi p ltac:(left)) as (e' & He' & _ & Hwf). cbn in He'.
  rewrite He in He'. injection He' as <-. rewrite (chunks_free_eq db p e He Hwf).
  set (db1 := update_entry db p (set_value e no_chunks)). exists db1.
  assert (heap_inv (with_deleting db1 (p :: deleting db1)) L H) as Hi1.
  { exact (free_chunks_deleting _ L H p e Hi ltac:(left) He Hr0). }
  assert (heap db1 !! p = Some (set_value e no_chunks)) as He1 by (cbn; by rewrite lookup_insert_eq).
  pose proof (hi_wf _ _ _ Hi1) as Hrw. cbn in Hrw.
  unfold storage_db_entry_index_ring_buffer_free. change (deleted_entry_index_ring_buffer db1) with
    (deleted_entry_index_ring_buffer db).
  destruct (RingQueue.is_full (deleted_entry_index_ring_buffer db)) eqn:Hf.
  - destruct (RingQueue.dequeue_full 0 _ Hrw Hf) as (q & R & rb & Hring & Hdq & Hwf' & HR & Hnf).
    rewrite Hdq.
    destruct (evict_spec _ L H q R rb Hi1 Hring Hwf' HR) as (db2 & Hfree & Hi2 & Hrest2 & Hdel2 & Hh2 & Hrb2).
    assert (exists db3, storage_db_entry_index_free (with_ring db1 rb) q = Some db3 /\
      db2 = with_deleting db3 (p :: deleting db1)) as (db3 & Hfree3 & ->).
    { clear - Hfree. unfold storage_db_entry_index_free, storage_db_entry_index_chunks_free in *.
      cbn [heap with_ring with_deleting] in *. destruct (heap db1 !! q) as [eq|]; [|done].
      cbn [mbind option_bind] in *. injection Hfree as <-. eexists. split; [done|].
      by destruct (0 <? seq_size (value eq)). }
    rewrite Hfree3. cbn [mbind option_bind]. cbn in Hrb2, Hh2.
    destruct (enqueue_room rb p Hnf) as [rb' Henq].
    rewrite Hrb2, Henq. cbn [check mbind option_bind]. eexists. split; [done|]. split; [done|].
    assert (deleting db3 = deleting db1 /\ same_rest db1 db3) as [Hd3 Hs3].
    { clear - Hfree3. unfold storage_db_entry_index_free, storage_db_entry_index_chunks_free in Hfree3.
      cbn [heap with_ring] in Hfree3. destruct (heap db1 !! q) as [eq|]; [|done].
      cbn [mbind option_bind] in Hfree3. injection Hfree3 as <-.
      destruct (0 <? seq_size (value eq)); by split; [|split_and!]. }
    assert (heap db3 !! p = Some (set_value e no_chunks)) as He3.
    { rewrite Hh2. rewrite lookup_delete_ne; [done|]. intros ->.
      pose proof (hi_nodup _ _ _ Hi1) as Hnd. unfold ring_of in Hnd. cbn in Hnd. rewrite Hring in Hnd.
      apply NoDup_cons in Hnd as [Hn _]. apply Hn. rewrite elem_of_app. right. left. }
    split; [|split; [|split]].
    + apply (push_spec db3 L H p (set_value e no_chunks)); [by rewrite Hd3|done|done|done|by rewrite Hrb2].
    + destruct Hs3 as (?&?&?&?&?&?). by split_and!.
    + done.
    + by eexists.
  - cbn [mbind option_bind]. destruct (enqueue_room _ p Hf) as [rb' Henq].
    change (deleted_entry_index_ring_buffer db1) with (deleted_entry_index_ring_buffer db).
    rewrite Henq. cbn [check mbind option_bind]. eexists. split; [done|]. split; [done|]. split; [|by split_and!].
    by apply (push_spec db1 L H p (set_value e no_chunks)).
Qed.

(** An entry that leaves the table: freed at once or left to the collection. *)
Definition left_behind (H : holders) (p : Z) : list Z := if readers_of H p =? 0 then [] else [p].

Lemma mark_spec db L H p v t :
  heap_inv db L H -> L !! p = Some (v, t) -> zlen (deleting db) < 999 ->
  exists db', storage_db_worker_mark_deleted_or_deleting_previous_entry_index db p = Some db' /\
    heap_inv db' (delete p L) H /\ same_rest db db' /\
    deleting db' = deleting db ++ left_behind H p /\ is_Some (heap db' !! p).
Proof.
  intros Hi Hp Hlen. destruct (live_entry _ _ _ _ _ _ Hi Hp) as (e & He & Hok & _).
  unfold storage_db_worker_mark_deleted_or_deleting_previous_entry_index, left_behind.
  rewrite He. cbn [mbind option_bind].
  destruct (set_deleted_ok _ _ _ Hok) as [Hw Hold].
  destruct (storage_db_entry_index_status_set_deleted (status e) true) as [w old]. cbn in Hw, Hold. rewrite Hold.
  pose proof (doom_spec db L H p e w v t Hi Hp He Hw) as Hd.
  set (db0 := update_entry db p (set_status e w)) in *.
  destruct (Z.eqb_spec (readers_of H p) 0) as [Hr|Hr].
  - destruct (retire_spec db0 (delete p L) H p (set_status e w) Hd) as (db1 & db' & Hf & Hr' & Hi' & Hs & Hdel & Hin);
      [cbn; by rewrite lookup_insert_eq|done|].
    rewrite Hf. cbn [mbind option_bind]. exists db'. split; [done|]. split; [done|]. split; [|split; [|done]].
    + destruct Hs as (?&?&?&?&?&?). by split_and!.
    + rewrite Hdel. by rewrite app_nil_r.
  - change (deleting_entry_index_list db0) with (deleting db). rewrite zlen_app. change (zlen [p]) with 1.
    destruct (Z.ltb_spec (zlen (deleting db) + 1) 1000); [|lia]. cbn [check mbind option_bind].
    eexists. split; [done|]. split; [|split; [by split_and!|]].
    + eapply heap_inv_deleting; [|exact Hd]. apply Permutation_cons_append.
    + split; [done|]. cbn. rewrite lookup_insert_eq. by eexists.
Qed.

(** The collection examines the first [n] items; the ones with readers stay. *)
Lemma collect_loop_spec L H n : forall db kept todo,
  heap_inv db L H -> deleting db = kept ++ todo ->
  exists db', collect_loop n db kept todo = Some db' /\ heap_inv db' L H /\ same_rest db db' /\
    deleting db' = kept ++ filter (fun p => readers_of H p <> 0) (take n todo) ++ drop n todo.
Proof.
  induction n as [|n IH]; intros db kept [|p todo] Hi Hd; cbn [collect_loop take drop];
    try (exists db; by split_and!).
  destruct (hi_deleting _ _ _ Hi p ltac:(rewrite Hd, elem_of_app; right; left)) as (e & He & Hok & _).
  rewrite He. cbn [mbind option_bind]. destruct (holds_fields _ _ _ Hok) as (Hrd & _). rewrite Hrd, filter_cons.
  destruct (Z.eqb_spec (readers_of H p) 0) as [Hr|Hr].
  - rewrite decide_False by tauto.
    destruct (retire_spec (with_deleting db (kept ++ todo)) L H p e) as (db1 & db2 & Hf & Hr' & Hi' & Hs & Hdel & _);
      [|done|done|].
    { apply (heap_inv_deleting db L H (deleting db)); [|by rewrite with_deleting_same].
      by rewrite Hd, <- Permutation_middle. }
    rewrite Hf. cbn [mbind option_bind]. rewrite Hr'. cbn [mbind option_bind].
    destruct (IH db2 kept todo Hi' Hdel) as (db' & Hc & Hi2 & Hs2 & Hd2).
    exists db'. split_and!; try done. apply (same_rest_trans db db2); [|done].
    destruct Hs as (?&?&?&?&?&?). by split_and!.
  - rewrite decide_True by done. destruct (IH db (kept ++ [p]) todo Hi) as (db' & Hc & Hi2 & Hs2 & Hd2).
    { by rewrite Hd, <- app_assoc. }
    exists db'. split_and!; try done. by rewrite Hd2, <- app_assoc.
Qed.

Lemma collect_spec db L H :
  heap_inv db L H -> zlen (deleting db) <= 1000 ->
  exists db', storage_db_worker_garbage_collect_deleting_entry_index_when_no_readers db = Some db' /\
    heap_inv db' L H /\ same_rest db db' /\
    deleting db' = filter (fun p => readers_of H p <> 0) (deleting db).
Proof.
  intros Hi Hlen. unfold storage_db_worker_garbage_collect_deleting_entry_index_when_no_readers.
  destruct (collect_loop_spec L H (Z.to_nat (1000 + (if 1000 <? zlen (deleting db) then zlen (deleting db) / 25 else 0)))
    db [] (deleting db) Hi eq_refl) as (db' & Hc & Hi' & Hs & Hd).
  exists db'. split_and!; try done. rewrite Hd. cbn [app].
  destruct (Z.ltb_spec 1000 (zlen (deleting db))); [lia|].
  unfold zlen in *. rewrite take_ge, drop_ge by lia. by rewrite app_nil_r.
Qed.

(** ** A new entry *)

Lemma readers_of_none H p : (forall v, (p, v) ∉ H) -> readers_of H p = 0.
Proof.
  intros Hn. unfold readers_of, zlen. destruct (filter _ H) as [|[q v] F] eqn:HF; [done|].
  assert ((q, v) ∈ filter (fun x : Z * chunk_sequence => x.1 = p) H) as Hin by (rewrite HF; left).
  apply list_elem_of_filter in Hin as [Hq Hin]. cbn in Hq. subst q. by destruct (Hn v).
Qed.

Lemma readers_of_in H p : readers_of H p <> 0 <-> p ∈ H.*1.
Proof.
  rewrite list_elem_of_fmap. split.
  - intros Hr. destruct (decide (Exists (fun x => x.1 = p) H)) as [Hex|Hex].
    + apply Exists_exists in Hex as (x & Hx & <-). by exists x.
    + destruct Hr. apply readers_of_none. intros v Hv. apply Hex, Exists_exists. by exists (p, v).
  - intros ([q v] & -> & Hv). apply readers_of_elem in Hv. cbn. lia.
Qed.

(** An address that is not in use, fresh or the head of the ring, gets a live
    entry without value. *)
Lemma adopt db L H p e rb nx :
  heap_inv db L H -> RingQueue.wf rb -> NoDup (p :: deleting db ++ RingQueue.contents 0 rb) ->
  (forall x, x <> p -> x ∈ ring_of db <-> x ∈ RingQueue.contents 0 rb) ->
  L !! p = None -> readers_of H p = 0 -> 0 < p < nx -> heap_next db <= nx -> entry_ok e 0 false ->
  value e = no_chunks ->
  heap_inv (with_next (update_entry (with_ring db rb) p e) nx) (<[p := (no_chunks, expiry_time_ms e)]> L) H.
Proof.
  intros Hi Hwf [Hnp Hnd]%NoDup_cons Hring HL Hr Hp Hnx Hok Hv. rewrite elem_of_app in Hnp.
  assert (forall x, is_Some (L !! x) -> x <> p) as HLp by (intros x Hx ->; rewrite HL in Hx; by destruct Hx).
  split; unfold ring_of; cbn.
  - done.
  - intros x. rewrite !lookup_insert_is_Some', (hi_dom _ _ _ Hi x).
    destruct (decide (x = p)) as [->|Hne]; [tauto|]. rewrite (Hring x Hne). naive_solver.
  - intros x [<-|Hx]%lookup_insert_is_Some'; [done|]. pose proof (hi_fresh _ _ _ Hi x Hx). lia.
  - lia.
  - done.
  - intros x Hx%lookup_insert_is_Some'. rewrite elem_of_app. destruct (decide (x = p)) as [->|Hne]; [done|].
    destruct Hx as [?|Hx]; [congruence|]. pose proof (hi_disjoint _ _ _ Hi x Hx) as Hd.
    rewrite elem_of_app in Hd. rewrite <- Hring by done. done.
  - intros x w u. destruct (decide (x = p)) as [->|Hne].
    + rewrite !lookup_insert_eq. intros [= <- <-]. exists e. by rewrite Hr.
    + rewrite !lookup_insert_ne by done. apply (hi_live _ _ _ Hi).
  - intros x Hx. rewrite lookup_insert_ne by (intros ->; tauto). by apply (hi_deleting _ _ _ Hi).
  - intros x Hx. assert (x <> p) as Hne by (intros ->; tauto). rewrite lookup_insert_ne by done.
    apply (hi_ring _ _ _ Hi). by apply Hring.
  - intros x w Hx. rewrite lookup_insert_ne; [by apply (hi_held _ _ _ Hi)|].
    intros ->. apply readers_of_elem in Hx. lia.
Qed.

Lemma fresh_unused db L H p :
  heap_inv db L H -> heap db !! p = None ->
  L !! p = None /\ (p ∉ deleting db) /\ (p ∉ ring_of db) /\ readers_of H p = 0.
Proof.
  intros Hi Hp. assert (~ is_Some (heap db !! p)) as Hn by (rewrite Hp; by intros [? ?]).
  rewrite (hi_dom _ _ _ Hi p) in Hn. split_and!; [|tauto..|].
  - destruct (L !! p) eqn:Hl; [|done]. destruct Hn. left. by eexists.
  - apply readers_of_none. intros v Hv. destruct (hi_held _ _ _ Hi p v Hv) as (e & He & _). congruence.
Qed.

Lemma ring_new_spec db L H mono :
  heap_inv db L H ->
  exists db' p t, storage_db_entry_index_ring_buffer_new db mono = Some (db', p) /\
    heap_inv db' (<[p := (no_chunks, t)]> L) H /\ same_rest db db' /\ deleting db' = deleting db /\
    L !! p = None /\ readers_of H p = 0 /\ 0 < p.
Proof.
  intros Hi. unfold storage_db_entry_index_ring_buffer_new.
  destruct (RingQueue.is_full (deleted_entry_index_ring_buffer db)) eqn:Hf.
  - destruct (RingQueue.dequeue_full 0 _ (hi_wf _ _ _ Hi) Hf) as (p & R & rb & Hring & Hdq & Hwf' & HR & _).
    fold (ring_of db) in Hring. rewrite Hdq.
    destruct (hi_ring _ _ _ Hi p ltac:(rewrite Hring; left)) as (Hr & e & He & Hok & Hv).
    cbn [heap with_ring]. rewrite He. cbn [mbind option_bind]. cbn. rewrite lookup_insert_eq. cbn.
    pose proof (hi_fresh _ _ _ Hi p ltac:(by eexists)) as Hlt.
    assert (L !! p = None) as HL.
    { destruct (L !! p) as [a|] eqn:Hl; [|done]. destruct (hi_disjoint _ _ _ Hi p ltac:(by eexists)).
      rewrite Hring, elem_of_app. right. left. }
    eexists _, p, _. split; [done|]. split; [|split_and!; (done || lia)].
    unfold update_entry. cbn [heap with_ring with_heap]. rewrite insert_insert_eq.
    match goal with |- heap_inv (with_heap _ (<[p := ?e']> _)) _ _ =>
      apply (adopt db L H p e' rb (heap_next db)) end; try done.
    + pose proof (hi_nodup _ _ _ Hi) as Hnd. rewrite Hring in Hnd. rewrite HR.
      by rewrite <- Permutation_middle in Hnd.
    + intros x Hne. rewrite Hring, HR, elem_of_cons. tauto.
    + apply holds_zero.
  - cbn. rewrite lookup_insert_eq. cbn.
    assert (heap db !! heap_next db = None) as Hnone.
    { destruct (heap db !! heap_next db) as [e|] eqn:He; [|done].
      pose proof (hi_fresh _ _ _ Hi _ ltac:(by eexists)). lia. }
    destruct (fresh_unused db L H _ Hi Hnone) as (HL & Hnd & Hnr & Hr).
    eexists _, (heap_next db), 0. split; [done|]. split;
      [|pose proof (hi_next _ _ _ Hi); unfold same_rest; cbn; split_and!; (done || lia)].
    unfold update_entry. cbn [heap with_ring with_heap with_next]. rewrite insert_insert_eq.
    match goal with |- heap_inv (with_heap _ (<[_ := ?e']> _)) _ _ =>
      pose proof (adopt db L H (heap_next db) e' (deleted_entry_index_ring_buffer db) (heap_next db + 1)
        Hi (hi_wf _ _ _ Hi)) as Ha end.
    unfold with_ring, with_next, with_heap, update_entry in *. cbn in *. apply Ha; try done; try lia.
    + apply NoDup_cons. split; [rewrite elem_of_app; tauto|]. exact (hi_nodup _ _ _ Hi).
    + pose proof (hi_next _ _ _ Hi). lia.
    + apply holds_zero.
Qed.

(** An entry that could not be stored: its value is given back and it is freed. *)
Lemma drop_spec db L H p v t :
  heap_inv db (<[p := (v, t)]> L) H -> L !! p = None -> readers_of H p = 0 ->
  exists e db', heap db !! p = Some e /\
    storage_db_entry_index_free (update_entry db p (set_value e no_chunks)) p = Some db' /\
    heap_inv db' L H /\ same_rest db db' /\ deleting db' = deleting db.
Proof.
  intros Hi HL Hr. destruct (live_entry _ _ _ _ _ _ Hi (lookup_insert_eq _ _ _)) as (e & He & _).
  exists e. unfold storage_db_entry_index_free, storage_db_entry_index_chunks_free. cbn [heap update_entry with_heap].
  rewrite lookup_insert_eq. cbn [mbind option_bind value set_value seq_size no_chunks Z.ltb Z.compare].
  eexists. split; [done|]. split; [done|]. split; [|by split_and!].
  pose proof (hi_disjoint _ _ _ Hi p ltac:(rewrite lookup_insert_eq; by eexists)) as Hnot.
  rewrite elem_of_app in Hnot. cbn. rewrite delete_insert_eq.
  split; unfold ring_of in *; cbn.
  - apply Hi.
  - intros x. rewrite lookup_delete_is_Some, (hi_dom _ _ _ Hi x), lookup_insert_is_Some'. unfold ring_of.
    destruct (decide (x = p)) as [->|]; [|naive_solver]. rewrite HL. split; [naive_solver|].
    intros [[? ?]|?]; [done|tauto].
  - intros x [_ Hx]%lookup_delete_is_Some. by apply (hi_fresh _ _ _ Hi).
  - exact (hi_next _ _ _ Hi).
  - exact (hi_nodup _ _ _ Hi).
  - intros x Hx. apply (hi_disjoint _ _ _ Hi). apply lookup_insert_is_Some'. by right.
  - intros x w u Hx. assert (x <> p) as Hne by congruence. rewrite lookup_delete_ne by done.
    apply (hi_live _ _ _ Hi). by rewrite lookup_insert_ne.
  - intros x Hx. rewrite lookup_delete_ne by (intros ->; tauto). by apply (hi_deleting _ _ _ Hi).
  - intros x Hx. rewrite lookup_delete_ne by (intros ->; tauto). by apply (hi_ring _ _ _ Hi).
  - intros x w Hx. rewrite lookup_delete_ne; [by apply (hi_held _ _ _ Hi)|].
    intros <-. apply readers_of_elem in Hx. lia.
Qed.

(** ** A new database has no entries *)

Lemma heap_inv_empty d g t c s :
  heap_inv (Db d ∅ 1 (RingQueue.init 0 STORAGE_DB_WORKER_ENTRY_INDEX_RING_BUFFER_SIZE) [] g t c s) ∅ [].
Proof.
  split; unfold ring_of; cbn; rewrite ?RingQueue.init_contents.
  - by apply RingQueue.init_wf.
  - intros p. rewrite !lookup_empty, !elem_of_nil. split; [by intros [? ?]|]. by intros [[? ?]|[?|?]].
  - intros p. rewrite lookup_empty. by intros [? ?].
  - done.
  - constructor.
  - intros p. rewrite lookup_empty. by intros [? ?].
  - intros p v t'. by rewrite lookup_empty.
  - intros p Hp. by apply elem_of_nil in Hp.
  - intros p Hp. by apply elem_of_nil in Hp.
  - intros p v Hp. by apply elem_of_nil in Hp.
Qed.

End StorageDbHeap.
