(* ===== verification/StorageDbMap.v ===== *)
(** * StorageDbMap: the keys, their entries and the counters

    How the hashtable (key to address), the live entries (address to value) and
    the map of the database (key to value and expiry) are linked, and what the
    counters of the database count. *)

From stdpp Require Import gmap fin_maps.
From S2P Require Import Prelude RingQueue HashtableSpsc HashtableSpscSpec HashtableSpscRefine EntryStatus StorageDb StorageDbHeap.

Module StorageDbMap.
Import HashtableSpscSpec HashtableSpscRefine StorageDb StorageDbHeap.

Abbreviation db_key := (Z * list Z)%type.
(** The addresses of the entries in the hashtable. *)
Abbreviation address_map := (gmap db_key Z).
(** The database: the value and the expiry of every key. *)
Abbreviation value_map := (gmap db_key (chunk_sequence * Z)).

Implicit Types (P : address_map) (M : value_map) (L : live_map) (k : db_key).

Record links P L M : Prop := {
  lk_inj k k' p : P !! k = Some p -> P !! k' = Some p -> k = k';
  lk_value k p : P !! k = Some p -> exists a, L !! p = Some a /\ M !! k = Some a;
  lk_none k : P !! k = None -> M !! k = None;
  lk_onto p : is_Some (L !! p) -> exists k, P !! k = Some p
}.

Lemma links_empty : links ∅ ∅ ∅.
Proof. split; intros *; rewrite ?lookup_empty; (done || by intros [? ?]). Qed.

Lemma lk_is_Some P L M k : links P L M -> is_Some (P !! k) <-> is_Some (M !! k).
Proof.
  intros Hl. destruct (P !! k) as [p|] eqn:Hp.
  - destruct (lk_value _ _ _ Hl k p Hp) as (a & _ & ->). split; by eexists.
  - rewrite (lk_none _ _ _ Hl k Hp). done.
Qed.

Lemma links_size P L M : links P L M -> size P = size M.
Proof.
  intros Hl. rewrite <- !size_dom. f_equal. apply set_eq. intros k.
  rewrite !elem_of_dom. by eapply lk_is_Some.
Qed.

(** A key gets a new entry; the entry it had before is not live any more. *)
Definition replaced P k L : live_map := match P !! k with Some q => delete q L | None => L end.

Lemma links_insert P L M k p a :
  links P L M -> L !! p = None ->
  links (<[k := p]> P) (replaced P k (<[p := a]> L)) (<[k := a]> M).
Proof.
  intros Hl Hp.
  assert (forall k', P !! k' <> Some p) as Hnp.
  { intros k' Hk'. destruct (lk_value _ _ _ Hl k' p Hk') as (b & Hb & _). congruence. }
  assert (forall q b, q <> p -> (L !! q = Some b /\ P !! k <> Some q) ->
    replaced P k (<[p := a]> L) !! q = Some b) as Hkeep.
  { intros q b Hq [Hb Hn]. unfold replaced. destruct (P !! k) as [o|].
    - rewrite lookup_delete_ne, lookup_insert_ne by congruence. done.
    - by rewrite lookup_insert_ne. }
  split.
  - intros k1 k2 q. destruct (decide (k1 = k)) as [->|H1], (decide (k2 = k)) as [->|H2];
      rewrite ?lookup_insert_eq, ?lookup_insert_ne by done; try done.
    + intros [= <-] ?. by destruct (Hnp k2).
    + intros ? [= <-]. by destruct (Hnp k1).
    + apply (lk_inj _ _ _ Hl).
  - intros k1 q. destruct (decide (k1 = k)) as [->|H1]; rewrite ?lookup_insert_eq, ?lookup_insert_ne by done.
    + intros [= <-]. exists a. split; [|done]. unfold replaced. destruct (P !! k) as [o|] eqn:Ho.
      * rewrite lookup_delete_ne, lookup_insert_eq; [done|]. intros ->. by apply (Hnp k).
      * by rewrite lookup_insert_eq.
    + intros Hq. destruct (lk_value _ _ _ Hl k1 q Hq) as (b & Hb & Hm). exists b. split; [|done].
      apply Hkeep; [congruence|]. split; [done|]. intros Hk. apply H1. by eapply (lk_inj _ _ _ Hl).
  - intros k1. destruct (decide (k1 = k)) as [->|H1]; rewrite ?lookup_insert_eq, ?lookup_insert_ne by done; [done|].
    apply (lk_none _ _ _ Hl).
  - intros q Hq. destruct (decide (q = p)) as [->|Hne]; [exists k; by rewrite lookup_insert_eq|].
    assert (is_Some (L !! q) /\ P !! k <> Some q) as [Hlq Hkq].
    { unfold replaced in Hq. destruct (P !! k) as [o|].
      - apply lookup_delete_is_Some in Hq as [Ho Hq]. rewrite lookup_insert_ne in Hq by done.
        split; [done|]. congruence.
      - rewrite lookup_insert_ne in Hq by done. done. }
    destruct (lk_onto _ _ _ Hl q Hlq) as [k1 Hk1]. exists k1. rewrite lookup_insert_ne; [done|]. congruence.
Qed.

Lemma links_delete P L M k p :
  links P L M -> P !! k = Some p -> links (delete k P) (delete p L) (delete k M).
Proof.
  intros Hl Hp. split.
  - intros k1 k2 q [_ H1]%lookup_delete_Some [_ H2]%lookup_delete_Some. by eapply (lk_inj _ _ _ Hl).
  - intros k1 q [Hne Hq]%lookup_delete_Some. destruct (lk_value _ _ _ Hl k1 q Hq) as (b & Hb & Hm).
    exists b. rewrite !lookup_delete_ne; [done|done|]. intros <-. apply Hne. by eapply (lk_inj _ _ _ Hl).
  - intros k1 [->|Hn]%lookup_delete_None; [by rewrite lookup_delete_eq|].
    apply lookup_delete_None. right. by apply (lk_none _ _ _ Hl).
  - intros q [Hne Hq]%lookup_delete_is_Some. destruct (lk_onto _ _ _ Hl q Hq) as [k1 Hk1].
    exists k1. rewrite lookup_delete_ne; [done|]. congruence.
Qed.

Lemma links_update P L M k p a :
  links P L M -> P !! k = Some p -> links P (<[p := a]> L) (<[k := a]> M).
Proof.
  intros Hl Hp. split.
  - apply (lk_inj _ _ _ Hl).
  - intros k1 q Hq. destruct (decide (k1 = k)) as [->|Hne].
    + exists a. rewrite lookup_insert_eq. split; [|done]. assert (q = p) as -> by congruence. by rewrite lookup_insert_eq.
    + destruct (lk_value _ _ _ Hl k1 q Hq) as (b & Hb & Hm). exists b. rewrite !lookup_insert_ne; [done|done|].
      intros ->. apply Hne. by eapply (lk_inj _ _ _ Hl).
  - intros k1 Hn. rewrite lookup_insert_ne by congruence. by apply (lk_none _ _ _ Hl).
  - intros q [<-|Hq]%lookup_insert_is_Some'; [by exists k|]. by apply (lk_onto _ _ _ Hl).
Qed.

(** ** What the counters count *)

Definition total M : Z := map_fold (fun _ a n => seq_size a.1 + n) 0 M.

Definition size_at M k : Z := match M !! k with Some a => seq_size a.1 | None => 0 end.

Lemma total_insert_new M k a : M !! k = None -> total (<[k := a]> M) = seq_size a.1 + total M.
Proof. intros Hk. unfold total. rewrite map_fold_insert_L; [done| |done]. intros. lia. Qed.

Lemma total_delete M k : total (delete k M) = total M - size_at M k.
Proof.
  unfold size_at. destruct (M !! k) as [a|] eqn:Hk; [|rewrite delete_id by done; lia].
  rewrite <- (insert_delete_id M k a Hk) at 2. rewrite total_insert_new by apply lookup_delete_eq. lia.
Qed.

Lemma total_insert M k a : total (<[k := a]> M) = seq_size a.1 + total M - size_at M k.
Proof.
  rewrite <- insert_delete_eq, total_insert_new by apply lookup_delete_eq. rewrite total_delete. lia.
Qed.

Definition key_count M : Z := Z.of_nat (size M).

Lemma key_count_insert M k a : key_count (<[k := a]> M) = key_count M + match M !! k with Some _ => 0 | None => 1 end.
Proof.
  unfold key_count. destruct (M !! k) as [b|] eqn:Hk.
  - rewrite map_size_insert_Some by (by eexists). lia.
  - rewrite map_size_insert_None by done. lia.
Qed.

Lemma key_count_delete M k : is_Some (M !! k) -> key_count (delete k M) = key_count M - 1.
Proof.
  intros [a Hk]. unfold key_count. rewrite map_size_delete_Some by (by eexists).
  assert (size M <> 0)%nat; [|lia]. apply map_size_non_empty_iff. intros ->. done.
Qed.

(** The 64-bit signed counters count modulo 2^64. *)
Lemma i64_add_l a b : i64 (i64 a + b) = i64 (a + b).
Proof.
  unfold swrap. f_equal. change (64 - 1) with 63.
  replace ((a + 2 ^ 63) `mod` 2 ^ 64 - 2 ^ 63 + b + 2 ^ 63) with ((a + 2 ^ 63) `mod` 2 ^ 64 + b) by lia.
  rewrite Zplus_mod_idemp_l. f_equal. lia.
Qed.

Lemma i64_add_r a b : i64 (a + i64 b) = i64 (a + b).
Proof. by rewrite Z.add_comm, i64_add_l, Z.add_comm. Qed.

Definition counts (c : counters) M : Prop := keys_count c = i64 (key_count M) /\ data_size c = i64 (total M).

Lemma counts_insert c c' M k a ds :
  counts c M -> keys_count c' = i64 (keys_count c + match M !! k with Some _ => 0 | None => 1 end) ->
  data_size c' = i64 (data_size c + ds) -> ds = i64 (seq_size a.1) - size_at M k ->
  counts c' (<[k := a]> M).
Proof.
  intros [Hk Hd] Hk' Hd' ->. split.
  - by rewrite Hk', Hk, i64_add_l, key_count_insert.
  - rewrite Hd', Hd, i64_add_l, total_insert, Z.add_sub_assoc.
    replace (total M + i64 (seq_size a.1) - size_at M k) with ((total M - size_at M k) + i64 (seq_size a.1)) by lia.
    rewrite i64_add_r. f_equal. lia.
Qed.

Lemma counts_delete c c' M k :
  counts c M -> is_Some (M !! k) -> keys_count c' = i64 (keys_count c - 1) ->
  data_size c' = i64 (data_size c - size_at M k) -> counts c' (delete k M).
Proof.
  intros [Hk Hd] Hs Hk' Hd'. split.
  - rewrite Hk', Hk, key_count_delete by done. by rewrite <- !Z.add_opp_r, i64_add_l.
  - rewrite Hd', Hd, total_delete. by rewrite <- !Z.add_opp_r, i64_add_l.
Qed.

(** A new expiry does not count. *)
Lemma counts_expiry c M k v t t' : counts c M -> M !! k = Some (v, t) -> counts c (<[k := (v, t')]> M).
Proof.
  intros [Hk Hd] Hm. unfold counts. rewrite key_count_insert, total_insert, Hk, Hd, Hm.
  unfold size_at. rewrite Hm. cbn. split; f_equal; lia.
Qed.

(** ** The counters are updated *)

(** The hashtable of the counters of the databases is well formed and its
    values are addresses of counters. *)
Definition per_db_ok (db : storage_db) : Prop :=
  exists p (g : gmap Z (u32_key * Z)) m, spsc_inv (counters_per_db db) p g /\ stands_for g m /\
    forall c v, m !! c = Some v -> 0 < v /\ is_Some (counters_cells db !! v).

(** The state but the counters and the addresses given out. *)
Definition same_heap (db db' : storage_db) : Prop :=
  hashtable db' = hashtable db /\ heap db' = heap db /\
  deleted_entry_index_ring_buffer db' = deleted_entry_index_ring_buffer db /\
  deleting_entry_index_list db' = deleting_entry_index_list db /\ snapshot db' = snapshot db /\
  heap_next db <= heap_next db'.

Lemma heap_inv_same_heap db db' L H : same_heap db db' -> heap_inv db L H -> heap_inv db' L H.
Proof.
  intros (_ & Hh & Hr & Hd & _ & Hn) Hi. destruct Hi as [? ? Hf ? ? ? ? ? ? ?].
  split; unfold ring_of in *; rewrite ?Hh, ?Hr, ?Hd; try done; [|lia].
  intros p Hp. specialize (Hf p Hp). lia.
Qed.

Lemma counters_update_spec db n f :
  per_db_ok db -> 0 < heap_next db -> 0 <= n < 2 ^ 32 ->
  exists db', STORAGE_DB_COUNTERS_UPDATE db n f = Some db' /\ counters_global db' = f (counters_global db) /\
    per_db_ok db' /\ same_heap db db'.
Proof.
  intros (p & g & m & Hi & Hst & Hcells) Hnext Hn.
  assert (sk_wf (U32Key n n)) as Hwf by exact Hn.
  unfold STORAGE_DB_COUNTERS_UPDATE, storage_db_counters_per_thread_get_or_create. cbn [counters_per_db with_counters].
  pose proof (sk_get_spec _ p g m (U32Key n n) Hi Hst Hwf) as Hget. cbn [sk_get spsc_uint32 uk_hash uk_key] in Hget.
  rewrite Hget. cbn [mbind option_bind].
  destruct (m !! sk_canon (U32Key n n)) as [v|] eqn:Hm; cbn [default from_option id].
  - destruct (Hcells _ _ Hm) as [Hv [c Hc]]. destruct (Z.eqb_spec v 0); [lia|].
    cbn [mbind option_bind counters_cells with_counters]. rewrite Hc. cbn [mbind option_bind].
    eexists. split; [done|]. split; [done|]. split; [|unfold same_heap; cbn; split_and!; (done || lia)].
    exists p, g, m. split_and!; try done. intros c' v' Hv'. destruct (Hcells _ _ Hv'). split; [done|].
    cbn. apply lookup_insert_is_Some'. by right.
  - cbn [Z.eqb heap_next counters_cells counters_per_db counters_global with_counters]. set (q := heap_next db) in *.
    assert (forall (m' : gmap (Z * Z) Z) x, (forall c v, m' !! c = Some v -> v = q \/ m !! c = Some v) ->
      forall c v, m' !! c = Some v -> 0 < v /\ is_Some (<[q := x]> (<[q := zero_counters]> (counters_cells db)) !! v)) as Hc.
    { intros m' x Hm' c v Hv. rewrite !lookup_insert_is_Some'. destruct (Hm' c v Hv) as [->|Hv']; [tauto|].
      destruct (Hcells _ _ Hv'). tauto. }
    destruct (sk_set_spec _ p g m (U32Key n n) q Hi Hst Hwf) as
      [(i & Hset & Hi' & Hst')|(Hset & _ & _)]; cbn [sk_set spsc_uint32 uk_hash uk_key] in Hset; rewrite Hset;
      cbn [mbind option_bind counters_cells with_counters with_next]; rewrite lookup_insert_eq; cbn [mbind option_bind].
    + eexists. split; [done|]. split; [done|]. split; [|unfold same_heap; cbn; split_and!; (done || lia)].
      eexists p, _, _. split; [exact Hi'|]. split; [exact Hst'|]. cbn. apply Hc.
      intros c v [[<- <-]|[_ Hv]]%lookup_insert_Some; [by left|by right].
    + eexists. split; [done|]. split; [done|]. split; [|unfold same_heap; cbn; split_and!; (done || lia)].
      exists p, g, m. split_and!; try done. cbn. apply Hc. by right.
Qed.

End StorageDbMap.
