(* ===== verification/StorageDbOps.v ===== *)
(** * StorageDbOps: the operations of the database

    What every operation of [StorageDb] does to the map of the database, with
    the invariant that links the hashtable, the entries and the counters.  The
    operations run in a transaction that has no lock yet. *)

From stdpp Require Import gmap fin_maps.
From S2P Require Import Prelude Transaction HashtableMcmp HashtableMcmpLemmas HashtableMcmpSpec HashtableMcmpRefine EntryStatus StorageDb StorageDbHeap StorageDbMap.

Module StorageDbOps.
Import Transaction HashtableMcmp HashtableMcmpLemmas HashtableMcmpSpec HashtableMcmpRefine.
Import EntryStatus StorageDb StorageDbHeap StorageDbMap.

Section operations.
Context (hash_fn : Z -> list Z -> Z) (cfg : config).
Implicit Types (db : storage_db) (P : address_map) (M : value_map) (L : live_map) (H : holders).

(** The entries and the bookkeeping around them, with no snapshot in progress. *)
Record sound db L H : Prop := {
  so_heap : heap_inv db L H;
  so_per_db : per_db_ok db;
  so_snapshot : in_progress (snapshot db) = false
}.

(** The database stands for the map [M]. *)
Record db_inv db P L M H : Prop := {
  di_table : table_inv hash_fn None (hashtable db);
  di_represents : represents (hashtable db) P;
  di_sound : sound db L H;
  di_links : links P L M;
  di_counts : counts (counters_global db) M
}.

Lemma sound_with_table db d L H : sound db L H -> sound (with_table db d) L H.
Proof. intros [[] ? ?]. split; [by split|done|done]. Qed.

(** An operation on the entries leaves the rest alone. *)
Lemma sound_step db db' L L' H H' :
  sound db L H -> same_rest db db' -> heap_inv db' L' H' ->
  sound db' L' H' /\ hashtable db' = hashtable db /\ counters_global db' = counters_global db.
Proof.
  intros [_ (p & g & m & Hi & Hs & Hm) Hsn] (Ht & Hg & Hp & Hc & Hsn' & _) Hi'.
  split; [|done]. split; [done| |by rewrite Hsn']. exists p, g, m. by rewrite Hp, Hc.
Qed.

Lemma counters_step db n f L H :
  sound db L H -> 0 <= n < 2 ^ 32 ->
  exists db', STORAGE_DB_COUNTERS_UPDATE db n f = Some db' /\ sound db' L H /\
    counters_global db' = f (counters_global db) /\ hashtable db' = hashtable db /\
    deleting db' = deleting db /\ heap db' = heap db.
Proof.
  intros [Hi Hp Hsn] Hn.
  destruct (counters_update_spec db n f Hp (hi_next _ _ _ Hi) Hn) as (db' & Hu & Hg & Hp' & Hs).
  exists db'. pose proof (heap_inv_same_heap _ _ _ _ Hs Hi). destruct Hs as (? & ? & ? & ? & Hsn' & ?).
  split_and!; try done. split; [done|done|by rewrite Hsn'].
Qed.

(** The entry of a key. *)
Lemma entry_of_key db P L M H k p :
  heap_inv db L H -> links P L M -> P !! k = Some p ->
  0 < p /\ exists e v t, L !! p = Some (v, t) /\ M !! k = Some (v, t) /\ heap db !! p = Some e /\
    entry_ok e (readers_of H p) false /\ value e = v /\ expiry_time_ms e = t.
Proof.
  intros Hi Hl Hp. destruct (lk_value _ _ _ Hl k p Hp) as ([v t] & Hlp & Hm).
  destruct (live_entry _ _ _ _ _ _ Hi Hlp) as (e & He & Hok & Hv & Ht & _).
  split; [by apply (hi_fresh _ _ _ Hi p)|]. by exists e, v, t.
Qed.

(** ** A new entry with its value *)

Lemma fill_spec db L H p a database_number now v expiry :
  heap_inv db L H -> L !! p = Some a -> readers_of H p = 0 -> value_wf v ->
  exists db', fill_entry cfg db p database_number now v expiry = Some db' /\
    heap_inv db' (<[p := (v, enforce_ttl cfg now expiry)]> L) H /\ same_rest db db' /\
    deleting db' = deleting db.
Proof.
  intros Hi Hp Hr Hwf. destruct a as [w u]. destruct (live_entry _ _ _ _ _ _ Hi Hp) as (e & He & Hok & _).
  unfold fill_entry. rewrite He. cbn [mbind option_bind]. eexists. split; [done|]. split; [|by split_and!].
  apply (update_live db L H p _ v _ Hi); try done.
  intros x Hx%readers_of_elem. rewrite Hr in Hx. lia.
Qed.

Lemma new_entry_spec db L H database_number now mono v expiry :
  sound db L H -> value_wf v ->
  exists db1 db2 p, storage_db_entry_index_ring_buffer_new db mono = Some (db1, p) /\
    fill_entry cfg db1 p database_number now v expiry = Some db2 /\
    sound db2 (<[p := (v, enforce_ttl cfg now expiry)]> L) H /\ hashtable db2 = hashtable db /\
    counters_global db2 = counters_global db /\
    deleting db2 = deleting db /\ L !! p = None /\ readers_of H p = 0 /\ 0 < p.
Proof.
  intros Hs Hwf.
  destruct (ring_new_spec db L H mono (so_heap _ _ _ Hs)) as (db1 & p & t & H1 & Hi1 & Hs1 & Hd1 & HL & Hr & Hp).
  destruct (fill_spec db1 _ H p _ database_number now v expiry Hi1 (lookup_insert_eq _ _ _) Hr Hwf)
    as (db2 & H2 & Hi2 & Hs2 & Hd2). rewrite insert_insert_eq in Hi2.
  destruct (sound_step _ _ _ _ _ _ Hs (same_rest_trans _ _ _ Hs1 Hs2) Hi2) as (Hso & Ht & Hc).
  exists db1, db2, p. split_and!; try done. congruence.
Qed.

(** ** The entry a key had before *)

(** The previous entry is marked once the new one is in the table. *)
Lemma previous_spec db P L M H k q p a :
  heap_inv db (<[p := a]> L) H -> links P L M -> L !! p = None -> P !! k = Some q -> zlen (deleting db) < 999 ->
  0 < q /\ exists e db', heap db !! q = Some e /\ seq_size (value e) = size_at M k /\ is_Some (M !! k) /\
    storage_db_worker_mark_deleted_or_deleting_previous_entry_index db q = Some db' /\
    heap_inv db' (replaced P k (<[p := a]> L)) H /\ same_rest db db' /\
    zlen (deleting db') <= zlen (deleting db) + 1.
Proof.
  intros Hi Hl HL Hq Hlen. destruct (lk_value _ _ _ Hl k q Hq) as ([v t] & Hlq & Hm).
  assert (<[p := a]> L !! q = Some (v, t)) as Hlq' by (rewrite lookup_insert_ne; congruence).
  destruct (live_entry _ _ _ _ _ _ Hi Hlq') as (e & He & Hok & Hv & _).
  split; [by apply (hi_fresh _ _ _ Hi q)|].
  destruct (mark_spec _ _ _ _ _ _ Hi Hlq' Hlen) as (db' & Hmk & Hi' & Hs & Hd & _).
  exists e, db'. unfold size_at, replaced. rewrite Hm, Hq, Hv. split_and!; try done.
  rewrite Hd, zlen_app. unfold left_behind, zlen. case_match; cbn; lia.
Qed.

(** The counters after a key was stored, and after a change that does not
    concern the keys and their sizes. *)
Lemma stored_counts db n f P L M H k a :
  table_inv hash_fn None (hashtable db) -> represents (hashtable db) P -> sound db L H ->
  links P L (<[k := a]> M) -> counts (counters_global db) M -> 0 <= n < 2 ^ 32 ->
  keys_count (f (counters_global db)) =
    i64 (keys_count (counters_global db) + match M !! k with Some _ => 0 | None => 1 end) ->
  data_size (f (counters_global db)) = i64 (data_size (counters_global db) + (i64 (seq_size a.1) - size_at M k)) ->
  exists db', STORAGE_DB_COUNTERS_UPDATE db n f = Some db' /\ db_inv db' P L (<[k := a]> M) H /\
    hashtable db' = hashtable db /\ deleting db' = deleting db.
Proof.
  intros Ht Hr Hs Hl Hc Hn Hk Hd. destruct (counters_step db n f L H Hs Hn) as (db' & Hu & Hs' & Hg & Ht' & Hd' & _).
  exists db'. split_and!; try done. split; rewrite ?Ht'; try done.
  eapply counts_insert; [exact Hc| | |]; rewrite ?Hg; done.
Qed.

Lemma changed_counts db n f P L M H :
  db_inv db P L M H -> 0 <= n < 2 ^ 32 ->
  (forall c, keys_count (f c) = keys_count c /\ data_size (f c) = data_size c) ->
  exists db', STORAGE_DB_COUNTERS_UPDATE db n f = Some db' /\ db_inv db' P L M H /\
    hashtable db' = hashtable db /\ deleting db' = deleting db.
Proof.
  intros [Ht Hr Hs Hl Hc] Hn Hf. destruct (counters_step db n f L H Hs Hn) as (db' & Hu & Hs' & Hg & Ht' & Hd' & _).
  exists db'. split_and!; try done. split; rewrite ?Ht'; try done. rewrite Hg. unfold counts in *.
  destruct (Hf (counters_global db)) as [-> ->]. done.
Qed.

(** ** Set *)

Lemma set_entry_index_spec db tx P L M H now mono n k p v t :
  table_inv hash_fn None (hashtable db) -> represents (hashtable db) P ->
  sound db (<[p := (v, t)]> L) H -> links P L M -> L !! p = None -> counts (counters_global db) M ->
  good_key k -> 0 <= n < 2 ^ 32 -> solo (locks (hashtable db)) tx -> no_reads tx -> zlen (deleting db) < 999 ->
  exists db' tx' ok, storage_db_set_entry_index hash_fn db tx now mono n k p = Some (db', tx', ok) /\
    solo (locks (hashtable db')) tx' /\ zlen (deleting db') <= zlen (deleting db) + 1 /\
    if (ok : bool) then exists P' L', db_inv db' P' L' (<[(n, k) := (v, t)]> M) H
    else table_inv hash_fn None (hashtable db') /\ represents (hashtable db') P /\
      sound db' (<[p := (v, t)]> L) H /\ counts (counters_global db') M /\
      M !! (n, k) = None /\ 448 <= Z.of_nat (size M).
Proof.
  intros Ht Hrep Hso Hl HL Hc Hk Hn Hs Hno Hlen. unfold storage_db_set_entry_index.
  destruct (touch_spec db _ H p v t mono (so_heap _ _ _ Hso) (lookup_insert_eq _ _ _)) as (db1 & -> & Hi1 & Hs1 & Hd1).
  cbn [mbind option_bind].
  destruct (live_entry _ _ _ _ _ _ Hi1 (lookup_insert_eq _ _ _)) as (e & He & Hok & Hv & _).
  rewrite He. cbn [mbind option_bind]. destruct (holds_fields _ _ _ Hok) as (_ & -> & _). cbn [negb check mbind option_bind].
  destruct (sound_step _ _ _ _ _ _ Hso Hs1 Hi1) as (Hso1 & Ht1 & Hc1). rewrite Ht1.
  destruct (set_spec hash_fn (hashtable db) tx P n k p Ht Hrep Hk Hs Hno)
    as (d' & tx' & r & -> & _ & Hs' & _ & Ht' & Hr). cbn [mbind option_bind].
  pose proof (sound_with_table _ d' _ _ Hso1) as Hso2. rewrite <- Hc1 in Hc.
  destruct r as [res|].
  - destruct Hr as (Hrep' & -> & _).
    pose proof (links_insert P L M (n, k) p (v, t) Hl HL) as Hl'.
    destruct (P !! (n, k)) as [q|] eqn:Hq; cbn [default from_option id].
    + destruct (previous_spec (with_table db1 d') P L M H (n, k) q p (v, t) (so_heap _ _ _ Hso2) Hl HL Hq
        ltac:(cbn; by rewrite Hd1)) as (Hpos & eq & db3 & Heq & Hsz & [b HM] & Hmk & Hi3 & Hs3 & Hd3).
      destruct (sound_step _ _ _ _ _ _ Hso2 Hs3 Hi3) as (Hso3 & Ht3 & Hc3).
      destruct (Z.eqb_spec q 0); [lia|]. cbn [negb]. rewrite Heq. cbn [mbind option_bind].
      rewrite (so_snapshot _ _ _ Hso2). cbn [andb mbind option_bind]. rewrite Hmk. cbn [mbind option_bind].
      edestruct (stored_counts db3 n) as (db4 & -> & Hinv4 & Ht4 & Hd4);
        [by rewrite Ht3|by rewrite Ht3|exact Hso3|exact Hl'|by rewrite Hc3|done|cbn; by rewrite HM|
         cbn; by rewrite Hv, Hsz|]. cbn [mbind option_bind].
      edestruct (changed_counts db4 n) as (db5 & -> & Hinv5 & Ht5 & Hd5); [exact Hinv4|done|done|].
      cbn [mbind option_bind].
      eexists db5, tx', true. split; [done|]. rewrite Ht5, Ht4, Ht3. split; [done|].
      split; [rewrite Hd5, Hd4; cbn in Hd3; by rewrite <- Hd1|]. by eexists _, _.
    + cbn [Z.eqb negb mbind option_bind].
      assert (M !! (n, k) = None) as HM by (by apply (lk_none _ _ _ Hl)).
      unfold replaced in Hl'. rewrite Hq in Hl'.
      edestruct (stored_counts (with_table db1 d') n) as (db4 & -> & Hinv4 & Ht4 & Hd4);
        [exact Ht'|exact Hrep'|exact Hso2|exact Hl'|exact Hc|done|cbn; by rewrite HM|
         unfold size_at; rewrite HM, Z.sub_0_r; cbn; by rewrite Hv|]. cbn [mbind option_bind].
      edestruct (changed_counts db4 n) as (db5 & -> & Hinv5 & Ht5 & Hd5); [exact Hinv4|done|done|].
      cbn [mbind option_bind].
      eexists db5, tx', true. split; [done|]. rewrite Ht5, Ht4. split; [done|].
      split; [rewrite Hd5, Hd4; cbn; rewrite Hd1; lia|]. by eexists _, _.
  - destruct Hr as (Hrep' & HP & Hfull). cbn [mbind option_bind].
    edestruct (counters_step (with_table db1 d') n) as (db5 & -> & Hso5 & Hc5 & Ht5 & Hd5 & _); [exact Hso2|done|].
    cbn [mbind option_bind].
    eexists db5, tx', false. split; [done|]. rewrite Ht5. split; [done|].
    split; [rewrite Hd5; cbn; rewrite Hd1; lia|]. split_and!; try done.
    + by rewrite Hc5.
    + by apply (lk_none _ _ _ Hl).
    + by rewrite <- (links_size _ _ _ Hl).
Qed.

Lemma op_set_spec db tx P L M H now mono n k v expiry :
  db_inv db P L M H -> good_key k -> 0 <= n < 2 ^ 32 -> value_wf v ->
  solo (locks (hashtable db)) tx -> no_reads tx -> zlen (deleting db) < 999 ->
  exists db' tx' ok P' L', storage_db_op_set hash_fn cfg db tx now mono n k v expiry = Some (db', tx', ok) /\
    solo (locks (hashtable db')) tx' /\ zlen (deleting db') <= zlen (deleting db) + 1 /\
    if (ok : bool) then db_inv db' P' L' (<[(n, k) := (v, enforce_ttl cfg now expiry)]> M) H
    else db_inv db' P' L' M H /\ M !! (n, k) = None /\ 448 <= Z.of_nat (size M).
Proof.
  intros [Ht Hrep Hso Hl Hc] Hk Hn Hwf Hs Hno Hlen. unfold storage_db_op_set.
  destruct (new_entry_spec db L H n now mono v expiry Hso Hwf)
    as (db1 & db2 & p & -> & Hf & Hso2 & Ht2 & Hc2 & Hd2 & HL & Hr & Hp). cbn [mbind option_bind].
  rewrite Hf. cbn [mbind option_bind]. rewrite <- Ht2 in Ht, Hrep, Hs. rewrite <- Hc2 in Hc. rewrite <- Hd2 in Hlen |- *.
  destruct (set_entry_index_spec db2 tx P L M H now mono n k p v _ Ht Hrep Hso2 Hl HL Hc Hk Hn Hs Hno Hlen)
    as (db3 & tx' & ok & -> & Hs3 & Hd3 & Hok). cbn [mbind option_bind].
  destruct ok.
  - destruct Hok as (P' & L' & Hinv). by eexists db3, tx', true, P', L'.
  - destruct Hok as (Ht3 & Hrep3 & Hso3 & Hc3 & HM & Hfull).
    destruct (drop_spec db3 L H p _ _ (so_heap _ _ _ Hso3) HL Hr) as (e & db4 & He & Hfree & Hi4 & Hs4 & Hd4).
    destruct (sound_step _ _ _ _ _ _ Hso3 Hs4 Hi4) as (Hso4 & Ht4 & Hc4).
    rewrite He. cbn [mbind option_bind]. rewrite Hfree. cbn [mbind option_bind].
    eexists db4, tx', false, P, L. rewrite Ht4, Hd4. split_and!; try done.
    split; rewrite ?Ht4, ?Hc4; done.
Qed.

(** ** Delete *)

Lemma delete_current_exact db P L M H n k q :
  sound db L H -> links P L M -> counts (counters_global db) M -> P !! (n, k) = Some q ->
  0 <= n < 2 ^ 32 -> zlen (deleting db) < 999 ->
  0 < q /\ exists db', delete_current db n q = Some db' /\ sound db' (delete q L) H /\
    links (delete (n, k) P) (delete q L) (delete (n, k) M) /\
    counts (counters_global db') (delete (n, k) M) /\ hashtable db' = hashtable db /\
    deleting db' = deleting db ++ left_behind H q /\ is_Some (heap db' !! q).
Proof.
  intros Hso Hl Hc Hq Hn Hlen.
  destruct (entry_of_key _ _ _ _ _ _ _ (so_heap _ _ _ Hso) Hl Hq) as (Hpos & e & v & t & HL & HM & He & Hok & Hv & _).
  split; [done|]. unfold delete_current, value_size. rewrite He. cbn [mbind option_bind].
  edestruct (counters_step db n) as (db1 & -> & Hso1 & Hg1 & Ht1 & Hd1 & Hh1); [exact Hso|done|].
  cbn [mbind option_bind].
  destruct (mark_spec db1 L H q v t (so_heap _ _ _ Hso1) HL ltac:(by rewrite Hd1)) as (db2 & -> & Hi2 & Hs2 & Hd2 & Hin).
  destruct (sound_step _ _ _ _ _ _ Hso1 Hs2 Hi2) as (Hso2 & Ht2 & Hc2).
  exists db2. split_and!; try done.
  - by apply links_delete.
  - apply (counts_delete (counters_global db)); [done|by eexists|..]; rewrite Hc2, Hg1; cbn; [done|].
    unfold size_at. by rewrite HM, Hv.
  - by rewrite Ht2.
  - by rewrite Hd2, Hd1.
Qed.

Lemma delete_current_spec db P L M H n k q :
  sound db L H -> links P L M -> counts (counters_global db) M -> P !! (n, k) = Some q ->
  0 <= n < 2 ^ 32 -> zlen (deleting db) < 999 ->
  0 < q /\ exists db', delete_current db n q = Some db' /\ sound db' (delete q L) H /\
    links (delete (n, k) P) (delete q L) (delete (n, k) M) /\
    counts (counters_global db') (delete (n, k) M) /\ hashtable db' = hashtable db /\
    zlen (deleting db') <= zlen (deleting db) + 1.
Proof.
  intros Hso Hl Hc Hq Hn Hlen.
  destruct (delete_current_exact db P L M H n k q Hso Hl Hc Hq Hn Hlen) as (Hpos & db' & Hd & ? & ? & ? & ? & Hdel & _).
  split; [done|]. exists db'. split_and!; try done. rewrite Hdel, zlen_app. unfold left_behind, zlen. case_match; cbn; lia.
Qed.

Lemma op_delete_spec db tx P L M H n k :
  db_inv db P L M H -> good_key k -> 0 <= n < 2 ^ 32 -> solo (locks (hashtable db)) tx -> no_reads tx ->
  zlen (locks_list tx) + SEARCH_MAX < UINT16_MAX -> zlen (deleting db) < 999 ->
  exists db' tx' P' L', storage_db_op_delete hash_fn db tx n k = Some (db', tx', bool_decide (is_Some (M !! (n, k)))) /\
    solo (locks (hashtable db')) tx' /\ zlen (deleting db') <= zlen (deleting db) + 1 /\
    db_inv db' P' L' (delete (n, k) M) H.
Proof.
  intros [Ht Hrep Hso Hl Hc] Hk Hn Hs Hno Hlk Hlen. unfold storage_db_op_delete.
  destruct (delete_spec hash_fn (hashtable db) tx P n k Ht Hrep Hk Hs Hno Hlk)
    as (d' & tx' & -> & _ & Hs' & Ht' & Hrep'). cbn [mbind option_bind].
  pose proof (sound_with_table _ d' _ _ Hso) as Hso1.
  rewrite <- (bool_decide_ext _ _ (lk_is_Some P L M (n, k) Hl)).
  destruct (P !! (n, k)) as [q|] eqn:Hq.
  - destruct (delete_current_spec (with_table db d') P L M H n k q Hso1 Hl Hc Hq Hn Hlen)
      as (Hpos & db2 & Hdel & Hso2 & Hl2 & Hc2 & Ht2 & Hd2).
    destruct (Z.eqb_spec q 0); [lia|]. cbn [negb]. rewrite Hdel. cbn [mbind option_bind].
    eexists db2, tx', _, _. split; [done|]. rewrite Ht2. split_and!; try done.
    split; rewrite ?Ht2; try done.
  - cbn [mbind option_bind]. rewrite (delete_id P (n, k) Hq) in Hrep'.
    eexists (with_table db d'), tx', P, L. split; [done|]. split_and!; try done; [cbn; lia|].
    split; try done. all: by rewrite delete_id by (by apply (lk_none _ _ _ Hl)).
Qed.

(** ** Reading a key *)

Definition expired (now t : Z) : bool := (0 <? t) && (t <? now).

(** The value a reader or a read-modify-write gets: none when it is expired. *)
Definition visible (now : Z) M (k : db_key) : option chunk_sequence :=
  a ← M !! k; if expired now a.2 then None else Some a.1.

Lemma is_expired_eq now e t : expiry_time_ms e = t -> storage_db_entry_index_is_expired now e = expired now t.
Proof. by intros <-. Qed.

(** Operations on the entries keep the invariant of the database. *)
Lemma db_inv_step db db' P L M H H' :
  db_inv db P L M H -> same_rest db db' -> heap_inv db' L H' -> db_inv db' P L M H'.
Proof.
  intros [Ht Hrep Hso Hl Hc] Hs Hi. destruct (sound_step _ _ _ _ _ _ Hso Hs Hi) as (Hso' & Ht' & Hc').
  split; rewrite ?Ht', ?Hc'; done.
Qed.

Lemma db_inv_with_locks db ls P L M H :
  db_inv db P L M H -> zlen ls = zlen (locks (hashtable db)) ->
  db_inv (with_table db (with_locks (hashtable db) ls)) P L M H.
Proof.
  intros [Ht Hrep Hso Hl Hc] Hls. split; try done; [by apply inv_with_locks|by apply sound_with_table].
Qed.

Lemma get_entry_index_spec db tx P L M H mono n k :
  db_inv db P L M H -> good_key k -> solo (locks (hashtable db)) tx -> locks_list tx = [] ->
  exists db' tx', storage_db_get_entry_index hash_fn db tx mono n k = Some (db', tx', default 0 (P !! (n, k))) /\
    solo (locks (hashtable db')) tx' /\ deleting db' = deleting db /\ db_inv db' P L M H /\
    has_write (locks_list tx') (home hash_fn (hashtable db') n k) = false /\
    reads (locks_list tx') (home hash_fn (hashtable db') n k) = 1.
Proof.
  intros Hinv Hk Hs Hlk. pose proof Hinv as [Ht Hrep Hso Hl Hc]. unfold storage_db_get_entry_index.
  destruct (get_spec_map hash_fn (hashtable db) tx P n k Ht Hrep Hk Hs ltac:(by rewrite Hlk))
    as (ls' & tx' & -> & Hls & Hs' & Hw & Hr). cbn [mbind option_bind].
  rewrite Hlk in Hw, Hr. specialize (Hr eq_refl).
  pose proof (db_inv_with_locks _ _ _ _ _ _ Hinv Hls) as Hinv'.
  destruct (P !! (n, k)) as [p|] eqn:Hp; cbn [default from_option id].
  - destruct (entry_of_key _ _ _ _ _ _ _ (so_heap _ _ _ (di_sound _ _ _ _ _ Hinv')) Hl Hp)
      as (Hpos & e & v & t & HL & _).
    destruct (touch_spec _ L H p v t mono (so_heap _ _ _ (di_sound _ _ _ _ _ Hinv')) HL)
      as (db2 & Hto & Hi2 & Hs2 & Hd2).
    destruct (Z.eqb_spec p 0); [lia|]. cbn [negb]. rewrite Hto. cbn [mbind option_bind].
    exists db2, tx'. split; [done|].
    assert (hashtable db2 = with_locks (hashtable db) ls') as -> by (by destruct Hs2).
    split_and!; try done; [by eapply db_inv_step].
  - cbn [mbind option_bind]. eexists _, tx'. split; [done|]. split_and!; try done.
Qed.

Lemma get_for_read_spec db tx P L M H now mono n k :
  db_inv db P L M H -> good_key k -> solo (locks (hashtable db)) tx -> locks_list tx = [] ->
  zlen H < 2 ^ 31 - 1 ->
  exists db' tx' p, storage_db_get_entry_index_for_read hash_fn db tx now mono n k = Some (db', tx', p) /\
    solo (locks (hashtable db')) tx' /\ deleting db' = deleting db /\
    match visible now M (n, k) with
    | Some v => 0 < p /\ db_inv db' P L M ((p, v) :: H)
    | None => p = 0 /\ db_inv db' P L M H
    end.
Proof.
  intros Hinv Hk Hs Hlk Hlen. unfold storage_db_get_entry_index_for_read, visible.
  destruct (get_entry_index_spec db tx P L M H mono n k Hinv Hk Hs Hlk)
    as (db1 & tx1 & -> & Hs1 & Hd1 & Hinv1 & Hw1 & Hr1). cbn [mbind option_bind].
  pose proof Hinv1 as [Ht1 _ Hso1 Hl _].
  destruct (P !! (n, k)) as [p|] eqn:Hp; cbn [default from_option id].
  - destruct (entry_of_key _ _ _ _ _ _ _ (so_heap _ _ _ Hso1) Hl Hp) as (Hpos & _ & v & t & HL & HM & _).
    destruct (Z.eqb_spec p 0); [lia|]. cbn [negb]. rewrite HM. cbn [mbind option_bind fst snd].
    unfold storage_db_get_entry_index_for_read_prep.
    destruct (increase_spec db1 L H p v t (so_heap _ _ _ Hso1) HL Hlen)
      as (db2 & w & -> & Hw & (e & He & Het & Hev) & Hi2 & Hs2 & Hd2). cbn [mbind option_bind]. rewrite Hw, He.
    cbn [mbind option_bind]. rewrite (is_expired_eq now e t Het).
    destruct (expired now t).
    + destruct (decrease_spec db2 L H p v Hi2) as (db3 & -> & Hi3 & Hs3 & Hd3). cbn [mbind option_bind].
      unfold storage_db_op_rmw_begin.
      assert (hashtable db3 = hashtable db1) as Ht3.
      { destruct Hs3 as (-> & _), Hs2 as (-> & _). done. }
      rewrite (proj2 (Z.eqb_neq _ _) (proj1 (solo_held _ _ Hs1))). cbn [negb check mbind option_bind].
      rewrite Ht3, rmw_begin_blocked; [|exact (inv_shape _ _ _ Ht1)|done..|by rewrite Hr1].
      cbn [mbind option_bind]. eexists _, tx1, 0. split; [done|]. cbn. rewrite Hd3, Hd2. split_and!; try done.
      rewrite <- Ht3. assert (with_table db3 (hashtable db3) = db3) as -> by (by destruct db3).
      eapply db_inv_step; [exact Hinv1|by eapply same_rest_trans|done].
    + eexists db2, tx1, p. split; [done|]. destruct Hs2 as (Ht2 & Hs2). rewrite Ht2, Hd2.
      split_and!; try done. by eapply db_inv_step.
  - cbn [Z.eqb negb]. rewrite (lk_none _ _ _ Hl _ Hp). cbn [mbind option_bind]. by eexists db1, tx1, 0.
Qed.

(** ** Read-modify-write *)

(** The session opened by [storage_db_op_rmw_begin] on a key. *)
Record rmw_open db P L M H (n : Z) k now (st : storage_db_op_rmw_status) (p : Z) : Prop := {
  ro_session : rmw_session hash_fn (hashtable db) P n k (rmw_hashtable st) (P !! (n, k));
  ro_sound : sound db L H;
  ro_links : links P L M;
  ro_counts : counts (counters_global db) M;
  ro_entry : rmw_current_entry_index st = default 0 (P !! (n, k));
  ro_expired : delete_entry_index_on_abort st =
    match M !! (n, k) with Some a => expired now a.2 | None => false end;
  ro_current : p = if delete_entry_index_on_abort st then 0 else default 0 (P !! (n, k))
}.

Lemma op_rmw_begin_spec db tx P L M H now n k :
  db_inv db P L M H -> good_key k -> solo (locks (hashtable db)) tx -> no_reads tx ->
  exists db' tx' r, storage_db_op_rmw_begin hash_fn db tx now n k = Some (db', tx', r) /\
    solo (locks (hashtable db')) tx' /\ deleting db' = deleting db /\
    match r with
    | Some (st, p) => rmw_open db' P L M H n k now st p
    | None => db_inv db' P L M H /\ M !! (n, k) = None /\ 448 <= Z.of_nat (size M)
    end.
Proof.
  intros [Ht Hrep Hso Hl Hc] Hk Hs Hno. unfold storage_db_op_rmw_begin.
  rewrite (proj2 (Z.eqb_neq _ _) (proj1 (solo_held _ _ Hs))). cbn [negb check mbind option_bind].
  destruct (rmw_begin_spec hash_fn (hashtable db) tx P n k Ht Hrep Hk Hs Hno)
    as (d' & tx' & r & -> & _ & Hs' & _ & Hr). cbn [mbind option_bind].
  pose proof (sound_with_table _ d' _ _ Hso) as Hso'.
  destruct r as [[st current]|].
  - pose proof (rs_current _ _ _ _ _ _ _ Hr) as ->.
    destruct (P !! (n, k)) as [p|] eqn:Hp; cbn [default from_option id].
    + destruct (entry_of_key _ _ _ _ _ _ _ (so_heap _ _ _ Hso') Hl Hp)
        as (Hpos & e & v & t & HL & HM & He & Hok & Hv & Het).
      destruct (Z.eqb_spec p 0); [lia|]. rewrite He. cbn [mbind option_bind].
      rewrite (is_expired_eq now e t Het).
      eexists _, tx', _. split; [done|]. split_and!; try done.
      split; cbn; rewrite ?Hp, ?HM; done.
    + cbn [Z.eqb mbind option_bind]. eexists _, tx', _. split; [done|]. split_and!; try done.
      split; cbn; rewrite ?Hp, ?(lk_none _ _ _ Hl _ Hp); done.
  - destruct Hr as (Ht' & Hrep' & HP & Hfull). eexists _, tx', None. split; [done|]. split_and!; try done.
    + by apply (lk_none _ _ _ Hl).
    + by rewrite <- (links_size _ _ _ Hl).
Qed.

Lemma op_rmw_commit_update_spec db P L M H now mono n k st p v expiry :
  rmw_open db P L M H n k now st p -> 0 <= n < 2 ^ 32 -> value_wf v -> zlen (deleting db) < 999 ->
  exists db' P' L', storage_db_op_rmw_commit_update cfg db now mono st v expiry = Some db' /\
    db_inv db' P' L' (<[(n, k) := (v, enforce_ttl cfg now expiry)]> M) H /\
    locks (hashtable db') = locks (hashtable db) /\ zlen (deleting db') <= zlen (deleting db) + 1.
Proof.
  intros [Hses Hso Hl Hc Hent _ _] Hn Hwf Hlen. unfold storage_db_op_rmw_commit_update.
  rewrite (rs_db _ _ _ _ _ _ _ Hses), (rs_value _ _ _ _ _ _ _ Hses).
  destruct (new_entry_spec db L H n now mono v expiry Hso Hwf)
    as (db1 & db2 & p' & -> & Hf & Hso2 & Ht2 & Hc2 & Hd2 & HL & Hr & Hp'). cbn [mbind option_bind].
  rewrite Hf. cbn [mbind option_bind].
  destruct (touch_spec db2 _ H p' _ _ mono (so_heap _ _ _ Hso2) (lookup_insert_eq _ _ _)) as (db3 & -> & Hi3 & Hs3 & Hd3).
  cbn [mbind option_bind]. destruct (sound_step _ _ _ _ _ _ Hso2 Hs3 Hi3) as (Hso3 & Ht3 & Hc3).
  destruct (live_entry _ _ _ _ _ _ Hi3 (lookup_insert_eq _ _ _)) as (e & He & Hok & _).
  rewrite He. cbn [mbind option_bind]. destruct (holds_fields _ _ _ Hok) as (_ & -> & _).
  cbn [negb check mbind option_bind]. rewrite Ht3, Ht2.
  destruct (rs_finish _ _ _ _ _ _ _ Hses (RmwUpdate p')) as (d' & Hfin & Ht' & Hrep' & Hlk).
  cbn [rmw_finish apply_action] in Hfin, Hrep'. rewrite Hfin. cbn [mbind option_bind].
  pose proof (sound_with_table _ d' _ _ Hso3) as Hso4.
  pose proof (links_insert P L M (n, k) p' (v, enforce_ttl cfg now expiry) Hl HL) as Hl'.
  assert (deleting (with_table db3 d') = deleting db) as Hd4 by (cbn; congruence).
  destruct (P !! (n, k)) as [q|] eqn:Hq; cbn [default from_option id].
  - destruct (previous_spec (with_table db3 d') P L M H (n, k) q p' _ (so_heap _ _ _ Hso4) Hl HL Hq
      ltac:(by rewrite Hd4)) as (Hpos & eq & db5 & Heq & Hsz & [b HM] & Hmk & Hi5 & Hs5 & Hd5).
    destruct (sound_step _ _ _ _ _ _ Hso4 Hs5 Hi5) as (Hso5 & Ht5 & Hc5).
    destruct (Z.eqb_spec q 0); [lia|]. cbn [negb]. unfold value_size. rewrite Heq. cbn [mbind option_bind].
    rewrite Hmk. cbn [mbind option_bind].
    edestruct (stored_counts db5 n) as (db6 & -> & Hinv6 & Ht6 & Hd6);
      [by rewrite Ht5|by rewrite Ht5|exact Hso5|exact Hl'|by rewrite Hc5; cbn; rewrite Hc3, Hc2|done
      |cbn; by rewrite HM|cbn; by rewrite Hsz|].
    eexists db6, _, _. split; [done|]. split; [done|]. rewrite Ht6, Ht5, Hd6. split; [done|]. by rewrite <- Hd4.
  - cbn [Z.eqb negb mbind option_bind].
    assert (M !! (n, k) = None) as HM by (by apply (lk_none _ _ _ Hl)).
    unfold replaced in Hl'. rewrite Hq in Hl'.
    edestruct (stored_counts (with_table db3 d') n) as (db6 & -> & Hinv6 & Ht6 & Hd6);
      [exact Ht'|exact Hrep'|exact Hso4|exact Hl'|by cbn; rewrite Hc3, Hc2|done|cbn; by rewrite HM|
       unfold size_at; rewrite HM, Z.sub_0_r; done|].
    eexists db6, _, _. split; [done|]. split; [done|]. rewrite Ht6, Hd6, Hd4. split; [done|lia].
Qed.

(** The deletion needs the session on the hashtable only. *)
Lemma session_delete_spec db P L M H n k st :
  rmw_session hash_fn (hashtable db) P n k (rmw_hashtable st) (P !! (n, k)) ->
  sound db L H -> links P L M -> counts (counters_global db) M ->
  is_Some (M !! (n, k)) -> 0 <= n < 2 ^ 32 -> zlen (deleting db) < 999 ->
  exists db' P' L', storage_db_op_rmw_commit_delete db st = Some db' /\
    db_inv db' P' L' (delete (n, k) M) H /\
    locks (hashtable db') = locks (hashtable db) /\ zlen (deleting db') <= zlen (deleting db) + 1.
Proof.
  intros Hses Hso Hl Hc [q Hq]%(lk_is_Some P L M (n, k) Hl) Hn Hlen.
  assert (storage_db_op_rmw_commit_delete db st =
    (db ← delete_current db (rmw_database_number (rmw_hashtable st)) (rmw_current_value (rmw_hashtable st));
     d ← hashtable_mcmp_op_rmw_commit_delete (hashtable db) (rmw_hashtable st); Some (with_table db d))) as ->.
  { unfold storage_db_op_rmw_commit_delete, delete_current.
    destruct (value_size db _) as [m|]; [|done]. cbn [mbind option_bind].
    by destruct (STORAGE_DB_COUNTERS_UPDATE db _ _). }
  rewrite (rs_db _ _ _ _ _ _ _ Hses), (rs_value _ _ _ _ _ _ _ Hses), Hq. cbn [default from_option id].
  destruct (delete_current_spec db P L M H n k q Hso Hl Hc Hq Hn Hlen)
    as (Hpos & db1 & -> & Hso1 & Hl1 & Hc1 & Ht1 & Hd1). cbn [mbind option_bind]. rewrite Ht1.
  destruct (rs_finish _ _ _ _ _ _ _ Hses RmwDelete) as (d' & Hfin & Ht' & Hrep' & Hlk).
  cbn [rmw_finish apply_action] in Hfin, Hrep'. rewrite Hfin. cbn [mbind option_bind].
  eexists (with_table db1 d'), _, _. split; [done|]. split; [|done].
  split; try done. by apply sound_with_table.
Qed.

Lemma op_rmw_commit_delete_spec db P L M H now n k st p :
  rmw_open db P L M H n k now st p -> is_Some (M !! (n, k)) -> 0 <= n < 2 ^ 32 -> zlen (deleting db) < 999 ->
  exists db' P' L', storage_db_op_rmw_commit_delete db st = Some db' /\
    db_inv db' P' L' (delete (n, k) M) H /\
    locks (hashtable db') = locks (hashtable db) /\ zlen (deleting db') <= zlen (deleting db) + 1.
Proof. intros [? ? ? ? _ _ _]. by eapply session_delete_spec. Qed.

Lemma op_rmw_abort_spec db P L M H now n k st p :
  rmw_open db P L M H n k now st p -> 0 <= n < 2 ^ 32 -> zlen (deleting db) < 999 ->
  exists db' P' L', storage_db_op_rmw_abort db st = Some db' /\
    db_inv db' P' L' (if delete_entry_index_on_abort st then delete (n, k) M else M) H /\
    locks (hashtable db') = locks (hashtable db) /\ zlen (deleting db') <= zlen (deleting db) + 1.
Proof.
  intros Hop Hn Hlen. unfold storage_db_op_rmw_abort. pose proof (ro_expired _ _ _ _ _ _ _ _ _ _ Hop) as Hex.
  destruct (delete_entry_index_on_abort st).
  - apply (op_rmw_commit_delete_spec db P L M H now n k st p); try done.
    destruct (M !! (n, k)); [by eexists|done].
  - destruct Hop as [Hses Hso Hl Hc _ _ _].
    destruct (rs_finish _ _ _ _ _ _ _ Hses RmwAbort) as (d' & Hfin & Ht' & Hrep' & Hlk).
    cbn [rmw_finish apply_action] in Hfin, Hrep'. rewrite Hfin. cbn [mbind option_bind].
    eexists (with_table db d'), P, L. split; [done|]. split; [|split; [done|cbn; lia]].
    split; try done. by apply sound_with_table.
Qed.

(** The entry an open session shows. *)
Lemma session_entry db P L M H n k now st p v t :
  rmw_open db P L M H n k now st p -> M !! (n, k) = Some (v, t) -> expired now t = false ->
  0 < p /\ P !! (n, k) = Some p /\ delete_entry_index_on_abort st = false /\ L !! p = Some (v, t) /\
  exists e, heap db !! p = Some e /\ entry_ok e (readers_of H p) false /\ value e = v /\ expiry_time_ms e = t.
Proof.
  intros [Hses Hso Hl Hc Hent Hex Hcur] HM Ht. rewrite HM in Hex. cbn in Hex. rewrite Ht in Hex. rewrite Hex in Hcur.
  destruct (lk_is_Some P L M (n, k) Hl) as [_ [q Hq]]; [by eexists|]. rewrite Hq in Hcur |- *.
  cbn [default from_option id] in Hcur. subst p.
  destruct (entry_of_key _ _ _ _ _ _ _ (so_heap _ _ _ Hso) Hl Hq) as (Hpos & e & v' & u & HL & HM' & He & Hok & Hv & Hu).
  rewrite HM in HM'. injection HM' as <- <-. split_and!; try done. by exists e.
Qed.

(** A new expiry for the entry of the session, then the commit. *)
Lemma op_rmw_commit_metadata_spec db P L M H now mono n k st p v t t' :
  rmw_open db P L M H n k now st p -> M !! (n, k) = Some (v, t) -> expired now t = false ->
  exists e db', heap db !! p = Some e /\
    storage_db_op_rmw_commit_metadata (update_entry db p (set_expiry e t')) mono st = Some db' /\
    (exists L', db_inv db' P L' (<[(n, k) := (v, t')]> M) H) /\
    locks (hashtable db') = locks (hashtable db) /\ deleting db' = deleting db.
Proof.
  intros Hop HM Ht.
  destruct (session_entry _ _ _ _ _ _ _ _ _ _ _ _ Hop HM Ht) as (Hpos & Hq & Hex & HL & e & He & Hok & Hv & Hu).
  destruct Hop as [Hses Hso Hl Hc Hent _ Hcur]. rewrite Hq in Hent. cbn [default from_option id] in Hent. exists e.
  destruct (live_entry _ _ _ _ _ _ (so_heap _ _ _ Hso) HL) as (e' & He' & _ & _ & _ & Hwf & Hh).
  pose proof (update_live db L H p (set_expiry e t') v t' (so_heap _ _ _ Hso) ltac:(by eexists) Hok Hv eq_refl Hwf Hh) as Hi1.
  unfold storage_db_op_rmw_commit_metadata. rewrite Hent, Hex. destruct (Z.eqb_spec p 0); [lia|]. cbn [negb andb].
  destruct (touch_spec _ _ H p v t' mono Hi1 (lookup_insert_eq _ _ _)) as (db2 & -> & Hi2 & Hs2 & Hd2).
  cbn [mbind option_bind].
  destruct (sound_step _ _ _ _ _ _ Hso Hs2 Hi2) as (Hso2 & Ht2 & Hc2). rewrite Ht2.
  destruct (rs_finish _ _ _ _ _ _ _ Hses (RmwUpdate p)) as (d' & Hfin & Ht' & Hrep' & Hlk).
  cbn [rmw_finish apply_action] in Hfin, Hrep'. rewrite insert_id in Hrep' by done. rewrite Hfin.
  cbn [mbind option_bind]. eexists. split; [done|]. split; [done|]. split; [|done].
  eexists. split; cbn; try done.
  - by apply sound_with_table.
  - by eapply links_update.
  - rewrite Hc2. by eapply counts_expiry.
Qed.

(** A reader on the entry of an open session. *)
Lemma op_rmw_prep_spec db P L M H mono n k now st p v t :
  rmw_open db P L M H n k now st p -> M !! (n, k) = Some (v, t) -> expired now t = false -> zlen H < 2 ^ 31 - 1 ->
  exists db', storage_db_op_rmw_current_entry_index_prep_for_read db mono st p = Some (db', p) /\
    rmw_open db' P L M ((p, v) :: H) n k now st p /\
    hashtable db' = hashtable db /\ deleting db' = deleting db.
Proof.
  intros Hop HM Ht Hlen. destruct (session_entry _ _ _ _ _ _ _ _ _ _ _ _ Hop HM Ht) as (Hpos & HP & Hex & HL & _).
  destruct Hop as [Hses Hso Hl Hc Hent Hex' Hcur]. unfold storage_db_op_rmw_current_entry_index_prep_for_read.
  rewrite Hex. destruct (Z.eqb_spec p 0); [lia|]. cbn [negb andb].
  destruct (touch_spec db L H p v t mono (so_heap _ _ _ Hso) HL) as (db1 & -> & Hi1 & Hs1 & Hd1).
  cbn [mbind option_bind].
  destruct (increase_spec db1 L H p v t Hi1 HL Hlen) as (db2 & w & -> & _ & _ & Hi2 & Hs2 & Hd2).
  cbn [mbind option_bind]. destruct (sound_step _ _ _ _ _ _ Hso (same_rest_trans _ _ _ Hs1 Hs2) Hi2) as (Hso2 & Ht2 & Hc2).
  exists db2. rewrite Hd2, Hd1. split_and!; try done. by split; rewrite ?Ht2, ?Hc2.
Qed.

(** A new expiry for it, in the past as well. *)
Lemma session_expire_delete_spec db P L M H n k now st p v t t' :
  rmw_open db P L M H n k now st p -> M !! (n, k) = Some (v, t) -> expired now t = false ->
  0 <= n < 2 ^ 32 -> zlen (deleting db) < 999 ->
  exists e db' P' L', heap db !! p = Some e /\
    storage_db_op_rmw_commit_delete (update_entry db p (set_expiry e t')) st = Some db' /\
    db_inv db' P' L' (delete (n, k) M) H /\
    locks (hashtable db') = locks (hashtable db) /\ zlen (deleting db') <= zlen (deleting db) + 1.
Proof.
  intros Hop HM Ht Hn Hlen.
  destruct (session_entry _ _ _ _ _ _ _ _ _ _ _ _ Hop HM Ht) as (Hpos & HP & Hex & HL & e & He & Hok & Hv & _).
  destruct Hop as [Hses Hso Hl Hc _ _ _]. exists e.
  destruct (live_entry _ _ _ _ _ _ (so_heap _ _ _ Hso) HL) as (e' & He' & _ & _ & _ & Hwf & Hh).
  pose proof (update_live db L H p (set_expiry e t') v t' (so_heap _ _ _ Hso) ltac:(by eexists) Hok Hv eq_refl Hwf Hh) as Hi1.
  assert (sound (update_entry db p (set_expiry e t')) (<[p := (v, t')]> L) H) as Hso1.
  { destruct Hso. by split. }
  destruct (session_delete_spec (update_entry db p (set_expiry e t')) P (<[p := (v, t')]> L) (<[(n, k) := (v, t')]> M) H n k st)
    as (db' & P' & L' & Hdel & Hinv & Hlk & Hd); try done.
  - by eapply links_update.
  - by eapply counts_expiry.
  - rewrite lookup_insert_eq. by eexists.
  - rewrite delete_insert_eq in Hinv. by exists db', P', L'.
Qed.

End operations.

End StorageDbOps.
