(* ===== verification/StorageDbRefine.v ===== *)
(** * StorageDbRefine: the database is a map with expiring values

    The commands of the database, one transaction each, refine an abstract map
    from keys to values and expiries together with the values its readers hold:
    a reader goes on reading the value it got, whatever happens to the key,
    until it releases it. *)

From stdpp Require Import gmap fin_maps.
From S2P Require Import Prelude Pow2 RingQueue Transaction HashtableMcmp HashtableMcmpLemmas HashtableMcmpSpec HashtableMcmpRefine HashtableSpsc HashtableSpscSpec HashtableSpscRefine EntryStatus StorageDb StorageDbHeap StorageDbMap StorageDbOps.

Module StorageDbRefine.
Import Transaction HashtableMcmp HashtableMcmpLemmas HashtableMcmpSpec HashtableMcmpRefine.
Import StorageDb StorageDbHeap StorageDbMap StorageDbOps.

(** ** Commands *)

(** What a read-modify-write does once it has seen the value. *)
Inductive decision :=
  | DUpdate (v : chunk_sequence) (expiry : Z)
  | DDelete
  | DAbort
  | DExpire (expiry : Z).

(** A key is the number of a database and the bytes; the readers are numbered,
    the newest is 0. *)
Inductive db_command :=
  | CSet (k : db_key) (v : chunk_sequence) (expiry : Z)
  | CGet (k : db_key)
  | CRead (reader : nat)
  | CRelease (reader : nat)
  | CDelete (k : db_key)
  | CRmw (k : db_key) (f : option chunk_sequence -> decision)
  | CCollect.

Inductive db_reply :=
  | RBool (b : bool)
  | RValue (v : option chunk_sequence)
  | RNoReader
  | RFull.

(** The realtime and the monotonic clock during the command. *)
Record timed := Timed { at_now : Z; at_mono : Z; command_of : db_command }.

Section refinement.
Context (hash_fn : Z -> list Z -> Z) (cfg : config).

Definition decide_rmw (db : storage_db) (now mono : Z) (st : storage_db_op_rmw_status) (p : Z) (a : decision)
    : option storage_db :=
  match a with
  | DUpdate v expiry => storage_db_op_rmw_commit_update cfg db now mono st v expiry
  | DDelete => storage_db_op_rmw_commit_delete db st
  | DAbort => storage_db_op_rmw_abort db st
  | DExpire t =>
      e ← heap db !! p;
      storage_db_op_rmw_commit_metadata (update_entry db p (set_expiry e t)) mono st
  end.

(** The value of an entry, none for a NULL pointer. *)
Definition value_of (db : storage_db) (p : Z) : option (option chunk_sequence) :=
  if p =? 0 then Some None else e ← heap db !! p; Some (Some (value e)).

Definition run_db_op (db : storage_db) (tx : transaction) (readers : list Z) (now mono : Z) (c : db_command)
    : option (storage_db * transaction * list Z * db_reply) :=
  match c with
  | CSet (n, k) v expiry =>
      '(db, tx, ok) ← storage_db_op_set hash_fn cfg db tx now mono n k v expiry;
      Some (db, tx, readers, if (ok : bool) then RBool true else RFull)
  | CGet (n, k) =>
      '(db, tx, p) ← storage_db_get_entry_index_for_read hash_fn db tx now mono n k;
      v ← value_of db p;
      Some (db, tx, if p =? 0 then readers else p :: readers, RValue v)
  | CRead i =>
      match readers !! i with
      | Some p => v ← value_of db p; Some (db, tx, readers, RValue v)
      | None => Some (db, tx, readers, RNoReader)
      end
  | CRelease i =>
      match readers !! i with
      | Some p => db ← decrease_readers db p; Some (db, tx, delete i readers, RBool true)
      | None => Some (db, tx, readers, RNoReader)
      end
  | CDelete (n, k) =>
      '(db, tx, ok) ← storage_db_op_delete hash_fn db tx n k;
      Some (db, tx, readers, RBool ok)
  | CRmw (n, k) f =>
      '(db, tx, r) ← storage_db_op_rmw_begin hash_fn db tx now n k;
      match r with
      | None => Some (db, tx, readers, RFull)
      | Some (st, p) =>
          current ← value_of db p;
          db ← decide_rmw db now mono st p (f current);
          Some (db, tx, readers, RValue current)
      end
  | CCollect =>
      db ← storage_db_worker_garbage_collect_deleting_entry_index_when_no_readers db;
      Some (db, tx, readers, RBool true)
  end.

Abbreviation worker_state := (storage_db * transaction_manager * list Z)%type.

Definition run_db_command (worker : Z) (s : worker_state) (c : timed) : option (worker_state * db_reply) :=
  let '(db, mgr, readers) := s in
  let '(mgr, tx) := transaction_acquire worker mgr in
  '(db, tx, readers, r) ← run_db_op db tx readers (at_now c) (at_mono c) (command_of c);
  '(d, _) ← transaction_release (hashtable db) tx;
  Some (with_table db d, mgr, readers, r).

Fixpoint run_db_commands (worker : Z) (s : worker_state) (cs : list timed) : option (worker_state * list db_reply) :=
  match cs with
  | [] => Some (s, [])
  | c :: cs =>
      '(s, r) ← run_db_command worker s c;
      '(s, rs) ← run_db_commands worker s cs;
      Some (s, r :: rs)
  end.

(** ** The specification *)

Abbreviation abstract_db := (value_map * list chunk_sequence)%type.

(** What a read-modify-write of the key [k] does to the map. *)
Definition decided (now : Z) (k : db_key) (a : decision) (M : value_map) : value_map :=
  match a with
  | DUpdate v expiry => <[k := (v, enforce_ttl cfg now expiry)]> M
  | DDelete => delete k M
  | DAbort => if decide (visible now M k = None) then delete k M else M
  | DExpire t => match M !! k with Some (v, _) => <[k := (v, t)]> M | None => M end
  end.

Inductive db_step (now : Z) : abstract_db -> db_command -> db_reply -> abstract_db -> Prop :=
  | step_set M R k v expiry :
      db_step now (M, R) (CSet k v expiry) (RBool true) (<[k := (v, enforce_ttl cfg now expiry)]> M, R)
  | step_set_full M R k v expiry : M !! k = None -> 448 <= key_count M ->
      db_step now (M, R) (CSet k v expiry) RFull (M, R)
  | step_get M R k v : visible now M k = Some v -> db_step now (M, R) (CGet k) (RValue (Some v)) (M, v :: R)
  | step_get_none M R k : visible now M k = None -> db_step now (M, R) (CGet k) (RValue None) (M, R)
  | step_read M R i v : R !! i = Some v -> db_step now (M, R) (CRead i) (RValue (Some v)) (M, R)
  | step_read_none M R i : R !! i = None -> db_step now (M, R) (CRead i) RNoReader (M, R)
  | step_release M R i : is_Some (R !! i) -> db_step now (M, R) (CRelease i) (RBool true) (M, delete i R)
  | step_release_none M R i : R !! i = None -> db_step now (M, R) (CRelease i) RNoReader (M, R)
  | step_delete M R k :
      db_step now (M, R) (CDelete k) (RBool (bool_decide (is_Some (M !! k)))) (delete k M, R)
  | step_rmw M R k f :
      db_step now (M, R) (CRmw k f) (RValue (visible now M k)) (decided now k (f (visible now M k)) M, R)
  | step_rmw_full M R k f : M !! k = None -> 448 <= key_count M -> db_step now (M, R) (CRmw k f) RFull (M, R)
  | step_collect M R : db_step now (M, R) CCollect (RBool true) (M, R).

Inductive db_steps : abstract_db -> list timed -> list db_reply -> abstract_db -> Prop :=
  | db_steps_nil a : db_steps a [] [] a
  | db_steps_cons a a' a'' c cs r rs :
      db_step (at_now c) a (command_of c) r a' -> db_steps a' cs rs a'' -> db_steps a (c :: cs) (r :: rs) a''.

(** The commands the callers issue: keys and values are well formed, and a
    read-modify-write deletes and changes only what it has seen. *)
Definition key_ok (k : db_key) : Prop := 0 <= k.1 < 2 ^ 32 /\ good_key k.2.

Definition db_command_ok (c : db_command) : Prop :=
  match c with
  | CSet k v _ => key_ok k /\ value_wf v
  | CGet k | CDelete k => key_ok k
  | CRmw k f => key_ok k /\ forall seen,
      match f seen with
      | DUpdate v _ => value_wf v
      | DDelete | DExpire _ => seen <> None
      | DAbort => True
      end
  | CRead _ | CRelease _ | CCollect => True
  end.

(** ** The refinement *)

Record db_stands (db : storage_db) (readers : list Z) (M : value_map) (R : list chunk_sequence) : Prop := {
  ds_inv : exists P L H, db_inv hash_fn db P L M H /\ readers = H.*1 /\ R = H.*2;
  ds_unlocked : unlocked (hashtable db)
}.

Lemma db_inv_perm db P L M H H' : H ≡ₚ H' -> db_inv hash_fn db P L M H -> db_inv hash_fn db P L M H'.
Proof. intros Hp [? ? [? ? ?] ? ?]. split; try done. split; try done. by eapply heap_inv_perm. Qed.

Lemma value_of_held db P L M H i p v :
  db_inv hash_fn db P L M H -> H !! i = Some (p, v) -> value_of db p = Some (Some v).
Proof.
  intros Hinv Hi. apply list_elem_of_lookup_2 in Hi. pose proof (so_heap _ _ _ (di_sound _ _ _ _ _ _ Hinv)) as Hh.
  destruct (hi_held _ _ _ Hh p v Hi) as (e & He & <-). unfold value_of.
  pose proof (hi_fresh _ _ _ Hh p ltac:(by eexists)). destruct (Z.eqb_spec p 0); [lia|]. by rewrite He.
Qed.

(** What a command does, from the invariant. *)
Definition simulates (db : storage_db) (M : value_map) (H : holders) (tx : transaction) (now mono : Z)
    (c : db_command) : Prop :=
  exists db' tx' r M' P' L' H', run_db_op db tx H.*1 now mono c = Some (db', tx', H'.*1, r) /\
    solo (locks (hashtable db')) tx' /\ db_step now (M, H.*2) c r (M', H'.*2) /\
    db_inv hash_fn db' P' L' M' H' /\ zlen H' <= zlen H + 1.

Lemma no_reads_nil tx : locks_list tx = [] -> no_reads tx.
Proof. intros Hl r. by rewrite Hl. Qed.

Lemma simulates_set db P L M H tx now mono k v expiry :
  db_inv hash_fn db P L M H -> key_ok k -> value_wf v -> solo (locks (hashtable db)) tx -> locks_list tx = [] ->
  zlen (deleting db) < 999 -> simulates db M H tx now mono (CSet k v expiry).
Proof.
  intros Hinv [Hn Hk] Hv Hs Hl Hlen. destruct k as [n k]. unfold simulates, run_db_op.
  destruct (op_set_spec hash_fn cfg db tx P L M H now mono n k v expiry Hinv Hk Hn Hv Hs (no_reads_nil _ Hl) Hlen)
    as (db' & tx' & ok & P' & L' & -> & Hs' & _ & Hok). cbn [mbind option_bind].
  destruct ok; [|destruct Hok as (Hok & HM & Hfull)]; eexists db', tx', _, _, P', L', H; (split; [done|]);
    (split; [done|]); (split; [by constructor|]); (split; [done|lia]).
Qed.

Lemma simulates_get db P L M H tx now mono k :
  db_inv hash_fn db P L M H -> key_ok k -> solo (locks (hashtable db)) tx -> locks_list tx = [] ->
  zlen H < 2 ^ 31 - 1 -> simulates db M H tx now mono (CGet k).
Proof.
  intros Hinv [Hn Hk] Hs Hl Hlen. destruct k as [n k]. unfold simulates, run_db_op.
  destruct (get_for_read_spec hash_fn db tx P L M H now mono n k Hinv Hk Hs Hl Hlen)
    as (db' & tx' & p & -> & Hs' & _ & Hok). cbn [mbind option_bind].
  destruct (visible now M (n, k)) as [v|] eqn:Hvis.
  - destruct Hok as [Hp Hinv']. rewrite (value_of_held db' P L M _ 0%nat p v Hinv' eq_refl).
    destruct (Z.eqb_spec p 0); [lia|]. cbn [mbind option_bind].
    eexists db', tx', _, M, P, L, ((p, v) :: H). split; [done|]. split; [done|]. rewrite zlen_cons.
    split; [by constructor|]. split; [done|lia].
  - destruct Hok as [-> Hinv']. unfold value_of. cbn [Z.eqb mbind option_bind].
    eexists db', tx', _, M, P, L, H. split; [done|]. split; [done|]. split; [by constructor|]. split; [done|lia].
Qed.

Lemma simulates_read db P L M H tx now mono i :
  db_inv hash_fn db P L M H -> solo (locks (hashtable db)) tx -> simulates db M H tx now mono (CRead i).
Proof.
  intros Hinv Hs. unfold simulates, run_db_op. rewrite list_lookup_fmap.
  destruct (H !! i) as [[p v]|] eqn:Hi; cbn [fmap option_fmap option_map fst].
  - rewrite (value_of_held _ _ _ _ _ _ _ _ Hinv Hi). cbn [mbind option_bind].
    eexists db, tx, _, M, P, L, H. split; [done|]. split; [done|]. split; [|split; [done|lia]].
    constructor. by rewrite list_lookup_fmap, Hi.
  - eexists db, tx, _, M, P, L, H. split; [done|]. split; [done|]. split; [|split; [done|lia]].
    constructor. by rewrite list_lookup_fmap, Hi.
Qed.

Lemma simulates_release db P L M H tx now mono i :
  db_inv hash_fn db P L M H -> solo (locks (hashtable db)) tx -> simulates db M H tx now mono (CRelease i).
Proof.
  intros Hinv Hs. unfold simulates, run_db_op. rewrite list_lookup_fmap.
  destruct (H !! i) as [[p v]|] eqn:Hi; cbn [fmap option_fmap option_map fst].
  - pose proof (db_inv_perm _ _ _ _ _ _ (delete_Permutation _ _ _ Hi) Hinv) as Hinv1.
    destruct (decrease_spec db L (delete i H) p v (so_heap _ _ _ (di_sound _ _ _ _ _ _ Hinv1)))
      as (db' & -> & Hi' & Hs' & _). cbn [mbind option_bind].
    eexists db', tx, _, M, P, L, (delete i H). rewrite list_fmap_delete. split; [done|].
    assert (hashtable db' = hashtable db) as -> by (by destruct Hs').
    split; [done|]. split; [|split].
    + rewrite list_fmap_delete. constructor. rewrite list_lookup_fmap, Hi. by eexists.
    + by eapply db_inv_step.
    + unfold zlen. pose proof (length_delete H i ltac:(by eexists)). lia.
  - eexists db, tx, _, M, P, L, H. split; [done|]. split; [done|]. split; [|split; [done|lia]].
    constructor. by rewrite list_lookup_fmap, Hi.
Qed.

Lemma simulates_delete db P L M H tx now mono k :
  db_inv hash_fn db P L M H -> key_ok k -> solo (locks (hashtable db)) tx -> locks_list tx = [] ->
  zlen (deleting db) < 999 -> simulates db M H tx now mono (CDelete k).
Proof.
  intros Hinv [Hn Hk] Hs Hl Hlen. destruct k as [n k]. unfold simulates, run_db_op.
  destruct (op_delete_spec hash_fn db tx P L M H n k Hinv Hk Hn Hs (no_reads_nil _ Hl) ltac:(by rewrite Hl) Hlen)
    as (db' & tx' & P' & L' & -> & Hs' & _ & Hinv'). cbn [mbind option_bind].
  eexists db', tx', _, _, P', L', H. split; [done|]. split; [done|]. split; [by constructor|]. split; [done|lia].
Qed.

Lemma simulates_collect db P L M H tx now mono :
  db_inv hash_fn db P L M H -> solo (locks (hashtable db)) tx -> zlen (deleting db) < 999 ->
  simulates db M H tx now mono CCollect.
Proof.
  intros Hinv Hs Hlen. unfold simulates, run_db_op.
  destruct (collect_spec db L H (so_heap _ _ _ (di_sound _ _ _ _ _ _ Hinv)) ltac:(lia)) as (db' & -> & Hi' & Hs' & _).
  cbn [mbind option_bind]. eexists db', tx, _, M, P, L, H. split; [done|].
  split; [by destruct Hs' as (-> & _)|]. split; [constructor|]. split; [by eapply db_inv_step|lia].
Qed.

(** What the session shows is the visible value. *)
Lemma session_value db P L M H n k now st p :
  rmw_open hash_fn db P L M H n k now st p -> value_of db p = Some (visible now M (n, k)).
Proof.
  intros [_ Hso Hl _ _ Hex Hcur]. unfold visible, value_of.
  destruct (P !! (n, k)) as [q|] eqn:Hq; cbn [default from_option id] in Hcur.
  - destruct (entry_of_key _ _ _ _ _ _ _ (so_heap _ _ _ Hso) Hl Hq) as (Hpos & e & v & t & HL & HM & He & _ & Hv & _).
    rewrite HM in Hex |- *. cbn [mbind option_bind fst snd] in *. rewrite <- Hex, Hcur.
    destruct (delete_entry_index_on_abort st); [done|]. destruct (Z.eqb_spec q 0); [lia|].
    rewrite He. cbn. by rewrite Hv.
  - rewrite (lk_none _ _ _ Hl _ Hq) in Hex |- *. rewrite Hex in Hcur. by rewrite Hcur.
Qed.

Lemma visible_abort now M k a :
  M !! k = Some a -> (if expired now a.2 then delete k M else M) = decided now k DAbort M.
Proof.
  intros Hk. unfold decided, visible. rewrite Hk. cbn [mbind option_bind].
  destruct (expired now a.2); [by rewrite decide_True|by rewrite decide_False].
Qed.

Lemma decide_rmw_spec db P L M H now mono n k st p a :
  rmw_open hash_fn db P L M H n k now st p -> 0 <= n < 2 ^ 32 -> zlen (deleting db) < 999 ->
  match a with
  | DUpdate v _ => value_wf v
  | DDelete | DExpire _ => visible now M (n, k) <> None
  | DAbort => True
  end ->
  exists db' P' L', decide_rmw db now mono st p a = Some db' /\
    db_inv hash_fn db' P' L' (decided now (n, k) a M) H /\ locks (hashtable db') = locks (hashtable db).
Proof.
  intros Hop Hn Hlen Ha.
  assert (visible now M (n, k) <> None -> exists v t, M !! (n, k) = Some (v, t) /\ expired now t = false) as Hvis.
  { unfold visible. destruct (M !! (n, k)) as [[v t]|]; cbn; [|congruence].
    destruct (expired now t) eqn:Hex; [congruence|]. intros _. by exists v, t. }
  destruct a as [v expiry| | |t']; cbn [decide_rmw decided].
  - destruct (op_rmw_commit_update_spec hash_fn cfg db P L M H now mono n k st p v expiry Hop Hn Ha Hlen)
      as (db' & P' & L' & -> & Hinv & Hlk & _). by eexists _, _, _.
  - destruct (Hvis Ha) as (v & t & HM & _).
    destruct (op_rmw_commit_delete_spec hash_fn db P L M H now n k st p Hop ltac:(by eexists) Hn Hlen)
      as (db' & P' & L' & -> & Hinv & Hlk & _). by eexists _, _, _.
  - destruct (op_rmw_abort_spec hash_fn db P L M H now n k st p Hop Hn Hlen)
      as (db' & P' & L' & -> & Hinv & Hlk & _). eexists _, P', L'. split; [done|]. split; [|done].
    rewrite (ro_expired _ _ _ _ _ _ _ _ _ _ _ Hop) in Hinv.
    destruct (M !! (n, k)) as [a|] eqn:HM.
    + by rewrite (visible_abort now M _ a HM) in Hinv.
    + rewrite delete_id by done. by destruct (decide _).
  - destruct (Hvis Ha) as (v & t & HM & Hex). rewrite HM.
    destruct (op_rmw_commit_metadata_spec hash_fn db P L M H now mono n k st p v t t' Hop HM Hex)
      as (e & db' & -> & Hc & [L' Hinv] & Hlk & _). cbn [mbind option_bind]. by eexists _, _, _.
Qed.

Lemma simulates_rmw db P L M H tx now mono k f :
  db_inv hash_fn db P L M H -> db_command_ok (CRmw k f) -> solo (locks (hashtable db)) tx -> locks_list tx = [] ->
  zlen (deleting db) < 999 -> simulates db M H tx now mono (CRmw k f).
Proof.
  intros Hinv [[Hn Hk] Hf] Hs Hl Hlen. destruct k as [n k]. unfold simulates, run_db_op.
  destruct (op_rmw_begin_spec hash_fn db tx P L M H now n k Hinv Hk Hs (no_reads_nil _ Hl))
    as (db1 & tx1 & r & -> & Hs1 & Hd1 & Hr). cbn [mbind option_bind].
  destruct r as [[st p]|].
  - rewrite (session_value _ _ _ _ _ _ _ _ _ _ Hr). cbn [mbind option_bind].
    destruct (decide_rmw_spec db1 P L M H now mono n k st p (f (visible now M (n, k))) Hr Hn ltac:(by rewrite Hd1)
      (Hf _)) as (db' & P' & L' & -> & Hinv' & Hlk). cbn [mbind option_bind].
    eexists db', tx1, _, _, P', L', H. split; [done|]. rewrite Hlk. split; [done|]. split; [by constructor|].
    split; [done|lia].
  - destruct Hr as (Hinv' & HM & Hfull). eexists db1, tx1, _, M, P, L, H. split; [done|]. split; [done|].
    split; [by constructor|]. split; [done|lia].
Qed.

Lemma run_db_op_spec db P L M H tx now mono c :
  db_inv hash_fn db P L M H -> db_command_ok c -> solo (locks (hashtable db)) tx -> locks_list tx = [] ->
  zlen (deleting db) < 999 -> zlen H < 2 ^ 31 - 1 -> simulates db M H tx now mono c.
Proof.
  intros Hinv Hok Hs Hl Hlen HlenH. destruct c; cbn [db_command_ok] in Hok.
  - destruct Hok. by eapply simulates_set.
  - by eapply simulates_get.
  - by eapply simulates_read.
  - by eapply simulates_release.
  - by eapply simulates_delete.
  - by eapply simulates_rmw.
  - by eapply simulates_collect.
Qed.

(** Between two commands no lock is held. *)
Definition db_idle (db : storage_db) (M : value_map) (H : holders) : Prop :=
  (exists P L, db_inv hash_fn db P L M H) /\ unlocked (hashtable db).

Lemma release_idle db tx P L M H :
  db_inv hash_fn db P L M H -> solo (locks (hashtable db)) tx ->
  exists d tx', transaction_release (hashtable db) tx = Some (d, tx') /\ db_idle (with_table db d) M H.
Proof.
  intros Hinv Hs. destruct (release_solo (hashtable db) tx Hs) as [tx' Hrel].
  eexists _, tx'. split; [exact Hrel|]. split.
  - exists P, L. apply db_inv_with_locks; [done|]. rewrite zlen_replicate. done.
  - unfold unlocked. cbn. by rewrite length_replicate.
Qed.

Lemma run_db_command_spec worker db mgr M H c :
  db_idle db M H -> db_command_ok (command_of c) -> in_u 16 (manager_worker worker mgr) ->
  zlen (deleting db) < 999 -> zlen H < 2 ^ 31 - 1 ->
  exists db' mgr' r M' H', run_db_command worker (db, mgr, H.*1) c = Some (db', mgr', H'.*1, r) /\
    db_step (at_now c) (M, H.*2) (command_of c) r (M', H'.*2) /\ db_idle db' M' H' /\
    in_u 16 (manager_worker worker mgr') /\ zlen H' <= zlen H + 1.
Proof.
  intros [(P & L & Hinv) Hu] Hok Hw Hlen HlenH. unfold run_db_command.
  destruct (acquire_fresh worker mgr Hw) as (mgr' & tx & -> & Hid & Hl & Hmw).
  pose proof (solo_start _ tx Hu Hid Hl) as Hs.
  destruct (run_db_op_spec db P L M H tx (at_now c) (at_mono c) (command_of c) Hinv Hok Hs Hl Hlen HlenH)
    as (db1 & tx1 & r & M' & P' & L' & H' & -> & Hs1 & Hst & Hinv1 & HlenH'). cbn [mbind option_bind].
  destruct (release_idle _ _ _ _ _ _ Hinv1 Hs1) as (d & tx' & -> & Hidle). cbn [mbind option_bind].
  eexists _, mgr', r, M', H'. split; [done|]. split; [done|]. split; [done|]. split; [by rewrite Hmw|done].
Qed.

(** A run stops only when the list of the deleting entries is about to hold a
    thousand of them. *)
Lemma run_db_commands_spec worker cs : forall db mgr M H,
  db_idle db M H -> Forall (fun c => db_command_ok (command_of c)) cs -> in_u 16 (manager_worker worker mgr) ->
  zlen H + zlen cs < 2 ^ 31 - 1 ->
  exists done rest db' mgr' rs M' H', cs = done ++ rest /\
    run_db_commands worker (db, mgr, H.*1) done = Some (db', mgr', H'.*1, rs) /\
    db_steps (M, H.*2) done rs (M', H'.*2) /\ db_idle db' M' H' /\
    (rest = [] \/ 999 <= zlen (deleting db')).
Proof.
  induction cs as [|c cs IH]; intros db mgr M H Hid Hok Hw Hlen.
  { eexists [], [], db, mgr, [], M, H. split_and!; try done; [constructor|by left]. }
  destruct (decide (zlen (deleting db) < 999)) as [Hd|Hd].
  - apply Forall_cons in Hok as [Hc Hcs]. rewrite zlen_cons in Hlen. pose proof (zlen_nonneg cs).
    destruct (run_db_command_spec worker db mgr M H c Hid Hc Hw Hd ltac:(lia))
      as (db1 & mgr1 & r & M1 & H1 & Hrun & Hst & Hid1 & Hw1 & Hlen1).
    destruct (IH db1 mgr1 M1 H1 Hid1 Hcs Hw1 ltac:(lia))
      as (done & rest & db' & mgr' & rs & M' & H' & -> & Hruns & Hsts & Hid' & Hrest).
    exists (c :: done), rest, db', mgr', (r :: rs), M', H'. split_and!; try done.
    + cbn [run_db_commands]. rewrite Hrun. cbn [mbind option_bind]. by rewrite Hruns.
    + by econstructor.
  - eexists [], (c :: cs), db, mgr, [], M, H. split_and!; try done; [constructor|right; lia].
Qed.

(** ** A new database *)

Lemma new_idle n :
  1 <= n <= 2 ^ 63 -> exists db, storage_db_new n = Some db /\ db_idle db ∅ [].
Proof.
  intros Hn. unfold storage_db_new.
  destruct (Pow2.pow2_next_least n Hn) as (e & He & -> & _ & _).
  destruct (init_quiescent hash_fn (2 ^ e)) as (d & -> & [Ht Hrep Hu]).
  { split; [lia|]. apply Z.pow_le_mono_r; lia. }
  destruct (HashtableSpscSpec.hashtable_spsc_new_spec 100 24 false ltac:(lia) ltac:(lia)) as (p & ht & -> & Hg & _ & _ & Hf & Ho).
  cbn [mbind option_bind]. eexists. split; [done|]. split; [|done]. exists ∅, ∅. split; try done; [|apply links_empty].
  split; cbn; [|exists p, ∅, ∅; split_and!;
    [apply HashtableSpscRefine.inv_empty; [done|by cbn; rewrite Hf|done]|apply HashtableSpscRefine.stands_for_empty|done]|done].
  apply heap_inv_empty.
Qed.

End refinement.

Lemma new_deleting n db : storage_db_new n = Some db -> deleting db = [].
Proof.
  unfold storage_db_new. destruct (hashtable_mcmp_init _) as [d|]; [|done]. cbn [mbind option_bind].
  destruct (HashtableSpsc.hashtable_spsc_new 100 24 false) as [t|]; [|done]. cbn [mbind option_bind].
  intros Heq. by apply (inj Some) in Heq as <-.
Qed.

Lemma idle_stands hash_fn db M H : db_idle hash_fn db M H -> db_stands hash_fn db H.*1 M H.*2.
Proof. intros [(P & L & Hinv) Hu]. split; [by exists P, L, H|done]. Qed.

(** What the collection leaves: the deleted entries that are still read. *)
Lemma collect_left db L H :
  heap_inv db L H -> zlen (deleting db) <= 1000 ->
  exists db', storage_db_worker_garbage_collect_deleting_entry_index_when_no_readers db = Some db' /\
    heap_inv db' L H /\ same_rest db db' /\
    (forall p, p ∈ deleting db' <-> p ∈ deleting db /\ p ∈ H.*1) /\ zlen (deleting db') <= zlen H.
Proof.
  intros Hi Hlen. destruct (collect_spec db L H Hi Hlen) as (db' & Hc & Hi' & Hs & Hd).
  exists db'. split; [done|].
  assert (forall p, p ∈ deleting db' <-> p ∈ deleting db /\ p ∈ H.*1) as Hel.
  { intros p. rewrite Hd, list_elem_of_filter, (readers_of_in H p). tauto. }
  split; [done|]. split; [done|]. split; [done|].
  replace (zlen H) with (zlen H.*1) by (unfold zlen; by rewrite length_fmap).
  unfold zlen. apply Nat2Z.inj_le, submseteq_length, NoDup_submseteq.
  - rewrite Hd. apply NoDup_filter. pose proof (hi_nodup _ _ _ Hi) as Hnd. by apply NoDup_app in Hnd as [? _].
  - intros p Hp. by apply Hel.
Qed.

(** ** Properties *)

(** C2: the database refines a map with expiring values.  Starting from a new
    database, the commands of a worker, one transaction each, reply what the
    abstract map allows: a set or an update of a read-modify-write stores the
    value with the expiry the configuration enforces, an expired value is not
    seen, and a reader reads the value it was given until it releases it, even
    when the key has been replaced or deleted; a new key is refused only when
    448 are stored.  The counters count the keys and the bytes, and no lock is
    left.  The run goes on unless 999 deleted entries wait for their readers. *)
Theorem storage_db_refines_map (hash_fn : Z -> list Z -> Z) (cfg : config) (n worker : Z)
    (mgr : transaction_manager) (cs : list timed) :
  1 <= n <= 2 ^ 63 -> in_u 16 (manager_worker worker mgr) ->
  Forall (fun c => db_command_ok (command_of c)) cs -> zlen cs < 2 ^ 31 - 1 ->
  exists db0 done rest db mgr' readers rs M R,
    storage_db_new n = Some db0 /\ cs = done ++ rest /\
    run_db_commands hash_fn cfg worker (db0, mgr, []) done = Some (db, mgr', readers, rs) /\
    db_steps cfg (∅, []) done rs (M, R) /\ db_stands hash_fn db readers M R /\
    keys_count (counters_global db) = i64 (key_count M) /\ data_size (counters_global db) = i64 (total M) /\
    (rest = [] \/ 999 <= zlen (deleting_entry_index_list db)).
Proof.
  intros Hn Hw Hcs Hlen. destruct (new_idle hash_fn n Hn) as (db0 & Hnew & Hidle).
  destruct (run_db_commands_spec hash_fn cfg worker cs db0 mgr ∅ [] Hidle Hcs Hw Hlen)
    as (done & rest & db & mgr' & rs & M & H & -> & Hrun & Hst & Hid & Hrest).
  exists db0, done, rest, db, mgr', H.*1, rs, M, H.*2.
  pose proof (idle_stands _ _ _ _ Hid). destruct Hid as [(P & L & [_ _ _ _ [Hk Hd]]) _]. by split_and!.
Qed.

Definition text (l : list Z) : chunk_sequence := ChunkSequence 1 (Some [l]) (zlen l).

Lemma text_wf l : l <> [] -> value_wf (text l).
Proof. intros Hl. split; cbn; [apply zlen_nonneg|]. destruct l as [|z l]; [done|].
  rewrite zlen_cons. pose proof (zlen_nonneg l). intros Hz. exfalso. lia.
Qed.

Lemma letter_ok n c : 0 <= n < 2 ^ 32 -> c <> 0 -> key_ok (n, [c]).
Proof. intros Hn Hc. split; [done|]. split; [done|]. by repeat constructor. Qed.

(** A value with an expiry, a reader that keeps the old value, an increment. *)
Definition example_commands : list timed :=
  [Timed 100 1 (CSet (0, [65]) (text [1; 2]) 150); Timed 101 2 (CGet (0, [65]));
   Timed 102 3 (CSet (0, [65]) (text [3]) 0); Timed 103 4 (CRead 0);
   Timed 104 5 (CRmw (0, [66]) (fun _ => DUpdate (text [7]) 110)); Timed 120 6 (CGet (0, [66]));
   Timed 121 7 (CRmw (0, [66]) (fun _ => DAbort)); Timed 122 8 (CRelease 0); Timed 123 9 CCollect;
   Timed 124 10 (CDelete (0, [65]))].

Lemma example_commands_ok : Forall (fun c => db_command_ok (command_of c)) example_commands.
Proof.
  repeat apply Forall_cons_2; try apply Forall_nil_2; cbn [command_of db_command_ok];
    repeat split; cbn [fst snd]; intros; try (apply text_wf; done); try lia; try done;
    try (repeat constructor; lia).
Qed.

Lemma storage_db_refines_map_witness :
  exists db0 done rest db mgr' readers rs M R,
    storage_db_new 8 = Some db0 /\ example_commands = done ++ rest /\
    run_db_commands toy_hash (Config 0 0) 0 (db0, Manager 0 0 true, []) done = Some (db, mgr', readers, rs) /\
    db_steps (Config 0 0) (∅, []) done rs (M, R) /\ db_stands toy_hash db readers M R /\
    keys_count (counters_global db) = i64 (key_count M) /\ data_size (counters_global db) = i64 (total M) /\
    (rest = [] \/ 999 <= zlen (deleting_entry_index_list db)).
Proof.
  exact (storage_db_refines_map toy_hash (Config 0 0) 8 0 (Manager 0 0 true) example_commands
    ltac:(lia) ltac:(cbv; split; done) example_commands_ok eq_refl).
Defined.



(** A read does not remove an expired key.  The read lock that the lookup
    took on the chunk of the key makes the write lock of the eviction fail, so
    the reply is that there is no value, and the key stays in the table, where
    the counters go on counting it. *)
Theorem storage_db_expired_read_keeps_key (hash_fn : Z -> list Z -> Z) (cfg : config) (worker : Z)
    (db : storage_db) (mgr : transaction_manager) (readers : list Z) (M : value_map) (R : list chunk_sequence)
    (k : db_key) (v : chunk_sequence) (t now mono : Z) :
  db_stands hash_fn db readers M R -> key_ok k -> in_u 16 (manager_worker worker mgr) ->
  M !! k = Some (v, t) -> 0 < t < now -> zlen readers < 2 ^ 31 - 1 ->
  exists db' mgr',
    run_db_command hash_fn cfg worker (db, mgr, readers) (Timed now mono (CGet k)) =
      Some (db', mgr', readers, RValue None) /\
    db_stands hash_fn db' readers M R /\ keys_count (counters_global db') = i64 (key_count M).
Proof.
  intros [(P & L & H & Hinv & -> & ->) Hu] Hk Hw HM Ht Hr.
  assert (visible now M k = None) as Hvis.
  { unfold visible, expired. rewrite HM. cbn. destruct (Z.ltb_spec 0 t), (Z.ltb_spec t now); (done || lia). }
  destruct k as [n k], Hk as [Hn Hk]. unfold run_db_command. cbn [at_now at_mono command_of run_db_op].
  destruct (acquire_fresh worker mgr Hw) as (mgr' & tx & -> & Hid & Hl & _).
  destruct (get_for_read_spec hash_fn db tx P L M H now mono n k Hinv Hk (solo_start _ tx Hu Hid Hl) Hl)
    as (db1 & tx1 & p & -> & Hs1 & _ & Hok).
  { unfold zlen in *. by rewrite length_fmap in Hr. }
  rewrite Hvis in Hok. destruct Hok as [-> Hinv1]. cbn [mbind option_bind value_of Z.eqb].
  destruct (release_idle _ _ _ _ _ _ _ Hinv1 Hs1) as (d & tx' & -> & Hidle). cbn [mbind option_bind].
  eexists _, mgr'. split; [done|]. split; [by apply idle_stands|].
  destruct Hidle as [(P' & L' & [_ _ _ _ [Hc _]]) _]. exact Hc.
Qed.

Lemma storage_db_expired_read_keeps_key_witness :
  exists db0 db mgr r, storage_db_new 8 = Some db0 /\
    run_db_command toy_hash (Config 0 0) 0 (db0, Manager 0 0 true, []) (Timed 10 1 (CSet (0, [65]) (text [1]) 50)) =
      Some (db, mgr, [], r) /\
    exists db' mgr',
      run_db_command toy_hash (Config 0 0) 0 (db, mgr, []) (Timed 100 2 (CGet (0, [65]))) =
        Some (db', mgr', [], RValue None) /\
      db_stands toy_hash db' [] (<[(0, [65]) := (text [1], 50)]> ∅) [] /\
      keys_count (counters_global db') = i64 (key_count (<[(0, [65]) := (text [1], 50)]> ∅)).
Proof.
  destruct (new_idle toy_hash 8 ltac:(lia)) as (db0 & Hnew & Hidle).
  assert (key_ok (0, [65])) as Hk by (apply letter_ok; lia).
  assert (in_u 16 (manager_worker 0 (Manager 0 0 true))) as Hw by (cbv; by split).
  destruct (run_db_command_spec toy_hash (Config 0 0) 0 db0 (Manager 0 0 true) ∅ []
    (Timed 10 1 (CSet (0, [65]) (text [1]) 50)) Hidle) as (db & mgr & r & M & H & Hrun & Hst & Hid & Hw' & _).
  { split; [done|]. by apply text_wf. }
  { done. }
  { by rewrite (new_deleting 8 db0 Hnew). }
  { done. }
  exists db0, db, mgr, r. split; [done|]. remember (H.*2) as R eqn:HR.
  inversion Hst; subst.
  - destruct H; [|done]. split; [exact Hrun|].
    exact (storage_db_expired_read_keeps_key toy_hash (Config 0 0) 0 db mgr [] _ [] _ (text [1]) 50 100 2
      (idle_stands toy_hash db _ [] Hid) Hk Hw' (lookup_insert_eq _ _ _) (conj eq_refl eq_refl) eq_refl).
  - by match goal with H : 448 <= key_count ∅ |- _ => destruct H end.
Defined.

End StorageDbRefine.
