(* ===== verification/StorageDbScan.v ===== *)
(** * StorageDbScan: the operations that scan the database

    storage/db/storage_db.c: the sums of the counters of the workers
    (storage_db_counters.c), a random key, the flush of a database and the
    enumeration of its keys.  Each entry is visited in a transaction of its
    own.  The random numbers are a list; the clock is read once at the start of
    a scan. *)

From stdpp Require Import gmap fin_maps.
From S2P Require Import Prelude RingQueue Transaction HashtableMcmp HashtableMcmpLemmas HashtableMcmpSpec HashtableMcmpRefine HashtableMcmpIter HashtableSpsc SlotsBitmapMpmc EntryStatus UtilsString StorageDb StorageDbHeap StorageDbMap StorageDbOps StorageDbRefine.

Module StorageDbScan.
Import Transaction HashtableMcmp HashtableMcmpLemmas HashtableMcmpSpec HashtableMcmpRefine HashtableMcmpIter.
Import EntryStatus StorageDb StorageDbHeap StorageDbMap StorageDbOps StorageDbRefine.

(** ** The counters of the workers *)

(** The counters of a slot: the ones of the thread and the hashtable of the
    ones of each database. *)
Record counters_slot := CountersSlot { slot_global : counters; slot_per_db : HashtableSpsc.hashtable_spsc }.

Definition sum_counters (a b : counters) : counters :=
  Counters (i64 (keys_count a + keys_count b)) (i64 (data_size a + data_size b))
    (i64 (keys_changed a + keys_changed b)) (i64 (data_changed a + data_changed b)).

Fixpoint sum_global_loop (workers_to_find : nat) (counters_slots_bitmap : SlotsBitmapMpmc.slots_bitmap_mpmc)
    (slots : list counters_slot) (next_slot_index : Z) (sum : counters) : option counters :=
  match workers_to_find with
  | O => Some sum
  | S workers_to_find =>
      let found_slot_index := SlotsBitmapMpmc.slots_bitmap_mpmc_iter counters_slots_bitmap next_slot_index in
      if found_slot_index =? 2 ^ 64 - 1 then Some sum else
      s ← zget slots found_slot_index;
      sum_global_loop workers_to_find counters_slots_bitmap slots (u64 (found_slot_index + 1))
        (sum_counters sum (slot_global s))
  end.

Definition storage_db_counters_sum_global (workers_count : Z)
    (counters_slots_bitmap : SlotsBitmapMpmc.slots_bitmap_mpmc) (slots : list counters_slot) : option counters :=
  sum ← sum_global_loop (Z.to_nat workers_count) counters_slots_bitmap slots 0 zero_counters;
  _ ← check (0 <=? keys_count sum);
  _ ← check (0 <=? data_size sum);
  Some sum.

Fixpoint sum_per_db_loop (workers_to_find : nat) (counters_slots_bitmap : SlotsBitmapMpmc.slots_bitmap_mpmc)
    (slots : list counters_slot) (cells : gmap Z counters) (database_number next_slot_index : Z) (sum : counters)
    : option counters :=
  match workers_to_find with
  | O => Some sum
  | S workers_to_find =>
      let found_slot_index := SlotsBitmapMpmc.slots_bitmap_mpmc_iter counters_slots_bitmap next_slot_index in
      if found_slot_index =? 2 ^ 64 - 1 then Some sum else
      s ← zget slots found_slot_index;
      p ← HashtableSpsc.hashtable_spsc_op_get_by_hash_and_key_uint32 (slot_per_db s) database_number database_number;
      sum ← (if p =? 0 then Some sum else c ← cells !! p; Some (sum_counters sum c));
      sum_per_db_loop workers_to_find counters_slots_bitmap slots cells database_number (u64 (found_slot_index + 1)) sum
  end.

Definition storage_db_counters_sum_per_db (workers_count : Z)
    (counters_slots_bitmap : SlotsBitmapMpmc.slots_bitmap_mpmc) (slots : list counters_slot) (cells : gmap Z counters)
    (database_number : Z) : option counters :=
  sum_per_db_loop (Z.to_nat workers_count) counters_slots_bitmap slots cells database_number 0 zero_counters.

(** The database of a single worker, which has the slot 0. *)
Definition worker_bitmap : SlotsBitmapMpmc.slots_bitmap_mpmc := SlotsBitmapMpmc.Bitmap 64 1 [1] [1].
Definition worker_slots (db : storage_db) : list counters_slot := [CountersSlot (counters_global db) (counters_per_db db)].

Definition storage_db_op_get_keys_count_per_db (db : storage_db) (database_number : Z) : option Z :=
  c ← storage_db_counters_sum_per_db 1 worker_bitmap (worker_slots db) (counters_cells db) database_number;
  Some (keys_count c).

Definition storage_db_op_get_data_size_per_db (db : storage_db) (database_number : Z) : option Z :=
  c ← storage_db_counters_sum_per_db 1 worker_bitmap (worker_slots db) (counters_cells db) database_number;
  Some (data_size c).

Definition storage_db_op_get_keys_count_global (db : storage_db) : option Z :=
  c ← storage_db_counters_sum_global 1 worker_bitmap (worker_slots db); Some (keys_count c).

Definition storage_db_op_get_data_size_global (db : storage_db) : option Z :=
  c ← storage_db_counters_sum_global 1 worker_bitmap (worker_slots db); Some (data_size c).

(** ** A random key *)

(** [None] when the random numbers run out before the loop ends. *)
Fixpoint storage_db_op_random_key (randoms : list Z) (db : storage_db) (database_number : Z) (tx : transaction)
    : option (storage_db * transaction * option (list Z)) :=
  count ← storage_db_op_get_keys_count_per_db db database_number;
  if count <=? 0 then Some (db, tx, None) else
  match randoms with
  | [] => None
  | random_value :: randoms =>
      '(d, tx, k) ← hashtable_mcmp_op_get_random_key_try (hashtable db) database_number tx random_value;
      let db := with_table db d in
      match k with
      | Some k => Some (db, tx, Some k)
      | None => storage_db_op_random_key randoms db database_number tx
      end
  end.

(** ** Flush *)

(** The visit of the bucket the iteration has returned. *)
Definition flush_bucket (db : storage_db) (tx : transaction) (database_number deletion_start_ms bucket_index : Z)
    : option (storage_db * transaction) :=
  '(d, tx, r) ← hashtable_mcmp_op_get_by_index (hashtable db) tx bucket_index;
  let db := with_table db d in
  match r with
  | Some (number, p) =>
      if database_number =? number then
        e ← heap db !! p;
        if created_time_ms e <=? deletion_start_ms then
          '(db, tx, _) ← storage_db_op_delete_by_index db tx database_number true bucket_index;
          Some (db, tx)
        else Some (db, tx)
      else Some (db, tx)
  | None => Some (db, tx)
  end.

Fixpoint flush_loop (fuel : nat) (worker : Z) (db : storage_db) (mgr : transaction_manager)
    (database_number deletion_start_ms bucket_index : Z) : option (storage_db * transaction_manager) :=
  bucket_index ← hashtable_mcmp_op_iter_internal (hashtable db) false database_number bucket_index (2 ^ 64 - 1);
  if bucket_index =? OP_ITER_END then Some (db, mgr) else
  match fuel with
  | O => None
  | S fuel =>
      let '(mgr, tx) := transaction_acquire worker mgr in
      '(db, tx) ← flush_bucket db tx database_number deletion_start_ms bucket_index;
      '(d, _) ← transaction_release (hashtable db) tx;
      flush_loop fuel worker (with_table db d) mgr database_number deletion_start_ms (u64 (bucket_index + 1))
  end.

Definition storage_db_op_flush_sync (worker : Z) (db : storage_db) (mgr : transaction_manager)
    (database_number deletion_start_ms : Z) : option (storage_db * transaction_manager) :=
  flush_loop (Z.to_nat (buckets_count_real (hashtable db))) worker db mgr database_number deletion_start_ms 0.

(** ** The keys of a database *)

(** The key in the bucket, unless the entry is newer than the scan. *)
Definition fetch_key (db : storage_db) (tx : transaction) (database_number scan_start_ms bucket_index : Z)
    : option (storage_db * transaction * option (list Z)) :=
  '(d, tx, r) ← hashtable_mcmp_op_get_by_index_all_databases (hashtable db) tx bucket_index;
  let db := with_table db d in
  match r with
  | None => Some (db, tx, None)
  | Some p =>
      e ← heap db !! p;
      if scan_start_ms <? created_time_ms e then Some (db, tx, None) else
      '(d, tx, k) ← hashtable_mcmp_op_get_key (hashtable db) database_number tx bucket_index;
      Some (with_table db d, tx, k)
  end.

(** The fuel is the one of the glob matcher; [None] when it does not answer. *)
Definition key_matches (glob_fuel : nat) (pattern : list Z) (pattern_length : Z) (k : list Z) : option bool :=
  if 0 <? pattern_length
  then match UtilsString.utils_string_glob_match glob_fuel k pattern pattern_length with
       | UtilsString.Done b => Some b
       | _ => None
       end
  else Some true.

Fixpoint keys_loop (fuel glob_fuel : nat) (worker : Z) (db : storage_db) (mgr : transaction_manager)
    (database_number cursor count scan_start_ms : Z) (pattern : list Z) (pattern_length cursor_next : Z)
    (keys : list (list Z)) : option (storage_db * transaction_manager * list (list Z) * Z) :=
  bucket_index ← hashtable_mcmp_op_iter_internal (hashtable db) false database_number cursor_next (2 ^ 64 - 1);
  if bucket_index =? OP_ITER_END then Some (db, mgr, keys, 0) else
  match fuel with
  | O => None
  | S fuel =>
      let cursor_next := u64 (bucket_index + 1) in
      let '(mgr, tx) := transaction_acquire worker mgr in
      '(db, tx, k) ← fetch_key db tx database_number scan_start_ms bucket_index;
      '(d, _) ← transaction_release (hashtable db) tx;
      let db := with_table db d in
      keys ← match k with
             | None => Some keys
             | Some k => m ← key_matches glob_fuel pattern pattern_length k; Some (if m : bool then keys ++ [k] else keys)
             end;
      if cursor_next <? u64 (cursor + count)
      then keys_loop fuel glob_fuel worker db mgr database_number cursor count scan_start_ms pattern pattern_length
             cursor_next keys
      else Some (db, mgr, keys, cursor_next)
  end.

(** The keys, NULL or a list, and [*cursor_next]. *)
Definition storage_db_op_get_keys (glob_fuel : nat) (worker : Z) (db : storage_db) (mgr : transaction_manager)
    (scan_start_ms database_number cursor count : Z) (pattern : list Z) (pattern_length : Z)
    : option (storage_db * transaction_manager * option (list (list Z)) * Z) :=
  n ← storage_db_op_get_keys_count_per_db db database_number;
  if n =? 0 then Some (db, mgr, None, cursor) else
  if buckets_count_real (hashtable db) <=? cursor then Some (db, mgr, None, cursor) else
  let count := if count =? 0 then buckets_count_real (hashtable db) else count in
  '(db, mgr, keys, cursor_next) ← keys_loop (Z.to_nat (buckets_count_real (hashtable db))) glob_fuel worker db mgr
     database_number cursor count scan_start_ms pattern pattern_length cursor [];
  Some (db, mgr, Some keys, cursor_next).

(** What a client does with SCAN: from cursor 0 until the reply has cursor 0. *)
Fixpoint scan_all (fuel glob_fuel : nat) (worker : Z) (db : storage_db) (mgr : transaction_manager)
    (scan_start_ms database_number cursor count : Z) (pattern : list Z) (pattern_length : Z)
    : option (storage_db * transaction_manager * list (list Z)) :=
  '(db, mgr, keys, next) ← storage_db_op_get_keys glob_fuel worker db mgr scan_start_ms database_number cursor count
     pattern pattern_length;
  if next =? 0 then Some (db, mgr, default [] keys) else
  match fuel with
  | O => None
  | S fuel =>
      '(db, mgr, rest) ← scan_all fuel glob_fuel worker db mgr scan_start_ms database_number next count pattern
         pattern_length;
      Some (db, mgr, default [] keys ++ rest)
  end.

(** ** Reading a bucket leaves the database as it was *)

Section scan.
Context (hash_fn : Z -> list Z -> Z).
Implicit Types (db : storage_db) (d : hashtable_data) (P : address_map) (M : value_map) (L : live_map) (H : holders).

Local Abbreviation table_inv := (HashtableMcmpSpec.table_inv hash_fn).
Local Abbreviation db_inv := (StorageDbOps.db_inv hash_fn).

Lemma relock d ls :
  unlocked d -> zlen ls = zlen (locks d) ->
  with_locks (with_locks d ls) (replicate (length (locks (with_locks d ls))) transaction_rwspinlock_init) = d.
Proof.
  intros Hu Hl. cbn [locks with_locks]. replace (length ls) with (length (locks d)) by (unfold zlen in Hl; lia).
  unfold unlocked in Hu. rewrite <- Hu. by destruct d.
Qed.

Lemma bucket_index_split c s : 0 <= s < CHUNK_SLOTS ->
  (c * CHUNK_SLOTS + s) / CHUNK_SLOTS = c /\ (c * CHUNK_SLOTS + s) `mod` CHUNK_SLOTS = s.
Proof.
  unfold CHUNK_SLOTS. intros Hs. split; [rewrite Z.div_add_l by lia; rewrite Z.div_small; lia|].
  rewrite Z.add_comm, Z_mod_plus_full. apply Z.mod_small. lia.
Qed.

Lemma get_by_index_spec d tx c s n k v :
  table_inv None d -> solo (locks d) tx -> locks_list tx = [] -> entry_at d c s n k v ->
  exists ls tx', hashtable_mcmp_op_get_by_index d tx (c * CHUNK_SLOTS + s) = Some (with_locks d ls, tx', Some (n, v)) /\
    zlen ls = zlen (locks d) /\ solo ls tx' /\ zlen (locks_list tx') <= 1 /\
    reads (locks_list tx') c = 1 /\ has_write (locks_list tx') c = false.
Proof.
  intros Hi Hs Hl He. destruct (entry_in_table hash_fn d c s n k v Hi He) as [Hc Hsr].
  destruct (entry_slot_id hash_fn d c s n k v Hi He) as (ch & Hch & Hid & Hd). unfold hashtable_mcmp_op_get_by_index.
  destruct (bucket_index_split c s Hsr) as [-> ->]. rewrite Hch. cbn [mbind option_bind]. rewrite Hid. cbn [mbind option_bind].
  pose proof (HashtableMcmpSpec.quarter_nonneg hash_fn n k) as Hq. unfold SEARCH_MAX in Hd.
  rewrite slot_id_filled by (done || mach_lia). cbn [Z.eqb].
  destruct (read_lock_spec d tx c Hs) as (ls & tx' & -> & Hls & Hs' & Hst & Hw);
    [rewrite (sh_locks _ (inv_shape _ _ _ Hi)); done|by rewrite Hl|].
  cbn [mbind option_bind negb keys_values with_locks]. pose proof He as [_ Hkv]. unfold kv_at in Hkv. rewrite Hkv.
  cbn [mbind option_bind database_number data filled].
  exists ls, tx'. rewrite (step_reads_eq _ _ _ _ Hst), Hw, Hl. cbn. split_and!; try done.
  pose proof (step_len _ _ _ _ Hst) as Hlen. rewrite Hl in Hlen. unfold zlen in *. cbn [length] in Hlen. lia.
Qed.

Lemma fetch_key_spec db tx P L M H n start c s k p e :
  db_inv db P L M H -> solo (locks (hashtable db)) tx -> locks_list tx = [] ->
  entry_at (hashtable db) c s n k p -> heap db !! p = Some e ->
  exists ls tx', fetch_key db tx n start (c * CHUNK_SLOTS + s) =
      Some (with_table db (with_locks (hashtable db) ls), tx', if start <? created_time_ms e then None else Some k) /\
    zlen ls = zlen (locks (hashtable db)) /\ solo ls tx'.
Proof.
  intros Hinv Hs Hl He Hp. pose proof (di_table _ _ _ _ _ _ Hinv) as Ht.
  destruct (get_by_index_spec _ tx c s n k p Ht Hs Hl He) as (ls & tx1 & Hg & Hls & Hs1 & Hlen & _).
  unfold fetch_key, hashtable_mcmp_op_get_by_index_all_databases. rewrite Hg. cbn [mbind option_bind].
  cbn [heap with_table]. rewrite Hp. cbn [mbind option_bind]. destruct (start <? created_time_ms e).
  - exists ls, tx1. by split_and!.
  - cbn [hashtable with_table].
    destruct (get_key_spec hash_fn (with_locks (hashtable db) ls) tx1 c s n k p) as (ls2 & tx2 & -> & Hl2 & Hs2);
      [by apply inv_with_locks|done|unfold UINT16_MAX; lia|exact He|].
    cbn [mbind option_bind locks with_locks] in *. exists ls2, tx2. split_and!; [done|congruence|done].
Qed.

(** The entry of a bucket of the table is alive in the heap. *)
Lemma entry_alive db P L M H n c s k p :
  db_inv db P L M H -> entry_at (hashtable db) c s n k p ->
  P !! (n, k) = Some p /\ exists e, heap db !! p = Some e.
Proof.
  intros Hinv He. assert (P !! (n, k) = Some p) as HP by (apply (di_represents _ _ _ _ _ _ Hinv); eauto).
  split; [done|]. destruct (lk_value _ _ _ (di_links _ _ _ _ _ _ Hinv) _ _ HP) as ([v t] & HL & _).
  destruct (hi_live _ _ _ (so_heap _ _ _ (di_sound _ _ _ _ _ _ Hinv)) p v t HL) as (e & ? & _). by exists e.
Qed.

(** No entry is in the last chunk. *)
Lemma entry_before_last d c s n k v :
  table_inv None d -> entry_at d c s n k v -> 0 <= c * CHUNK_SLOTS + s /\ c * CHUNK_SLOTS + s + 1 < chunks_count d * CHUNK_SLOTS.
Proof.
  intros Hi He. destruct (entry_in_table hash_fn d c s n k v Hi He) as [Hc Hs].
  destruct (entry_slot_id hash_fn d c s n k v Hi He) as (_ & _ & _ & Hd).
  pose proof (home_range hash_fn d n k (inv_shape _ _ _ Hi)). unfold CHUNK_SLOTS, SEARCH_MAX in *. lia.
Qed.

(** *** The keys found in the buckets from [lo] to [hi], to the end when [hi] is 0 *)

Section keys.
Context (glob_fuel : nat) (pattern : list Z) (pattern_length n start : Z).

Definition found db (lo hi : Z) (k : list Z) : Prop :=
  exists c s p e, lo <= c * CHUNK_SLOTS + s /\ (hi = 0 \/ c * CHUNK_SLOTS + s < hi) /\
    entry_at (hashtable db) c s n k p /\ heap db !! p = Some e /\ created_time_ms e <= start /\
    key_matches glob_fuel pattern pattern_length k = Some true.

Definition matcher_answers P : Prop :=
  forall k, is_Some (P !! (n, k)) -> is_Some (key_matches glob_fuel pattern pattern_length k).

Lemma found_step db c s k p e m lo hi :
  table_inv None (hashtable db) -> entry_at (hashtable db) c s n k p -> heap db !! p = Some e ->
  key_matches glob_fuel pattern pattern_length k = Some m ->
  (forall q, lo <= q < c * CHUNK_SLOTS + s -> ~ match_bucket (hashtable db) false n q) ->
  lo <= c * CHUNK_SLOTS + s -> hi = 0 \/ c * CHUNK_SLOTS + s < hi ->
  forall k', found db lo hi k' <->
    (k' = k /\ created_time_ms e <= start /\ m = true) \/ found db (c * CHUNK_SLOTS + s + 1) hi k'.
Proof.
  intros Hi He Hp Hm Hno Hlo Hhi k'. split.
  - intros (c' & s' & p' & e' & H1 & H2 & He' & Hp' & Hc & Hm').
    destruct (decide (c' * CHUNK_SLOTS + s' = c * CHUNK_SLOTS + s)) as [Heq|Hne].
    + left. destruct (entry_in_table hash_fn _ _ _ _ _ _ Hi He) as [_ Hs].
      destruct (entry_in_table hash_fn _ _ _ _ _ _ Hi He') as [_ Hs'].
      destruct (bucket_inj c s c' s' Hs Hs' (eq_sym Heq)) as [-> ->].
      pose proof He as [_ Hkv]. pose proof He' as [_ Hkv']. rewrite Hkv in Hkv'.
      apply filled_inj in Hkv' as (_ & <- & <-). rewrite Hp in Hp'. injection Hp' as <-. rewrite Hm in Hm'. by injection Hm' as ->.
    + right. exists c', s', p', e'. split_and!; try done. destruct (decide (c' * CHUNK_SLOTS + s' < c * CHUNK_SLOTS + s)); [|lia].
      exfalso. apply (Hno (c' * CHUNK_SLOTS + s')); [lia|]. apply (match_at_bucket hash_fn); [done|].
      exists n, k', p'. split; [done|by right].
  - intros [(-> & Hc & ->)|(c' & s' & p' & e' & H1 & H2 & Hrest)].
    + exists c, s, p, e. by split_and!.
    + exists c', s', p', e'. split; [lia|]. by split.
Qed.

Lemma keys_loop_spec worker P L M H fuel db cursor count : forall mgr cursor_next keys,
  db_inv db P L M H -> unlocked (hashtable db) -> in_u 16 (manager_worker worker mgr) -> matcher_answers P ->
  0 <= cursor -> 0 <= count -> cursor + count < 2 ^ 64 ->
  0 <= cursor_next <= chunks_count (hashtable db) * CHUNK_SLOTS ->
  chunks_count (hashtable db) * CHUNK_SLOTS <= cursor_next + Z.of_nat fuel ->
  exists mgr' new next, keys_loop fuel glob_fuel worker db mgr n cursor count start pattern pattern_length cursor_next keys =
      Some (db, mgr', keys ++ new, next) /\ in_u 16 (manager_worker worker mgr') /\
    (next = 0 \/ cursor_next < next < chunks_count (hashtable db) * CHUNK_SLOTS /\ cursor + count <= next) /\
    NoDup new /\ forall k, k ∈ new <-> found db cursor_next next k.
Proof.
  induction fuel as [|fuel IH]; intros mgr cursor_next keys Hinv Hu Hw Hma H0 H1 H2 Hb Hf; cbn [keys_loop];
    pose proof (di_table _ _ _ _ _ _ Hinv) as Ht; pose proof (shape_real_bound _ (inv_shape _ _ _ Ht)) as Hmax;
    destruct (iter_internal_spec hash_fn (hashtable db) false n cursor_next Ht Hmax Hb) as (r & -> & Hr);
    cbn [mbind option_bind]; destruct Hr as [[-> Hr]|(Hle & Hm & Hbf)]; try lia;
    try (exists mgr, [], 0; rewrite app_nil_r; split_and!; [done|done|by left|constructor|];
      intros k; rewrite elem_of_nil; split; [done|]; intros (c & s & p & e & Hlo & _ & He & _);
      apply (Hr (c * CHUNK_SLOTS + s)); [lia|]; apply (match_at_bucket hash_fn); [done|]; exists n, k, p; split; [done|by right]).
  destruct (Z.eqb_spec r OP_ITER_END) as [->|_]; [unfold OP_ITER_END in *; lia|].
  destruct (acquire_fresh worker mgr Hw) as (mgr1 & tx & -> & Hid & Hl & Hmw).
  destruct Hm as (n' & k & p & He & [Hf0| ->]); [done|]. pose proof (bucket_split r) as Hsp.
  set (c := r / CHUNK_SLOTS) in *. set (s := r `mod` CHUNK_SLOTS) in *. rewrite Hsp in Hle, Hbf |- *.
  destruct (entry_alive db P L M H n c s k p Hinv He) as [HP [e Hp]].
  destruct (fetch_key_spec db tx P L M H n start c s k p e Hinv (solo_start _ tx Hu Hid Hl) Hl He Hp)
    as (ls & tx1 & -> & Hls & Hs1). cbn [mbind option_bind].
  destruct (release_solo (with_locks (hashtable db) ls) tx1 Hs1) as [tx2 Hrel].
  cbn [hashtable with_table]. rewrite Hrel, relock by done. cbn [mbind option_bind].
  assert (with_table (with_table db (with_locks (hashtable db) ls)) (hashtable db) = db) as -> by by destruct db.
  destruct (entry_before_last _ _ _ _ _ _ Ht He) as [Hpos Hlast]. rewrite (wrap_small 64) by (unfold CHUNK_SLOTS in *; mach_lia).
  destruct (Hma k ltac:(by eexists)) as [m Hmk].
  pose (new0 := if start <? created_time_ms e then [] else if m : bool then [k] else @nil (list Z)).
  assert (forall A (f : list (list Z) -> option A),
    (keys0 ← match (if start <? created_time_ms e then None else Some k) with
             | None => Some keys
             | Some k => m ← key_matches glob_fuel pattern pattern_length k; Some (if m : bool then keys ++ [k] else keys)
             end; f keys0) = f (keys ++ new0)) as ->.
  { intros A f. unfold new0. destruct (start <? created_time_ms e); [by rewrite app_nil_r|]. rewrite Hmk. cbn [mbind option_bind].
    destruct m; [done|by rewrite app_nil_r]. }
  assert (forall k', k' ∈ new0 <-> k' = k /\ created_time_ms e <= start /\ m = true) as Hnew0.
  { intros k'. unfold new0. destruct (Z.ltb_spec start (created_time_ms e)); [rewrite elem_of_nil; split; [done|lia]|].
    destruct m; rewrite ?list_elem_of_singleton, ?elem_of_nil; naive_solver. }
  assert (NoDup new0) as Hnd0.
  { unfold new0. destruct (start <? created_time_ms e); [constructor|]. destruct m; [apply NoDup_singleton|constructor]. }
  assert (forall hi k', found db (c * CHUNK_SLOTS + s + 1) hi k' -> k' ∉ new0) as Hdis.
  { intros hi k' (c' & s' & p' & e' & Hlo & _ & He' & _) Hin. apply Hnew0 in Hin as [-> _].
    destruct (inv_unique _ _ _ Ht _ _ _ _ _ _ _ _ He He') as [-> ->]. lia. }
  rewrite (wrap_small 64 (cursor + count)) by lia.
  destruct (Z.ltb_spec (c * CHUNK_SLOTS + s + 1) (cursor + count)) as [Hlt|Hge].
  - destruct (IH mgr1 (c * CHUNK_SLOTS + s + 1) (keys ++ new0) Hinv Hu ltac:(by rewrite Hmw) Hma H0 H1 H2 ltac:(lia) ltac:(lia))
      as (mgr' & new & next & -> & Hw' & Hnext & Hnd & Hnew).
    exists mgr', (new0 ++ new), next. rewrite app_assoc. split_and!; try done.
    + destruct Hnext as [|[? ?]]; [by left|right; lia].
    + apply NoDup_app. split; [done|]. split; [|done]. intros k' Hin Hin2. apply Hnew in Hin2. by apply (Hdis next k').
    + intros k'. rewrite elem_of_app, Hnew0, Hnew. symmetry. eapply found_step; try done; [lia|].
      destruct Hnext as [|[? ?]]; [by left|right; lia].
  - exists mgr1, new0, (c * CHUNK_SLOTS + s + 1). split_and!; try done; [by rewrite Hmw|right; lia|].
    intros k'. rewrite Hnew0. rewrite (found_step db c s k p e m) by (done || lia). split; [by left|].
    intros [?|(c' & s' & p' & e' & Hlo & [?|?] & _)]; [done|lia|lia].
Qed.

Lemma get_keys_spec worker P L M H db mgr cursor count cnt :
  db_inv db P L M H -> unlocked (hashtable db) -> in_u 16 (manager_worker worker mgr) -> matcher_answers P ->
  storage_db_op_get_keys_count_per_db db n = Some cnt -> cnt <> 0 ->
  0 <= cursor < buckets_count_real (hashtable db) -> 0 <= count < 2 ^ 63 -> buckets_count_real (hashtable db) < 2 ^ 63 ->
  exists mgr' keys next, storage_db_op_get_keys glob_fuel worker db mgr start n cursor count pattern pattern_length =
      Some (db, mgr', Some keys, next) /\ in_u 16 (manager_worker worker mgr') /\
    (next = 0 \/ cursor < next < buckets_count_real (hashtable db) /\
       cursor + (if count =? 0 then buckets_count_real (hashtable db) else count) <= next) /\
    NoDup keys /\ forall k, k ∈ keys <-> found db cursor next k.
Proof.
  intros Hinv Hu Hw Hma Hcnt Hnz Hc Hcount Hmax. unfold storage_db_op_get_keys. rewrite Hcnt. cbn [mbind option_bind].
  destruct (Z.eqb_spec cnt 0); [done|]. destruct (Z.leb_spec (buckets_count_real (hashtable db)) cursor); [lia|].
  pose proof (sh_real _ (inv_shape _ _ _ (di_table _ _ _ _ _ _ Hinv))) as Hreal.
  set (total := buckets_count_real (hashtable db)) in *. set (m := if count =? 0 then total else count).
  assert (0 <= m < 2 ^ 63) as Hm by (unfold m; zcase; mach_lia).
  destruct (keys_loop_spec worker P L M H (Z.to_nat total) db cursor m mgr cursor [] Hinv Hu Hw Hma)
    as (mgr' & new & next & -> & Hw' & Hnext & Hnd & Hnew); [lia|lia|mach_lia|lia|lia|]. cbn [mbind option_bind app].
  exists mgr', new, next. split_and!; try done. rewrite Hreal. exact Hnext.
Qed.

(** The keys found up to a bucket and from it on. *)
Lemma found_split db lo mid k : lo <= mid -> mid <> 0 -> found db lo 0 k <-> (found db lo mid k \/ found db mid 0 k).
Proof.
  intros Hle Hnz. split.
  - intros (c & s & p & e & H1 & _ & Hrest). destruct (decide (c * CHUNK_SLOTS + s < mid)).
    + left. exists c, s, p, e. split; [done|]. split; [by right|done].
    + right. exists c, s, p, e. split; [lia|]. split; [by left|done].
  - intros [(c & s & p & e & H1 & _ & Hrest)|(c & s & p & e & H1 & _ & Hrest)]; exists c, s, p, e; (split; [lia|]); (split; [by left|done]).
Qed.

Lemma scan_all_spec worker P L M H db count cnt fuel : forall mgr cursor,
  db_inv db P L M H -> unlocked (hashtable db) -> in_u 16 (manager_worker worker mgr) -> matcher_answers P ->
  storage_db_op_get_keys_count_per_db db n = Some cnt -> cnt <> 0 ->
  0 <= cursor < buckets_count_real (hashtable db) -> 0 <= count < 2 ^ 63 -> buckets_count_real (hashtable db) < 2 ^ 63 ->
  buckets_count_real (hashtable db) <= cursor + Z.of_nat fuel ->
  exists mgr' keys, scan_all fuel glob_fuel worker db mgr start n cursor count pattern pattern_length = Some (db, mgr', keys) /\
    NoDup keys /\ forall k, k ∈ keys <-> found db cursor 0 k.
Proof.
  induction fuel as [|fuel IH]; intros mgr cursor Hinv Hu Hw Hma Hcnt Hnz Hc Hcount Hmax Hf; [lia|]. cbn [scan_all].
  destruct (get_keys_spec worker P L M H db mgr cursor count cnt Hinv Hu Hw Hma Hcnt Hnz Hc Hcount Hmax)
    as (mgr1 & keys & next & -> & Hw1 & Hnext & Hnd & Hkeys). cbn [mbind option_bind default from_option id].
  destruct (Z.eqb_spec next 0) as [->|Hn0]; [by exists mgr1, keys|]. destruct Hnext as [|[Hn _]]; [done|].
  destruct (IH mgr1 next Hinv Hu Hw1 Hma Hcnt Hnz ltac:(lia) Hcount Hmax ltac:(lia)) as (mgr' & rest & -> & Hnd2 & Hrest).
  cbn [mbind option_bind]. exists mgr', (keys ++ rest). split; [done|]. split.
  - apply NoDup_app. split; [done|]. split; [|done].
    intros k (c & s & p & e & _ & Hhi & He & _)%Hkeys (c' & s' & p' & e' & Hlo & _ & He' & _)%Hrest.
    destruct (inv_unique _ _ _ (di_table _ _ _ _ _ _ Hinv) _ _ _ _ _ _ _ _ He He') as [-> ->]. lia.
  - intros k. rewrite elem_of_app, Hkeys, Hrest. symmetry. apply found_split; lia.
Qed.

(** When no entry is newer than the scan, what is found in the whole table are
    the keys that match. *)
Lemma found_all P L M H db k :
  db_inv db P L M H -> (forall p e, heap db !! p = Some e -> created_time_ms e <= start) ->
  found db 0 0 k <-> (is_Some (M !! (n, k)) /\ key_matches glob_fuel pattern pattern_length k = Some true).
Proof.
  intros Hinv Hold. rewrite <- (lk_is_Some P L M (n, k)) by apply (di_links _ _ _ _ _ _ Hinv). split.
  - intros (c & s & p & e & _ & _ & He & _ & _ & Hm). destruct (entry_alive _ _ _ _ _ _ _ _ _ _ Hinv He) as [HP _].
    split; [by eexists|done].
  - intros [[p HP] Hm]. apply (di_represents _ _ _ _ _ _ Hinv) in HP as (c & s & He).
    destruct (entry_alive _ _ _ _ _ _ _ _ _ _ Hinv He) as [_ [e Hp]]. exists c, s, p, e.
    destruct (entry_before_last _ _ _ _ _ _ (di_table _ _ _ _ _ _ Hinv) He). split_and!; try done; [by left|by eapply Hold].
Qed.

End keys.
(** ** Flush *)

(** The entries of [db'] are entries of [db], with their creation times and
    databases. *)
Definition same_origin (e e' : entry_index) : Prop :=
  created_time_ms e = created_time_ms e' /\ entry_database_number e = entry_database_number e'.

Definition created_kept (db db' : storage_db) : Prop :=
  forall p e', heap db' !! p = Some e' -> exists e, heap db !! p = Some e /\ same_origin e e'.

Lemma created_kept_refl db db' : heap db' = heap db -> created_kept db db'.
Proof. intros Hh p e. rewrite Hh. by exists e. Qed.

Lemma created_kept_trans db1 db2 db3 : created_kept db1 db2 -> created_kept db2 db3 -> created_kept db1 db3.
Proof.
  intros H1 H2 p e (e2 & He2 & Hc & Hn)%H2. destruct (H1 _ _ He2) as (e1 & He1 & Hc1 & Hn1).
  exists e1. split; [done|]. split; congruence.
Qed.

Lemma created_kept_update db p e e' :
  heap db !! p = Some e -> same_origin e e' -> created_kept db (update_entry db p e').
Proof.
  intros He Hc q x Hq. cbn in Hq. apply lookup_insert_Some in Hq as [[<- <-]|[_ Hq]]; [by exists e|by exists x].
Qed.

Lemma created_kept_delete db p : created_kept db (with_heap db (delete p (heap db))).
Proof. intros q x Hq. cbn in Hq. apply lookup_delete_Some in Hq as [_ Hq]. by exists x. Qed.

Lemma chunks_free_kept db p db' : storage_db_entry_index_chunks_free db p = Some db' -> created_kept db db'.
Proof.
  unfold storage_db_entry_index_chunks_free. destruct (heap db !! p) as [e|] eqn:He; [|done]. cbn [mbind option_bind].
  intros [= <-]. destruct (0 <? _); [by eapply created_kept_update|by apply created_kept_refl].
Qed.

Lemma ring_free_kept db p db' : storage_db_entry_index_ring_buffer_free db p = Some db' -> created_kept db db'.
Proof.
  unfold storage_db_entry_index_ring_buffer_free, storage_db_entry_index_free. set (rb := deleted_entry_index_ring_buffer db).
  intros Hf. destruct (RingQueue.is_full rb).
  - destruct (RingQueue.dequeue 0 rb) as [rb' [q ok]]. destruct (storage_db_entry_index_chunks_free (with_ring db rb') q) as [db1|] eqn:Hc; [|done].
    cbn [mbind option_bind] in Hf. destruct (RingQueue.enqueue _ p) as [rb2 r]. destruct (check r); [|done]. cbn in Hf. injection Hf as <-.
    eapply created_kept_trans; [|eapply created_kept_trans; [apply (created_kept_delete db1 q)|by apply created_kept_refl]].
    exact (chunks_free_kept (with_ring db rb') q db1 Hc).
  - cbn [mbind option_bind] in Hf. destruct (RingQueue.enqueue _ p) as [rb2 r]. destruct (check r); [|done]. cbn in Hf. injection Hf as <-.
    by apply created_kept_refl.
Qed.

Lemma mark_kept db p db' :
  storage_db_worker_mark_deleted_or_deleting_previous_entry_index db p = Some db' -> created_kept db db'.
Proof.
  unfold storage_db_worker_mark_deleted_or_deleting_previous_entry_index. destruct (heap db !! p) as [e|] eqn:He; [|done].
  cbn [mbind option_bind]. destruct (storage_db_entry_index_status_set_deleted (status e) true) as [w old].
  pose proof (created_kept_update db p e (set_status e w) He (conj eq_refl eq_refl)) as H0. set (db0 := update_entry db p (set_status e w)) in *.
  destruct (readers_counter old =? 0).
  - destruct (storage_db_entry_index_chunks_free db0 p) as [db1|] eqn:H1; [|done]. cbn [mbind option_bind]. intros H2.
    eapply created_kept_trans; [exact H0|]. eapply created_kept_trans; [by eapply chunks_free_kept|by eapply ring_free_kept].
  - destruct (check _); [|done]. cbn [mbind option_bind]. intros [= <-]. eapply created_kept_trans; [exact H0|by apply created_kept_refl].
Qed.

Lemma delete_current_kept db L H n p db' :
  sound db L H -> 0 <= n < 2 ^ 32 -> delete_current db n p = Some db' -> created_kept db db'.
Proof.
  intros Hso Hn. unfold delete_current. destruct (value_size db p) as [z|]; [|done]. cbn [mbind option_bind].
  destruct (counters_step db n (add_counters (-1) (- z) 1 z) L H Hso Hn) as (db1 & -> & _ & _ & _ & _ & Hh). cbn [mbind option_bind].
  intros Hm. eapply created_kept_trans; [by apply created_kept_refl|by eapply mark_kept].
Qed.

(** The deleted entries that wait and the readers of live entries: what a
    deletion adds to the first it takes from the second. *)
Definition live_readers L H : Z := zlen (filter (fun x => is_Some (L !! x.1)) H).

Lemma live_readers_delete L H p : is_Some (L !! p) -> live_readers (delete p L) H + readers_of H p = live_readers L H.
Proof.
  intros Hp. induction H as [|x H IH]; [done|]. rewrite readers_of_cons. unfold live_readers in *. rewrite !filter_cons.
  destruct (decide (x.1 = p)) as [He|He].
  - rewrite (decide_False (P := is_Some (delete p L !! x.1))) by (rewrite He, lookup_delete_eq; by intros [? ?]).
    rewrite (decide_True (P := is_Some (L !! x.1))) by by rewrite He. rewrite zlen_cons. lia.
  - rewrite lookup_delete_ne by congruence. destruct (decide (is_Some (L !! x.1))); rewrite ?zlen_cons; lia.
Qed.

Lemma live_readers_le L H : live_readers L H <= zlen H.
Proof. unfold live_readers, zlen. pose proof (length_filter (fun x => is_Some (L !! x.1)) H). lia. Qed.

Lemma delete_by_index_spec d tx m c s n k v :
  table_inv None d -> represents d m -> solo (locks d) tx -> reads (locks_list tx) c = 1 ->
  has_write (locks_list tx) c = false -> entry_at d c s n k v ->
  exists d' tx', hashtable_mcmp_op_delete_by_index d n tx true (c * CHUNK_SLOTS + s) = Some (d', tx', Some v) /\
    zlen (locks d') = zlen (locks d) /\ solo (locks d') tx' /\ table_inv None d' /\
    represents d' (delete (n, k) m) /\ chunks_count d' = chunks_count d /\
    forall c' s' n' k' v', entry_at d' c' s' n' k' v' <-> entry_at d c' s' n' k' v' /\ (n', k') <> (n, k).
Proof.
  intros Hi Hm Hs Hr Hw He. destruct (entry_in_table hash_fn d c s n k v Hi He) as [Hc Hsr].
  destruct (entry_slot_id hash_fn d c s n k v Hi He) as (ch & Hch & Hid & Hd). unfold hashtable_mcmp_op_delete_by_index.
  destruct (bucket_index_split c s Hsr) as [-> ->]. rewrite Hch. cbn [mbind option_bind]. rewrite Hid. cbn [mbind option_bind].
  pose proof (HashtableMcmpSpec.quarter_nonneg hash_fn n k) as Hq. unfold SEARCH_MAX in Hd.
  rewrite slot_id_filled by (done || mach_lia). cbn [Z.eqb].
  destruct (write_step_spec (locks d) tx c true Hs) as (ls & tx' & Ho & Hls & Hs' & _);
    [rewrite (sh_locks _ (inv_shape _ _ _ Hi)); done|done|done|].
  change (transaction_upgrade_lock_for_write d tx c) with (lock_step d tx (OpUpgrade c)).
  rewrite lock_step_table, Ho. cbn [mbind option_bind negb keys_values with_locks].
  pose proof He as [_ Hkv]. unfold kv_at in Hkv. rewrite Hkv. cbn [mbind option_bind database_number data filled].
  rewrite Z.eqb_refl. cbn [negb].
  destruct (clear_entry_entries hash_fn (with_locks d ls) c s n k v) as (d' & Hclr & Hi' & Hl' & Hcc & Hse);
    [by apply inv_with_locks|exact He|].
  destruct (clear_slot (with_locks d ls) c s) as [d2|]; [|done]. cbn [mbind option_bind] in *. rewrite Hclr. cbn [mbind option_bind].
  exists d', tx'. rewrite Hl'. cbn [locks with_locks]. split_and!; try done. by eapply represents_delete.
Qed.

(** The visit of a bucket that has an entry of the database. *)
Lemma flush_bucket_spec db tx P L M H n start c s k p e :
  db_inv db P L M H -> solo (locks (hashtable db)) tx -> locks_list tx = [] -> 0 <= n < 2 ^ 32 ->
  entry_at (hashtable db) c s n k p -> heap db !! p = Some e -> zlen (deleting db) + live_readers L H < 999 ->
  exists db' tx', flush_bucket db tx n start (c * CHUNK_SLOTS + s) = Some (db', tx') /\ solo (locks (hashtable db')) tx' /\
    if created_time_ms e <=? start then
      exists L', db_inv db' (delete (n, k) P) L' (delete (n, k) M) H /\
        zlen (deleting db') + live_readers L' H <= zlen (deleting db) + live_readers L H /\
        created_kept db db' /\ chunks_count (hashtable db') = chunks_count (hashtable db) /\
        forall c' s' n' k' v', entry_at (hashtable db') c' s' n' k' v' <->
          entry_at (hashtable db) c' s' n' k' v' /\ (n', k') <> (n, k)
    else exists ls, db' = with_table db (with_locks (hashtable db) ls) /\ zlen ls = zlen (locks (hashtable db)).
Proof.
  intros Hinv Hs Hl Hn He Hp Hpot. pose proof (di_table _ _ _ _ _ _ Hinv) as Ht.
  destruct (get_by_index_spec _ tx c s n k p Ht Hs Hl He) as (ls & tx1 & Hg & Hls & Hs1 & _ & Hr & Hw).
  unfold flush_bucket. rewrite Hg. cbn [mbind option_bind]. rewrite Z.eqb_refl. cbn [heap with_table]. rewrite Hp.
  cbn [mbind option_bind]. destruct (created_time_ms e <=? start).
  - pose proof (di_represents _ _ _ _ _ _ Hinv) as Hrep.
    assert (P !! (n, k) = Some p) as HP by (apply Hrep; eauto).
    destruct (delete_by_index_spec (with_locks (hashtable db) ls) tx1 P c s n k p) as (d' & tx2 & Hdel & Hl2 & Hs2 & Ht2 & Hrep2 & Hcc & Hse);
      [by apply inv_with_locks|done|done|done|done|exact He|].
    unfold storage_db_op_delete_by_index. cbn [hashtable with_table]. rewrite Hdel. cbn [mbind option_bind].
    change (with_table (with_table db (with_locks (hashtable db) ls)) d') with (with_table db d').
    pose proof (sound_with_table db d' _ _ (di_sound _ _ _ _ _ _ Hinv)) as Hso.
    pose proof (live_readers_le L H). assert (0 <= live_readers L H) by apply zlen_nonneg.
    destruct (delete_current_exact (with_table db d') P L M H n k p Hso (di_links _ _ _ _ _ _ Hinv) (di_counts _ _ _ _ _ _ Hinv) HP Hn
      ltac:(cbn; lia)) as (Hpos & db2 & Hcur & Hso2 & Hli2 & Hc2 & Ht2' & Hd2 & _).
    destruct (Z.eqb_spec p 0); [lia|]. cbn [negb]. rewrite Hcur. cbn [mbind option_bind].
    exists db2, tx2. rewrite Ht2'. split; [done|]. split; [done|]. exists (delete p L). split_and!; try done.
    + split; rewrite ?Ht2'; done.
    + rewrite Hd2, zlen_app. destruct (lk_value _ _ _ (di_links _ _ _ _ _ _ Hinv) _ _ HP) as (a & HL & _).
      pose proof (live_readers_delete L H p ltac:(by eexists)). pose proof (readers_of_nonneg H p). cbn [deleting_entry_index_list with_table].
      unfold left_behind. destruct (Z.eqb_spec (readers_of H p) 0); unfold zlen at 2; cbn [length]; lia.
    + exact (delete_current_kept (with_table db d') L H n p db2 Hso Hn Hcur).
  - exists (with_table db (with_locks (hashtable db) ls)), tx1. split; [done|]. split; [done|]. by exists ls.
Qed.

(** The key [k] of the database is in a bucket from [lo] on, and was created
    at [t]. *)
Definition created_at db (n lo : Z) (k : list Z) (t : Z) : Prop :=
  exists c s p e, lo <= c * CHUNK_SLOTS + s /\ entry_at (hashtable db) c s n k p /\ heap db !! p = Some e /\ created_time_ms e = t.

(** What the flush of the buckets from [lo] on does to the map. *)
Definition flushed db (n start lo : Z) M M' : Prop :=
  (forall k, k.1 <> n -> M' !! k = M !! k) /\
  (forall k t, created_at db n lo k t -> M' !! (n, k) = if t <=? start then None else M !! (n, k)) /\
  (forall k, (forall t, ~ created_at db n lo k t) -> M' !! (n, k) = M !! (n, k)).

(** The first bucket of the rest, visited. *)
Lemma created_at_step db n lo c s k p e :
  table_inv None (hashtable db) -> entry_at (hashtable db) c s n k p -> heap db !! p = Some e ->
  (forall q, lo <= q < c * CHUNK_SLOTS + s -> ~ match_bucket (hashtable db) false n q) -> lo <= c * CHUNK_SLOTS + s ->
  (forall t, created_at db n lo k t <-> t = created_time_ms e) /\
  (forall k' t, k' <> k -> created_at db n lo k' t <-> created_at db n (c * CHUNK_SLOTS + s + 1) k' t).
Proof.
  intros Hi He Hp Hno Hle. split.
  - intros t. split.
    + intros (c' & s' & p' & e' & _ & He' & Hp' & <-). destruct (inv_unique _ _ _ Hi _ _ _ _ _ _ _ _ He He') as [<- <-].
      destruct He as [_ Hkv]. destruct He' as [_ Hkv']. rewrite Hkv in Hkv'. apply filled_inj in Hkv' as (_ & _ & <-). congruence.
    + intros ->. by exists c, s, p, e.
  - intros k' t Hne. split; intros (c' & s' & p' & e' & Hlo & He' & Hrest); exists c', s', p', e'; (split; [|by split]); [|lia].
    destruct (decide (c' * CHUNK_SLOTS + s' = c * CHUNK_SLOTS + s)) as [Heq|].
    + exfalso. destruct (entry_in_table hash_fn _ _ _ _ _ _ Hi He) as [_ Hs].
      destruct (entry_in_table hash_fn _ _ _ _ _ _ Hi He') as [_ Hs'].
      destruct (bucket_inj c s c' s' Hs Hs' (eq_sym Heq)) as [-> ->]. pose proof He as [_ Hkv]. pose proof He' as [_ Hkv'].
      rewrite Hkv in Hkv'. apply filled_inj in Hkv' as (_ & <- & _). done.
    + destruct (decide (c' * CHUNK_SLOTS + s' < c * CHUNK_SLOTS + s)); [|lia].
      exfalso. apply (Hno (c' * CHUNK_SLOTS + s')); [lia|]. apply (match_at_bucket hash_fn); [done|]. exists n, k', p'. split; [done|by right].
Qed.


Lemma created_at_bucket db n lo k t :
  table_inv None (hashtable db) -> created_at db n lo k t ->
  exists q, lo <= q /\ match_bucket (hashtable db) false n q.
Proof.
  intros Hi (c & s & p & e & Hlo & He & _). exists (c * CHUNK_SLOTS + s). split; [done|].
  apply (match_at_bucket hash_fn); [done|]. exists n, k, p. split; [done|by right].
Qed.

(** The deletion of the entry of one bucket, then the flush of the rest. *)
Lemma flushed_deleted db db' P L M M' H n start b c s k p e :
  db_inv db P L M H -> (exists P' L', db_inv db' P' L' (delete (n, k) M) H) ->
  entry_at (hashtable db) c s n k p -> heap db !! p = Some e -> created_time_ms e <= start ->
  (forall q, b <= q < c * CHUNK_SLOTS + s -> ~ match_bucket (hashtable db) false n q) -> b <= c * CHUNK_SLOTS + s ->
  created_kept db db' ->
  (forall c' s' n' k' v', entry_at (hashtable db') c' s' n' k' v' <->
     entry_at (hashtable db) c' s' n' k' v' /\ (n', k') <> (n, k)) ->
  flushed db' n start (c * CHUNK_SLOTS + s + 1) (delete (n, k) M) M' -> flushed db n start b M M'.
Proof.
  intros Hinv (P' & L' & Hinv') He Hp Hold Hno Hle Hkept Hse (Hf1 & Hf2 & Hf3).
  destruct (created_at_step db n b c s k p e (di_table _ _ _ _ _ _ Hinv) He Hp Hno Hle) as [Hk Hne].
  assert (forall k' t, k' <> k -> created_at db n b k' t <-> created_at db' n (c * CHUNK_SLOTS + s + 1) k' t) as Hcr.
  { intros k' t Hk'. rewrite Hne by done. split; intros (c' & s' & p' & e' & Hlo & He' & Hp' & <-).
    - assert (entry_at (hashtable db') c' s' n k' p') as He2 by (apply Hse; split; [done|congruence]).
      destruct (entry_alive _ _ _ _ _ _ _ _ _ _ Hinv' He2) as [_ [e2 Hp2]]. exists c', s', p', e2. split_and!; try done.
      destruct (Hkept _ _ Hp2) as (e3 & He3 & Hc3 & _). congruence.
    - apply Hse in He' as [He' _]. destruct (Hkept _ _ Hp') as (e3 & He3 & Hc3 & _). exists c', s', p', e3. by split_and!. }
  assert (forall t, ~ created_at db' n (c * CHUNK_SLOTS + s + 1) k t) as Hgone.
  { intros t (c' & s' & p' & e' & _ & [_ ?]%Hse & _). done. }
  split; [|split].
  - intros k' Hk'. rewrite Hf1 by done. apply lookup_delete_ne. intros <-. done.
  - intros k' t Hc. destruct (decide (k' = k)) as [->|Hk'].
    + apply Hk in Hc as ->. rewrite Hf3 by done. rewrite lookup_delete_eq. destruct (Z.leb_spec (created_time_ms e) start); [done|lia].
    + rewrite (Hf2 k' t) by by apply Hcr. rewrite lookup_delete_ne by congruence. done.
  - intros k' Hc. assert (k' <> k) as Hk' by (intros ->; by apply (Hc (created_time_ms e)), Hk).
    rewrite Hf3 by (intros t Ht; by apply (Hc t), Hcr). by rewrite lookup_delete_ne by congruence.
Qed.

Lemma flushed_skipped db P L M M' H n start b c s k p e :
  db_inv db P L M H -> entry_at (hashtable db) c s n k p -> heap db !! p = Some e -> start < created_time_ms e ->
  (forall q, b <= q < c * CHUNK_SLOTS + s -> ~ match_bucket (hashtable db) false n q) -> b <= c * CHUNK_SLOTS + s ->
  flushed db n start (c * CHUNK_SLOTS + s + 1) M M' -> flushed db n start b M M'.
Proof.
  intros Hinv He Hp Hnew Hno Hle (Hf1 & Hf2 & Hf3). pose proof (di_table _ _ _ _ _ _ Hinv) as Ht.
  destruct (created_at_step db n b c s k p e Ht He Hp Hno Hle) as [Hk Hne]. split; [done|split].
  - intros k' t Hc. destruct (decide (k' = k)) as [->|Hk']; [|by apply Hf2, Hne].
    apply Hk in Hc as ->. destruct (Z.leb_spec (created_time_ms e) start); [lia|]. apply Hf3.
    intros t (c' & s' & p' & e' & Hlo & He' & _). destruct (inv_unique _ _ _ Ht _ _ _ _ _ _ _ _ He He') as [<- <-]. lia.
  - intros k' Hc. assert (k' <> k) as Hk' by (intros ->; by apply (Hc (created_time_ms e)), Hk).
    apply Hf3. intros t Ht'. apply (Hc t). by apply Hne.
Qed.

Lemma flush_loop_spec worker n start H fuel : forall db mgr P L M b,
  db_inv db P L M H -> unlocked (hashtable db) -> in_u 16 (manager_worker worker mgr) -> 0 <= n < 2 ^ 32 ->
  zlen (deleting db) + live_readers L H < 999 ->
  0 <= b <= chunks_count (hashtable db) * CHUNK_SLOTS -> chunks_count (hashtable db) * CHUNK_SLOTS <= b + Z.of_nat fuel ->
  exists db' mgr' M', flush_loop fuel worker db mgr n start b = Some (db', mgr') /\ db_idle hash_fn db' M' H /\
    flushed db n start b M M'.
Proof.
  induction fuel as [|fuel IH]; intros db mgr P L M b Hinv Hu Hw Hn Hpot Hb Hf; cbn [flush_loop];
    pose proof (di_table _ _ _ _ _ _ Hinv) as Ht; pose proof (shape_real_bound _ (inv_shape _ _ _ Ht)) as Hmax;
    destruct (iter_internal_spec hash_fn (hashtable db) false n b Ht Hmax Hb) as (r & -> & Hr);
    cbn [mbind option_bind]; destruct Hr as [[-> Hr]|(Hle & Hm & Hbf)]; try lia.
  1,2: exists db, mgr, M; split; [done|]; split; [split; [by exists P, L|done]|];
    split; [done|split; [|done]]; intros k t Hc; destruct (created_at_bucket _ _ _ _ _ Ht Hc) as (q & Hq & Hmq); by destruct (Hr q Hq).
  destruct (Z.eqb_spec r OP_ITER_END) as [->|_]; [unfold OP_ITER_END in *; lia|].
  destruct (acquire_fresh worker mgr Hw) as (mgr1 & tx & -> & Hid & Hl & Hmw).
  destruct Hm as (n' & k & p & He & [Hf0| ->]); [done|]. pose proof (bucket_split r) as Hsp.
  set (c := r / CHUNK_SLOTS) in *. set (s := r `mod` CHUNK_SLOTS) in *. rewrite Hsp in Hle, Hbf |- *.
  destruct (entry_alive db P L M H n c s k p Hinv He) as [_ [e Hp]].
  destruct (flush_bucket_spec db tx P L M H n start c s k p e Hinv (solo_start _ tx Hu Hid Hl) Hl Hn He Hp Hpot)
    as (db1 & tx1 & -> & Hs1 & Hres). cbn [mbind option_bind].
  destruct (release_solo (hashtable db1) tx1 Hs1) as [tx2 ->]. cbn [mbind option_bind].
  destruct (entry_before_last _ _ _ _ _ _ Ht He) as [Hpos Hlast]. rewrite (wrap_small 64) by (unfold CHUNK_SLOTS in *; mach_lia).
  set (b' := c * CHUNK_SLOTS + s + 1) in *. set (db2 := with_table db1 _).
  destruct (Z.leb_spec (created_time_ms e) start) as [Hold|Hnew].
  - destruct Hres as (L1 & Hinv1 & Hpot1 & Hkept & Hcc & Hse).
    assert (db_inv db2 (delete (n, k) P) L1 (delete (n, k) M) H) as Hinv2
      by (apply db_inv_with_locks; [done|by rewrite zlen_replicate]).
    destruct (IH db2 mgr1 (delete (n, k) P) L1 (delete (n, k) M) b' Hinv2) as (db' & mgr' & M' & -> & Hidle & Hfl).
    + unfold unlocked. cbn. by rewrite length_replicate.
    + by rewrite Hmw.
    + done.
    + change (deleting_entry_index_list db2) with (deleting db1). lia.
    + change (chunks_count (hashtable db2)) with (chunks_count (hashtable db1)). rewrite Hcc. lia.
    + change (chunks_count (hashtable db2)) with (chunks_count (hashtable db1)). rewrite Hcc. lia.
    + exists db', mgr', M'. split; [done|]. split; [done|].
      exact (flushed_deleted db db2 P L M M' H n start b c s k p e Hinv (ex_intro _ _ (ex_intro _ _ Hinv2)) He Hp Hold Hbf
        (proj1 Hle) Hkept Hse Hfl).
  - destruct Hres as (ls & -> & Hls).
    assert (db2 = db) as ->.
    { unfold db2. cbn [hashtable with_table]. rewrite relock by done. by destruct db. }
    destruct (IH db mgr1 P L M b' Hinv Hu ltac:(by rewrite Hmw) Hn Hpot ltac:(lia) ltac:(lia)) as (db' & mgr' & M' & -> & Hidle & Hfl).
    exists db', mgr', M'. split; [done|]. split; [done|].
    exact (flushed_skipped db P L M M' H n start b c s k p e Hinv He Hp Hnew Hbf (proj1 Hle) Hfl).
Qed.

(** ** A random key *)

(** The read of any bucket of the table. *)
Lemma get_key_any d tx b n :
  table_inv None d -> solo (locks d) tx -> zlen (locks_list tx) < UINT16_MAX -> 0 <= b < buckets_count_real d ->
  exists ls tx' r, hashtable_mcmp_op_get_key d n tx b = Some (with_locks d ls, tx', r) /\
    zlen ls = zlen (locks d) /\ solo ls tx' /\ zlen (locks_list tx') <= zlen (locks_list tx) + 1 /\
    match r with
    | Some k => exists v, entry_at d (b / CHUNK_SLOTS) (b `mod` CHUNK_SLOTS) n k v
    | None => forall k v, ~ entry_at d (b / CHUNK_SLOTS) (b `mod` CHUNK_SLOTS) n k v
    end.
Proof.
  intros Hi Hs Hlen Hb. pose proof (inv_shape _ _ _ Hi) as Hsh. rewrite (sh_real _ Hsh) in Hb.
  pose proof (Z.mod_pos_bound b CHUNK_SLOTS ltac:(done)) as Hsr. pose proof (bucket_split b) as Hsp.
  set (c := b / CHUNK_SLOTS) in *. set (s := b `mod` CHUNK_SLOTS) in *.
  assert (0 <= c < chunks_count d) as Hc by (unfold CHUNK_SLOTS in *; lia).
  destruct (read_lock_spec d tx c Hs) as (ls & tx1 & Hrl & Hls & Hs1 & Hst & _); [by rewrite (sh_locks _ Hsh)|done|].
  unfold hashtable_mcmp_op_get_key. fold c s. rewrite Hrl. cbn [mbind option_bind negb half_hashes_chunk keys_values with_locks].
  destruct (zget_in_range (half_hashes_chunk d) c) as [ch Hch]; [by rewrite (sh_half _ Hsh)|]. rewrite Hch. cbn [mbind option_bind].
  destruct (zget_in_range (half_hashes ch) s) as [id Hid]; [by rewrite (ck_len _ (inv_chunk _ _ _ Hi c ch Hch))|].
  rewrite Hid. cbn [mbind option_bind]. assert (slot d c s = Some id) as Hslot by (unfold slot; by rewrite Hch).
  pose proof (step_len _ _ _ _ Hst) as [_ Hlen1].
  destruct (decide (id = 0)) as [->|Hnz].
  - destruct (inv_vacant _ _ _ Hi c s Hslot) as (kv & Hkv & Hf & _). unfold kv_at in Hkv. rewrite Hsp, Hkv. cbn [mbind option_bind].
    assert (KEY_VALUE_IS_EMPTY (flags kv) || KEY_VALUE_HAS_FLAG (flags kv) FLAG_DELETED = true) as Hfl by (by destruct Hf as [->| ->]).
    rewrite Hfl. cbn [orb]. exists ls, tx1, None. split_and!; try done. intros k v [(id & Hs2 & Hnz) _]. congruence.
  - destruct (slot_entry hash_fn d c s id Hi Hslot Hnz) as (n' & k & v & He). pose proof He as [_ Hkv]. pose proof Hkv as Hkv0.
    unfold kv_at in Hkv. rewrite Hsp, Hkv. cbn [mbind option_bind database_number filled flags].
    change (KEY_VALUE_IS_EMPTY FLAG_FILLED || KEY_VALUE_HAS_FLAG FLAG_FILLED FLAG_DELETED) with false. cbn [orb].
    destruct (Z.eqb_spec n' n) as [->|Hne]; cbn [negb].
    + pose proof (get_key_spec hash_fn d tx c s n k v Hi Hs Hlen He) as (ls2 & tx2 & Hgk & _).
      unfold hashtable_mcmp_op_get_key in Hgk. destruct (bucket_index_split c s Hsr) as [Hd Hm]. rewrite Hd, Hm in Hgk.
      rewrite Hrl in Hgk. cbn [mbind option_bind negb half_hashes_chunk keys_values with_locks] in Hgk.
      rewrite Hch in Hgk. cbn [mbind option_bind] in Hgk. rewrite Hid in Hgk. cbn [mbind option_bind] in Hgk.
      rewrite Hkv in Hgk. cbn [mbind option_bind database_number filled flags] in Hgk. rewrite Z.eqb_refl in Hgk. cbn [negb] in Hgk.
      change (KEY_VALUE_IS_EMPTY FLAG_FILLED || KEY_VALUE_HAS_FLAG FLAG_FILLED FLAG_DELETED || false) with false in Hgk.
      cbv iota in Hgk |- *. destruct (copy_key _ _ _) as [r|]; [|done]. cbn [mbind option_bind] in *.
      apply (inj Some), (f_equal snd) in Hgk. cbn [snd] in Hgk. subst r.
      exists ls, tx1, (Some k). split_and!; try done. by exists v.
    + exists ls, tx1, None. split_and!; try done. intros k' v' [_ Hkv']. rewrite Hkv0 in Hkv'.
      by apply filled_inj in Hkv' as (-> & _).
Qed.


(** The key RANDOMKEY returns is in the database.  It goes on until a random
    number falls on the bucket of one of its keys: the list of the numbers runs
    out only when none does. *)
Lemma random_key_spec P L M H n cnt randoms : forall db tx,
  db_inv db P L M H -> solo (locks (hashtable db)) tx -> zlen (locks_list tx) + zlen randoms < UINT16_MAX ->
  Forall (fun r => 0 <= r) randoms -> storage_db_op_get_keys_count_per_db db n = Some cnt -> 0 < cnt ->
  match storage_db_op_random_key randoms db n tx with
  | Some (db', tx', r) => exists ls k, db' = with_table db (with_locks (hashtable db) ls) /\ solo ls tx' /\
      zlen ls = zlen (locks (hashtable db)) /\ r = Some k /\ is_Some (M !! (n, k))
  | None => Forall (fun r => forall k v, let b := r `mod` buckets_count_real (hashtable db) in
      ~ entry_at (hashtable db) (b / CHUNK_SLOTS) (b `mod` CHUNK_SLOTS) n k v) randoms
  end.
Proof.
  induction randoms as [|x randoms IH]; intros db tx Hinv Hs Hlen Hpos Hcnt Hc; cbn [storage_db_op_random_key];
    rewrite Hcnt; cbn [mbind option_bind]; (destruct (Z.leb_spec cnt 0); [lia|]); [by constructor|].
  apply Forall_cons in Hpos as [Hx Hpos]. rewrite zlen_cons in Hlen. pose proof (zlen_nonneg randoms).
  pose proof (di_table _ _ _ _ _ _ Hinv) as Ht.
  assert (0 < buckets_count_real (hashtable db)) as Hreal.
  { rewrite (sh_real _ (inv_shape _ _ _ Ht)). pose proof (home_range hash_fn (hashtable db) 0 [] (inv_shape _ _ _ Ht)).
    unfold CHUNK_SLOTS, SEARCH_MAX in *. lia. }
  unfold hashtable_mcmp_op_get_random_key_try.
  destruct (get_key_any (hashtable db) tx (x `mod` buckets_count_real (hashtable db)) n Ht Hs ltac:(unfold UINT16_MAX in *; lia)
    (Z.mod_pos_bound _ _ Hreal)) as (ls & tx1 & r & -> & Hls & Hs1 & Hlen1 & Hr). cbn [mbind option_bind].
  destruct r as [k|].
  - destruct Hr as [v He]. exists ls, k. split_and!; try done. apply (lk_is_Some P L M (n, k) (di_links _ _ _ _ _ _ Hinv)).
    destruct (entry_alive _ _ _ _ _ _ _ _ _ _ Hinv He) as [HP _]. by eexists.
  - set (db1 := with_table db (with_locks (hashtable db) ls)).
    assert (db_inv db1 P L M H) as Hinv1 by by apply db_inv_with_locks.
    specialize (IH db1 tx1 Hinv1 Hs1 ltac:(lia) Hpos Hcnt Hc).
    destruct (storage_db_op_random_key randoms db1 n tx1) as [[[db' tx'] r]|].
    + destruct IH as (ls2 & k & -> & Hs2 & Hl2 & -> & Hk). exists ls2, k. split_and!; try done. by rewrite Hl2.
    + constructor; [|exact IH]. intros k v. apply Hr.
Qed.

End scan.

(** C30: KEYS and SCAN enumerate a database.  On a database at rest with a
    non-zero count of keys, calling get_keys from cursor 0 until it gives back
    0 ends, and returns each key of the database that matches the pattern
    exactly once; with no limit a single call does, and gives back 0, which is
    what the assertion of KEYS asks for.  No entry is created meanwhile and the
    matcher answers on the keys of the database. *)
Theorem scan_enumerates_keys (hash_fn : Z -> list Z -> Z) (worker : Z) (db : storage_db) (mgr : transaction_manager)
    (readers : list Z) (M : value_map) (R : list chunk_sequence) (glob_fuel : nat) (pattern : list Z)
    (pattern_length n start count cnt : Z) :
  let matches := key_matches glob_fuel pattern pattern_length in
  let total := buckets_count_real (hashtable db) in
  db_stands hash_fn db readers M R -> in_u 16 (manager_worker worker mgr) -> total < 2 ^ 63 ->
  storage_db_op_get_keys_count_per_db db n = Some cnt -> cnt <> 0 -> 0 <= count < 2 ^ 63 ->
  (forall p e, heap db !! p = Some e -> created_time_ms e <= start) ->
  (forall k, is_Some (M !! (n, k)) -> is_Some (matches k)) ->
  (exists mgr' keys, scan_all (Z.to_nat total) glob_fuel worker db mgr start n 0 count pattern pattern_length =
       Some (db, mgr', keys) /\
     NoDup keys /\ forall k, k ∈ keys <-> (is_Some (M !! (n, k)) /\ matches k = Some true)) /\
  (exists mgr' keys, storage_db_op_get_keys glob_fuel worker db mgr start n 0 0 pattern pattern_length =
       Some (db, mgr', Some keys, 0) /\
     NoDup keys /\ forall k, k ∈ keys <-> (is_Some (M !! (n, k)) /\ matches k = Some true)).
Proof.
  intros matches total [(P & L & H & Hinv & _ & _) Hu] Hw Hmax Hcnt Hnz Hcount Hold Hma.
  assert (matcher_answers glob_fuel pattern pattern_length n P) as HmaP.
  { intros k Hk. apply Hma. by apply (lk_is_Some P L M (n, k) (di_links _ _ _ _ _ _ Hinv)). }
  assert (0 < total) as Hpos.
  { pose proof (sh_real _ (inv_shape _ _ _ (di_table _ _ _ _ _ _ Hinv))) as Hr.
    pose proof (home_range hash_fn (hashtable db) 0 [] (inv_shape _ _ _ (di_table _ _ _ _ _ _ Hinv))).
    unfold total. rewrite Hr. unfold CHUNK_SLOTS, SEARCH_MAX in *. lia. }
  pose proof (fun k => found_all hash_fn glob_fuel pattern pattern_length n start P L M H db k Hinv Hold) as Hall. split.
  - destruct (scan_all_spec hash_fn glob_fuel pattern pattern_length n start worker P L M H db count cnt (Z.to_nat total)
      mgr 0 Hinv Hu Hw HmaP Hcnt Hnz) as (mgr' & keys & Heq & Hnd & Hk); [lia|done|done|lia|].
    exists mgr', keys. split; [done|]. split; [done|]. intros k. by rewrite Hk.
  - destruct (get_keys_spec hash_fn glob_fuel pattern pattern_length n start worker P L M H db mgr 0 0 cnt Hinv Hu Hw HmaP Hcnt Hnz)
      as (mgr' & keys & next & Heq & _ & Hnext & Hnd & Hk); [lia|lia|done|].
    assert (next = 0) as -> by (fold total in Hnext; cbn in Hnext; lia).
    exists mgr', keys. split; [done|]. split; [done|]. intros k. by rewrite Hk.
Qed.

(** A database whose count is zero gives the cursor of the caller back: a SCAN
    that has begun never gets to cursor 0. *)
Lemma scan_of_empty_database_repeats_cursor glob_fuel worker db mgr start n cursor count pattern pattern_length :
  storage_db_op_get_keys_count_per_db db n = Some 0 ->
  storage_db_op_get_keys glob_fuel worker db mgr start n cursor count pattern pattern_length = Some (db, mgr, None, cursor).
Proof. intros H. unfold storage_db_op_get_keys. by rewrite H. Qed.

(** C31: FLUSHDB.  On a database at rest, the flush of the database [n] ends
    and leaves a database at rest, without the keys of [n] created until it
    started; the keys created later, and the keys of the other databases, keep
    their values and their expiries, readers keep reading the values they got,
    and the counters count what is left.  At most 998 entries wait for their
    readers. *)
Theorem flush_removes_database (hash_fn : Z -> list Z -> Z) (worker : Z) (db : storage_db) (mgr : transaction_manager)
    (readers : list Z) (M : value_map) (R : list chunk_sequence) (n start : Z) :
  db_stands hash_fn db readers M R -> in_u 16 (manager_worker worker mgr) -> 0 <= n < 2 ^ 32 ->
  zlen (deleting_entry_index_list db) + zlen readers < 999 ->
  exists db' mgr' M', storage_db_op_flush_sync worker db mgr n start = Some (db', mgr') /\
    db_stands hash_fn db' readers M' R /\
    (forall k, is_Some (M !! (n, k)) <-> exists t, created_at db n 0 k t) /\
    (forall k t, created_at db n 0 k t -> M' !! (n, k) = if t <=? start then None else M !! (n, k)) /\
    (forall k, ~ is_Some (M !! (n, k)) -> M' !! (n, k) = None) /\
    (forall k, k.1 <> n -> M' !! k = M !! k) /\
    keys_count (counters_global db') = i64 (key_count M') /\ data_size (counters_global db') = i64 (total M').
Proof.
  intros [(P & L & H & Hinv & -> & ->) Hu] Hw Hn Hlen. pose proof (di_table _ _ _ _ _ _ Hinv) as Ht.
  pose proof (sh_real _ (inv_shape _ _ _ Ht)) as Hreal. pose proof (sh_kvs _ (inv_shape _ _ _ Ht)) as Hkvs.
  pose proof (zlen_nonneg (keys_values (hashtable db))) as Hpos.
  destruct (flush_loop_spec hash_fn worker n start H (Z.to_nat (buckets_count_real (hashtable db))) db mgr P L M 0 Hinv Hu Hw Hn)
    as (db' & mgr' & M' & Hfl & Hidle & Hf1 & Hf2 & Hf3).
  { pose proof (live_readers_le L H). unfold zlen in *. rewrite length_fmap in Hlen. lia. }
  { lia. }
  { lia. }
  assert (forall k, is_Some (M !! (n, k)) <-> exists t, created_at db n 0 k t) as Hcr.
  { intros k. rewrite <- (lk_is_Some P L M (n, k)) by apply (di_links _ _ _ _ _ _ Hinv). split.
    - intros [p (c & s & He)%(di_represents _ _ _ _ _ _ Hinv)].
      destruct (entry_alive _ _ _ _ _ _ _ _ _ _ _ Hinv He) as [_ [e Hp]]. destruct (entry_before_last _ _ _ _ _ _ _ Ht He).
      by exists (created_time_ms e), c, s, p, e.
    - intros (t & c & s & p & e & _ & He & _). destruct (entry_alive _ _ _ _ _ _ _ _ _ _ _ Hinv He) as [HP _]. by eexists. }
  exists db', mgr', M'. split; [done|]. split; [by apply idle_stands|]. split; [done|]. split; [done|]. split; [|split; [done|]].
  - intros k Hk. rewrite Hf3; [by apply eq_None_not_Some|]. intros t Hc. apply Hk, Hcr. by exists t.
  - destruct Hidle as [(P' & L' & [_ _ _ _ Hc]) _]. exact Hc.
Qed.

(** *** Examples *)

Definition example_set : timed := Timed 10 10 (CSet (0, [65]) (text [1]) 0).

(** The keys counted, whether no entry is newer than 10, the deleted entries
    and the buckets of a database. *)
Definition facts_of (s : storage_db * transaction_manager * list Z * db_reply) : option Z * bool * Z * Z :=
  let db := s.1.1.1 in
  (storage_db_op_get_keys_count_per_db db 0, forallb (fun x => created_time_ms x.2 <=? 10) (map_to_list (heap db)),
   zlen (deleting_entry_index_list db), buckets_count_real (hashtable db)).

Definition example_start : option storage_db := storage_db_new 8.
Definition example_step (db0 : storage_db) : option (storage_db * transaction_manager * list Z * db_reply) :=
  run_db_command toy_hash (Config 0 0) 0 (db0, Manager 0 0 true, []) example_set.

Lemma example_facts : (db0 ← example_start; s ← example_step db0; Some (facts_of s)) = Some (Some 1, true, 0, 462).
Proof. vm_compute. reflexivity. Qed.

Lemma pair4 {A B C D} (a a' : A) (b b' : B) (c c' : C) (d d' : D) :
  (a, b, c, d) = (a', b', c', d') -> a = a' /\ b = b' /\ c = c' /\ d = d'.
Proof. by intros [= -> -> -> ->]. Qed.

Lemma bind_facts {A B C} (m : option A) (f : A -> option B) (g : B -> C) a b x :
  m = Some a -> f a = Some b -> (a ← m; b ← f a; Some (g b)) = Some x -> g b = x.
Proof. intros -> Hf. cbn. rewrite Hf. cbn. congruence. Qed.

Lemma example_stands :
  exists db0 db mgr, storage_db_new 8 = Some db0 /\
    run_db_command toy_hash (Config 0 0) 0 (db0, Manager 0 0 true, []) example_set = Some (db, mgr, [], RBool true) /\
    db_stands toy_hash db [] (<[(0, [65]) := (text [1], 0)]> ∅) [] /\ in_u 16 (manager_worker 0 mgr) /\
    storage_db_op_get_keys_count_per_db db 0 = Some 1 /\
    (forall p e, heap db !! p = Some e -> created_time_ms e <= 10) /\
    zlen (deleting_entry_index_list db) = 0 /\ buckets_count_real (hashtable db) = 462.
Proof.
  destruct (new_idle toy_hash 8 ltac:(lia)) as (db0 & Hnew & Hidle).
  destruct (run_db_command_spec toy_hash (Config 0 0) 0 db0 (Manager 0 0 true) ∅ [] example_set Hidle)
    as (db & mgr & r & M & H & Hrun & Hst & Hid & Hw' & _).
  { change (key_ok (0, [65]) /\ value_wf (text [1])). split; [apply letter_ok; lia|by apply text_wf]. }
  { cbv. by split. }
  { by rewrite (new_deleting 8 db0 Hnew). }
  { done. }
  exists db0, db, mgr. split; [done|]. remember (H.*2) as R eqn:HR. inversion Hst; subst.
  - destruct H; [|done]. split; [exact Hrun|]. split; [exact (idle_stands toy_hash db _ [] Hid)|]. split; [done|].
    assert (example_step db0 = Some (db, mgr, [], RBool true)) as Hrun' by exact Hrun.
    assert (example_start = Some db0) as Hnew' by exact Hnew.
    pose proof (bind_facts example_start example_step facts_of db0 _ _ Hnew' Hrun' example_facts) as Hf.
    unfold facts_of in Hf. cbn [fst snd] in Hf.
    apply pair4 in Hf as (Hc & Hf & Hd & Hb).
    split; [exact Hc|]. split; [|split; [exact Hd|exact Hb]]. intros p e He.
    rewrite forallb_forall in Hf. specialize (Hf (p, e)). apply Z.leb_le, Hf. apply list_elem_of_In. by apply elem_of_map_to_list.
  - by match goal with H : 448 <= key_count ∅ |- _ => destruct H end.
Qed.

Lemma scan_enumerates_keys_witness :
  exists db mgr mgr' keys,
    (forall p e, heap db !! p = Some e -> created_time_ms e <= 10) /\
    scan_all (Z.to_nat (buckets_count_real (hashtable db))) 100 0 db mgr 10 0 0 3 [65; 42; 0] 2 = Some (db, mgr', keys) /\
    NoDup keys /\ [65] ∈ keys.
Proof.
  destruct example_stands as (db0 & db & mgr & _ & _ & Hs & Hw & Hc & Ho & _ & Hb).
  assert (forall k, is_Some ((<[(0, [65]) := (text [1], 0)]> ∅ : value_map) !! (0, k)) -> k = [65]) as Hk.
  { intros k. rewrite lookup_insert_is_Some'. intros [[= ->]|[? ?]]; [done|by rewrite lookup_empty in H]. }
  destruct (scan_enumerates_keys toy_hash 0 db mgr [] (<[(0, [65]) := (text [1], 0)]> ∅) [] 100 [65; 42; 0] 2 0 10 3 1
    Hs Hw ltac:(rewrite Hb; lia) Hc ltac:(lia) ltac:(lia) Ho ltac:(intros k ->%Hk; vm_compute; by eexists))
    as [(mgr' & keys & Hall & Hnd & Hin) _].
  exists db, mgr, mgr', keys. split; [done|]. split; [done|]. split; [done|]. apply Hin.
  split; [rewrite lookup_insert_eq; by eexists|by vm_compute].
Defined.

Lemma flush_removes_database_witness :
  exists db mgr db' mgr' M', storage_db_op_flush_sync 0 db mgr 0 15 = Some (db', mgr') /\
    db_stands toy_hash db' [] M' [] /\ (forall k, M' !! (0, k) = None).
Proof.
  destruct example_stands as (db0 & db & mgr & _ & _ & Hs & Hw & Hc & Ho & Hd & _).
  destruct (flush_removes_database toy_hash 0 db mgr [] (<[(0, [65]) := (text [1], 0)]> ∅) [] 0 15
    Hs Hw ltac:(lia) ltac:(rewrite Hd; unfold zlen; cbn [length]; lia)) as (db' & mgr' & M' & Hf & Hs' & Hcr & Hgone & Hno & _).
  exists db, mgr, db', mgr', M'. split; [done|]. split; [done|]. intros k.
  destruct (decide (is_Some ((<[(0, [65]) := (text [1], 0)]> ∅ : value_map) !! (0, k)))) as [Hk|Hk]; [|by apply Hno].
  apply Hcr in Hk as [t Ht]. rewrite (Hgone k t Ht). destruct Ht as (c & s & p & e & _ & _ & He & <-).
  pose proof (Ho p e He). destruct (Z.leb_spec (created_time_ms e) 15); [done|lia].
Defined.

End StorageDbScan.
