(* ===== verification/Config.v ===== *)
(** * Config: values and CPU selectors of the configuration file

    config.c.  The two parsers of the values that the file keeps as strings
    (times with a unit, sizes or percentages) and the functions on the list of
    CPU selectors.  A string is the memory it lives in: reading or writing
    outside of an allocation is [None], the result of the C function is inside.
    Allocations succeed.  [errno] is only tested against [ERANGE], so it is a
    boolean that [strtol] can set and that nothing in these functions clears. *)

From Stdlib Require Import Ascii String.
From stdpp Require Import gmap.
From S2P Require Import Prelude Decimal HashtableSpsc.

Module Config.
Import Decimal.

(** ** Trimming

    [isspace(string[0]) && string_len > 0]: the byte is read first. *)

(** [l] is the memory from [string] on. *)
Fixpoint skip_leading (l : list Z) (string string_len : Z) : option (Z * Z) :=
  match l with
  | [] => None
  | c :: l => if is_space c && (0 <? string_len) then skip_leading l (string + 1) (string_len - 1)
              else Some (string, string_len)
  end.

Fixpoint skip_trailing (buf : list Z) (string : Z) (string_len : nat) : option nat :=
  c ← zget buf (string + Z.of_nat string_len - 1);
  match string_len with
  | O => Some O
  | S n => if is_space c then skip_trailing buf string n else Some (S n)
  end.

(** [strndup]: at most [n] bytes, up to a NUL; the copy ends with a NUL. *)
Fixpoint strndup (l : list Z) (n : nat) : option (list Z) :=
  match n, l with
  | O, _ => Some [0]
  | S _, [] => None
  | S n, c :: l => if c =? 0 then Some [0] else l' ← strndup l n; Some (c :: l')
  end.

(** The value, the offset of [string_end] and what is left there, without its
    NUL; [None] inside when only spaces were given. *)
Definition parse_number (buf : list Z) (string string_len : Z) : option (option (Z * Z * list Z)) :=
  '(string, string_len) ← skip_leading (drop (Z.to_nat string) buf) string string_len;
  string_len ← skip_trailing buf string (Z.to_nat string_len);
  if (string_len =? 0)%nat then Some None else
  dup ← strndup (drop (Z.to_nat string) buf) string_len;
  '(string_value, string_end) ← strtol dup;
  '(string_end, string_end_len) ← skip_leading (drop (Z.to_nat string_end) dup) string_end (zlen dup - 1 - string_end);
  Some (Some (string_value, string_end, take (Z.to_nat string_end_len) (drop (Z.to_nat string_end) dup))).

(** ** config_parse_string_time *)

Definition time_unit (c : Z) : Z :=
  if c =? ch "s" then 1 else if c =? ch "m" then 60 else if c =? ch "h" then 60 * 60
  else if c =? ch "d" then 60 * 60 * 24 else 1.

(** The signed product keeps its low 64 bits (two's complement). *)
Definition config_parse_string_time (buf : list Z) (string string_len : Z)
    (allow_negative allow_zero allow_time_suffix : bool) : option (option Z) :=
  parsed ← parse_number buf string string_len;
  match parsed with
  | None => Some None
  | Some (string_value, string_end, rest) =>
      if string_end =? 0 then Some None
      else if negb allow_negative && (string_value <? 0) then Some None
      else if negb allow_zero && (string_value =? 0) then Some None
      else if negb allow_time_suffix && (zlen rest =? 0) then Some (Some string_value)
      else if allow_time_suffix && (zlen rest =? 1)
        then c ← head rest; Some (Some (i64 (string_value * time_unit c)))
      else Some None
  end.

(** ** config_parse_string_absolute_or_percent *)

Inductive config_parse_string_absolute_or_percent_return_value := VALUE_ABSOLUTE | VALUE_PERCENT.

Definition size_multiplier (suffix : list Z) : option nat :=
  if decide (suffix = bytes_of "b") then Some 0%nat
  else if decide (suffix = bytes_of "kb") then Some 1%nat
  else if decide (suffix = bytes_of "mb") then Some 2%nat
  else if decide (suffix = bytes_of "gb") then Some 3%nat
  else if decide (suffix = bytes_of "tb") then Some 4%nat
  else None.

Fixpoint multiply_1024 (n : nat) (string_value : Z) : Z :=
  match n with O => string_value | S n => multiply_1024 n (i64 (string_value * 1024)) end.

Definition config_parse_string_absolute_or_percent (buf : list Z) (string string_len : Z)
    (allow_negative allow_zero allow_percent allow_absolute allow_size_suffix : bool)
    : option (option (Z * config_parse_string_absolute_or_percent_return_value)) :=
  parsed ← parse_number buf string string_len;
  match parsed with
  | None => Some None
  | Some (string_value, string_end, rest) =>
      if string_end =? 0 then Some None
      else if negb allow_negative && (string_value <? 0) then Some None
      else if negb allow_zero && (string_value =? 0) then Some None
      else if allow_percent && bool_decide (rest = [37])
        then Some (if 100 <? string_value then None else Some (string_value, VALUE_PERCENT))
      else if negb allow_absolute && negb allow_size_suffix then Some None
      else if allow_absolute && (zlen rest =? 0) then Some (Some (string_value, VALUE_ABSOLUTE))
      else if allow_size_suffix && (0 <? zlen rest) then
        Some (match size_multiplier (HashtableSpsc.tolower <$> rest) with
              | Some n => Some (multiply_1024 n string_value, VALUE_ABSOLUTE)
              | None => None
              end)
      else Some None
  end.

(** ** CPU selectors *)

Inductive config_cpus_validate_error :=
| CONFIG_CPUS_VALIDATE_OK
| CONFIG_CPUS_VALIDATE_ERROR_INVALID_CPU
| CONFIG_CPUS_VALIDATE_ERROR_MULTIPLE_RANGES
| CONFIG_CPUS_VALIDATE_ERROR_RANGE_TOO_SMALL
| CONFIG_CPUS_VALIDATE_ERROR_UNEXPECTED_CHARACTER
| CONFIG_CPUS_VALIDATE_ERROR_NO_MULTI_CPUS_WITH_ALL.

#[global] Instance config_cpus_validate_error_eq_dec : EqDecision config_cpus_validate_error.
Proof. solve_decision. Defined.

(** [strtol] with the new value of [errno == ERANGE]. *)
Definition strtol_errno (cpu : list Z) (erange : bool) : option (Z * Z * bool) :=
  '(cpu_number, cpu_end) ← strtol cpu;
  l ← skip_spaces cpu;
  c ← head l;
  let '(negative, l) :=
    if c =? 45 then (true, tail l) else if c =? 43 then (false, tail l) else (false, l) in
  '(v, _) ← strtol_digits l 0;
  let v := if negative : bool then - v else v in
  Some (cpu_number, cpu_end, erange || negb (v =? clamp_long v)).

Definition cpu_is_all (cpu : list Z) : option bool :=
  HashtableSpsc.strn_eq HashtableSpsc.tolower cpu (bytes_of "all" ++ [0]) 3.

Definition cpu_invalid (max_cpus_count cpu_number cpu_end : Z) (erange : bool) : bool :=
  (cpu_end =? 0) || erange || (2 ^ 16 - 1 <? cpu_number) || (max_cpus_count <? cpu_number) || (cpu_number <? 0).

(** The [do ... while] of one selector; [continue] goes to its condition.  The
    result is the error it reports and [errno]. *)
Fixpoint cpus_validate_loop (fuel : nat) (max_cpus_count : Z) (cpu : list Z) (cpu_is_range : bool)
    (cpu_number_range_start : Z) (erange : bool) : option (option config_cpus_validate_error * bool) :=
  match fuel with
  | O => None
  | S fuel =>
      '(cpu_number, cpu_end, erange) ← strtol_errno cpu erange;
      if cpu_invalid max_cpus_count cpu_number cpu_end erange
      then Some (Some CONFIG_CPUS_VALIDATE_ERROR_INVALID_CPU, erange) else
      c ← zget cpu cpu_end;
      if c =? ch "-" then
        if cpu_is_range then Some (Some CONFIG_CPUS_VALIDATE_ERROR_MULTIPLE_RANGES, erange) else
        let cpu := drop (Z.to_nat (cpu_end + 1)) cpu in
        next ← head cpu;
        if next =? 0 then Some (None, erange)
        else cpus_validate_loop fuel max_cpus_count cpu true cpu_number erange
      else if c =? 0 then
        Some (if cpu_is_range && (cpu_number - cpu_number_range_start + 1 <? 2)
              then Some CONFIG_CPUS_VALIDATE_ERROR_RANGE_TOO_SMALL else None, erange)
      else Some (Some CONFIG_CPUS_VALIDATE_ERROR_UNEXPECTED_CHARACTER, erange)
  end.

(** [strlen]: the bytes before the NUL. *)
Fixpoint strlen (l : list Z) : option Z :=
  match l with
  | [] => None
  | c :: l => if c =? 0 then Some 0 else n ← strlen l; Some (n + 1)
  end.

(** The selectors from [cpu_index] on; [errors] is the caller's array, which
    it has zeroed. *)
Fixpoint cpus_validate_from (max_cpus_count : Z) (cpus : list (list Z)) (cpu_index : Z) (has_all error erange : bool)
    (errors : list config_cpus_validate_error) : option (bool * list config_cpus_validate_error) :=
  match cpus with
  | [] => Some (negb error, errors)
  | cpu :: cpus =>
      let continue := cpus_validate_from max_cpus_count cpus (cpu_index + 1) in
      if has_all then
        continue has_all error erange (zset errors cpu_index CONFIG_CPUS_VALIDATE_ERROR_NO_MULTI_CPUS_WITH_ALL)
      else
      all ← cpu_is_all cpu;
      if all : bool then
        len ← strlen cpu;
        if 3 <? len then
          continue has_all error erange (zset errors cpu_index CONFIG_CPUS_VALIDATE_ERROR_INVALID_CPU)
        else if 0 <? cpu_index then
          continue has_all error erange (zset errors cpu_index CONFIG_CPUS_VALIDATE_ERROR_NO_MULTI_CPUS_WITH_ALL)
        else continue true error erange errors
      else
      '(failed, erange) ← cpus_validate_loop 2 max_cpus_count cpu false (-1) erange;
      match failed with
      | Some e => continue has_all true erange (zset errors cpu_index e)
      | None => continue has_all error erange errors
      end
  end.

Definition config_cpus_validate (max_cpus_count : Z) (cpus : list (list Z)) (erange : bool)
    (errors : list config_cpus_validate_error) : option (bool * list config_cpus_validate_error) :=
  cpus_validate_from max_cpus_count cpus 0 false false erange errors.

(** ** config_cpus_parse *)

(** What the loop of one selector leaves: an error, a number, a range, or a
    range whose end is missing. *)
Inductive cpu_parsed := CpuError | CpuOne (cpu_number : Z) | CpuRange (range_start range_end : Z) | CpuOpenRange.

Fixpoint cpus_parse_loop (fuel : nat) (max_cpus_count : Z) (cpu : list Z) (cpu_is_range : bool)
    (cpu_number_range_start : Z) (erange : bool) : option (cpu_parsed * bool) :=
  match fuel with
  | O => None
  | S fuel =>
      '(cpu_number, cpu_end, erange) ← strtol_errno cpu erange;
      if cpu_invalid max_cpus_count cpu_number cpu_end erange then Some (CpuError, erange) else
      c ← zget cpu cpu_end;
      if c =? ch "-" then
        if cpu_is_range then Some (CpuError, erange) else
        let cpu := drop (Z.to_nat (cpu_end + 1)) cpu in
        next ← head cpu;
        if next =? 0 then Some (CpuOpenRange, erange)
        else cpus_parse_loop fuel max_cpus_count cpu true cpu_number erange
      else if c =? 0 then
        Some (if cpu_is_range then
                if cpu_number - cpu_number_range_start + 1 <? 2 then CpuError
                else CpuRange cpu_number_range_start cpu_number
              else CpuOne cpu_number, erange)
      else Some (CpuError, erange)
  end.

(** The array of the selected CPUs: [None] is a cell not written yet. *)
Definition map_realloc (m : list (option Z)) (count : Z) : list (option Z) :=
  take (Z.to_nat count) (m ++ replicate (Z.to_nat count) None).

Definition map_store (m : list (option Z)) (i x : Z) : option (list (option Z)) :=
  if (0 <=? i) && (i <? zlen m) then Some (zset m i (Some (u16 x))) else None.

(** [for(cpu_number = start; cpu_number <= end; cpu_number++)] *)
Fixpoint map_store_range (n : nat) (m : list (option Z)) (initial_index offset range_start : Z)
    : option (list (option Z)) :=
  match n with
  | O => Some m
  | S n =>
      m ← map_store m (u16 (initial_index + offset)) (range_start + offset);
      map_store_range n m initial_index (offset + 1) range_start
  end.

Definition cpus_map_add (m : list (option Z)) (count : Z) (p : cpu_parsed) : option (list (option Z) * Z) :=
  match p with
  | CpuError => Some (m, count)
  | CpuOne n => let count := u16 (count + 1) in
                m ← map_store (map_realloc m count) (count - 1) n; Some (m, count)
  | CpuRange s e => let len := e - s + 1 in
                    let count := u16 (count + len) in
                    m ← map_store_range (Z.to_nat len) (map_realloc m count) (u16 (count - len)) 0 s;
                    Some (m, count)
  | CpuOpenRange => Some (map_realloc m count, count)
  end.

Fixpoint cpus_parse_from (max_cpus_count : Z) (cpus : list (list Z)) (select_all_cpus erange : bool)
    (m : list (option Z)) (count : Z) : option (option (list (option Z) * Z * bool)) :=
  match cpus with
  | [] => Some (Some (m, count, select_all_cpus))
  | cpu :: cpus =>
      all ← cpu_is_all cpu;
      if all : bool then cpus_parse_from max_cpus_count cpus true erange m count else
      '(p, erange) ← cpus_parse_loop 2 max_cpus_count cpu false (-1) erange;
      match p with
      | CpuError => Some None
      | _ => '(m, count) ← cpus_map_add m count p;
             cpus_parse_from max_cpus_count cpus select_all_cpus erange m count
      end
  end.

Definition config_cpus_parse (max_cpus_count : Z) (cpus : list (list Z)) (erange : bool)
    : option (option (list (option Z) * Z)) :=
  r ← cpus_parse_from max_cpus_count cpus false erange [] 0;
  match r with
  | None => Some None
  | Some (m, count, select_all_cpus) =>
      if (zlen cpus =? 0) || select_all_cpus
      then Some (Some (Some <$> seqZ 0 max_cpus_count, max_cpus_count))
      else Some (Some (m, count))
  end.

(** ** config_cpus_filter_duplicates *)

Definition max_cpu (cpus : list Z) : Z :=
  fold_left (fun m cpu_number => if m <? cpu_number then cpu_number else m) cpus 0.

(** [set] has the bytes of [int_unique_cpu_set], [unique] those of
    [int_unique_cpus]. *)
Fixpoint filter_loop (cpus set unique : list Z) (int_unique_cpu_index : Z) : option (list Z) :=
  match cpus with
  | [] => Some unique
  | cpu_number :: cpus =>
      seen ← zget set cpu_number;
      if seen =? 0 then
        if int_unique_cpu_index <? zlen unique then
          filter_loop cpus (zset set cpu_number 1) (zset unique int_unique_cpu_index cpu_number)
            (u16 (int_unique_cpu_index + 1))
        else None
      else filter_loop cpus (zset set cpu_number 1) unique int_unique_cpu_index
  end.

Definition config_cpus_filter_duplicates (cpus : list Z) : option (list Z * Z) :=
  let count := max_cpu cpus in
  if count =? 0 then Some ([], 0) else
  unique ← filter_loop cpus (replicate (Z.to_nat (count + 1)) 0) (replicate (Z.to_nat count) 0) 0;
  Some (unique, count).

(** ** Examples from the unit tests *)

Definition time_of (s : string) (negative zero suffix : bool) : option (option Z) :=
  config_parse_string_time (bytes_of s ++ [0]) 0 (zlen (bytes_of s)) negative zero suffix.

Example time_absolute : time_of "123" false false false = Some (Some 123).
Proof. reflexivity. Qed.
Example time_spaces : time_of "123 m " false false true = Some (Some (123 * 60)).
Proof. reflexivity. Qed.
Example time_negative : time_of "-123m" true false true = Some (Some (-123 * 60)).
Proof. reflexivity. Qed.
Example filter_test : config_cpus_filter_duplicates [2; 2; 3; 3; 1; 4; 2] = Some ([2; 3; 1; 4], 4).
Proof. reflexivity. Qed.
Example parse_test :
  config_cpus_parse 8 [bytes_of "0-2" ++ [0]; bytes_of "5" ++ [0]] false = Some (Some (Some <$> [0; 1; 2; 5], 4)).
Proof. reflexivity. Qed.

(** ** What the parsers of values accept *)

Definition spaces (l : list Z) : Prop := Forall (fun c => is_space c = true) l.

(** A byte of a suffix: neither a space, nor a digit, nor the NUL. *)
Definition suffix_byte (c : Z) : Prop := is_space c = false /\ is_digit c = false /\ c <> 0.

Lemma skip_leading_spaces sp c l : forall string string_len,
  spaces sp -> is_space c = false -> zlen sp <= string_len ->
  skip_leading (sp ++ c :: l) string string_len = Some (string + zlen sp, string_len - zlen sp).
Proof.
  induction sp as [|x sp IH]; intros p n Hs Hc Hn.
  - cbn. rewrite Hc. cbn. by rewrite Z.add_0_r, Z.sub_0_r.
  - apply Forall_cons in Hs as [Hx Hs]. rewrite zlen_cons in *. pose proof (zlen_nonneg sp).
    cbn [app skip_leading]. rewrite Hx. destruct (Z.ltb_spec 0 n); [cbn [andb]|lia].
    rewrite IH by (done || lia). do 2 f_equal; lia.
Qed.

Lemma to_nat_zlen (l : list Z) : Z.to_nat (zlen l) = length l.
Proof. apply Nat2Z.id. Qed.

Lemma zget_middle (l1 l2 : list Z) x : zget (l1 ++ x :: l2) (zlen l1) = Some x.
Proof.
  unfold zget. zcase; [pose proof (zlen_nonneg l1); lia|]. apply list_lookup_middle. unfold zlen. lia.
Qed.

(** The bytes before the first space read from the end. *)
Lemma skip_trailing_spaces pre body x sp rest :
  spaces sp -> is_space x = false ->
  skip_trailing (pre ++ (body ++ [x]) ++ sp ++ rest) (zlen pre) (length ((body ++ [x]) ++ sp)) =
  Some (length (body ++ [x])).
Proof.
  intros Hs Hx. revert rest. induction sp as [|y sp IH] using rev_ind; intros rest.
  - rewrite app_nil_r, !length_app. change (length [x]) with 1%nat.
    replace (length body + 1)%nat with (S (length body)) by lia. cbn [skip_trailing].
    replace (zlen pre + Z.of_nat (S (length body)) - 1) with (zlen (pre ++ body)) by (rewrite zlen_app; unfold zlen; lia).
    rewrite <- app_assoc, (app_assoc pre body). cbn [app].
    rewrite zget_middle. cbn [mbind option_bind]. by rewrite Hx.
  - apply Forall_app in Hs as [Hs [Hy _]%Forall_cons]. 
    replace (length ((body ++ [x]) ++ sp ++ [y])) with (S (length ((body ++ [x]) ++ sp)))
      by (rewrite !length_app; change (length [y]) with 1%nat; lia).
    cbn [skip_trailing].
    replace (zlen pre + Z.of_nat (S (length ((body ++ [x]) ++ sp))) - 1) with (zlen (pre ++ (body ++ [x]) ++ sp))
      by (rewrite !zlen_app; unfold zlen; rewrite !length_app; lia).
    replace (pre ++ (body ++ [x]) ++ (sp ++ [y]) ++ rest) with ((pre ++ (body ++ [x]) ++ sp) ++ y :: rest)
      by (rewrite <- !app_assoc; done).
    rewrite zget_middle. cbn [mbind option_bind]. rewrite Hy.
    rewrite <- !app_assoc. specialize (IH Hs (y :: rest)). rewrite <- !app_assoc in IH. exact IH.
Qed.

Lemma strndup_body l rest : Forall (fun c => c <> 0) l -> strndup (l ++ rest) (length l) = Some (l ++ [0]).
Proof.
  induction l as [|c l IH]; intros Hl; [by destruct rest|]. apply Forall_cons in Hl as [Hc Hl]. cbn.
  destruct (Z.eqb_spec c 0); [done|]. by rewrite (IH Hl).
Qed.

Lemma digit_not_space c : is_digit c = true -> is_space c = false /\ c <> 0.
Proof. unfold is_digit, is_space. lia. Qed.

Lemma space_not_digit c : is_space c = true -> is_digit c = false /\ c <> 0.
Proof. unfold is_digit, is_space. lia. Qed.

Lemma dec_head_digit n : 0 <= n < 2 ^ 64 -> exists c l, dec n = c :: l /\ is_digit c = true.
Proof.
  intros Hn. pose proof (dec_length_pos n Hn). pose proof (dec_digits n) as Hd.
  destruct (dec n) as [|c l]; [unfold zlen in *; cbn in *; lia|]. apply Forall_cons in Hd as [Hc _]. eauto.
Qed.

Lemma nonspace_last (num mid suffix : list Z) :
  Forall (fun c => is_digit c = true) num -> num <> [] -> Forall suffix_byte suffix -> (suffix = [] -> mid = []) ->
  exists body x, num ++ mid ++ suffix = body ++ [x] /\ is_space x = false.
Proof.
  intros Hn Hne Hs Hm. destruct suffix as [|x suffix _] using rev_ind.
  - rewrite (Hm eq_refl), !app_nil_r. destruct num as [|x num _] using rev_ind; [done|].
    apply Forall_app in Hn as [_ [Hx _]%Forall_cons]. exists num, x. split; [done|by apply digit_not_space].
  - apply Forall_app in Hs as [_ [[Hx _] _]%Forall_cons]. exists (num ++ mid ++ suffix), x.
    by rewrite <- !app_assoc.
Qed.

(** A number, then a suffix, with spaces around both. *)
Lemma parse_number_text pre sp1 n sp2 suffix sp3 rest :
  spaces sp1 -> spaces sp2 -> spaces sp3 -> 0 <= n < 2 ^ 63 -> Forall suffix_byte suffix -> (suffix = [] -> sp2 = []) ->
  exists string_end, 0 < string_end /\
    parse_number (pre ++ (sp1 ++ dec n ++ sp2 ++ suffix ++ sp3) ++ rest) (zlen pre)
      (zlen (sp1 ++ dec n ++ sp2 ++ suffix ++ sp3)) = Some (Some (n, string_end, suffix)).
Proof.
  intros H1 H2 H3 Hn Hs Hm. destruct (dec_head_digit n ltac:(mach_lia)) as (d & ds & Hd & Hdig).
  pose proof (dec_digits n) as Hds. pose proof (dec_length_pos n ltac:(mach_lia)) as Hpos.
  unfold parse_number. rewrite drop_app_length' by (unfold zlen; lia). rewrite <- !app_assoc.
  pose proof (skip_leading_spaces sp1 d (ds ++ sp2 ++ suffix ++ sp3 ++ rest) (zlen pre)
    (zlen (sp1 ++ dec n ++ sp2 ++ suffix ++ sp3)) H1 ltac:(by apply digit_not_space)
    ltac:(rewrite zlen_app; pose proof (zlen_nonneg (dec n ++ sp2 ++ suffix ++ sp3)); lia)) as Hsk.
  rewrite app_comm_cons, <- Hd in Hsk. rewrite Hsk. clear Hsk.
  cbn [mbind option_bind].
  destruct (nonspace_last (dec n) sp2 suffix Hds ltac:(by rewrite Hd) Hs Hm) as (body & x & Hb & Hx).
  replace (zlen (sp1 ++ dec n ++ sp2 ++ suffix ++ sp3) - zlen sp1) with (zlen ((body ++ [x]) ++ sp3))
    by (rewrite <- Hb, !zlen_app; lia).
  replace (pre ++ sp1 ++ dec n ++ sp2 ++ suffix ++ sp3 ++ rest) with ((pre ++ sp1) ++ (body ++ [x]) ++ sp3 ++ rest)
    by (rewrite <- Hb, <- !app_assoc; done).
  rewrite <- zlen_app, !to_nat_zlen, skip_trailing_spaces by done. cbn [mbind option_bind].
  destruct (Nat.eqb_spec (length (body ++ [x])) 0) as [E|_]; [rewrite length_app in E; cbn in E; lia|].
  rewrite drop_app_length, strndup_body.
  2: { rewrite <- Hb. rewrite !Forall_app. split_and!; eapply Forall_impl; eauto.
       - intros c Hc. by apply digit_not_space.
       - intros c Hc. by apply space_not_digit.
       - by intros c (_ & _ & Hc). }
  cbn [mbind option_bind]. rewrite <- Hb, <- !app_assoc.
  assert (exists c l, sp2 ++ suffix ++ [0] = c :: l /\ is_digit c = false) as (c & l & Hcl & Hc).
  { destruct sp2 as [|c l]; [destruct suffix as [|c l]|]; cbn; eexists _, _; (split; [done|]); try done.
    - apply Forall_cons in Hs as [(_ & ? & _) _]. done.
    - apply Forall_cons in H2 as [? _]. by apply space_not_digit. }
  rewrite Hcl, strtol_dec by done. cbn [mbind option_bind]. rewrite <- Hcl.
  rewrite drop_app_length' by (unfold zlen; lia).
  assert (exists c' l', suffix ++ [0] = c' :: l' /\ is_space c' = false) as (c' & l' & Hcl' & Hc').
  { destruct suffix as [|y ys]; cbn; eexists _, _; (split; [done|]); [done|]. by apply Forall_cons in Hs as [(? & _) _]. }
  rewrite Hcl'. pose proof (zlen_nonneg suffix).
  assert (zlen (dec n ++ sp2 ++ c' :: l') - 1 - zlen (dec n) = zlen sp2 + zlen suffix) as ->.
  { rewrite <- Hcl', !zlen_app. unfold zlen; cbn [length]. lia. }
  rewrite skip_leading_spaces by (done || lia). cbn [mbind option_bind].
  rewrite <- Hcl', app_assoc, drop_app_length' by (unfold zlen; rewrite length_app; lia).
  exists (zlen (dec n) + zlen sp2). split; [pose proof (zlen_nonneg sp2); lia|].
  rewrite take_app_length' by (unfold zlen; lia). done.
Qed.

Lemma multiply_1024_pow k : forall n, 0 <= n -> n * 1024 ^ Z.of_nat k < 2 ^ 63 -> multiply_1024 k n = n * 1024 ^ Z.of_nat k.
Proof.
  induction k as [|k IH]; intros n Hn Hb; cbn [multiply_1024].
  - cbn. lia.
  - rewrite Nat2Z.inj_succ, Z.pow_succ_r in * by lia. pose proof (Z.pow_pos_nonneg 1024 (Z.of_nat k) ltac:(lia) ltac:(lia)).
    set (P := 1024 ^ Z.of_nat k) in *.
    assert (n * 1024 <= n * (1024 * P)) by (apply Z.mul_le_mono_nonneg_l; lia).
    rewrite swrap_small by mach_lia. fold P in IH. rewrite IH by lia. ring.
Qed.

Lemma tolower_suffix_byte c : suffix_byte (HashtableSpsc.tolower c) -> suffix_byte c.
Proof. unfold suffix_byte, HashtableSpsc.tolower. case_match; [|done]. unfold is_space, is_digit. lia. Qed.

Lemma size_multiplier_bytes suffix k : size_multiplier suffix = Some k -> Forall suffix_byte suffix /\ suffix <> [] /\ suffix <> [37].
Proof.
  unfold size_multiplier, suffix_byte. repeat case_decide; subst; try done; intros _;
    (split; [repeat constructor; done|split; discriminate]).
Qed.

Lemma time_unit_range c : 1 <= time_unit c <= 86400.
Proof. unfold time_unit. repeat zcase; lia. Qed.

(** A value with its surroundings: it starts at [zlen pre] of the memory. *)
Definition text (sp1 : list Z) (n : Z) (sp2 suffix sp3 : list Z) : list Z := sp1 ++ dec n ++ sp2 ++ suffix ++ sp3.

Definition time_value (pre txt rest : list Z) : option (option Z) :=
  config_parse_string_time (pre ++ txt ++ rest) (zlen pre) (zlen txt) false false true.
Definition size_value (pre txt rest : list Z) :=
  config_parse_string_absolute_or_percent (pre ++ txt ++ rest) (zlen pre) (zlen txt) false false true true true.



(** An unknown unit counts as seconds; the product of a time and its unit
    wraps; the empty string is read one byte before its start. *)
Example unknown_unit_is_seconds : time_value [] (bytes_of "5y") [0] = Some (Some 5).
Proof. reflexivity. Qed.
Example time_overflow_wraps : time_value [] (bytes_of "213503982334602d") [0] = Some (Some 61184).
Proof. reflexivity. Qed.
Example empty_string_reads_before : time_value [] [] [0] = None /\ size_value [] [] [0] = None.
Proof. split; reflexivity. Qed.

(** ** What the functions on the selectors do *)

Definition cstring (s : list Z) : Prop := exists body, s = body ++ [0] /\ Forall (fun c => c <> 0) body.

Lemma skip_spaces_cstring body :
  exists b1 b2, body = b1 ++ b2 /\ skip_spaces (body ++ [0]) = Some (b2 ++ [0]).
Proof.
  induction body as [|c body (b1 & b2 & -> & IH)]; [by exists [], []|]. cbn. destruct (is_space c).
  - exists (c :: b1), b2. done.
  - exists [], (c :: b1 ++ b2). done.
Qed.

Lemma strtol_digits_cstring body : forall acc,
  exists v b1 b2, body = b1 ++ b2 /\ strtol_digits (body ++ [0]) acc = Some (v, b2 ++ [0]).
Proof.
  induction body as [|c body IH]; intros acc; [exists acc, [], []; done|]. cbn. destruct (is_digit c).
  - destruct (IH (acc * 10 + (c - 48))) as (v & b1 & b2 & -> & Heq). exists v, (c :: b1), b2. done.
  - exists acc, [], (c :: body). done.
Qed.

(** [strtol] stops inside of the string. *)
Lemma strtol_errno_cstring body erange :
  exists n k erange', strtol_errno (body ++ [0]) erange = Some (n, k, erange') /\ 0 <= k <= zlen body.
Proof.
  unfold strtol_errno, strtol. destruct (skip_spaces_cstring body) as (b1 & b2 & -> & ->). cbn [mbind option_bind].
  assert (exists c l, b2 ++ [0] = c :: l) as (c & l & Hcl) by (destruct b2; eexists _, _; done).
  assert (exists neg b3 b4, (if c =? 45 then (true, tail (b2 ++ [0])) else if c =? 43 then (false, tail (b2 ++ [0]))
    else (false, b2 ++ [0])) = (neg, b4 ++ [0]) /\ b2 = b3 ++ b4) as (neg & b3 & b4 & Hsign & ->).
  { destruct b2 as [|d b2]; cbn in Hcl; injection Hcl as <- <-; [by exists false, [], []|].
    destruct (d =? 45); [by exists true, [d], b2|]. destruct (d =? 43); [by exists false, [d], b2|].
    by exists false, [], (d :: b2). }
  rewrite Hcl in *. cbn [head mbind option_bind]. rewrite Hsign.
  destruct (strtol_digits_cstring b4 0) as (v & b5 & b6 & -> & ->). cbn [mbind option_bind].
  pose proof (zlen_nonneg b1). pose proof (zlen_nonneg b3). pose proof (zlen_nonneg b5). pose proof (zlen_nonneg b6).
  assert (exists c2, head ((b5 ++ b6) ++ [0]) = Some c2) as (c2 & ->) by (destruct b5; [destruct b6|]; cbn; eauto).
  cbn [mbind option_bind]. destruct (is_digit c2); cbn [mbind option_bind]; eexists _, _, _; (split; [reflexivity|]);
    rewrite !zlen_app; lia.
Qed.

Lemma cstring_at body k :
  0 <= k <= zlen body -> exists c, zget (body ++ [0]) k = Some c /\ (Forall (fun c => c <> 0) body -> c <> 0 ->
    exists body', drop (Z.to_nat (k + 1)) (body ++ [0]) = body' ++ [0] /\ Forall (fun c => c <> 0) body').
Proof.
  intros Hk. destruct (zget_in_range (body ++ [0]) k) as [c Hc]; [rewrite zlen_app; unfold zlen at 2; cbn; lia|].
  exists c. split; [done|]. intros Hb Hnz. destruct (decide (k = zlen body)) as [->|Hne].
  - rewrite zget_middle in Hc. by injection Hc as <-.
  - exists (drop (Z.to_nat (k + 1)) body). split; [|by apply Forall_drop].
    rewrite drop_app_le; [done|unfold zlen in *; lia].
Qed.

(** The two loops on one selector end, and one reports an error exactly when
    the other does; the numbers are in range. *)
Definition parsed_ok (max_cpus_count : Z) (p : cpu_parsed) : Prop :=
  match p with
  | CpuOne n => 0 <= n <= max_cpus_count
  | CpuRange s e => 0 <= s < e /\ e <= max_cpus_count
  | _ => True
  end.

Lemma selector_loops fuel max_cpus_count : forall body cpu_is_range range_start erange,
  Forall (fun c => c <> 0) body -> (if cpu_is_range : bool then 0 <= range_start /\ (0 < fuel)%nat else (1 < fuel)%nat) ->
  exists p failed erange',
    cpus_parse_loop fuel max_cpus_count (body ++ [0]) cpu_is_range range_start erange = Some (p, erange') /\
    cpus_validate_loop fuel max_cpus_count (body ++ [0]) cpu_is_range range_start erange = Some (failed, erange') /\
    (failed = None <-> p <> CpuError) /\ parsed_ok max_cpus_count p.
Proof.
  induction fuel as [|fuel IH]; intros body r s e Hb Hf; [destruct r; lia|]. cbn [cpus_parse_loop cpus_validate_loop].
  destruct (strtol_errno_cstring body e) as (n & k & e' & -> & Hk). cbn [mbind option_bind].
  destruct (cpu_invalid max_cpus_count n k e') eqn:Hi; [by eexists CpuError, _, _|].
  unfold cpu_invalid in Hi. rewrite !orb_false_iff in Hi. destruct Hi as ((((_ & _) & _) & Hmax) & Hn).
  destruct (cstring_at body k Hk) as (c & -> & Hrest). cbn [mbind option_bind].
  destruct (Z.eqb_spec c (ch "-")) as [->|_].
  - destruct r; [by eexists CpuError, _, _|].
    destruct (Hrest Hb) as (body' & -> & Hb'); [done|]. destruct body' as [|x body']; [by eexists CpuOpenRange, _, _|].
    cbn [app head mbind option_bind]. apply Forall_cons in Hb' as Hx. destruct Hx as [Hx _].
    destruct (Z.eqb_spec x 0); [done|]. apply (IH (x :: body') true n e' Hb'). lia.
  - destruct (Z.eqb_spec c 0); [|by eexists CpuError, _, _]. destruct r; cbn [andb].
    + destruct (Z.ltb_spec (n - s + 1) 2); [by eexists CpuError, _, _|].
      eexists (CpuRange s n), _, _. cbn. split_and!; (done || lia).
    + eexists (CpuOne n), _, _. cbn. split_and!; (done || lia).
Qed.

Definition selectors (cpus : list (list Z)) : Prop :=
  Forall (fun cpu => cstring cpu /\ cpu_is_all cpu = Some false) cpus.

Lemma validate_failed max_cpus_count cpus : forall i erange errors,
  selectors cpus -> exists errors', cpus_validate_from max_cpus_count cpus i false true erange errors = Some (false, errors').
Proof.
  induction cpus as [|cpu cpus IH]; intros i e errors Hs; [by exists errors|].
  apply Forall_cons in Hs as [[(body & -> & Hb) Hall] Hs]. cbn [cpus_validate_from]. rewrite Hall. cbn [mbind option_bind].
  destruct (selector_loops 2 max_cpus_count body false (-1) e Hb ltac:(cbn; lia)) as (p & failed & e' & _ & -> & _).
  cbn [mbind option_bind]. destruct failed; apply (IH _ _ _ Hs).
Qed.

Lemma validate_parse_from max_cpus_count cpus : forall i erange errors m count,
  selectors cpus ->
  exists ok errors', cpus_validate_from max_cpus_count cpus i false false erange errors = Some (ok, errors') /\
    (ok = true -> errors' = errors) /\
    match cpus_parse_from max_cpus_count cpus false erange m count with
    | Some (Some (_, _, all)) => ok = true /\ all = false
    | Some None => ok = false
    | None => True
    end.
Proof.
  induction cpus as [|cpu cpus IH]; intros i e errors m count Hs; [by eexists _, _|].
  apply Forall_cons in Hs as [[(body & -> & Hb) Hall] Hs]. cbn [cpus_validate_from cpus_parse_from]. rewrite Hall.
  cbn [mbind option_bind].
  destruct (selector_loops 2 max_cpus_count body false (-1) e Hb ltac:(cbn; lia)) as (p & failed & e' & -> & -> & Hf & _).
  cbn [mbind option_bind]. destruct failed as [f|].
  - destruct (validate_failed max_cpus_count cpus (i + 1) e' (zset errors i f) Hs) as (errors' & ->).
    eexists _, _. split; [done|]. split; [done|]. destruct p; try done; exfalso; by assert (Some f = None) by by apply Hf.
  - assert (p <> CpuError) as Hp by by apply Hf.
    destruct (cpus_map_add m count p) as [[m' count']|].
    + destruct (IH (i + 1) e' errors m' count' Hs) as (ok & errors' & -> & H1 & H2).
      eexists _, _. split; [done|]. split; [done|]. destruct p; done.
    + destruct (IH (i + 1) e' errors m count Hs) as (ok & errors' & -> & H1 & H2).
      eexists _, _. split; [done|]. split; [done|]. destruct p; done.
Qed.

(** The validation of the CPU selectors and their parsing agree: on NUL
    terminated selectors other than "all", the validation returns, leaves the
    array of errors as it was when it accepts, and accepts exactly what the
    parsing accepts whenever the parsing stays inside of its array. *)
Theorem config_cpus_validate_parse_agree max_cpus_count cpus erange errors :
  selectors cpus ->
  exists ok errors', config_cpus_validate max_cpus_count cpus erange errors = Some (ok, errors') /\
    (ok = true -> errors' = errors) /\
    forall r, config_cpus_parse max_cpus_count cpus erange = Some r -> (ok = true <-> is_Some r).
Proof.
  intros Hs. destruct (validate_parse_from max_cpus_count cpus 0 erange errors [] 0 Hs) as (ok & errors' & Hv & He & Hp).
  exists ok, errors'. split; [done|]. split; [done|]. intros r. unfold config_cpus_parse.
  destruct (cpus_parse_from max_cpus_count cpus false erange [] 0) as [[[[m count] all]|]|]; cbn [mbind option_bind]; [| |done].
  - destruct Hp as [-> ->]. destruct ((zlen cpus =? 0) || false); intros [= <-]; done.
  - intros [= <-]. subst ok. split; [done|intros [? [=]]].
Qed.

Definition of_string (s : string) : list Z := bytes_of s ++ [0].

Lemma config_cpus_validate_parse_agree_witness :
  config_cpus_validate 8 [of_string "0-3"; of_string "5-"; of_string "8"] false (replicate 3 CONFIG_CPUS_VALIDATE_OK) =
    Some (true, replicate 3 CONFIG_CPUS_VALIDATE_OK) /\
  exists ok errors', config_cpus_validate 8 [of_string "3-3"] false [CONFIG_CPUS_VALIDATE_OK] = Some (ok, errors') /\
    forall r, config_cpus_parse 8 [of_string "3-3"] false = Some r -> (ok = true <-> is_Some r).
Proof.
  split; [reflexivity|].
  destruct (config_cpus_validate_parse_agree 8 [of_string "3-3"] false [CONFIG_CPUS_VALIDATE_OK]) as (ok & errors' & H1 & _ & H2).
  - constructor; [|constructor]. split; [|reflexivity]. exists (bytes_of "3-3"). split; [reflexivity|].
    repeat constructor; done.
  - exists ok, errors'. split; [exact H1|exact H2].
Defined.

(** ** The selectors as they are written *)

Inductive selector := One (n : Z) | Range (a b : Z).

Definition sel_text (s : selector) : list Z :=
  match s with One n => dec n ++ [0] | Range a b => dec a ++ [ch "-"] ++ dec b ++ [0] end.
Definition sel_cpus (s : selector) : list Z := match s with One n => [n] | Range a b => seqZ a (b - a + 1) end.
Definition sel_parsed (s : selector) : cpu_parsed := match s with One n => CpuOne n | Range a b => CpuRange a b end.

Lemma strtol_errno_dec n c rest erange :
  0 <= n < 2 ^ 63 -> is_digit c = false -> strtol_errno (dec n ++ c :: rest) erange = Some (n, zlen (dec n), erange).
Proof.
  intros Hn Hc. unfold strtol_errno. rewrite strtol_dec by done. cbn [mbind option_bind].
  destruct (dec_head_digit n ltac:(mach_lia)) as (d & ds & Hd & Hdig).
  destruct (digit_not_space d Hdig) as [Hsp _].
  assert (skip_spaces (dec n ++ c :: rest) = Some (dec n ++ c :: rest)) as ->.
  { rewrite Hd. cbn. by rewrite Hsp. }
  cbn [mbind option_bind].
  assert (head (dec n ++ c :: rest) = Some d) as -> by (rewrite Hd; done). cbn [mbind option_bind].
  assert ((d =? 45) = false) as -> by (unfold is_digit in *; lia).
  assert ((d =? 43) = false) as -> by (unfold is_digit in *; lia).
  pose proof (strtol_digits_digits (ndigits n) n (c :: rest) 0) as Hs. fold (dec n) in Hs.
  rewrite Hs by (pose proof (ndigits_spec n ltac:(mach_lia)); lia). cbn [strtol_digits]. rewrite Hc. cbn [mbind option_bind].
  rewrite Z.mul_0_l, Z.add_0_l. assert ((n =? clamp_long n) = true) as -> by (apply Z.eqb_eq; unfold clamp_long; mach_lia).
  by rewrite orb_false_r.
Qed.

Definition sel_ok (max_cpus_count : Z) (s : selector) : Prop := parsed_ok max_cpus_count (sel_parsed s).

Lemma cpus_parse_loop_sel max_cpus_count s :
  max_cpus_count < 2 ^ 16 -> sel_ok max_cpus_count s ->
  cpus_parse_loop 2 max_cpus_count (sel_text s) false (-1) false = Some (sel_parsed s, false).
Proof.
  intros Hm Hs. assert (forall n, 0 <= n <= max_cpus_count -> cpu_invalid max_cpus_count n (zlen (dec n)) false = false) as Hi.
  { intros n Hn. unfold cpu_invalid. pose proof (dec_length_pos n ltac:(mach_lia)). mach_lia. }
  destruct s as [n|a b]; cbn [sel_text sel_parsed sel_ok parsed_ok] in *; unfold sel_ok in Hs; cbn in Hs; cbn [cpus_parse_loop].
  - rewrite strtol_errno_dec by (done || mach_lia). cbn [mbind option_bind]. rewrite Hi by lia.
    rewrite zget_middle. done.
  - cbn [app]. rewrite strtol_errno_dec by (done || mach_lia). cbn [mbind option_bind]. rewrite Hi by lia.
    rewrite zget_middle. cbn [mbind option_bind]. rewrite Z.eqb_refl.
    change (dec a ++ ch "-" :: dec b ++ [0]) with (dec a ++ [ch "-"] ++ (dec b ++ [0])). rewrite app_assoc.
    rewrite drop_app_length' by (rewrite length_app; unfold zlen; cbn [length]; lia).
    destruct (dec_head_digit b ltac:(mach_lia)) as (d & ds & Hd & Hdig).
    assert (head (dec b ++ [0]) = Some d) as -> by (rewrite Hd; done). cbn [mbind option_bind].
    destruct (digit_not_space d Hdig) as [_ Hnz]. destruct (Z.eqb_spec d 0); [done|].
    rewrite strtol_errno_dec by (done || mach_lia). cbn [mbind option_bind]. rewrite Hi by lia.
    rewrite zget_middle. cbn [mbind option_bind]. cbn [Z.eqb ch]. destruct (Z.eqb_spec 0 (ch "-")); [done|].
    destruct (Z.ltb_spec (b - a + 1) 2); [lia|]. done.
Qed.

Lemma map_realloc_grow m (n : nat) : map_realloc m (zlen m + Z.of_nat n) = m ++ replicate n None.
Proof.
  unfold map_realloc, zlen. replace (Z.to_nat (Z.of_nat (length m) + Z.of_nat n)) with (length m + n)%nat by lia.
  rewrite take_app_add. f_equal. rewrite take_replicate. f_equal. lia.
Qed.

Lemma map_store_next m1 x n :
  zlen m1 < 2 ^ 16 -> 0 <= x < 2 ^ 16 ->
  map_store (m1 ++ None :: n) (u16 (zlen m1)) x = Some ((m1 ++ [Some x]) ++ n).
Proof.
  intros Hm Hx. pose proof (zlen_nonneg m1). unfold map_store. rewrite !wrap_small by lia. rewrite zlen_app, zlen_cons.
  pose proof (zlen_nonneg n). destruct (Z.leb_spec 0 (zlen m1)); [|lia].
  destruct (Z.ltb_spec (zlen m1) (zlen m1 + (1 + zlen n))); [cbn [andb]|lia]. f_equal. unfold zset. zcase; [lia|].
  unfold zlen. rewrite Nat2Z.id, insert_app_r_alt by lia. rewrite Nat.sub_diag, <- app_assoc. done.
Qed.

Lemma map_store_range_spec n : forall m1 initial_index offset s,
  zlen m1 = initial_index + offset -> zlen m1 + Z.of_nat n < 2 ^ 16 -> 0 <= s + offset -> s + offset + Z.of_nat n <= 2 ^ 16 ->
  map_store_range n (m1 ++ replicate n None) initial_index offset s = Some (m1 ++ (Some <$> seqZ (s + offset) (Z.of_nat n))).
Proof.
  induction n as [|n IH]; intros m1 i o s Hi Hn Hs Hb; [done|]. cbn [map_store_range replicate]. rewrite <- Hi.
  rewrite map_store_next by lia. cbn [mbind option_bind].
  rewrite IH by (try rewrite zlen_app; unfold zlen in *; cbn [length]; lia).
  rewrite (seqZ_cons (s + o)) by lia. rewrite fmap_cons, <- app_assoc. cbn [app].
  replace (s + (o + 1)) with (Z.succ (s + o)) by lia. by replace (Z.pred (Z.of_nat (S n))) with (Z.of_nat n) by lia.
Qed.

Lemma cpus_map_add_sel max_cpus_count m s :
  max_cpus_count < 2 ^ 16 -> sel_ok max_cpus_count s -> zlen m + zlen (sel_cpus s) < 2 ^ 16 ->
  cpus_map_add m (zlen m) (sel_parsed s) = Some (m ++ (Some <$> sel_cpus s), zlen (m ++ (Some <$> sel_cpus s))).
Proof.
  intros Hm Hs Hn. pose proof (zlen_nonneg m). destruct s as [n|a b]; unfold sel_ok in Hs; cbn in *.
  - change (zlen [n]) with 1 in Hn. rewrite wrap_small by lia. pose proof (map_realloc_grow m 1) as Hr. change (Z.of_nat 1) with 1 in Hr. rewrite Hr. cbn [replicate].
    replace (zlen m + 1 - 1) with (u16 (zlen m)) by (rewrite wrap_small; lia).
    rewrite map_store_next by lia. cbn [mbind option_bind]. rewrite app_nil_r, zlen_app. done.
  - assert (zlen (seqZ a (b - a + 1)) = b - a + 1) as Hl by (unfold zlen; rewrite length_seqZ; lia). rewrite Hl in Hn.
    rewrite wrap_small by lia.
    pose proof (map_realloc_grow m (Z.to_nat (b - a + 1))) as Hr. rewrite Z2Nat.id in Hr by lia. rewrite Hr.
    rewrite wrap_small by lia. rewrite map_store_range_spec by (rewrite ?Z2Nat.id; lia). cbn [mbind option_bind].
    rewrite Z.add_0_r, Z2Nat.id by lia. do 2 f_equal. rewrite zlen_app. unfold zlen in *. rewrite length_fmap. lia.
Qed.

Lemma sel_text_not_all s : forall max_cpus_count, max_cpus_count < 2 ^ 16 -> sel_ok max_cpus_count s -> cpu_is_all (sel_text s) = Some false.
Proof.
  intros max Hm Hs.
  assert (exists n rest, sel_text s = dec n ++ rest /\ 0 <= n < 2 ^ 64) as (n & rest & -> & Hn).
  { destruct s as [n|a b]; unfold sel_ok in Hs; cbn in *; eexists _, _; (split; [reflexivity|mach_lia]). }
  destruct (dec_head_digit n Hn) as (d & ds & -> & Hd). unfold cpu_is_all. cbn [app HashtableSpsc.strn_eq].
  assert (HashtableSpsc.tolower d = d) as -> by (unfold HashtableSpsc.tolower; case_match; [unfold is_digit in *; lia|done]).
  assert ((d =? HashtableSpsc.tolower (ch "a")) = false) as E; [|cbn; rewrite E; done].
  apply Z.eqb_neq. intros ->. done.
Qed.

Lemma cpus_parse_from_sels max_cpus_count sels : forall m,
  max_cpus_count < 2 ^ 16 -> Forall (sel_ok max_cpus_count) sels ->
  zlen m + zlen (concat (sel_cpus <$> sels)) < 2 ^ 16 ->
  cpus_parse_from max_cpus_count (sel_text <$> sels) false false m (zlen m) =
  Some (Some (m ++ (Some <$> concat (sel_cpus <$> sels)), zlen (m ++ (Some <$> concat (sel_cpus <$> sels))), false)).
Proof.
  induction sels as [|s sels IH]; intros m Hm Hs Hn; [cbn; by rewrite app_nil_r|].
  apply Forall_cons in Hs as [H1 Hs]. rewrite !fmap_cons in *. cbn [concat cpus_parse_from] in *. rewrite zlen_app in Hn.
  pose proof (zlen_nonneg (concat (sel_cpus <$> sels))).
  rewrite (sel_text_not_all s _ Hm H1). cbn [mbind option_bind].
  rewrite cpus_parse_loop_sel by done. cbn [mbind option_bind].
  rewrite (cpus_map_add_sel max_cpus_count) by (done || lia). cbn [mbind option_bind].
  transitivity (cpus_parse_from max_cpus_count (sel_text <$> sels) false false (m ++ (Some <$> sel_cpus s))
    (zlen (m ++ (Some <$> sel_cpus s)))); [by destruct s|].
  rewrite IH; [|done|done|].
  - rewrite fmap_app, <- !app_assoc. done.
  - rewrite zlen_app. unfold zlen in *. rewrite length_fmap. lia.
Qed.

(** Parsing the selectors of the CPUs, as numbers and ranges up to
    [max_cpus_count] are written, gives the numbers in the order they were
    written, duplicates included, when they are less than 65536: every write is
    inside of the array, and every cell of the array is written. *)
Theorem config_cpus_parse_selects max_cpus_count sels :
  max_cpus_count < 2 ^ 16 -> sels <> [] -> Forall (sel_ok max_cpus_count) sels ->
  zlen (concat (sel_cpus <$> sels)) < 2 ^ 16 ->
  config_cpus_parse max_cpus_count (sel_text <$> sels) false =
  Some (Some (Some <$> concat (sel_cpus <$> sels), zlen (concat (sel_cpus <$> sels)))).
Proof.
  intros Hm Hne Hs Hn. unfold config_cpus_parse.
  pose proof (cpus_parse_from_sels max_cpus_count sels [] Hm Hs ltac:(change (zlen (@nil (option Z))) with 0; lia)) as Hp.
  change (zlen (@nil (option Z))) with 0 in Hp. rewrite Hp.
  cbn [mbind option_bind app]. destruct sels as [|s sels]; [done|]. rewrite fmap_cons, zlen_cons.
  pose proof (zlen_nonneg (sel_text <$> sels)). destruct (Z.eqb_spec (1 + zlen (sel_text <$> sels)) 0); [lia|].
  cbn [orb]. unfold zlen. by rewrite length_fmap.
Qed.

Lemma config_cpus_parse_selects_witness :
  config_cpus_parse 8 (sel_text <$> [One 7; Range 0 2; One 7]) false = Some (Some (Some <$> [7; 0; 1; 2; 7], 5)).
Proof.
  refine (config_cpus_parse_selects 8 [One 7; Range 0 2; One 7] _ _ _ _); [done|done| |done].
  repeat constructor; cbn; lia.
Defined.

(** A range without its end selects nothing, a CPU past the last one is
    accepted, a mistyped "all" is accepted and selects every CPU, and the range
    that makes the 16-bit count wrap writes outside of the array. *)
Example open_range_selects_nothing : config_cpus_parse 8 [of_string "3-"] false = Some (Some ([], 0)).
Proof. reflexivity. Qed.
Example last_cpu_plus_one : config_cpus_parse 8 [of_string "8"] false = Some (Some ([Some 8], 1)).
Proof. reflexivity. Qed.
Example mistyped_all :
  config_cpus_validate 4 [of_string "allx"] false [CONFIG_CPUS_VALIDATE_OK] =
    Some (true, [CONFIG_CPUS_VALIDATE_ERROR_INVALID_CPU]) /\
  config_cpus_parse 4 [of_string "allx"] false = Some (Some (Some <$> [0; 1; 2; 3], 4)).
Proof. split; reflexivity. Qed.
Example selection_wraps m : zlen m = 65535 -> cpus_map_add m 65535 (CpuRange 0 1) = None.
Proof.
  intros Hm. unfold cpus_map_add. change (Z.to_nat (1 - 0 + 1)) with 2%nat. cbn [map_store_range]. unfold map_store at 2.
  change (1 - 0 + 1) with 2.
  destruct (Z.ltb_spec (u16 (u16 (u16 (65535 + 2) - 2) + 0)) (zlen (map_realloc m (u16 (65535 + 2))))) as [H|H].
  - exfalso. unfold map_realloc, zlen in H. rewrite length_take in H.
    change (u16 (u16 (u16 (65535 + 2) - 2) + 0)) with 65535 in H. change (Z.to_nat (u16 (65535 + 2))) with 1%nat in H. lia.
  - by rewrite andb_false_r.
Qed.

(** ** What config_cpus_filter_duplicates does

    The first occurrences are kept in order, in an array that has one cell per
    number from 1 to the largest: too few when there are a 0 and every number
    up to the largest, and padded with zeros when some are missing. *)
Fixpoint firsts (seen cpus : list Z) : list Z :=
  match cpus with
  | [] => []
  | c :: cpus => if decide (c ∈ seen) then firsts seen cpus else c :: firsts (c :: seen) cpus
  end.

Lemma zset_free out n x : zset (out ++ replicate (S n) 0) (zlen out) x = (out ++ [x]) ++ replicate n 0.
Proof.
  unfold zset. zcase; [pose proof (zlen_nonneg out); lia|]. unfold zlen.
  rewrite Nat2Z.id, insert_app_r_alt, Nat.sub_diag, <- app_assoc by lia. done.
Qed.

Lemma filter_loop_spec cpus : forall set seen out free,
  Forall (fun c => 0 <= c < zlen set) cpus ->
  (forall c, 0 <= c < zlen set -> zget set c = Some (if decide (c ∈ seen) then 1 else 0)) ->
  zlen out + zlen (firsts seen cpus) < 2 ^ 16 ->
  filter_loop cpus set (out ++ replicate free 0) (zlen out) =
  if (length (firsts seen cpus) <=? free)%nat
  then Some (out ++ firsts seen cpus ++ replicate (free - length (firsts seen cpus)) 0) else None.
Proof.
  induction cpus as [|c cpus IH]; intros set seen out free Hc Hset Hn; [cbn; by rewrite Nat.sub_0_r|].
  apply Forall_cons in Hc as [Hc Hcs]. cbn [filter_loop firsts] in *. rewrite (Hset c Hc). cbn [mbind option_bind].
  assert (forall c', 0 <= c' < zlen (zset set c 1) ->
    zget (zset set c 1) c' = Some (if decide (c' ∈ c :: seen) then 1 else 0)) as Hset1.
  { intros c' Hr. rewrite zlen_zset in Hr. destruct (decide (c' = c)) as [->|Hne].
    - rewrite zget_zset_eq by done. by rewrite decide_True by left.
    - rewrite zget_zset_ne, Hset by done. destruct (decide (c' ∈ c :: seen)), (decide (c' ∈ seen)); set_solver. }
  assert (Forall (fun x => 0 <= x < zlen (zset set c 1)) cpus) as Hcs1.
  { eapply Forall_impl; [exact Hcs|]. intros x Hx. by rewrite zlen_zset. }
  destruct (decide (c ∈ seen)) as [Hin|Hin].
  - cbn [Z.eqb]. apply IH; [exact Hcs1| |exact Hn]. intros c1 Hr. rewrite Hset1 by exact Hr. f_equal. destruct (decide (c1 ∈ c :: seen)), (decide (c1 ∈ seen)); set_solver.
  - cbn [Z.eqb length]. rewrite zlen_app, zlen_replicate. rewrite zlen_cons in Hn. pose proof (zlen_nonneg out).
    pose proof (zlen_nonneg (firsts (c :: seen) cpus)).
    destruct free as [|free]; [destruct (Z.ltb_spec (zlen out) (zlen out + Z.of_nat 0)); [lia|done]|].
    destruct (Z.ltb_spec (zlen out) (zlen out + Z.of_nat (S free))); [|lia]. rewrite zset_free, wrap_small by lia.
    replace (zlen out + 1) with (zlen (out ++ [c])) by (rewrite zlen_app; done).
    rewrite (IH _ (c :: seen)); [|done|done|rewrite zlen_app; change (zlen [c]) with 1; lia].
    cbn [Nat.leb Nat.sub]. case_match; [|done]. by rewrite <- !app_assoc.
Qed.

Example filter_duplicates_overruns : config_cpus_filter_duplicates [0; 1] = None.
Proof. reflexivity. Qed.
Example filter_duplicates_pads : config_cpus_filter_duplicates [3; 3] = Some ([3; 0; 0], 3).
Proof. reflexivity. Qed.
Example filter_duplicates_first_cpu : config_cpus_filter_duplicates [0] = Some ([], 0).
Proof. reflexivity. Qed.
End Config.
