(* ===== verification/ConfigLoad.v ===== *)
(** * ConfigLoad: validation and loading of the configuration

    config.c, module/module.c, module/redis/module_redis_config.c and the part
    of program.c that turns the configuration into settings of the database
    and of the log sinks.  A pointer of the configuration that can be NULL is
    an [option]; dereferencing NULL, reading a string outside of its memory and
    freeing twice are [None].  The YAML reader (libcyaml), [sysinfo],
    [statvfs], the CPU counts and the test for a file are parameters. *)

From Stdlib Require Import Ascii String.
From Stdlib Require Import SpecFloat.
From stdpp Require Import gmap.
From S2P Require Import Prelude Config StorageDb.

Module ConfigLoad.
Import Config.

(** ** config.h *)

Inductive config_database_backend := CONFIG_DATABASE_BACKEND_MEMORY | CONFIG_DATABASE_BACKEND_FILE.
Inductive config_database_keys_eviction_policy :=
| CONFIG_DATABASE_KEYS_EVICTION_POLICY_LRU
| CONFIG_DATABASE_KEYS_EVICTION_POLICY_LFU
| CONFIG_DATABASE_KEYS_EVICTION_POLICY_RANDOM
| CONFIG_DATABASE_KEYS_EVICTION_POLICY_TTL.
Inductive config_log_type := CONFIG_LOG_TYPE_CONSOLE | CONFIG_LOG_TYPE_FILE | CONFIG_LOG_TYPE_SYSLOG.

#[global] Instance config_database_backend_eq_dec : EqDecision config_database_backend.
Proof. solve_decision. Defined.
#[global] Instance config_database_keys_eviction_policy_eq_dec : EqDecision config_database_keys_eviction_policy.
Proof. solve_decision. Defined.
#[global] Instance config_log_type_eq_dec : EqDecision config_log_type.
Proof. solve_decision. Defined.

(** The hard and soft limits of the memory and of the disk have the same
    shape: the string of the file and its value. *)
Record usage_limit := UsageLimit { max_usage_str : list Z; max_usage : Z }.
Record usage_limits := UsageLimits { usage_hard : option usage_limit; usage_soft : option usage_limit }.

Record config_database_file := ConfigDatabaseFile {
  file_path : list Z; shard_size_mb : Z; file_limits : option usage_limits }.
Record config_database_memory := ConfigDatabaseMemory { memory_limits : option usage_limits }.
Record config_database_keys_eviction := ConfigKeysEviction {
  only_ttl : bool; policy : config_database_keys_eviction_policy }.
(** The limits on the number of keys. *)
Record config_database_limits := ConfigLimits { hard_max_keys : option Z; soft_max_keys : option Z }.
Record config_database_snapshots := ConfigSnapshots {
  snapshots_path : list Z; interval_str : list Z; min_data_changed_str : option (list Z);
  snapshot_at_shutdown : bool; interval_ms : Z; min_keys_changed : Z; min_data_changed : Z;
  rotation_max_files : option Z }.
Record config_database_enforced_ttl := ConfigEnforcedTtl {
  default_ttl_str : option (list Z); max_ttl_str : option (list Z); default_ttl_ms : Z; max_ttl_ms : Z }.
Record config_database := ConfigDatabase {
  limits : option config_database_limits;
  keys_eviction : option config_database_keys_eviction;
  backend : config_database_backend;
  snapshots : option config_database_snapshots;
  file : option config_database_file;
  memory : option config_database_memory;
  enforced_ttl : option config_database_enforced_ttl;
  max_user_databases : Z }.

Record config_module_network_timeout := NetworkTimeout { read_ms : Z; write_ms : Z }.
Record config_module_network_keepalive := NetworkKeepalive { time : Z; interval : Z; probes : Z }.
Record config_module_network_tls := NetworkTls {
  certificate_path : list Z; private_key_path : list Z; ca_certificate_chain_path : option (list Z);
  verify_client_certificate : bool }.
Record config_module_network := ModuleNetwork {
  timeout : option config_module_network_timeout;
  keepalive : option config_module_network_keepalive;
  tls : option config_module_network_tls;
  binding_tls : list bool }.
Record config_module_redis := ModuleRedis {
  max_key_length : Z; max_command_length : Z; max_command_arguments : Z; strict_parsing : bool;
  require_authentication : bool; username : option (list Z); password : option (list Z) }.
Record config_module := ConfigModule {
  type : list Z; module_id : Z; network : option config_module_network; redis : option config_module_redis }.
Record config_log := ConfigLog { log_type : config_log_type; log_level : Z; log_file : option (list Z) }.

Record config := ConfigFile {
  cpus : list (list Z);
  modules : list config_module;
  database : option config_database;
  logs : list config_log }.

(** ** module/module.c *)

Record module := Module_ {
  name : list Z;
  config_prepare : option (config_module -> bool);
  config_validate_after_load : option (config -> config_module -> option bool) }.

Definition module_register (registered : list module) (m : module) : list module * Z :=
  (registered ++ [m], u32 (zlen registered)).

Definition module_get_by_id (registered : list module) (id : Z) : option module := zget registered id.

(** The loop over the identifiers, from [module_id] on, with its index. *)
Fixpoint module_search (registered : list module) (module_id : Z) (n : list Z) : option (Z * module) :=
  match registered with
  | [] => None
  | m :: registered => if decide (name m = n) then Some (module_id, m) else module_search registered (module_id + 1) n
  end.
Definition module_get_by_name (registered : list module) (n : list Z) : option (Z * module) :=
  module_search registered 0 n.

(** ** The validations

    A validation returns its boolean, or faults. *)

Definition band (a b : option bool) : option bool := x ← a; if x : bool then b else Some false.
Infix "&&&" := band (at level 40, left associativity).

Definition config_validate_after_load_cpus (utils_cpu_count : Z) (c : config) : option bool :=
  if zlen (cpus c) =? 0 then Some false else
  '(ok, _) ← config_cpus_validate (u16 utils_cpu_count) (cpus c) false
               (replicate (length (cpus c)) CONFIG_CPUS_VALIDATE_OK);
  Some ok.

(** [limits && limits->soft && limits->soft->max >= limits->hard->max] is an
    error. *)
Definition usage_limits_ok (l : option usage_limits) : option bool :=
  match l with
  | Some (UsageLimits hard (Some soft)) => h ← hard; Some (max_usage soft <? max_usage h)
  | _ => Some true
  end.

Definition config_validate_after_load_database_backend_file (c : config) : option bool :=
  d ← database c;
  if decide (backend d = CONFIG_DATABASE_BACKEND_FILE) then
    f ← file d;
    ok ← usage_limits_ok (file_limits f);
    Some (bool_decide (memory d = None) && ok)
  else Some true.

Definition config_validate_after_load_database_backend_memory (c : config) : option bool :=
  d ← database c;
  if decide (backend d = CONFIG_DATABASE_BACKEND_MEMORY) then
    m ← memory d;
    ok ← usage_limits_ok (memory_limits m);
    Some (bool_decide (file d = None) && ok)
  else Some true.

Definition PATH_MAX : Z := 4096.

Definition config_validate_after_load_database_snapshots (c : config) : option bool :=
  d ← database c;
  match snapshots d with
  | None => Some true
  | Some s =>
      path_len ← strlen (snapshots_path s);
      Some ((path_len <=? PATH_MAX) && (interval_ms s <=? 7 * 24 * 60 * 60 * 1000) &&
            match rotation_max_files s with
            | Some max_files => (2 <=? max_files) && (max_files <=? 65535)
            | None => true
            end)
  end.

Definition config_validate_after_load_database_limits (c : config) : option bool :=
  d ← database c;
  match limits d with
  | None => Some true
  | Some l =>
      match soft_max_keys l with
      | None => Some true
      | Some soft => hard ← hard_max_keys l; Some (soft <? hard)
      end
  end.

Definition config_validate_after_load_database_keys_eviction (c : config) : option bool :=
  d ← database c;
  match keys_eviction d with
  | None => Some true
  | Some k => Some (negb (bool_decide (policy k = CONFIG_DATABASE_KEYS_EVICTION_POLICY_TTL) && negb (only_ttl k)))
  end.

Definition config_validate_after_load_database (c : config) : option bool :=
  d ← database c;
  Some ((1 <=? max_user_databases d) && (max_user_databases d <=? 255)).

Definition config_validate_after_load_modules_network_timeout (m : config_module) : option bool :=
  n ← network m;
  t ← timeout n;
  Some (negb ((read_ms t <? -1) || (read_ms t =? 0)) && negb ((write_ms t <? -1) || (write_ms t =? 0))).

Definition config_validate_after_load_modules_network_bindings (m : config_module) : option bool :=
  n ← network m;
  let tls_enabled := bool_decide (is_Some (tls n)) in
  Some (forallb (fun binding_tls => negb (binding_tls && negb tls_enabled)) (binding_tls n)).

Definition config_validate_after_load_modules_network_tls (simple_file_io_exists : list Z -> bool) (m : config_module)
    : option bool :=
  n ← network m;
  match tls n with
  | None => Some true
  | Some t =>
      Some (simple_file_io_exists (certificate_path t) && simple_file_io_exists (private_key_path t) &&
            match ca_certificate_chain_path t with
            | Some p => simple_file_io_exists p
            | None => negb (verify_client_certificate t)
            end)
  end.

Definition config_validate_after_load_modules_network_keepalive (m : config_module) : option bool :=
  n ← network m;
  match keepalive n with
  | None => Some true
  | Some k => Some (negb (time k =? 0) && negb (interval k =? 0) && negb (probes k =? 0))
  end.

(** The user name and the password that are not used are only warned about. *)
Definition module_redis_config_validate_after_load (c : config) (m : config_module) : option bool :=
  r ← redis m;
  Some ((max_key_length r <=? 65534) && negb (require_authentication r && bool_decide (password r = None))).

Definition module_redis_config_prepare (m : config_module) : bool := true.

Definition module_redis : module :=
  Module_ (bytes_of "redis") (Some module_redis_config_prepare) (Some module_redis_config_validate_after_load).
(** The other module of the program registers without the two callbacks. *)
Definition module_prometheus : module := Module_ (bytes_of "prometheus") None None.

Section environment.
Context (utils_cpu_count : Z) (simple_file_io_exists : list Z -> bool) (registered : list module).
Context (totalram : option Z) (total_disk_size : list Z -> option Z).

Definition config_validate_after_load_modules_config_valid (c : config) (m : config_module) : option bool :=
  match module_get_by_name registered (type m) with
  | None => Some false
  | Some (_, md) =>
      match config_validate_after_load md with
      | Some validate => validate c m
      | None => Some true
      end
  end.

Definition validate_module (c : config) (m : config_module) : option bool :=
  config_validate_after_load_modules_config_valid c m
  &&& config_validate_after_load_modules_network_timeout m
  &&& config_validate_after_load_modules_network_keepalive m
  &&& config_validate_after_load_modules_network_tls simple_file_io_exists m
  &&& config_validate_after_load_modules_network_bindings m.

(** Every module is validated, the errors of one do not stop the others. *)
Fixpoint validate_modules (c : config) (l : list config_module) : option bool :=
  match l with
  | [] => Some true
  | m :: l => ok ← validate_module c m; rest ← validate_modules c l; Some (ok && rest)
  end.
Definition config_validate_after_load_modules (c : config) : option bool := validate_modules c (modules c).

Definition config_validate_after_load_log_file (l : config_log) : bool :=
  negb (bool_decide (log_type l = CONFIG_LOG_TYPE_FILE) && bool_decide (log_file l = None)).
Definition config_validate_after_load_logs (c : config) : option bool :=
  Some (forallb config_validate_after_load_log_file (logs c)).

Definition config_validate_after_load_all (c : config) : option bool :=
  config_validate_after_load_cpus utils_cpu_count c
  &&& config_validate_after_load_database_backend_file c
  &&& config_validate_after_load_database_backend_memory c
  &&& config_validate_after_load_database_snapshots c
  &&& config_validate_after_load_database_limits c
  &&& config_validate_after_load_database_keys_eviction c
  &&& config_validate_after_load_database c
  &&& config_validate_after_load_modules c
  &&& config_validate_after_load_logs c.

(** ** config_process_string_values *)

Definition f64_of (z : Z) : spec_float := binary_normalize 53 1024 z 0 false.

(** The conversion to a 64-bit integer truncates; out of range it is
    undefined. *)
Definition int64_of_f64 (f : spec_float) : option Z :=
  v ← match f with
      | S754_zero _ => Some 0
      | S754_finite s m e => Some (let v := if 0 <=? e then Z.pos m * 2 ^ e else Z.pos m / 2 ^ (- e) in
                                   if s then - v else v)
      | _ => None
      end;
  if (- 2 ^ 63 <=? v) && (v <? 2 ^ 63) then Some v else None.

(** [(int64_t)((double)total * ((double)value / 100.0))] *)
Definition percent_of (total value : Z) : option Z :=
  int64_of_f64 (SFmul 53 1024 (f64_of total) (SFdiv 53 1024 (f64_of value) (f64_of 100))).

Definition process_usage_limit (total : Z) (l : usage_limit) : option (option usage_limit) :=
  len ← strlen (max_usage_str l);
  r ← config_parse_string_absolute_or_percent (max_usage_str l) 0 len false false true true true;
  match r with
  | None => Some None
  | Some (v, VALUE_PERCENT) => v ← percent_of total v; Some (Some (UsageLimit (max_usage_str l) v))
  | Some (v, VALUE_ABSOLUTE) => Some (Some (UsageLimit (max_usage_str l) v))
  end.

(** The hard limit is required, the soft limit is optional. *)
Definition process_usage_limits (total : Z) (l : option usage_limits) : option (option usage_limits) :=
  l ← l;
  hard ← usage_hard l;
  r ← process_usage_limit total hard;
  match r with
  | None => Some None
  | Some hard =>
      match usage_soft l with
      | None => Some (Some (UsageLimits (Some hard) None))
      | Some soft =>
          r ← process_usage_limit total soft;
          Some (soft ← r; Some (UsageLimits (Some hard) (Some soft)))
      end
  end.

Definition parse_seconds (s : list Z) : option (option Z) :=
  len ← strlen s; config_parse_string_time s 0 len false false true.

(** A failure in the settings of the snapshots has already freed the
    configuration when it is reported. *)
Inductive processed := Processed (d : config_database) | ProcessFailed (freed : bool).

Definition process_snapshots (s : config_database_snapshots) : option (option config_database_snapshots) :=
  r ← parse_seconds (interval_str s);
  match r with
  | None => Some None
  | Some seconds =>
      let result (changed : Z) :=
        ConfigSnapshots (snapshots_path s) (interval_str s) (min_data_changed_str s) (snapshot_at_shutdown s)
          (i64 (seconds * 1000)) (min_keys_changed s) changed (rotation_max_files s) in
      match min_data_changed_str s with
      | None => Some (Some (result 0))
      | Some str =>
          len ← strlen str;
          r ← config_parse_string_absolute_or_percent str 0 len false true false true true;
          Some ('(v, _) ← r; Some (result v))
      end
  end.

Definition process_enforced_ttl (t : config_database_enforced_ttl) : option (option config_database_enforced_ttl) :=
  d ← match default_ttl_str t with
      | None => Some (Some (default_ttl_ms t))
      | Some s => r ← parse_seconds s; Some (v ← r; Some (i64 (v * 1000)))
      end;
  match d with
  | None => Some None
  | Some d =>
      m ← match max_ttl_str t with
          | None => Some (Some (max_ttl_ms t))
          | Some s => r ← parse_seconds s; Some (v ← r; Some (i64 (v * 1000)))
          end;
      Some (m ← m; Some (ConfigEnforcedTtl (default_ttl_str t) (max_ttl_str t) d m))
  end.

(** A section that is not in the file needs no processing. *)
Definition process_section {A} (process : A -> option (option A)) (section : option A) : option (option (option A)) :=
  match section with
  | None => Some (Some None)
  | Some x => r ← process x; Some (x ← r; Some (Some x))
  end.

Definition process_memory (m : config_database_memory) : option (option config_database_memory) :=
  match totalram with
  | None => Some None
  | Some total =>
      r ← process_usage_limits total (memory_limits m);
      Some (l ← r; Some (ConfigDatabaseMemory (Some l)))
  end.

Definition process_file (f : config_database_file) : option (option config_database_file) :=
  match total_disk_size (file_path f) with
  | None => Some None
  | Some total =>
      r ← process_usage_limits total (file_limits f);
      Some (l ← r; Some (ConfigDatabaseFile (file_path f) (shard_size_mb f) (Some l)))
  end.

Definition config_process_string_values (d : config_database) : option processed :=
  s ← process_section process_snapshots (snapshots d);
  match s with
  | None => Some (ProcessFailed true)
  | Some s =>
      m ← process_section process_memory (memory d);
      match m with
      | None => Some (ProcessFailed false)
      | Some m =>
          f ← process_section process_file (file d);
          match f with
          | None => Some (ProcessFailed false)
          | Some f =>
              t ← process_section process_enforced_ttl (enforced_ttl d);
              match t with
              | None => Some (ProcessFailed false)
              | Some t =>
                  Some (Processed (ConfigDatabase (limits d) (keys_eviction d) (backend d) s f m t (max_user_databases d)))
              end
          end
      end
  end.

(** ** config_load *)

(** [config_free] of a configuration that may have been freed. *)
Definition config_free (freed : bool) : option unit := if freed then None else Some tt.

(** Identifies the modules and runs their preparation; [None] inside after a
    failure. *)
Fixpoint prepare_modules (l : list config_module) : option (list config_module) :=
  match l with
  | [] => Some []
  | m :: l =>
      match module_get_by_name registered (type m) with
      | None => l ← prepare_modules l; Some (m :: l)
      | Some (id, md) =>
          let m := ConfigModule (type m) id (network m) (redis m) in
          if match config_prepare md with Some prepare => prepare m | None => true end
          then l ← prepare_modules l; Some (m :: l)
          else None
      end
  end.

(** [loaded] is what libcyaml makes of the file; the result is NULL, [None],
    or the configuration. *)
Definition config_load (loaded : option config) : option (option config) :=
  match loaded with
  | None => Some None
  | Some c =>
      match prepare_modules (modules c) with
      | None => _ ← config_free false; Some None
      | Some ms =>
          d ← database c;
          p ← config_process_string_values d;
          match p with
          | ProcessFailed freed => _ ← config_free freed; Some None
          | Processed d =>
              let c := ConfigFile (cpus c) ms (Some d) (logs c) in
              ok ← config_validate_after_load_all c;
              if ok : bool then Some (Some c) else _ ← config_free false; Some None
          end
      end
  end.

End environment.

(** ** program.c *)

Definition LOG_LEVEL_DEBUG_INTERNALS : Z := 0x01.
Definition LOG_LEVEL_DEBUG : Z := 0x02.
Definition LOG_LEVEL_ALL : Z := 0x3f.
Definition CONFIG_LOG_LEVEL_ALL : Z := 0x80.

(** The levels of a sink; [release] when NDEBUG is set. *)
Definition sink_log_levels (release : bool) (level : Z) : Z :=
  let log_levels := if Z.land level CONFIG_LOG_LEVEL_ALL =? CONFIG_LOG_LEVEL_ALL then LOG_LEVEL_ALL else 0 in
  let log_levels := Z.lor log_levels (Z.land level LOG_LEVEL_ALL) in
  let log_levels := Z.land log_levels (Z.lnot (Z.shiftr level 8)) in
  let log_levels := Z.land log_levels (Z.lnot LOG_LEVEL_DEBUG_INTERNALS) in
  if release then Z.land log_levels (Z.lnot LOG_LEVEL_DEBUG) else log_levels.

(** The level of the command line, and the ones above, replace the levels of
    every log. *)
Definition PROGRAM_ARGUMENTS_LOG_LEVEL_MAX : Z := 0x21.

Fixpoint levels_from (set_remaining_bits : bool) (level : Z) (levels : list Z) : Z :=
  match levels with
  | [] => 0
  | l :: levels =>
      let set_remaining_bits := set_remaining_bits || (level =? l) in
      Z.lor (if set_remaining_bits then l else 0) (levels_from set_remaining_bits level levels)
  end.

Definition program_update_config_from_arguments (level : Z) (c : config) : config :=
  if level =? PROGRAM_ARGUMENTS_LOG_LEVEL_MAX then c else
  ConfigFile (cpus c) (modules c) (database c)
    ((fun l => ConfigLog (log_type l) (levels_from false level [0x02; 0x04; 0x08; 0x10; 0x20]) (log_file l)) <$> logs c).

Definition program_config_thread_affinity_set_selected_cpus (utils_numa_cpu_configured_count : Z) (c : config)
    : option (option (list (option Z) * Z)) :=
  config_cpus_parse (u16 utils_numa_cpu_configured_count) (cpus c) false.

(** storage_db_config_t: zeroed by storage_db_config_new. *)
Inductive storage_db_backend_type := STORAGE_DB_BACKEND_TYPE_UNKNOWN | STORAGE_DB_BACKEND_TYPE_MEMORY | STORAGE_DB_BACKEND_TYPE_FILE.

Record storage_db_config_snapshot := DbSnapshotConfig {
  snapshot_path : option (list Z); snapshot_interval_ms : Z; snapshot_min_keys_changed : Z; snapshot_min_data_changed : Z;
  snapshot_rotation_max_files : Z; at_shutdown : bool }.

Record storage_db_config := DbConfig {
  backend_type : storage_db_backend_type;
  data_size_soft : Z; data_size_hard : Z; keys_count_soft : Z; keys_count_hard : Z;
  snapshot : option storage_db_config_snapshot;
  db_max_user_databases : Z;
  enforced : StorageDb.config }.

Definition data_size_limits (l : option usage_limits) : option (Z * Z) :=
  l ← l; hard ← usage_hard l;
  Some (max_usage hard, match usage_soft l with Some s => max_usage s | None => 0 end).

Definition enforced_ttl_of (t : option config_database_enforced_ttl) : StorageDb.config :=
  match t with
  | None => StorageDb.Config 0 0
  | Some t =>
      StorageDb.Config (if default_ttl_str t is Some _ then default_ttl_ms t else 0)
                       (if max_ttl_str t is Some _ then max_ttl_ms t else 0)
  end.

(** The settings given to storage_db_new. *)
Definition program_config_setup_storage_db (d : config_database) : option storage_db_config :=
  let '(snapshot, max_dbs, ttl) :=
    match snapshots d with
    | Some s =>
        (Some (DbSnapshotConfig (Some (snapshots_path s)) (u64 (interval_ms s)) (u64 (min_keys_changed s))
                 (u64 (min_data_changed s)) (match rotation_max_files s with Some n => u64 n | None => 0 end)
                 (snapshot_at_shutdown s)),
         u32 (max_user_databases d), enforced_ttl_of (enforced_ttl d))
    | None => (None, 0, StorageDb.Config 0 0)
    end in
  '(hard, soft) ← match backend d with
                  | CONFIG_DATABASE_BACKEND_FILE => f ← file d; data_size_limits (file_limits f)
                  | CONFIG_DATABASE_BACKEND_MEMORY => m ← memory d; data_size_limits (memory_limits m)
                  end;
  l ← limits d;
  hard_keys ← hard_max_keys l;
  Some (DbConfig (match backend d with
                  | CONFIG_DATABASE_BACKEND_FILE => STORAGE_DB_BACKEND_TYPE_FILE
                  | CONFIG_DATABASE_BACKEND_MEMORY => STORAGE_DB_BACKEND_TYPE_MEMORY
                  end)
    (u64 soft) (u64 hard) (match soft_max_keys l with Some s => s | None => 0 end) hard_keys snapshot max_dbs ttl).

(** module_redis_command_select.c: the database the connection moves to, or
    the error "invalid DB index". *)
Definition module_redis_command_select (cfg : storage_db_config) (index : Z) : option Z :=
  if db_max_user_databases cfg <=? index then None else Some (u32 index).

(** ** What a configuration that loads satisfies *)

Definition soft_below_hard (l : option usage_limits) : Prop :=
  forall hard soft, l = Some (UsageLimits hard (Some soft)) -> exists h, hard = Some h /\ max_usage soft < max_usage h.

(** The settings of the chosen backend are there, the ones of the other are
    not. *)
Definition backend_valid (d : config_database) : Prop :=
  match backend d with
  | CONFIG_DATABASE_BACKEND_FILE =>
      exists f, file d = Some f /\ memory d = None /\ soft_below_hard (file_limits f)
  | CONFIG_DATABASE_BACKEND_MEMORY =>
      exists m, memory d = Some m /\ file d = None /\ soft_below_hard (memory_limits m)
  end.

Definition snapshots_valid (s : config_database_snapshots) : Prop :=
  (exists n, strlen (snapshots_path s) = Some n /\ n <= PATH_MAX) /\ interval_ms s <= 604800000 /\
  forall n, rotation_max_files s = Some n -> 2 <= n <= 65535.

Definition limits_valid (l : config_database_limits) : Prop :=
  forall soft, soft_max_keys l = Some soft -> exists hard, hard_max_keys l = Some hard /\ soft < hard.

Record database_valid (d : config_database) : Prop := {
  dv_backend : backend_valid d;
  dv_snapshots : forall s, snapshots d = Some s -> snapshots_valid s;
  dv_limits : forall l, limits d = Some l -> limits_valid l;
  dv_eviction : forall k, keys_eviction d = Some k ->
    policy k = CONFIG_DATABASE_KEYS_EVICTION_POLICY_TTL -> only_ttl k = true;
  dv_databases : 1 <= max_user_databases d <= 255 }.

Definition timeout_valid (ms : Z) : Prop := ms = -1 \/ 0 < ms.

Record network_valid (exists_ : list Z -> bool) (n : config_module_network) : Prop := {
  nv_timeout : exists t, timeout n = Some t /\ timeout_valid (read_ms t) /\ timeout_valid (write_ms t);
  nv_keepalive : forall k, keepalive n = Some k -> time k <> 0 /\ interval k <> 0 /\ probes k <> 0;
  nv_tls : forall t, tls n = Some t -> exists_ (certificate_path t) = true /\ exists_ (private_key_path t) = true /\
    (forall p, ca_certificate_chain_path t = Some p -> exists_ p = true) /\
    (verify_client_certificate t = true -> is_Some (ca_certificate_chain_path t));
  nv_bindings : tls n = None -> Forall (fun b => b = false) (binding_tls n) }.

Lemma band_true a b : a &&& b = Some true <-> a = Some true /\ b = Some true.
Proof. destruct a as [[]|]; cbn; naive_solver. Qed.

Lemma usage_limits_ok_true l : usage_limits_ok l = Some true <-> soft_below_hard l.
Proof.
  unfold usage_limits_ok, soft_below_hard. destruct l as [[[h|] [s|]]|]; cbn; split; try naive_solver.
  - intros [= H]. intros ? ? [= <- <-]. exists h. split; [done|lia].
  - intros H. destruct (H _ _ eq_refl) as (h' & [= <-] & Hlt). f_equal. lia.
Qed.

Lemma backend_valid_true c d :
  database c = Some d ->
  config_validate_after_load_database_backend_file c = Some true /\
  config_validate_after_load_database_backend_memory c = Some true <-> backend_valid d.
Proof.
  intros Hd. unfold config_validate_after_load_database_backend_file, config_validate_after_load_database_backend_memory,
    backend_valid. rewrite Hd. cbn [mbind option_bind]. destruct (backend d); cbn [decide].
  - rewrite (decide_False (P := CONFIG_DATABASE_BACKEND_MEMORY = CONFIG_DATABASE_BACKEND_FILE)) by done.
    rewrite decide_True by done. split.
    + intros [_ H]. destruct (memory d) as [m|]; [|done]. exists m. cbn in H. rewrite <- usage_limits_ok_true.
      destruct (usage_limits_ok (memory_limits m)) as [[]|]; cbn in H; [|by rewrite andb_false_r in H|done].
      case_bool_decide; naive_solver.
    + intros (m & -> & -> & Hs). cbn. apply usage_limits_ok_true in Hs as ->. done.
  - rewrite decide_True by done.
    rewrite (decide_False (P := CONFIG_DATABASE_BACKEND_FILE = CONFIG_DATABASE_BACKEND_MEMORY)) by done. split.
    + intros [H _]. destruct (file d) as [m|]; [|done]. exists m. cbn in H. rewrite <- usage_limits_ok_true.
      destruct (usage_limits_ok (file_limits m)) as [[]|]; cbn in H; [|by rewrite andb_false_r in H|done].
      case_bool_decide; naive_solver.
    + intros (m & -> & -> & Hs). cbn. apply usage_limits_ok_true in Hs as ->. done.
Qed.

Lemma snapshots_valid_true c d :
  database c = Some d ->
  config_validate_after_load_database_snapshots c = Some true <-> forall s, snapshots d = Some s -> snapshots_valid s.
Proof.
  intros Hd. unfold config_validate_after_load_database_snapshots, snapshots_valid. rewrite Hd. cbn [mbind option_bind].
  destruct (snapshots d) as [s|]; [|naive_solver]. destruct (strlen (snapshots_path s)) as [n|] eqn:Hn; cbn [mbind option_bind].
  - split.
    + intros [= H] s' [= <-]. rewrite !andb_true_iff in H. destruct H as ((H1 & H2) & H3).
      split_and!; [exists n; split; [done|lia]|lia|]. intros k Hk. rewrite Hk in H3. lia.
    + intros H. destruct (H s eq_refl) as ((n' & Hn' & H1) & H2 & H3). rewrite Hn in Hn'. injection Hn' as <-. f_equal.
      rewrite !andb_true_iff. split_and!; [lia|lia|]. destruct (rotation_max_files s) as [k|]; [|done].
      specialize (H3 k eq_refl). lia.
  - split; [done|]. intros H. destruct (H s eq_refl) as ((n' & Hn' & _) & _). congruence.
Qed.

Lemma database_rest_true c d :
  database c = Some d ->
  (config_validate_after_load_database_limits c = Some true <-> forall l, limits d = Some l -> limits_valid l) /\
  (config_validate_after_load_database_keys_eviction c = Some true <->
     forall k, keys_eviction d = Some k -> policy k = CONFIG_DATABASE_KEYS_EVICTION_POLICY_TTL -> only_ttl k = true) /\
  (config_validate_after_load_database c = Some true <-> 1 <= max_user_databases d <= 255).
Proof.
  intros Hd. unfold config_validate_after_load_database_limits, config_validate_after_load_database_keys_eviction,
    config_validate_after_load_database, limits_valid. rewrite Hd. cbn [mbind option_bind]. split_and!.
  - destruct (limits d) as [[[h|] [s|]]|]; cbn; split; try naive_solver.
    + intros [= H] l [= <-] s' [= <-]. exists h. split; [done|lia].
    + intros H. destruct (H _ eq_refl _ eq_refl) as (h' & [= <-] & Hlt). f_equal. lia.
  - destruct (keys_eviction d) as [k|]; [|naive_solver]. split.
    + intros [= H] k' [= <-] Hp. rewrite bool_decide_eq_true_2 in H by done. by destruct (only_ttl k).
    + intros H. f_equal. specialize (H k eq_refl). case_bool_decide as Hp; [|done]. by rewrite (H Hp).
  - split; [intros [= H]; lia|intros H; f_equal; lia].
Qed.
Lemma timeout_valid_true ms : negb ((ms <? -1) || (ms =? 0)) = true <-> timeout_valid ms.
Proof. unfold timeout_valid. lia. Qed.

Lemma network_valid_true exists_ m n :
  network m = Some n ->
  config_validate_after_load_modules_network_timeout m = Some true /\
  config_validate_after_load_modules_network_keepalive m = Some true /\
  config_validate_after_load_modules_network_tls exists_ m = Some true /\
  config_validate_after_load_modules_network_bindings m = Some true <-> network_valid exists_ n.
Proof.
  intros Hn. unfold config_validate_after_load_modules_network_timeout, config_validate_after_load_modules_network_keepalive,
    config_validate_after_load_modules_network_tls, config_validate_after_load_modules_network_bindings.
  rewrite Hn. cbn [mbind option_bind]. split.
  - intros (H1 & H2 & H3 & H4). split.
    + destruct (timeout n) as [t|]; [|done]. exists t. injection H1 as H1. rewrite andb_true_iff, !timeout_valid_true in H1. naive_solver.
    + intros k Hk. rewrite Hk in H2. injection H2 as H2. lia.
    + intros t Ht. rewrite Ht in H3. injection H3 as H3. rewrite !andb_true_iff in H3. destruct H3 as ((H3 & H5) & H6).
      split_and!; [done|done| |].
      * intros p Hp. by rewrite Hp in H6.
      * intros Hv. destruct (ca_certificate_chain_path t); [eauto|by rewrite Hv in H6].
    + intros Ht. rewrite Ht in H4. injection H4 as H4. rewrite List.forallb_forall in H4. apply Forall_forall.
      intros b Hb. apply list_elem_of_In in Hb. specialize (H4 b Hb). by destruct b.
  - intros [(t & Ht & H1) H2 H3 H4]. split_and!.
    + rewrite Ht. cbn. f_equal. by rewrite andb_true_iff, !timeout_valid_true.
    + destruct (keepalive n) as [k|]; [|done]. specialize (H2 k eq_refl). f_equal. lia.
    + destruct (tls n) as [t'|]; [|done]. destruct (H3 t' eq_refl) as (-> & -> & H5 & H6). f_equal. cbn.
      destruct (ca_certificate_chain_path t'); [by apply H5|].
      destruct (verify_client_certificate t'); [by destruct H6|done].
    + f_equal. apply List.forallb_forall. intros b Hb. destruct (tls n); [by rewrite bool_decide_eq_true_2, andb_false_r by eauto|].
      specialize (H4 eq_refl). rewrite Forall_forall in H4. apply list_elem_of_In in Hb. by rewrite (H4 b Hb).
Qed.

Section valid.
Context (utils_cpu_count : Z) (exists_ : list Z -> bool) (registered : list module).

Definition module_valid (c : config) (m : config_module) : Prop :=
  (exists id md, module_get_by_name registered (type m) = Some (id, md) /\
     forall validate, config_validate_after_load md = Some validate -> validate c m = Some true) /\
  exists n, network m = Some n /\ network_valid exists_ n.

Record config_valid (c : config) : Prop := {
  cv_cpus : cpus c <> [] /\ exists errors, config_cpus_validate (u16 utils_cpu_count) (cpus c) false
    (replicate (length (cpus c)) CONFIG_CPUS_VALIDATE_OK) = Some (true, errors);
  cv_database : exists d, database c = Some d /\ database_valid d;
  cv_modules : Forall (module_valid c) (modules c);
  cv_logs : Forall (fun l => log_type l = CONFIG_LOG_TYPE_FILE -> is_Some (log_file l)) (logs c) }.

Lemma cpus_valid_true c :
  config_validate_after_load_cpus utils_cpu_count c = Some true <->
  cpus c <> [] /\ exists errors, config_cpus_validate (u16 utils_cpu_count) (cpus c) false
    (replicate (length (cpus c)) CONFIG_CPUS_VALIDATE_OK) = Some (true, errors).
Proof.
  unfold config_validate_after_load_cpus. destruct (cpus c) as [|cpu l] eqn:E; [naive_solver|].
  rewrite <- E. destruct (Z.eqb_spec (zlen (cpus c)) 0) as [Hz|_]; [rewrite E in Hz; unfold zlen in Hz; cbn in Hz; lia|].
  destruct (config_cpus_validate _ _ _ _) as [[ok errors]|]; cbn; [|by split; [|intros (_ & ? & ?)]].
  split; [intros [= ->]; split; [by rewrite E|by exists errors]|by intros (_ & ? & [= -> _])].
Qed.

Lemma module_valid_true c m : validate_module exists_ registered c m = Some true <-> module_valid c m.
Proof.
  unfold validate_module, module_valid. rewrite !band_true. destruct (network m) as [n|] eqn:Hn.
  - pose proof (network_valid_true exists_ m n Hn) as Hnv.
    assert (config_validate_after_load_modules_config_valid registered c m = Some true <->
      exists id md, module_get_by_name registered (type m) = Some (id, md) /\
        forall validate, config_validate_after_load md = Some validate -> validate c m = Some true) as ->.
    { unfold config_validate_after_load_modules_config_valid. destruct (module_get_by_name registered (type m)) as [[id md]|]; [|naive_solver].
      destruct (config_validate_after_load md) as [v|] eqn:Hv.
      - split; [intros H; exists id, md; split; [done|]; intros v' Hv'; rewrite Hv in Hv'; by injection Hv' as <-|].
        intros (id' & md' & [= <- <-] & H). by apply H.
      - split; [intros _; exists id, md; split; [done|]; intros v' Hv'; congruence|done]. }
    split.
    + intros ((((H1 & H2) & H3) & H4) & H5). split; [exact H1|]. exists n. split; [done|]. apply Hnv. tauto.
    + intros [H1 (n' & [= <-] & H2)]. apply Hnv in H2. tauto.
  - unfold config_validate_after_load_modules_network_timeout. rewrite Hn. cbn. split; [by intros ((((_ & [=]) & _) & _) & _)|].
    intros [_ (n & ? & _)]. done.
Qed.

Lemma modules_valid_true c : config_validate_after_load_modules exists_ registered c = Some true <-> Forall (module_valid c) (modules c).
Proof.
  unfold config_validate_after_load_modules. induction (modules c) as [|m l IH]; cbn; [by split|].
  rewrite Forall_cons, <- IH, <- module_valid_true.
  destruct (validate_module exists_ registered c m) as [[]|], (validate_modules exists_ registered c l) as [[]|]; cbn; naive_solver.
Qed.

(** The validation accepts a configuration exactly when it is valid. *)
Lemma config_validate_after_load_spec c :
  config_validate_after_load_all utils_cpu_count exists_ registered c = Some true <-> config_valid c.
Proof.
  unfold config_validate_after_load_all. rewrite !band_true, cpus_valid_true, modules_valid_true.
  assert (config_validate_after_load_logs c = Some true <->
    Forall (fun l => log_type l = CONFIG_LOG_TYPE_FILE -> is_Some (log_file l)) (logs c)) as Hlogs.
  { unfold config_validate_after_load_logs. rewrite Forall_forall. split.
    - intros [= H] l Hl Ht. rewrite List.forallb_forall in H. apply list_elem_of_In in Hl. specialize (H l Hl).
      unfold config_validate_after_load_log_file in H. rewrite bool_decide_eq_true_2 in H by done.
      destruct (log_file l); [eauto|done].
    - intros H. f_equal. apply List.forallb_forall. intros l Hl. apply list_elem_of_In in Hl. specialize (H l Hl).
      unfold config_validate_after_load_log_file. case_bool_decide as Ht; [|done]. destruct (H Ht) as [? ->]. done. }
  rewrite Hlogs. destruct (database c) as [d|] eqn:Hd.
  - pose proof (backend_valid_true c d Hd) as Hb. pose proof (snapshots_valid_true c d Hd) as Hs.
    destruct (database_rest_true c d Hd) as (Hl & He & Hn). rewrite Hs, Hl, He, Hn. split.
    + intros ((((((((H1 & H2) & H3) & H4) & H5) & H6) & H7) & H8) & H9). split; [done| |done|done].
      exists d. split; [done|]. split; try done. by apply Hb.
    + intros [H1 (d' & Hd' & [H2 H3 H4 H5 H6]) H7 H8]. injection (eq_trans (eq_sym Hd) Hd') as <-. apply Hb in H2. tauto.
  - split; [|intros [_ (d & Hd' & _) _ _]; congruence]. intros H. exfalso.
    unfold config_validate_after_load_database in H. rewrite Hd in H. cbn in H. naive_solver.
Qed.
Lemma module_search_spec l n : forall i id md,
  module_search l i n = Some (id, md) -> i <= id /\ zget l (id - i) = Some md /\ name md = n.
Proof.
  induction l as [|m l IH]; intros i id md H; [done|]. cbn in H. case_decide as Hn.
  - injection H as <- <-. rewrite Z.sub_diag. done.
  - destruct (IH _ _ _ H) as (H1 & H2 & H3). split; [lia|]. split; [|done].
    unfold zget in *. repeat zcase_in H2; [lia|]. zcase; [lia|].
    replace (Z.to_nat (id - i)) with (S (Z.to_nat (id - (i + 1)))) by lia. done.
Qed.

(** The module found by its name is the one its identifier stands for. *)
Lemma module_get_by_name_id n id md :
  module_get_by_name registered n = Some (id, md) -> module_get_by_id registered id = Some md /\ name md = n.
Proof. intros H. destruct (module_search_spec _ _ _ _ _ H) as (_ & H1 & H2). by rewrite Z.sub_0_r in H1. Qed.

Lemma prepare_modules_ids l : forall ms,
  prepare_modules registered l = Some ms ->
  Forall (fun m => forall id md, module_get_by_name registered (type m) = Some (id, md) -> module_id m = id) ms.
Proof.
  induction l as [|m l IH]; intros ms H; cbn in H; [by injection H as <-|].
  destruct (module_get_by_name registered (type m)) as [[id md]|] eqn:Hm.
  - case_match; [|done]. destruct (prepare_modules registered l) as [ms'|]; [|done]. injection H as <-.
    constructor; [|by apply IH]. intros id' md' Hid. cbn in *. congruence.
  - destruct (prepare_modules registered l) as [ms'|]; [|done]. injection H as <-. constructor; [|by apply IH]. congruence.
Qed.

Context (totalram : option Z) (total_disk_size : list Z -> option Z).

Abbreviation load := (config_load utils_cpu_count exists_ registered totalram total_disk_size).


(** Three mistakes in the file end the process instead of being refused.
    When the interval of the snapshots is not a time, the configuration is freed
    twice; when the backend is the file and its settings are not there, or a
    module of type redis has no settings, a NULL pointer is dereferenced after
    the error is logged. *)
Theorem config_load_faults c d :
  database c = Some d ->
  (forall ms s, prepare_modules registered (modules c) = Some ms -> snapshots d = Some s ->
     parse_seconds (interval_str s) = Some None -> load (Some c) = None) /\
  (config_validate_after_load_cpus utils_cpu_count c = Some true -> backend d = CONFIG_DATABASE_BACKEND_FILE ->
     file d = None -> config_validate_after_load_all utils_cpu_count exists_ registered c = None) /\
  (forall m id, In m (modules c) -> redis m = None -> module_get_by_name registered (type m) = Some (id, module_redis) ->
     config_validate_after_load_modules exists_ registered c = None).
Proof.
  intros Hd. split_and!.
  - intros ms s Hms Hs Hi. unfold config_load. rewrite Hms, Hd. cbn [mbind option_bind].
    unfold config_process_string_values, process_section. rewrite Hs. unfold process_snapshots. by rewrite Hi.
  - intros Hc Hb Hf. unfold config_validate_after_load_all. rewrite Hc. unfold config_validate_after_load_database_backend_file.
    rewrite Hd. cbn [mbind option_bind band]. rewrite decide_True by done. by rewrite Hf.
  - intros m id Hm Hr Hn. unfold config_validate_after_load_modules. induction (modules c) as [|m' l IH]; [done|]. cbn.
    destruct Hm as [->|Hm].
    + unfold validate_module, config_validate_after_load_modules_config_valid. rewrite Hn. cbn.
      unfold module_redis_config_validate_after_load. by rewrite Hr.
    + rewrite (IH Hm). by destruct (validate_module exists_ registered c m') as [[]|].
Qed.
End valid.

(** ** A configuration *)

Definition registered_modules : list module := fst (module_register (fst (module_register [] module_prometheus)) module_redis).

Definition example_database (interval : string) (snapshots_on : bool) (b : config_database_backend) : config_database :=
  ConfigDatabase (Some (ConfigLimits (Some 1000) (Some 900))) (Some (ConfigKeysEviction true CONFIG_DATABASE_KEYS_EVICTION_POLICY_TTL))
    b (if snapshots_on then Some (ConfigSnapshots (of_string "/var/dump.rdb") (of_string interval)
         (Some (of_string "1mb")) true 0 1000 0 (Some 10)) else None)
    None (Some (ConfigDatabaseMemory (Some (UsageLimits (Some (UsageLimit (of_string "90%") 0)) (Some (UsageLimit (of_string "6 GB") 0))))))
    (Some (ConfigEnforcedTtl (Some (of_string "1h")) (Some (of_string "1d")) 0 0)) 16.

Definition example_module (redis_settings : bool) : config_module :=
  ConfigModule (bytes_of "redis") 0
    (Some (ModuleNetwork (Some (NetworkTimeout (-1) 10000)) None None [false]))
    (if redis_settings then Some (ModuleRedis 8192 536870912 10000 false false None None) else None).

Definition example_config (interval : string) (b : config_database_backend) (redis_settings : bool) : config :=
  ConfigFile [of_string "0-2"; of_string "5"] [example_module redis_settings] (Some (example_database interval true b))
    [ConfigLog CONFIG_LOG_TYPE_CONSOLE 0x80 None].

Definition example_load (c : config) : option (option config) :=
  config_load 8 (fun _ => true) registered_modules (Some 8589934592) (fun _ => None) (Some c).

Definition loaded_example : option (option config) :=
  Eval vm_compute in example_load (example_config "5m" CONFIG_DATABASE_BACKEND_MEMORY true).


Lemma config_load_faults_witness :
  example_load (example_config "5" CONFIG_DATABASE_BACKEND_MEMORY true) = None /\
  config_validate_after_load_all 8 (fun _ => true) registered_modules (example_config "5m" CONFIG_DATABASE_BACKEND_FILE true) = None /\
  config_validate_after_load_modules (fun _ => true) registered_modules (example_config "5m" CONFIG_DATABASE_BACKEND_MEMORY false) = None.
Proof.
  split_and!.
  - refine (proj1 (config_load_faults 8 (fun _ => true) registered_modules (Some 8589934592) (fun _ => None)
      (example_config "5" CONFIG_DATABASE_BACKEND_MEMORY true) (example_database "5" true CONFIG_DATABASE_BACKEND_MEMORY) eq_refl) _ _ eq_refl eq_refl _). vm_compute. reflexivity.
  - refine (proj1 (proj2 (config_load_faults 8 (fun _ => true) registered_modules None (fun _ => None)
      (example_config "5m" CONFIG_DATABASE_BACKEND_FILE true) (example_database "5m" true CONFIG_DATABASE_BACKEND_FILE) eq_refl)) _ eq_refl eq_refl). vm_compute. reflexivity.
  - refine (proj2 (proj2 (config_load_faults 8 (fun _ => true) registered_modules None (fun _ => None)
      (example_config "5m" CONFIG_DATABASE_BACKEND_MEMORY false) (example_database "5m" true CONFIG_DATABASE_BACKEND_MEMORY) eq_refl)) (example_module false) 1 _ eq_refl eq_refl).
    by left.
Defined.

(** The percentages of the memory, truncated. *)
Example memory_percent : percent_of 8589934592 90 = Some 7730941132 /\ percent_of 8589934592 100 = Some 8589934592.
Proof. split; vm_compute; reflexivity. Qed.

(** ** The settings of the database *)

(** The settings of the database depend on the snapshots.  With snapshots,
    SELECT moves to the databases under the configured number, and also to the
    database numbered modulo 2^32 for any negative index; without, whatever the
    file says, no database can be selected and no enforced expiry applies. *)
Theorem database_settings_need_snapshots d cfg :
  program_config_setup_storage_db d = Some cfg -> database_valid d ->
  (forall s index, snapshots d = Some s ->
     module_redis_command_select cfg index = if index <? max_user_databases d then Some (u32 index) else None) /\
  (forall s, snapshots d = Some s -> enforced cfg = enforced_ttl_of (enforced_ttl d)) /\
  (snapshots d = None ->
     (forall index, 0 <= index -> module_redis_command_select cfg index = None) /\
     forall now expiry, StorageDb.enforce_ttl (enforced cfg) now expiry = expiry).
Proof.
  intros H Hv. unfold program_config_setup_storage_db in H. unfold module_redis_command_select. pose proof (dv_databases d Hv).
  destruct (snapshots d) as [s|].
  - match type of H with mbind _ ?x = _ => destruct x as [[hard soft]|]; [|done] end. cbn [mbind option_bind] in H.
    destruct (limits d) as [l|]; [|done]. cbn [mbind option_bind] in H. destruct (hard_max_keys l); [|done].
    injection H as <-. cbn. rewrite wrap_small by mach_lia. split_and!; [|done|done]. intros s' index _. do 2 zcase; (done || lia).
  - match type of H with mbind _ ?x = _ => destruct x as [[hard soft]|]; [|done] end. cbn [mbind option_bind] in H.
    destruct (limits d) as [l|]; [|done]. cbn [mbind option_bind] in H. destruct (hard_max_keys l); [|done].
    injection H as <-. cbn. split_and!; [done|done|]. intros _. split.
    + intros index Hi. zcase; [done|lia].
    + intros now expiry. unfold StorageDb.enforce_ttl. cbn. by rewrite andb_false_r.
Qed.
Definition process_example (snapshots_on : bool) : option processed :=
  config_process_string_values (Some 8589934592) (fun _ => None)
    (example_database "5m" snapshots_on CONFIG_DATABASE_BACKEND_MEMORY).

Definition processed_with : config_database :=
  Eval vm_compute in match process_example true with Some (Processed d) => d | _ => example_database "" true CONFIG_DATABASE_BACKEND_FILE end.
Definition processed_without : config_database :=
  Eval vm_compute in match process_example false with Some (Processed d) => d | _ => example_database "" true CONFIG_DATABASE_BACKEND_FILE end.

Example process_example_results :
  process_example true = Some (Processed processed_with) /\ process_example false = Some (Processed processed_without).
Proof. split; vm_compute; reflexivity. Qed.

Lemma processed_valid : database_valid processed_with /\ database_valid processed_without.
Proof.
  split; split.
  - eexists. split; [reflexivity|]. split; [done|]. intros h s [= <- <-]. eexists. split; [reflexivity|]. cbn. lia.
  - intros s [= <-]. split; [by eexists|]. split; [done|]. by intros n [= <-].
  - intros l [= <-] soft [= <-]. eexists. split; [reflexivity|]. done.
  - by intros k [= <-].
  - cbn. lia.
  - eexists. split; [reflexivity|]. split; [done|]. intros h s [= <- <-]. eexists. split; [reflexivity|]. cbn. lia.
  - by intros s [=].
  - intros l [= <-] soft [= <-]. eexists. split; [reflexivity|]. done.
  - by intros k [= <-].
  - cbn. lia.
Qed.

Lemma database_settings_need_snapshots_witness :
  (exists cfg, program_config_setup_storage_db processed_with = Some cfg /\
     module_redis_command_select cfg 15 = Some 15 /\ module_redis_command_select cfg (-1) = Some 4294967295 /\
     enforced cfg = StorageDb.Config 3600000 86400000) /\
  exists cfg, program_config_setup_storage_db processed_without = Some cfg /\
    module_redis_command_select cfg 0 = None.
Proof.
  split.
  - destruct (program_config_setup_storage_db processed_with) as [cfg|] eqn:E; [|vm_compute in E; discriminate E].
    pose proof (database_settings_need_snapshots _ _ E (proj1 processed_valid)) as (H1 & H2 & _).
    exists cfg. split; [done|]. split_and!.
    + rewrite (H1 _ 15 eq_refl). vm_compute. reflexivity.
    + rewrite (H1 _ (-1) eq_refl). vm_compute. reflexivity.
    + rewrite (H2 _ eq_refl). vm_compute. reflexivity.
  - destruct (program_config_setup_storage_db processed_without) as [cfg|] eqn:E; [|vm_compute in E; discriminate E].
    pose proof (database_settings_need_snapshots _ _ E (proj2 processed_valid)) as (_ & _ & H3).
    exists cfg. split; [done|]. apply H3; [reflexivity|lia].
Defined.

(** ** The levels of the logs *)

(** A level is logged when it or "all" is listed and its negation is not;
    the debug level is dropped in the release builds. *)
Lemma sink_log_levels_bit release level i :
  1 <= i <= 5 ->
  Z.testbit (sink_log_levels release level) i =
  (Z.testbit level 7 || Z.testbit level i) && negb (Z.testbit level (i + 8)) && negb (release && (i =? 1)).
Proof.
  intros Hi. unfold sink_log_levels.
  assert ((Z.land level CONFIG_LOG_LEVEL_ALL =? CONFIG_LOG_LEVEL_ALL) = Z.testbit level 7) as ->.
  { unfold CONFIG_LOG_LEVEL_ALL. change 0x80 with (2 ^ 7). destruct (Z.testbit level 7) eqn:E.
    - apply Z.eqb_eq, Z.bits_inj'. intros n Hn. rewrite Z.land_spec, Z.pow2_bits_eqb by lia.
      destruct (Z.eqb_spec 7 n) as [<-|]; [by rewrite E|by rewrite andb_false_r].
    - apply Z.eqb_neq. intros H. apply (f_equal (fun z => Z.testbit z 7)) in H.
      rewrite Z.land_spec, E in H. cbn in H. discriminate H. }
  assert (Z.testbit LOG_LEVEL_ALL i = true) as Hall by (destruct (decide (i = 1 \/ i = 2 \/ i = 3 \/ i = 4 \/ i = 5)) as [H|]; [|lia];
    destruct H as [-> | [-> | [-> | [-> | ->]]]]; reflexivity).
  assert (Z.testbit LOG_LEVEL_DEBUG_INTERNALS i = false) as Hint.
  { unfold LOG_LEVEL_DEBUG_INTERNALS. change 0x01 with (2 ^ 0). rewrite Z.pow2_bits_eqb by lia. lia. }
  assert (Z.testbit LOG_LEVEL_DEBUG i = (i =? 1)) as Hdbg.
  { unfold LOG_LEVEL_DEBUG. change 0x02 with (2 ^ 1). rewrite Z.pow2_bits_eqb by lia. lia. }
  assert (forall a, Z.testbit (Z.land (Z.land (Z.lor a (Z.land level LOG_LEVEL_ALL)) (Z.lnot (Z.shiftr level 8)))
    (Z.lnot LOG_LEVEL_DEBUG_INTERNALS)) i = (Z.testbit a i || Z.testbit level i) && negb (Z.testbit level (i + 8))) as Ha.
  { intros a. rewrite !Z.land_spec, Z.lor_spec, Z.land_spec, !Z.lnot_spec, Z.shiftr_spec, Hall, Hint by lia.
    by rewrite !andb_true_r. }
  destruct release; cbn [andb negb]; [rewrite Z.land_spec, Z.lnot_spec, Hdbg by lia|rewrite andb_true_r]; rewrite Ha;
    destruct (Z.testbit level 7); rewrite ?Hall, ?Z.bits_0; done.
Qed.

(** The level of the command line is replaced by it and every level above. *)
Example arguments_level : levels_from false 0x10 [0x02; 0x04; 0x08; 0x10; 0x20] = 0x30.
Proof. reflexivity. Qed.
End ConfigLoad.
