(* ===== verification/RedisArguments.v ===== *)
(** * RedisArguments: the parser of the arguments of a command

    module/redis/module_redis_command.{c,h}: the arguments of a command arrive
    one at a time and are stored in the context of the command, a structure
    generated for it, at the offsets that its description (RedisInfo.v) gives.
    The memory is a map of cells: a cell is what is stored at an address, and an
    address without a cell is zeroed.  A failed assert, a NULL dereference and a
    read of a cell as another kind of value are [None].  Allocations succeed, so
    the callbacks return true and their result is the state alone; a block is
    known by its address and the ones after it are free.  The tables of the
    tokens are those of RedisInfo.v. *)

From Stdlib Require Import String.
From stdpp Require Import gmap.
From S2P Require Import Prelude Decimal HashtableSpsc RedisInfo StorageDb StorageDbChunks Config ConfigLoad.

Module RedisArguments.
Import Decimal HashtableSpsc RedisInfo.
Import StorageDb(chunk_sequence).
Import ConfigLoad(config_module_redis, max_key_length, strict_parsing).

(** ** The memory of a command *)

Record long_string := LongString { chunks : chunk_sequence; current_chunk_index : Z; current_chunk_offset : Z }.

(** A key, a pattern and a short string are the bytes the pointer of their
    structure gives and a length. *)
Inductive cell (D : Type) :=
  | CellBool (b : bool)
  | CellPointer (p : Z)
  | CellCount (n : Z)
  | CellString (bytes : list Z)
  | CellInteger (n : Z)
  | CellDouble (d : D)
  | CellLong (s : long_string).
Arguments CellBool {D} _.
Arguments CellPointer {D} _.
Arguments CellCount {D} _.
Arguments CellString {D} _.
Arguments CellInteger {D} _.
Arguments CellDouble {D} _.
Arguments CellLong {D} _.

Record parser_context := ParserContext {
  positional_arguments_parsed_count : Z;
  require_stream : bool;
  member_context_addr : Z;
  expected_argument : Z;
  next_expected_argument : Z;
  block_argument_index : Z
}.

Definition no_parser_context : parser_context := ParserContext 0 false 0 0 0 0.

Definition with_require_stream (c : parser_context) b : parser_context :=
  ParserContext (positional_arguments_parsed_count c) b (member_context_addr c) (expected_argument c) (next_expected_argument c) (block_argument_index c).
Definition with_member (c : parser_context) p : parser_context :=
  ParserContext (positional_arguments_parsed_count c) (require_stream c) p (expected_argument c) (next_expected_argument c) (block_argument_index c).
Definition with_expected (c : parser_context) p : parser_context :=
  ParserContext (positional_arguments_parsed_count c) (require_stream c) (member_context_addr c) p (next_expected_argument c) (block_argument_index c).
Definition with_next (c : parser_context) p : parser_context :=
  ParserContext (positional_arguments_parsed_count c) (require_stream c) (member_context_addr c) (expected_argument c) p (block_argument_index c).
Definition with_block_index (c : parser_context) i : parser_context :=
  ParserContext (positional_arguments_parsed_count c) (require_stream c) (member_context_addr c) (expected_argument c) (next_expected_argument c) i.
Definition with_parsed_count (c : parser_context) n : parser_context :=
  ParserContext n (require_stream c) (member_context_addr c) (expected_argument c) (next_expected_argument c) (block_argument_index c).

(** The part of the context of a connection that the parser works on, with the
    memory and whether errno is ERANGE. *)
Record command_state (D : Type) := CommandState {
  cells : gmap Z (cell D);
  next_address : Z;
  context : Z;
  parser : parser_context;
  error_message : option (list Z);
  skip : bool;
  erange : bool
}.
Arguments CommandState {D} _ _ _ _ _ _ _.
Arguments cells {D} _.
Arguments next_address {D} _.
Arguments context {D} _.
Arguments parser {D} _.
Arguments error_message {D} _.
Arguments skip {D} _.
Arguments erange {D} _.

Section parser.
Context {D : Type}.
Implicit Types (s : command_state D).

Definition with_cells s h : command_state D :=
  CommandState h (next_address s) (context s) (parser s) (error_message s) (skip s) (erange s).
Definition with_parser s c : command_state D :=
  CommandState (cells s) (next_address s) (context s) c (error_message s) (skip s) (erange s).
Definition with_erange s e : command_state D :=
  CommandState (cells s) (next_address s) (context s) (parser s) (error_message s) (skip s) e.

Definition store s (p : Z) (c : cell D) : command_state D := with_cells s (<[p := c]> (cells s)).

Definition load_bool s (p : Z) : option bool :=
  match cells s !! p with None => Some false | Some (CellBool b) => Some b | _ => None end.
Definition load_count s (p : Z) : option Z :=
  match cells s !! p with None => Some 0 | Some (CellCount n) => Some n | _ => None end.
Definition load_pointer s (p : Z) : option Z :=
  match cells s !! p with None => Some 0 | Some (CellPointer q) => Some q | _ => None end.
Definition load_long s (p : Z) : option long_string :=
  match cells s !! p with None => Some (LongString StorageDb.no_chunks 0 0) | Some (CellLong l) => Some l | _ => None end.

(** A block of zeroes. *)
Definition xalloc_alloc_zero s (size : Z) : command_state D * Z :=
  (CommandState (cells s) (next_address s + Z.max size 1) (context s) (parser s) (error_message s) (skip s) (erange s),
   next_address s).

(** The cells of the block move, the rest of the new block is set to zero. *)
Definition in_block (list size : Z) (x : Z) : bool := (list <=? x) && (x <? list + size).
Definition xalloc_realloc s (list current_size new_size : Z) : command_state D * Z :=
  let '(s, new_list) := xalloc_alloc_zero s new_size in
  (with_cells s (kmap (fun x => x - list + new_list) (filter (fun c => in_block list current_size c.1 = true) (cells s)) ∪
                 filter (fun c => in_block list current_size c.1 = false) (cells s)), new_list).

Definition module_redis_connection_error_message_printf_noncritical s (message : list Z) : option (command_state D) :=
  _ ← check (bool_decide (error_message s = None));
  Some (CommandState (cells s) (next_address s) (context s) (parser s) (Some message) true (erange s)).

(** strtold: the value, the offset of its end and whether errno is ERANGE
    after it, from the memory and whether it is before. *)
Context (strtold : list Z -> bool -> option (D * Z * bool)).
Context (arguments : gmap Z argument) (entries : list token_entry) (info : command_info) (config : config_module_redis).

(** ** Finding the place of an argument *)

Definition HAS_TOKEN_PADDING : Z := 8.
Definition POINTER_SIZE : Z := 8.

Definition has_token (a : argument) : bool := match token a with Some _ => true | None => false end.

Definition module_redis_command_context_base_addr_skip_has_token (a : argument) (base_addr : Z) : Z :=
  if has_token a then base_addr + HAS_TOKEN_PADDING else base_addr.

Definition module_redis_command_context_has_token_set s (a : argument) (base_addr : Z) (b : bool) : option (command_state D) :=
  _ ← check (has_token a);
  Some (store s base_addr (CellBool b)).
Definition module_redis_command_context_has_token_get s (a : argument) (base_addr : Z) : option bool :=
  _ ← check (has_token a);
  load_bool s base_addr.

Definition module_redis_command_context_list_get_count s (a : argument) (base_addr : Z) : option Z :=
  _ ← check (has_multiple_occurrences a);
  load_count s (module_redis_command_context_base_addr_skip_has_token a base_addr + POINTER_SIZE).
Definition module_redis_command_context_list_set_count s (a : argument) (base_addr count : Z) : option (command_state D) :=
  _ ← check (has_multiple_occurrences a);
  Some (store s (module_redis_command_context_base_addr_skip_has_token a base_addr + POINTER_SIZE) (CellCount count)).
Definition module_redis_command_context_list_set_list s (a : argument) (base_addr list : Z) : option (command_state D) :=
  _ ← check (has_multiple_occurrences a);
  Some (store s (module_redis_command_context_base_addr_skip_has_token a base_addr) (CellPointer list)).
Definition module_redis_command_context_list_get_list s (a : argument) (base_addr : Z) : option Z :=
  _ ← check (has_multiple_occurrences a);
  load_pointer s (module_redis_command_context_base_addr_skip_has_token a base_addr).
Definition module_redis_command_context_list_get_entry s (a : argument) (base_addr index : Z) : option Z :=
  _ ← check (has_multiple_occurrences a);
  list ← module_redis_command_context_list_get_list s a base_addr;
  Some (list + index * argument_context_member_size a).

(** What the search gives back through its pointers; the argument to resume
    from is the one of the list. *)
Record list_stop := ListStop { stopped_at_list : bool; stopped_at_list_count : Z; stopped_at_list_argument : Z }.

Definition no_stop : list_stop := ListStop false 0 0.

(** The argument and its parents, and the one that ends the queue. *)
Fixpoint arguments_queue (slots : nat) (p stop_at_parent_argument : Z) : option (list Z * Z) :=
  match slots with
  | O => Some ([], p)
  | S slots =>
      if p =? stop_at_parent_argument then Some ([], p) else
      a ← arguments !! p;
      '(queue, last) ← arguments_queue slots (parent_argument a) stop_at_parent_argument;
      Some (queue ++ [p], last)
  end.

(** The queue from the outermost argument; [p] is the last one looked at. *)
Fixpoint queue_loop s (queue : list Z) (p base_addr : Z) (st : list_stop) : option (Z * Z * list_stop) :=
  match queue with
  | [] => Some (p, base_addr, st)
  | p :: queue =>
      a ← arguments !! p;
      let base_addr := base_addr + argument_context_member_offset a in
      let base_addr := if has_token a then base_addr + HAS_TOKEN_PADDING else base_addr in
      st ← (if has_multiple_occurrences a
            then count ← load_count s (base_addr + POINTER_SIZE); Some (ListStop true (u16 count) p)
            else Some st);
      if stopped_at_list st then Some (p, base_addr, st) else queue_loop s queue p base_addr st
  end.

Definition module_redis_command_get_base_context_from_argument s (p stop_at_parent_argument command_context : Z)
    (st : list_stop) : option (Z * list_stop) :=
  '(queue, last) ← arguments_queue 4 p stop_at_parent_argument;
  _ ← check (last =? stop_at_parent_argument);
  '(p, base_addr, st) ← queue_loop s queue last command_context st;
  a ← arguments !! p;
  Some (if has_token a then base_addr - HAS_TOKEN_PADDING else base_addr, st).

Definition module_redis_command_context_list_expand_and_get_new_entry s (p base_addr : Z) : option (command_state D * Z) :=
  a ← arguments !! p;
  let size := argument_context_member_size a in
  list_count ← module_redis_command_context_list_get_count s a base_addr;
  let list_count_new := list_count + 1 in
  '(s, list) ←
    (if list_count =? 0 then Some (xalloc_alloc_zero s (list_count_new * size))
     else
       list ← module_redis_command_context_list_get_list s a base_addr;
       Some (xalloc_realloc s list (list_count * size) (list_count_new * size)));
  s ← module_redis_command_context_list_set_list s a base_addr list;
  s ← module_redis_command_context_list_set_count s a base_addr list_count_new;
  Some (s, list + (list_count_new - 1) * size).

Definition module_redis_command_context_get_argument_member_context_addr s (p : Z) (is_in_block : bool)
    (block_argument_index command_context : Z) : option (command_state D * Z) :=
  '(addr, st) ← module_redis_command_get_base_context_from_argument s p 0 command_context no_stop;
  if stopped_at_list st then
    let q := stopped_at_list_argument st in
    '(s, addr) ←
      (if negb is_in_block || (block_argument_index =? 0)
       then module_redis_command_context_list_expand_and_get_new_entry s q addr
       else if 0 <? block_argument_index then
         a ← arguments !! q;
         entry ← module_redis_command_context_list_get_entry s a addr (u16 (stopped_at_list_count st - 1));
         Some (s, entry)
       else Some (s, addr));
    '(addr, st) ← module_redis_command_get_base_context_from_argument s p q addr
      (ListStop false (stopped_at_list_count st) q);
    _ ← check (negb (stopped_at_list st));
    Some (s, addr)
  else Some (s, addr).

(** ** The callbacks *)

Definition module_redis_command_is_key_too_long (key_length : Z) : bool := max_key_length config <? key_length.

Definition module_redis_command_is_key_pattern_allowed_length (a : argument) (argument_length : Z) : bool :=
  negb (bool_decide (arg_type a = ARGUMENT_TYPE_KEY \/ arg_type a = ARGUMENT_TYPE_PATTERN) &&
        module_redis_command_is_key_too_long argument_length).

Definition wrong_number_of_arguments : list Z :=
  bytes_of "ERR wrong number of arguments for '" ++ info_string info ++ bytes_of "' command".

Definition module_redis_command_process_begin s : option (command_state D) :=
  let s :=
    if 0 <? context_size info then
      let '(s, p) := xalloc_alloc_zero s (context_size info) in
      CommandState (cells s) (next_address s) p (parser s) (error_message s) (skip s) (erange s)
    else s in
  positional ← match info_arguments info with [] => Some false | p :: _ => a ← arguments !! p; Some (is_positional a) end;
  Some (with_parser s
    (if positional : bool then with_block_index (with_expected (parser s) (default 0 (zget (info_arguments info) 0))) 0
     else with_expected (parser s) 0)).

(** The argument of the block that the index gives, for a block. *)
Definition block_argument (p index : Z) : option (Z * bool) :=
  a ← arguments !! p;
  if decide (arg_type a = ARGUMENT_TYPE_BLOCK) then q ← zget (sub_arguments a) index; Some (q, true) else Some (p, false).

Definition length_exceeded (kind : list Z) : list Z :=
  bytes_of "ERR The " ++ kind ++ bytes_of " length has exceeded the allowed size of '" ++ dec (max_key_length config) ++ bytes_of "'".

(** [fill] is what the memory of a new chunk holds. *)
Definition module_redis_command_process_argument_begin (fill : Z) s (argument_length : Z) : option (command_state D) :=
  let c := parser s in
  if expected_argument c =? 0 then Some (with_parser s (with_require_stream c false)) else
  '(p, is_in_block) ← block_argument (expected_argument c) (block_argument_index c);
  a ← arguments !! p;
  if negb (module_redis_command_is_key_pattern_allowed_length a argument_length) then
    module_redis_connection_error_message_printf_noncritical s
      (length_exceeded (if decide (arg_type a = ARGUMENT_TYPE_KEY) then bytes_of "key" else bytes_of "pattern"))
  else if decide (arg_type a = ARGUMENT_TYPE_LONG_STRING) then
    '(s, addr) ← module_redis_command_context_get_argument_member_context_addr s p is_in_block (block_argument_index c) (context s);
    l ← load_long s addr;
    let s := store s addr (CellLong (LongString (StorageDbChunks.storage_db_chunk_sequence_allocate fill argument_length)
                                       (current_chunk_index l) (current_chunk_offset l))) in
    Some (with_parser s (with_require_stream (with_member c addr) true))
  else Some (with_parser s (with_require_stream c false)).

Definition module_redis_command_process_argument_stream_data s (chunk_data : list Z) : option (command_state D) :=
  let c := parser s in
  _ ← check (negb (expected_argument c =? 0));
  '(p, _) ← block_argument (expected_argument c) (block_argument_index c);
  a ← arguments !! p;
  _ ← check (bool_decide (arg_type a = ARGUMENT_TYPE_LONG_STRING));
  l ← load_long s (member_context_addr c);
  '(d, index, offset) ← StorageDbChunks.module_redis_command_process_argument_stream_data
    (chunks l, current_chunk_index l, current_chunk_offset l) chunk_data;
  Some (store s (member_context_addr c) (CellLong (LongString d index offset))).

Definition not_a_number (kind : list Z) (a : argument) : list Z :=
  bytes_of "ERR value for argument '" ++ arg_name a ++ bytes_of "' is not " ++ kind ++ bytes_of " or out of range".

(** The entry a token finds: the value of the table is its address. *)
Definition find_token (data : list Z) (length : Z) : option (option token_entry) :=
  match tokens_hashtable info with
  | None => Some None
  | Some ht =>
      z ← hashtable_spsc_op_get_ci ht data length;
      if z =? 0 then Some None else te ← zget entries (z - 1); Some (Some te)
  end.

Definition token_is_set s (p : Z) (st : list_stop) : option (bool * list_stop) :=
  '(base_addr, st) ← module_redis_command_get_base_context_from_argument s p 0 (context s) st;
  a ← arguments !! p;
  b ← module_redis_command_context_has_token_get s a base_addr;
  Some (b, st).

(** The first of the tokens that exclude the one of [te] that is set. *)
Fixpoint excluded_by s (tokens : list (list Z)) (st : list_stop) : option (option token_entry * list_stop) :=
  match tokens with
  | [] => Some (None, st)
  | t :: tokens =>
      e ← find_token t (zlen t);
      e ← e;
      '(b, st) ← token_is_set s (te_argument e) st;
      if b : bool then Some (Some e, st) else excluded_by s tokens st
  end.

(** The error of the strict parsing, if any. *)
Definition strict_error s (te : token_entry) : option (option (list Z)) :=
  '(e, st) ← excluded_by s (one_of_tokens te) no_stop;
  match e with
  | Some e =>
      Some (Some (bytes_of "ERR the command '" ++ info_string info ++ bytes_of "' doesn't support both the parameters '" ++
                  te_token e ++ bytes_of "' and '" ++ te_token te ++ bytes_of "' set at the same time"))
  | None =>
      '(b, _) ← token_is_set s (te_argument te) st;
      a ← arguments !! te_argument te;
      Some (if b && negb (has_multiple_token a)
            then Some (bytes_of "ERR the parameter '" ++ te_token te ++ bytes_of "' has already been specified for the command '" ++
                       info_string info ++ bytes_of "'")
            else None)
  end.

(** The name of the kind of an argument in the messages. *)
Definition string_kind (a : argument) : list Z :=
  if decide (arg_type a = ARGUMENT_TYPE_KEY) then bytes_of "key"
  else if decide (arg_type a = ARGUMENT_TYPE_PATTERN) then bytes_of "pattern" else bytes_of "short string".

(** The switch on the type: [p] is the argument guessed, [expected] the one
    expected, [chunk_data] the memory from the start of the argument on. *)
Definition store_argument s (p expected base_addr : Z) (chunk_data : list Z) (chunk_length : Z) : option (command_state D) :=
  a ← arguments !! p;
  match arg_type a with
  | ARGUMENT_TYPE_KEY | ARGUMENT_TYPE_PATTERN | ARGUMENT_TYPE_SHORT_STRING =>
      if negb (module_redis_command_is_key_pattern_allowed_length a chunk_length) then
        e ← arguments !! expected;
        module_redis_connection_error_message_printf_noncritical s (length_exceeded (string_kind e))
      else if chunk_length =? 0 then
        e ← arguments !! expected;
        module_redis_connection_error_message_printf_noncritical s
          (bytes_of "ERR the " ++ string_kind e ++ bytes_of " '" ++ arg_name a ++ bytes_of "' has length '0', not allowed")
      else
        _ ← check (chunk_length <=? zlen chunk_data);
        Some (store s base_addr (CellString (take (Z.to_nat chunk_length) chunk_data)))
  | ARGUMENT_TYPE_INTEGER | ARGUMENT_TYPE_UNIXTIME =>
      '(v, value_end, e) ← Config.strtol_errno chunk_data (erange s);
      let s := with_erange (store s base_addr (CellInteger v)) e in
      if e || negb (value_end =? chunk_length)
      then module_redis_connection_error_message_printf_noncritical s (not_a_number (bytes_of "an integer") a) else Some s
  | ARGUMENT_TYPE_DOUBLE =>
      '(v, value_end, e) ← strtold chunk_data (erange s);
      let s := with_erange (store s base_addr (CellDouble v)) e in
      if e || negb (value_end =? chunk_length)
      then module_redis_connection_error_message_printf_noncritical s (not_a_number (bytes_of "a double") a) else Some s
  | ARGUMENT_TYPE_BLOCK | ARGUMENT_TYPE_BOOL => Some s
  | ARGUMENT_TYPE_LONG_STRING | ARGUMENT_TYPE_ONEOF | ARGUMENT_TYPE_UNSUPPORTED => None
  end.

(** What is guessed before the tokens are looked at: the argument expected in
    the block, if any, the one guessed and whether the tokens are checked. *)
Definition guess_expected s : option (Z * bool * Z * bool) :=
  let c := parser s in
  if expected_argument c =? 0 then Some (0, false, 0, true) else
  '(p, is_in_block) ← block_argument (expected_argument c) (block_argument_index c);
  if is_in_block : bool then Some (p, true, p, false) else
  a ← arguments !! p;
  if negb (is_optional a) || has_token a then Some (p, false, p, false) else Some (p, false, 0, true).

Definition store_guessed s (guessed expected : Z) (is_in_block : bool) (block_index : Z) (chunk_data : list Z) (chunk_length : Z)
    : option (command_state D) :=
  '(s, addr) ← module_redis_command_context_get_argument_member_context_addr s guessed is_in_block block_index (context s);
  let s := with_parser s (with_member (parser s) addr) in
  a ← arguments !! guessed;
  store_argument s guessed expected (module_redis_command_context_base_addr_skip_has_token a addr) chunk_data chunk_length.

(** The argument of a token found. *)
Definition take_token s (te : token_entry) : option (command_state D) :=
  a ← arguments !! te_argument te;
  let c := with_expected (parser s) 0 in
  let s := with_parser s (if decide (arg_type a = ARGUMENT_TYPE_BOOL) then c else with_next c (te_argument te)) in
  '(base_addr, _) ← module_redis_command_get_base_context_from_argument s (te_argument te) 0 (context s) no_stop;
  module_redis_command_context_has_token_set s a base_addr true.

Definition module_redis_command_process_argument_full s (chunk_data : list Z) (chunk_length : Z) : option (command_state D) :=
  '(expected, is_in_block, guessed, check_tokens) ← guess_expected s;
  te ← (if check_tokens : bool then find_token chunk_data chunk_length else Some None);
  match te with
  | Some te =>
      error ← (if strict_parsing config then strict_error s te else Some None);
      match error with
      | Some message => module_redis_connection_error_message_printf_noncritical s message
      | None => take_token s te
      end
  | None =>
      let guessed := if expected =? 0 then guessed else expected in
      if guessed =? 0 then module_redis_connection_error_message_printf_noncritical s wrong_number_of_arguments else
      a ← arguments !! guessed;
      if check_tokens && has_token a then
        '(base_addr, _) ← module_redis_command_get_base_context_from_argument s guessed 0 (context s) no_stop;
        module_redis_command_context_has_token_set s a base_addr true
      else
        store_guessed s guessed expected is_in_block (if is_in_block then block_argument_index (parser s) else 0) chunk_data chunk_length
  end.

(** The positional argument after the ones parsed. *)
Definition next_positional (c : parser_context) : option parser_context :=
  let count := zlen (info_arguments info) in
  if positional_arguments_parsed_count c <? count then
    let c := with_parsed_count c (u16 (positional_arguments_parsed_count c + 1)) in
    if count <=? positional_arguments_parsed_count c then Some (with_expected c 0) else
    p ← zget (info_arguments info) (positional_arguments_parsed_count c);
    a ← arguments !! p;
    Some (with_expected c
      (if negb (is_positional a) || bool_decide (arg_type a = ARGUMENT_TYPE_ONEOF) then 0 else p))
  else Some (with_expected c 0).

(** The argument expected after the whole of [p]. *)
Definition argument_done (c : parser_context) (p : Z) : option parser_context :=
  a ← arguments !! p;
  if negb (is_positional a) then Some (with_expected c 0)
  else if negb (has_multiple_occurrences a) then next_positional c
  else Some (with_expected c p).

Definition module_redis_command_process_argument_end s : option (command_state D) :=
  let c := parser s in
  if negb (next_expected_argument c =? 0) then
    Some (with_parser s (with_block_index (with_expected (with_next c 0) (next_expected_argument c)) 0))
  else if expected_argument c =? 0 then Some s
  else
    a ← arguments !! expected_argument c;
    if decide (arg_type a = ARGUMENT_TYPE_BLOCK) then
      let c := with_block_index c (u16 (block_argument_index c + 1)) in
      if block_argument_index c <? zlen (sub_arguments a) then Some (with_parser s c)
      else with_parser s <$> argument_done (with_block_index c 0) (expected_argument c)
    else with_parser s <$> argument_done c (expected_argument c).

(** The error of a block that is not whole when the command ends. *)
Definition process_end_error s : option (option (list Z)) :=
  let c := parser s in
  if expected_argument c =? 0 then Some None else
  a ← arguments !! expected_argument c;
  if bool_decide (arg_type a = ARGUMENT_TYPE_BLOCK) && (0 <? block_argument_index c) then
    if is_positional a then Some (Some wrong_number_of_arguments)
    else
      t ← token a;
      Some (Some (bytes_of "ERR syntax error in '" ++ info_string info ++ bytes_of "' option '" ++ t ++ bytes_of "'"))
  else Some None.

End parser.

End RedisArguments.
