(* ===== verification/RedisArgumentsSpec.v ===== *)
(** * RedisArgumentsSpec: what the parser of the arguments stores

    The theorems on RedisArguments.v.  A command of positional arguments and
    options is read by a grammar ([reads]) that says which cell each argument
    fills; a command of a list, or of a list of blocks, fills the entries of the
    list.  The parser does what they say, however the data are split. *)

From Stdlib Require Import String.
From stdpp Require Import gmap.
From S2P Require Import Prelude Decimal HashtableSpsc RedisInfo StorageDb StorageDbChunks Config ConfigLoad RedisArguments.

Module RedisArgumentsSpec.
Import HashtableSpsc RedisInfo RedisArguments.
Import ConfigLoad(config_module_redis, ModuleRedis, max_key_length, strict_parsing).

(** ** One argument

    What a connection does with an argument that arrives in [packets], with
    [after] in the buffer after it: the data are streamed packet by packet or
    kept until they are whole; the data and the end are skipped once there is an
    error. *)
Section argument.
Context {D : Type} (strtold : list Z -> bool -> option (D * Z * bool)).
Context (arguments : gmap Z argument) (entries : list token_entry) (info : command_info) (config : config_module_redis) (fill : Z).
Implicit Types (s : command_state D) (h : gmap Z (cell D)).

Definition given : Type := list (list Z) * list Z.
Definition text (g : given) : list Z := concat g.1.

Definition process_argument s (g : given) : option (command_state D) :=
  if skip s then Some s else
  s ← module_redis_command_process_argument_begin arguments config fill s (zlen (text g));
  if skip s then Some s else
  s ← (if require_stream (parser s)
       then foldl (fun st packet => s ← st; module_redis_command_process_argument_stream_data arguments s packet) (Some s) g.1
       else module_redis_command_process_argument_full strtold arguments entries info config s (text g ++ g.2) (zlen (text g)));
  module_redis_command_process_argument_end arguments info s.

Definition process_arguments s (gs : list given) : option (command_state D) :=
  s ← module_redis_command_process_begin arguments info s;
  foldl (fun st g => s ← st; process_argument s g) (Some s) gs.

(** ** The grammar of a command without lists and blocks *)

(** The argument and its parents below [stop], the outermost first. *)
Fixpoint path (stop : Z) (depth : nat) (p : Z) : option (list argument) :=
  if p =? stop then Some [] else
  match depth with
  | O => None
  | S depth => a ← arguments !! p; l ← path stop depth (parent_argument a); Some (l ++ [a])
  end.

Definition step_size (a : argument) : Z :=
  argument_context_member_offset a + if has_token a then HAS_TOKEN_PADDING else 0.

(** The place of the value of an argument in the context. *)
Definition place (l : list argument) : Z := foldr (fun a n => step_size a + n) 0 l.

Definition no_list (a : argument) : Prop := has_multiple_occurrences a = false.

(** The argument [a] at [p], in no list, whose value is at [place]. *)
Definition sits (p : Z) (a : argument) (at_ : Z) : Prop :=
  p <> 0 /\ arguments !! p = Some a /\ exists l, path 0 4 p = Some l /\ Forall no_list l /\ place l = at_.

(** What is stored for the bytes of an argument. *)
Definition stored_as (a : argument) (g : given) (c : cell D) : Prop :=
  match arg_type a with
  | ARGUMENT_TYPE_KEY | ARGUMENT_TYPE_PATTERN => c = CellString (text g) /\ 0 < zlen (text g) <= max_key_length config
  | ARGUMENT_TYPE_SHORT_STRING => c = CellString (text g) /\ 0 < zlen (text g)
  | ARGUMENT_TYPE_INTEGER | ARGUMENT_TYPE_UNIXTIME =>
      exists v, c = CellInteger v /\ Config.strtol_errno (text g ++ g.2) false = Some (v, zlen (text g), false)
  | ARGUMENT_TYPE_DOUBLE => exists v, c = CellDouble v /\ strtold (text g ++ g.2) false = Some (v, zlen (text g), false)
  | ARGUMENT_TYPE_LONG_STRING =>
      exists d index offset, c = CellLong (LongString d index offset) /\ StorageDbChunks.stores d (text g) /\
        StorageDbChunks.receive_packets (StorageDbChunks.storage_db_chunk_sequence_allocate fill (zlen (text g)), 0, 0) g.1 =
          Some (d, index, offset)
  | _ => False
  end.

Definition find (g : given) : option (option token_entry) := find_token entries info (text g ++ g.2) (zlen (text g)).

(** The positional argument expected after [n] of them, 0 if there is none. *)
Definition expected_at (n : Z) : Z :=
  match p ← zget (info_arguments info) n; a ← arguments !! p; Some (p, a) with
  | Some (p, a) => if is_positional a && negb (bool_decide (arg_type a = ARGUMENT_TYPE_ONEOF)) then p else 0
  | None => 0
  end.

Definition flag_unset (base : Z) h (p : Z) : Prop :=
  exists a at_, sits p a at_ /\ has_token a = true /\
    (h !! (base + at_ - HAS_TOKEN_PADDING) = None \/ h !! (base + at_ - HAS_TOKEN_PADDING) = Some (CellBool false)).

(** With the strict parsing a token is taken when the ones that exclude it have
    not been, and only once. *)
Definition admitted (base : Z) h (te : token_entry) : Prop :=
  strict_parsing config = true ->
  Forall (fun t => exists e, find_token entries info t (zlen t) = Some (Some e) /\ flag_unset base h (te_argument e)) (one_of_tokens te) /\
  flag_unset base h (te_argument te).

Inductive reads_options (base : Z) : gmap Z (cell D) -> list given -> gmap Z (cell D) -> Prop :=
  | reads_nothing h : reads_options base h [] h
  | reads_flag h h' g gs te a at_ :
      find g = Some (Some te) -> sits (te_argument te) a at_ -> has_token a = true -> arg_type a = ARGUMENT_TYPE_BOOL ->
      admitted base h te ->
      reads_options base (<[base + at_ - HAS_TOKEN_PADDING := CellBool true]> h) gs h' ->
      reads_options base h (g :: gs) h'
  | reads_value h h' g g' gs te a at_ c :
      find g = Some (Some te) -> sits (te_argument te) a at_ -> has_token a = true -> is_positional a = false ->
      arg_type a <> ARGUMENT_TYPE_LONG_STRING -> admitted base h te -> stored_as a g' c ->
      reads_options base (<[base + at_ := c]> (<[base + at_ - HAS_TOKEN_PADDING := CellBool true]> h)) gs h' ->
      reads_options base h (g :: g' :: gs) h'.

(** The options may start where no positional argument is expected, or an
    optional one that is not streamed. *)
Definition options_may_start (e : Z) (gs : list given) : Prop :=
  gs = [] \/ e = 0 \/
  exists b g gs', gs = g :: gs' /\ arguments !! e = Some b /\ is_optional b = true /\ has_token b = false /\
    arg_type b <> ARGUMENT_TYPE_BLOCK /\ arg_type b <> ARGUMENT_TYPE_LONG_STRING /\
    module_redis_command_is_key_pattern_allowed_length config b (zlen (text g)) = true.

(** The positional arguments, from the one of index [n] on, then the options. *)
Inductive reads (base : Z) : Z -> gmap Z (cell D) -> list given -> gmap Z (cell D) -> Prop :=
  | reads_positional n h h' g gs a at_ c :
      sits (expected_at n) a at_ -> has_token a = false -> (is_optional a = true -> find g = Some None) ->
      stored_as a g c -> h !! (base + at_) = None ->
      reads base (n + 1) (<[base + at_ := c]> h) gs h' ->
      reads base n h (g :: gs) h'
  | reads_all_options n h h' gs :
      options_may_start (expected_at n) gs -> reads_options base h gs h' -> reads base n h gs h'.

(** ** The proofs *)

(** Between two arguments, without an error: the blocks from [na] on are free. *)
Record ready s (base na n : Z) h (e i : Z) : Prop := {
  rd_context : context s = base;
  rd_cells : cells s = h;
  rd_address : next_address s = na;
  rd_error : error_message s = None;
  rd_skip : skip s = false;
  rd_erange : erange s = false;
  rd_expected : expected_argument (parser s) = e;
  rd_next : next_expected_argument (parser s) = 0;
  rd_count : positional_arguments_parsed_count (parser s) = n;
  rd_index : block_argument_index (parser s) = i
}.

Lemma path_queue stop depth : forall p l, path stop depth p = Some l -> exists ps, arguments_queue arguments depth p stop = Some (ps, stop) /\
  Forall2 (fun q a => arguments !! q = Some a) ps l /\ (p <> stop -> exists a ps', arguments !! p = Some a /\ ps = ps' ++ [p]).
Proof.
  induction depth as [|depth IH]; intros p l Hl; cbn [path arguments_queue] in *.
  - destruct (Z.eqb_spec p stop) as [->|]; [|done]. injection Hl as <-. by exists [].
  - destruct (Z.eqb_spec p stop) as [->|Hp]; [injection Hl as <-; by exists []|].
    apply bind_Some in Hl as (a & Ha & Hl). apply bind_Some in Hl as (l' & Hl' & [= <-]).
    destruct (IH _ _ Hl') as (ps & Hq & Hf & _). rewrite Ha. cbn [mbind option_bind]. rewrite Hq. cbn [mbind option_bind].
    exists (ps ++ [p]). split; [done|]. split; [apply Forall2_app; [done|by constructor]|]. intros _. by exists a, ps.
Qed.

Lemma place_app l l' : place (l ++ l') = place l + place l'.
Proof. induction l as [|a l IH]; [done|]. change (place (a :: l ++ l') = step_size a + place l + place l'). unfold place in *. cbn [foldr]. lia. Qed.

(** The search through arguments that are not lists; [more] is left. *)
Lemma queue_loop_flat s ps l : forall more q base_addr st,
  Forall2 (fun q a => arguments !! q = Some a) ps l -> Forall no_list l -> stopped_at_list st = false ->
  queue_loop arguments s (ps ++ more) q base_addr st = queue_loop arguments s more (default q (last ps)) (base_addr + place l) st.
Proof.
  intros more q base_addr st Hf. revert q base_addr. induction Hf as [|p a ps l Ha _ IH]; intros q base_addr Hn Hst.
  - cbn. by rewrite Z.add_0_r.
  - apply Forall_cons in Hn as [Hna Hn]. cbn [queue_loop app]. rewrite Ha. cbn [mbind option_bind].
    replace (has_multiple_occurrences a) with false by done. cbn [mbind option_bind]. rewrite Hst.
    rewrite (IH _ _ Hn Hst). f_equal; [by destruct ps using rev_ind; cbn; rewrite ?last_snoc, ?last_cons, ?last_snoc|].
    change (place (a :: l)) with (step_size a + place l). unfold step_size. destruct (has_token a); lia.
Qed.

Lemma base_flat s p stop l a ctx st :
  path stop 4 p = Some l -> Forall no_list l -> p <> stop -> arguments !! p = Some a -> stopped_at_list st = false ->
  module_redis_command_get_base_context_from_argument arguments s p stop ctx st =
  Some (ctx + place l - (if has_token a then HAS_TOKEN_PADDING else 0), st).
Proof.
  intros Hl Hn Hp Ha Hst. destruct (path_queue _ _ _ _ Hl) as (ps & Hq & Hf & Hlast).
  destruct (Hlast Hp) as (a' & ps' & Ha' & ->). unfold module_redis_command_get_base_context_from_argument.
  rewrite Hq. cbn [mbind option_bind]. rewrite Z.eqb_refl. cbn [check mbind option_bind].
  rewrite <- (app_nil_r (ps' ++ [p])), (queue_loop_flat s _ l) by done. cbn [queue_loop mbind option_bind].
  rewrite last_snoc. change (default stop (Some p)) with p. rewrite Ha. cbn [mbind option_bind]. destruct (has_token a); do 2 f_equal; lia.
Qed.

Lemma base_of s p a at_ ctx :
  sits p a at_ ->
  module_redis_command_get_base_context_from_argument arguments s p 0 ctx no_stop =
  Some (ctx + at_ - (if has_token a then HAS_TOKEN_PADDING else 0), no_stop).
Proof. intros (Hp & Ha & l & Hl & Hn & <-). by apply base_flat. Qed.

Lemma member_of s p a at_ b i ctx :
  sits p a at_ ->
  module_redis_command_context_get_argument_member_context_addr arguments s p b i ctx =
  Some (s, ctx + at_ - (if has_token a then HAS_TOKEN_PADDING else 0)).
Proof.
  intros Hs. unfold module_redis_command_context_get_argument_member_context_addr. rewrite (base_of _ _ _ _ _ Hs). done.
Qed.

Lemma with_cells_id s : with_cells s (cells s) = s.
Proof. by destruct s. Qed.
Lemma with_erange_id s : erange s = false -> with_erange s false = s.
Proof. destruct s. by intros [= ->]. Qed.

Lemma path_last p a l : p <> 0 -> arguments !! p = Some a -> path 0 4 p = Some l -> Forall no_list l -> has_multiple_occurrences a = false.
Proof.
  intros Hp Ha Hl Hn. cbn [path] in Hl. destruct (Z.eqb_spec p 0); [done|]. rewrite Ha in Hl. cbn [mbind option_bind] in Hl.
  apply bind_Some in Hl as (l' & _ & [= <-]). apply Forall_app in Hn as [_ Hn]. by apply Forall_cons in Hn as [Hn _].
Qed.

Lemma sits_no_list p a at_ : sits p a at_ -> has_multiple_occurrences a = false.
Proof. intros (Hp & Ha & l & Hl & Hn & _). by eapply path_last. Qed.

(** The types whose values are kept until they are whole. *)
Definition whole (a : argument) : Prop := arg_type a <> ARGUMENT_TYPE_LONG_STRING.

Lemma allowed_length a g c : stored_as a g c -> module_redis_command_is_key_pattern_allowed_length config a (zlen (text g)) = true.
Proof.
  unfold stored_as, module_redis_command_is_key_pattern_allowed_length, module_redis_command_is_key_too_long.
  intros Hs. destruct (Z.ltb_spec (max_key_length config) (zlen (text g))); [|by rewrite andb_false_r].
  rewrite bool_decide_false; [done|]. destruct (arg_type a); intros [|]; try done; lia.
Qed.

Lemma store_whole s p expected addr a g c :
  arguments !! p = Some a -> stored_as a g c -> whole a -> erange s = false ->
  store_argument strtold arguments config s p expected addr (text g ++ g.2) (zlen (text g)) = Some (store s addr c).
Proof.
  intros Ha Hs Hw He. unfold store_argument. rewrite Ha. cbn [mbind option_bind].
  pose proof (allowed_length a g c Hs) as Hal. unfold stored_as, whole in *. rewrite He.
  assert (with_erange (store s addr c) false = store s addr c) as Hid by by apply with_erange_id.
  assert (chunk_fits : check (zlen (text g) <=? zlen (text g ++ g.2)) = Some ()).
  { rewrite zlen_app. pose proof (zlen_nonneg g.2). by zcase; [|lia]. }
  destruct (arg_type a); try done.
  1, 2, 6: rewrite Hal; cbn [negb]; (zcase; [destruct Hs as [_ Hs]; lia|]); rewrite chunk_fits; cbn [mbind option_bind];
    destruct Hs as [-> _]; do 3 f_equal; unfold zlen; rewrite Nat2Z.id; apply take_app_length.
  1, 3: destruct Hs as (v & -> & ->); cbn [mbind option_bind]; rewrite Z.eqb_refl; cbn [negb orb]; by rewrite Hid.
  destruct Hs as (v & -> & ->). cbn [mbind option_bind]. rewrite Z.eqb_refl. cbn [negb orb]. by rewrite Hid.
Qed.

(** The table of the descriptions knows its own arguments. *)
Definition described : Prop :=
  arguments !! 0 = None /\
  (forall p a, zget (info_arguments info) 0 = Some p -> arguments !! p = Some a -> arg_type a <> ARGUMENT_TYPE_ONEOF) /\
  Forall (fun p => is_Some (arguments !! p)) (info_arguments info) /\ zlen (info_arguments info) < 2 ^ 16.

Lemma expected_at_range n a : expected_at n <> 0 -> arguments !! expected_at n = Some a ->
  0 <= n < zlen (info_arguments info) /\ zget (info_arguments info) n = Some (expected_at n) /\ is_positional a = true /\ arg_type a <> ARGUMENT_TYPE_ONEOF.
Proof.
  intros Hp Ha. unfold expected_at in *. destruct (zget _ n) as [q|] eqn:Hq; [|done]. cbn [mbind option_bind] in *.
  destruct (arguments !! q) as [b|] eqn:Hb; [|done]. cbn [mbind option_bind] in *.
  destruct (is_positional b && _) eqn:Hpos; [|done]. rewrite Hb in Ha. injection Ha as <-.
  apply andb_true_iff in Hpos as [Hpos Hof]. apply negb_true_iff, bool_decide_eq_false in Hof.
  pose proof (zget_Some_range _ _ _ Hq). done.
Qed.

Lemma next_positional_spec c n :
  described -> 0 <= n < zlen (info_arguments info) -> positional_arguments_parsed_count c = n ->
  next_positional arguments info c = Some (with_expected (with_parsed_count c (n + 1)) (expected_at (n + 1))).
Proof.
  intros (H0 & _ & Hf & Hlen) Hn Hc. unfold next_positional. rewrite Hc. zcase; [|lia]. rewrite wrap_small by mach_lia.
  cbn [positional_arguments_parsed_count with_parsed_count]. unfold expected_at. zcase.
  - rewrite (proj2 (zget_None _ _)) by lia. done.
  - destruct (zget_in_range (info_arguments info) (n + 1) ltac:(lia)) as [q Hq]. rewrite Hq. cbn [mbind option_bind].
    assert (is_Some (arguments !! q)) as [b Hb].
    { rewrite Forall_forall in Hf. apply Hf. unfold zget in Hq. destruct (_ <? _); [done|]. by eapply list_elem_of_lookup_2. }
    rewrite Hb. cbn [mbind option_bind]. do 2 f_equal. by destruct (is_positional b), (bool_decide _).
Qed.

Lemma not_block a g c : stored_as a g c -> arg_type a <> ARGUMENT_TYPE_BLOCK.
Proof. unfold stored_as. intros Hs Ht. by rewrite Ht in Hs. Qed.

Lemma block_argument_same p a i : arguments !! p = Some a -> arg_type a <> ARGUMENT_TYPE_BLOCK -> block_argument arguments p i = Some (p, false).
Proof. intros Ha Hb. unfold block_argument. rewrite Ha. cbn [mbind option_bind]. by rewrite decide_False. Qed.

Lemma begin_whole s g a c :
  arguments !! expected_argument (parser s) = Some a -> expected_argument (parser s) <> 0 -> stored_as a g c -> whole a ->
  module_redis_command_process_argument_begin arguments config fill s (zlen (text g)) =
    Some (with_parser s (with_require_stream (parser s) false)).
Proof.
  intros Ha Hp Hs Hw. unfold module_redis_command_process_argument_begin. zcase; [done|].
  rewrite (block_argument_same _ a) by (done || by eapply not_block). cbn [mbind option_bind]. rewrite Ha. cbn [mbind option_bind].
  rewrite (allowed_length _ _ _ Hs). cbn [negb]. by rewrite decide_False.
Qed.

Lemma argument_done_positional c n p a :
  described -> arguments !! p = Some a -> is_positional a = true -> 0 <= n < zlen (info_arguments info) -> positional_arguments_parsed_count c = n ->
  argument_done arguments info c p = Some
    (if has_multiple_occurrences a then with_expected c p else with_expected (with_parsed_count c (n + 1)) (expected_at (n + 1))).
Proof.
  intros Hd Ha Hpos Hn Hc. unfold argument_done. rewrite Ha. cbn [mbind option_bind]. rewrite Hpos. cbn [negb].
  destruct (has_multiple_occurrences a); [done|]. by apply next_positional_spec.
Qed.

(** The end of a positional argument that is not a block: nothing is to come
    after a token. *)
Lemma end_positional s base na n h a :
  described -> expected_at n <> 0 -> arguments !! expected_at n = Some a -> arg_type a <> ARGUMENT_TYPE_BLOCK ->
  ready s base na n h (expected_at n) 0 ->
  exists s', module_redis_command_process_argument_end arguments info s = Some s' /\
    if has_multiple_occurrences a then ready s' base na n h (expected_at n) 0 else ready s' base na (n + 1) h (expected_at (n + 1)) 0.
Proof.
  intros Hd Hp Ha Hb [Hctx Hc Hna He Hsk Her Hex Hnx Hcnt Hi]. unfold module_redis_command_process_argument_end. rewrite Hnx, Hex. cbn [Z.eqb negb].
  destruct (Z.eqb_spec (expected_at n) 0) as [H0|_]; [done|]. rewrite Ha. cbn [mbind option_bind]. rewrite decide_False by done.
  destruct (expected_at_range n a) as (Hn & _ & Hpos & _); [done..|].
  rewrite (argument_done_positional _ n (expected_at n) a) by done. eexists. split; [done|]. by destruct (has_multiple_occurrences a).
Qed.

Lemma stream_spec s e i p b q addr packets : forall d di o d' i' o',
  expected_argument (parser s) = e -> block_argument_index (parser s) = i -> e <> 0 ->
  block_argument arguments e i = Some (p, b) -> arguments !! p = Some q -> arg_type q = ARGUMENT_TYPE_LONG_STRING ->
  member_context_addr (parser s) = addr -> cells s !! addr = Some (CellLong (LongString d di o)) ->
  StorageDbChunks.receive_packets (d, di, o) packets = Some (d', i', o') ->
  foldl (fun st packet => s ← st; module_redis_command_process_argument_stream_data arguments s packet) (Some s) packets =
    Some (store s addr (CellLong (LongString d' i' o'))).
Proof.
  revert s. induction packets as [|bs packets IH]; intros s d di o d' i' o' Hex Hi Hp Hba Ha Hl Hm Hc Hr.
  - injection Hr as <- <- <-. cbn. unfold store. by rewrite insert_id, with_cells_id.
  - unfold StorageDbChunks.receive_packets in Hr. cbn [foldl mbind option_bind] in Hr. cbn [foldl].
    destruct (StorageDbChunks.module_redis_command_process_argument_stream_data (d, di, o) bs) as [[[d1 i1] o1]|] eqn:Hb.
    2:{ exfalso. clear -Hr. induction packets as [|bs packets IH]; [done|]. by apply IH. }
    assert (module_redis_command_process_argument_stream_data arguments s bs = Some (store s addr (CellLong (LongString d1 i1 o1)))) as Hstep.
    { unfold module_redis_command_process_argument_stream_data. rewrite Hex. destruct (Z.eqb_spec e 0); [done|]. cbn [negb check mbind option_bind].
      rewrite Hi, Hba. cbn [mbind option_bind]. rewrite Ha. cbn [mbind option_bind].
      rewrite bool_decide_true by done. cbn [check mbind option_bind]. unfold load_long. rewrite Hm, Hc. cbn [mbind option_bind chunks current_chunk_index current_chunk_offset].
      by rewrite Hb. }
    cbn [mbind option_bind]. rewrite Hstep. rewrite (IH _ d1 i1 o1 d' i' o'); try done.
    + unfold store, with_cells. cbn. by rewrite insert_insert_eq.
    + cbn. by rewrite lookup_insert_eq.
Qed.

(** The member of an argument is at [addr], in a memory where the list of the
    argument has grown, if it is in one. *)
Definition reaches h (na : Z) (q : Z) (inb : bool) (i base addr : Z) h1 (na1 : Z) : Prop :=
  forall s, cells s = h -> next_address s = na ->
    module_redis_command_context_get_argument_member_context_addr arguments s q inb i base =
      Some (CommandState h1 na1 (context s) (parser s) (error_message s) (skip s) (erange s), addr).

Lemma reaches_flat h na q a at_ inb i base :
  sits q a at_ -> has_token a = false -> reaches h na q inb i base (base + at_) h na.
Proof. intros Hs Ht s <- <-. rewrite (member_of _ _ _ _ _ _ _ Hs), Ht, Z.sub_0_r. by destruct s. Qed.

Lemma reaches_index h na q i j base addr h1 na1 : reaches h na q false i base addr h1 na1 -> reaches h na q false j base addr h1 na1.
Proof. intros Hr s Hc Hn. rewrite <- (Hr s Hc Hn). reflexivity. Qed.

(** An argument without a token is stored at its place, whether it is streamed
    or not, in a block or not. *)
Lemma value_stored s base na n h e i g q inb b addr h1 na1 c :
  ready s base na n h e i -> e <> 0 -> block_argument arguments e i = Some (q, inb) -> q <> 0 -> arguments !! q = Some b -> has_token b = false ->
  (inb = false -> is_optional b = true -> find g = Some None) -> stored_as b g c ->
  reaches h na q inb i base addr h1 na1 -> h1 !! addr = None ->
  exists s', process_argument s g = module_redis_command_process_argument_end arguments info s' /\ ready s' base na1 n (<[addr := c]> h1) e i.
Proof.
  intros [Hctx Hc Hna He Hsk Her Hex Hnx Hcnt Hi] Hp Hba Hq Hb Ht Hopt Hst Hrc Hfree.
  unfold process_argument. rewrite Hsk. unfold module_redis_command_process_argument_begin. rewrite Hex, Hi.
  destruct (Z.eqb_spec e 0); [done|]. rewrite Hba. cbn [mbind option_bind]. rewrite Hb. cbn [mbind option_bind].
  rewrite (allowed_length _ _ _ Hst). cbn [negb]. destruct (decide (arg_type b = ARGUMENT_TYPE_LONG_STRING)) as [Hl|Hw].
  - rewrite Hctx, (Hrc s Hc Hna). cbn [mbind option_bind]. unfold load_long at 1. cbn [cells]. rewrite Hfree.
    cbn [mbind option_bind current_chunk_index current_chunk_offset skip with_parser store with_cells].
    rewrite Hsk. cbn [require_stream parser with_parser with_require_stream].
    unfold stored_as in Hst. rewrite Hl in Hst. destruct Hst as (d & di & o & -> & _ & Hrp).
    rewrite (stream_spec _ e i q inb b addr g.1 (StorageDbChunks.storage_db_chunk_sequence_allocate fill (zlen (text g))) 0 0 d di o); try done.
    2:{ cbn. by rewrite lookup_insert_eq. }
    cbn [mbind option_bind skip store with_cells with_parser]. eexists. split; [done|].
    split; try done. cbn. by rewrite insert_insert_eq.
  - cbn [mbind option_bind skip with_parser]. rewrite Hsk. set (s1 := with_parser s _). change (require_stream (parser s1)) with false. cbv iota.
    assert (module_redis_command_process_argument_full strtold arguments entries info config s1 (text g ++ g.2) (zlen (text g)) =
            store_guessed strtold arguments config s1 q q inb (if inb then i else 0) (text g ++ g.2) (zlen (text g))) as ->.
    { unfold module_redis_command_process_argument_full, guess_expected. change (expected_argument (parser s1)) with (expected_argument (parser s)).
      change (block_argument_index (parser s1)) with (block_argument_index (parser s)). rewrite Hex, Hi.
      destruct (Z.eqb_spec e 0); [done|]. rewrite Hba. cbn [mbind option_bind]. destruct inb.
      { cbn [mbind option_bind]. destruct (Z.eqb_spec q 0); [done|]. destruct (Z.eqb_spec q 0); [done|]. rewrite Hb. cbn [mbind option_bind andb]. reflexivity. }
      rewrite Hb. cbn [mbind option_bind]. rewrite Ht, orb_false_r. destruct (is_optional b) eqn:Ho; cbn [negb mbind option_bind].
      - unfold find in Hopt. rewrite (Hopt eq_refl eq_refl). cbn [mbind option_bind]. destruct (Z.eqb_spec q 0); [done|].
        destruct (Z.eqb_spec q 0); [done|]. rewrite Hb. cbn [mbind option_bind]. by rewrite Ht.
      - destruct (Z.eqb_spec q 0); [done|]. destruct (Z.eqb_spec q 0); [done|]. rewrite Hb. done. }
    unfold store_guessed. change (context s1) with (context s). rewrite Hctx.
    assert (reaches h na q inb (if inb then i else 0) base addr h1 na1) as Hrc' by (destruct inb; [done|by eapply reaches_index]).
    rewrite (Hrc' s1 Hc Hna). cbn [mbind option_bind]. rewrite Hb. cbn [mbind option_bind].
    unfold module_redis_command_context_base_addr_skip_has_token. rewrite Ht.
    rewrite (store_whole _ q q addr b g c) by done. cbn [mbind option_bind].
    eexists. split; [reflexivity|]. by split.
Qed.

Lemma positional_step s base na n h g a at_ c :
  described -> sits (expected_at n) a at_ -> has_token a = false -> (is_optional a = true -> find g = Some None) ->
  stored_as a g c -> h !! (base + at_) = None -> ready s base na n h (expected_at n) 0 ->
  exists s', process_argument s g = Some s' /\ ready s' base na (n + 1) (<[base + at_ := c]> h) (expected_at (n + 1)) 0.
Proof.
  intros Hd Hs Ht Hopt Hst Hfree Hr. pose proof Hs as (Hp & Ha & _). pose proof (not_block _ _ _ Hst) as Hnb.
  destruct (value_stored s base na n h (expected_at n) 0 g (expected_at n) false a (base + at_) h na c) as (s1 & -> & Hr1); try done.
  { by apply (block_argument_same _ a). }
  { by apply (reaches_flat _ _ _ a). }
  destruct (end_positional s1 base na n _ a Hd Hp Ha Hnb Hr1) as (s' & -> & Hr'). rewrite (sits_no_list _ _ _ Hs) in Hr'. by exists s'.
Qed.

Lemma flag_unset_spec s p h base :
  flag_unset base h p -> context s = base -> cells s = h -> token_is_set arguments s p no_stop = Some (false, no_stop).
Proof.
  intros (a & at_ & Hs & Ht & Hf) Hctx Hc. unfold token_is_set. rewrite Hctx, (base_of _ _ _ _ _ Hs), Ht. cbn [mbind option_bind].
  rewrite (proj1 (proj2 Hs)). cbn [mbind option_bind]. unfold module_redis_command_context_has_token_get. rewrite Ht. cbn [check mbind option_bind].
  unfold load_bool. rewrite Hc. by destruct Hf as [-> | ->].
Qed.

Lemma admitted_spec s base h te :
  admitted base h te -> strict_parsing config = true -> context s = base -> cells s = h ->
  strict_error arguments entries info s te = Some None.
Proof.
  intros Had Hst Hctx Hc. destruct (Had Hst) as [Hex Hown]. unfold strict_error.
  assert (excluded_by arguments entries info s (one_of_tokens te) no_stop = Some (None, no_stop)) as ->.
  { clear Had Hown. induction Hex as [|t ts (e & Hf & Hu) _ IH]; [done|]. cbn [excluded_by]. rewrite Hf. cbn [mbind option_bind].
    by rewrite (flag_unset_spec s _ h base). }
  cbn [mbind option_bind]. rewrite (flag_unset_spec s _ h base) by done. cbn [mbind option_bind].
  destruct Hown as (a & at_ & (_ & -> & _) & _). done.
Qed.

Lemma begin_option s base na n h e g gs :
  described -> ready s base na n h e 0 -> options_may_start e (g :: gs) ->
  module_redis_command_process_argument_begin arguments config fill s (zlen (text g)) =
    Some (with_parser s (with_require_stream (parser s) false)) /\
  guess_expected arguments (with_parser s (with_require_stream (parser s) false)) = Some (e, false, 0, true).
Proof.
  intros Hd [Hctx Hc Hna He Hsk Her Hex Hnx Hcnt Hi] [Hm|[->|(b & g' & gs' & [= <- <-] & Hb & Ho & Ht & Hbl & Hw & Hal)]]; [done| |].
  - unfold module_redis_command_process_argument_begin, guess_expected. cbn. by rewrite Hex.
  - assert (e <> 0) as Hne by (intros ->; by rewrite (proj1 Hd) in Hb).
    unfold module_redis_command_process_argument_begin, guess_expected. cbn [parser with_parser with_require_stream expected_argument block_argument_index].
    rewrite Hex. destruct (Z.eqb_spec e 0); [done|]. rewrite (block_argument_same _ b) by done. cbn [mbind option_bind].
    rewrite Hb. cbn [mbind option_bind]. rewrite Hal, Ho, Ht. cbn [negb orb]. by rewrite decide_False.
Qed.

Lemma flag_step s base na n h e g gs te a at_ :
  described -> ready s base na n h e 0 -> options_may_start e (g :: gs) -> find g = Some (Some te) ->
  sits (te_argument te) a at_ -> has_token a = true -> admitted base h te ->
  exists s', process_argument s g = Some s' /\
    ready s' base na n (<[base + at_ - HAS_TOKEN_PADDING := CellBool true]> h)
      (if decide (arg_type a = ARGUMENT_TYPE_BOOL) then 0 else te_argument te) 0.
Proof.
  intros Hd Hr Hm Hf Hs Ht Had. pose proof Hr as [Hctx Hc Hna He Hsk Her Hex Hnx Hcnt Hi]. pose proof Hs as (Hp & Ha & _).
  destruct (begin_option s base na n h e g gs Hd Hr Hm) as [Hb Hg]. unfold process_argument. rewrite Hsk, Hb. cbn [mbind option_bind skip with_parser]. rewrite Hsk.
  set (s1 := with_parser s _) in *. change (require_stream (parser s1)) with false. cbv iota.
  assert (module_redis_command_process_argument_full strtold arguments entries info config s1 (text g ++ g.2) (zlen (text g)) = take_token arguments s1 te) as ->.
  { unfold module_redis_command_process_argument_full. rewrite Hg. cbn [mbind option_bind]. unfold find in Hf. rewrite Hf. cbn [mbind option_bind].
    destruct (strict_parsing config) eqn:Hst; [|done]. by rewrite (admitted_spec s1 base h te). }
  unfold take_token. rewrite Ha. cbn [mbind option_bind]. set (s2 := with_parser s1 _). change (context s2) with (context s).
  rewrite Hctx, (base_of _ _ _ _ _ Hs), Ht. cbn [mbind option_bind]. unfold module_redis_command_context_has_token_set. rewrite Ht. cbn [check mbind option_bind].
  set (s3 := store s2 _ _). unfold module_redis_command_process_argument_end.
  assert (cells s3 = <[base + at_ - HAS_TOKEN_PADDING := CellBool true]> h) as Hc3 by by rewrite <- Hc.
  destruct (decide (arg_type a = ARGUMENT_TYPE_BOOL)) as [Hbool|Hbool].
  - change (next_expected_argument (parser s3)) with (next_expected_argument (parser s)). rewrite Hnx. cbn [Z.eqb negb].
    change (expected_argument (parser s3)) with 0. cbn [Z.eqb]. exists s3. by split.
  - change (next_expected_argument (parser s3)) with (te_argument te).
    destruct (Z.eqb_spec (te_argument te) 0); [done|]. cbn [negb]. eexists. split; [done|]. by split.
Qed.

Lemma value_step s base na n h p g a at_ c :
  described -> ready s base na n h p 0 -> sits p a at_ -> has_token a = true -> is_positional a = false -> whole a -> stored_as a g c ->
  exists s', process_argument s g = Some s' /\ ready s' base na n (<[base + at_ := c]> h) 0 0.
Proof.
  intros Hd Hr Hs Ht Hpos Hw Hst. pose proof Hr as [Hctx Hc Hna He Hsk Her Hex Hnx Hcnt Hi]. pose proof Hs as (Hp & Ha & _).
  pose proof (not_block _ _ _ Hst) as Hnb. unfold process_argument. rewrite Hsk.
  rewrite (begin_whole s g a c) by (done || by rewrite Hex). cbn [mbind option_bind skip with_parser]. rewrite Hsk.
  set (s1 := with_parser s _). change (require_stream (parser s1)) with false. cbv iota.
  assert (module_redis_command_process_argument_full strtold arguments entries info config s1 (text g ++ g.2) (zlen (text g)) =
          store_guessed strtold arguments config s1 p p false 0 (text g ++ g.2) (zlen (text g))) as ->.
  { unfold module_redis_command_process_argument_full, guess_expected. change (expected_argument (parser s1)) with (expected_argument (parser s)). rewrite Hex.
    destruct (Z.eqb_spec p 0); [done|]. rewrite (block_argument_same _ a) by done. cbn [mbind option_bind]. rewrite Ha. cbn [mbind option_bind].
    rewrite Ht, orb_true_r. cbn [mbind option_bind]. destruct (Z.eqb_spec p 0); [done|]. destruct (Z.eqb_spec p 0); [done|]. rewrite Ha. done. }
  unfold store_guessed. change (context s1) with (context s). rewrite Hctx, (member_of _ _ _ _ _ _ _ Hs), Ht. cbn [mbind option_bind]. rewrite Ha. cbn [mbind option_bind].
  unfold module_redis_command_context_base_addr_skip_has_token. rewrite Ht, Z.sub_add.
  set (s2 := with_parser s1 _). rewrite (store_whole s2 p p (base + at_) a g c) by done. cbn [mbind option_bind].
  unfold module_redis_command_process_argument_end.
  change (parser (store s2 (base + at_) c)) with (with_member (parser s1) (base + at_ - HAS_TOKEN_PADDING)).
  cbn [next_expected_argument with_member parser s1 with_parser with_require_stream expected_argument]. rewrite Hnx, Hex. cbn [Z.eqb negb].
  destruct (Z.eqb_spec p 0); [done|]. rewrite Ha. cbn [mbind option_bind]. rewrite decide_False by done.
  unfold argument_done. rewrite Ha. cbn [mbind option_bind]. rewrite Hpos. cbn [negb]. eexists. split; [done|]. split; try done. cbn. by rewrite Hc.
Qed.

Lemma fold_step s g gs s' :
  process_argument s g = Some s' ->
  foldl (fun st g => s ← st; process_argument s g) (Some s) (g :: gs) = foldl (fun st g => s ← st; process_argument s g) (Some s') gs.
Proof. intros Hs. cbn [foldl]. by rewrite <- Hs. Qed.

Lemma options_spec base h gs h' : reads_options base h gs h' -> forall s na n e,
  described -> ready s base na n h e 0 -> options_may_start e gs ->
  exists s' e', foldl (fun st g => s ← st; process_argument s g) (Some s) gs = Some s' /\ ready s' base na n h' e' 0 /\ (e' = e \/ e' = 0).
Proof.
  induction 1 as [h|h h' g gs te a at_ Hf Hs Ht Hb Had _ IH|h h' g g' gs te a at_ c Hf Hs Ht Hpos Hw Had Hst _ IH]; intros s na n e Hd Hr Hm.
  - exists s, e. split; [done|]. split; [done|by left].
  - destruct (flag_step s base na n h e g gs te a at_) as (s1 & Hp & Hr1); try done. rewrite (fold_step _ _ _ _ Hp). rewrite decide_True in Hr1 by done.
    destruct (IH s1 na n 0 Hd Hr1) as (s' & e' & -> & Hr' & He'); [right; by left|]. exists s', e'. split; [done|]. split; [done|]. naive_solver.
  - destruct (flag_step s base na n h e g (g' :: gs) te a at_) as (s1 & Hp & Hr1); try done. rewrite (fold_step _ _ _ _ Hp).
    rewrite decide_False in Hr1 by (unfold stored_as in Hst; intros Hbool; by rewrite Hbool in Hst).
    destruct (value_step s1 base na n _ (te_argument te) g' a at_ c Hd Hr1 Hs Ht Hpos Hw Hst) as (s2 & Hp2 & Hr2). rewrite (fold_step _ _ _ _ Hp2).
    destruct (IH s2 na n 0 Hd Hr2) as (s' & e' & -> & Hr' & He'); [right; by left|]. exists s', e'. split; [done|]. split; [done|]. naive_solver.
Qed.

Lemma expected_at_some n : expected_at n = 0 \/ is_Some (arguments !! expected_at n).
Proof.
  unfold expected_at. destruct (zget _ n) as [p|]; [|by left]. cbn [mbind option_bind]. destruct (arguments !! p) as [a|] eqn:Ha; [|by left].
  cbn [mbind option_bind]. destruct (is_positional a && _); [right; by exists a|by left].
Qed.

Lemma no_block_left s e : expected_argument (parser s) = e -> e = 0 \/ is_Some (arguments !! e) -> block_argument_index (parser s) = 0 ->
  process_end_error arguments info s = Some None.
Proof.
  intros He Hs Hi. unfold process_end_error. rewrite He, Hi. destruct (Z.eqb_spec e 0) as [|Hne]; [done|].
  destruct Hs as [|[a ->]]; [done|]. cbn [mbind option_bind]. by rewrite andb_false_r.
Qed.

Lemma reads_spec base n h gs h' : reads base n h gs h' -> forall s na,
  described -> ready s base na n h (expected_at n) 0 ->
  exists s' n' e, foldl (fun st g => s ← st; process_argument s g) (Some s) gs = Some s' /\ ready s' base na n' h' e 0 /\
    (e = 0 \/ is_Some (arguments !! e)).
Proof.
  induction 1 as [n h h' g gs a at_ c Hs Ht Hopt Hst Hfree _ IH|n h h' gs Hm Hopts]; intros s na Hd Hr.
  - destruct (positional_step s base na n h g a at_ c) as (s1 & Hp & Hr1); try done. rewrite (fold_step _ _ _ _ Hp). by apply IH.
  - destruct (options_spec _ _ _ _ Hopts s na n _ Hd Hr Hm) as (s' & e' & Hf & Hr' & He').
    exists s', n, e'. split; [done|]. split; [done|]. destruct He' as [-> | ->]; [apply expected_at_some|by left].
Qed.

(** The start of a command. *)
Definition at_start s : Prop :=
  error_message s = None /\ skip s = false /\ erange s = false /\ parser s = no_parser_context.

Lemma process_begin_ready s :
  described -> 0 < context_size info -> at_start s ->
  exists s', module_redis_command_process_begin arguments info s = Some s' /\
    ready s' (next_address s) (next_address s + context_size info) 0 (cells s) (expected_at 0) 0.
Proof.
  intros (H0 & Hone & Hf & Hlen) Hsize (He & Hsk & Her & Hp). unfold module_redis_command_process_begin. zcase; [|lia].
  unfold xalloc_alloc_zero. replace (Z.max (context_size info) 1) with (context_size info) by lia.
  unfold expected_at. destruct (info_arguments info) as [|p ps] eqn:Hargs.
  - cbn. eexists. split; [done|]. by split; cbn; rewrite ?Hp.
  - apply Forall_cons in Hf as [[a Ha] _]. rewrite Ha. cbn [mbind option_bind]. change (zget (p :: ps) 0) with (Some p) in *. cbn [mbind option_bind default].
    specialize (Hone p a eq_refl Ha). rewrite Ha. cbn [mbind option_bind].
    eexists. split; [done|]. rewrite (bool_decide_false (arg_type a = _)) by done. destruct (is_positional a); split; try done; cbn; by rewrite Hp.
Qed.

(** C11: the arguments of a command that the grammar reads (positional arguments,
    then flags and options with their value, in no list or block) are taken
    without an error and each is stored, in its type, at the place its
    description gives it, and nothing else is written, however their data are
    split in packets; the data of the long strings are the ones received.  The
    state left is the one in which the command runs. *)
Theorem arguments_stored s gs h :
  described -> 0 < context_size info -> at_start s -> reads (next_address s) 0 (cells s) gs h ->
  exists s', process_arguments s gs = Some s' /\ context s' = next_address s /\ cells s' = h /\
    error_message s' = None /\ skip s' = false /\ process_end_error arguments info s' = Some None.
Proof.
  intros Hd Hsize Hat Hr. destruct (process_begin_ready s Hd Hsize Hat) as (s1 & Hb & Hr1).
  destruct (reads_spec _ _ _ _ _ Hr s1 _ Hd Hr1) as (s' & n' & e & Hf & [Hctx Hc Hna He Hsk Her Hex Hnx Hcnt Hi] & Hse).
  exists s'. unfold process_arguments. rewrite Hb. cbn [mbind option_bind]. split; [exact Hf|]. repeat (split; [done|]).
  by apply (no_block_left s' e).
Qed.

(** ** Lists and blocks *)

(** An argument of the entries of a list and its offset in an entry: the
    argument itself or one of its block. *)
Record slot := Slot { sl_argument : Z; sl_desc : argument; sl_offset : Z }.

Definition in_list (p : Z) (blk : argument) (at_ : Z) (x : slot) : Prop :=
  sl_argument x <> 0 /\ arguments !! sl_argument x = Some (sl_desc x) /\ has_token (sl_desc x) = false /\
  exists l inner, path p 4 (sl_argument x) = Some inner /\ path 0 (4 - List.length inner) p = Some (l ++ [blk]) /\
    (List.length inner <= 4)%nat /\ Forall no_list l /\ Forall no_list inner /\ place (l ++ [blk]) = at_ /\ place inner = sl_offset x.

Record list_argument (p : Z) (blk : argument) (at_ : Z) (slots : list slot) : Prop := {
  la_desc : arguments !! p = Some blk;
  la_nonzero : p <> 0;
  la_list : has_multiple_occurrences blk = true;
  la_token : has_token blk = false;
  la_slots : sl_argument <$> slots = (if decide (arg_type blk = ARGUMENT_TYPE_BLOCK) then sub_arguments blk else [p]);
  la_some : slots <> [];
  la_few : zlen slots < 2 ^ 16;
  la_in : Forall (in_list p blk at_) slots;
  la_offsets : Forall (fun x => 0 <= sl_offset x < argument_context_member_size blk) slots;
  la_distinct : NoDup (sl_offset <$> slots)
}.

(** The memory of a list of [k] entries at [l]: its address and its length are
    in the context, below [low], its block above, and nothing from [na] on. *)
Record list_memory (low ptr size : Z) h (na k l : Z) : Prop := {
  lm_ptr : ptr + POINTER_SIZE < low /\ low <= na;
  lm_none : k = 0 -> h !! ptr = None /\ h !! (ptr + POINTER_SIZE) = None;
  lm_some : 0 < k -> h !! ptr = Some (CellPointer l) /\ h !! (ptr + POINTER_SIZE) = Some (CellCount k) /\ low <= l /\ l + k * size <= na;
  lm_free x : na <= x -> h !! x = None
}.

Lemma queue_compose p n : forall q inner m qp,
  arguments !! 0 = None -> path p n q = Some inner -> arguments_queue arguments m p 0 = Some (qp, 0) ->
  exists qi, arguments_queue arguments (List.length inner + m) q 0 = Some (qp ++ qi, 0) /\ Forall2 (fun q a => arguments !! q = Some a) qi inner.
Proof.
  induction n as [|n IH]; intros q inner m qp H0 Hl Hq; cbn [path] in Hl; destruct (Z.eqb_spec q p) as [->|Hne]; try done.
  1, 2: injection Hl as <-; exists []; by rewrite app_nil_r.
  apply bind_Some in Hl as (a & Ha & Hl). apply bind_Some in Hl as (l & Hl & [= <-]).
  destruct (IH _ _ m qp H0 Hl Hq) as (qi & Hqi & Hf). rewrite length_app. cbn [List.length]. rewrite Nat.add_1_r. cbn [Nat.add arguments_queue].
  destruct (Z.eqb_spec q 0) as [->|]; [by rewrite H0 in Ha|]. rewrite Ha. cbn [mbind option_bind]. rewrite Hqi. cbn [mbind option_bind].
  exists (qi ++ [q]). rewrite app_assoc. split; [done|]. apply Forall2_app; [done|by constructor].
Qed.

(** The search for an argument of a list stops at the list. *)
Lemma list_stop_spec s p blk at_ slots x base count :
  arguments !! 0 = None -> list_argument p blk at_ slots -> in_list p blk at_ x -> load_count s (base + at_ + POINTER_SIZE) = Some count ->
  module_redis_command_get_base_context_from_argument arguments s (sl_argument x) 0 base no_stop =
    Some (base + at_, ListStop true (u16 count) p).
Proof.
  intros H0 Hla (Hq & Hb & Ht & l & inner & Hin & Hp & Hlen & Hnl & Hni & Hat & Hoff) Hcount.
  destruct (path_queue _ _ _ _ Hp) as (qp & Hqp & Hf & Hlast). destruct (Hlast (la_nonzero _ _ _ _ Hla)) as (a' & ps & Ha' & ->).
  destruct (queue_compose p 4 _ inner _ _ H0 Hin Hqp) as (qi & Hqi & Hfi). replace (List.length inner + (4 - List.length inner))%nat with 4%nat in Hqi by lia.
  unfold module_redis_command_get_base_context_from_argument. rewrite Hqi. cbn [mbind option_bind Z.eqb check].
  apply Forall2_app_inv in Hf as [Hf _]; [|apply Forall2_length in Hf; rewrite !length_app in Hf; cbn in Hf; lia].
  rewrite <- app_assoc, (queue_loop_flat s ps l) by done. cbn [queue_loop app]. rewrite (la_desc _ _ _ _ Hla). cbn [mbind option_bind].
  rewrite (la_token _ _ _ _ Hla), (la_list _ _ _ _ Hla). cbn [mbind option_bind].
  replace (base + place l + argument_context_member_offset blk) with (base + at_).
  2:{ rewrite <- Hat, place_app. unfold place at 2. cbn [foldr]. unfold step_size. rewrite (la_token _ _ _ _ Hla). lia. }
  rewrite Hcount. cbn [mbind option_bind stopped_at_list]. rewrite (la_desc _ _ _ _ Hla). cbn [mbind option_bind]. by rewrite (la_token _ _ _ _ Hla).
Qed.

Lemma list_resume_spec s p blk at_ slots x addr count :
  list_argument p blk at_ slots -> in_list p blk at_ x ->
  module_redis_command_get_base_context_from_argument arguments s (sl_argument x) p addr (ListStop false count p) =
    Some (addr + sl_offset x, ListStop false count p).
Proof.
  intros Hla (Hq & Hb & Ht & l & inner & Hin & _ & _ & _ & Hni & _ & Hoff). destruct (Z.eq_dec (sl_argument x) p) as [He|Hne].
  - rewrite He in *. cbn [path] in Hin. rewrite Z.eqb_refl in Hin. injection Hin as <-. cbn in Hoff.
    unfold module_redis_command_get_base_context_from_argument. cbn [arguments_queue]. rewrite Z.eqb_refl. cbn [mbind option_bind queue_loop]. rewrite Z.eqb_refl.
    cbn [check mbind option_bind]. rewrite (la_desc _ _ _ _ Hla). cbn [mbind option_bind]. rewrite (la_token _ _ _ _ Hla). do 2 f_equal. lia.
  - rewrite (base_flat s _ p inner (sl_desc x)) by done. rewrite Ht, Hoff. do 2 f_equal. lia.
Qed.

(** The cells after a block has moved to [new]. *)
Lemma realloc_lookup s list current new_size y :
  (forall x, next_address s <= x -> cells s !! x = None) -> list + current <= next_address s -> 0 <= current <= new_size ->
  let s' := (xalloc_realloc s list current new_size).1 in
  cells s' !! y = if in_block (next_address s) current y then cells s !! (y - next_address s + list)
                  else if in_block list current y then None else cells s !! y.
Proof.
  intros Hfree Hle Hcur s'. unfold s', xalloc_realloc. cbn [xalloc_alloc_zero fst with_cells cells]. set (na := next_address s) in *.
  assert (Inj (=) (=) (fun x : Z => x - list + na)) as Hinj by (intros a b; lia).
  rewrite lookup_union. destruct (in_block na current y) eqn:Hy.
  - assert (forall M : gmap Z (cell D), kmap (fun x => x - list + na) M !! y = M !! (y - na + list)) as ->.
    { intros M. rewrite <- (lookup_kmap (fun x => x - list + na) M (y - na + list)). f_equal. lia. }
    assert (in_block list current (y - na + list) = true) as Hb by (unfold in_block in *; lia).
    assert (cells s !! y = None) as Hn by (apply Hfree; unfold in_block in Hy; lia).
    rewrite !map_lookup_filter, Hn. destruct (cells s !! (y - na + list)) as [c|]; cbn; [|done]. by rewrite option_guard_True.
  - assert (kmap (fun x => x - list + na) (filter (fun c => in_block list current c.1 = true) (cells s)) !! y = None) as ->.
    { apply lookup_kmap_None; [done|]. intros z ->. apply map_lookup_filter_None_2. right. intros c Hc Hb. cbn in Hb. unfold in_block in *. lia. }
    rewrite option_union_left_id, map_lookup_filter. destruct (cells s !! y) as [c|]; cbn; [|by destruct (in_block list current y)].
    destruct (in_block list current y) eqn:Hb; [by rewrite option_guard_False|by rewrite option_guard_True].
Qed.

Section list.
Context (p : Z) (blk : argument) (at_ : Z) (slots : list slot) (base low : Z).
Hypothesis Hdesc : described.
Hypothesis Hlist : list_argument p blk at_ slots.
Abbreviation size := (argument_context_member_size blk).
Abbreviation ptr := (base + at_).

Lemma size_positive : 0 < size.
Proof.
  pose proof (la_some _ _ _ _ Hlist). pose proof (la_offsets _ _ _ _ Hlist) as Ho. destruct slots as [|x ?]; [done|].
  apply Forall_cons in Ho as [Ho _]. lia.
Qed.

Lemma list_count s h na k l : list_memory low ptr size h na k l -> 0 <= k -> cells s = h -> load_count s (ptr + POINTER_SIZE) = Some k.
Proof.
  intros Hm Hk Hc. unfold load_count. rewrite Hc. destruct (Z.eq_dec k 0) as [->|].
  - by rewrite (proj2 (lm_none _ _ _ _ _ _ _ Hm eq_refl)).
  - by rewrite (proj1 (proj2 (lm_some _ _ _ _ _ _ _ Hm ltac:(lia)))).
Qed.

(** What the growth of a list keeps and gives. *)
Definition grown h (k l : Z) h1 (l1 : Z) : Prop :=
  (forall y, 0 <= y < k * size -> h1 !! (l1 + y) = h !! (l + y)) /\
  (forall y, k * size <= y < (k + 1) * size -> h1 !! (l1 + y) = None) /\
  (forall y, y < low -> y <> ptr -> y <> ptr + POINTER_SIZE -> h1 !! y = h !! y).

Definition linked h (na k : Z) : gmap Z (cell D) := <[ptr + POINTER_SIZE := CellCount (k + 1)]> (<[ptr := CellPointer na]> h).

Lemma linked_other h na k y : y <> ptr -> y <> ptr + POINTER_SIZE -> linked h na k !! y = h !! y.
Proof. intros H1 H2. unfold linked. by rewrite !lookup_insert_ne by done. Qed.

Lemma linked_memory h h0 na k l na1 :
  list_memory low ptr size h0 na k l -> 0 <= k -> na + (k + 1) * size <= na1 -> (forall x, na1 <= x -> h !! x = None) ->
  list_memory low ptr size (linked h na k) na1 (k + 1) na.
Proof.
  intros Hm Hk Hna Hfree. pose proof size_positive. destruct (lm_ptr _ _ _ _ _ _ _ Hm). assert (0 < (k + 1) * size) by nia.
  split; unfold POINTER_SIZE in *; [lia|intros; exfalso; lia| |].
  - intros _. unfold linked, POINTER_SIZE. rewrite lookup_insert_ne by lia. rewrite !lookup_insert_eq. split; [done|]. split; [done|]. lia.
  - intros x Hx. rewrite linked_other; [by apply Hfree|nia|unfold POINTER_SIZE; nia].
Qed.

(** The blocks of the cells of a state: those of the memory alone. *)
Definition in_memory h (na : Z) : command_state D := CommandState h na 0 no_parser_context None false false.

Lemma expand_spec s h na k l :
  list_memory low ptr size h na k l -> 0 <= k -> cells s = h -> next_address s = na ->
  let h1 := if k =? 0 then h else cells (xalloc_realloc (in_memory h na) l (k * size) ((k + 1) * size)).1 in
  module_redis_command_context_list_expand_and_get_new_entry arguments s p ptr =
    Some (CommandState (linked h1 na k) (na + Z.max ((k + 1) * size) 1) (context s) (parser s) (error_message s) (skip s) (erange s), na + k * size).
Proof.
  intros Hm Hk Hc Hna. unfold module_redis_command_context_list_expand_and_get_new_entry. rewrite (la_desc _ _ _ _ Hlist). cbn [mbind option_bind].
  unfold module_redis_command_context_list_get_count, module_redis_command_context_list_get_list, module_redis_command_context_list_set_list,
    module_redis_command_context_list_set_count, module_redis_command_context_base_addr_skip_has_token.
  rewrite (la_list _ _ _ _ Hlist), (la_token _ _ _ _ Hlist). cbn [check mbind option_bind].
  rewrite (list_count s h na k l) by done. cbn [mbind option_bind]. subst h na. destruct (Z.eqb_spec k 0) as [->|Hne].
  - reflexivity.
  - unfold load_pointer. rewrite (proj1 (lm_some _ _ _ _ _ _ _ Hm ltac:(lia))). cbn [mbind option_bind].
    unfold xalloc_realloc. cbn [xalloc_alloc_zero fst mbind option_bind]. do 3 f_equal. lia.
Qed.

Lemma expand_grown h na k l :
  list_memory low ptr size h na k l -> 0 <= k ->
  let h1 := if k =? 0 then h else cells (xalloc_realloc (in_memory h na) l (k * size) ((k + 1) * size)).1 in
  let na1 := na + Z.max ((k + 1) * size) 1 in
  list_memory low ptr size (linked h1 na k) na1 (k + 1) na /\ grown h k l (linked h1 na k) na.
Proof.
  intros Hm Hk h1 na1. subst na1. pose proof size_positive as Hsz. pose proof (lm_free _ _ _ _ _ _ _ Hm) as Hfree.
  destruct (lm_ptr _ _ _ _ _ _ _ Hm) as [Hp Hlow]. assert (0 < (k + 1) * size) by nia.
  assert (forall y, h1 !! y = if decide (k = 0) then h !! y else
    if in_block na (k * size) y then h !! (y - na + l) else if in_block l (k * size) y then None else h !! y) as Hh1.
  { intros y. unfold h1. destruct (Z.eqb_spec k 0) as [->|Hne]; [by rewrite decide_True|]. rewrite decide_False by done.
    destruct (lm_some _ _ _ _ _ _ _ Hm ltac:(lia)) as (_ & _ & Hl & Hle).
    apply (realloc_lookup (in_memory h na) l (k * size) ((k + 1) * size) y); [exact Hfree|exact Hle|nia]. }
  assert (forall y, na + k * size <= y -> h1 !! y = None) as Hnone.
  { intros y Hy. rewrite Hh1. case_decide as Hz; [apply Hfree; nia|]. destruct (in_block na _ y) eqn:Hb; [unfold in_block in Hb; lia|].
    destruct (in_block l _ y); [done|]. apply Hfree. nia. }
  split; [apply (linked_memory h1 h na k l); [done|done|lia|intros x Hx; apply Hnone; nia]|].
  unfold POINTER_SIZE in *. split; [|split]; intros y Hy; [| |intros Hy1 Hy2]; rewrite linked_other by (unfold POINTER_SIZE in *; nia).
  - rewrite Hh1. rewrite decide_False by nia. replace (in_block na (k * size) (na + y)) with true by (unfold in_block; lia). f_equal. lia.
  - apply Hnone. lia.
  - rewrite Hh1. case_decide; [done|]. destruct (lm_some _ _ _ _ _ _ _ Hm ltac:(lia)) as (_ & _ & Hl & _).
    replace (in_block na (k * size) y) with false by (unfold in_block; lia). by replace (in_block l (k * size) y) with false by (unfold in_block; lia).
Qed.

Lemma reaches_new h na k l x inb i :
  in_list p blk at_ x -> list_memory low ptr size h na k l -> 0 <= k -> inb = false \/ i = 0 ->
  exists h1 na1 l1, reaches h na (sl_argument x) inb i base (l1 + k * size + sl_offset x) h1 na1 /\
    list_memory low ptr size h1 na1 (k + 1) l1 /\ grown h k l h1 l1.
Proof.
  intros Hx Hm Hk Hi. destruct (expand_grown h na k l Hm Hk) as [Hm1 Hg]. do 3 eexists. split; [|split; [exact Hm1|exact Hg]].
  intros s Hc Hna. unfold module_redis_command_context_get_argument_member_context_addr.
  rewrite (list_stop_spec s p blk at_ slots x base k (proj1 Hdesc) Hlist Hx) by (rewrite (list_count s h na k l); done).
  cbn [mbind option_bind stopped_at_list stopped_at_list_argument stopped_at_list_count].
  replace (negb inb || (i =? 0)) with true by (destruct Hi as [-> | ->]; [done|by rewrite orb_true_r]).
  rewrite (expand_spec s h na k l) by done. cbn [mbind option_bind].
  rewrite (list_resume_spec _ p blk at_ slots x _ _ Hlist Hx). done.
Qed.

Lemma reaches_last h na k l x i :
  in_list p blk at_ x -> list_memory low ptr size h na k l -> 0 < k < 2 ^ 16 -> 0 < i ->
  reaches h na (sl_argument x) true i base (l + (k - 1) * size + sl_offset x) h na.
Proof.
  intros Hx Hm Hk Hi s Hc Hna. unfold module_redis_command_context_get_argument_member_context_addr.
  rewrite (list_stop_spec s p blk at_ slots x base k (proj1 Hdesc) Hlist Hx) by (rewrite (list_count s h na k l); done || lia).
  cbn [mbind option_bind stopped_at_list stopped_at_list_argument stopped_at_list_count negb orb].
  destruct (Z.eqb_spec i 0); [lia|]. destruct (Z.ltb_spec 0 i); [|lia]. rewrite (la_desc _ _ _ _ Hlist). cbn [mbind option_bind].
  unfold module_redis_command_context_list_get_entry, module_redis_command_context_list_get_list, module_redis_command_context_base_addr_skip_has_token.
  rewrite (la_list _ _ _ _ Hlist), (la_token _ _ _ _ Hlist). cbn [check mbind option_bind]. unfold load_pointer. rewrite Hc.
  rewrite (proj1 (lm_some _ _ _ _ _ _ _ Hm ltac:(lia))). cbn [mbind option_bind].
  rewrite (list_resume_spec _ p blk at_ slots x _ _ Hlist Hx). cbn [mbind option_bind stopped_at_list negb check].
  rewrite (wrap_small 16 k), (wrap_small 16 (k - 1)) by mach_lia. subst. by destruct s.
Qed.

(** The rows in the entries of the list, the last one as far as it goes. *)
Record rows_in h (l : Z) (rows : list (list (cell D))) : Prop := {
  ri_cell r row j c x : rows !! r = Some row -> row !! j = Some c -> slots !! j = Some x ->
    h !! (l + Z.of_nat r * size + sl_offset x) = Some c;
  ri_free r row y : rows !! r = Some row -> 0 <= y < size ->
    (forall j x, (j < List.length row)%nat -> slots !! j = Some x -> y <> sl_offset x) -> h !! (l + Z.of_nat r * size + y) = None
}.

Lemma slot_bounds j x : slots !! j = Some x -> 0 <= sl_offset x < size.
Proof. intros Hj. pose proof (la_offsets _ _ _ _ Hlist) as Ho. rewrite Forall_lookup in Ho. by apply Ho in Hj. Qed.

Lemma slot_distinct j j' x x' : slots !! j = Some x -> slots !! j' = Some x' -> sl_offset x = sl_offset x' -> j = j'.
Proof.
  intros Hj Hj' He. apply (NoDup_lookup (sl_offset <$> slots) j j' (sl_offset x)); [apply (la_distinct _ _ _ _ Hlist)| |].
  - by rewrite list_lookup_fmap, Hj.
  - rewrite list_lookup_fmap, Hj'. cbn. by rewrite He.
Qed.

Lemma rows_in_grown h l rows h1 l1 : rows_in h l rows -> grown h (zlen rows) l h1 l1 -> rows_in h1 l1 (rows ++ [[]]).
Proof.
  intros [Hc Hf] (Hold & Hnew & _). pose proof size_positive as Hsz.
  assert (forall r, (r < List.length rows)%nat -> 0 <= Z.of_nat r * size /\ (Z.of_nat r + 1) * size <= zlen rows * size) as Hr.
  { intros r Hr. unfold zlen. split; [nia|]. apply Z.mul_le_mono_nonneg_r; lia. }
  split.
  - intros r row j c x Hrow Hj Hx. apply lookup_app_Some in Hrow as [Hrow|[_ Hrow]].
    2:{ destruct (r - List.length rows)%nat as [|[]]; [|done..]. injection Hrow as <-. done. }
    pose proof (slot_bounds j x Hx). pose proof (Hr r ltac:(by eapply lookup_lt_Some)).
    rewrite <- Z.add_assoc, Hold by lia. rewrite Z.add_assoc. by apply (Hc r row j c x).
  - intros r row y Hrow Hy Hno. apply lookup_app_Some in Hrow as [Hrow|[Hge Hrow]].
    + pose proof (Hr r ltac:(by eapply lookup_lt_Some)). rewrite <- Z.add_assoc, Hold by lia. rewrite Z.add_assoc. by apply (Hf r row y).
    + destruct (r - List.length rows)%nat as [|[]] eqn:He; [|done..]. replace (Z.of_nat r) with (zlen rows) by (unfold zlen; lia).
      rewrite <- Z.add_assoc. apply Hnew. lia.
Qed.

Lemma rows_in_insert h l rows row x c :
  rows_in h l (rows ++ [row]) -> slots !! List.length row = Some x ->
  rows_in (<[l + zlen rows * size + sl_offset x := c]> h) l (rows ++ [row ++ [c]]).
Proof.
  intros [Hc Hf] Hx. pose proof size_positive as Hsz. pose proof (slot_bounds _ _ Hx) as Hxb.
  assert (forall r y, (r < List.length rows)%nat -> 0 <= y < size -> l + zlen rows * size + sl_offset x <> l + Z.of_nat r * size + y) as Hne.
  { intros r y Hr Hy. unfold zlen. nia. }
  split.
  - intros r row' j c' x' Hrow Hj Hx'. pose proof (slot_bounds _ _ Hx'). apply lookup_app_Some in Hrow as [Hrow|[Hge Hrow]].
    + rewrite lookup_insert_ne by (apply Hne; [by eapply lookup_lt_Some|done]). apply (Hc r row' j c' x'); [by apply lookup_app_l_Some|done|done].
    + destruct (r - List.length rows)%nat as [|[]] eqn:He; [|done..]. injection Hrow as <-. replace (Z.of_nat r) with (zlen rows) by (unfold zlen; lia).
      apply lookup_app_Some in Hj as [Hj|[Hge' Hj]].
      * rewrite lookup_insert_ne.
        2:{ intros Heq. assert (List.length row = j) as <- by (apply (slot_distinct _ _ x x'); [done|done|lia]). apply lookup_lt_Some in Hj. lia. }
        replace (zlen rows) with (Z.of_nat r) by (unfold zlen; lia). apply (Hc r row j c' x'); [|done|done].
        rewrite lookup_app_r by lia. by rewrite He.
      * destruct (j - List.length row)%nat as [|[]] eqn:He'; [|done..]. injection Hj as <-. replace j with (List.length row) in Hx' by lia.
        rewrite Hx in Hx'. injection Hx' as <-. by rewrite lookup_insert_eq.
  - intros r row' y Hrow Hy Hno. apply lookup_app_Some in Hrow as [Hrow|[Hge Hrow]].
    + rewrite lookup_insert_ne by (apply Hne; [by eapply lookup_lt_Some|done]). apply (Hf r row' y); [by apply lookup_app_l_Some|done|done].
    + destruct (r - List.length rows)%nat as [|[]] eqn:He; [|done..]. injection Hrow as <-.
      rewrite length_app in Hno. cbn [List.length] in Hno. rewrite lookup_insert_ne.
      2:{ intros Heq. apply (Hno (List.length row) x); [lia|done|]. replace (Z.of_nat r) with (zlen rows) in Heq by (unfold zlen; lia). lia. }
      apply (Hf r row y); [rewrite lookup_app_r by lia; by rewrite He|done|]. intros j x' Hj. apply Hno. lia.
Qed.

Lemma list_memory_insert h na k l addr c :
  list_memory low ptr size h na k l -> 0 < k -> l <= addr < na -> list_memory low ptr size (<[addr := c]> h) na k l.
Proof.
  intros [Hp Hn Hs Hf] Hk Ha. destruct (Hs Hk) as (H1 & H2 & H3 & H4). unfold POINTER_SIZE in *. split; [done|lia| |].
  - intros _. unfold POINTER_SIZE. rewrite !lookup_insert_ne by lia. done.
  - intros x Hx. rewrite lookup_insert_ne by lia. by apply Hf.
Qed.

(** Between two arguments of a list: [rows] are stored, [i] is the position in
    the row. *)
Definition collected (h0 : gmap Z (cell D)) s (n : Z) (rows : list (list (cell D))) (i : Z) : Prop :=
  exists h na l, ready s base na n h p i /\ list_memory low ptr size h na (zlen rows) l /\ rows_in h l rows /\
    forall y, y < low -> y <> ptr -> y <> ptr + POINTER_SIZE -> h !! y = h0 !! y.

(** The argument of the list that [g] gives and its cell. *)
Definition gives (x : slot) (g : given) (c : cell D) : Prop :=
  stored_as (sl_desc x) g c /\ (arg_type blk <> ARGUMENT_TYPE_BLOCK -> is_optional blk = true -> find g = Some None).

Definition next_index (i : Z) : Z := if i + 1 <? zlen slots then i + 1 else 0.

Lemma slot_block i x : zget slots i = Some x ->
  block_argument arguments p i = Some (sl_argument x, bool_decide (arg_type blk = ARGUMENT_TYPE_BLOCK)) /\ in_list p blk at_ x /\
  (arg_type blk <> ARGUMENT_TYPE_BLOCK -> sl_desc x = blk /\ i = 0).
Proof.
  intros Hx. unfold block_argument. rewrite (la_desc _ _ _ _ Hlist). cbn [mbind option_bind].
  pose proof (la_slots _ _ _ _ Hlist) as Hs. assert (slots !! Z.to_nat i = Some x) as Hl by (unfold zget in Hx; by destruct (_ <? _)).
  assert (in_list p blk at_ x) as Hin by (pose proof (la_in _ _ _ _ Hlist) as Hi; rewrite Forall_lookup in Hi; by apply Hi in Hl).
  pose proof (zget_Some_range _ _ _ Hx) as Hi.
  assert ((sl_argument <$> slots) !! Z.to_nat i = Some (sl_argument x)) as Hq by by rewrite list_lookup_fmap, Hl.
  rewrite Hs in Hq. case_decide as Hb.
  - rewrite bool_decide_true by done. split; [|split; [done|done]]. unfold zget. destruct (Z.ltb_spec i 0); [lia|]. by rewrite Hq.
  - rewrite bool_decide_false by done. destruct (Z.to_nat i) as [|m] eqn:Hm; [|by destruct m]. injection Hq as ->. split; [done|]. split; [done|].
    intros _. destruct Hin as (_ & Hd & _). rewrite (la_desc _ _ _ _ Hlist) in Hd. injection Hd as ->. split; [done|lia].
Qed.

Lemma list_end s na n h i :
  expected_at n = p -> 0 <= i < zlen slots -> ready s base na n h p i ->
  exists s', module_redis_command_process_argument_end arguments info s = Some s' /\ ready s' base na n h p (next_index i).
Proof.
  intros He Hi [Hctx Hc Hna Herr Hsk Her Hex Hnx Hcnt Hix]. unfold module_redis_command_process_argument_end. rewrite Hnx, Hex. cbn [Z.eqb negb].
  pose proof (la_nonzero _ _ _ _ Hlist). destruct (Z.eqb_spec p 0); [done|]. rewrite (la_desc _ _ _ _ Hlist). cbn [mbind option_bind].
  destruct (expected_at_range n blk) as (Hn & _ & Hpos & _); [by rewrite He|rewrite He; apply (la_desc _ _ _ _ Hlist)|].
  pose proof (la_slots _ _ _ _ Hlist) as Hs. pose proof (la_few _ _ _ _ Hlist). unfold next_index. case_decide as Hb.
  - rewrite Hix, wrap_small by mach_lia. cbn [block_argument_index with_block_index]. rewrite <- Hs. replace (zlen (sl_argument <$> slots)) with (zlen slots) by (unfold zlen; by rewrite length_fmap).
    zcase; [eexists; split; [done|]; by split|].
    match goal with |- context [argument_done _ _ _ ?e] => change e with (expected_argument (parser s)) end. rewrite Hex.
    rewrite (argument_done_positional _ n p blk) by (done || apply (la_desc _ _ _ _ Hlist)). rewrite (la_list _ _ _ _ Hlist). cbn [fmap option_fmap option_map]. eexists. split; [done|]. by split.
  - assert (zlen slots = 1) as Hone by (unfold zlen; rewrite <- (length_fmap sl_argument), Hs; done). zcase; [lia|].
    rewrite (argument_done_positional _ n p blk) by (done || apply (la_desc _ _ _ _ Hlist)). rewrite (la_list _ _ _ _ Hlist). cbn [fmap option_fmap option_map]. eexists. split; [done|]. split; try done. cbn. lia.
Qed.

Lemma collected_first h0 s n rows x g c :
  expected_at n = p -> collected h0 s n rows 0 -> zget slots 0 = Some x -> gives x g c ->
  exists s', process_argument s g = Some s' /\ collected h0 s' n (rows ++ [[c]]) (next_index 0).
Proof.
  intros He (h & na & l & Hr & Hm & Hrows & Hold) Hx [Hst Hopt]. destruct (slot_block 0 x Hx) as (Hba & Hin & Hsame).
  pose proof (zlen_nonneg rows). pose proof size_positive. assert (slots !! 0%nat = Some x) as Hl by exact Hx. pose proof (slot_bounds _ _ Hl).
  destruct (reaches_new h na (zlen rows) l x (bool_decide (arg_type blk = ARGUMENT_TYPE_BLOCK)) 0 Hin Hm ltac:(lia) ltac:(by right))
    as (h1 & na1 & l1 & Hrc & Hm1 & Hg). pose proof Hg as (_ & Hnew & Hold1).
  destruct (lm_some _ _ _ _ _ _ _ Hm1 ltac:(lia)) as (_ & _ & Hl1 & Hna1). destruct (lm_ptr _ _ _ _ _ _ _ Hm1) as [Hp Hlow].
  destruct (value_stored s base na n h p 0 g (sl_argument x) (bool_decide (arg_type blk = ARGUMENT_TYPE_BLOCK)) (sl_desc x)
    (l1 + zlen rows * size + sl_offset x) h1 na1 c) as (s1 & -> & Hr1); try done; try apply (la_nonzero _ _ _ _ Hlist); try apply Hin.
  { intros Hb. apply bool_decide_eq_false in Hb. destruct (Hsame Hb) as [-> _]. by apply Hopt. }
  { rewrite <- Z.add_assoc. apply Hnew. lia. }
  pose proof (zget_Some_range _ _ _ Hx) as Hrange. destruct (list_end s1 na1 n _ 0 He Hrange Hr1) as (s' & Hend & Hr').
  exists s'. split; [exact Hend|]. do 3 eexists. split; [exact Hr'|]. split; [|split].
  - replace (zlen (rows ++ [[c]])) with (zlen rows + 1) by (by rewrite zlen_app). apply list_memory_insert; [exact Hm1|lia|nia].
  - apply (rows_in_insert h1 l1 rows [] x c); [by eapply rows_in_grown|exact Hl].
  - intros y Hy Hy1 Hy2. rewrite lookup_insert_ne by nia. rewrite Hold1 by done. by apply Hold.
Qed.

Lemma collected_next h0 s n rows row x g c :
  expected_at n = p -> collected h0 s n (rows ++ [row]) (zlen row) -> 0 < zlen row -> zget slots (zlen row) = Some x -> gives x g c ->
  zlen rows + 1 < 2 ^ 16 ->
  exists s', process_argument s g = Some s' /\ collected h0 s' n (rows ++ [row ++ [c]]) (next_index (zlen row)).
Proof.
  intros He (h & na & l & Hr & Hm & Hrows & Hold) Hpos Hx [Hst Hopt] Hfew. destruct (slot_block _ x Hx) as (Hba & Hin & Hsame).
  assert (arg_type blk = ARGUMENT_TYPE_BLOCK) as Hblk by (destruct (decide (arg_type blk = ARGUMENT_TYPE_BLOCK)) as [|Hb]; [done|destruct (Hsame Hb); lia]).
  rewrite bool_decide_true in Hba by done. rewrite zlen_app in Hm. change (zlen [row]) with 1 in Hm.
  pose proof (zlen_nonneg rows). pose proof size_positive. assert (slots !! List.length row = Some x) as Hl.
  { unfold zget, zlen in Hx. destruct (_ <? _); [done|]. by rewrite Nat2Z.id in Hx. }
  pose proof (slot_bounds _ _ Hl).
  pose proof (reaches_last h na (zlen rows + 1) l x (zlen row) Hin Hm ltac:(lia) Hpos) as Hrc.
  replace (zlen rows + 1 - 1) with (zlen rows) in Hrc by lia.
  destruct (lm_some _ _ _ _ _ _ _ Hm ltac:(lia)) as (_ & _ & Hl1 & Hna1). destruct (lm_ptr _ _ _ _ _ _ _ Hm) as [Hp Hlow].
  destruct (value_stored s base na n h p (zlen row) g (sl_argument x) true (sl_desc x)
    (l + zlen rows * size + sl_offset x) h na c) as (s1 & -> & Hr1); try done; try apply (la_nonzero _ _ _ _ Hlist); try apply Hin.
  { apply (ri_free _ _ _ Hrows (List.length rows) row); [|done|].
    - rewrite lookup_app_r by lia. by rewrite Nat.sub_diag.
    - intros j x' Hj Hx' Heq. assert (j = List.length row) by (by apply (slot_distinct _ _ x' x)). lia. }
  pose proof (zget_Some_range _ _ _ Hx) as Hrange. destruct (list_end s1 na n _ (zlen row) He Hrange Hr1) as (s' & Hend & Hr').
  exists s'. split; [exact Hend|]. do 3 eexists. split; [exact Hr'|]. split; [|split].
  - replace (zlen (rows ++ [row ++ [c]])) with (zlen rows + 1) by (by rewrite zlen_app). apply list_memory_insert; [exact Hm|lia|nia].
  - by apply rows_in_insert.
  - intros y Hy Hy1 Hy2. rewrite lookup_insert_ne by nia. by apply Hold.
Qed.

Lemma row_rest h0 n rows gs : forall cs row s,
  expected_at n = p -> zlen rows + 1 < 2 ^ 16 -> Forall3 gives (drop (List.length row) slots) gs cs -> (0 < List.length row)%nat ->
  collected h0 s n (rows ++ [row]) (if zlen row <? zlen slots then zlen row else 0) ->
  exists s', foldl (fun st g => s ← st; process_argument s g) (Some s) gs = Some s' /\ collected h0 s' n (rows ++ [row ++ cs]) 0.
Proof.
  induction gs as [|g gs IH]; intros cs row s He Hfew Hgs Hrow Hcol.
  - assert (drop (List.length row) slots = [] /\ cs = []) as [Hd ->] by (by inversion Hgs). exists s. rewrite app_nil_r. split; [done|].
    assert (List.length slots <= List.length row)%nat by (by apply drop_nil_inv). destruct (Z.ltb_spec (zlen row) (zlen slots)); [unfold zlen in *; lia|done].
  - apply Forall3_cons_inv_m in Hgs as (x & xs & c & cs' & Hd & -> & Hg & Hgs'). assert (slots !! List.length row = Some x) as Hx.
    { rewrite <- (Nat.add_0_r (List.length row)), <- lookup_drop, Hd. done. }
    assert (zget slots (zlen row) = Some x) as Hz by (unfold zget, zlen; destruct (Z.ltb_spec (Z.of_nat (List.length row)) 0); [lia|by rewrite Nat2Z.id]).
    pose proof (zget_Some_range _ _ _ Hz). destruct (Z.ltb_spec (zlen row) (zlen slots)); [|lia].
    destruct (collected_next h0 s n rows row x g c He Hcol) as (s1 & Hp & Hc1); [unfold zlen; lia|done|done|done|].
    rewrite (fold_step _ _ _ _ Hp). replace (row ++ c :: cs') with ((row ++ [c]) ++ cs') by (by rewrite <- app_assoc).
    apply IH; [done|done| |rewrite length_app; cbn; lia|].
    + rewrite length_app. cbn [List.length]. rewrite <- drop_drop, Hd. done.
    + unfold next_index in Hc1. rewrite zlen_app. exact Hc1.
Qed.

Lemma rows_spec h0 n gss : forall css rows s,
  expected_at n = p -> zlen rows + zlen gss < 2 ^ 16 -> Forall2 (Forall3 gives slots) gss css -> collected h0 s n rows 0 ->
  exists s', foldl (fun st g => s ← st; process_argument s g) (Some s) (concat gss) = Some s' /\ collected h0 s' n (rows ++ css) 0.
Proof.
  induction gss as [|gs gss IH]; intros css rows s He Hfew Hall Hcol.
  - inversion Hall; subst. exists s. by rewrite app_nil_r.
  - inversion Hall as [|? cs ? css' Hgs Hall']; subst. rewrite zlen_cons in Hfew. pose proof (zlen_nonneg gss).
    pose proof (la_some _ _ _ _ Hlist) as Hne. destruct gs as [|g gs']; [by inversion Hgs; subst|].
    apply Forall3_cons_inv_m in Hgs as (x & xs & c & cs' & Hx & -> & Hg & Hgs'). assert (zget slots 0 = Some x) as Hz by (by rewrite Hx). cbn [concat app].
    destruct (collected_first h0 s n rows x g c He Hcol Hz Hg) as (s1 & Hp & Hc1). rewrite (fold_step _ _ _ _ Hp), foldl_app.
    destruct (row_rest h0 n rows gs' cs' [c] s1) as (s2 & Hf & Hc2); [done|lia|by rewrite Hx|cbn; lia|exact Hc1|]. rewrite Hf.
    destruct (IH css' (rows ++ [c :: cs']) s2) as (s' & Hf' & Hc'); [done|rewrite zlen_app; change (zlen [c :: cs']) with 1; lia|done|exact Hc2|].
    exists s'. split; [exact Hf'|]. by rewrite <- app_assoc in Hc'.
Qed.

(** C12: a list of values, or of blocks of values, that a command takes as its
    first argument (the keys of DEL, the pairs of MSET): whatever the number of
    the rows, however the list is moved as it grows and however the data are
    split in packets, at the end the context holds the address of the list and
    its length, the entry of each row holds each of its values at the place its
    description gives it, and the rest of the memory is as it was. *)
Theorem list_arguments_collected s gss css :
  0 < context_size info -> at_start s -> base = next_address s -> low = base + context_size info -> expected_at 0 = p ->
  0 <= at_ -> at_ + POINTER_SIZE < context_size info -> (forall y, base <= y -> cells s !! y = None) ->
  Forall2 (Forall3 gives slots) gss css -> 0 < zlen gss < 2 ^ 16 ->
  exists s' l, process_arguments s (concat gss) = Some s' /\ error_message s' = None /\ skip s' = false /\
    process_end_error arguments info s' = Some None /\
    cells s' !! (base + at_) = Some (CellPointer l) /\ cells s' !! (base + at_ + POINTER_SIZE) = Some (CellCount (zlen gss)) /\
    (forall r cs j c x, css !! r = Some cs -> cs !! j = Some c -> slots !! j = Some x ->
       cells s' !! (l + Z.of_nat r * size + sl_offset x) = Some c) /\
    (forall y, y < low -> y <> base + at_ -> y <> base + at_ + POINTER_SIZE -> cells s' !! y = cells s !! y).
Proof.
  intros Hsize Hat Hb Hlow He Ha Hfit Hfree Hall Hfew. destruct (process_begin_ready s Hdesc Hsize Hat) as (s1 & Hbegin & Hr1). rewrite He in Hr1.
  assert (collected (cells s) s1 0 [] 0) as Hc0.
  { exists (cells s), low, 0. subst base. rewrite <- Hlow in Hr1. split; [exact Hr1|]. split; [|split; [|done]].
    - split; [lia| |done|intros y Hy; apply Hfree; lia]. intros _. split; apply Hfree; unfold POINTER_SIZE; lia.
    - by split. }
  destruct (rows_spec (cells s) 0 gss css [] s1 He) as (s' & Hf & h & na & l & Hr & Hm & Hrows & Hold); [change (zlen []) with 0; lia|done|exact Hc0|].
  cbn [app] in *. destruct Hr as [Hctx Hc Hna Herr Hsk Her Hex Hnx Hcnt Hi]. subst h.
  assert (zlen css = zlen gss) as Hlen by (unfold zlen; by rewrite (Forall2_length _ _ _ Hall)).
  destruct (lm_some _ _ _ _ _ _ _ Hm ltac:(lia)) as (H1 & H2 & _). rewrite Hlen in H2.
  exists s', l. unfold process_arguments. rewrite Hbegin. cbn [mbind option_bind]. split; [exact Hf|]. split; [exact Herr|]. split; [exact Hsk|].
  split; [apply (no_block_left s' p); [done|right; exists blk; apply (la_desc _ _ _ _ Hlist)|done]|]. split; [exact H1|]. split; [exact H2|]. split; [|exact Hold].
  intros r cs j c x Hcs Hj Hx. by apply (ri_cell _ _ _ Hrows r cs j c x).
Qed.

End list.

End argument.

(** ** Examples *)

(** The arguments of SET key value, one of NX and XX, and EX seconds. *)
Definition set_arguments : gmap Z argument :=
  list_to_map [(1, Argument (bytes_of "key") ARGUMENT_TYPE_KEY 0 None [] true false false false false 16 0);
               (2, Argument (bytes_of "value") ARGUMENT_TYPE_LONG_STRING 0 None [] true false false false false 40 16);
               (3, Argument (bytes_of "condition") ARGUMENT_TYPE_ONEOF 0 None [4; 5] false true true false false 2 56);
               (4, Argument (bytes_of "nx") ARGUMENT_TYPE_BOOL 3 (Some (bytes_of "NX")) [] false true false false false 1 0);
               (5, Argument (bytes_of "xx") ARGUMENT_TYPE_BOOL 3 (Some (bytes_of "XX")) [] false true false false false 1 8);
               (6, Argument (bytes_of "seconds") ARGUMENT_TYPE_INTEGER 0 (Some (bytes_of "EX")) [] false true false false false 8 80)].
Definition set_tables : list command_info * list token_entry :=
  match module_redis_commands_build_commands_arguments_token_entries_hashtable set_arguments 4
          [Info (bytes_of "SET") true 100 [1; 2; 3; 6] 2 false None] with
  | Some (true, infos, entries) => (infos, entries)
  | _ => ([], [])
  end.
Definition set_info : command_info := default (example_info [] []) (head set_tables.1).
Definition example_config : config_module_redis := ModuleRedis 100 1000 100 true false None None.
Definition example_start : command_state Z := CommandState ∅ 1000 0 no_parser_context None false false.
Definition whole_text (l : list Z) : given := ([l], [13; 10]).
Definition set_given : list given :=
  [whole_text (bytes_of "key"); ([[104]; []; [105; 33]], [13; 10]); whole_text (bytes_of "nx"); whole_text (bytes_of "EX"); whole_text (bytes_of "10")].
Definition no_double (_ : list Z) (_ : bool) : option (Z * Z * bool) := None.

Lemma sits_path arguments p a l : p <> 0 -> arguments !! p = Some a -> path arguments 0 4 p = Some l -> Forall no_list l -> sits arguments p a (place l).
Proof. intros Hp Ha Hl Hn. split; [done|]. split; [done|]. by exists l. Qed.

Ltac sits := eapply sits_path; [by vm_compute|by vm_compute|by vm_compute|by repeat constructor].

Lemma set_described : described set_arguments set_info.
Proof.
  split; [by vm_compute|]. split; [|split; [|by vm_compute]].
  - intros p a Hp Ha. vm_compute in Hp. injection Hp as <-. vm_compute in Ha. by injection Ha as <-.
  - change (info_arguments set_info) with [1; 2; 3; 6]. repeat constructor; by eexists.
Qed.

Lemma arguments_stored_witness :
  exists s', process_arguments no_double set_arguments set_tables.2 set_info example_config 7 example_start set_given = Some s' /\
    error_message s' = None /\ cells s' !! 1000 = Some (CellString (bytes_of "key")) /\ cells s' !! 1056 = Some (CellBool true) /\
    cells s' !! 1088 = Some (CellInteger 10).
Proof.
  edestruct (arguments_stored no_double set_arguments set_tables.2 set_info example_config 7 example_start set_given) as (s' & Hp & _ & Hc & He & _).
  - exact set_described.
  - by vm_compute.
  - by repeat split.
  - eapply reads_positional; [sits|done|done|split; [reflexivity|by vm_compute]|by vm_compute|].
    eapply reads_positional; [sits|done|done| |by vm_compute|].
    { do 3 eexists. split; [reflexivity|]. split; [|by vm_compute]. apply (StorageDbChunks.stores_one [104; 105; 33]). by vm_compute. }
    apply reads_all_options; [right; left; by vm_compute|].
    eapply reads_flag; [by vm_compute|sits|done|done| |].
    { intros _. split; [|do 2 eexists; split; [sits|]; split; [done|left; by vm_compute]].
      constructor; [|constructor]. eexists. split; [by vm_compute|]. do 2 eexists. split; [sits|]. split; [done|left; by vm_compute]. }
    eapply reads_value; [by vm_compute|sits|done|done|done| | |].
    { intros _. split; [constructor|]. do 2 eexists. split; [sits|]. split; [done|left; by vm_compute]. }
    { eexists. split; [reflexivity|by vm_compute]. }
    apply reads_nothing.
  - exists s'. split; [exact Hp|]. split; [exact He|]. rewrite Hc. split; [|split]; vm_compute; reflexivity.
Defined.

(** The arguments of MSET key value [key value ...]. *)
Definition pair_argument : argument := Argument (bytes_of "key_value") ARGUMENT_TYPE_BLOCK 0 None [2; 3] true false true true false 56 0.
Definition pair_key : argument := Argument (bytes_of "key") ARGUMENT_TYPE_KEY 1 None [] true false false false false 16 0.
Definition pair_value : argument := Argument (bytes_of "value") ARGUMENT_TYPE_LONG_STRING 1 None [] true false false false false 40 16.
Definition mset_arguments : gmap Z argument := list_to_map [(1, pair_argument); (2, pair_key); (3, pair_value)].
Definition mset_info : command_info := Info (bytes_of "MSET") true 16 [1] 1 false None.
Definition mset_slots : list slot := [Slot 2 pair_key 0; Slot 3 pair_value 16].
Definition mset_given : list (list given) :=
  [[whole_text [97]; whole_text [49]]; [whole_text [98]; ([[50]; [51]], [13; 10])]].
Definition mset_cells : list (list (cell Z)) :=
  [[CellString [97]; CellLong (LongString (StorageDb.ChunkSequence 1 (Some [[49]]) 1) 1 0)];
   [CellString [98]; CellLong (LongString (StorageDb.ChunkSequence 1 (Some [[50; 51]]) 2) 1 0)]].

Lemma mset_list : list_argument mset_arguments 1 pair_argument 0 mset_slots.
Proof.
  split; try done; try (by vm_compute).
  - constructor; [|constructor; [|constructor]]; (split; [done|]; split; [by vm_compute|]; split; [done|]); exists [].
    + exists [pair_key]. split; [by vm_compute|]. split; [by vm_compute|]. repeat split; cbn; try lia; by repeat constructor.
    + exists [pair_value]. split; [by vm_compute|]. split; [by vm_compute|]. repeat split; cbn; try lia; by repeat constructor.
  - repeat constructor; by vm_compute.
  - apply (bool_decide_unpack _). by vm_compute.
Qed.

Lemma mset_described : described mset_arguments mset_info.
Proof.
  split; [by vm_compute|]. split; [|split; [|by vm_compute]].
  - intros p a Hp Ha. vm_compute in Hp. injection Hp as <-. vm_compute in Ha. by injection Ha as <-.
  - repeat constructor. by eexists.
Qed.

Lemma list_arguments_collected_witness :
  exists s' l, process_arguments no_double mset_arguments [] mset_info example_config 7 example_start (concat mset_given) = Some s' /\
    error_message s' = None /\ cells s' !! 1000 = Some (CellPointer l) /\ cells s' !! 1008 = Some (CellCount 2) /\
    cells s' !! (l + 56) = Some (CellString [98]).
Proof.
  destruct (list_arguments_collected no_double mset_arguments [] mset_info example_config 7 1 pair_argument 0 mset_slots 1000 1016
    mset_described mset_list example_start mset_given mset_cells) as (s' & l & Hp & He & _ & _ & H1 & H2 & H3 & _).
  - done.
  - by repeat split.
  - done.
  - done.
  - by vm_compute.
  - done.
  - done.
  - intros y _. apply lookup_empty.
  - apply Forall2_cons; split; [|apply Forall2_cons; split; [|by apply Forall2_nil]]; (apply Forall3_cons; [|apply Forall3_cons; [|apply Forall3_nil]]).
    all: split; [|done]. 1, 3: by split. all: do 3 eexists; (split; [reflexivity|]); split; [|by vm_compute].
    + by apply (StorageDbChunks.stores_one [49]).
    + by apply (StorageDbChunks.stores_one [50; 51]).
  - done.
  - exists s', l. split; [exact Hp|]. split; [exact He|]. split; [exact H1|]. split; [exact H2|].
    replace (l + 56) with (l + Z.of_nat 1 * argument_context_member_size pair_argument + sl_offset (Slot 2 pair_key 0)) by (cbn; lia).
    exact (H3 1%nat _ 0%nat (CellString [98]) (Slot 2 pair_key 0) eq_refl eq_refl eq_refl).
Defined.

End RedisArgumentsSpec.
