(* ===== verification/RedisConnection.v ===== *)
(** * RedisConnection: the connection of a client

    module/redis/module_redis_connection.c and the authentication helper: what a
    connection sends, the commands read from its buffer and the loop that
    receives.  It puts together the buffers of the channel (Network.v), the
    reader and the writer of the protocol (RedisReader.v, RedisWriter.v), the
    tables of the commands (RedisInfo.v) and the parser of the arguments
    (RedisArguments.v).  What a command does when all its arguments are there is
    a parameter.  Allocations succeed; a failed assert, a NULL dereference and
    an access outside a buffer are [None]. *)

From Stdlib Require Import String.
From stdpp Require Import gmap.
From S2P Require Import Prelude Memory Decimal HashtableSpsc Network RedisInfo RedisWriter RedisReader Config ConfigLoad RedisArguments.

Module RedisConnection.
Import Memory Decimal HashtableSpsc RedisInfo RedisArguments.
Import Network(net, Transport, network_channel_buffer, Buffer, channel, with_channel, with_send, NETWORK_CHANNEL_MAX_PACKET_SIZE,
  NETWORK_CHANNEL_RECV_BUFFER_SIZE, network_op_result(..)).
Import RedisReader(reader_context, reader_op(..), reader_state(..), reader_error(..), op_data_read_len).
Import ConfigLoad(config_module_redis, max_command_length, max_command_arguments, require_authentication, username, password).

Inductive protocol_redis_resp_version := PROTOCOL_REDIS_RESP_VERSION_2 | PROTOCOL_REDIS_RESP_VERSION_3.

#[export] Instance protocol_redis_resp_version_eq_dec : EqDecision protocol_redis_resp_version.
Proof. solve_decision. Defined.

(** What is the same for all the connections: the commands, known by their
    position from 1, and the tables built at the start. *)
Record server := Server {
  infos : list command_info;
  arguments : gmap Z argument;
  entries : list token_entry;
  module_redis_commands_hashtable : hashtable_spsc;
  module_redis_disabled_commands_hashtable : option hashtable_spsc;
  config : config_module_redis
}.

(** The context of a connection.  [command] has the fields of the structure of
    the same name that the parser of the arguments works on, with the error
    message; [application] is what the commands work on. *)
Record connection (W D A : Type) := Connection {
  resp_version : protocol_redis_resp_version;
  authenticated : bool;
  reader : reader_context;
  network : net W;
  read_buffer : network_channel_buffer;
  command : command_state D;
  current_argument_token_data_offset : Z;
  terminate_connection : bool;
  data_length : Z;
  info : Z;
  arguments_offset : Z;
  command_string_with_container : option mem;
  command_string_with_container_length : Z;
  application : A
}.
Arguments Connection {W D A} _ _ _ _ _ _ _ _ _ _ _ _ _ _.
Arguments resp_version {W D A} _.
Arguments authenticated {W D A} _.
Arguments reader {W D A} _.
Arguments network {W D A} _.
Arguments read_buffer {W D A} _.
Arguments command {W D A} _.
Arguments current_argument_token_data_offset {W D A} _.
Arguments terminate_connection {W D A} _.
Arguments data_length {W D A} _.
Arguments info {W D A} _.
Arguments arguments_offset {W D A} _.
Arguments command_string_with_container {W D A} _.
Arguments command_string_with_container_length {W D A} _.
Arguments application {W D A} _.

#[local] Existing Instances RedisReader.reader_error_eq_dec RedisReader.reader_state_eq_dec Network.network_op_result_eq_dec.

Section connection.
Context {W D A : Type} `{Transport W}.
Implicit Types (c : connection W D A).

Definition with_authenticated c b : connection W D A :=
  Connection (resp_version c) b (reader c) (network c) (read_buffer c) (command c) (current_argument_token_data_offset c) (terminate_connection c)
    (data_length c) (info c) (arguments_offset c) (command_string_with_container c) (command_string_with_container_length c) (application c).
Definition with_reader c r : connection W D A :=
  Connection (resp_version c) (authenticated c) r (network c) (read_buffer c) (command c) (current_argument_token_data_offset c) (terminate_connection c)
    (data_length c) (info c) (arguments_offset c) (command_string_with_container c) (command_string_with_container_length c) (application c).
Definition with_network c n : connection W D A :=
  Connection (resp_version c) (authenticated c) (reader c) n (read_buffer c) (command c) (current_argument_token_data_offset c) (terminate_connection c)
    (data_length c) (info c) (arguments_offset c) (command_string_with_container c) (command_string_with_container_length c) (application c).
Definition with_read_buffer c b : connection W D A :=
  Connection (resp_version c) (authenticated c) (reader c) (network c) b (command c) (current_argument_token_data_offset c) (terminate_connection c)
    (data_length c) (info c) (arguments_offset c) (command_string_with_container c) (command_string_with_container_length c) (application c).
Definition with_command c s : connection W D A :=
  Connection (resp_version c) (authenticated c) (reader c) (network c) (read_buffer c) s (current_argument_token_data_offset c) (terminate_connection c)
    (data_length c) (info c) (arguments_offset c) (command_string_with_container c) (command_string_with_container_length c) (application c).
Definition with_data_offset c o : connection W D A :=
  Connection (resp_version c) (authenticated c) (reader c) (network c) (read_buffer c) (command c) o (terminate_connection c)
    (data_length c) (info c) (arguments_offset c) (command_string_with_container c) (command_string_with_container_length c) (application c).
Definition with_terminate c b : connection W D A :=
  Connection (resp_version c) (authenticated c) (reader c) (network c) (read_buffer c) (command c) (current_argument_token_data_offset c) b
    (data_length c) (info c) (arguments_offset c) (command_string_with_container c) (command_string_with_container_length c) (application c).
Definition with_data_length c l : connection W D A :=
  Connection (resp_version c) (authenticated c) (reader c) (network c) (read_buffer c) (command c) (current_argument_token_data_offset c) (terminate_connection c)
    l (info c) (arguments_offset c) (command_string_with_container c) (command_string_with_container_length c) (application c).
Definition with_info c i : connection W D A :=
  Connection (resp_version c) (authenticated c) (reader c) (network c) (read_buffer c) (command c) (current_argument_token_data_offset c) (terminate_connection c)
    (data_length c) i (arguments_offset c) (command_string_with_container c) (command_string_with_container_length c) (application c).
Definition with_container c o s l : connection W D A :=
  Connection (resp_version c) (authenticated c) (reader c) (network c) (read_buffer c) (command c) (current_argument_token_data_offset c) (terminate_connection c)
    (data_length c) (info c) o s l (application c).

Definition no_command : command_state D := CommandState ∅ 1 0 no_parser_context None false false.

Definition module_redis_connection_context_init (n : net W) (a : A) : connection W D A :=
  Connection PROTOCOL_REDIS_RESP_VERSION_2 false RedisReader.reader_context_reset n
    (Buffer (replicate (Z.to_nat NETWORK_CHANNEL_RECV_BUFFER_SIZE) 0) 0 0 NETWORK_CHANNEL_RECV_BUFFER_SIZE) no_command 0 false 0 0 0 None 0 a.

Definition reset_command (s : command_state D) : command_state D :=
  CommandState (cells s) (next_address s) 0 no_parser_context None false (erange s).

Definition module_redis_connection_context_reset c : connection W D A :=
  Connection (resp_version c) (authenticated c) RedisReader.reader_context_reset (network c) (read_buffer c) (reset_command (command c))
    (current_argument_token_data_offset c) false 0 0 0 None 0 (application c).

(** ** Errors *)

(** A string ends at its first NUL. *)
Fixpoint until_nul (l : list Z) : list Z :=
  match l with
  | [] => []
  | x :: l => if x =? 0 then [] else x :: until_nul l
  end.

Definition set_message (s : command_state D) (m : option (list Z)) (sk : bool) : command_state D :=
  CommandState (cells s) (next_address s) (context s) (parser s) m sk (erange s).

(** vsnprintf never fails and gives at least a byte. *)
Definition module_redis_connection_error_message_vprintf_internal c (override_previous_error : bool) (message : list Z)
    : option (connection W D A) :=
  _ ← check (override_previous_error || bool_decide (error_message (command c) = None));
  Some (with_command c (set_message (command c) (Some message) true)).

(** The one of RedisArguments.v, on the context of the connection. *)
Definition error_noncritical c (message : list Z) : option (connection W D A) :=
  s ← module_redis_connection_error_message_printf_noncritical (command c) message;
  Some (with_command c s).
Definition module_redis_connection_error_message_printf_critical c (message : list Z) : option (connection W D A) :=
  c ← module_redis_connection_error_message_vprintf_internal c true message;
  Some (with_terminate c true).

Definition module_redis_connection_reader_has_error c : bool := bool_decide (RedisReader.error (reader c) <> ERROR_OK).

Definition reader_error_number (e : reader_error) : Z :=
  match e with
  | ERROR_OK => 0
  | ERROR_NO_DATA => 1
  | ERROR_INLINE_PROTOCOL_NOT_SUPPORTED => 2
  | ERROR_ARGS_ARRAY_INVALID_LENGTH => 3
  | ERROR_ARGS_INLINE_UNBALANCED_QUOTES => 4
  | ERROR_COMMAND_ALREADY_PARSED => 5
  | ERROR_ARGS_BLOB_STRING_EXPECTED => 6
  | ERROR_ARGS_BLOB_STRING_INVALID_LENGTH => 7
  | ERROR_ARGS_BLOB_STRING_MISSING_END_SIGNATURE => 8
  end.

Definition module_redis_connection_set_error_message_from_reader c : option (connection W D A) :=
  module_redis_connection_error_message_printf_critical c
    (bytes_of "ERR parsing error '" ++ dec (reader_error_number (RedisReader.error (reader c))) ++ bytes_of "'").

Definition module_redis_connection_should_terminate_connection c : bool := terminate_connection c.
Definition module_redis_connection_has_error c : bool := bool_decide (error_message (command c) <> None).

(** ** Sending *)

(** The slice acquired, what a writer writes in it, the slice released; the
    result is whether the slice was acquired, then whether the writer had
    enough room. *)
Definition send_slice (retries : nat) c (slice_length : Z) (w : RedisWriter.writer) : option (connection W D A * bool * bool) :=
  '(n, pos) ← Network.network_send_buffer_acquire_slice retries (network c) slice_length;
  match pos with
  | None => Some (with_network c n, false, false)
  | Some pos =>
      let b := Network.send (channel n) in
      r ← w (Network.data b) pos slice_length;
      let '(d, used, written) := match r with Some (d, e) => (d, e - pos, true) | None => (Network.data b, 0, false) end in
      let n := with_channel n (with_send (channel n) (Buffer d (Network.data_offset b) (Network.data_size b) (Network.length b))) in
      n ← Network.network_send_buffer_release_slice n used;
      Some (with_network c n, true, written)
  end.

Definition sends (r : connection W D A * bool * bool) : connection W D A * bool := let '(c, acquired, written) := r in (c, acquired && written).

Definition module_redis_connection_send_number (retries : nat) c (number : Z) : option (connection W D A * bool) :=
  sends <$> send_slice retries c 48 (RedisWriter.write_number number).
Definition module_redis_connection_send_array_header (retries : nat) c (array_length : Z) : option (connection W D A * bool) :=
  sends <$> send_slice retries c 32 (RedisWriter.write_array array_length).
Definition module_redis_connection_send_ok (retries : nat) c : option (connection W D A * bool) :=
  sends <$> send_slice retries c 32 (RedisWriter.write_simple_string (bytes_of "OK") 2).

(** strlen and the writer read the message up to its NUL; it is freed unless
    the slice was not acquired. *)
Definition module_redis_connection_send_error (retries : nat) c : option (connection W D A * bool) :=
  m ← error_message (command c);
  let error_message_length := zlen m in
  '(c, acquired, written) ← send_slice retries c (error_message_length + 16) (RedisWriter.write_simple_error m error_message_length);
  if negb acquired then Some (c, false) else
  Some (with_command c (set_message (command c) None (skip (command c))), written).

(** The result does not depend on the writer. *)
Definition module_redis_connection_send_string_null (retries : nat) c : option (connection W D A * bool) :=
  '(c, acquired, _) ← send_slice retries c 16
    (if decide (resp_version c = PROTOCOL_REDIS_RESP_VERSION_2) then RedisWriter.write_blob_string_null else RedisWriter.write_null);
  Some (c, acquired).
Definition module_redis_connection_send_array (retries : nat) c (count : Z) : option (connection W D A * bool) :=
  '(c, acquired, _) ← send_slice retries c 32 (RedisWriter.write_array count);
  Some (c, acquired).

(** The slice stays acquired when the start of the string is written. *)
Definition module_redis_command_acquire_slice_and_write_blob_start (retries : nat) (n : net W) (slice_length value_length : Z)
    : option (net W * bool) :=
  '(n, pos) ← Network.network_send_buffer_acquire_slice retries n slice_length;
  match pos with
  | None => Some (n, false)
  | Some pos =>
      let b := Network.send (channel n) in
      r ← RedisWriter.write_argument_blob_start false value_length (Network.data b) pos slice_length;
      match r with
      | None => n ← Network.network_send_buffer_release_slice n 0; Some (n, false)
      | Some (d, _) =>
          Some (with_channel n (with_send (channel n) (Buffer d (Network.data_offset b) (Network.data_size b) (Network.length b))), true)
      end
  end.

Fixpoint send_string_chunks (fuel retries : nat) (n : net W) (string : list Z) : option (net W * bool) :=
  if zlen string =? 0 then Some (n, true) else
  match fuel with
  | O => None
  | S fuel =>
      let k := Z.to_nat (Z.min (zlen string) NETWORK_CHANNEL_MAX_PACKET_SIZE) in
      '(n, res) ← Network.network_send_direct retries n (take k string);
      if decide (res <> NETWORK_OP_RESULT_OK) then Some (n, false) else send_string_chunks fuel retries n (drop k string)
  end.

Definition module_redis_connection_send_blob_string (retries : nat) c (string : list Z) : option (connection W D A * bool) :=
  if zlen string <? NETWORK_CHANNEL_MAX_PACKET_SIZE - 32 then
    sends <$> send_slice retries c (32 + zlen string) (RedisWriter.write_blob_string string (zlen string))
  else
    '(n, ok) ← module_redis_command_acquire_slice_and_write_blob_start retries (network c) 32 (zlen string);
    if negb ok then Some (with_network c n, false) else
    '(n, ok) ← send_string_chunks (List.length string) retries n string;
    if negb ok then Some (with_network c n, false) else
    sends <$> send_slice retries (with_network c n) 32 RedisWriter.write_argument_blob_end.

Definition module_redis_connection_send_simple_string (retries : nat) c (string : list Z) : option (connection W D A * bool) :=
  if NETWORK_CHANNEL_MAX_PACKET_SIZE - 32 <? zlen string then Some (c, false) else
  sends <$> send_slice retries c (32 + zlen string) (RedisWriter.write_simple_string string (zlen string)).

Definition module_redis_connection_flush_and_close (retries : nat) c : option (connection W D A * bool) :=
  '(n, res) ← Network.network_flush_send_buffer retries (network c);
  if decide (res <> NETWORK_OP_RESULT_OK) then Some (with_network c n, false) else
  '(n, res) ← Network.network_close n true;
  Some (with_network c n, bool_decide (res = NETWORK_OP_RESULT_OK)).

(** ** Authentication *)

Context (srv : server).

(** strncmp of a string of the configuration with [len] bytes of the client. *)
Definition strncmp_eq (s : option (list Z)) (client : list Z) (len : Z) : option bool :=
  if len =? 0 then Some true else s ← s; strn_eq id (s ++ [0]) client (Z.to_nat len).

Definition module_redis_connection_authenticate c (client_username : list Z) (client_username_len : Z) (client_password : list Z)
    (client_password_len : Z) : option (connection W D A * bool) :=
  let config_username := match username (config srv) with None => bytes_of "default" | Some u => u end in
  same ← strncmp_eq (Some config_username) client_username client_username_len;
  if negb same then Some (c, false) else
  same ← strncmp_eq (password (config srv)) client_password client_password_len;
  if negb same then Some (c, false) else
  Some (with_authenticated c true, true).

Definition module_redis_connection_requires_authentication : bool := require_authentication (config srv).
Definition module_redis_connection_is_authenticated c : bool := negb (require_authentication (config srv)) || authenticated c.

Definition auth_error c (message : list Z) : option (connection W D A) :=
  c ← error_noncritical c message;
  Some (with_terminate c true).
Definition module_redis_command_helper_auth_error_failed c : option (connection W D A) :=
  auth_error c (bytes_of "AUTH failed: WRONGPASS invalid username-password pair or user is disabled.").
Definition module_redis_command_helper_auth_error_already_authenticated c : option (connection W D A) :=
  auth_error c (bytes_of "AUTH failed: already authenticated.").
Definition module_redis_command_helper_auth_error_not_authenticated c : option (connection W D A) :=
  auth_error c (bytes_of "NOAUTH Authentication required.").

Definition module_redis_command_helper_auth_client_trying_to_reauthenticate c : option (connection W D A * bool) :=
  if module_redis_connection_requires_authentication && module_redis_connection_is_authenticated c
  then c ← module_redis_command_helper_auth_error_already_authenticated c; Some (c, false) else Some (c, true).

(** [None] as a parameter is NULL; the first one is always there. *)
Definition module_redis_command_helper_auth_try_positional_parameters c (parameter_position_1 : list Z)
    (parameter_position_2 : option (list Z)) : option (connection W D A * bool) :=
  '(c, go_on) ← module_redis_command_helper_auth_client_trying_to_reauthenticate c;
  if negb go_on then Some (c, false) else
  let '(client_username, client_username_len, client_password) :=
    match parameter_position_2 with
    | Some p2 => (parameter_position_1, zlen parameter_position_1, p2)
    | None => (bytes_of "default", 0, parameter_position_1)
    end in
  '(c, ok) ← module_redis_connection_authenticate c client_username client_username_len client_password (zlen client_password);
  if negb ok then c ← module_redis_command_helper_auth_error_failed c; Some (c, false) else Some (c, true).

(** The command AUTH, whose arguments are in its context. *)
Definition auth (retries : nat) c (password_value : list Z) (username_value : option (list Z)) : option (connection W D A * bool) :=
  '(c, ok) ← module_redis_command_helper_auth_try_positional_parameters c password_value username_value;
  if negb ok then Some (c, true) else module_redis_connection_send_ok retries c.

(** ** Reading commands *)

Context (strtold : list Z -> bool -> option (D * Z * bool)) (fill : Z) (retries : nat).
(** What a command does at its end, with whether it could answer, and what
    freeing its arguments does, by the position of the command. *)
Context (command_end : Z -> connection W D A -> option (connection W D A * bool)).
Context (command_free : Z -> connection W D A -> connection W D A).

Definition module_redis_connection_command_too_long c : bool := max_command_length (config srv) <? data_length c.

Definition current_info c : option command_info := zget (infos srv) (info c - 1).

Definition module_redis_command_process_end c : option (connection W D A * bool) :=
  e ← (if expected_argument (parser (command c)) =? 0 then Some None
       else i ← current_info c; process_end_error (arguments srv) i (command c));
  match e with
  | Some message => c ← error_noncritical c message; Some (c, true)
  | None => _ ← current_info c; command_end (info c) c
  end.

Definition module_redis_command_process_free c : connection W D A :=
  let c := command_free (info c) c in
  let s := command c in
  with_command c (CommandState (cells s) (next_address s) 0 (parser s) (error_message s) (skip s) (erange s)).
Definition module_redis_command_process_try_free c : connection W D A :=
  if (info c =? 0) || (context (command c) =? 0) then c else module_redis_command_process_free c.

(** The index of the argument of an operation. *)
Definition op_index (o : reader_op) : option Z :=
  match o with
  | OP_ARGUMENT_BEGIN _ i _ | OP_ARGUMENT_DATA _ i _ _ _ | OP_ARGUMENT_END _ i _ _ => Some i
  | _ => None
  end.

Definition is_end (o : reader_op) : bool := match o with OP_ARGUMENT_END _ _ _ _ => true | _ => false end.

(** What follows an operation: the next one, the end of the loop on them, the
    end of the function with its result. *)
Inductive verdict := Go_on | Leave_loop | Leave (return_result : bool).

(** The data are left in the buffer, for when there is more of them. *)
Definition roll_back c (o : reader_op) : connection W D A :=
  let r := reader c in
  let c := with_reader c (RedisReader.Ctx STATE_RESP_WAITING_ARGUMENT_DATA (RedisReader.protocol r) (RedisReader.error r) (RedisReader.count r)
    (RedisReader.current_index r) (RedisReader.current_beginning r) (RedisReader.current_length r) 0) in
  let b := read_buffer c in
  with_read_buffer c (Buffer (Network.data b) (u64 (Network.data_offset b - op_data_read_len o)) (u64 (Network.data_size b + op_data_read_len o)) (Network.length b)).

(** strncpy of at most [n] bytes, padded with NUL after the end of the source. *)
Definition strncpy_bytes (data : list Z) (n : Z) : option (list Z) :=
  let s := until_nul (take (Z.to_nat n) data) in
  _ ← check (n <=? zlen data);
  Some (s ++ replicate (Z.to_nat n - List.length s) 0).

Definition i32 (z : Z) : Z := (z + 2 ^ 31) `mod` 2 ^ 32 - 2 ^ 31.

(** reader_context.arguments.count - 1 - arguments_offset *)
Definition given_arguments c : Z := u32 (RedisReader.count (reader c) - 1 - arguments_offset c).

Definition unknown_command (name : list Z) (name_length : Z) (n : Z) : list Z :=
  bytes_of "ERR unknown command `" ++ until_nul (take (Z.to_nat name_length) name) ++ bytes_of "` with `" ++ dec_signed (i32 n) ++ bytes_of "` args".
Definition disabled_command (name : list Z) (name_length : Z) : list Z :=
  bytes_of "ERR command `" ++ until_nul (take (Z.to_nat name_length) name) ++ bytes_of "` is disabled".
Definition too_many_arguments (i : command_info) (n : Z) : list Z :=
  bytes_of "ERR command '" ++ info_string i ++ bytes_of "' has '" ++ dec n ++ bytes_of "' arguments but only '" ++
  dec (max_command_arguments (config srv)) ++ bytes_of "' allowed".

(** The name of a command that follows the one of its container is appended to
    it. *)
Definition append_to_container c (command_data : list Z) (command_length : Z) : option (connection W D A * list Z * Z) :=
  match command_string_with_container c with
  | None => Some (c, command_data, command_length)
  | Some m =>
      let l := command_string_with_container_length c in
      bs ← strncpy_bytes command_data (Z.min command_length MODULE_REDIS_COMMAND_MAX_LENGTH);
      m ← memcpy m l bs;
      m ← Memory.store m (l + command_length) 0;
      Some (with_container c (arguments_offset c) (Some m) l, m, l + command_length)
  end.

(** The room for the name of the container, a space and a name. *)
Definition start_container c (command_data : list Z) (command_length : Z) : option (connection W D A) :=
  let current_length := command_string_with_container_length c in
  let l := current_length + (command_length + 1) in
  let old := default [] (command_string_with_container c) in
  let size := l + MODULE_REDIS_COMMAND_MAX_LENGTH + 1 in
  let m := take (Z.to_nat size) (old ++ replicate (Z.to_nat size - List.length old) fill) in
  bs ← strncpy_bytes command_data command_length;
  m ← memcpy m current_length bs;
  m ← Memory.store m (current_length + command_length) 32;
  Some (with_container (with_info c 0) (u32 (arguments_offset c + 1)) (Some m) l).

(** The end of the first argument, or of the one after the name of a container:
    the command is looked for. *)
Definition find_command c (command_data : list Z) (command_length : Z) : option (connection W D A) :=
  '(c, name, name_length) ← append_to_container c command_data command_length;
  z ← hashtable_spsc_op_get_ci (module_redis_commands_hashtable srv) name name_length;
  let c := with_info c z in
  if z =? 0 then error_noncritical c (unknown_command name name_length (given_arguments c)) else
  i ← current_info c;
  disabled ← module_redis_commands_is_command_disabled (module_redis_disabled_commands_hashtable srv) (info_string i) (zlen (info_string i));
  if disabled : bool then error_noncritical c (disabled_command name name_length) else
  if requires_authentication i && negb (module_redis_connection_is_authenticated c) then
    module_redis_command_helper_auth_error_not_authenticated (with_info c 0)
  else if is_container i then start_container c command_data command_length
  else if given_arguments c <? required_arguments_count i then error_noncritical c (wrong_number_of_arguments i)
  else if max_command_arguments (config srv) <? given_arguments c then error_noncritical c (too_many_arguments i (given_arguments c))
  else
    s ← module_redis_command_process_begin (arguments srv) i (command c);
    Some (with_command c s).

(** The memory from an offset of the data given to the reader on. *)
Definition data_at (read_start : list Z) (offset : Z) : list Z := drop (Z.to_nat offset) read_start.

(** The operations of the arguments after the name: the callbacks return
    true. *)
Definition argument_op c (read_start : list Z) (followed_by_end : bool) (o : reader_op) : option (connection W D A * verdict) :=
  i ← current_info c;
  match o with
  | OP_ARGUMENT_BEGIN _ _ length =>
      s ← module_redis_command_process_argument_begin (arguments srv) (config srv) fill (command c) (u32 length);
      Some (with_command c s, Go_on)
  | OP_ARGUMENT_DATA _ _ _ offset data_length =>
      if require_stream (parser (command c)) then
        s ← module_redis_command_process_argument_stream_data (arguments srv) (command c) (take (Z.to_nat data_length) (data_at read_start offset));
        Some (with_command c s, Go_on)
      else if negb followed_by_end then Some (roll_back c o, Leave true)
      else Some (with_data_offset c offset, Go_on)
  | OP_ARGUMENT_END _ _ length _ =>
      s ← (if require_stream (parser (command c)) then Some (command c)
           else module_redis_command_process_argument_full strtold (arguments srv) (entries srv) i (config srv) (command c)
                  (data_at read_start (current_argument_token_data_offset c)) length);
      s ← module_redis_command_process_argument_end (arguments srv) i s;
      Some (with_command c s, Go_on)
  | _ => None
  end.

(** The bytes of an operation leave the buffer. *)
Definition consume c (o : reader_op) : connection W D A :=
  let b := read_buffer c in
  let n := op_data_read_len o in
  with_data_length (with_read_buffer c (Buffer (Network.data b) (u64 (Network.data_offset b + n)) (u64 (Network.data_size b - n)) (Network.length b)))
    (u64 (data_length c + n)).

Definition process_op c (read_start : list Z) (o : reader_op) (next : option reader_op) : option (connection W D A * verdict) :=
  let c := consume c o in
  if module_redis_connection_command_too_long c then
    c ← module_redis_connection_error_message_printf_critical c
          (bytes_of "ERR the command length has exceeded '" ++ dec (max_command_length (config srv)) ++ bytes_of "' bytes");
    Some (c, Leave_loop)
  else if skip (command c) then Some (c, Go_on) else
  let followed_by_end := match next with Some o => is_end o | None => false end in
  match op_index o with
  | Some index =>
      if u32 (index - arguments_offset c) =? 0 then
        match o with
        | OP_ARGUMENT_DATA _ _ _ offset _ =>
            if negb followed_by_end then Some (roll_back c o, Leave true) else Some (with_data_offset c offset, Go_on)
        | OP_ARGUMENT_END _ _ length _ =>
            c ← find_command c (data_at read_start (current_argument_token_data_offset c)) length;
            Some (c, Go_on)
        | _ => Some (c, Go_on)
        end
      else if 0 <? index - arguments_offset c then argument_op c read_start followed_by_end o
      else Some (c, Go_on)
  | None =>
      match o with
      | OP_COMMAND_END _ _ =>
          '(c, ok) ← module_redis_command_process_end c;
          Some (c, if ok : bool then Go_on else Leave false)
      | _ => Some (c, Go_on)
      end
  end.

Fixpoint process_ops c (read_start : list Z) (os : list reader_op) : option (connection W D A * verdict) :=
  match os with
  | [] => Some (c, Go_on)
  | o :: os =>
      '(c, v) ← process_op c read_start o (head os);
      match v with Go_on => process_ops c read_start os | _ => Some (c, v) end
  end.

(** The inner do/while: the number of operations found, -1 for an error of the
    reader, and whether the function ends. *)
Fixpoint read_loop (fuel : nat) c : option (connection W D A * Z * verdict) :=
  match fuel with
  | O => None
  | S fuel =>
      let b := read_buffer c in
      let read_start := drop (Z.to_nat (Network.data_offset b)) (Network.data b) in
      '(r, os) ← RedisReader.reader_read (take (Z.to_nat (Network.data_size b)) read_start) (reader c);
      let c := with_reader c r in
      if module_redis_connection_reader_has_error c then
        _ ← check (bool_decide (os = None));
        c ← module_redis_connection_set_error_message_from_reader c;
        Some (c, -1, Go_on)
      else
        os ← os;
        if bool_decide (os = []) then Some (c, 0, Go_on) else
        '(c, v) ← process_ops c read_start os;
        match v with
        | Leave b => Some (c, zlen os, Leave b)
        | _ =>
            if (0 <? Network.data_size (read_buffer c)) && bool_decide (RedisReader.state (reader c) <> STATE_COMMAND_PARSED) &&
               bool_decide (RedisReader.error (reader c) <> ERROR_OK)
            then read_loop fuel c else Some (c, zlen os, Go_on)
        end
  end.

(** The errors sent, the connection closed, the context reset: whether the
    function ends there with false. *)
Definition after_read c : option (connection W D A * bool) :=
  '(c, ok) ← (if module_redis_connection_has_error c then module_redis_connection_send_error retries c else Some (c, true));
  if negb ok then Some (c, true) else
  if module_redis_connection_should_terminate_connection c then
    '(c, _) ← module_redis_connection_flush_and_close retries c; Some (c, true)
  else if bool_decide (RedisReader.state (reader c) = STATE_COMMAND_PARSED)
  then Some (module_redis_connection_context_reset (module_redis_command_process_try_free c), false)
  else Some (c, false).

Fixpoint process_loop (fuel : nat) c : option (connection W D A * bool) :=
  match fuel with
  | O => None
  | S fuel =>
      '(c, ops_found, v) ← read_loop 2 c;
      match v with
      | Leave b => Some (c, b)
      | _ =>
          '(c, ends) ← after_read c;
          if ends : bool then Some (c, false) else
          if (0 <? Network.data_size (read_buffer c)) && (0 <? ops_found) then process_loop fuel c else Some (c, true)
      end
  end.

Definition module_redis_connection_process_data (fuel : nat) c : option (connection W D A * bool) :=
  _ ← check (0 <? Network.data_size (read_buffer c));
  '(c, return_result) ← process_loop fuel c;
  if return_result && Network.network_should_flush_send_buffer (network c) then
    '(n, res) ← Network.network_flush_send_buffer retries (network c);
    Some (with_network c n, bool_decide (res = NETWORK_OP_RESULT_OK))
  else Some (c, return_result).

(** ** The loop of a connection

    The fuel bounds the packets received; an iteration of the inner fuel
    consumes a byte or ends the data of an argument. *)
Definition accept_step (fuel : nat) c : option (connection W D A * bool) :=
  if negb (Network.network_buffer_has_enough_space (read_buffer c) NETWORK_CHANNEL_MAX_PACKET_SIZE) then
    c ← module_redis_connection_error_message_printf_critical c (bytes_of "ERR command too long");
    '(c, _) ← module_redis_connection_send_error retries c;
    Some (c, true)
  else
    b ← (if Network.network_buffer_needs_rewind (read_buffer c) NETWORK_CHANNEL_MAX_PACKET_SIZE
         then Network.network_buffer_rewind (read_buffer c) else Some (read_buffer c));
    '(n, b, res) ← Network.network_receive retries (network c) b NETWORK_CHANNEL_MAX_PACKET_SIZE;
    let c := with_read_buffer (with_network c n) b in
    if decide (res <> NETWORK_OP_RESULT_OK) then Some (c, true) else
    '(c, go_on) ← module_redis_connection_process_data fuel c;
    Some (c, negb go_on).

Fixpoint accept_loop (packets fuel : nat) c : option (connection W D A) :=
  match packets with
  | O => None
  | S packets =>
      '(c, exit_loop) ← accept_step fuel c;
      if exit_loop : bool then Some c else accept_loop packets fuel c
  end.

Definition module_redis_connection_accept (packets fuel : nat) (n : net W) (a : A) : option (connection W D A) :=
  c ← accept_loop packets fuel (module_redis_connection_context_init n a);
  Some (module_redis_connection_context_reset (module_redis_command_process_try_free c)).

End connection.

End RedisConnection.
