(* ===== verification/RedisConnectionSpec.v ===== *)
(** * RedisConnectionSpec: what a connection promises

    The theorems on RedisConnection.v, for any transport behind the channel and
    any commands that keep to their interface: what is sent, what authenticates
    a client, and that no command that needs it runs before. *)

From Stdlib Require Import String.
From stdpp Require Import gmap.
From S2P Require Import Prelude Memory Decimal HashtableSpsc Network RedisInfo RedisWriter RedisReader Config ConfigLoad RedisArguments RedisConnection.

Module RedisConnectionSpec.
Import Memory Decimal HashtableSpsc RedisInfo RedisArguments RedisConnection.
Import Network(net, Transport, TransportOk, channel_ok, output, same_incoming, channel, with_channel, NETWORK_CHANNEL_MAX_PACKET_SIZE,
  NETWORK_CHANNEL_SEND_BUFFER_SIZE, network_op_result(..)).
Import RedisWriter(resp(..), encode, resp_in_range, writes).
Import ConfigLoad(config_module_redis, ModuleRedis, require_authentication, username, password).

(** ** Sending *)

Section sending.
Context {W D A : Type} `{TransportOk W}.
Implicit Types (c : connection W D A).

(** The reply goes after what the channel was given to send, and the rest of
    the connection is as it was. *)
Definition sent_reply c (r : resp) (c' : connection W D A) : Prop :=
  exists n, c' = with_network c n /\ channel_ok n /\ output n = output (network c) ++ encode r /\ same_incoming (network c) n.

Lemma send_slice_ok retries c slice_length w bs :
  channel_ok (network c) -> 0 < slice_length <= NETWORK_CHANNEL_SEND_BUFFER_SIZE -> writes w bs -> zlen bs < slice_length ->
  exists n, send_slice retries c slice_length w = Some (with_network c n, true, true) /\ channel_ok n /\
    output n = output (network c) ++ bs /\ same_incoming (network c) n.
Proof.
  intros Hn Hl Hw Hb. unfold send_slice. destruct (Network.send_acquire_ok retries (network c) slice_length Hn Hl) as (n0 & pos & -> & Hn0 & Ho & Hi & -> & Hfit).
  cbn [mbind option_bind]. set (n1 := with_channel n0 _) in *.
  pose proof (Network.co_size _ Hn0) as Hsz. pose proof (Network.co_data _ Hn0) as Hd. pose proof (Network.co_length _ Hn0) as Hlen.
  assert (NETWORK_CHANNEL_SEND_BUFFER_SIZE = 65536) as HK by done.
  change (Network.send (channel n1)) with (Network.send (channel n0)). rewrite Hw by lia. zcase; [|lia]. cbn [mbind option_bind].
  replace (Network.data_size (Network.send (channel n0)) + zlen bs - Network.data_size (Network.send (channel n0))) with (zlen bs) by lia.
  destruct (Network.send_release_ok n0 slice_length bs Hn0) as (n' & Hrel & Hn' & Ho' & Hi'); [lia|lia|lia|].
  unfold Network.write_slice in Hrel. cbn zeta in Hrel. fold n1 in Hrel. change (Network.send (channel n1)) with (Network.send (channel n0)) in Hrel.
  rewrite Hrel. cbn [mbind option_bind]. exists n'. split; [done|]. split; [done|]. split; [by rewrite Ho', Ho|]. unfold same_incoming in *. congruence.
Qed.

Lemma sends_ok retries c slice_length w r :
  channel_ok (network c) -> 0 < slice_length <= NETWORK_CHANNEL_SEND_BUFFER_SIZE -> writes w (encode r) -> zlen (encode r) < slice_length ->
  exists c', sends <$> send_slice retries c slice_length w = Some (c', true) /\ sent_reply c r c'.
Proof.
  intros Hn Hl Hw Hb. destruct (send_slice_ok retries c slice_length w _ Hn Hl Hw Hb) as (n & -> & Hok). eexists. split; [done|]. by exists n.
Qed.

Lemma sends_resp retries c slice_length r :
  channel_ok (network c) -> 0 < slice_length <= NETWORK_CHANNEL_SEND_BUFFER_SIZE -> resp_in_range r -> zlen (encode r) < slice_length ->
  exists c', sends <$> send_slice retries c slice_length (RedisWriter.write_resp r) = Some (c', true) /\ sent_reply c r c'.
Proof. intros Hn Hl Hr Hb. apply sends_ok; [done|done|by apply RedisWriter.write_resp_writes|done]. Qed.

Lemma message_dec_length n : zlen (dec n) <= 21.
Proof. rewrite RedisWriter.zlen_dec. pose proof (ndigits_le n). lia. Qed.

Lemma crlf_length : zlen RedisWriter.crlf = 2.
Proof. done. Qed.

Lemma header_length x n : zlen ([x] ++ dec n ++ RedisWriter.crlf) <= 24.
Proof. rewrite !zlen_app, crlf_length. pose proof (message_dec_length n). change (zlen [x]) with 1. lia. Qed.

Lemma number_length n : zlen (encode (RespNumber n)) <= 25.
Proof.
  cbn [encode]. rewrite !zlen_app, crlf_length. change (zlen (bytes_of ":")) with 1. unfold dec_signed.
  pose proof (message_dec_length n). pose proof (message_dec_length (- n)). destruct (n <? 0); rewrite ?zlen_cons; lia.
Qed.

Lemma array_length n : zlen (encode (RespArray n)) <= 24.
Proof. exact (header_length 42 n). Qed.

Lemma blob_length s : zlen (encode (RespBlobString s)) <= 26 + zlen s.
Proof.
  cbn [encode]. rewrite !zlen_app, crlf_length. change (zlen (bytes_of "$")) with 1. pose proof (message_dec_length (zlen s)). lia.
Qed.

Lemma simple_length s : zlen (encode (RespSimpleString s)) = 3 + zlen s.
Proof. cbn [encode]. rewrite !zlen_app, crlf_length. change (zlen (bytes_of "+")) with 1. lia. Qed.

Lemma error_length s : zlen (encode (RespSimpleError s)) = 3 + zlen s.
Proof. cbn [encode]. rewrite !zlen_app, crlf_length. change (zlen (bytes_of "-")) with 1. lia. Qed.

Lemma send_error_ok retries c m :
  channel_ok (network c) -> error_message (command c) = Some m -> zlen m <= NETWORK_CHANNEL_SEND_BUFFER_SIZE - 16 ->
  exists n, module_redis_connection_send_error retries c =
      Some (with_command (with_network c n) (set_message (command c) None (skip (command c))), true) /\
    channel_ok n /\ output n = output (network c) ++ encode (RespSimpleError m) /\ same_incoming (network c) n.
Proof.
  intros Hn Hm Hl. pose proof (zlen_nonneg m). assert (NETWORK_CHANNEL_SEND_BUFFER_SIZE = 65536) as HK by done.
  unfold module_redis_connection_send_error. rewrite Hm. cbn [mbind option_bind].
  destruct (send_slice_ok retries c (zlen m + 16) (RedisWriter.write_simple_error m (zlen m)) (encode (RespSimpleError m)) Hn) as (n & -> & Hok); [lia| | |].
  - apply (RedisWriter.write_resp_writes (RespSimpleError m)). cbn. mach_lia.
  - rewrite error_length. lia.
  - exists n. by split.
Qed.


End sending.

(** ** Strings too long for a packet *)

Section long_strings.
Context {W D A : Type} `{Transport W}.
Implicit Types (c : connection W D A).

Definition slice_of (n : net W) : Z := Network.send_slice_acquired_length (channel n).

Lemma wrapper_slice retries n b n' r : Network.network_send_direct_wrapper retries n b = Some (n', r) -> slice_of n' = slice_of n.
Proof.
  unfold Network.network_send_direct_wrapper. intros Hs. apply bind_Some in Hs as ([[n1 r1] l] & Hi & Hs).
  assert (slice_of n1 = slice_of n) as <-.
  { destruct (Network.tls_mbedtls _).
    - unfold Network.network_tls_send_direct_internal in Hi. destruct (decide _); [by injection Hi as <- _ _|].
      apply bind_Some in Hi as ([[w r2] l2] & _ & Hi). by injection Hi as <- _ _.
    - unfold Network.network_send_direct_internal in Hi. apply bind_Some in Hi as ([[w r2] l2] & _ & Hi). by injection Hi as <- _ _. }
  destruct (decide _); by injection Hs as <- _.
Qed.

Lemma flush_slice retries n n' r : Network.network_flush_send_buffer retries n = Some (n', r) -> slice_of n' = slice_of n.
Proof.
  unfold Network.network_flush_send_buffer. destruct (_ =? 0); [by intros [= <- _]|]. intros Hs. apply bind_Some in Hs as ([n1 r1] & Hw & Hs).
  injection Hs as <- _. by rewrite <- (wrapper_slice _ _ _ _ _ Hw).
Qed.

Lemma direct_slice retries n b n' r : Network.network_send_direct retries n b = Some (n', r) -> slice_of n' = slice_of n.
Proof.
  unfold Network.network_send_direct. intros Hs. apply bind_Some in Hs as (n1 & Hf & Hw). rewrite (wrapper_slice _ _ _ _ _ Hw).
  destruct (Network.network_should_flush_send_buffer n); [|by injection Hf as <-].
  destruct (Network.network_flush_send_buffer retries n) as [[n2 r2]|] eqn:E; [|done]. injection Hf as <-. by apply flush_slice in E.
Qed.

Lemma chunks_slice fuel retries : forall n s n' r, send_string_chunks fuel retries n s = Some (n', r) -> slice_of n' = slice_of n.
Proof.
  induction fuel as [|fuel IH]; intros n s n' r Hs; cbn [send_string_chunks] in Hs; destruct (_ =? 0); try (by injection Hs as <- _); [done|].
  apply bind_Some in Hs as ([n1 r1] & Hd & Hs). apply direct_slice in Hd. destruct (decide _); [by injection Hs as <- _|].
  rewrite <- Hd. by eapply IH.
Qed.

(** The strings sent in several packets. *)
Definition long_blob (s : list Z) : Prop := NETWORK_CHANNEL_MAX_PACKET_SIZE - 32 <= zlen s.

(** C38: a blob string of 32736 bytes or more is never sent whole: the slice
    that holds its start is not released before the data and another one is
    acquired for its end, which an assert forbids, so that on no channel does
    the function return that it is sent. *)
Theorem long_blob_string_never_sent retries c s c' :
  long_blob s -> module_redis_connection_send_blob_string retries c s <> Some (c', true).
Proof.
  unfold long_blob. intros Hl. unfold module_redis_connection_send_blob_string. zcase; [lia|]. intros Hs.
  apply bind_Some in Hs as ([n ok] & Hstart & Hs). destruct ok; [|done]. cbn [negb] in Hs.
  apply bind_Some in Hs as ([n1 ok1] & Hchunks & Hs). destruct ok1; [|done]. cbn [negb] in Hs.
  apply chunks_slice in Hchunks. assert (slice_of n = 32) as Hn.
  { unfold module_redis_command_acquire_slice_and_write_blob_start in Hstart. apply bind_Some in Hstart as ([n0 pos] & Ha & Hstart).
    destruct pos as [pos|]; [|done]. apply bind_Some in Hstart as (w & _ & Hstart). destruct w as [[d e]|].
    - injection Hstart as <-. unfold Network.network_send_buffer_acquire_slice in Ha. apply bind_Some in Ha as (? & _ & Ha). apply bind_Some in Ha as (? & _ & Ha).
      apply bind_Some in Ha as ([n2 r2] & _ & Ha). destruct (decide _); [done|]. by injection Ha as <- _.
    - apply bind_Some in Hstart as (? & _ & [=]). }
  unfold send_slice, Network.network_send_buffer_acquire_slice in Hs. change (network (with_network c n1)) with n1 in Hs.
  unfold slice_of in *. rewrite Hchunks, Hn in Hs. by destruct (check (32 <=? _)).
Qed.

End long_strings.

(** ** Authentication *)

Section authentication.
Context {W D A : Type} `{Transport W}.
Implicit Types (c : connection W D A).

Definition no_nul (l : list Z) : Prop := Forall (fun x => x <> 0) l.

Lemma strn_eq_prefix s : forall client, no_nul s -> no_nul client ->
  strn_eq id (s ++ [0]) client (List.length client) = Some (bool_decide (client `prefix_of` s)).
Proof.
  induction s as [|x s IH]; intros client Hs Hc; destruct client as [|y client]; cbn [List.length strn_eq app].
  - by rewrite bool_decide_true by apply prefix_nil.
  - apply Forall_cons in Hc as [Hy _]. unfold id. destruct (Z.eqb_spec 0 y); [congruence|]. rewrite bool_decide_false; [done|]. by intros [? ?].
  - by rewrite bool_decide_true by apply prefix_nil.
  - apply Forall_cons in Hs as [Hx Hs]. apply Forall_cons in Hc as [Hy Hc]. unfold id. destruct (Z.eqb_spec x y) as [->|Hne].
    + destruct (Z.eqb_spec y 0); [done|]. rewrite IH by done. f_equal. apply bool_decide_ext. split; [apply prefix_cons|apply prefix_cons_inv_2].
    + rewrite bool_decide_false; [done|]. intros Hp. apply prefix_cons_inv_1 in Hp. congruence.
Qed.

Lemma strncmp_eq_prefix s client : no_nul s -> no_nul client ->
  strncmp_eq (Some s) client (zlen client) = Some (bool_decide (client `prefix_of` s)).
Proof.
  intros Hs Hc. unfold strncmp_eq. destruct (Z.eqb_spec (zlen client) 0) as [Hz|Hz].
  - rewrite (zlen_nil_inv _ Hz). by rewrite bool_decide_true by apply prefix_nil.
  - cbn [mbind option_bind]. unfold zlen. rewrite Nat2Z.id. by apply strn_eq_prefix.
Qed.

Definition expected_username (srv : server) : list Z := default (bytes_of "default") (username (config srv)).

(** C37: who is authenticated.  A client is authenticated exactly when the user
    name it gives is a beginning of the one of the configuration and the
    password it gives is a beginning of the one of the configuration: the bytes
    after the ones it gives are not compared, so that the first letter of the
    password, or a user name and a password of no bytes, are enough. *)
Theorem authenticate_accepts_beginnings srv c user pass p :
  password (config srv) = Some p -> no_nul p -> no_nul (expected_username srv) -> no_nul user -> no_nul pass ->
  exists c' b, module_redis_connection_authenticate srv c user (zlen user) pass (zlen pass) = Some (c', b) /\
    (b = true <-> user `prefix_of` expected_username srv /\ pass `prefix_of` p) /\
    c' = if b then with_authenticated c true else c.
Proof.
  intros Hp Hnp Hnu Hu Hpw. unfold module_redis_connection_authenticate. rewrite Hp.
  assert (match username (config srv) with None => bytes_of "default" | Some u => u end = expected_username srv) as -> by (unfold expected_username; by destruct (username _)).
  rewrite (strncmp_eq_prefix _ _ Hnu Hu). cbn [mbind option_bind]. case_bool_decide as Hpu; cbn [negb].
  - rewrite (strncmp_eq_prefix _ _ Hnp Hpw). cbn [mbind option_bind]. case_bool_decide as Hpp; cbn [negb].
    + by exists (with_authenticated c true), true.
    + exists c, false. split; [done|]. split; [|done]. naive_solver.
  - exists c, false. split; [done|]. split; [|done]. naive_solver.
Qed.

(** AUTH with a password, sent to a server whose configuration has none
    and does not ask for authentication, dereferences the NULL password. *)
Theorem auth_without_password_faults srv retries c pass :
  require_authentication (config srv) = false -> password (config srv) = None -> pass <> [] ->
  auth srv retries c pass None = None.
Proof.
  intros Hr Hp Hne. unfold auth, module_redis_command_helper_auth_try_positional_parameters, module_redis_command_helper_auth_client_trying_to_reauthenticate,
    module_redis_connection_requires_authentication. rewrite Hr. cbn [andb mbind option_bind negb].
  unfold module_redis_connection_authenticate. rewrite Hp. cbn [strncmp_eq Z.eqb mbind option_bind negb]. unfold strncmp_eq.
  destruct (Z.eqb_spec (zlen pass) 0) as [Hz|]; [by apply zlen_nil_inv in Hz|done].
Qed.

End authentication.

(** ** The commands that need authentication

    The commands keep to their interface: they do not touch which command the
    connection runs and a client authenticated stays so. *)

Section guard.
Context {W D A : Type} `{Transport W} (srv : server).
Context (strtold : list Z -> bool -> option (D * Z * bool)) (fill : Z) (retries : nat).
Implicit Types (c : connection W D A).

Class CommandsKeep (command_end : Z -> connection W D A -> option (connection W D A * bool)) : Prop := {
  end_info i c c' b : command_end i c = Some (c', b) -> info c' = info c;
  end_authenticated i c c' b : command_end i c = Some (c', b) -> module_redis_connection_is_authenticated srv c = true ->
    module_redis_connection_is_authenticated srv c' = true
}.

Context (command_end : Z -> connection W D A -> option (connection W D A * bool)) `{!CommandsKeep command_end}.
Context (command_free : Z -> connection W D A -> connection W D A).

Definition needs_authentication (i : Z) : bool :=
  match zget (infos srv) (i - 1) with Some inf => requires_authentication inf | None => false end.

(** The commands that fault when they run without the authentication they
    need. *)
Definition guarded (i : Z) c : option (connection W D A * bool) :=
  if needs_authentication i && negb (module_redis_connection_is_authenticated srv c) then None else command_end i c.

Definition allowed c : Prop := needs_authentication (info c) = true -> module_redis_connection_is_authenticated srv c = true.

(** A command that is not skipped is allowed. *)
Definition guard_inv c : Prop := skip (command c) = true \/ allowed c.

Lemma no_info_allowed c : info c = 0 -> allowed c.
Proof. unfold allowed, needs_authentication. intros ->. done. Qed.

Lemma guarded_same c : allowed c -> guarded (info c) c = command_end (info c) c.
Proof.
  unfold allowed, guarded. intros Ha. destruct (needs_authentication (info c)); [|done]. by rewrite Ha.
Qed.

(** The fields the invariant looks at. *)
Definition same_guard c c' : Prop := info c' = info c /\ authenticated c' = authenticated c.

Lemma allowed_same c c' : same_guard c c' -> allowed c -> allowed c'.
Proof. intros [Hi Ha]. unfold allowed, module_redis_connection_is_authenticated. by rewrite Hi, Ha. Qed.

Lemma error_noncritical_skip c m c' : error_noncritical c m = Some c' -> skip (command c') = true /\ same_guard c c'.
Proof.
  unfold error_noncritical, module_redis_connection_error_message_printf_noncritical. intros He. apply bind_Some in He as (s & Hs & [= <-]).
  apply bind_Some in Hs as (? & _ & [= <-]). done.
Qed.

Lemma process_end_guarded c : allowed c ->
  module_redis_command_process_end srv guarded c = module_redis_command_process_end srv command_end c.
Proof.
  intros Ha. unfold module_redis_command_process_end. destruct (if expected_argument (parser (command c)) =? 0 then _ else _) as [[m|]|]; cbn [mbind option_bind]; [done| |done].
  destruct (current_info srv c); [|done]. cbn [mbind option_bind]. by rewrite guarded_same.
Qed.

Lemma process_end_inv c c' b : allowed c -> module_redis_command_process_end srv command_end c = Some (c', b) -> guard_inv c'.
Proof.
  unfold module_redis_command_process_end. intros Ha He. apply bind_Some in He as ([m|] & _ & He).
  - apply bind_Some in He as (c1 & He & [= <- <-]). left. by apply error_noncritical_skip in He as [? _].
  - apply bind_Some in He as (inf & _ & He). right. unfold allowed. rewrite (end_info _ _ _ _ He). intros Hn.
    apply (end_authenticated _ _ _ _ He). by apply Ha.
Qed.

Lemma find_command_inv c data l c' : find_command srv fill c data l = Some c' -> guard_inv c'.
Proof.
  unfold find_command. intros Hf. apply bind_Some in Hf as ([[c1 name] len] & _ & Hf). apply bind_Some in Hf as (z & _ & Hf).
  destruct (z =? 0); [left; by apply error_noncritical_skip in Hf as [? _]|].
  apply bind_Some in Hf as (i & Hi & Hf). apply bind_Some in Hf as (dis & _ & Hf). destruct dis; [left; by apply error_noncritical_skip in Hf as [? _]|].
  destruct (requires_authentication i && _) eqn:Hauth.
  { left. unfold module_redis_command_helper_auth_error_not_authenticated, auth_error in Hf. apply bind_Some in Hf as (c2 & He & [= <-]).
    by apply error_noncritical_skip in He as [? _]. }
  assert (allowed (with_info c1 z)) as Hal.
  { unfold allowed, needs_authentication. unfold current_info in Hi. rewrite Hi. intros Hr. rewrite Hr in Hauth. cbn [andb] in Hauth. by apply negb_false_iff. }
  destruct (is_container i).
  { right. unfold start_container in Hf. apply bind_Some in Hf as (bs & _ & Hf). apply bind_Some in Hf as (m & _ & Hf). apply bind_Some in Hf as (m' & _ & [= <-]).
    by apply no_info_allowed. }
  destruct (_ <? required_arguments_count i); [left; by apply error_noncritical_skip in Hf as [? _]|].
  destruct (_ <? _); [left; by apply error_noncritical_skip in Hf as [? _]|].
  apply bind_Some in Hf as (s & _ & [= <-]). by right.
Qed.

Lemma argument_op_guard c start f o c' v : argument_op srv strtold fill c start f o = Some (c', v) -> same_guard c c'.
Proof.
  unfold argument_op. intros Ho. apply bind_Some in Ho as (i & _ & Ho). destruct o; [done|done| | |].
  - by apply bind_Some in Ho as (s & _ & [= <- _]).
  - destruct (require_stream _); [by apply bind_Some in Ho as (s & _ & [= <- _])|]. destruct f; by injection Ho as <- _.
  - apply bind_Some in Ho as (s & _ & Ho). by apply bind_Some in Ho as (s' & _ & [= <- _]).
Qed.

Lemma consume_guard c o : guard_inv c -> guard_inv (consume c o).
Proof. intros [Hs|Ha]; [by left|right]. by eapply allowed_same. Qed.

Lemma process_op_guarded c start o next : guard_inv c ->
  process_op srv strtold fill guarded c start o next = process_op srv strtold fill command_end c start o next.
Proof.
  intros Hi%(consume_guard _ o). unfold process_op. destruct (module_redis_connection_command_too_long _ _); [done|].
  destruct (skip (command (consume c o))) eqn:Hs; [done|]. destruct Hi as [Hi|Ha]; [congruence|].
  destruct (op_index o); [done|]. destruct o; try done. by rewrite process_end_guarded.
Qed.

Lemma process_op_inv c start o next c' v : guard_inv c ->
  process_op srv strtold fill command_end c start o next = Some (c', v) -> guard_inv c'.
Proof.
  intros Hi%(consume_guard _ o). unfold process_op. set (c1 := consume c o) in *. destruct (module_redis_connection_command_too_long _ _).
  { intros Ho. apply bind_Some in Ho as (c2 & He & [= <- _]). left. unfold module_redis_connection_error_message_printf_critical in He.
    apply bind_Some in He as (c3 & He & [= <-]). unfold module_redis_connection_error_message_vprintf_internal in He. by apply bind_Some in He as (? & _ & [= <-]). }
  destruct (skip (command c1)) eqn:Hs; [intros [= <- _]; by left|]. destruct Hi as [Hi|Ha]; [congruence|].
  destruct (op_index o) as [index|].
  - destruct (_ =? 0).
    + destruct o; try (intros [= <- _]; by right).
      * destruct (negb _); intros [= <- _]; right; by eapply allowed_same.
      * intros Ho. apply bind_Some in Ho as (c2 & Hf & [= <- _]). by eapply find_command_inv.
    + destruct (0 <? _); [|intros [= <- _]; by right]. intros Ho. right. eapply allowed_same; [by eapply argument_op_guard|done].
  - destruct o; try (intros [= <- _]; by right). intros Ho. apply bind_Some in Ho as ([c2 ok] & He & [= <- _]). by eapply process_end_inv.
Qed.

Lemma process_ops_guarded os : forall c start, guard_inv c ->
  process_ops srv strtold fill guarded c start os = process_ops srv strtold fill command_end c start os /\
  forall c' v, process_ops srv strtold fill command_end c start os = Some (c', v) -> guard_inv c'.
Proof.
  induction os as [|o os IH]; intros c start Hi; cbn [process_ops]; [split; [done|]; by intros c' v [= <- _]|].
  rewrite process_op_guarded by done. destruct (process_op srv strtold fill command_end c start o (head os)) as [[c1 v]|] eqn:Ho; [|done].
  cbn [mbind option_bind]. pose proof (process_op_inv _ _ _ _ _ _ Hi Ho) as Hi1. destruct v; [by apply IH| |]; (split; [done|]); by intros c' v' [= <- _].
Qed.

Lemma read_loop_guarded fuel : forall c, guard_inv c ->
  read_loop srv strtold fill guarded fuel c = read_loop srv strtold fill command_end fuel c /\
  forall c' n v, read_loop srv strtold fill command_end fuel c = Some (c', n, v) -> guard_inv c'.
Proof.
  induction fuel as [|fuel IH]; intros c Hi; cbn [read_loop]; [done|].
  destruct (RedisReader.reader_read _ _) as [[r os]|]; [|done]. cbn [mbind option_bind]. set (c1 := with_reader c r).
  assert (guard_inv c1) as Hi1 by (destruct Hi as [Hs|Ha]; [by left|right; by eapply allowed_same]).
  destruct (module_redis_connection_reader_has_error c1).
  { destruct (check _); [|done]. cbn [mbind option_bind]. split; [done|]. intros c' n v Ho. apply bind_Some in Ho as (c2 & He & [= <- _ _]). left.
    unfold module_redis_connection_set_error_message_from_reader, module_redis_connection_error_message_printf_critical in He.
    apply bind_Some in He as (c3 & He & [= <-]). unfold module_redis_connection_error_message_vprintf_internal in He. by apply bind_Some in He as (? & _ & [= <-]). }
  destruct os as [os|]; [|done]. cbn [mbind option_bind]. destruct (bool_decide _); [split; [done|]; by intros c' n v [= <- _ _]|].
  set (start := drop _ _). destruct (process_ops_guarded os c1 start Hi1) as [-> Hinv].
  destruct (process_ops srv strtold fill command_end c1 start os) as [[c2 v]|]; [|done]. cbn [mbind option_bind].
  specialize (Hinv c2 v eq_refl). destruct v as [| |b]; [| |split; [reflexivity|]; by intros c' n v' [= <- _ _]].
  all: destruct (_ && _); [exact (IH c2 Hinv)|split; [reflexivity|]; by intros c' n v' [= <- _ _]].
Qed.

Lemma send_slice_guard c l w c' a b : send_slice retries c l w = Some (c', a, b) -> command c' = command c /\ same_guard c c'.
Proof.
  unfold send_slice. intros Hs. apply bind_Some in Hs as ([n pos] & _ & Hs). destruct pos; [|by injection Hs as <- _ _].
  apply bind_Some in Hs as (r & _ & Hs). destruct r as [[d e]|]; by apply bind_Some in Hs as (n' & _ & [= <- _ _]).
Qed.

Lemma after_read_inv c c' b : guard_inv c -> after_read retries command_free c = Some (c', b) -> b = false -> guard_inv c'.
Proof.
  intros Hi Ha ->. unfold after_read in Ha. apply bind_Some in Ha as ([c1 ok] & He & Ha). assert (guard_inv c1) as Hi1.
  { destruct (module_redis_connection_has_error c); [|by injection He as <- _]. unfold module_redis_connection_send_error in He.
    apply bind_Some in He as (m & _ & He). apply bind_Some in He as ([[c2 acq] wr] & Hs & He). apply send_slice_guard in Hs as [Hc Hg].
    destruct acq; injection He as <- _; (destruct Hi as [Hs|Hal]; [left; cbn; by rewrite ?Hc|right; by eapply allowed_same]). }
  destruct ok; [|done]. cbn [negb] in Ha. destruct (module_redis_connection_should_terminate_connection c1).
  { by apply bind_Some in Ha as ([c2 ok] & _ & [=]). }
  destruct (bool_decide _); injection Ha as <-; [by right; apply no_info_allowed|done].
Qed.

Lemma process_loop_guarded fuel : forall c, guard_inv c ->
  process_loop srv strtold fill retries guarded command_free fuel c = process_loop srv strtold fill retries command_end command_free fuel c /\
  forall c' , process_loop srv strtold fill retries command_end command_free fuel c = Some (c', true) -> guard_inv c'.
Proof.
  induction fuel as [|fuel IH]; intros c Hi; [done|]. cbn [process_loop]. destruct (read_loop_guarded 2 c Hi) as [-> Hinv].
  destruct (read_loop srv strtold fill command_end 2 c) as [[[c1 n] v]|]; [|cbn [mbind option_bind]; split; [reflexivity|discriminate]]. cbn [mbind option_bind]. specialize (Hinv c1 n v eq_refl).
  destruct v as [| |b]; [| |split; [reflexivity|]; by intros c' [= <- _]].
  all: destruct (after_read retries command_free c1) as [[c2 ends]|] eqn:Ha; [|cbn [mbind option_bind]; split; [reflexivity|discriminate]].
  all: cbn [mbind option_bind]; destruct ends; [split; [reflexivity|discriminate]|].
  all: pose proof (after_read_inv _ _ _ Hinv Ha eq_refl) as Hi2; destruct (_ && _); [exact (IH c2 Hi2)|split; [reflexivity|]; by intros c' [= <-]].
Qed.

Lemma process_data_guarded fuel c : guard_inv c ->
  module_redis_connection_process_data srv strtold fill retries guarded command_free fuel c =
    module_redis_connection_process_data srv strtold fill retries command_end command_free fuel c /\
  forall c', module_redis_connection_process_data srv strtold fill retries command_end command_free fuel c = Some (c', true) -> guard_inv c'.
Proof.
  intros Hi. unfold module_redis_connection_process_data. destruct (check _); [|cbn [mbind option_bind]; split; [reflexivity|discriminate]]. cbn [mbind option_bind].
  destruct (process_loop_guarded fuel c Hi) as [-> Hinv]. destruct (process_loop _ _ _ _ _ _ _ _) as [[c1 r]|]; [|cbn [mbind option_bind]; split; [reflexivity|discriminate]]. cbn [mbind option_bind].
  split; [done|]. intros c'. destruct r; [|done]. specialize (Hinv c1 eq_refl). cbn [andb].
  destruct (Network.network_should_flush_send_buffer _); [|by intros [= <-]]. intros Hf. apply bind_Some in Hf as ([n res] & _ & [= <- _]).
  destruct Hinv as [Hs|Ha]; [by left|right]. by eapply allowed_same.
Qed.

Lemma accept_step_guarded fuel c : guard_inv c ->
  accept_step srv strtold fill retries guarded command_free fuel c = accept_step srv strtold fill retries command_end command_free fuel c /\
  forall c', accept_step srv strtold fill retries command_end command_free fuel c = Some (c', false) -> guard_inv c'.
Proof.
  intros Hi. unfold accept_step. destruct (negb (Network.network_buffer_has_enough_space _ _)).
  { split; [reflexivity|]. intros c' Hs. apply bind_Some in Hs as (c1 & _ & Hs). by apply bind_Some in Hs as ([c2 ok] & _ & [=]). }
  destruct (if Network.network_buffer_needs_rewind (read_buffer c) NETWORK_CHANNEL_MAX_PACKET_SIZE
            then Network.network_buffer_rewind (read_buffer c) else Some (read_buffer c)) as [b|]; [|cbn [mbind option_bind]; split; [reflexivity|discriminate]].
  cbn [mbind option_bind]. destruct (Network.network_receive retries (network c) b NETWORK_CHANNEL_MAX_PACKET_SIZE) as [[[n b'] res]|]; [|cbn [mbind option_bind]; split; [reflexivity|discriminate]].
  cbn [mbind option_bind]. destruct (decide _); [split; [reflexivity|discriminate]|].
  set (c1 := with_read_buffer _ _). assert (guard_inv c1) as Hi1 by (destruct Hi as [Hs|Ha]; [by left|right; by eapply allowed_same]).
  destruct (process_data_guarded fuel c1 Hi1) as [-> Hinv]. split; [reflexivity|]. intros c' Hs.
  apply bind_Some in Hs as ([c2 go_on] & Hp & [= <- Hg]). destruct go_on; [|done]. by apply Hinv.
Qed.

Lemma accept_loop_guarded packets fuel : forall c, guard_inv c ->
  accept_loop srv strtold fill retries guarded command_free packets fuel c =
    accept_loop srv strtold fill retries command_end command_free packets fuel c.
Proof.
  induction packets as [|packets IH]; intros c Hi; [reflexivity|]. cbn [accept_loop].
  destruct (accept_step_guarded fuel c Hi) as [-> Hinv].
  destruct (accept_step srv strtold fill retries command_end command_free fuel c) as [[c1 []]|]; cbn [mbind option_bind]; [reflexivity| |reflexivity].
  apply IH. by apply Hinv.
Qed.

(** C10: whatever bytes a client sends, in whatever packets, a command that
    needs authentication does not run before the client is authenticated, in a
    container or not, in a pipeline or not: the whole connection is the same
    with commands that fault in that case. *)
Theorem authentication_guards_commands packets fuel (n : net W) (a : A) :
  module_redis_connection_accept srv strtold fill retries command_end command_free packets fuel n a =
  module_redis_connection_accept srv strtold fill retries guarded command_free packets fuel n a.
Proof.
  unfold module_redis_connection_accept. rewrite accept_loop_guarded; [done|]. right. by apply no_info_allowed.
Qed.

End guard.

(** ** Examples *)

#[local] Existing Instances Network.wire_transport Network.wire_ok.

Definition example_server (p : option (list Z)) : server :=
  Server [example_info (bytes_of "GET") []] ∅ [] (HashtableSpsc.Spsc 0 0 0 0 false [] []) None (ModuleRedis 100 1000 100 true false None p).
Definition example_connection (n : net Network.wire) : connection Network.wire Z Z := module_redis_connection_context_init n 0.
Definition echo_end (i : Z) (c : connection Network.wire Z Z) : option (connection Network.wire Z Z * bool) := Some (c, true).
Definition free_nothing (i : Z) (c : connection Network.wire Z Z) : connection Network.wire Z Z := c.


Lemma long_blob_string_never_sent_witness :
  module_redis_connection_send_blob_string 0 (example_connection (Network.example_net false 1)) (replicate (Z.to_nat 32736) 65) <>
    Some (example_connection (Network.example_net false 1), true).
Proof. apply long_blob_string_never_sent. unfold long_blob. rewrite zlen_replicate, Z2Nat.id by lia. cbv. congruence. Defined.

#[local] Instance echo_keeps srv : CommandsKeep srv echo_end.
Proof. split; by intros i c c' b [= <- _]. Defined.

Lemma authentication_guards_commands_witness :
  module_redis_connection_accept (example_server None) (fun _ _ => None) 7 0 echo_end free_nothing 3 4 (Network.example_net false 1) 0 =
  module_redis_connection_accept (example_server None) (fun _ _ => None) 7 0 (guarded (example_server None) echo_end) free_nothing 3 4
    (Network.example_net false 1) 0.
Proof. apply authentication_guards_commands. exact (echo_keeps _). Defined.

Lemma authenticate_accepts_beginnings_witness :
  let c := example_connection (Network.example_net false 1) in
  exists c' b, module_redis_connection_authenticate (example_server (Some (bytes_of "secret"))) c [] (zlen (@nil Z)) (bytes_of "s") (zlen (bytes_of "s")) = Some (c', b) /\
    b = true.
Proof.
  intros c. destruct (authenticate_accepts_beginnings (example_server (Some (bytes_of "secret"))) c [] (bytes_of "s") (bytes_of "secret"))
    as (c' & b & Ha & Hb & _); [done|by repeat constructor|by repeat constructor|by repeat constructor|by repeat constructor|].
  exists c', b. split; [exact Ha|]. apply Hb. split; [apply prefix_nil|]. by exists (bytes_of "ecret").
Defined.

Lemma auth_without_password_faults_witness :
  auth (example_server None) 0 (example_connection (Network.example_net false 1)) (bytes_of "x") None = None.
Proof. by apply auth_without_password_faults. Defined.

End RedisConnectionSpec.
