(* ===== verification/StorageDbEvict.v ===== *)
(** * StorageDbEvict: the run of the eviction

    storage_db_keys_eviction_run_worker of storage/db/storage_db.c: it searches
    the hashtable for candidates, sorts them ([Eviction]) and deletes the first
    ones.  The numbers of random_generate are a list, one for each increment
    and one for each sorting key of the random policy. *)

From stdpp Require Import gmap fin_maps.
From S2P Require Import Prelude RingQueue Transaction HashtableMcmp HashtableMcmpLemmas HashtableMcmpSpec HashtableMcmpRefine HashtableMcmpIter EntryStatus Eviction StorageDb StorageDbHeap StorageDbMap StorageDbOps StorageDbRefine StorageDbScan ConfigLoad.

Module StorageDbEvict.
Import Transaction HashtableMcmp HashtableMcmpLemmas HashtableMcmpSpec HashtableMcmpRefine HashtableMcmpIter.
Import EntryStatus Eviction StorageDb StorageDbHeap StorageDbMap StorageDbOps StorageDbRefine StorageDbScan.

Definition STORAGE_DB_KEYS_EVICTION_EVICT_FIRST_N_KEYS : Z := 5.
Definition STORAGE_DB_KEYS_EVICTION_ITER_MAX_DISTANCE : Z := 5000.
Definition STORAGE_DB_KEYS_EVICTION_ITER_MAX_SEARCH_ATTEMPTS : Z := 5.
Definition UINT64_MAX : Z := 2 ^ 64 - 1.

(** The accesses counter is the high half of the status word. *)
Definition accesses_counter (w : Z) : Z := Z.shiftr w 32.

(** The sorting key, and the random numbers that are left. *)
Definition sort_key (policy : ConfigLoad.config_database_keys_eviction_policy) (e : entry_index) (randoms : list Z)
    : option (Z * list Z) :=
  match policy with
  | ConfigLoad.CONFIG_DATABASE_KEYS_EVICTION_POLICY_RANDOM =>
      match randoms with r :: randoms => Some (r, randoms) | [] => None end
  | ConfigLoad.CONFIG_DATABASE_KEYS_EVICTION_POLICY_LRU => Some (u64 (last_access_time_ms e), randoms)
  | ConfigLoad.CONFIG_DATABASE_KEYS_EVICTION_POLICY_LFU => Some (accesses_counter (status e), randoms)
  | ConfigLoad.CONFIG_DATABASE_KEYS_EVICTION_POLICY_TTL =>
      Some (if expiry_time_ms e =? STORAGE_DB_ENTRY_NO_EXPIRY then UINT64_MAX else u64 (expiry_time_ms e), randoms)
  end.

Section run.
Context (worker : Z) (only_ttl : bool) (policy : ConfigLoad.config_database_keys_eviction_policy).

(** The read of a candidate: its sorting key unless it is skipped. *)
Definition read_candidate (db : storage_db) (tx : transaction) (bucket_index : Z) (randoms : list Z)
    : option (storage_db * transaction * option Z * list Z) :=
  '(d, tx, r) ← hashtable_mcmp_op_get_by_index_all_databases (hashtable db) tx bucket_index;
  let db := with_table db d in
  match r with
  | None => Some (db, tx, None, randoms)
  | Some p =>
      e ← heap db !! p;
      if only_ttl && (expiry_time_ms e =? STORAGE_DB_ENTRY_NO_EXPIRY) then Some (db, tx, None, randoms) else
      '(key, randoms) ← sort_key policy e randoms;
      Some (db, tx, Some key, randoms)
  end.

(** The loop that fills the list; the fuel is the random numbers, of which
    each iteration takes at least one: [None] when they run out. *)
Fixpoint candidates_loop (fuel : nat) (db : storage_db) (mgr : transaction_manager) (randoms : list Z)
    (bucket_index search_attempts : Z) (candidates : list kv_list_entry)
    : option (storage_db * transaction_manager * Z * Z * list kv_list_entry) :=
  let buckets_end := buckets_count_real (hashtable db) in
  let segment_size := buckets_end / ARRAY_LENGTH in
  if negb ((zlen candidates <? ARRAY_LENGTH) && (search_attempts <? STORAGE_DB_KEYS_EVICTION_ITER_MAX_SEARCH_ATTEMPTS))
  then Some (db, mgr, bucket_index, search_attempts, candidates) else
  match fuel, randoms with
  | S fuel, random_value :: randoms =>
      _ ← check (negb (segment_size =? 0));
      let increment := random_value `mod` segment_size in
      bucket_index ← hashtable_mcmp_op_iter_internal (hashtable db) true 0 (u64 (bucket_index + increment))
        (STORAGE_DB_KEYS_EVICTION_ITER_MAX_DISTANCE * search_attempts);
      if (buckets_end <=? bucket_index) || (bucket_index =? OP_ITER_END) then
        candidates_loop fuel db mgr randoms (if buckets_end <=? bucket_index then 0 else bucket_index)
          (search_attempts + 1) candidates
      else
        let '(mgr, tx) := transaction_acquire worker mgr in
        '(db, tx, key, randoms) ← read_candidate db tx bucket_index randoms;
        '(d, _) ← transaction_release (hashtable db) tx;
        let db := with_table db d in
        match key with
        | None => candidates_loop fuel db mgr randoms (u64 (bucket_index - increment)) 0 candidates
        | Some key => candidates_loop fuel db mgr randoms bucket_index 0 (candidates ++ [KvEntry bucket_index key])
        end
  | _, _ => None
  end.

(** The loop that deletes; the counters are the caller's. *)
Fixpoint evict_loop (fuel : nat) (db : storage_db) (tx : transaction) (sorted : list kv_list_entry)
    (bucket_index key_eviction_list_entry_index evict_first_n_keys keys_evicted_count : Z) (c : counters)
    : option (storage_db * transaction * Z * counters) :=
  if negb ((key_eviction_list_entry_index <? evict_first_n_keys) && (key_eviction_list_entry_index <? ARRAY_LENGTH))
  then Some (db, tx, keys_evicted_count, c) else
  match fuel with
  | O => None
  | S fuel =>
      x ← zget sorted key_eviction_list_entry_index;
      if (kv_key x =? UINT64_MAX) && (kv_value x =? UINT64_MAX) then Some (db, tx, keys_evicted_count, c) else
      '(d, tx, r) ← hashtable_mcmp_op_get_by_index_all_databases (hashtable db) tx bucket_index;
      let db := with_table db d in
      let next := key_eviction_list_entry_index + 1 in
      match r with
      | None => evict_loop fuel db tx sorted bucket_index next (u8 (evict_first_n_keys + 1)) keys_evicted_count c
      | Some _ =>
          '(db, tx, deleted, p) ← storage_db_op_delete_by_index_all_databases db tx true (kv_value x);
          if (deleted : bool) then
            e ← heap db !! p;
            evict_loop fuel db tx sorted bucket_index next evict_first_n_keys (u8 (keys_evicted_count + 1))
              (Counters (i64 (keys_count c - 1)) (i64 (data_size c - i64 (seq_size (value e)))) (keys_changed c) (data_changed c))
          else evict_loop fuel db tx sorted bucket_index next (u8 (evict_first_n_keys + 1)) keys_evicted_count c
      end
  end.

Definition fill_candidates (search_attempts : Z) (candidates : list kv_list_entry) : list kv_list_entry :=
  if STORAGE_DB_KEYS_EVICTION_ITER_MAX_SEARCH_ATTEMPTS <=? search_attempts
  then candidates ++ replicate (Z.to_nat (ARRAY_LENGTH - zlen candidates)) (KvEntry UINT64_MAX UINT64_MAX)
  else candidates.

Definition storage_db_keys_eviction_run_worker (db : storage_db) (mgr : transaction_manager) (c : counters)
    (randoms : list Z) : option (storage_db * transaction_manager * Z * counters) :=
  '(db, mgr, bucket_index, search_attempts, candidates) ← candidates_loop (length randoms) db mgr randoms 0 0 [];
  sorted ← storage_db_keys_eviction_bitonic_sort_16_elements (fill_candidates search_attempts candidates);
  let '(mgr, tx) := transaction_acquire worker mgr in
  '(db, tx, keys_evicted_count, c) ← evict_loop (Z.to_nat ARRAY_LENGTH) db tx sorted bucket_index 0
     STORAGE_DB_KEYS_EVICTION_EVICT_FIRST_N_KEYS 0 c;
  '(d, _) ← transaction_release (hashtable db) tx;
  Some (with_table db d, mgr, keys_evicted_count, c).

End run.

(** ** The bounded iteration *)

Section evict.
Context (hash_fn : Z -> list Z -> Z).
Implicit Types (db : storage_db) (d : hashtable_data) (P : address_map) (M : value_map) (L : live_map) (H : holders).

Local Abbreviation table_inv := (HashtableMcmpSpec.table_inv hash_fn).
Local Abbreviation db_inv := (StorageDbOps.db_inv hash_fn).

(** What it returns: the next entry, or its end, and then none of the buckets
    closer than the distance has one. *)
Definition bounded_result d (all : bool) (num b max_distance r : Z) : Prop :=
  (r = OP_ITER_END /\ forall q, b <= q < b + max_distance -> ~ match_bucket d all num q) \/
  (b <= r < chunks_count d * CHUNK_SLOTS /\ match_bucket d all num r /\ forall q, b <= q < r -> ~ match_bucket d all num q).

(** Passing over the buckets that have no entry. *)
Lemma bounded_result_skip d all num b b' m m' r :
  b <= b' -> b + m <= b' + m' -> (forall q, b <= q < b' -> ~ match_bucket d all num q) ->
  bounded_result d all num b' m' r -> bounded_result d all num b m r.
Proof.
  intros Hb Hm Hno [[-> Hr]|(Hr & Hmr & Hq)]; [left|right].
  - split; [done|]. intros q Hq. destruct (decide (q < b')); [apply Hno; lia|apply Hr; lia].
  - split; [lia|]. split; [done|]. intros q Hq'. destruct (decide (q < b')); [apply Hno; lia|apply Hq; lia].
Qed.

Lemma iter_chunks_bounded d all num max_distance n : forall c s distance,
  table_inv None d -> 0 <= c -> 0 <= s < CHUNK_SLOTS -> c + Z.of_nat n = chunks_count d ->
  0 <= distance -> distance + CHUNK_SLOTS * Z.of_nat n < 2 ^ 64 ->
  exists r, iter_chunks n d all num c s distance max_distance = Some r /\
    bounded_result d all num (c * CHUNK_SLOTS + s) (max_distance - distance) r.
Proof.
  induction n as [|n IH]; intros c s distance Hi Hc Hs Hn Hd Hmax; cbn [iter_chunks].
  - exists OP_ITER_END. split; [done|]. left. split; [done|]. intros q Hq Hm.
    apply (match_bucket_range hash_fn) in Hm; [|done]. unfold CHUNK_SLOTS in *. lia.
  - destruct (zget_in_range (half_hashes_chunk d) c) as [ch Hch].
    { rewrite (sh_half _ (inv_shape _ _ _ Hi)). lia. }
    rewrite Hch. cbn [mbind option_bind]. destruct (Z.leb_spec max_distance distance).
    { exists OP_ITER_END. split; [done|]. left. split; [done|]. lia. }
    assert (forall q, c * CHUNK_SLOTS + s <= q < (c + 1) * CHUNK_SLOTS + 0 -> q / CHUNK_SLOTS = c /\ s <= q `mod` CHUNK_SLOTS < CHUNK_SLOTS) as Hq.
    { intros q Hq. pose proof (bucket_split q) as Hsp. pose proof (Z.mod_pos_bound q CHUNK_SLOTS ltac:(done)).
      unfold CHUNK_SLOTS in *. lia. }
    destruct (Z.eqb_spec (slots_occupied ch) 0) as [Hz|Hz].
    + rewrite (wrap_small 64) by (unfold CHUNK_SLOTS in *; mach_lia).
      destruct (IH (c + 1) 0 (distance + (CHUNK_SLOTS - s)) Hi) as (r & -> & Hr); try (unfold CHUNK_SLOTS in *; lia).
      exists r. split; [done|]. eapply bounded_result_skip; [| | |exact Hr]; try (unfold CHUNK_SLOTS in *; lia).
      intros q Hq' (db' & k & v & He & _). destruct (Hq q Hq') as [Hqc _]. rewrite Hqc in He. by eapply no_entry_in_empty_chunk.
    + destruct (iter_slots_spec hash_fn d ch all num c (Z.to_nat (CHUNK_SLOTS - s)) s Hi Hch) as (r & -> & Hr);
        [lia|lia|]. cbn [mbind option_bind]. destruct r as [b|].
      * destruct Hr as (s' & Hs' & -> & Hm & Hb). exists (c * CHUNK_SLOTS + s'). split; [done|]. right.
        split; [unfold CHUNK_SLOTS in *; lia|]. split; [by apply (match_at_bucket hash_fn)|].
        intros q Hq' Hmq. destruct (Hq q ltac:(unfold CHUNK_SLOTS in *; lia)) as [Hqc Hqs]. pose proof (bucket_split q).
        unfold match_bucket in Hmq. rewrite Hqc in *. apply (Hb (q `mod` CHUNK_SLOTS)); [lia|done].
      * rewrite (wrap_small 64) by (unfold CHUNK_SLOTS in *; mach_lia).
        destruct (IH (c + 1) 0 (distance + (CHUNK_SLOTS - CHUNK_SLOTS)) Hi) as (r & -> & Hr'); try (unfold CHUNK_SLOTS in *; lia).
        exists r. split; [done|]. eapply bounded_result_skip; [| | |exact Hr']; try (unfold CHUNK_SLOTS in *; lia).
        intros q Hq' Hmq. destruct (Hq q Hq') as [Hqc Hqs]. unfold match_bucket in Hmq. rewrite Hqc in Hmq. by apply (Hr _ Hqs).
Qed.

Lemma iter_bounded d all num b max_distance :
  table_inv None d -> 0 <= b ->
  exists r, hashtable_mcmp_op_iter_internal d all num b max_distance = Some r /\ bounded_result d all num b max_distance r.
Proof.
  intros Hi Hb. unfold hashtable_mcmp_op_iter_internal. pose proof (shape_real_bound d (inv_shape _ _ _ Hi)) as Hmax.
  pose proof (Z.mod_pos_bound b CHUNK_SLOTS ltac:(done)) as Hs. pose proof (bucket_split b) as Hsp.
  assert (0 <= b / CHUNK_SLOTS) as Hd by (apply Z.div_pos; [done|done]).
  destruct (decide (b / CHUNK_SLOTS <= chunks_count d)) as [Hle|Hgt].
  - destruct (iter_chunks_bounded d all num max_distance (Z.to_nat (chunks_count d - b / CHUNK_SLOTS)) (b / CHUNK_SLOTS)
      (b `mod` CHUNK_SLOTS) 0 Hi Hd Hs) as (r & -> & Hr); [lia|lia|unfold CHUNK_SLOTS in *; lia|].
    exists r. split; [done|]. rewrite <- Hsp, Z.sub_0_r in Hr. exact Hr.
  - replace (Z.to_nat (chunks_count d - b / CHUNK_SLOTS)) with 0%nat by lia. cbn [iter_chunks].
    exists OP_ITER_END. split; [done|]. left. split; [done|]. intros q Hq Hm.
    apply (match_bucket_range hash_fn) in Hm; [|done]. unfold CHUNK_SLOTS in *. lia.
Qed.

(** A distance of zero never finds anything. *)
Lemma iter_no_distance d all num b :
  table_inv None d -> 0 <= b -> hashtable_mcmp_op_iter_internal d all num b 0 = Some OP_ITER_END.
Proof.
  intros Hi Hb. unfold hashtable_mcmp_op_iter_internal. destruct (Z.to_nat _) as [|n] eqn:Hn; [done|]. cbn [iter_chunks].
  assert (0 <= b / CHUNK_SLOTS) by (apply Z.div_pos; done).
  destruct (zget_in_range (half_hashes_chunk d) (b / CHUNK_SLOTS)) as [ch ->]; [|done].
  rewrite (sh_half _ (inv_shape _ _ _ Hi)). lia.
Qed.

(** ** The candidates *)

Section candidates.
Context (worker : Z) (only_ttl : bool) (policy : ConfigLoad.config_database_keys_eviction_policy).

Lemma read_candidate_spec db tx P L M H b randoms :
  db_inv db P L M H -> solo (locks (hashtable db)) tx -> locks_list tx = [] -> match_bucket (hashtable db) true 0 b ->
  exists n k p e, entry_at (hashtable db) (b / CHUNK_SLOTS) (b `mod` CHUNK_SLOTS) n k p /\ heap db !! p = Some e /\
  match read_candidate only_ttl policy db tx b randoms with
  | Some (db', tx', key, randoms') => exists ls, db' = with_table db (with_locks (hashtable db) ls) /\
      zlen ls = zlen (locks (hashtable db)) /\ solo ls tx' /\
      (only_ttl = true -> expiry_time_ms e = STORAGE_DB_ENTRY_NO_EXPIRY -> key = None) /\
      (only_ttl = false -> is_Some key) /\ (length randoms <= S (length randoms'))%nat
  | None => randoms = [] /\ (only_ttl && (expiry_time_ms e =? STORAGE_DB_ENTRY_NO_EXPIRY)) = false
  end.
Proof.
  intros Hinv Hs Hl (n & k & p & He & _). pose proof (di_table _ _ _ _ _ _ Hinv) as Ht.
  destruct (entry_alive hash_fn db P L M H n _ _ k p Hinv He) as [_ [e Hp]]. exists n, k, p, e. split; [done|]. split; [done|].
  destruct (get_by_index_spec hash_fn _ tx _ _ n k p Ht Hs Hl He) as (ls & tx' & Hg & Hls & Hs' & _). rewrite <- bucket_split in Hg.
  unfold read_candidate, hashtable_mcmp_op_get_by_index_all_databases. rewrite Hg. cbn [mbind option_bind heap with_table].
  rewrite Hp. cbn [mbind option_bind]. destruct (only_ttl && _) eqn:Hskip.
  { apply andb_true_iff in Hskip as [-> _]. exists ls. split_and!; try done; lia. }
  assert (only_ttl = true -> expiry_time_ms e = STORAGE_DB_ENTRY_NO_EXPIRY -> False) as Hno.
  { intros -> Hx. cbn in Hskip. apply Z.eqb_neq in Hskip. done. }
  destruct policy; cbn [sort_key mbind option_bind]; try (destruct randoms as [|x rs]; [done|]; cbn [mbind option_bind]);
    exists ls; split_and!; try done; try (cbn [length]; lia); intros; exfalso; by apply Hno.
Qed.

(** A candidate is the next entry after a bucket of the first segment. *)
Definition candidate_of d (x : kv_list_entry) : Prop :=
  exists r, 0 <= r < buckets_count_real d / ARRAY_LENGTH /\ r <= kv_value x /\ match_bucket d true 0 (kv_value x) /\
    forall q, r <= q < kv_value x -> ~ match_bucket d true 0 q.

(** The table is not that small. *)
Lemma segment_positive d : shape d -> 0 < buckets_count_real d / ARRAY_LENGTH.
Proof.
  intros Hsh. rewrite (sh_real _ Hsh). pose proof (home_range hash_fn d 0 [] Hsh).
  apply Z.div_str_pos. unfold CHUNK_SLOTS, SEARCH_MAX, ARRAY_LENGTH in *. lia.
Qed.

(** The state of the loop. *)
Definition searching d (b attempts : Z) (candidates : list kv_list_entry) : Prop :=
  0 <= b < buckets_count_real d /\ 0 <= attempts <= 5 /\ (1 <= attempts -> b = 0) /\
  zlen candidates <= ARRAY_LENGTH /\ Forall (candidate_of d) candidates.

(** How an iteration goes on: nothing was found, or the entry found is a
    candidate, or it is skipped, or the random numbers have run out. *)
Definition goes_on db fuel mgr (x : Z) (randoms : list Z) (b attempts : Z) (candidates : list kv_list_entry) : Prop :=
  let loop := candidates_loop worker only_ttl policy fuel db in
  let run := candidates_loop worker only_ttl policy (S fuel) db mgr (x :: randoms) b attempts candidates in
  let r := x `mod` (buckets_count_real (hashtable db) / ARRAY_LENGTH) in
  (run = loop mgr randoms 0 (attempts + 1) candidates /\ searching (hashtable db) 0 (attempts + 1) candidates /\
    (attempts <> 0 -> forall q, r <= q < r + STORAGE_DB_KEYS_EVICTION_ITER_MAX_DISTANCE * attempts ->
       ~ match_bucket (hashtable db) true 0 q)) \/
  (attempts <> 0 /\ exists mgr' b' p e, in_u 16 (manager_worker worker mgr') /\ heap db !! p = Some e /\
    ((exists key randoms', run = loop mgr' randoms' b' 0 (candidates ++ [KvEntry b' key]) /\
        searching (hashtable db) b' 0 (candidates ++ [KvEntry b' key]) /\ (length randoms <= S (length randoms'))%nat /\
        (only_ttl = true -> expiry_time_ms e <> STORAGE_DB_ENTRY_NO_EXPIRY)) \/
     (only_ttl = true /\ exists randoms', run = loop mgr' randoms' b' 0 candidates /\ searching (hashtable db) b' 0 candidates) \/
     (run = None /\ randoms = []))).

Lemma same_table db d : with_table (with_table db d) (hashtable db) = db.
Proof. by destruct db. Qed.

Lemma iteration_goes_on P L M H db fuel mgr x randoms b attempts candidates :
  db_inv db P L M H -> unlocked (hashtable db) -> in_u 16 (manager_worker worker mgr) ->
  searching (hashtable db) b attempts candidates -> zlen candidates < ARRAY_LENGTH ->
  attempts < STORAGE_DB_KEYS_EVICTION_ITER_MAX_SEARCH_ATTEMPTS -> goes_on db fuel mgr x randoms b attempts candidates.
Proof.
  intros Hinv Hu Hw Hst E1 E2. pose proof Hst as (Hb & Ha & Hb0 & Hlen & Hc). unfold goes_on. cbv zeta.
  set (loop := candidates_loop worker only_ttl policy fuel db). cbn [candidates_loop]. fold loop.
  destruct (Z.ltb_spec (zlen candidates) ARRAY_LENGTH); [|lia].
  destruct (Z.ltb_spec attempts STORAGE_DB_KEYS_EVICTION_ITER_MAX_SEARCH_ATTEMPTS); [|lia]. cbn [negb andb].
  pose proof (di_table _ _ _ _ _ _ Hinv) as Ht. pose proof (shape_real_bound _ (inv_shape _ _ _ Ht)) as Hmax.
  rewrite <- (sh_real _ (inv_shape _ _ _ Ht)) in Hmax. pose proof (segment_positive _ (inv_shape _ _ _ Ht)) as Hseg.
  set (segment := buckets_count_real (hashtable db) / ARRAY_LENGTH) in *.
  destruct (Z.eqb_spec segment 0) as [|_]; [lia|]. cbn [negb check mbind option_bind].
  pose proof (Z.mod_pos_bound x segment Hseg) as Hr. set (r := x `mod` segment) in *.
  assert (segment <= buckets_count_real (hashtable db)) by (apply Z.div_le_upper_bound; unfold ARRAY_LENGTH; lia).
  assert (0 <= u64 (b + r)) by (apply wrap_range; lia).
  destruct (iter_bounded (hashtable db) true 0 (u64 (b + r)) (STORAGE_DB_KEYS_EVICTION_ITER_MAX_DISTANCE * attempts) Ht ltac:(done))
    as (found & Hit & Hres). rewrite Hit. cbn [mbind option_bind].
  destruct Hres as [[-> Hno]|(Hle & Hm & Hno)].
  { left. destruct (Z.leb_spec (buckets_count_real (hashtable db)) OP_ITER_END); [|unfold OP_ITER_END in *; lia]. split; [done|]. split.
    - split; [lia|]. split; [unfold STORAGE_DB_KEYS_EVICTION_ITER_MAX_SEARCH_ATTEMPTS in *; lia|]. by split_and!.
    - intros Hnz q Hq. apply Hno. rewrite (Hb0 ltac:(lia)), Z.add_0_l, (wrap_small 64) by mach_lia. done. }
  right. rewrite <- (sh_real _ (inv_shape _ _ _ Ht)) in Hle.
  destruct (Z.leb_spec (buckets_count_real (hashtable db)) found); [lia|]. destruct (Z.eqb_spec found OP_ITER_END); [unfold OP_ITER_END in *; lia|].
  cbn [orb]. assert (attempts <> 0) as Ha1.
  { intros ->. rewrite Z.mul_0_r, iter_no_distance in Hit by done. injection Hit as <-. unfold OP_ITER_END in *. lia. }
  split; [done|]. rewrite (Hb0 ltac:(lia)), Z.add_0_l, (wrap_small 64) in Hle, Hno by mach_lia.
  destruct (acquire_fresh worker mgr Hw) as (mgr1 & tx & -> & Hid & Hl & Hmw).
  destruct (read_candidate_spec db tx P L M H found randoms Hinv (solo_start _ tx Hu Hid Hl) Hl Hm) as (num & k & p & e & _ & Hp & Hrd).
  destruct (read_candidate only_ttl policy db tx found randoms) as [[[[db' tx'] key] randoms']|].
  2:{ exists mgr1, 0, p, e. rewrite Hmw. split; [done|]. split; [done|]. right. right. destruct Hrd as [-> _]. by split. }
  destruct Hrd as (ls & -> & Hls & Hs' & Hskip & Hsome & Hlen'). cbn [mbind option_bind hashtable with_table].
  destruct (release_solo (with_locks (hashtable db) ls) tx' Hs') as [tx2 ->]. rewrite relock by done. cbn [mbind option_bind].
  rewrite same_table.
  assert (0 <= found < buckets_count_real (hashtable db)) by lia.
  destruct key as [key|].
  - exists mgr1, found, p, e. rewrite Hmw. split; [done|]. split; [done|]. left. exists key, randoms'. split; [done|]. split.
    + split; [lia|]. split; [lia|]. split; [lia|]. rewrite zlen_app. split; [unfold zlen in *; cbn [length]; lia|].
      apply Forall_app. split; [done|]. constructor; [|done]. exists r. cbn [kv_value]. split; [done|]. split; [lia|]. by split.
    + split; [done|]. intros Hot Hx. by specialize (Hskip Hot Hx).
  - exists mgr1, (u64 (found - r)), p, e. rewrite Hmw. split; [done|]. split; [done|]. right. left. rewrite (wrap_small 64) by mach_lia.
    assert (only_ttl = true) as Hot by (clear - Hsome; destruct only_ttl; [done|by destruct (Hsome eq_refl)]). split; [done|]. exists randoms'. split; [done|]. split; [lia|]. split; [lia|]. split; [lia|]. by split.
Qed.

(** The loop has not ended. *)
Definition loop_continues (attempts : Z) (candidates : list kv_list_entry) : bool :=
  (zlen candidates <? ARRAY_LENGTH) && (attempts <? STORAGE_DB_KEYS_EVICTION_ITER_MAX_SEARCH_ATTEMPTS).

Lemma candidates_loop_ends fuel db mgr randoms b attempts candidates :
  loop_continues attempts candidates = false ->
  candidates_loop worker only_ttl policy fuel db mgr randoms b attempts candidates = Some (db, mgr, b, attempts, candidates).
Proof. unfold loop_continues. intros He. destruct fuel; cbn [candidates_loop]; by rewrite He. Qed.

Lemma loop_continues_true attempts candidates :
  loop_continues attempts candidates = true ->
  zlen candidates < ARRAY_LENGTH /\ attempts < STORAGE_DB_KEYS_EVICTION_ITER_MAX_SEARCH_ATTEMPTS.
Proof. intros [?%Z.ltb_lt ?%Z.ltb_lt]%andb_true_iff. done. Qed.

Lemma candidates_loop_out db mgr randoms b attempts candidates fuel :
  loop_continues attempts candidates = true -> fuel = O \/ randoms = [] ->
  candidates_loop worker only_ttl policy fuel db mgr randoms b attempts candidates = None.
Proof. unfold loop_continues. intros He Hf. destruct fuel, randoms; cbn [candidates_loop]; rewrite He; cbn [negb]; try done. by destruct Hf. Qed.

Lemma candidates_loop_spec P L M H db fuel : forall mgr randoms b attempts candidates,
  db_inv db P L M H -> unlocked (hashtable db) -> in_u 16 (manager_worker worker mgr) ->
  searching (hashtable db) b attempts candidates ->
  match candidates_loop worker only_ttl policy fuel db mgr randoms b attempts candidates with
  | Some (db', mgr', b', attempts', candidates') => db' = db /\ in_u 16 (manager_worker worker mgr') /\
      searching (hashtable db) b' attempts' candidates' /\
      (STORAGE_DB_KEYS_EVICTION_ITER_MAX_SEARCH_ATTEMPTS <= attempts' \/ zlen candidates' = ARRAY_LENGTH)
  | None => True
  end.
Proof.
  induction fuel as [|fuel IH]; intros mgr randoms b attempts candidates Hinv Hu Hw Hst;
    (destruct (loop_continues attempts candidates) eqn:Hend;
      [|rewrite candidates_loop_ends by done; split_and!; try done; pose proof Hst as (_ & _ & _ & Hlen & _);
        apply andb_false_iff in Hend as [E|E]; apply Z.ltb_ge in E; [right; lia|by left]]).
  - by rewrite candidates_loop_out by auto.
  - destruct randoms as [|x randoms]; [by rewrite candidates_loop_out by auto|]. apply loop_continues_true in Hend as [E1 E2].
    destruct (iteration_goes_on P L M H db fuel mgr x randoms b attempts candidates Hinv Hu Hw Hst E1 E2)
      as [(-> & Hst' & _)|(_ & mgr' & b' & p & e & Hw' & _ & [(key & rs & -> & Hst' & _)|[(_ & rs & -> & Hst')|[-> _]]])]; [..|done]; by apply IH.
Qed.

(** Without only_ttl each number is an attempt that is lost or gives a
    candidate, and five are lost in a row at most. *)
Lemma candidates_loop_total P L M H db fuel : forall mgr randoms b attempts candidates,
  db_inv db P L M H -> unlocked (hashtable db) -> in_u 16 (manager_worker worker mgr) -> only_ttl = false ->
  searching (hashtable db) b attempts candidates ->
  (ARRAY_LENGTH - zlen candidates) * 6 + 5 - attempts <= Z.of_nat fuel ->
  ((ARRAY_LENGTH - zlen candidates) * 6 + 5 - attempts) * 2 <= zlen randoms ->
  is_Some (candidates_loop worker only_ttl policy fuel db mgr randoms b attempts candidates).
Proof.
  induction fuel as [|fuel IH]; intros mgr randoms b attempts candidates Hinv Hu Hw Hot Hst Hf Hrs;
    (destruct (loop_continues attempts candidates) eqn:Hend; [|rewrite candidates_loop_ends by done; by eexists]);
    apply loop_continues_true in Hend as [E1 E2]; unfold STORAGE_DB_KEYS_EVICTION_ITER_MAX_SEARCH_ATTEMPTS in E2; [lia|].
  destruct randoms as [|x randoms]; [unfold zlen in *; cbn [length] in *; lia|]. rewrite zlen_cons in Hrs.
  destruct (iteration_goes_on P L M H db fuel mgr x randoms b attempts candidates Hinv Hu Hw Hst E1 E2)
      as [(-> & Hst' & _)|(_ & mgr' & b' & p & e & Hw' & _ & [(key & rs & -> & Hst' & Hl & _)|[(Hot' & _)|[-> ->]]])].
  - apply IH; try done; lia.
  - apply IH; try done; rewrite zlen_app; change (zlen [KvEntry b' key]) with 1; [lia|]. unfold zlen in *. lia.
  - congruence.
  - unfold zlen in *. cbn [length] in *. lia.
Qed.

(** With only_ttl and no expiry anywhere near, no candidate is ever found and
    every entry found starts the attempts again. *)
Lemma candidates_loop_stuck P L M H db q fuel : forall mgr randoms b attempts,
  db_inv db P L M H -> unlocked (hashtable db) -> in_u 16 (manager_worker worker mgr) -> only_ttl = true ->
  (forall p e, heap db !! p = Some e -> expiry_time_ms e = STORAGE_DB_ENTRY_NO_EXPIRY) ->
  match_bucket (hashtable db) true 0 q -> buckets_count_real (hashtable db) / ARRAY_LENGTH <= q + 1 ->
  q < STORAGE_DB_KEYS_EVICTION_ITER_MAX_DISTANCE ->
  searching (hashtable db) b attempts [] -> attempts <= 1 ->
  candidates_loop worker only_ttl policy fuel db mgr randoms b attempts [] = None.
Proof.
  induction fuel as [|fuel IH]; intros mgr randoms b attempts Hinv Hu Hw Hot Hexp Hq Hq1 Hq2 Hst Hat;
    assert (loop_continues attempts [] = true) as Hend by (unfold loop_continues; change (zlen (@nil kv_list_entry) <? ARRAY_LENGTH) with true;
      apply Z.ltb_lt; unfold STORAGE_DB_KEYS_EVICTION_ITER_MAX_SEARCH_ATTEMPTS; lia);
    [by rewrite candidates_loop_out by auto|].
  destruct randoms as [|x randoms]; [by rewrite candidates_loop_out by auto|]. apply loop_continues_true in Hend as [E1 E2].
  pose proof (segment_positive _ (inv_shape _ _ _ (di_table _ _ _ _ _ _ Hinv))) as Hseg.
  pose proof (Z.mod_pos_bound x _ Hseg) as Hr. pose proof Hst as (_ & Ha0 & _).
  destruct (iteration_goes_on P L M H db fuel mgr x randoms b attempts [] Hinv Hu Hw Hst E1 E2)
    as [(-> & Hst' & Hno)|(_ & mgr' & b' & p & e & Hw' & He & [(key & rs & _ & _ & _ & Hex)|[(_ & rs & -> & Hst')|[-> _]]])].
  - destruct (decide (attempts = 0)) as [->|Hnz]; [by apply IH|]. assert (attempts = 1) as -> by lia.
    rewrite Z.mul_1_r in Hno. destruct (Hno Hnz q); [lia|done].
  - destruct (Hex Hot). by eapply Hexp.
  - by apply IH.
  - done.
Qed.

End candidates.

(** ** The deletions *)

(** A lock is asked for: the transaction still holds what it holds. *)
Lemma upgrade_any d tx c :
  solo (locks d) tx -> 0 <= c < zlen (locks d) ->
  exists ls tx' ok, transaction_upgrade_lock_for_write d tx c = Some (with_locks d ls, tx', ok) /\
    zlen ls = zlen (locks d) /\ solo ls tx' /\ zlen (locks_list tx') <= zlen (locks_list tx) + 1 /\
    (forall r, reads (locks_list tx') r = reads (locks_list tx) r) /\
    (forall r, r <> c -> has_write (locks_list tx') r = has_write (locks_list tx) r) /\
    (has_write (locks_list tx') c = true -> has_write (locks_list tx) c = true \/ reads (locks_list tx) c = 1) /\
    (ok = true -> has_write (locks_list tx) c = true \/ reads (locks_list tx) c = 1).
Proof.
  intros Hs Hc. destruct (solo_lock _ _ _ Hs Hc) as (l & Hl & Hrd & Hid).
  change (transaction_upgrade_lock_for_write d tx c) with (lock_step d tx (OpUpgrade c)). rewrite lock_step_table.
  destruct (lock_step (locks d) tx (OpUpgrade c)) as [[[ls tx'] ok]|] eqn:Ho.
  2:{ cbn [lock_step] in Ho. unfold transaction_upgrade_lock_for_write in Ho. cbn [get_lock list_lock_store] in Ho.
      rewrite Hl in Ho. cbn [mbind option_bind] in Ho. by repeat case_match. }
  exists ls, tx', ok. split; [done|]. pose proof (lock_step_length _ _ _ _ _ _ Ho) as Hlen.
  split; [unfold zlen; lia|]. split; [by eapply solo_step|].
  cbn [lock_step] in Ho. unfold transaction_upgrade_lock_for_write in Ho. cbn [get_lock set_lock list_lock_store] in Ho.
  rewrite Hl in Ho. cbn [mbind option_bind] in Ho. rewrite (has_write_owned _ _ _ _ Hs Hl) in Ho.
  assert (forall l', (if has_write (locks_list tx) c then Some l else transaction_rwspinlock_write_lock_internal l tx 1) = Some l' ->
    has_write (locks_list tx) c = true \/ reads (locks_list tx) c = 1) as Hgot.
  { intros l'. destruct (has_write (locks_list tx) c); [by left|]. unfold transaction_rwspinlock_write_lock_internal, write_lock_spins,
      transaction_rwspinlock_try_write_lock_internal. destruct (_ =? _); [|done]. destruct (Z.eqb_spec (readers_count l) 1); [|done].
    intros _. right. lia. }
  destruct (if has_write (locks_list tx) c then Some l else _) as [l'|] eqn:E; injection Ho as <- <- <-.
  - destruct (step_of_add tx c LOCK_TYPE_WRITE) as [_ Hln Hne Heq _]. split; [lia|]. split.
    + intros r. destruct (decide (r = c)) as [->|]; [rewrite Heq, decide_False by done; lia|by apply Hne].
    + split; [|split; intros; by eapply Hgot]. intros r Hr. rewrite locks_list_add_list, has_write_snoc. unfold is_write_of. cbn [spinlock lock_type].
      rewrite bool_decide_eq_false_2 by naive_solver. by rewrite orb_false_r.
  - split_and!; try done; [lia|by left].
Qed.

(** The bucket of a candidate, which may have been emptied meanwhile, or be in
    a chunk the transaction has not locked. *)
Lemma get_by_index_any d tx b :
  table_inv None d -> solo (locks d) tx -> zlen (locks_list tx) < UINT16_MAX -> 0 <= b < buckets_count_real d ->
  exists ls tx' r, hashtable_mcmp_op_get_by_index d tx b = Some (with_locks d ls, tx', r) /\
    zlen ls = zlen (locks d) /\ solo ls tx' /\ zlen (locks_list tx') <= zlen (locks_list tx) + 1 /\
    (forall q, q <> b / CHUNK_SLOTS -> reads (locks_list tx') q = reads (locks_list tx) q) /\
    (forall q, has_write (locks_list tx') q = has_write (locks_list tx) q).
Proof.
  intros Hi Hs Hlen Hb. pose proof (inv_shape _ _ _ Hi) as Hsh. rewrite (sh_real _ Hsh) in Hb.
  pose proof (Z.mod_pos_bound b CHUNK_SLOTS ltac:(done)) as Hsr. pose proof (bucket_split b) as Hsp.
  set (c := b / CHUNK_SLOTS) in *. set (s := b `mod` CHUNK_SLOTS) in *.
  assert (0 <= c < chunks_count d) as Hc by (unfold CHUNK_SLOTS in *; lia). unfold hashtable_mcmp_op_get_by_index. fold c s.
  destruct (zget_in_range (half_hashes_chunk d) c) as [ch Hch]; [by rewrite (sh_half _ Hsh)|]. rewrite Hch. cbn [mbind option_bind].
  destruct (zget_in_range (half_hashes ch) s) as [id Hid]; [by rewrite (ck_len _ (inv_chunk _ _ _ Hi c ch Hch))|].
  rewrite Hid. cbn [mbind option_bind]. destruct (slot_filled id =? 0).
  - exists (locks d), tx, None. rewrite with_locks_same. split_and!; try done. lia.
  - destruct (read_lock_spec d tx c Hs) as (ls & tx1 & Hrl & Hls & Hs1 & Hst & Hw); [by rewrite (sh_locks _ Hsh)|done|].
    rewrite Hrl. cbn [mbind option_bind negb keys_values with_locks].
    destruct (zget_in_range (keys_values d) b) as [kv Hkv]; [rewrite (sh_kvs _ Hsh), (sh_real _ Hsh); lia|].
    rewrite Hkv. cbn [mbind option_bind]. exists ls, tx1, (Some (database_number kv, data kv)). split_and!; try done.
    + pose proof (step_len _ _ _ _ Hst). lia.
    + apply (step_reads_ne _ _ _ _ Hst).
Qed.

Lemma delete_by_index_any d tx m b :
  table_inv None d -> represents d m -> solo (locks d) tx -> 0 <= b < buckets_count_real d ->
  exists d' tx' r, hashtable_mcmp_op_delete_by_index_all_databases d tx true b = Some (d', tx', r) /\
    zlen (locks d') = zlen (locks d) /\ solo (locks d') tx' /\ zlen (locks_list tx') <= zlen (locks_list tx) + 1 /\
    (forall q, reads (locks_list tx') q = reads (locks_list tx) q) /\
    (forall q, has_write (locks_list tx') q = true -> has_write (locks_list tx) q = true \/ reads (locks_list tx) q = 1) /\
    match r with
    | None => exists ls, d' = with_locks d ls
    | Some v => exists n k, entry_at d (b / CHUNK_SLOTS) (b `mod` CHUNK_SLOTS) n k v /\
        (has_write (locks_list tx) (b / CHUNK_SLOTS) = true \/ reads (locks_list tx) (b / CHUNK_SLOTS) = 1) /\
        table_inv None d' /\ represents d' (delete (n, k) m) /\ buckets_count_real d' = buckets_count_real d /\
        forall c' s' n' k' v', entry_at d' c' s' n' k' v' <-> entry_at d c' s' n' k' v' /\ (n', k') <> (n, k)
    end.
Proof.
  intros Hi Hm Hs Hb. pose proof (inv_shape _ _ _ Hi) as Hsh. rewrite (sh_real _ Hsh) in Hb.
  pose proof (Z.mod_pos_bound b CHUNK_SLOTS ltac:(done)) as Hsr. pose proof (bucket_split b) as Hsp.
  set (c := b / CHUNK_SLOTS) in *. set (s := b `mod` CHUNK_SLOTS) in *.
  assert (0 <= c < chunks_count d) as Hc by (unfold CHUNK_SLOTS in *; lia). unfold hashtable_mcmp_op_delete_by_index_all_databases. fold c s.
  destruct (zget_in_range (half_hashes_chunk d) c) as [ch Hch]; [by rewrite (sh_half _ Hsh)|]. rewrite Hch. cbn [mbind option_bind].
  destruct (zget_in_range (half_hashes ch) s) as [id Hid]; [by rewrite (ck_len _ (inv_chunk _ _ _ Hi c ch Hch))|].
  rewrite Hid. cbn [mbind option_bind]. assert (slot d c s = Some id) as Hslot by (unfold slot; by rewrite Hch).
  destruct (slot_filled id =? 0) eqn:Hfilled.
  - exists d, tx, None. split_and!; try done; [lia|by left|]. exists (locks d). by rewrite with_locks_same.
  - destruct (upgrade_any d tx c Hs) as (ls & tx' & ok & -> & Hls & Hs' & Hlen & Hrd & Hw & Hwc & Hok); [by rewrite (sh_locks _ Hsh)|].
    cbn [mbind option_bind keys_values with_locks].
    assert (forall q, has_write (locks_list tx') q = true -> has_write (locks_list tx) q = true \/ reads (locks_list tx) q = 1) as Hwq.
    { intros q Hq. destruct (decide (q = c)) as [->|Hne]; [by apply Hwc|]. left. by rewrite <- Hw. }
    destruct ok; cbn [negb]; [|exists (with_locks d ls), tx', None; split_and!; try done; by exists ls].
    assert (id <> 0) as Hnz by (intros ->; by cbn in Hfilled).
    destruct (slot_entry hash_fn d c s id Hi Hslot Hnz) as (n & k & v & He). pose proof He as [_ Hkv]. unfold kv_at in Hkv.
    rewrite Hsp, Hkv. cbn [mbind option_bind data filled].
    destruct (clear_entry_entries hash_fn (with_locks d ls) c s n k v) as (d' & Hclr & Hi' & Hl' & Hcc & Hse);
      [by apply inv_with_locks|exact He|].
    destruct (clear_slot (with_locks d ls) c s) as [d2|]; [|done]. cbn [mbind option_bind] in *. rewrite Hclr. cbn [mbind option_bind].
    exists d', tx', (Some v). rewrite Hl'. cbn [locks with_locks]. split_and!; try done. exists n, k. split; [done|].
    split; [by apply Hok|]. split; [done|]. split; [by eapply represents_delete|]. split; [|done].
    rewrite (sh_real _ (inv_shape _ _ _ Hi')), Hcc, (sh_real _ Hsh). done.
Qed.

(** The numbers the entries keep are the ones of their databases. *)
Definition numbers_ok db : Prop := forall c s n k p e,
  entry_at (hashtable db) c s n k p -> heap db !! p = Some e -> entry_database_number e = n /\ 0 <= n < 2 ^ 32.

(** A retired entry without readers has no chunks. *)
Lemma retired_value db' L H p :
  heap_inv db' (delete p L) H -> is_Some (heap db' !! p) -> p ∉ deleting db' ->
  exists e, heap db' !! p = Some e /\ value e = no_chunks.
Proof.
  intros Hi Hp Hnd. apply (hi_dom _ _ _ Hi) in Hp as [Hp|[Hp|Hp]]; [|done|].
  - rewrite lookup_delete_eq in Hp. by destruct Hp.
  - destruct (hi_ring _ _ _ Hi p Hp) as (_ & e & He & _ & Hv). by exists e.
Qed.

(** The deletion by index of any bucket of the table. *)
Lemma op_delete_by_index_any db tx P L M H b :
  db_inv db P L M H -> numbers_ok db -> solo (locks (hashtable db)) tx -> 0 <= b < buckets_count_real (hashtable db) ->
  zlen (deleting db) + live_readers L H < 999 ->
  exists db' tx' deleted p, storage_db_op_delete_by_index_all_databases db tx true b = Some (db', tx', deleted, p) /\
    solo (locks (hashtable db')) tx' /\ zlen (locks_list tx') <= zlen (locks_list tx) + 1 /\
    (forall q, reads (locks_list tx') q = reads (locks_list tx) q) /\
    (forall q, has_write (locks_list tx') q = true -> has_write (locks_list tx) q = true \/ reads (locks_list tx) q = 1) /\
    if (deleted : bool) then
      exists n k L' e, entry_at (hashtable db) (b / CHUNK_SLOTS) (b `mod` CHUNK_SLOTS) n k p /\
        (has_write (locks_list tx) (b / CHUNK_SLOTS) = true \/ reads (locks_list tx) (b / CHUNK_SLOTS) = 1) /\
        is_Some (M !! (n, k)) /\ db_inv db' (delete (n, k) P) L' (delete (n, k) M) H /\ numbers_ok db' /\
        zlen (deleting db') + live_readers L' H <= zlen (deleting db) + live_readers L H /\
        buckets_count_real (hashtable db') = buckets_count_real (hashtable db) /\
        (forall c' s' n' k' v', entry_at (hashtable db') c' s' n' k' v' -> entry_at (hashtable db) c' s' n' k' v') /\
        heap db' !! p = Some e /\ (readers_of H p = 0 -> value e = no_chunks)
    else exists ls, db' = with_table db (with_locks (hashtable db) ls) /\ zlen ls = zlen (locks (hashtable db)).
Proof.
  intros Hinv Hnum Hs Hb Hpot. pose proof (di_table _ _ _ _ _ _ Hinv) as Ht. pose proof (di_represents _ _ _ _ _ _ Hinv) as Hrep.
  destruct (delete_by_index_any (hashtable db) tx P b Ht Hrep Hs Hb) as (d' & tx' & r & Hdel & Hl & Hs' & Hlen & Hrd & Hw & Hr).
  unfold storage_db_op_delete_by_index_all_databases. rewrite Hdel. cbn [mbind option_bind].
  destruct r as [p|].
  2:{ destruct Hr as [ls ->]. exists (with_table db (with_locks (hashtable db) ls)), tx', false, 0. split_and!; try done. by exists ls. }
  destruct Hr as (n & k & He & Hlk & Ht' & Hrep' & Hreal & Hse).
  destruct (entry_alive hash_fn db P L M H n _ _ k p Hinv He) as [HP [e Hp]]. destruct (Hnum _ _ _ _ _ _ He Hp) as [Hen Hn].
  pose proof (sound_with_table db d' _ _ (di_sound _ _ _ _ _ _ Hinv)) as Hso.
  pose proof (live_readers_le L H). assert (0 <= live_readers L H) by apply zlen_nonneg.
  destruct (delete_current_exact (with_table db d') P L M H n k p Hso (di_links _ _ _ _ _ _ Hinv) (di_counts _ _ _ _ _ _ Hinv) HP Hn
    ltac:(cbn; lia)) as (Hpos & db2 & Hcur & Hso2 & Hli2 & Hc2 & Ht2 & Hd2 & Hin).
  destruct (Z.eqb_spec p 0); [lia|]. cbn [negb heap with_table]. rewrite Hp. cbn [mbind option_bind]. rewrite Hen, Hcur. cbn [mbind option_bind].
  destruct (lk_value _ _ _ (di_links _ _ _ _ _ _ Hinv) _ _ HP) as (a & HL & HM).
  pose proof (live_readers_delete L H p ltac:(by eexists)). pose proof (readers_of_nonneg H p). cbn [deleting_entry_index_list with_table] in Hd2.
  destruct Hin as [e' He'].
  exists db2, tx', true, p. rewrite Ht2. cbn [hashtable with_table]. split_and!; try done. exists n, k, (delete p L), e'. split_and!; try done.
  - split; rewrite ?Ht2; done.
  - intros c s n' k' p' x Hx Hpx. rewrite Ht2 in Hx. apply Hse in Hx as [Hx _].
    destruct (delete_current_kept (with_table db d') L H n p db2 Hso Hn Hcur p' x Hpx) as (x0 & Hx0 & _ & <-).
    by apply (Hnum _ _ _ _ _ _ Hx).
  - rewrite Hd2, zlen_app. unfold left_behind. destruct (Z.eqb_spec (readers_of H p) 0); unfold zlen at 2; cbn [length]; lia.
  - intros c' s' n' k' v' Hx. by apply Hse in Hx as [Hx _].
  - intros Hr0. destruct (retired_value db2 L H p (so_heap _ _ _ Hso2)) as (e2 & He2 & Hv).
    + by eexists.
    + rewrite Hd2. unfold left_behind. rewrite Hr0. cbn [Z.eqb]. rewrite app_nil_r. intros Hdl.
      apply (hi_disjoint _ _ _ (so_heap _ _ _ (di_sound _ _ _ _ _ _ Hinv)) p); [by eexists|]. set_solver.
    + congruence.
Qed.

(** The key has its entry in the chunk [c]. *)
Definition in_chunk db (c : Z) (k : Z * list Z) : Prop := exists s p, entry_at (hashtable db) c s k.1 k.2 p.

(** [num] keys were evicted, all of them from the chunk [c]. *)
Record evicted db (c : Z) M (readers : list Z) (cn : counters) M' (cn' : counters) (num : Z) : Prop := {
  ev_sub : M' ⊆ M;
  ev_count : key_count M = key_count M' + num;
  ev_chunk k : is_Some (M !! k) -> M' !! k = None -> in_chunk db c k;
  ev_keys : keys_count cn' = i64 (keys_count cn - num);
  ev_size : readers = [] -> data_size cn' = data_size cn
}.

Definition in_range64 (cn : counters) : Prop := i64 (keys_count cn) = keys_count cn /\ i64 (data_size cn) = data_size cn.

Lemma evicted_none db c M readers cn : in_range64 cn -> evicted db c M readers cn M cn 0.
Proof.
  intros [Hk _]. split; [done|lia| |by rewrite Z.sub_0_r|done]. intros k [a Ha] Hn. congruence.
Qed.

(** One more key before the others. *)
Lemma evicted_step db db' c M readers cn M' cn' num s n k p size :
  is_Some (M !! (n, k)) -> entry_at (hashtable db) c s n k p -> (readers = [] -> size = 0) -> in_range64 cn ->
  (forall c' s' n' k' v', entry_at (hashtable db') c' s' n' k' v' -> entry_at (hashtable db) c' s' n' k' v') ->
  evicted db' c (delete (n, k) M) readers
    (Counters (i64 (keys_count cn - 1)) (i64 (data_size cn - i64 size)) (keys_changed cn) (data_changed cn)) M' cn' num ->
  evicted db c M readers cn M' cn' (num + 1).
Proof.
  intros HM He Hsize [Hk Hd] Hse [Hsub Hcnt Hch Hkeys Hds]. split.
  - transitivity (delete (n, k) M); [done|apply delete_subseteq].
  - rewrite key_count_delete in Hcnt by done. lia.
  - intros k' Hk' Hn. destruct (decide (k' = (n, k))) as [->|Hne]; [by exists s, p|].
    destruct (Hch k') as (s' & p' & He'); [by rewrite lookup_delete_ne by congruence|done|]. exists s', p'. by apply Hse.
  - rewrite Hkeys. cbn [keys_count]. rewrite <- !Z.add_opp_r, i64_add_l. f_equal. lia.
  - intros H0. rewrite (Hds H0). cbn [data_size]. rewrite (Hsize H0). change (i64 0) with 0. by rewrite Z.sub_0_r.
Qed.

Lemma evicted_locks db ls c M readers cn M' cn' num :
  evicted (with_table db (with_locks (hashtable db) ls)) c M readers cn M' cn' num -> evicted db c M readers cn M' cn' num.
Proof. intros [? ? Hc ? ?]. split; try done. Qed.

(** The locks of a transaction are in one chunk. *)
Definition locks_in (tx : transaction) (c : Z) : Prop :=
  forall q, q <> c -> reads (locks_list tx) q = 0 /\ has_write (locks_list tx) q = false.

Lemma locks_in_delete tx tx' c :
  locks_in tx c -> (forall q, reads (locks_list tx') q = reads (locks_list tx) q) ->
  (forall q, has_write (locks_list tx') q = true -> has_write (locks_list tx) q = true \/ reads (locks_list tx) q = 1) -> locks_in tx' c.
Proof.
  intros Hc Hr Hw q Hq. destruct (Hc q Hq) as [H0 H1]. split; [by rewrite Hr|].
  destruct (has_write (locks_list tx') q) eqn:E; [|done]. destruct (Hw q E); [congruence|lia].
Qed.

(** What the candidates may be once they are sorted. *)
Definition candidate_or_filler d (x : kv_list_entry) : Prop :=
  x = KvEntry UINT64_MAX UINT64_MAX \/ 0 <= kv_value x < buckets_count_real d.

Lemma evict_loop_spec H sorted b fuel : forall db tx P L M i first num cn,
  let c := b / CHUNK_SLOTS in
  db_inv db P L M H -> numbers_ok db -> solo (locks (hashtable db)) tx -> locks_in tx c ->
  zlen (locks_list tx) <= 2 * i -> 0 <= i -> i + Z.of_nat fuel = ARRAY_LENGTH -> 0 <= first <= 5 + i -> 0 <= num <= i ->
  0 <= b < buckets_count_real (hashtable db) -> zlen sorted = ARRAY_LENGTH ->
  Forall (candidate_or_filler (hashtable db)) sorted -> zlen (deleting db) + live_readers L H < 999 -> in_range64 cn ->
  exists db' tx' M' num' cn', evict_loop fuel db tx sorted b i first num cn = Some (db', tx', num', cn') /\
    solo (locks (hashtable db')) tx' /\ (exists P' L', db_inv db' P' L' M' H) /\ evicted db c M H.*1 cn M' cn' (num' - num) /\
    num <= num' <= ARRAY_LENGTH.
Proof.
  induction fuel as [|fuel IH]; intros db tx P L M i first num cn c Hinv Hnum Hs Hin Hlk Hi Hf Hfirst Hn Hb Hlen Hall Hpot Hcn;
    cbn [evict_loop];
    (destruct (negb _) eqn:Hend;
      [exists db, tx, M, num, cn; rewrite Z.sub_diag; split_and!; try done; try (by exists P, L); try (by apply evicted_none); unfold ARRAY_LENGTH in *; lia|]);
    apply negb_false_iff, andb_true_iff in Hend as [E1%Z.ltb_lt E2%Z.ltb_lt]; [lia|].
  destruct (zget_in_range sorted i) as [x Hx]; [lia|]. rewrite Hx. cbn [mbind option_bind].
  destruct ((kv_key x =? UINT64_MAX) && (kv_value x =? UINT64_MAX)) eqn:Hstop.
  { exists db, tx, M, num, cn. rewrite Z.sub_diag. split_and!; try done; try (by exists P, L); try (by apply evicted_none); unfold ARRAY_LENGTH in *; lia. }
  assert (0 <= kv_value x < buckets_count_real (hashtable db)) as Hv.
  { rewrite zget_nat in Hx by done. apply list_elem_of_lookup_2 in Hx. rewrite Forall_forall in Hall.
    destruct (Hall x Hx) as [->|]; [by cbn in Hstop|done]. }
  pose proof (di_table _ _ _ _ _ _ Hinv) as Ht.
  destruct (get_by_index_any (hashtable db) tx b Ht Hs) as (ls & tx1 & r & Hg & Hls & Hs1 & Hlen1 & Hrd1 & Hw1);
    [unfold UINT16_MAX, ARRAY_LENGTH in *; lia|done|].
  unfold hashtable_mcmp_op_get_by_index_all_databases. rewrite Hg. cbn [mbind option_bind].
  set (db1 := with_table db (with_locks (hashtable db) ls)).
  assert (db_inv db1 P L M H) as Hinv1 by by apply db_inv_with_locks.
  assert (locks_in tx1 c) as Hin1.
  { intros q Hq. destruct (Hin q Hq). by rewrite Hrd1, Hw1. }
  assert (u8 (first + 1) = first + 1) as Hfirst1 by (apply wrap_small; unfold ARRAY_LENGTH in *; lia).
  destruct r as [[r0 r1]|]; cbn [mbind option_bind].
  2:{ rewrite Hfirst1. destruct (IH db1 tx1 P L M (i + 1) (first + 1) num cn Hinv1 Hnum Hs1 Hin1)
        as (db' & tx' & M' & num' & cn' & -> & Hs' & Hinv' & Hev%evicted_locks & Hn'); try done; try lia.
      by exists db', tx', M', num', cn'. }
  destruct (op_delete_by_index_any db1 tx1 P L M H (kv_value x) Hinv1 Hnum Hs1 Hv Hpot)
    as (db2 & tx2 & deleted & p & -> & Hs2 & Hlen2 & Hrd2 & Hw2 & Hres). cbn [mbind option_bind].
  pose proof (locks_in_delete tx1 tx2 c Hin1 Hrd2 Hw2) as Hin2. destruct deleted.
  - destruct Hres as (n & k & L' & e & He & Hlock & HM & Hinv2 & Hnum2 & Hpot2 & Hreal & Hse & Hp & Hval).
    assert (kv_value x / CHUNK_SLOTS = c) as Hc.
    { destruct (decide (kv_value x / CHUNK_SLOTS = c)) as [|Hne]; [done|]. destruct (Hin1 _ Hne) as [Hr0 Hw0].
      destruct Hlock; [congruence|lia]. }
    rewrite Hp. cbn [mbind option_bind]. rewrite (wrap_small 8 (num + 1)) by (unfold ARRAY_LENGTH in *; lia).
    change (deleting_entry_index_list db1) with (deleting db) in Hpot2.
    assert (H.*1 = [] -> seq_size (value e) = 0) as Hsz by (intros ->%fmap_nil_inv; by rewrite Hval).
    destruct (IH db2 tx2 _ L' _ (i + 1) first (num + 1)
      (Counters (i64 (keys_count cn - 1)) (i64 (data_size cn - i64 (seq_size (value e)))) (keys_changed cn) (data_changed cn))
      Hinv2 Hnum2 Hs2 Hin2) as (db' & tx' & M' & num' & cn' & -> & Hs' & Hinv' & Hev & Hn'); try done; try lia.
    { rewrite Hreal. done. }
    { eapply Forall_impl; [exact Hall|]. intros y. unfold candidate_or_filler. by rewrite Hreal. }
    { split; cbn [keys_count data_size]; apply swrap_small; try done; by apply swrap_range. }
    exists db', tx', M', num', cn'. split_and!; try done; [|lia|lia]. rewrite Hc in He.
    replace (num' - num) with (num' - (num + 1) + 1) by lia. apply (evicted_locks db ls).
    exact (evicted_step db1 db2 c M _ cn M' cn' _ _ n k p _ HM He Hsz Hcn Hse Hev).
  - destruct Hres as (ls2 & -> & Hls2). rewrite Hfirst1.
    destruct (IH (with_table db1 (with_locks (hashtable db1) ls2)) tx2 P L M (i + 1) (first + 1) num cn
      (db_inv_with_locks _ _ _ _ _ _ _ Hinv1 Hls2) Hnum Hs2 Hin2)
      as (db' & tx' & M' & num' & cn' & -> & Hs' & Hinv' & Hev%evicted_locks%evicted_locks & Hn'); try done; try lia.
    by exists db', tx', M', num', cn'.
Qed.


Lemma searching_start d : table_inv None d -> searching d 0 0 [].
Proof.
  intros Ht. pose proof (segment_positive d (inv_shape _ _ _ Ht)). pose proof (shape_real_bound _ (inv_shape _ _ _ Ht)).
  assert (buckets_count_real d / ARRAY_LENGTH <= buckets_count_real d) by (apply Z.div_le_upper_bound; unfold ARRAY_LENGTH in *;
    pose proof (sh_kvs _ (inv_shape _ _ _ Ht)); pose proof (zlen_nonneg (keys_values d)); lia).
  split; [lia|]. split; [lia|]. split; [done|]. split; [done|constructor].
Qed.

Lemma fill_candidates_spec d b attempts candidates :
  searching d b attempts candidates ->
  STORAGE_DB_KEYS_EVICTION_ITER_MAX_SEARCH_ATTEMPTS <= attempts \/ zlen candidates = ARRAY_LENGTH ->
  zlen (fill_candidates attempts candidates) = ARRAY_LENGTH /\
  Forall (fun x => candidate_of d x \/ x = KvEntry UINT64_MAX UINT64_MAX) (fill_candidates attempts candidates).
Proof.
  intros (_ & _ & _ & Hlen & Hc) Hend. unfold fill_candidates.
  assert (Forall (fun x => candidate_of d x \/ x = KvEntry UINT64_MAX UINT64_MAX) candidates) as Hc'
    by (eapply Forall_impl; [exact Hc|]; by left).
  destruct (Z.leb_spec STORAGE_DB_KEYS_EVICTION_ITER_MAX_SEARCH_ATTEMPTS attempts).
  - split; [rewrite zlen_app; unfold zlen in *; rewrite length_replicate; lia|]. apply Forall_app. split; [done|].
    apply Forall_replicate. by right.
  - split; [lia|done].
Qed.

Lemma candidate_in_range d x :
  table_inv None d -> candidate_of d x \/ x = KvEntry UINT64_MAX UINT64_MAX -> candidate_or_filler d x.
Proof.
  intros Ht [(r & _ & _ & Hm & _)|]; [right|by left]. apply (match_bucket_range hash_fn) in Hm; [|done].
  by rewrite (sh_real _ (inv_shape _ _ _ Ht)).
Qed.

End evict.

(** Where the eviction looks for its candidates.  On a database at rest
    the search of storage_db_keys_eviction_run_worker, when it ends, leaves the
    database alone and every candidate is the first entry at or after a bucket
    of the first sixty-fourth of the table: after a candidate the distance of
    the next search is zero, so the search starts again from bucket 0, and the
    loop never advances through the table as its comment says. *)
Theorem eviction_candidates_first_segment (hash_fn : Z -> list Z -> Z) (worker : Z) (only_ttl : bool)
    (policy : ConfigLoad.config_database_keys_eviction_policy) (db : storage_db) (mgr : transaction_manager)
    (readers : list Z) (M : value_map) (R : list chunk_sequence) (randoms : list Z) :
  db_stands hash_fn db readers M R -> in_u 16 (manager_worker worker mgr) ->
  match candidates_loop worker only_ttl policy (length randoms) db mgr randoms 0 0 [] with
  | Some (db', _, _, search_attempts, candidates) => db' = db /\
      zlen (fill_candidates search_attempts candidates) = ARRAY_LENGTH /\
      Forall (fun x => candidate_of (hashtable db) x \/ x = KvEntry UINT64_MAX UINT64_MAX)
        (fill_candidates search_attempts candidates)
  | None => only_ttl = true \/ zlen randoms < 800
  end.
Proof.
  intros [(P & L & H & Hinv & _ & _) Hu] Hw. pose proof (searching_start hash_fn _ (di_table _ _ _ _ _ _ Hinv)) as Hst.
  pose proof (candidates_loop_spec hash_fn worker only_ttl policy P L M H db (length randoms) mgr randoms 0 0 [] Hinv Hu Hw Hst) as Hs.
  destruct (candidates_loop _ _ _ _ _ _ _ _ _ _) as [[[[[db' mgr'] b'] attempts'] candidates']|] eqn:Heq.
  - destruct Hs as (-> & _ & Hst' & Hend). split; [done|]. by apply (fill_candidates_spec _ b').
  - destruct only_ttl eqn:Hot; [by left|right]. apply Z.nle_gt. intros Hlen.
    destruct (candidates_loop_total hash_fn worker false policy P L M H db (length randoms) mgr randoms 0 0 [] Hinv Hu Hw eq_refl Hst)
      as [? ?]; [..|congruence]; unfold ARRAY_LENGTH, zlen in *; cbn [length] in *; lia.
Qed.



(** *** Examples *)

Definition evict_start : option storage_db := storage_db_new 64.
Definition evict_set : timed := Timed 10 10 (CSet (0, [90]) (text [1]) 0).
Definition evict_step (db0 : storage_db) : option (storage_db * transaction_manager * list Z * db_reply) :=
  run_db_command toy_hash (Config 0 0) 0 (db0, Manager 0 0 true, []) evict_set.
Definition evict_map : value_map := <[(0, [90]) := (text [1], 0)]> ∅.

(** Whether every entry is of database 0 and never expires, the first bucket
    with an entry, the segment and the deleted entries. *)
Definition entries_of (s : storage_db * transaction_manager * list Z * db_reply) : bool * option Z * Z * Z :=
  let db := s.1.1.1 in
  (forallb (fun x => (entry_database_number x.2 =? 0) && (expiry_time_ms x.2 =? STORAGE_DB_ENTRY_NO_EXPIRY)) (map_to_list (heap db)),
   hashtable_mcmp_op_iter_internal (hashtable db) true 0 0 5000, buckets_count_real (hashtable db) / ARRAY_LENGTH,
   zlen (deleting_entry_index_list db)).

Lemma example_entries : (db0 ← evict_start; s ← evict_step db0; Some (entries_of s)) = Some (true, Some 14, 8, 0).
Proof. vm_compute. reflexivity. Qed.

Lemma evict_example :
  exists db mgr, db_stands toy_hash db [] evict_map [] /\ in_u 16 (manager_worker 0 mgr) /\ numbers_ok db /\
    (forall p e, heap db !! p = Some e -> expiry_time_ms e = STORAGE_DB_ENTRY_NO_EXPIRY) /\
    match_bucket (hashtable db) true 0 14 /\ buckets_count_real (hashtable db) / ARRAY_LENGTH = 8 /\
    zlen (deleting_entry_index_list db) = 0.
Proof.
  destruct (new_idle toy_hash 64 ltac:(lia)) as (db0 & Hnew & Hidle).
  destruct (run_db_command_spec toy_hash (Config 0 0) 0 db0 (Manager 0 0 true) ∅ [] evict_set Hidle)
    as (db & mgr & r & M & H & Hrun & Hst & Hid & Hw' & _).
  { change (key_ok (0, [90]) /\ value_wf (text [1])). split; [apply letter_ok; lia|by apply text_wf]. }
  { cbv. by split. }
  { by rewrite (new_deleting 64 db0 Hnew). }
  { done. }
  exists db, mgr. remember (H.*2) as R eqn:HR. inversion Hst; subst.
  - destruct H; [|done]. assert (evict_step db0 = Some (db, mgr, [], RBool true)) as Hrun' by exact Hrun.
    assert (evict_start = Some db0) as Hnew' by exact Hnew.
    pose proof (bind_facts evict_start evict_step entries_of db0 _ _ Hnew' Hrun' example_entries) as Hf.
    unfold entries_of in Hf. cbn [fst snd] in Hf. apply pair4 in Hf as (Hf & Hit & Hseg & Hd).
    assert (forall p e, heap db !! p = Some e -> entry_database_number e = 0 /\ expiry_time_ms e = STORAGE_DB_ENTRY_NO_EXPIRY) as He.
    { intros p e He. rewrite forallb_forall in Hf. specialize (Hf (p, e)).
      assert (In (p, e) (map_to_list (heap db))) as Hin by by apply list_elem_of_In, elem_of_map_to_list.
      specialize (Hf Hin). apply andb_true_iff in Hf as [H1%Z.eqb_eq H2%Z.eqb_eq]. exact (conj H1 H2). }
    clear Hnew Hnew' Hrun Hrun' Hst Hidle.
    pose proof (idle_stands toy_hash db _ [] Hid) as Hs. split; [exact Hs|]. split; [done|].
    destruct Hs as [(P & L & H & Hinv & _ & _) _]. pose proof (di_table _ _ _ _ _ _ Hinv) as Ht.
    split; [|split; [|split; [|by split]]].
    + intros c s n k p e Hat Hp. destruct (He p e Hp) as [-> _].
      destruct (entry_alive _ _ _ _ _ _ _ _ _ _ _ Hinv Hat) as [HP _].
      assert (is_Some (evict_map !! (n, k))) as Hm by (apply (lk_is_Some P L _ (n, k) (di_links _ _ _ _ _ _ Hinv)); by eexists).
      unfold evict_map in Hm. apply lookup_insert_is_Some' in Hm as [[= <- _]|[? ?]]; [lia|by rewrite lookup_empty in H0].
    + intros p e Hp. by apply (He p e).
    + destruct (iter_bounded toy_hash (hashtable db) true 0 0 5000 Ht ltac:(done)) as (r & Hr & Hres). rewrite Hit in Hr.
      injection Hr as <-. destruct Hres as [[Hend _]|(_ & Hm & _)]; [done|exact Hm].
  - by match goal with H : 448 <= key_count ∅ |- _ => destruct H end.
Qed.

Lemma eviction_candidates_first_segment_witness :
  exists db attempts candidates, match_bucket (hashtable db) true 0 14 /\
    zlen (fill_candidates attempts candidates) = ARRAY_LENGTH /\
    Forall (fun x => candidate_of (hashtable db) x \/ x = KvEntry UINT64_MAX UINT64_MAX) (fill_candidates attempts candidates).
Proof.
  destruct evict_example as (db & mgr & Hs & Hw & _ & _ & Hm & _).
  pose proof (eviction_candidates_first_segment toy_hash 0 false ConfigLoad.CONFIG_DATABASE_KEYS_EVICTION_POLICY_LRU db mgr []
    evict_map [] (replicate 800 5) Hs Hw) as Hc.
  destruct (candidates_loop _ _ _ _ _ _ _ _ _ _) as [[[[[db' mgr'] b'] attempts] candidates]|].
  - destruct Hc as (_ & Hl & Hc). by exists db, attempts, candidates.
  - exfalso. destruct Hc as [Hc|Hc]; [done|]. unfold zlen in Hc. rewrite length_replicate in Hc. lia.
Defined.



End StorageDbEvict.
