(* ===== verification/RedisCommands.v ===== *)
(** * RedisCommands: the commands of the Redis module on strings and keys

    The commands of module/redis/command, on the database of [StorageDb]: each
    takes the context its arguments were parsed in and gives a reply.  A command
    runs in the little monad [command], over the database, the transaction
    manager of the worker and the transaction of the command, whose acquisition
    and release are actions like the others, as in the source.  [None] is a
    failed assert or an access the code must not make.  The sends succeed, and
    the clocks do not change during a command. *)

From Stdlib Require Import String.
From stdpp Require Import gmap.
From S2P Require Import Prelude Decimal Transaction HashtableMcmp EntryStatus UtilsString StorageDb StorageDbChunks.

Module RedisCommands.
Import Decimal Transaction HashtableMcmp EntryStatus UtilsString StorageDb StorageDbChunks.

(** ** Replies and commands *)

Inductive reply :=
  | RBlob (b : list Z)
  | RNull
  | ROk
  | RNumber (n : Z)
  | RArray (l : list reply)
  | RError (message : string)
  | RNothing.

Record session := Session {
  s_db : storage_db;
  s_manager : transaction_manager;
  s_transaction : transaction
}.

Definition command (A : Type) := session -> option (session * A).

#[export] Instance command_ret : MRet command := fun A a s => Some (s, a).
#[export] Instance command_bind : MBind command := fun A B f m s => '(s, a) ← m s; f a s.

Definition crash {A} : command A := fun s => None.
Definition assert (b : bool) : command unit := if b then mret tt else crash.

(** An operation of the database, of its data alone or with the transaction. *)
Definition look {A} (f : storage_db -> option A) : command A := fun s => a ← f (s_db s); Some (s, a).
Definition change (f : storage_db -> option storage_db) : command unit :=
  fun s => db ← f (s_db s); Some (Session db (s_manager s) (s_transaction s), tt).
Definition perform {A} (f : storage_db -> transaction -> option (storage_db * transaction * A)) : command A :=
  fun s => '(db, tx, a) ← f (s_db s) (s_transaction s); Some (Session db (s_manager s) tx, a).

Section commands.
Context (hash_fn : Z -> list Z -> Z) (cfg : config) (fill worker : Z).

(** The clocks, and the database the connection has selected. *)
Context (now mono database_number : Z).

Definition acquire : command unit := fun s =>
  let '(manager, tx) := transaction_acquire worker (s_manager s) in Some (Session (s_db s) manager tx, tt).
Definition release : command unit := fun s =>
  '(d, tx) ← transaction_release (hashtable (s_db s)) (s_transaction s);
  Some (Session (with_table (s_db s) d) (s_manager s) tx, tt).

Definition entry (p : Z) : command entry_index := look (fun db => heap db !! p).
Definition rmw_begin (k : list Z) : command (option (storage_db_op_rmw_status * Z)) :=
  perform (fun db tx => storage_db_op_rmw_begin hash_fn db tx now database_number k).
Definition prep_for_read (st : storage_db_op_rmw_status) (p : Z) : command Z := fun s =>
  '(db, p) ← storage_db_op_rmw_current_entry_index_prep_for_read (s_db s) mono st p;
  Some (Session db (s_manager s) (s_transaction s), p).
Definition commit_update (st : storage_db_op_rmw_status) (v : chunk_sequence) (expiry : Z) : command unit :=
  change (fun db => storage_db_op_rmw_commit_update cfg db now mono st v expiry).
Definition commit_metadata (st : storage_db_op_rmw_status) : command unit :=
  change (fun db => storage_db_op_rmw_commit_metadata db mono st).
Definition commit_delete (st : storage_db_op_rmw_status) : command unit :=
  change (fun db => storage_db_op_rmw_commit_delete db st).
Definition abort (st : storage_db_op_rmw_status) : command unit :=
  change (fun db => storage_db_op_rmw_abort db st).
Definition commit_rename (source destination : storage_db_op_rmw_status) : command unit :=
  change (fun db => storage_db_op_rmw_commit_rename db mono source destination).
Definition get_for_read (k : list Z) : command Z :=
  perform (fun db tx => storage_db_get_entry_index_for_read hash_fn db tx now mono database_number k).
Definition get_entry (k : list Z) : command Z :=
  perform (fun db tx => storage_db_get_entry_index hash_fn db tx mono database_number k).
Definition op_set (k : list Z) (v : chunk_sequence) (expiry : Z) : command bool :=
  perform (fun db tx => storage_db_op_set hash_fn cfg db tx now mono database_number k v expiry).
Definition op_delete (k : list Z) : command bool :=
  perform (fun db tx => storage_db_op_delete hash_fn db tx database_number k).
Definition done_reading (p : Z) : command unit := change (fun db => decrease_readers db p).
Definition set_entry_expiry (p t : Z) : command unit :=
  change (fun db => e ← heap db !! p; Some (update_entry db p (set_expiry e t))).

Definition module_redis_command_stream_entry (p : Z) : command reply :=
  e ← entry p;
  data ← look (fun _ => module_redis_command_stream_entry_range (value e) 0 (seq_size (value e)));
  mret (match data with Some b => RBlob b | None => RNothing end).

(** ** GET, SET and their variants *)

Definition get (key : list Z) : command reply :=
  _ ← acquire;
  p ← get_for_read key;
  r ← (if p =? 0 then mret RNull
       else r ← module_redis_command_stream_entry p;
            _ ← done_reading p;
            mret r);
  _ ← release;
  mret r.

(** The expiration of a SET or of a GETEX: the tokens that were given, with
    their values.  A Unix time is a uint64_t, the rest an int64_t. *)
Record expiration := Expiration {
  pxat_unix_time_milliseconds : option Z;
  exat_unix_time_seconds : option Z;
  px_milliseconds : option Z;
  ex_seconds : option Z;
  keepttl : bool;
  persist_token : bool
}.

(** The expiry asked for, with [default] when there is none; [None] is an
    invalid one. *)
Definition requested_expiry (e : expiration) (default : Z) : option Z :=
  match pxat_unix_time_milliseconds e, exat_unix_time_seconds e, px_milliseconds e, ex_seconds e with
  | Some t, _, _, _ => if t <=? 0 then None else Some (i64 t)
  | None, Some t, _, _ => if t <=? 0 then None else Some (i64 (i64 t * 1000))
  | None, None, Some t, _ => if t <=? 0 then None else Some (i64 (now + t))
  | None, None, None, Some t => if t <=? 0 then None else Some (i64 (now + i64 (t * 1000)))
  | None, None, None, None => Some default
  end.

Record set_context := SetContext {
  set_key : list Z;
  set_value : chunk_sequence;
  nx : bool;
  xx : bool;
  get_token : bool;
  set_expiration : expiration
}.

Definition set (c : set_context) : command reply :=
  _ ← acquire;
  match requested_expiry (set_expiration c) STORAGE_DB_ENTRY_NO_EXPIRY with
  | None => _ ← release; mret (RError "ERR invalid expire time in 'set' command")
  | Some expiry =>
      if negb (keepttl (set_expiration c) || nx c || xx c || get_token c) then
        ok ← op_set (set_key c) (set_value c) expiry;
        _ ← release;
        mret (if (ok : bool) then ROk else RError "ERR set failed")
      else
        r ← rmw_begin (set_key c);
        match r with
        | None => _ ← release; mret (RError "ERR set failed")
        | Some (st, p) =>
            let prepped := negb (p =? 0) && get_token c in
            p ← (if prepped then prep_for_read st p else mret p);
            let abort_rmw := (nx c || xx c) && ((nx c && negb (p =? 0)) || (xx c && (p =? 0))) in
            _ ← (if abort_rmw then abort st
                 else
                   expiry ← (if negb (p =? 0) && keepttl (set_expiration c)
                             then e ← entry p; mret (expiry_time_ms e) else mret expiry);
                   commit_update st (set_value c) expiry);
            r ← (if get_token c && negb (p =? 0) then module_redis_command_stream_entry p
                 else if abort_rmw || (get_token c && (p =? 0)) then mret RNull
                 else mret ROk);
            _ ← release;
            _ ← (if negb (p =? 0) && prepped then done_reading p else mret tt);
            mret r
        end
  end.

Definition getset (key : list Z) (v : chunk_sequence) : command reply :=
  _ ← acquire;
  r ← rmw_begin key;
  match r with
  | None => _ ← release; mret (RError "ERR getset failed")
  | Some (st, p) =>
      p ← (if p =? 0 then mret p else prep_for_read st p);
      _ ← commit_update st v STORAGE_DB_ENTRY_NO_EXPIRY;
      _ ← release;
      r ← (if p =? 0 then mret RNull else module_redis_command_stream_entry p);
      _ ← (if p =? 0 then mret tt else done_reading p);
      mret r
  end.

Definition getdel (key : list Z) : command reply :=
  _ ← acquire;
  r ← rmw_begin key;
  match r with
  | None => _ ← release; mret (RError "ERR getdel failed")
  | Some (st, p) =>
      p ← (if p =? 0 then mret p else prep_for_read st p);
      _ ← (if p =? 0 then abort st else commit_delete st);
      _ ← release;
      if p =? 0 then mret RNull else
      r ← module_redis_command_stream_entry p;
      _ ← done_reading p;
      mret r
  end.

Definition getex (key : list Z) (x : expiration) : command reply :=
  _ ← acquire;
  r ← rmw_begin key;
  match r with
  | None => _ ← release; mret (RError "ERR getex failed")
  | Some (st, p) =>
      p ← (if p =? 0 then mret p else prep_for_read st p);
      if p =? 0 then _ ← abort st; _ ← release; mret RNull else
      e ← entry p;
      match requested_expiry x (if persist_token x then STORAGE_DB_ENTRY_NO_EXPIRY else expiry_time_ms e) with
      | None => _ ← abort st; _ ← release; mret (RError "ERR invalid expire time in 'getex' command")
      | Some t =>
          _ ← set_entry_expiry p t;
          _ ← commit_metadata st;
          _ ← release;
          r ← module_redis_command_stream_entry p;
          _ ← done_reading p;
          mret r
      end
  end.

Definition setnx (key : list Z) (v : chunk_sequence) : command reply :=
  _ ← acquire;
  r ← rmw_begin key;
  match r with
  | None => _ ← release; mret (RError "ERR setnx failed")
  | Some (st, p) =>
      let abort_rmw := negb (p =? 0) in
      _ ← (if abort_rmw then abort st else commit_update st v STORAGE_DB_ENTRY_NO_EXPIRY);
      _ ← release;
      mret (RNumber (if abort_rmw then 0 else 1))
  end.

Definition setex (key : list Z) (seconds : Z) (v : chunk_sequence) : command reply :=
  _ ← acquire;
  if seconds <=? 0 then _ ← release; mret (RError "ERR invalid expire time in 'setex' command") else
  ok ← op_set key v (i64 (now + i64 (seconds * 1000)));
  _ ← release;
  mret (if (ok : bool) then ROk else RError "ERR setex failed").

Definition psetex (key : list Z) (milliseconds : Z) (v : chunk_sequence) : command reply :=
  _ ← acquire;
  if milliseconds <=? 0 then _ ← release; mret (RError "ERR invalid expire time in 'psetex' command") else
  ok ← op_set key v (i64 (now + milliseconds));
  _ ← release;
  mret (if (ok : bool) then ROk else RError "ERR psetex failed").

(** ** Commands on several keys

    The loops over the keys of a command. *)

Fixpoint set_all (l : list (list Z * chunk_sequence)) : command bool :=
  match l with
  | [] => mret true
  | (k, v) :: l =>
      ok ← op_set k v STORAGE_DB_ENTRY_NO_EXPIRY;
      if (ok : bool) then set_all l else mret false
  end.

Definition mset (key_values : list (list Z * chunk_sequence)) : command reply :=
  _ ← acquire;
  ok ← set_all key_values;
  _ ← release;
  mret (if (ok : bool) then ROk else RError "ERR mset failed").

(** The statuses of the keys begun, [true] when none of them has a value and
    [false] when the update cannot be made, and whether there was an error. *)
Fixpoint begin_all (l : list (list Z)) : command (list storage_db_op_rmw_status * bool * bool) :=
  match l with
  | [] => mret ([], true, false)
  | k :: l =>
      r ← rmw_begin k;
      match r with
      | None => mret ([], false, true)
      | Some (st, p) =>
          if negb (p =? 0) then mret ([st], false, false) else
          '(sts, can_commit_update, error_found) ← begin_all l;
          mret (st :: sts, can_commit_update, error_found)
      end
  end.

Fixpoint for_each {A} (f : A -> command unit) (l : list A) : command unit :=
  match l with
  | [] => mret tt
  | a :: l => _ ← f a; for_each f l
  end.

Definition msetnx (key_values : list (list Z * chunk_sequence)) : command reply :=
  _ ← acquire;
  '(statuses, can_commit_update, error_found) ← begin_all (key_values.*1);
  _ ← (if (can_commit_update : bool)
       then for_each (fun '(st, v) => commit_update st v STORAGE_DB_ENTRY_NO_EXPIRY)
              (zip statuses (key_values.*2))
       else for_each abort statuses);
  _ ← release;
  mret (if (error_found : bool) then RError "ERR msetnx failed" else RNumber (if (can_commit_update : bool) then 1 else 0)).

Fixpoint get_all (keys : list (list Z)) : command (list reply) :=
  match keys with
  | [] => mret []
  | k :: keys =>
      p ← get_for_read k;
      r ← (if p =? 0 then mret RNull
           else r ← module_redis_command_stream_entry p;
                _ ← done_reading p;
                mret r);
      rs ← get_all keys;
      mret (r :: rs)
  end.

Definition mget (keys : list (list Z)) : command reply :=
  _ ← acquire;
  rs ← get_all keys;
  _ ← release;
  mret (RArray rs).

(** How many keys the operation succeeds on. *)
Fixpoint count_keys (f : list Z -> command bool) (keys : list (list Z)) : command Z :=
  match keys with
  | [] => mret 0
  | k :: keys =>
      b ← f k;
      n ← count_keys f keys;
      mret ((if (b : bool) then 1 else 0) + n)
  end.

Definition del (keys : list (list Z)) : command reply :=
  _ ← acquire;
  n ← count_keys op_delete keys;
  _ ← release;
  mret (RNumber n).

Definition unlink (keys : list (list Z)) : command reply := del keys.

Definition exists_command (keys : list (list Z)) : command reply :=
  _ ← acquire;
  n ← count_keys (fun k => p ← get_entry k; mret (negb (p =? 0))) keys;
  _ ← release;
  mret (RNumber n).

(** TOUCH uses the same status and the same variable for the entry for all the
    keys, without resetting them, and acquires a transaction for each key.
    [p] and [delete_on_abort] are what the previous key left. *)
Definition rmw_begin_reused (p : Z) (delete_on_abort : bool) (k : list Z)
    : command (option (storage_db_op_rmw_status * Z)) :=
  perform (fun db tx =>
    _ ← check (negb (tx_id tx =? TRANSACTION_ID_NOT_ACQUIRED));
    '(d, tx, r) ← hashtable_mcmp_op_rmw_begin hash_fn (hashtable db) tx database_number k (zlen k);
    let db := with_table db d in
    match r with
    | None => Some (db, tx, None)
    | Some (st, current) =>
        let p := default p current in
        expired ← (if p =? 0 then Some false
                   else e ← heap db !! p; Some (storage_db_entry_index_is_expired now e));
        Some (db, tx, Some (RmwStatusDb st p (delete_on_abort || expired), if expired then 0 else p))
    end).

Fixpoint touch_all (p : Z) (delete_on_abort : bool) (touched_keys_count : Z) (keys : list (list Z)) : command reply :=
  match keys with
  | [] => mret (RNumber touched_keys_count)
  | k :: keys =>
      _ ← acquire;
      r ← rmw_begin_reused p delete_on_abort k;
      match r with
      | None => mret (RError "ERR expire failed")
      | Some (st, p) =>
          _ ← abort st;
          touch_all p (delete_entry_index_on_abort st) (if p =? 0 then touched_keys_count else touched_keys_count + 1) keys
      end
  end.

Definition touch (keys : list (list Z)) : command reply := touch_all 0 false 0 keys.

(** ** Expiry *)

(** The tokens of EXPIRE; [ttl] is what is compared with the argument,
    [expiry] the one of the entry. *)
Record expire_condition := ExpireCondition { e_nx : bool; e_xx : bool; e_gt : bool; e_lt : bool }.

Definition expire_refused (c : expire_condition) (expiry milliseconds ttl : Z) : bool :=
  let no_expiry := expiry =? STORAGE_DB_ENTRY_NO_EXPIRY in
  if e_nx c then negb no_expiry
  else if e_xx c then no_expiry
  else if e_gt c then no_expiry || (milliseconds <=? ttl)
  else if e_lt c then negb no_expiry && (ttl <=? milliseconds)
  else false.

(** What the four commands do once the key is found: [expiry] is the new one. *)
Definition expire_found (st : storage_db_op_rmw_status) (p : Z) (refused : bool) (milliseconds expiry : Z)
    : command Z :=
  if refused then _ ← abort st; mret 0 else
  _ ← set_entry_expiry p expiry;
  _ ← (if milliseconds <=? 0 then commit_delete st else commit_metadata st);
  mret 1.

(** EXPIRE does not release the transaction when the session does not begin. *)
Definition expire (key : list Z) (seconds : Z) (c : expire_condition) : command reply :=
  _ ← acquire;
  r ← rmw_begin key;
  match r with
  | None => mret (RError "ERR expire failed")
  | Some (st, p) =>
      n ← (if p =? 0 then mret 0
           else
             e ← entry p;
             let milliseconds := i64 (seconds * 1000) in
             expire_found st p (expire_refused c (expiry_time_ms e) milliseconds (storage_db_entry_index_ttl_ms now e))
               milliseconds (i64 (now + milliseconds)));
      _ ← release;
      mret (RNumber n)
  end.

Definition pexpire (key : list Z) (milliseconds : Z) (c : expire_condition) : command reply :=
  _ ← acquire;
  r ← rmw_begin key;
  match r with
  | None => _ ← release; mret (RError "ERR pexpire failed")
  | Some (st, p) =>
      n ← (if p =? 0 then mret 0
           else
             e ← entry p;
             expire_found st p (expire_refused c (expiry_time_ms e) milliseconds (storage_db_entry_index_ttl_ms now e))
               milliseconds (i64 (now + milliseconds)));
      _ ← release;
      mret (RNumber n)
  end.

Definition pexpireat (key : list Z) (unix_time_milliseconds : Z) (c : expire_condition) : command reply :=
  _ ← acquire;
  r ← rmw_begin key;
  match r with
  | None => _ ← release; mret (RError "ERR pexpireat failed")
  | Some (st, p) =>
      n ← (if p =? 0 then mret 0
           else
             e ← entry p;
             let milliseconds := i64 unix_time_milliseconds in
             expire_found st p (expire_refused c (expiry_time_ms e) milliseconds (expiry_time_ms e)) milliseconds milliseconds);
      _ ← release;
      mret (RNumber n)
  end.

Definition expireat (key : list Z) (unix_time_seconds : Z) (c : expire_condition) : command reply :=
  _ ← acquire;
  r ← rmw_begin key;
  match r with
  | None => _ ← release; mret (RError "ERR expireat failed")
  | Some (st, p) =>
      n ← (if p =? 0 then mret 0
           else
             e ← entry p;
             let milliseconds := i64 (i64 unix_time_seconds * 1000) in
             expire_found st p (expire_refused c (expiry_time_ms e) milliseconds (expiry_time_ms e)) milliseconds milliseconds);
      _ ← release;
      mret (RNumber n)
  end.

Definition persist (key : list Z) : command reply :=
  _ ← acquire;
  r ← rmw_begin key;
  match r with
  | None => _ ← release; mret (RError "ERR persist failed")
  | Some (st, p) =>
      n ← (if p =? 0 then mret 0
           else
             e ← entry p;
             if expiry_time_ms e =? STORAGE_DB_ENTRY_NO_EXPIRY then _ ← abort st; mret 0 else
             _ ← set_entry_expiry p STORAGE_DB_ENTRY_NO_EXPIRY;
             _ ← commit_metadata st;
             mret 1);
      _ ← release;
      mret (RNumber n)
  end.

Definition pttl (key : list Z) : command reply :=
  _ ← acquire;
  p ← get_entry key;
  n ← (if p =? 0 then mret (-2)
       else e ← entry p; mret (if 0 <? expiry_time_ms e then i64 (expiry_time_ms e - now) else -1));
  _ ← release;
  mret (RNumber n).

Definition expiretime (key : list Z) : command reply :=
  _ ← acquire;
  r ← rmw_begin key;
  match r with
  | None => _ ← release; mret (RError "ERR expiretime failed")
  | Some (st, p) =>
      n ← (if p =? 0 then mret (-2)
           else e ← entry p;
                mret (if expiry_time_ms e =? STORAGE_DB_ENTRY_NO_EXPIRY then -1 else Z.quot (expiry_time_ms e) 1000));
      _ ← abort st;
      _ ← release;
      mret (RNumber n)
  end.

Definition pexpiretime (key : list Z) : command reply :=
  _ ← acquire;
  r ← rmw_begin key;
  match r with
  | None => _ ← release; mret (RError "ERR pexpiretime failed")
  | Some (st, p) =>
      n ← (if p =? 0 then mret (-2)
           else e ← entry p;
                mret (if expiry_time_ms e =? STORAGE_DB_ENTRY_NO_EXPIRY then -1 else expiry_time_ms e));
      _ ← abort st;
      _ ← release;
      mret (RNumber n)
  end.

(** ** Values *)

Definition strlen (key : list Z) : command reply :=
  _ ← acquire;
  p ← get_entry key;
  n ← (if p =? 0 then mret 0 else e ← entry p; mret (i64 (seq_size (value e))));
  _ ← release;
  mret (RNumber n).

(** GETRANGE, and SUBSTR which is the same code. *)
Definition getrange (key : list Z) (start end_ : Z) : command reply :=
  _ ← acquire;
  p ← get_for_read key;
  r ← (if p =? 0 then mret RNull
       else
         e ← entry p;
         let size := seq_size (value e) in
         let range_start := if start <? 0 then i64 (start + i64 size) else start in
         let range_end := if end_ <? 0 then i64 (end_ + i64 size) else end_ in
         if range_end <? range_start then mret (RBlob []) else
         let range_length := i64 (range_end - range_start + 1) in
         if (size <? u64 range_start) || (range_length <=? 0) then mret (RBlob []) else
         let range_length :=
           if size <? u64 (i64 (range_start + range_length)) then i64 (i64 size - range_start) else range_length in
         data ← look (fun _ => module_redis_command_stream_entry_range (value e) range_start (u64 range_length));
         mret (match data with Some b => RBlob b | None => RNothing end));
  _ ← (if p =? 0 then mret tt else done_reading p);
  _ ← release;
  mret r.

Definition substr (key : list Z) (start end_ : Z) : command reply := getrange key start end_.

Definition append (key : list Z) (v : chunk_sequence) : command reply :=
  _ ← acquire;
  r ← rmw_begin key;
  match r with
  | None => _ ← release; mret (RError "ERR append failed")
  | Some (st, p) =>
      p ← (if p =? 0 then mret p else prep_for_read st p);
      '(current, expiry) ← (if p =? 0 then mret (None, STORAGE_DB_ENTRY_NO_EXPIRY)
                            else e ← entry p; mret (Some (value e), expiry_time_ms e));
      d ← look (fun _ => append_value fill current v);
      _ ← commit_update st d expiry;
      _ ← release;
      mret (RNumber (i64 (seq_size d)))
  end.

(** SETRANGE releases the transaction when it succeeds, not when it fails. *)
Definition setrange (key : list Z) (offset : Z) (v : chunk_sequence) : command reply :=
  if offset <? 0 then mret (RError "ERR offset is out of range") else
  _ ← acquire;
  r ← rmw_begin key;
  match r with
  | None => mret (RError "ERR setrange failed")
  | Some (st, p) =>
      p ← (if p =? 0 then mret p else prep_for_read st p);
      current ← (if p =? 0 then mret None else e ← entry p; mret (Some (value e)));
      d ← look (fun _ => setrange_value current offset v fill);
      _ ← commit_update st d STORAGE_DB_ENTRY_NO_EXPIRY;
      _ ← release;
      _ ← (if p =? 0 then mret tt else done_reading p);
      mret (RNumber (i64 (seq_size d)))
  end.

(** INCR and the others: the first chunk of the value is the number, and
    [None] of [number] is an invalid one. *)
Definition module_redis_command_helper_incr_decr (key : list Z) (amount : Z) : command reply :=
  _ ← acquire;
  r ← rmw_begin key;
  match r with
  | None => _ ← release; mret (RError "ERR operation failed")
  | Some (st, p) =>
      '(number, expiry) ←
        (if p =? 0 then mret (Some 0, STORAGE_DB_ENTRY_NO_EXPIRY)
         else
           e ← entry p;
           chunk ← look (fun _ => storage_db_chunk_sequence_get (Some (value e)) 0);
           let '(n, invalid) := utils_string_to_int64 chunk in
           mret (if (invalid : bool) then None else Some n, expiry_time_ms e));
      match number with
      | None => _ ← abort st; _ ← release; mret (RError "ERR value is not an integer or out of range")
      | Some number =>
          let new_number := i64 (number + amount) in
          if ((0 <? amount) && (new_number <? number)) || ((amount <? 0) && (number <? new_number)) then
            _ ← abort st; _ ← release; mret (RError "ERR increment or decrement would overflow")
          else
            let buffer := dec_signed new_number in
            d ← look (fun _ =>
              storage_db_chunk_write (storage_db_chunk_sequence_allocate fill (zlen buffer)) 0 0 buffer);
            _ ← commit_update st d expiry;
            _ ← release;
            mret (RNumber new_number)
      end
  end.

Definition incr (key : list Z) : command reply := module_redis_command_helper_incr_decr key 1.
Definition incrby (key : list Z) (increment : Z) : command reply := module_redis_command_helper_incr_decr key increment.
Definition decr (key : list Z) : command reply := module_redis_command_helper_incr_decr key (-1).
Definition decrby (key : list Z) (decrement : Z) : command reply :=
  module_redis_command_helper_incr_decr key (i64 (decrement * -1)).

(** ** Keys *)

(** strncmp on keys of the same length, which are compared up to a NUL byte. *)
Definition same_key (key newkey : list Z) : bool :=
  (zlen key =? zlen newkey) && strncmp_eq key newkey (length key).

Definition rename (key newkey : list Z) : command reply :=
  if same_key key newkey then mret ROk else
  _ ← acquire;
  r ← rmw_begin key;
  match r with
  | None => _ ← release; mret (RError "ERR rename failed")
  | Some (source, p) =>
      if p =? 0 then _ ← abort source; _ ← release; mret (RError "ERR no such key") else
      r ← rmw_begin newkey;
      match r with
      | None => _ ← abort source; _ ← release; mret (RError "ERR rename failed")
      | Some (destination, _) =>
          _ ← commit_rename source destination;
          _ ← release;
          mret ROk
      end
  end.

(** The session of the destination is not aborted when it has a value. *)
Definition renamenx (key newkey : list Z) : command reply :=
  if same_key key newkey then mret (RNumber 0) else
  _ ← acquire;
  r ← rmw_begin key;
  match r with
  | None => _ ← release; mret (RError "ERR renamenx failed")
  | Some (source, p) =>
      if p =? 0 then _ ← abort source; _ ← release; mret (RError "ERR no such key") else
      r ← rmw_begin newkey;
      match r with
      | None => _ ← abort source; _ ← release; mret (RError "ERR renamenx failed")
      | Some (destination, q) =>
          if negb (q =? 0) then _ ← abort source; _ ← release; mret (RNumber 0) else
          _ ← commit_rename source destination;
          _ ← release;
          mret (RNumber 1)
      end
  end.

(** The replies of COPY without the DB option. *)
Definition copy (source destination : list Z) (replace : bool) : command reply :=
  _ ← acquire;
  r ← rmw_begin destination;
  match r with
  | None => _ ← release; mret (RError "ERR copy failed")
  | Some (st, q) =>
      if negb replace && negb (q =? 0) then _ ← abort st; _ ← release; mret (RNumber 0) else
      p ← get_for_read source;
      if p =? 0 then _ ← abort st; _ ← release; mret (RNumber 0) else
      e ← entry p;
      d ← look (fun _ => copy_value fill (value e));
      _ ← commit_update st d STORAGE_DB_ENTRY_NO_EXPIRY;
      _ ← release;
      _ ← done_reading p;
      mret (RNumber 1)
  end.

End commands.
End RedisCommands.
