(* ===== verification/RedisCommandsRules.v ===== *)
(** * RedisCommandsRules: reasoning about the commands

    The rules of the monad of [RedisCommands] and of its actions, on a map from
    the keys to byte strings and expiries: what a transaction, a reader and a
    read-modify-write do to the database, once the chunks of the values are
    abstracted away. *)

From Stdlib Require Import String.
From stdpp Require Import gmap fin_maps.
From S2P Require Import Prelude Decimal Transaction HashtableMcmp HashtableMcmpLemmas HashtableMcmpSpec HashtableMcmpRefine EntryStatus UtilsString StorageDb StorageDbHeap StorageDbMap StorageDbOps StorageDbRefine StorageDbChunks RedisCommands.

Module RedisCommandsRules.
Import Decimal Transaction HashtableMcmp HashtableMcmpLemmas HashtableMcmpSpec HashtableMcmpRefine.
Import StorageDb StorageDbHeap StorageDbMap StorageDbOps StorageDbRefine StorageDbChunks RedisCommands.

(** ** Total correctness in the monad *)

Definition runs {A} (m : command A) (s : session) (Q : A -> session -> Prop) : Prop :=
  exists s' a, m s = Some (s', a) /\ Q a s'.

Lemma runs_bind {A B} (m : command A) (f : A -> command B) s Q R :
  runs m s Q -> (forall a s', Q a s' -> runs (f a) s' R) -> runs (m ≫= f) s R.
Proof.
  intros (s1 & a & Hm & Ha) Hf. destruct (Hf a s1 Ha) as (s2 & b & Hb & HR). exists s2, b. split; [|done].
  unfold mbind, command_bind. by rewrite Hm.
Qed.

(** Two actions taken together. *)
Lemma runs_bind2 {A B C} (m : command A) (m' : command B) (f : B -> command C) s Q R :
  runs (_ ← m; m') s Q -> (forall b s', Q b s' -> runs (f b) s' R) -> runs (_ ← m; b ← m'; f b) s R.
Proof.
  intros Hm Hf. destruct (runs_bind _ f s Q R Hm Hf) as (s' & c & Hc & HR). exists s', c. split; [|done].
  revert Hc. unfold mbind, command_bind. by destruct (m s) as [[]|].
Qed.

(** An action is replaced by one that does the same here. *)
Lemma runs_step {A B} (m m' : command A) (f : A -> command B) s Q :
  m s = m' s -> runs (a ← m'; f a) s Q -> runs (a ← m; f a) s Q.
Proof. intros Hm. unfold runs, mbind, command_bind. by rewrite Hm. Qed.

Lemma runs_ret {A} (a : A) s (Q : A -> session -> Prop) : Q a s -> runs (mret a) s Q.
Proof. intros Ha. by exists s, a. Qed.

Lemma runs_weaken {A} (m : command A) s (Q R : A -> session -> Prop) :
  runs m s Q -> (forall a s', Q a s' -> R a s') -> runs m s R.
Proof. intros (s' & a & Hm & Ha) HR. exists s', a. split; [done|by apply HR]. Qed.

Lemma runs_look {A} (f : storage_db -> option A) s a (Q : A -> session -> Prop) :
  f (s_db s) = Some a -> Q a s -> runs (look f) s Q.
Proof. intros Hf Ha. exists s, a. unfold look. by rewrite Hf. Qed.

(** ** Keys and bytes *)

(** The bytes of a key and its expiry; no stored value is empty. *)
Abbreviation byte_map := (gmap db_key (list Z * Z)).

Definition keeps (v : chunk_sequence) (b : list Z) : Prop := stores v b /\ b <> [].

Definition bytes_of (M : value_map) (B : byte_map) : Prop :=
  map_Forall2 (fun _ a c => keeps a.1 c.1 /\ a.2 = c.2) M B.

Lemma bytes_lookup M B k :
  bytes_of M B ->
  match M !! k, B !! k with
  | Some (v, t), Some (b, t') => keeps v b /\ t = t'
  | None, None => True
  | _, _ => False
  end.
Proof. intros HB. specialize (HB k). destruct HB as [[v t] [b t'] Hx|]; [exact Hx|done]. Qed.

Lemma bytes_size M B : bytes_of M B -> size M = size B.
Proof.
  intros HB. rewrite <- !size_dom. f_equal. apply set_eq. intros k. rewrite !elem_of_dom.
  pose proof (bytes_lookup M B k HB) as Hk. destruct (M !! k) as [[]|], (B !! k) as [[]|]; try done; split; eauto.
Qed.

Lemma bytes_insert M B k v b t : bytes_of M B -> keeps v b -> bytes_of (<[k := (v, t)]> M) (<[k := (b, t)]> B).
Proof. intros HB Hk. by apply map_Forall2_insert_2. Qed.

Lemma bytes_delete M B k : bytes_of M B -> bytes_of (delete k M) (delete k B).
Proof. intros HB. by apply map_Forall2_delete. Qed.

Lemma keeps_wf v b : keeps v b -> value_wf v.
Proof.
  intros [[Hs [[-> _]|(l & -> & Hl & _)]] Hne]; [done|]. pose proof (la_size _ _ Hl). split; cbn; [lia|].
  intros Hz. exfalso. lia.
Qed.

(** The bytes a key shows: none when it is expired. *)
Definition seen (now : Z) (B : byte_map) (k : db_key) : option (list Z) :=
  a ← B !! k; if expired now a.2 then None else Some a.1.

Lemma seen_Some now B k b :
  seen now B k = Some b -> exists t, B !! k = Some (b, t) /\ expired now t = false.
Proof.
  unfold seen. destruct (B !! k) as [[b' t]|]; cbn; [|done]. destruct (expired now t) eqn:Ht; [done|].
  intros [= ->]. by exists t.
Qed.

Lemma visible_seen now M B k :
  bytes_of M B ->
  match visible now M k, seen now B k with Some v, Some b => keeps v b | None, None => True | _, _ => False end.
Proof.
  intros HB. pose proof (bytes_lookup M B k HB) as Hk. unfold visible, seen.
  destruct (M !! k) as [[v t]|], (B !! k) as [[b t']|]; try done; cbn. destruct Hk as [Hk ->].
  by destruct (expired now t').
Qed.

Section rules.
Context (hash_fn : Z -> list Z -> Z) (cfg : config) (worker now mono n : Z).

(** ** The states of a command

    [R] is what the readers hold, [d] bounds the entries that wait for their
    readers.  No lock is held when the session is [idle]; a transaction is
    [active], or just begun; a read-modify-write of the key [k] is [opened]. *)

Abbreviation held_bytes := (list (Z * list Z)).

Definition holding (H : holders) (R : held_bytes) : Prop := Forall2 (fun x y => x.1 = y.1 /\ keeps x.2 y.2) H R.

Definition bounded (s : session) (d : Z) : Prop :=
  in_u 16 (manager_worker worker (s_manager s)) /\ zlen (deleting_entry_index_list (s_db s)) <= d.

Record ready (s : session) (B : byte_map) (R : held_bytes) (d : Z) : Prop := {
  re_stands : exists P L M H, db_inv hash_fn (s_db s) P L M H /\ bytes_of M B /\ holding H R;
  re_bounded : bounded s d
}.

Definition idle (s : session) (B : byte_map) (R : held_bytes) (d : Z) : Prop :=
  ready s B R d /\ unlocked (hashtable (s_db s)).
Definition active (s : session) (B : byte_map) (R : held_bytes) (d : Z) : Prop :=
  ready s B R d /\ solo (locks (hashtable (s_db s))) (s_transaction s).
Definition fresh (s : session) (B : byte_map) (R : held_bytes) (d : Z) : Prop :=
  active s B R d /\ locks_list (s_transaction s) = [].

Record opened (s : session) (B : byte_map) (R : held_bytes) (k : list Z) (st : storage_db_op_rmw_status) (p d : Z)
    : Prop := {
  op_stands : exists P L M H,
    rmw_open hash_fn (s_db s) P L M H n k now st p /\ bytes_of M B /\ holding H R;
  op_bounded : bounded s d;
  op_solo : solo (locks (hashtable (s_db s))) (s_transaction s)
}.

(** The entry at [p] has the bytes [b] and the expiry [t]. *)
Definition entry_is (s : session) (p : Z) (b : list Z) (t : Z) : Prop :=
  0 < p /\ exists e, heap (s_db s) !! p = Some e /\ keeps (value e) b /\ expiry_time_ms e = t.
Definition reads (s : session) (p : Z) (b : list Z) : Prop := exists t, entry_is s p b t.

Definition stored (B : byte_map) (k : list Z) (b : list Z) (t : Z) : byte_map :=
  <[(n, k) := (b, enforce_ttl cfg now t)]> B.

(** An expired key goes when a session on it is aborted. *)
Definition swept (B : byte_map) (k : list Z) : byte_map :=
  if decide (seen now B (n, k) = None) then delete (n, k) B else B.

Definition refused (B : byte_map) (k : list Z) : Prop := B !! (n, k) = None /\ 448 <= Z.of_nat (size B).

Lemma refused_full M B k :
  bytes_of M B -> M !! (n, k) = None -> 448 <= Z.of_nat (size M) -> refused B k.
Proof.
  intros HB HM Hf. unfold refused. rewrite <- (bytes_size _ _ HB). split; [|done].
  pose proof (bytes_lookup M B (n, k) HB) as Hk. rewrite HM in Hk. by destruct (B !! (n, k)) as [[]|].
Qed.

Lemma holding_length H R : holding H R -> zlen H = zlen R.
Proof. intros HR. unfold zlen. f_equal. by eapply Forall2_length. Qed.

Lemma held_reads s P L M H R p b :
  db_inv hash_fn (s_db s) P L M H -> holding H R -> (p, b) ∈ R -> reads s p b.
Proof.
  intros Hinv HR Hin. apply list_elem_of_lookup in Hin as [i Hi].
  destruct (Forall2_lookup_r _ _ _ _ _ HR Hi) as ([q v] & Hq & Heq & Hk). cbn in Heq, Hk. subst q.
  pose proof (so_heap _ _ _ (di_sound _ _ _ _ _ _ Hinv)) as Hh. apply list_elem_of_lookup_2 in Hq.
  destruct (hi_held _ _ _ Hh p v Hq) as (e & He & Hv). exists (expiry_time_ms e).
  split; [apply (hi_fresh _ _ _ Hh p); by eexists|]. exists e. by rewrite Hv.
Qed.

Lemma ready_reads s B R d p b : ready s B R d -> (p, b) ∈ R -> reads s p b.
Proof. intros [(P & L & M & H & Hinv & _ & HR) _] Hin. by eapply held_reads. Qed.

Lemma idle_reads s B R d p b : idle s B R d -> (p, b) ∈ R -> reads s p b.
Proof. intros [Hr _]. by apply (ready_reads s B R d). Qed.

Lemma active_reads s B R d p b : active s B R d -> (p, b) ∈ R -> reads s p b.
Proof. intros [Hr _]. by apply (ready_reads s B R d). Qed.

Lemma idle_weaken s B R d d' : d <= d' -> idle s B R d -> idle s B R d'.
Proof. intros Hle [[? [? ?]] ?]. split; [split; [done|split; [done|lia]]|done]. Qed.

(** What an open session shows of its key. *)
Definition shows (s : session) (B : byte_map) (k : list Z) (p : Z) : Prop :=
  match seen now B (n, k) with
  | Some b => exists t, B !! (n, k) = Some (b, t) /\ entry_is s p b t
  | None => p = 0
  end.

Lemma opened_shows s B R k st p d : opened s B R k st p d -> shows s B k p.
Proof.
  intros [(P & L & M & H & Hop & HB & HR) _ _]. unfold shows. pose proof (bytes_lookup M B (n, k) HB) as Hk.
  destruct (seen now B (n, k)) as [b|] eqn:Hs.
  - apply seen_Some in Hs as (t & HBk & Ht). exists t. split; [done|]. rewrite HBk in Hk.
    destruct (M !! (n, k)) as [[v t']|] eqn:HM; [|done]. destruct Hk as [Hk ->].
    destruct (session_entry _ _ _ _ _ _ _ _ _ _ _ _ _ Hop HM Ht) as (Hp & _ & _ & _ & e & He & _ & Hv & Het).
    split; [done|]. exists e. by rewrite Hv.
  - unfold seen in Hs. rewrite (ro_current _ _ _ _ _ _ _ _ _ _ _ Hop).
    pose proof (ro_expired _ _ _ _ _ _ _ _ _ _ _ Hop) as ->.
    destruct (M !! (n, k)) as [[v t]|] eqn:HM, (B !! (n, k)) as [[b t']|]; try done.
    + destruct Hk as [_ ->]. cbn in *. by destruct (expired now t').
    + destruct (P !! (n, k)) as [q|] eqn:Hq; [|done].
      destruct (proj1 (lk_is_Some P L M (n, k) (ro_links _ _ _ _ _ _ _ _ _ _ _ Hop)) ltac:(by eexists)) as [? ?]. congruence.
Qed.

(** ** The actions *)

Lemma acquire_rule s B R d : idle s B R d -> runs (acquire worker) s (fun _ s' => fresh s' B R d).
Proof.
  intros [[Hst [Hw Hd]] Hu]. unfold runs, acquire.
  destruct (acquire_fresh worker (s_manager s) Hw) as (mgr & tx & -> & Hid & Hl & Hmw).
  eexists _, tt. split; [done|]. split; [|done]. split; [|by apply solo_start].
  split; [done|split; [by cbn; rewrite Hmw|done]].
Qed.

Lemma release_rule s B R d : active s B R d -> runs release s (fun _ s' => idle s' B R d).
Proof.
  intros [[(P & L & M & H & Hinv & HB & HR) Hb] Hs]. unfold runs, release.
  destruct (release_idle hash_fn (s_db s) _ P L M H Hinv Hs) as (t & tx & -> & [Hst Hu]). cbn [mbind option_bind].
  eexists _, tt. split; [done|]. destruct Hst as (P' & L' & Hinv'). split; [|done].
  split; [by exists P', L', M, H|done].
Qed.

(** The readers change on a database that is otherwise the same. *)
Lemma done_reading_step s B R d p b :
  ready s B ((p, b) :: R) d ->
  runs (done_reading p) s (fun _ s' => ready s' B R d /\ hashtable (s_db s') = hashtable (s_db s) /\
    s_transaction s' = s_transaction s).
Proof.
  intros [(P & L & M & H & Hinv & HB & HR) [Hw Hd]]. unfold runs, done_reading, change.
  apply Forall2_cons_inv_r in HR as ([q v] & H' & [Hq _] & HR & ->). cbn in Hq. subst q.
  destruct (decrease_spec _ _ _ _ _ (so_heap _ _ _ (di_sound _ _ _ _ _ _ Hinv))) as (db & -> & Hi & Hs & Hd').
  cbn [mbind option_bind]. eexists _, tt. split; [done|]. split; [|by destruct Hs].
  split; [|split; [done|cbn; by rewrite Hd']]. exists P, L, M, H'. split; [by eapply db_inv_step|done].
Qed.

Lemma done_reading_idle s B R d p b :
  idle s B ((p, b) :: R) d -> runs (done_reading p) s (fun _ s' => idle s' B R d).
Proof.
  intros [Hr Hu]. eapply runs_weaken; [by apply (done_reading_step s B R d p b)|]. intros _ s' (Hr' & Ht & _).
  split; [done|by rewrite Ht].
Qed.

Lemma done_reading_active s B R d p b :
  active s B ((p, b) :: R) d -> runs (done_reading p) s (fun _ s' => active s' B R d).
Proof.
  intros [Hr Hu]. eapply runs_weaken; [by apply (done_reading_step s B R d p b)|]. intros _ s' (Hr' & Ht & Htx).
  split; [done|by rewrite Ht, Htx].
Qed.

Lemma entry_rule s p b t (Q : entry_index -> session -> Prop) :
  entry_is s p b t -> (forall e, keeps (value e) b -> expiry_time_ms e = t -> Q e s) -> runs (entry p) s Q.
Proof. intros (_ & e & He & Hk & Ht) HQ. exact (runs_look _ s e Q He (HQ e Hk Ht)). Qed.

Lemma stream_rule s p b (Q : reply -> session -> Prop) :
  reads s p b -> Q (RBlob b) s -> runs (module_redis_command_stream_entry p) s Q.
Proof.
  intros [t He] HQ. unfold module_redis_command_stream_entry. eapply runs_bind.
  { apply (entry_rule s p b t (fun e s' => s' = s /\ keeps (value e) b) He). done. }
  intros e s' [-> [Hst Hne]].
  assert (0 < zlen b) as Hpos by (destruct b; [done|rewrite zlen_cons; pose proof (zlen_nonneg b); lia]).
  eapply (runs_bind _ _ s (fun r s' => s' = s /\ r = Some b)).
  - eapply runs_look; [|done]. rewrite (proj1 Hst), (stream_entry_range_spec (value e) b) by (done || lia).
    rewrite decide_True by apply range_fits_whole. do 2 f_equal. unfold slice. rewrite drop_0. apply take_ge.
    unfold zlen. lia.
  - intros r s' [-> ->]. by apply runs_ret.
Qed.

(** A bound on the number of readers, far above what a worker has. *)
Definition few {A} (R : list A) : Prop := zlen R < 2 ^ 31 - 1.

Lemma get_for_read_rule s B R d k :
  fresh s B R d -> good_key k -> few R ->
  runs (get_for_read hash_fn now mono n k) s (fun p s' =>
    match seen now B (n, k) with
    | Some b => 0 < p /\ active s' B ((p, b) :: R) d
    | None => p = 0 /\ active s' B R d
    end).
Proof.
  intros [[[(P & L & M & H & Hinv & HB & HR) [Hw Hd]] Hs] Hl] Hk Hf. unfold runs, get_for_read, perform.
  destruct (get_for_read_spec hash_fn (s_db s) _ P L M H now mono n k Hinv Hk Hs Hl)
    as (db & tx & p & -> & Hs' & Hd' & Hv); [by rewrite (holding_length _ _ HR)|].
  cbn [mbind option_bind]. eexists _, p. split; [done|].
  pose proof (visible_seen now M B (n, k) HB) as Hvis. rewrite <- Hd' in Hd.
  destruct (visible now M (n, k)) as [v|], (seen now B (n, k)) as [b|]; try done; destruct Hv as [Hp Hinv'];
    (split; [done|]); (split; [|done]); (split; [|done]); exists P, L, M; eexists; (split; [done|]); (split; [done|]).
  - apply Forall2_cons. by split.
  - done.
Qed.

Lemma get_entry_rule s B R d k :
  fresh s B R d -> good_key k ->
  runs (get_entry hash_fn mono n k) s (fun p s' => active s' B R d /\
    match B !! (n, k) with Some (b, t) => entry_is s' p b t | None => p = 0 end).
Proof.
  intros [[[(P & L & M & H & Hinv & HB & HR) [Hw Hd]] Hs] Hl] Hk.
  unfold runs, get_entry, perform.
  destruct (get_entry_index_spec hash_fn (s_db s) _ P L M H mono n k Hinv Hk Hs Hl)
    as (db & tx & -> & Hs' & Hd' & Hinv' & _). cbn [mbind option_bind]. eexists _, _. split; [done|].
  rewrite <- Hd' in Hd. split; [split; [|done]; by split; [exists P, L, M, H|]|].
  pose proof (bytes_lookup M B (n, k) HB) as Hm. pose proof (di_links _ _ _ _ _ _ Hinv') as Hlk.
  destruct (P !! (n, k)) as [p|] eqn:Hp; cbn [default from_option id].
  - destruct (entry_of_key _ _ _ _ _ _ _ (so_heap _ _ _ (di_sound _ _ _ _ _ _ Hinv')) Hlk Hp)
      as (Hpos & e & v & t & _ & HM & He & _ & Hv & Ht).
    rewrite HM in Hm. destruct (B !! (n, k)) as [[b t']|]; [|done]. destruct Hm as [Hm <-].
    split; [done|]. exists e. by rewrite Hv.
  - rewrite (lk_none _ _ _ Hlk _ Hp) in Hm. by destruct (B !! (n, k)) as [[]|].
Qed.

Lemma rmw_begin_rule s B R d k :
  fresh s B R d -> good_key k ->
  runs (rmw_begin hash_fn now n k) s (fun r s' =>
    match r with
    | Some (st, p) => opened s' B R k st p d
    | None => active s' B R d /\ refused B k
    end).
Proof.
  intros [[[(P & L & M & H & Hinv & HB & HR) [Hw Hd]] Hs] Hl] Hk. unfold runs, rmw_begin, perform.
  destruct (op_rmw_begin_spec hash_fn (s_db s) _ P L M H now n k Hinv Hk Hs (no_reads_nil _ Hl))
    as (db & tx & r & -> & Hs' & Hd' & Hr). cbn [mbind option_bind]. eexists _, r. split; [done|].
  rewrite <- Hd' in Hd. destruct r as [[st p]|].
  - split; [by exists P, L, M, H|done..].
  - destruct Hr as (Hinv' & HM & Hf). split; [|by eapply refused_full].
    split; [|done]. split; [by exists P, L, M, H|done].
Qed.

Lemma opened_reads s B R k st p d q b : opened s B R k st p d -> (q, b) ∈ R -> reads s q b.
Proof.
  intros [(P & L & M & H & Hop & HB & HR) _ _] Hin.
  apply list_elem_of_lookup in Hin as [i Hi].
  destruct (Forall2_lookup_r _ _ _ _ _ HR Hi) as ([q' v] & Hq & Heq & Hk). cbn in Heq, Hk. subst q'.
  pose proof (so_heap _ _ _ (ro_sound _ _ _ _ _ _ _ _ _ _ _ Hop)) as Hh. apply list_elem_of_lookup_2 in Hq.
  destruct (hi_held _ _ _ Hh q v Hq) as (e & He & Hv). exists (expiry_time_ms e).
  split; [apply (hi_fresh _ _ _ Hh q); by eexists|]. exists e. by rewrite Hv.
Qed.

(** The database under an open session, where the key has a value to show. *)
Lemma opened_inv s B R k st p d b :
  opened s B R k st p d -> seen now B (n, k) = Some b ->
  exists P L M H v t, rmw_open hash_fn (s_db s) P L M H n k now st p /\ bytes_of M B /\ holding H R /\
    M !! (n, k) = Some (v, t) /\ B !! (n, k) = Some (b, t) /\ expired now t = false /\ keeps v b.
Proof.
  intros [(P & L & M & H & Hop & HB & HR) _ _] (t & HBk & Ht)%seen_Some.
  pose proof (bytes_lookup M B (n, k) HB) as Hk. rewrite HBk in Hk.
  destruct (M !! (n, k)) as [[v t']|] eqn:HM; [|done]. destruct Hk as [Hk ->]. by exists P, L, M, H, v, t.
Qed.

Lemma prep_rule s B R k st p d b :
  opened s B R k st p d -> seen now B (n, k) = Some b -> few R ->
  runs (prep_for_read mono st p) s (fun q s' => q = p /\ opened s' B ((p, b) :: R) k st p d).
Proof.
  intros Ho Hs Hf. destruct (opened_inv _ _ _ _ _ _ _ _ Ho Hs) as (P & L & M & H & v & t & Hop & HB & HR & HM & HBk & Ht & Hk).
  unfold runs, prep_for_read.
  destruct (op_rmw_prep_spec hash_fn _ _ _ _ _ mono _ _ _ _ _ _ _ Hop HM Ht)
    as (db & -> & Hop' & Htb & Hd'); [by rewrite (holding_length _ _ HR)|]. cbn [mbind option_bind].
  eexists _, p. split; [done|]. split; [done|]. destruct Ho as [_ [Hw Hd] Hso]. split.
  - exists P, L, M, ((p, v) :: H). split; [done|]. split; [done|]. apply Forall2_cons. by split.
  - split; [done|]. cbn. by rewrite Hd'.
  - cbn. by rewrite Htb.
Qed.

(** What is left once a session is closed. *)
Lemma closed db s P L M B H R d :
  db_inv hash_fn db P L M H -> bytes_of M B -> holding H R -> bounded s d -> zlen (deleting db) <= d + 1 ->
  locks (hashtable db) = locks (hashtable (s_db s)) -> solo (locks (hashtable (s_db s))) (s_transaction s) ->
  active (Session db (s_manager s) (s_transaction s)) B R (d + 1).
Proof.
  intros Hinv HB HR [Hw Hd] Hd' Hl Hs. split; [|by cbn; rewrite Hl].
  split; [by exists P, L, M, H|by split].
Qed.

Lemma update_rule s B R k st p d v b t :
  opened s B R k st p d -> keeps v b -> 0 <= n < 2 ^ 32 -> d < 999 ->
  runs (commit_update cfg now mono st v t) s (fun _ s' => active s' (stored B k b t) R (d + 1)).
Proof.
  intros [(P & L & M & H & Hop & HB & HR) Hb Hs] Hk Hn Hd. unfold runs, commit_update, change.
  destruct (op_rmw_commit_update_spec hash_fn cfg _ _ _ _ _ now mono _ _ _ _ _ t Hop Hn (keeps_wf _ _ Hk))
    as (db & P' & L' & -> & Hinv & Hl & Hd'); [destruct Hb; lia|]. cbn [mbind option_bind].
  eexists _, tt. split; [done|]. eapply closed; try done; [by apply bytes_insert|destruct Hb; lia].
Qed.

Lemma delete_rule s B R k st p d b :
  opened s B R k st p d -> seen now B (n, k) = Some b -> 0 <= n < 2 ^ 32 -> d < 999 ->
  runs (commit_delete st) s (fun _ s' => active s' (delete (n, k) B) R (d + 1)).
Proof.
  intros Ho Hs Hn Hd. destruct (opened_inv _ _ _ _ _ _ _ _ Ho Hs) as (P & L & M & H & v & t & Hop & HB & HR & HM & _).
  destruct Ho as [_ Hb Hso]. unfold runs, commit_delete, change.
  destruct (op_rmw_commit_delete_spec hash_fn _ _ _ _ _ _ _ _ _ _ Hop ltac:(by eexists) Hn)
    as (db & P' & L' & -> & Hinv & Hl & Hd'); [destruct Hb; lia|]. cbn [mbind option_bind].
  eexists _, tt. split; [done|]. eapply closed; try done; [by apply bytes_delete|destruct Hb; lia].
Qed.

Lemma abort_rule s B R k st p d :
  opened s B R k st p d -> 0 <= n < 2 ^ 32 -> d < 999 ->
  runs (abort st) s (fun _ s' => active s' (swept B k) R (d + 1)).
Proof.
  intros [(P & L & M & H & Hop & HB & HR) Hb Hs] Hn Hd. unfold runs, abort, change.
  destruct (op_rmw_abort_spec hash_fn _ _ _ _ _ _ _ _ _ _ Hop Hn) as (db & P' & L' & -> & Hinv & Hl & Hd');
    [destruct Hb; lia|]. cbn [mbind option_bind]. eexists _, tt. split; [done|].
  eapply closed; try done; [|destruct Hb; lia].
  rewrite (ro_expired _ _ _ _ _ _ _ _ _ _ _ Hop). unfold swept, seen.
  pose proof (bytes_lookup M B (n, k) HB) as Hk.
  destruct (M !! (n, k)) as [[v t]|] eqn:HM, (B !! (n, k)) as [[b t']|] eqn:HBk; try done; cbn.
  - destruct Hk as [_ ->]. destruct (expired now t'); [|done]. by apply bytes_delete.
  - by rewrite delete_id.
Qed.

(** A new expiry for the entry of the session, then its commit. *)
Lemma metadata_rule s B R k st p d b t :
  opened s B R k st p d -> seen now B (n, k) = Some b ->
  runs (_ ← set_entry_expiry p t; commit_metadata mono st) s
    (fun _ s' => active s' (<[(n, k) := (b, t)]> B) R (d + 1)).
Proof.
  intros Ho Hs. destruct (opened_inv _ _ _ _ _ _ _ _ Ho Hs) as (P & L & M & H & v & u & Hop & HB & HR & HM & _ & Ht & Hk).
  destruct Ho as [_ Hb Hso].
  destruct (op_rmw_commit_metadata_spec hash_fn _ _ _ _ _ now mono _ _ _ _ v u t Hop HM Ht)
    as (e & db & He & Hc & (L' & Hinv) & Hl & Hd').
  eexists (Session db (s_manager s) (s_transaction s)), tt. split.
  - unfold mbind, command_bind, set_entry_expiry, commit_metadata, change. rewrite He.
    cbn [mbind option_bind s_db s_manager s_transaction]. by rewrite Hc.
  - eapply closed; try done; [by apply bytes_insert|destruct Hb; rewrite Hd'; lia].
Qed.

Lemma expire_delete_rule s B R k st p d b t :
  opened s B R k st p d -> seen now B (n, k) = Some b -> 0 <= n < 2 ^ 32 -> d < 999 ->
  runs (_ ← set_entry_expiry p t; commit_delete st) s (fun _ s' => active s' (delete (n, k) B) R (d + 1)).
Proof.
  intros Ho Hs Hn Hd.
  destruct (opened_inv _ _ _ _ _ _ _ _ Ho Hs) as (P & L & M & H & v & u & Hop & HB & HR & HM & _ & Ht & Hk).
  destruct Ho as [_ Hb Hso].
  destruct (session_expire_delete_spec hash_fn _ _ _ _ _ _ _ _ _ _ v u t Hop HM Ht Hn)
    as (e & db & P' & L' & He & Hc & Hinv & Hl & Hd'); [destruct Hb; lia|].
  eexists (Session db (s_manager s) (s_transaction s)), tt. split.
  - unfold mbind, command_bind, set_entry_expiry, commit_delete, change. rewrite He.
    cbn [mbind option_bind s_db s_manager s_transaction]. by rewrite Hc.
  - eapply closed; try done; [by apply bytes_delete|destruct Hb; lia].
Qed.

Lemma op_set_rule s B R d k v b t :
  fresh s B R d -> good_key k -> keeps v b -> 0 <= n < 2 ^ 32 -> d < 999 ->
  runs (op_set hash_fn cfg now mono n k v t) s (fun ok s' =>
    if (ok : bool) then active s' (stored B k b t) R (d + 1) else active s' B R (d + 1) /\ refused B k).
Proof.
  intros [[[(P & L & M & H & Hinv & HB & HR) [Hw Hd]] Hs] Hl] Hg Hk Hn Hd'. unfold runs, op_set, perform.
  destruct (op_set_spec hash_fn cfg (s_db s) _ P L M H now mono n k v t Hinv Hg Hn (keeps_wf _ _ Hk) Hs (no_reads_nil _ Hl))
    as (db & tx & ok & P' & L' & -> & Hs' & Hdel & Hok); [lia|]. cbn [mbind option_bind].
  eexists _, ok. split; [done|]. destruct ok as [|].
  - split; [|done]. split; [|split; [done|cbn; lia]]. eexists P', L', _, H. split; [done|]. split; [by apply bytes_insert|done].
  - destruct Hok as (Hinv' & HM & Hf). split; [|by eapply refused_full].
    split; [|done]. split; [|split; [done|cbn; lia]]. by exists P', L', M, H.
Qed.

End rules.

End RedisCommandsRules.
