(* ===== verification/RedisCommandsSpec.v ===== *)
(** * RedisCommandsSpec: the commands against a map of bytes

    What the commands of [RedisCommands] on one key reply and do to the map from
    the keys to byte strings and expiries: [specified] says it as a function,
    and the commands refine it. *)

From Stdlib Require Import String.
From stdpp Require Import gmap fin_maps.
From S2P Require Import Prelude Decimal Transaction HashtableMcmp HashtableMcmpLemmas HashtableMcmpSpec HashtableMcmpRefine EntryStatus UtilsString StorageDb StorageDbHeap StorageDbMap StorageDbOps StorageDbRefine StorageDbChunks RedisCommands RedisCommandsRules.

Module RedisCommandsSpec.
Import Decimal Transaction HashtableMcmp HashtableMcmpLemmas HashtableMcmpSpec HashtableMcmpRefine.
Import UtilsString StorageDb StorageDbHeap StorageDbMap StorageDbOps StorageDbRefine StorageDbChunks.
Import RedisCommands RedisCommandsRules.

Inductive key_command :=
  | KGet (k : list Z)
  | KSet (c : set_context)
  | KGetSet (k : list Z) (v : chunk_sequence)
  | KGetDel (k : list Z)
  | KGetEx (k : list Z) (x : expiration)
  | KSetNx (k : list Z) (v : chunk_sequence)
  | KSetEx (k : list Z) (seconds : Z) (v : chunk_sequence)
  | KPSetEx (k : list Z) (milliseconds : Z) (v : chunk_sequence)
  | KAppend (k : list Z) (v : chunk_sequence)
  | KSetRange (k : list Z) (offset : Z) (v : chunk_sequence)
  | KGetRange (k : list Z) (start end_ : Z)
  | KIncrBy (k : list Z) (amount : Z)
  | KStrLen (k : list Z)
  | KExpire (k : list Z) (seconds : Z) (c : expire_condition)
  | KPExpire (k : list Z) (milliseconds : Z) (c : expire_condition)
  | KExpireAt (k : list Z) (unix_time_seconds : Z) (c : expire_condition)
  | KPExpireAt (k : list Z) (unix_time_milliseconds : Z) (c : expire_condition)
  | KPersist (k : list Z)
  | KPttl (k : list Z)
  | KExpireTime (k : list Z)
  | KPExpireTime (k : list Z).

Definition key_of (c : key_command) : list Z :=
  match c with
  | KSet c => set_key c
  | KGet k | KGetSet k _ | KGetDel k | KGetEx k _ | KSetNx k _ | KSetEx k _ _ | KPSetEx k _ _ | KAppend k _
  | KSetRange k _ _ | KGetRange k _ _ | KIncrBy k _ | KStrLen k | KExpire k _ _ | KPExpire k _ _ | KExpireAt k _ _
  | KPExpireAt k _ _ | KPersist k | KPttl k | KExpireTime k | KPExpireTime k => k
  end.

(** The values are received before: here they are not empty. *)
Definition value_bytes (v : chunk_sequence) : list Z := concat (source_chunks v).

Definition value_ok (v : chunk_sequence) : Prop := keeps v (value_bytes v).

Lemma value_ok_intro v b : keeps v b -> value_ok v /\ value_bytes v = b.
Proof. intros [Hs Hne]. destruct (stores_chunks _ _ Hs) as [Hb _]. unfold value_ok, value_bytes. by rewrite Hb. Qed.

Section refinement.
Context (hash_fn : Z -> list Z -> Z) (cfg : config) (fill worker now mono n : Z).

Definition execute (c : key_command) : command reply :=
  match c with
  | KGet k => get hash_fn worker now mono n k
  | KSet c => set hash_fn cfg worker now mono n c
  | KGetSet k v => getset hash_fn cfg worker now mono n k v
  | KGetDel k => getdel hash_fn worker now mono n k
  | KGetEx k x => getex hash_fn worker now mono n k x
  | KSetNx k v => setnx hash_fn cfg worker now mono n k v
  | KSetEx k s v => setex hash_fn cfg worker now mono n k s v
  | KPSetEx k ms v => psetex hash_fn cfg worker now mono n k ms v
  | KAppend k v => append hash_fn cfg fill worker now mono n k v
  | KSetRange k o v => setrange hash_fn cfg fill worker now mono n k o v
  | KGetRange k s e => getrange hash_fn worker now mono n k s e
  | KIncrBy k a => module_redis_command_helper_incr_decr hash_fn cfg fill worker now mono n k a
  | KStrLen k => strlen hash_fn worker mono n k
  | KExpire k s c => expire hash_fn worker now mono n k s c
  | KPExpire k ms c => pexpire hash_fn worker now mono n k ms c
  | KExpireAt k s c => expireat hash_fn worker now mono n k s c
  | KPExpireAt k ms c => pexpireat hash_fn worker now mono n k ms c
  | KPersist k => persist hash_fn worker now mono n k
  | KPttl k => pttl hash_fn worker now mono n k
  | KExpireTime k => expiretime hash_fn worker now n k
  | KPExpireTime k => pexpiretime hash_fn worker now n k
  end.

(** ** The specification *)

Abbreviation shown B k := (seen now B (n, k)).

Definition expiry_of (B : byte_map) (k : list Z) : Z :=
  match shown B k, B !! (n, k) with Some _, Some (_, t) => t | _, _ => STORAGE_DB_ENTRY_NO_EXPIRY end.

Definition blob_or_null (b : option (list Z)) : reply := match b with Some b => RBlob b | None => RNull end.

(** The offset and the length of the range from [start] to [end_], the negative
    ones from the end. *)
Definition range_of (size start end_ : Z) : option (Z * Z) :=
  let s := if start <? 0 then start + size else start in
  let e := if end_ <? 0 then end_ + size else end_ in
  if (e <? s) || (s <? 0) || (size <? s) then None else Some (s, Z.min size (e + 1) - s).

Definition specified_set (B : byte_map) (c : set_context) : reply * byte_map :=
  let k := set_key c in
  let old := shown B k in
  let v := value_bytes (set_value c) in
  match requested_expiry now (set_expiration c) STORAGE_DB_ENTRY_NO_EXPIRY with
  | None => (RError "ERR invalid expire time in 'set' command", B)
  | Some t =>
      let stop := match old with Some _ => nx c | None => xx c end in
      (if get_token c then blob_or_null old else if stop then RNull else ROk,
       if stop then swept now n B k
       else stored cfg now n B k v
              (if keepttl (set_expiration c) && bool_decide (is_Some old) then expiry_of B k else t))
  end.

Definition specified_expire (B : byte_map) (k : list Z) (c : expire_condition) (milliseconds ttl t : Z)
    : reply * byte_map :=
  if expire_refused c (expiry_of B k) milliseconds ttl then (RNumber 0, B)
  else (RNumber 1,
    if milliseconds <=? 0 then delete (n, k) B
    else match shown B k with Some b => <[(n, k) := (b, t)]> B | None => B end).

Definition ttl_of (t : Z) : Z := if t =? STORAGE_DB_ENTRY_NO_EXPIRY then -1 else i64 (t - now).

Definition specified_incr (B : byte_map) (k : list Z) (amount : Z) : reply * byte_map :=
  let '(number, invalid) :=
    match shown B k with
    | Some b => utils_string_to_int64 (take (Z.to_nat STORAGE_DB_CHUNK_MAX_SIZE) b)
    | None => (0, false)
    end in
  if invalid : bool then (RError "ERR value is not an integer or out of range", swept now n B k)
  else if bool_decide (- 2 ^ 63 <= number + amount < 2 ^ 63) then
    (RNumber (number + amount), stored cfg now n B k (dec_signed (number + amount)) (expiry_of B k))
  else (RError "ERR increment or decrement would overflow", swept now n B k).

(** The reply to a command and the map it leaves. *)
Definition specified (B : byte_map) (c : key_command) : reply * byte_map :=
  match c with
  | KGet k => (blob_or_null (shown B k), B)
  | KSet c => specified_set B c
  | KGetSet k v => (blob_or_null (shown B k), stored cfg now n B k (value_bytes v) STORAGE_DB_ENTRY_NO_EXPIRY)
  | KGetDel k => (blob_or_null (shown B k), delete (n, k) B)
  | KGetEx k x =>
      match shown B k with
      | None => (RNull, delete (n, k) B)
      | Some b =>
          match requested_expiry now x (if persist_token x then STORAGE_DB_ENTRY_NO_EXPIRY else expiry_of B k) with
          | Some t => (RBlob b, <[(n, k) := (b, t)]> B)
          | None => (RError "ERR invalid expire time in 'getex' command", B)
          end
      end
  | KSetNx k v =>
      match shown B k with
      | Some _ => (RNumber 0, B)
      | None => (RNumber 1, stored cfg now n B k (value_bytes v) STORAGE_DB_ENTRY_NO_EXPIRY)
      end
  | KSetEx k s v =>
      if s <=? 0 then (RError "ERR invalid expire time in 'setex' command", B)
      else (ROk, stored cfg now n B k (value_bytes v) (i64 (now + i64 (s * 1000))))
  | KPSetEx k ms v =>
      if ms <=? 0 then (RError "ERR invalid expire time in 'psetex' command", B)
      else (ROk, stored cfg now n B k (value_bytes v) (i64 (now + ms)))
  | KAppend k v =>
      let b := default [] (shown B k) ++ value_bytes v in
      (RNumber (zlen b), stored cfg now n B k b (expiry_of B k))
  | KSetRange k o v =>
      if o <? 0 then (RError "ERR offset is out of range", B) else
      let b := setrange_bytes (default [] (shown B k)) o (value_bytes v) in
      (RNumber (zlen b), stored cfg now n B k b STORAGE_DB_ENTRY_NO_EXPIRY)
  | KGetRange k s e =>
      (match shown B k with
       | None => RNull
       | Some b => RBlob (match range_of (zlen b) s e with Some (o, l) => slice b o l | None => [] end)
       end, B)
  | KIncrBy k a => specified_incr B k a
  | KStrLen k => (RNumber (match B !! (n, k) with Some (b, _) => zlen b | None => 0 end), B)
  | KExpire k s c =>
      let ms := i64 (s * 1000) in
      specified_expire B k c ms (ttl_of (expiry_of B k)) (i64 (now + ms))
  | KPExpire k ms c => specified_expire B k c ms (ttl_of (expiry_of B k)) (i64 (now + ms))
  | KExpireAt k s c =>
      let ms := i64 (i64 s * 1000) in
      specified_expire B k c ms (expiry_of B k) ms
  | KPExpireAt k t c => specified_expire B k c (i64 t) (expiry_of B k) (i64 t)
  | KPersist k =>
      (RNumber (if expiry_of B k =? STORAGE_DB_ENTRY_NO_EXPIRY then 0 else 1),
       match shown B k with Some b => <[(n, k) := (b, STORAGE_DB_ENTRY_NO_EXPIRY)]> B | None => B end)
  | KPttl k =>
      (RNumber (match B !! (n, k) with
                | Some (_, t) => if 0 <? t then i64 (t - now) else -1
                | None => -2
                end), B)
  | KExpireTime k =>
      (RNumber (match shown B k with
                | Some _ => if expiry_of B k =? STORAGE_DB_ENTRY_NO_EXPIRY then -1 else Z.quot (expiry_of B k) 1000
                | None => -2
                end), swept now n B k)
  | KPExpireTime k =>
      (RNumber (match shown B k with
                | Some _ => if expiry_of B k =? STORAGE_DB_ENTRY_NO_EXPIRY then -1 else expiry_of B k
                | None => -2
                end), swept now n B k)
  end.

(** The reply when there is no room for a new key. *)
Definition failure (c : key_command) : option string :=
  match c with
  | KSet _ => Some "ERR set failed"%string
  | KGetSet _ _ => Some "ERR getset failed"%string
  | KGetDel _ => Some "ERR getdel failed"%string
  | KGetEx _ _ => Some "ERR getex failed"%string
  | KSetNx _ _ => Some "ERR setnx failed"%string
  | KSetEx _ _ _ => Some "ERR setex failed"%string
  | KPSetEx _ _ _ => Some "ERR psetex failed"%string
  | KAppend _ _ => Some "ERR append failed"%string
  | KIncrBy _ _ => Some "ERR operation failed"%string
  | KExpireTime _ => Some "ERR expiretime failed"%string
  | KPExpireTime _ => Some "ERR pexpiretime failed"%string
  | KGet _ | KSetRange _ _ _ | KGetRange _ _ _ | KStrLen _ | KExpire _ _ _ | KPExpire _ _ _ | KExpireAt _ _ _
  | KPExpireAt _ _ _ | KPersist _ | KPttl _ => None
  end.

(** What the commands ask: the values are not empty and not too long; the
    commands on the expiry find the key (otherwise they leave a slot of the
    hashtable reserved), and GETEX a valid one (otherwise it keeps a reader);
    SETRANGE has room for the key (otherwise its locks stay), and its range and
    the one of GETRANGE are such that they stay in the chunks.  The numbers are
    machine integers. *)
Definition allowed (B : byte_map) (c : key_command) : Prop :=
  match c with
  | KSet c => value_ok (set_value c)
  | KGetSet _ v | KSetNx _ v | KSetEx _ _ v | KPSetEx _ _ v => value_ok v
  | KAppend k v =>
      value_ok v /\ zlen (default [] (shown B k)) + zlen (value_bytes v) <= STORAGE_DB_CHUNK_MAX_SIZE * STORAGE_DB_CHUNK_MAX_SIZE
  | KSetRange k o v =>
      value_ok v /\ o + zlen (value_bytes v) <= STORAGE_DB_CHUNK_MAX_SIZE * STORAGE_DB_CHUNK_MAX_SIZE /\
      padding_fits (zlen (default [] (shown B k))) o /\ ~ refused n B k
  | KGetEx k x =>
      shown B k <> None ->
      requested_expiry now x (if persist_token x then STORAGE_DB_ENTRY_NO_EXPIRY else expiry_of B k) <> None
  | KGetRange k s e =>
      - 2 ^ 63 <= s < 2 ^ 63 /\ - 2 ^ 63 <= e < 2 ^ 63 - 1 /\
      match shown B k with
      | Some b => match range_of (zlen b) s e with Some (o, l) => range_fits (zlen b) o l | None => True end
      | None => True
      end
  | KIncrBy _ a => - 2 ^ 63 <= a < 2 ^ 63
  | KExpire k _ _ | KPExpire k _ _ | KExpireAt k _ _ | KPExpireAt k _ _ | KPersist k => shown B k <> None
  | KGet _ | KGetDel _ | KStrLen _ | KPttl _ | KExpireTime _ | KPExpireTime _ => True
  end.

(** ** The refinement *)

(** The readers a worker has before the command.  APPEND does not let go of the
    one it has on the value it replaces. *)
Context (R : list (Z * list Z)) (HR : few R).

Definition left_reading (B : byte_map) (c : key_command) : list (list Z) :=
  match c with KAppend k _ => match shown B k with Some b => [b] | None => [] end | _ => [] end.

Definition outcome (B : byte_map) (k : list Z) (d : Z) (kept : list (list Z)) (fail : option string)
    (spec : reply * byte_map) (r : reply) (s : session) : Prop :=
  (r = spec.1 /\ exists R', idle hash_fn worker s spec.2 R' (d + 1) /\ R'.*2 = kept ++ R.*2) \/
  (exists message, fail = Some message /\ r = RError message /\ idle hash_fn worker s B R (d + 1) /\ refused n B k).

Lemma specified_outcome B k d fail r B' s :
  idle hash_fn worker s B' R (d + 1) -> outcome B k d [] fail (r, B') r s.
Proof. left. split; [done|]. by exists R. Qed.

Context (Hn : 0 <= n < 2 ^ 32).

Abbreviation idle := (idle hash_fn worker).
Abbreviation active := (active hash_fn worker).
Abbreviation opened := (opened hash_fn worker now n).

(** The end of a command: the transaction is released and the reply is sent. *)
Lemma finish s B d r (Q : reply -> session -> Prop) :
  active s B R d -> (forall s', idle s' B R d -> Q r s') -> runs (_ ← release; mret r) s Q.
Proof.
  intros Ha HQ. eapply runs_bind; [by eapply release_rule|]. intros [] s' Hi. apply runs_ret, HQ, Hi.
Qed.

(** The start of a read-modify-write. *)
Lemma begin_rule s B d k kept fail spec (f : storage_db_op_rmw_status -> Z -> command reply) :
  idle s B R d -> good_key k ->
  (forall st p s', opened s' B R k st p d -> runs (f st p) s' (outcome B k d kept (Some fail) spec)) ->
  runs (_ ← acquire worker;
        r ← rmw_begin hash_fn now n k;
        match r with
        | None => _ ← release; mret (RError fail)
        | Some (st, p) => f st p
        end) s (outcome B k d kept (Some fail) spec).
Proof.
  intros Hi Hk Hf. eapply runs_bind; [by eapply acquire_rule|]. intros [] s1 H1.
  eapply runs_bind; [by eapply rmw_begin_rule|]. intros [[st p]|] s2 H2; [by apply Hf|].
  destruct H2 as [Ha Hr]. eapply finish; [exact Ha|]. intros s3 H3. right.
  exists fail. split_and!; try done. eapply idle_weaken; [|exact H3]. lia.
Qed.

(** The reader a command has on the entry [p], when its key shows a value. *)
Definition reader_of (old : option (list Z)) (p : Z) : list (Z * list Z) :=
  match old with Some b => [(p, b)] | None => [] end.
Definition at_entry (old : option (list Z)) (p : Z) : Prop := match old with Some _ => 0 < p | None => p = 0 end.

Lemma at_entry_eqb old p : at_entry old p -> (p =? 0) = negb (bool_decide (is_Some old)).
Proof. destruct old; cbn; intros Hp; [apply Z.eqb_neq; lia|by apply Z.eqb_eq]. Qed.

Lemma opened_at s B R1 k st p d : opened s B R1 k st p d -> at_entry (shown B k) p.
Proof.
  intros Ho. pose proof (opened_shows _ _ _ _ _ _ _ _ _ _ _ Ho) as Hs. unfold shows in Hs. unfold at_entry.
  destruct (shown B k); [by destruct Hs as (t & _ & ? & _)|done].
Qed.

Lemma prepped_rule {A} s B k st p d (f : Z -> command A) (Q : A -> session -> Prop) :
  opened s B R k st p d ->
  (forall s', opened s' B (reader_of (shown B k) p ++ R) k st p d -> runs (f p) s' Q) ->
  runs (q ← (if p =? 0 then mret p else prep_for_read mono st p); f q) s Q.
Proof.
  intros Ho HQ. pose proof (opened_at _ _ _ _ _ _ _ Ho) as Hp. rewrite (at_entry_eqb _ _ Hp).
  destruct (shown B k) as [b|] eqn:Hb; cbn [reader_of] in HQ.
  - rewrite bool_decide_true by by eexists. cbn [negb].
    eapply runs_bind; [by eapply prep_rule|]. intros q s' [-> Ho']. by apply HQ.
  - cbn. eapply runs_bind; [by apply (runs_ret _ _ (fun q s' => q = p /\ s' = s))|]. intros q s' [-> ->]. by apply HQ.
Qed.

(** The reply that streams the entry a reader holds, and the end of the reader. *)
Lemma reply_rule s B d p old (Q : reply -> session -> Prop) :
  idle s B (reader_of old p ++ R) d -> at_entry old p ->
  (forall s', idle s' B R d -> Q (blob_or_null old) s') ->
  runs (r ← (if p =? 0 then mret RNull else module_redis_command_stream_entry p);
        _ ← (if p =? 0 then mret tt else done_reading p);
        mret r) s Q.
Proof.
  intros Hi Hp HQ. rewrite (at_entry_eqb _ _ Hp). destruct old as [b|]; cbn [reader_of] in Hi.
  - rewrite bool_decide_true by by eexists. cbn [negb].
    eapply (runs_bind _ _ _ (fun r s' => s' = s /\ r = RBlob b)).
    { eapply stream_rule; [eapply idle_reads; [exact Hi|left]|done]. }
    intros r s' [-> ->]. eapply runs_bind; [by eapply done_reading_idle|]. intros [] s1 H1. by apply runs_ret, HQ.
  - cbn. eapply runs_bind; [by apply (runs_ret _ _ (fun r s' => s' = s /\ r = RNull))|].
    intros r s' [-> ->]. eapply runs_bind; [by apply (runs_ret _ _ (fun _ s' => s' = s))|].
    intros _ s' ->. by apply runs_ret, HQ.
Qed.

Lemma get_rule s B d k :
  idle s B R d -> good_key k ->
  runs (get hash_fn worker now mono n k) s (outcome B k d [] None (specified B (KGet k))).
Proof.
  intros Hi Hk. unfold get. eapply runs_bind; [by eapply acquire_rule|]. intros [] s1 H1.
  eapply runs_bind; [by eapply get_for_read_rule|]. intros p s2 H2.
  eapply (runs_bind _ _ _ (fun r s' => r = blob_or_null (shown B k) /\ active s' B R d)).
  - destruct (shown B k) as [b|]; destruct H2 as [Hp H2].
    + destruct (Z.eqb_spec p 0); [lia|]. eapply (runs_bind _ _ _ (fun r s' => s' = s2 /\ r = RBlob b)).
      { eapply stream_rule; [eapply active_reads; [exact H2|left]|done]. }
      intros r s' [-> ->]. eapply runs_bind; [by eapply done_reading_active|]. intros [] s3 H3. by apply runs_ret.
    + subst p. cbn [Z.eqb]. by apply runs_ret.
  - intros r s3 [-> H3]. eapply finish; [exact H3|]. intros s4 H4. apply specified_outcome.
    eapply idle_weaken; [|exact H4]. lia.
Qed.

Lemma getset_rule s B d k v :
  idle s B R d -> good_key k -> value_ok v -> d < 999 ->
  runs (getset hash_fn cfg worker now mono n k v) s (outcome B k d [] (Some "ERR getset failed"%string) (specified B (KGetSet k v))).
Proof.
  intros Hi Hk Hv Hd. unfold getset. apply begin_rule; [done..|]. intros st p s1 H1.
  eapply prepped_rule; [exact H1|]. intros s2 H2.
  eapply runs_bind; [by eapply update_rule|]. intros [] s3 H3.
  eapply runs_bind; [by eapply release_rule|]. intros [] s4 H4.
  eapply reply_rule; [exact H4|by eapply opened_at|]. intros s5 H5. by apply specified_outcome.
Qed.

(** The reply from the entry a reader holds, which it then leaves. *)
Lemma stream_done_rule s B d p b (Q : reply -> session -> Prop) :
  idle s B ((p, b) :: R) d -> (forall s', idle s' B R d -> Q (RBlob b) s') ->
  runs (r ← module_redis_command_stream_entry p; _ ← done_reading p; mret r) s Q.
Proof.
  intros Hi HQ. eapply (runs_bind _ _ _ (fun r s' => s' = s /\ r = RBlob b)).
  { eapply stream_rule; [eapply idle_reads; [exact Hi|left]|done]. }
  intros r s' [-> ->]. eapply runs_bind; [by eapply done_reading_idle|]. intros [] s1 H1. by apply runs_ret, HQ.
Qed.

Lemma swept_none B k : shown B k = None -> swept now n B k = delete (n, k) B.
Proof. intros Hs. unfold swept. by rewrite decide_True. Qed.

Lemma swept_some B k b : shown B k = Some b -> swept now n B k = B.
Proof. intros Hs. unfold swept. by rewrite decide_False by congruence. Qed.

Lemma getdel_rule s B d k :
  idle s B R d -> good_key k -> d < 999 ->
  runs (getdel hash_fn worker now mono n k) s (outcome B k d [] (Some "ERR getdel failed"%string) (specified B (KGetDel k))).
Proof.
  intros Hi Hk Hd. unfold getdel. apply begin_rule; [done..|]. intros st p s1 H1.
  eapply prepped_rule; [exact H1|]. intros s2 H2. pose proof (opened_at _ _ _ _ _ _ _ H2) as Hp.
  rewrite (at_entry_eqb _ _ Hp). cbn [specified]. destruct (shown B k) as [b|] eqn:Hb; cbn.
  - eapply runs_bind; [by eapply delete_rule|]. intros [] s3 H3.
    eapply runs_bind; [by eapply release_rule|]. intros [] s4 H4.
    eapply stream_done_rule; [exact H4|]. intros s5 H5. by apply specified_outcome.
  - eapply runs_bind; [by eapply abort_rule|]. intros [] s3 H3.
    eapply finish; [exact H3|]. intros s4 H4. rewrite swept_none in H4 by done. by apply specified_outcome.
Qed.

(** The expiry of the entry of a session, on a reader or not. *)
Lemma opened_expiry {A} s B R1 k st p d b (f : entry_index -> command A) (Q : A -> session -> Prop) :
  opened s B R1 k st p d -> shown B k = Some b ->
  (forall e, keeps (value e) b -> expiry_time_ms e = expiry_of B k -> runs (f e) s Q) ->
  runs (e ← entry p; f e) s Q.
Proof.
  intros Ho Hb HQ. pose proof (opened_shows _ _ _ _ _ _ _ _ _ _ _ Ho) as Hs. unfold shows in Hs. rewrite Hb in Hs.
  destruct Hs as (t & HB & He).
  apply (runs_bind _ _ _ (fun e s' => s' = s /\ keeps (value e) b /\ expiry_time_ms e = t)).
  { by apply (entry_rule s p b t). }
  intros e s' (-> & Hk & Ht). apply HQ; [done|]. unfold expiry_of. by rewrite Hb, HB.
Qed.

Lemma getex_rule s B d k x :
  idle s B R d -> good_key k -> d < 999 -> allowed B (KGetEx k x) ->
  runs (getex hash_fn worker now mono n k x) s (outcome B k d [] (Some "ERR getex failed"%string) (specified B (KGetEx k x))).
Proof.
  intros Hi Hk Hd Hx. unfold getex. apply begin_rule; [done..|]. intros st p s1 H1.
  eapply prepped_rule; [exact H1|]. intros s2 H2. pose proof (opened_at _ _ _ _ _ _ _ H2) as Hp.
  rewrite (at_entry_eqb _ _ Hp). cbn [specified allowed] in *. destruct (shown B k) as [b|] eqn:Hb; cbn [reader_of] in H2.
  - rewrite bool_decide_true by by eexists. cbn [negb].
    eapply opened_expiry; [exact H2|exact Hb|]. intros e _ ->.
    destruct (requested_expiry now x _) as [t|]; [|by destruct Hx].
    eapply runs_bind2; [by eapply metadata_rule|]. intros [] s3 H3. eapply runs_bind; [by eapply release_rule|]. intros [] s4 H4.
    eapply stream_done_rule; [exact H4|]. intros s5 H5. by apply specified_outcome.
  - cbn. eapply runs_bind; [by eapply abort_rule|]. intros [] s3 H3.
    eapply finish; [exact H3|]. intros s4 H4. rewrite swept_none in H4 by done. by apply specified_outcome.
Qed.

Lemma setnx_rule s B d k v :
  idle s B R d -> good_key k -> value_ok v -> d < 999 ->
  runs (setnx hash_fn cfg worker now mono n k v) s (outcome B k d [] (Some "ERR setnx failed"%string) (specified B (KSetNx k v))).
Proof.
  intros Hi Hk Hv Hd. unfold setnx. apply begin_rule; [done..|]. intros st p s1 H1.
  rewrite (at_entry_eqb _ _ (opened_at _ _ _ _ _ _ _ H1)). cbn [specified].
  destruct (shown B k) as [b|] eqn:Hb; cbn.
  - eapply runs_bind; [by eapply abort_rule|]. intros [] s2 H2. rewrite (swept_some B k b) in H2 by done.
    eapply finish; [exact H2|]. intros s3 H3. by apply specified_outcome.
  - eapply runs_bind; [by eapply update_rule|]. intros [] s2 H2.
    eapply finish; [exact H2|]. intros s3 H3. by apply specified_outcome.
Qed.

(** SETEX and PSETEX, and SET without options. *)
Lemma op_set_reply s B d k v t fail :
  idle s B R d -> good_key k -> value_ok v -> d < 999 ->
  runs (_ ← acquire worker;
        ok ← op_set hash_fn cfg now mono n k v t;
        _ ← release;
        mret (if (ok : bool) then ROk else RError fail)) s
    (outcome B k d [] (Some fail) (ROk, stored cfg now n B k (value_bytes v) t)).
Proof.
  intros Hi Hk Hv Hd. eapply runs_bind; [by eapply acquire_rule|]. intros [] s1 H1.
  eapply runs_bind; [by eapply op_set_rule|]. intros [] s2 H2.
  - eapply finish; [exact H2|]. intros s3 H3. by apply specified_outcome.
  - destruct H2 as [H2 Hr]. eapply finish; [exact H2|]. intros s3 H3. right. by exists fail.
Qed.

Lemma refused_set s B d k r fail :
  idle s B R d -> runs (_ ← acquire worker; _ ← release; mret r) s (outcome B k d [] fail (r, B)).
Proof.
  intros Hi. eapply runs_bind; [by eapply acquire_rule|]. intros [] s1 [H1 _].
  eapply finish; [exact H1|]. intros s2 H2. apply specified_outcome. eapply idle_weaken; [|exact H2]. lia.
Qed.

Lemma setex_rule s B d k sec v :
  idle s B R d -> good_key k -> value_ok v -> d < 999 ->
  runs (setex hash_fn cfg worker now mono n k sec v) s (outcome B k d [] (Some "ERR setex failed"%string) (specified B (KSetEx k sec v))).
Proof.
  intros. unfold setex, specified. destruct (sec <=? 0); [by apply refused_set|by apply op_set_reply].
Qed.

Lemma psetex_rule s B d k ms v :
  idle s B R d -> good_key k -> value_ok v -> d < 999 ->
  runs (psetex hash_fn cfg worker now mono n k ms v) s (outcome B k d [] (Some "ERR psetex failed"%string) (specified B (KPSetEx k ms v))).
Proof.
  intros. unfold psetex, specified. destruct (ms <=? 0); [by apply refused_set|by apply op_set_reply].
Qed.

(** ** SET *)

Lemma set_prep_rule {A} s B k st p d (g : bool) (f : Z -> command A) (Q : A -> session -> Prop) :
  opened s B R k st p d ->
  (forall s', opened s' B ((if g then reader_of (shown B k) p else []) ++ R) k st p d -> runs (f p) s' Q) ->
  runs (q ← (if negb (p =? 0) && g then prep_for_read mono st p else mret p); f q) s Q.
Proof.
  intros Ho HQ. rewrite (at_entry_eqb _ _ (opened_at _ _ _ _ _ _ _ Ho)), negb_involutive.
  destruct (shown B k) as [b|] eqn:Hb, g; cbn [reader_of] in HQ; cbn.
  1: { eapply runs_bind; [by eapply prep_rule|]. intros q s' [-> Ho']. by apply HQ. }
  all: eapply runs_bind; [by apply (runs_ret _ _ (fun q s' => q = p /\ s' = s))|]; intros q s' [-> ->]; by apply HQ.
Qed.

(** The update or the abort. *)
Lemma set_commit_rule s B R1 k st p d v t (stop keep : bool) :
  opened s B R1 k st p d -> value_ok v -> d < 999 ->
  runs (if stop then abort st
        else
          expiry ← (if negb (p =? 0) && keep then e ← entry p; mret (expiry_time_ms e) else mret t);
          commit_update cfg now mono st v expiry) s
    (fun _ s' => active s'
       (if stop then swept now n B k
        else stored cfg now n B k (value_bytes v) (if keep && bool_decide (is_Some (shown B k)) then expiry_of B k else t))
       R1 (d + 1)).
Proof.
  intros Ho Hv Hd. destruct stop; [by eapply abort_rule|].
  rewrite (at_entry_eqb _ _ (opened_at _ _ _ _ _ _ _ Ho)), negb_involutive, andb_comm.
  destruct (keep && bool_decide (is_Some (shown B k))) eqn:Hkeep.
  - apply andb_true_iff in Hkeep as [_ [b Hb]%bool_decide_eq_true].
    eapply (runs_bind _ _ _ (fun t' s' => s' = s /\ t' = expiry_of B k)).
    + eapply opened_expiry; [exact Ho|exact Hb|]. intros e _ ->. by apply runs_ret.
    + intros t' s' [-> ->]. by eapply update_rule.
  - eapply (runs_bind _ _ _ (fun t' s' => s' = s /\ t' = t)); [by apply runs_ret|].
    intros t' s' [-> ->]. by eapply update_rule.
Qed.

(** The reply of SET, and the end of its reader. *)
Lemma set_reply_rule s B d p old (g stop : bool) (Q : reply -> session -> Prop) :
  active s B ((if g then reader_of old p else []) ++ R) d -> at_entry old p ->
  (forall s', idle s' B R d -> Q (if g then blob_or_null old else if stop then RNull else ROk) s') ->
  runs (r ← (if g && negb (p =? 0) then module_redis_command_stream_entry p
             else if stop || (g && (p =? 0)) then mret RNull
             else mret ROk);
        _ ← release;
        _ ← (if negb (p =? 0) && (negb (p =? 0) && g) then done_reading p else mret tt);
        mret r) s Q.
Proof.
  intros Ha Hp HQ. rewrite (at_entry_eqb _ _ Hp), negb_involutive. destruct g; cbn [andb] in *.
  - destruct old as [b|]; cbn in Ha |- *.
    + eapply (runs_bind _ _ _ (fun r s' => s' = s /\ r = RBlob b)).
      { eapply stream_rule; [eapply active_reads; [exact Ha|left]|done]. }
      intros r s' [-> ->]. eapply runs_bind; [by eapply release_rule|]. intros [] s1 H1.
      eapply runs_bind; [by eapply done_reading_idle|]. intros [] s2 H2. by apply runs_ret, HQ.
    + rewrite orb_true_r. eapply (runs_bind _ _ _ (fun r s' => s' = s /\ r = RNull)); [by apply runs_ret|].
      intros r s' [-> ->]. eapply runs_bind; [by eapply release_rule|]. intros [] s1 H1.
      eapply (runs_bind _ _ _ (fun _ s' => s' = s1)); [by apply runs_ret|]. intros _ s' ->. by apply runs_ret, HQ.
  - rewrite orb_false_r, !andb_false_r.
    eapply (runs_bind _ _ _ (fun r s' => s' = s /\ r = if stop then RNull else ROk)); [destruct stop; by apply runs_ret|].
    intros r s' [-> ->]. eapply runs_bind; [by eapply release_rule|]. intros [] s1 H1.
    eapply (runs_bind _ _ _ (fun _ s' => s' = s1)); [by apply runs_ret|]. intros _ s' ->. by apply runs_ret, HQ.
Qed.

Lemma set_rule s B d c :
  idle s B R d -> good_key (set_key c) -> value_ok (set_value c) -> d < 999 ->
  runs (set hash_fn cfg worker now mono n c) s (outcome B (set_key c) d [] (Some "ERR set failed"%string) (specified B (KSet c))).
Proof.
  intros Hi Hk Hv Hd. unfold set. cbn [specified]. unfold specified_set.
  destruct (requested_expiry now (set_expiration c) STORAGE_DB_ENTRY_NO_EXPIRY) as [t|] eqn:Ht; cbn [mbind];
    [|by apply refused_set].
  destruct (negb (keepttl (set_expiration c) || nx c || xx c || get_token c)) eqn:Hplain.
  - apply negb_true_iff, orb_false_iff in Hplain as [[[-> ->]%orb_false_iff ->]%orb_false_iff ->].
    cbn [andb]. destruct (shown B (set_key c)); by apply op_set_reply.
  - apply begin_rule; [done..|]. intros st p s1 H1. cbn zeta.
    eapply set_prep_rule; [exact H1|]. intros s2 H2. pose proof (opened_at _ _ _ _ _ _ _ H2) as Hp.
    assert ((nx c || xx c) && (nx c && negb (p =? 0) || xx c && (p =? 0)) =
      match shown B (set_key c) with Some _ => nx c | None => xx c end) as ->.
    { rewrite (at_entry_eqb _ _ Hp). destruct (shown B (set_key c)), (nx c), (xx c); done. }
    eapply runs_bind; [by eapply set_commit_rule|]. intros [] s3 H3.
    eapply set_reply_rule; [exact H3|exact Hp|]. intros s4 H4. by apply specified_outcome.
Qed.

(** ** Values *)

Lemma value_ok_intro' d b : stores d b -> b <> [] -> value_ok d /\ value_bytes d = b.
Proof. intros Hs Hne. by apply value_ok_intro. Qed.

Lemma keeps_size v b : keeps v b -> seq_size v = zlen b /\ 0 < zlen b <= STORAGE_DB_CHUNK_MAX_SIZE * STORAGE_DB_CHUNK_MAX_SIZE.
Proof.
  intros [[Hs [[-> _]|(l & -> & Hl & _)]] Hne]; [done|]. cbn in Hs |- *. split; [done|]. apply (la_size _ _ Hl).
Qed.

Lemma keeps_intro v b : stores v b -> 0 < zlen b -> keeps v b.
Proof. intros Hs Hb. split; [done|]. intros ->. unfold zlen in Hb. cbn in Hb. lia. Qed.

Lemma stored_reply s B R1 k st p d v b t fail spec :
  opened s B R1 k st p d -> keeps v b -> d < 999 ->
  R1 = R -> spec = (RNumber (zlen b), stored cfg now n B k b t) ->
  runs (_ ← commit_update cfg now mono st v t; _ ← release; mret (RNumber (i64 (seq_size v)))) s
    (outcome B k d [] fail spec).
Proof.
  intros Ho Hv Hd -> ->. destruct (keeps_size v b Hv) as [-> Hb].
  assert (STORAGE_DB_CHUNK_MAX_SIZE = 65535) as HK by done. rewrite swrap_small by mach_lia.
  eapply runs_bind; [by eapply update_rule|]. intros [] s1 H1.
  eapply finish; [exact H1|]. intros s2 H2. by apply specified_outcome.
Qed.

(** What APPEND and SETRANGE take from the current value. *)
Definition is_current (B : byte_map) (k : list Z) (current : option chunk_sequence) : Prop :=
  match current, shown B k with Some v, Some b => stores v b | None, None => True | _, _ => False end.

Lemma is_current_default B k current :
  is_current B k current ->
  match current with Some v => stores v (default [] (shown B k)) | None => default [] (shown B k) = [] end.
Proof. unfold is_current. destruct current, (shown B k); done. Qed.

Lemma append_rule s B d k v :
  idle s B R d -> good_key k -> d < 999 -> allowed B (KAppend k v) ->
  runs (append hash_fn cfg fill worker now mono n k v) s
    (outcome B k d (left_reading B (KAppend k v)) (Some "ERR append failed"%string) (specified B (KAppend k v))).
Proof.
  intros Hi Hk Hd [Hv Hle]. unfold append. apply begin_rule; [done..|]. intros st p s1 H1.
  eapply prepped_rule; [exact H1|]. intros s2 H2.
  eapply (runs_bind _ _ _ (fun x s' => s' = s2 /\ is_current B k x.1 /\ x.2 = expiry_of B k)).
  - rewrite (at_entry_eqb _ _ (opened_at _ _ _ _ _ _ _ H2)). unfold is_current.
    destruct (shown B k) as [b|] eqn:Hb; cbn [reader_of] in H2.
    + rewrite bool_decide_true by by eexists. cbn [negb].
      eapply opened_expiry; [exact H2|exact Hb|]. intros e [He _] Ht. by apply runs_ret.
    + apply runs_ret. unfold expiry_of. by rewrite Hb.
  - intros [current expiry] s3 (-> & Hcur & Hexp). cbn in Hcur, Hexp. subst expiry.
    destruct (append_value_spec fill current v _ _ (is_current_default _ _ _ Hcur) (proj1 Hv)) as (b & Hap & Hst).
    { destruct (keeps_size _ _ Hv). pose proof (zlen_nonneg (default [] (shown B k))). lia. }
    eapply (runs_bind _ _ _ (fun x s' => s' = s2 /\ x = b)); [by eapply runs_look|]. intros x s3 [-> ->].
    assert (keeps b (default [] (shown B k) ++ value_bytes v)) as Hb.
    { apply keeps_intro; [done|]. rewrite zlen_app. destruct (keeps_size _ _ Hv).
      pose proof (zlen_nonneg (default [] (shown B k))). lia. }
    destruct (keeps_size _ _ Hb) as [-> Hsz]. assert (STORAGE_DB_CHUNK_MAX_SIZE = 65535) as HK by done.
    rewrite swrap_small by mach_lia.
    eapply runs_bind; [by eapply update_rule|]. intros [] s3 H3.
    eapply runs_bind; [by eapply release_rule|]. intros [] s4 H4. apply runs_ret. left. split; [done|].
    eexists. split; [exact H4|].
    cbn [left_reading]. by destruct (shown B k).
Qed.

Lemma setrange_rule s B d k o v :
  idle s B R d -> good_key k -> d < 999 -> allowed B (KSetRange k o v) ->
  runs (setrange hash_fn cfg fill worker now mono n k o v) s
    (outcome B k d [] None (specified B (KSetRange k o v))).
Proof.
  intros Hi Hk Hd (Hv & Hle & Hpad & Hroom). unfold setrange. cbn [specified]. destruct (Z.ltb_spec o 0) as [Ho|Ho].
  { apply runs_ret, specified_outcome. eapply idle_weaken; [|exact Hi]. lia. }
  eapply runs_bind; [by eapply acquire_rule|]. intros [] s1 H1.
  eapply runs_bind; [by eapply rmw_begin_rule|]. intros [[st p]|] s2 H2; [|by destruct H2].
  eapply prepped_rule; [exact H2|]. intros s3 H3. pose proof (opened_at _ _ _ _ _ _ _ H3) as Hp.
  eapply (runs_bind _ _ _ (fun x s' => s' = s3 /\ is_current B k x)).
  - rewrite (at_entry_eqb _ _ Hp). unfold is_current.
    destruct (shown B k) as [b|] eqn:Hb; cbn [reader_of] in H3.
    + rewrite bool_decide_true by by eexists. cbn [negb].
      eapply opened_expiry; [exact H3|exact Hb|]. intros e [He _] Ht. by apply runs_ret.
    + by apply runs_ret.
  - intros current s4 [-> Hcur]. destruct (keeps_size _ _ Hv) as [_ Hvb].
    destruct (setrange_value_spec fill current v _ _ o (is_current_default _ _ _ Hcur) (proj1 Hv) Ho ltac:(lia) Hle Hpad)
      as (b & Hap & Hst).
    eapply (runs_bind _ _ _ (fun x s' => s' = s3 /\ x = b)); [by eapply runs_look|]. intros x s4 [-> ->].
    assert (keeps b (setrange_bytes (default [] (shown B k)) o (value_bytes v))) as Hb.
    { apply keeps_intro; [done|]. rewrite setrange_length by done. lia. }
    destruct (keeps_size _ _ Hb) as [-> Hsz]. assert (STORAGE_DB_CHUNK_MAX_SIZE = 65535) as HK by done.
    rewrite swrap_small by mach_lia.
    eapply runs_bind; [by eapply update_rule|]. intros [] s4 H4.
    eapply runs_bind; [by eapply release_rule|]. intros [] s5 H5.
    eapply (runs_bind _ _ _ (fun _ s' => idle s' (stored cfg now n B k (setrange_bytes (default [] (shown B k)) o (value_bytes v))
      STORAGE_DB_ENTRY_NO_EXPIRY) R (d + 1))).
    + rewrite (at_entry_eqb _ _ Hp). destruct (shown B k); cbn in H5 |- *; [by eapply done_reading_idle|].
      apply runs_ret. exact H5.
    + intros _ s6 H6. by apply runs_ret, specified_outcome.
Qed.

Lemma strlen_rule s B d k :
  idle s B R d -> good_key k ->
  runs (strlen hash_fn worker mono n k) s (outcome B k d [] None (specified B (KStrLen k))).
Proof.
  intros Hi Hk. unfold strlen. cbn [specified]. eapply runs_bind; [by eapply acquire_rule|]. intros [] s1 H1.
  eapply runs_bind; [by eapply get_entry_rule|]. intros p s2 [H2 Hp].
  eapply (runs_bind _ _ _ (fun m s' => s' = s2 /\ m = match B !! (n, k) with Some (b, _) => zlen b | None => 0 end)).
  - destruct (B !! (n, k)) as [[b t]|].
    + rewrite (proj2 (Z.eqb_neq p 0)) by (destruct Hp; lia).
      eapply (runs_bind _ _ _ (fun e s' => s' = s2 /\ keeps (value e) b)); [by eapply entry_rule|].
      intros e s' [-> Hv]. apply runs_ret. split; [done|]. destruct (keeps_size _ _ Hv) as [-> Hb].
      assert (STORAGE_DB_CHUNK_MAX_SIZE = 65535) as HK by done. rewrite swrap_small by mach_lia. done.
    + subst p. by apply runs_ret.
  - intros m s3 [-> ->]. eapply finish; [exact H2|]. intros s4 H4. apply specified_outcome.
    eapply idle_weaken; [|exact H4]. lia.
Qed.

(** The arithmetic of GETRANGE on the machine is the one of [range_of]. *)
Lemma getrange_arithmetic size st e :
  0 < size <= STORAGE_DB_CHUNK_MAX_SIZE * STORAGE_DB_CHUNK_MAX_SIZE ->
  - 2 ^ 63 <= st < 2 ^ 63 -> - 2 ^ 63 <= e < 2 ^ 63 - 1 ->
  let range_start := if st <? 0 then i64 (st + i64 size) else st in
  let range_end := if e <? 0 then i64 (e + i64 size) else e in
  let range_length := i64 (range_end - range_start + 1) in
  let clipped := if size <? u64 (i64 (range_start + range_length)) then i64 (i64 size - range_start) else range_length in
  match range_of size st e with
  | None => (range_end <? range_start) || ((size <? u64 range_start) || (range_length <=? 0)) = true
  | Some (o, l) => (range_end <? range_start) = false /\ (size <? u64 range_start) || (range_length <=? 0) = false /\
      range_start = o /\ u64 clipped = l /\ 0 <= o /\ 0 <= l /\ o + l <= size
  end.
Proof.
  intros Hs Hst He. assert (STORAGE_DB_CHUNK_MAX_SIZE = 65535) as HK by done.
  cbn zeta. unfold range_of. rewrite (swrap_small 64 size) by mach_lia.
  assert ((if st <? 0 then i64 (st + size) else st) = if st <? 0 then st + size else st) as ->.
  { destruct (Z.ltb_spec st 0); [|done]. by rewrite swrap_small by mach_lia. }
  assert ((if e <? 0 then i64 (e + size) else e) = if e <? 0 then e + size else e) as ->.
  { destruct (Z.ltb_spec e 0); [|done]. by rewrite swrap_small by mach_lia. }
  set (S := if st <? 0 then st + size else st). set (E := if e <? 0 then e + size else e).
  assert (- 2 ^ 63 <= S < 2 ^ 63) by (unfold S; destruct (Z.ltb_spec st 0); mach_lia).
  assert (- 2 ^ 63 <= E < 2 ^ 63 - 1) by (unfold E; destruct (Z.ltb_spec e 0); mach_lia).
  destruct (Z.ltb_spec E S) as [Hes|Hes]; [done|]. cbn [orb].
  destruct (Z.ltb_spec S 0) as [Hneg|Hpos]; cbn [orb].
  { rewrite (wrap_eq_add 64 S (S + 2 ^ 64) (-1)), wrap_small by mach_lia. destruct (Z.ltb_spec size (S + 2 ^ 64)); [done|mach_lia]. }
  rewrite (wrap_small 64 S) by mach_lia. destruct (Z.ltb_spec size S) as [Hgt|Hle]; [done|]. cbn [orb].
  rewrite (swrap_small 64 (E - S + 1)), (swrap_small 64 (S + (E - S + 1))) by mach_lia.
  rewrite (wrap_small 64 (S + (E - S + 1))), (swrap_small 64 (size - S)) by mach_lia.
  destruct (Z.leb_spec (E - S + 1) 0); [lia|].
  destruct (Z.ltb_spec size (S + (E - S + 1))); rewrite wrap_small by mach_lia; split_and!; try done; lia.
Qed.

Lemma range_reply s b e0 st e :
  keeps (value e0) b -> - 2 ^ 63 <= st < 2 ^ 63 -> - 2 ^ 63 <= e < 2 ^ 63 - 1 ->
  match range_of (zlen b) st e with Some (o, l) => range_fits (zlen b) o l | None => True end ->
  let size := seq_size (value e0) in
  let range_start := if st <? 0 then i64 (st + i64 size) else st in
  let range_end := if e <? 0 then i64 (e + i64 size) else e in
  runs (if range_end <? range_start then mret (RBlob []) else
         let range_length := i64 (range_end - range_start + 1) in
         if (size <? u64 range_start) || (range_length <=? 0) then mret (RBlob []) else
         let range_length :=
           if size <? u64 (i64 (range_start + range_length)) then i64 (i64 size - range_start) else range_length in
         data ← look (fun _ => module_redis_command_stream_entry_range (value e0) range_start (u64 range_length));
         mret (match data with Some b => RBlob b | None => RNothing end)) s
    (fun r s' => s' = s /\ r = RBlob (match range_of (zlen b) st e with Some (o, l) => slice b o l | None => [] end)).
Proof.
  intros Hk Hst He Hfit. cbn zeta. destruct (keeps_size _ _ Hk) as [-> Hb].
  pose proof (getrange_arithmetic (zlen b) st e Hb Hst He) as Ha. cbn zeta in Ha.
  destruct (range_of (zlen b) st e) as [[o l]|].
  - destruct Ha as (-> & -> & -> & -> & Ho & Hl & Hle).
    apply (runs_bind _ _ _ (fun d s' => s' = s /\ d = Some (slice b o l))).
    + eapply runs_look; [|done]. rewrite (stream_entry_range_spec (value e0) b) by (done || lia || apply Hk).
      by rewrite decide_True.
    + intros d s' [-> ->]. by apply runs_ret.
  - apply orb_true_iff in Ha as [->| ->]; [by apply runs_ret|]. case_match; by apply runs_ret.
Qed.

Lemma getrange_rule s B d k st e :
  idle s B R d -> good_key k -> allowed B (KGetRange k st e) ->
  runs (getrange hash_fn worker now mono n k st e) s (outcome B k d [] None (specified B (KGetRange k st e))).
Proof.
  intros Hi Hk (Hst & He & Hfit). unfold getrange. cbn [specified]. eapply runs_bind; [by eapply acquire_rule|].
  intros [] s1 H1. eapply runs_bind; [by eapply get_for_read_rule|]. intros p s2 H2.
  destruct (shown B k) as [b|]; destruct H2 as [Hp H2].
  - rewrite (proj2 (Z.eqb_neq p 0)) by lia.
    destruct (active_reads _ _ _ _ _ _ p b H2 ltac:(left)) as [t Hent].
    eapply (runs_bind _ _ _ (fun r s' => s' = s2 /\ r = RBlob _)).
    + eapply (runs_bind _ _ _ (fun e0 s' => s' = s2 /\ keeps (value e0) b /\ expiry_time_ms e0 = t)); [by eapply entry_rule|].
      intros e0 s' (-> & Hv & <-). by eapply range_reply.
    + intros r s3 [-> ->]. eapply runs_bind; [by eapply done_reading_active|]. intros [] s3 H3.
      eapply finish; [exact H3|]. intros s4 H4. apply specified_outcome. eapply idle_weaken; [|exact H4]. lia.
  - subst p. cbn [Z.eqb]. eapply (runs_bind _ _ _ (fun r s' => s' = s2 /\ r = RNull)); [by apply runs_ret|].
    intros r s3 [-> ->]. eapply (runs_bind _ _ _ (fun _ s' => s' = s2)); [by apply runs_ret|].
    intros _ s3 ->. eapply finish; [exact H2|]. intros s4 H4. apply specified_outcome. eapply idle_weaken; [|exact H4]. lia.
Qed.

(** ** Counters *)

Lemma string_to_int64_range l : - 2 ^ 63 <= (utils_string_to_int64 l).1 < 2 ^ 63.
Proof.
  unfold utils_string_to_int64. case_match; [cbn; lia|]. case_match; [cbn; lia|].
  destruct (match l with c :: l' => _ | [] => _ end) as [sg ds]. case_match; [|cbn; lia].
  case_match; cbn [fst]; [lia|]. pose proof (swrap_range 64 (i64 z * sg) ltac:(lia)). cbn in *. lia.
Qed.

Lemma dec_signed_length x : - 2 ^ 63 <= x < 2 ^ 63 -> 0 < zlen (dec_signed x) <= STORAGE_DB_CHUNK_MAX_SIZE.
Proof.
  intros Hx. assert (STORAGE_DB_CHUNK_MAX_SIZE = 65535) as HK by done.
  assert (forall y, 0 <= y < 2 ^ 64 -> 0 < zlen (dec y) <= 21) as Hd.
  { intros y Hy. pose proof (dec_length_pos y Hy). split; [lia|]. unfold zlen, dec. rewrite digits_length.
    pose proof (ndigits_le y). lia. }
  unfold dec_signed. destruct (Z.ltb_spec x 0); [rewrite zlen_cons|]; specialize (Hd (if x <? 0 then - x else x));
    destruct (Z.ltb_spec x 0); try lia; destruct Hd; mach_lia.
Qed.

(** The test for the overflow, on the sum that has wrapped. *)
Lemma overflow_test number amount :
  - 2 ^ 63 <= number < 2 ^ 63 -> - 2 ^ 63 <= amount < 2 ^ 63 ->
  let new_number := i64 (number + amount) in
  ((0 <? amount) && (new_number <? number)) || ((amount <? 0) && (number <? new_number)) =
    negb (bool_decide (- 2 ^ 63 <= number + amount < 2 ^ 63)) /\
  (- 2 ^ 63 <= number + amount < 2 ^ 63 -> new_number = number + amount).
Proof.
  intros Hn1 Ha. cbn zeta. destruct (decide (- 2 ^ 63 <= number + amount < 2 ^ 63)) as [Hin|Hout].
  - rewrite bool_decide_true, swrap_small by (done || mach_lia). split; [|done]. cbn [negb].
    destruct (Z.ltb_spec 0 amount), (Z.ltb_spec (number + amount) number), (Z.ltb_spec amount 0),
      (Z.ltb_spec number (number + amount)); done || lia.
  - rewrite bool_decide_false by done. split; [|done]. cbn [negb].
    assert (i64 (number + amount) = number + amount - 2 ^ 64 /\ 2 ^ 63 <= number + amount \/
            i64 (number + amount) = number + amount + 2 ^ 64 /\ number + amount < - 2 ^ 63) as Hw.
    { destruct (Z.le_gt_cases (2 ^ 63) (number + amount)); [left|right]; (split; [|lia]);
        [rewrite (swrap_eq_add 64 _ (number + amount - 2 ^ 64) 1) by lia|
         rewrite (swrap_eq_add 64 _ (number + amount + 2 ^ 64) (-1)) by lia]; by rewrite swrap_small by mach_lia. }
    destruct (Z.ltb_spec 0 amount), (Z.ltb_spec (i64 (number + amount)) number), (Z.ltb_spec amount 0),
      (Z.ltb_spec number (i64 (number + amount))); cbn; try done; exfalso; mach_lia.
Qed.

(** The end of a session that is given up. *)
Lemma abort_reply s B k st p d b r fail :
  opened s B R k st p d -> d < 999 -> b = swept now n B k ->
  runs (_ ← abort st; _ ← release; mret r) s (outcome B k d [] fail (r, b)).
Proof.
  intros Ho Hd ->. eapply runs_bind; [by eapply abort_rule|]. intros [] s1 H1.
  eapply finish; [exact H1|]. intros s2 H2. by apply specified_outcome.
Qed.

(** The number a key has. *)
Lemma current_number_rule s B k st p d :
  opened s B R k st p d ->
  runs (if p =? 0 then mret (Some 0, STORAGE_DB_ENTRY_NO_EXPIRY)
         else
           e ← entry p;
           chunk ← look (fun _ => storage_db_chunk_sequence_get (Some (value e)) 0);
           let '(n, invalid) := utils_string_to_int64 chunk in
           mret (if (invalid : bool) then None else Some n, expiry_time_ms e)) s
    (fun x s' => s' = s /\ x.2 = expiry_of B k /\
      x.1 = match shown B k with
            | Some b => let '(n, invalid) := utils_string_to_int64 (take (Z.to_nat STORAGE_DB_CHUNK_MAX_SIZE) b) in
                        if (invalid : bool) then None else Some n
            | None => Some 0
            end).
Proof.
  intros Ho. rewrite (at_entry_eqb _ _ (opened_at _ _ _ _ _ _ _ Ho)).
  destruct (shown B k) as [b|] eqn:Hb; cbn [reader_of] in *.
  - rewrite bool_decide_true by by eexists. cbn [negb].
    eapply opened_expiry; [exact Ho|exact Hb|]. intros e [Hv Hne] Ht.
    eapply (runs_bind _ _ _ (fun c s' => s' = s /\ c = take (Z.to_nat STORAGE_DB_CHUNK_MAX_SIZE) b)).
    { eapply runs_look; [by apply stores_first|done]. }
    intros c s' [-> ->]. destruct (utils_string_to_int64 _) as [m invalid]. by apply runs_ret.
  - apply runs_ret. unfold expiry_of. by rewrite Hb.
Qed.

Lemma incr_rule s B d k a :
  idle s B R d -> good_key k -> d < 999 -> - 2 ^ 63 <= a < 2 ^ 63 ->
  runs (module_redis_command_helper_incr_decr hash_fn cfg fill worker now mono n k a) s
    (outcome B k d [] (Some "ERR operation failed"%string) (specified B (KIncrBy k a))).
Proof.
  intros Hi Hk Hd Ha. unfold module_redis_command_helper_incr_decr. apply begin_rule; [done..|]. intros st p s1 H1.
  eapply runs_bind; [by eapply current_number_rule|]. intros [number expiry] s2 (-> & Hexp & Hnum).
  cbn in Hexp, Hnum. subst expiry. cbn [specified]. unfold specified_incr.
  assert (exists m invalid,
    match shown B k with
    | Some b => utils_string_to_int64 (take (Z.to_nat STORAGE_DB_CHUNK_MAX_SIZE) b)
    | None => (0, false)
    end = (m, invalid) /\ number = (if (invalid : bool) then None else Some m) /\ - 2 ^ 63 <= m < 2 ^ 63) as (m & invalid & -> & -> & Hm).
  { destruct (shown B k) as [b|]; [|exists 0, false; split_and!; try done; lia].
    pose proof (string_to_int64_range (take (Z.to_nat STORAGE_DB_CHUNK_MAX_SIZE) b)) as Hr.
    destruct (utils_string_to_int64 _) as [m invalid]. by exists m, invalid. }
  destruct invalid; [by eapply abort_reply|]. cbn zeta.
  destruct (overflow_test m a Hm Ha) as [-> Hnew].
  destruct (bool_decide (- 2 ^ 63 <= m + a < 2 ^ 63)) eqn:Hin; cbn [negb]; [|by eapply abort_reply].
  apply bool_decide_eq_true in Hin. rewrite (Hnew Hin).
  pose proof (dec_signed_length (m + a) Hin) as Hlen. destruct (write_whole_spec fill (dec_signed (m + a)) Hlen) as (v & Hw & Hv).
  eapply (runs_bind _ _ _ (fun x s' => s' = s1 /\ x = v)); [by eapply runs_look|]. intros x s2 [-> ->].
  eapply runs_bind; [eapply update_rule; [exact H1|apply keeps_intro; [exact Hv|apply Hlen]|done|done]|]. intros [] s2 H2.
  eapply finish; [exact H2|]. intros s3 H3. by apply specified_outcome.
Qed.

(** ** Expiry *)

(** What the four commands that set an expiry have in common. *)
Lemma expire_found_rule s B k st p d b c ms ttl t fail :
  opened s B R k st p d -> shown B k = Some b -> d < 999 ->
  runs (m ← expire_found mono st p (expire_refused c (expiry_of B k) ms ttl) ms t; _ ← release; mret (RNumber m)) s
    (outcome B k d [] fail (specified_expire B k c ms ttl t)).
Proof.
  intros Ho Hb Hd. unfold specified_expire, expire_found. rewrite Hb.
  destruct (expire_refused c (expiry_of B k) ms ttl).
  - eapply (runs_bind _ _ _ (fun m s' => m = 0 /\ active s' B R (d + 1))).
    + eapply runs_bind; [by eapply abort_rule|]. intros [] s1 H1. rewrite (swept_some B k b) in H1 by done. by apply runs_ret.
    + intros m s1 [-> H1]. eapply finish; [exact H1|]. intros s2 H2. by apply specified_outcome.
  - set (B' := if ms <=? 0 then delete (n, k) B else <[(n, k) := (b, t)]> B).
    eapply (runs_bind _ _ _ (fun m s' => m = 1 /\ active s' B' R (d + 1))).
    + subst B'. destruct (ms <=? 0).
      * eapply runs_bind2; [by eapply expire_delete_rule|]. intros [] s1 H1. by apply runs_ret.
      * eapply runs_bind2; [by eapply metadata_rule|]. intros [] s1 H1. by apply runs_ret.
    + intros m s1 [-> H1]. eapply finish; [exact H1|]. intros s2 H2. by apply specified_outcome.
Qed.

(** The commands that need the key to have a value: [g] is what they do. *)
Lemma expire_start s B d k b fail spec (none : command reply)
    (g : storage_db_op_rmw_status -> Z -> entry_index -> command Z) :
  idle s B R d -> good_key k -> shown B k = Some b ->
  (forall st p s' e, opened s' B R k st p d -> expiry_time_ms e = expiry_of B k ->
     runs (m ← g st p e; _ ← release; mret (RNumber m)) s' (outcome B k d [] fail spec)) ->
  runs (_ ← acquire worker;
        r ← rmw_begin hash_fn now n k;
        match r with
        | None => none
        | Some (st, p) => m ← (if p =? 0 then mret 0 else e ← entry p; g st p e); _ ← release; mret (RNumber m)
        end) s (outcome B k d [] fail spec).
Proof.
  intros Hi Hk Hb Hg. eapply runs_bind; [by eapply acquire_rule|]. intros [] s1 H1.
  eapply runs_bind; [by eapply rmw_begin_rule|]. intros [[st p]|] s2 H2.
  - rewrite (at_entry_eqb _ _ (opened_at _ _ _ _ _ _ _ H2)), Hb, bool_decide_true by by eexists. cbn [negb].
    pose proof (opened_shows _ _ _ _ _ _ _ _ _ _ _ H2) as Hs. unfold shows in Hs. rewrite Hb in Hs.
    destruct Hs as (t & HB & _ & e & He & _ & Ht).
    apply (runs_step _ (g st p e)); [|apply Hg; [done|]].
    + unfold mbind, command_bind, entry, look. by rewrite He.
    + rewrite Ht. unfold expiry_of. by rewrite Hb, HB.
  - destruct H2 as [_ [HBk _]]. unfold seen in Hb. by rewrite HBk in Hb.
Qed.

Lemma expires_rule s B d k b (c : expire_condition) (arg : Z) :
  idle s B R d -> good_key k -> shown B k = Some b -> d < 999 ->
  runs (expire hash_fn worker now mono n k arg c) s (outcome B k d [] None (specified B (KExpire k arg c))) /\
  runs (pexpire hash_fn worker now mono n k arg c) s (outcome B k d [] None (specified B (KPExpire k arg c))) /\
  runs (expireat hash_fn worker now mono n k arg c) s (outcome B k d [] None (specified B (KExpireAt k arg c))) /\
  runs (pexpireat hash_fn worker now mono n k arg c) s (outcome B k d [] None (specified B (KPExpireAt k arg c))).
Proof.
  intros Hi Hk Hb Hd. cbn [specified]. unfold expire, pexpire, expireat, pexpireat.
  split_and!; (eapply expire_start; [exact Hi|exact Hk|exact Hb|]); intros st p s' e Ho Ht; cbn zeta;
    try unfold storage_db_entry_index_ttl_ms; rewrite Ht; by eapply expire_found_rule.
Qed.

Lemma persist_rule s B d k b :
  idle s B R d -> good_key k -> shown B k = Some b -> d < 999 ->
  runs (persist hash_fn worker now mono n k) s (outcome B k d [] None (specified B (KPersist k))).
Proof.
  intros Hi Hk Hb Hd. cbn [specified]. unfold persist. rewrite Hb.
  eapply expire_start; [exact Hi|exact Hk|exact Hb|]. intros st p s1 e Ho Ht. cbn beta. rewrite Ht.
  destruct (Z.eqb_spec (expiry_of B k) STORAGE_DB_ENTRY_NO_EXPIRY) as [Hno|].
  - eapply (runs_bind _ _ _ (fun m s' => m = 0 /\ active s' B R (d + 1))).
    + eapply runs_bind; [by eapply abort_rule|]. intros [] s2 H2. rewrite (swept_some B k b) in H2 by done. by apply runs_ret.
    + intros m s2 [-> H2]. eapply finish; [exact H2|]. intros s3 H3.
      rewrite insert_id; [by apply specified_outcome|].
      unfold expiry_of in Hno. destruct (seen_Some _ _ _ _ Hb) as (t & HB & _). rewrite Hb, HB in Hno. by rewrite HB, Hno.
  - eapply (runs_bind _ _ _ (fun m s' => m = 1 /\ active s' _ R (d + 1))).
    + eapply runs_bind2; [by eapply metadata_rule|]. intros [] s2 H2. apply runs_ret. split; [done|exact H2].
    + intros m s2 [-> H2]. eapply finish; [exact H2|]. intros s3 H3. by apply specified_outcome.
Qed.

Lemma pttl_rule s B d k :
  idle s B R d -> good_key k ->
  runs (pttl hash_fn worker now mono n k) s (outcome B k d [] None (specified B (KPttl k))).
Proof.
  intros Hi Hk. unfold pttl. cbn [specified]. eapply runs_bind; [by eapply acquire_rule|]. intros [] s1 H1.
  eapply runs_bind; [by eapply get_entry_rule|]. intros p s2 [H2 Hp].
  eapply (runs_bind _ _ _ (fun m s' => s' = s2 /\ m = match B !! (n, k) with
    | Some (_, t) => if 0 <? t then i64 (t - now) else -1 | None => -2 end)).
  - destruct (B !! (n, k)) as [[b t]|].
    + rewrite (proj2 (Z.eqb_neq p 0)) by (destruct Hp; lia).
      eapply (runs_bind _ _ _ (fun e s' => s' = s2 /\ expiry_time_ms e = t)); [by eapply entry_rule|].
      intros e s' [-> Ht]. apply runs_ret. by rewrite Ht.
    + subst p. by apply runs_ret.
  - intros m s3 [-> ->]. eapply finish; [exact H2|]. intros s4 H4. apply specified_outcome.
    eapply idle_weaken; [|exact H4]. lia.
Qed.

(** EXPIRETIME and PEXPIRETIME: [g] is what they reply of the expiry. *)
Lemma expiretime_start s B d k fail (g : Z -> Z) :
  idle s B R d -> good_key k -> d < 999 ->
  runs (_ ← acquire worker;
        r ← rmw_begin hash_fn now n k;
        match r with
        | None => _ ← release; mret (RError fail)
        | Some (st, p) =>
            m ← (if p =? 0 then mret (-2) else e ← entry p; mret (g (expiry_time_ms e)));
            _ ← abort st;
            _ ← release;
            mret (RNumber m)
        end) s
    (outcome B k d [] (Some fail)
      (RNumber (match shown B k with Some _ => g (expiry_of B k) | None => -2 end), swept now n B k)).
Proof.
  intros Hi Hk Hd. apply begin_rule; [done..|]. intros st p s1 H1.
  eapply (runs_bind _ _ _ (fun m s' => s' = s1 /\ m = match shown B k with Some _ => g (expiry_of B k) | None => -2 end)).
  - rewrite (at_entry_eqb _ _ (opened_at _ _ _ _ _ _ _ H1)). destruct (shown B k) as [b|] eqn:Hb.
    + rewrite bool_decide_true by by eexists. cbn [negb].
      eapply opened_expiry; [exact H1|exact Hb|]. intros e _ ->. by apply runs_ret.
    + by apply runs_ret.
  - intros m s2 [-> ->]. by eapply abort_reply.
Qed.

Lemma expiretime_rule s B d k :
  idle s B R d -> good_key k -> d < 999 ->
  runs (expiretime hash_fn worker now n k) s (outcome B k d [] (Some "ERR expiretime failed"%string) (specified B (KExpireTime k))) /\
  runs (pexpiretime hash_fn worker now n k) s (outcome B k d [] (Some "ERR pexpiretime failed"%string) (specified B (KPExpireTime k))).
Proof.
  intros Hi Hk Hd. split.
  - by apply (expiretime_start s B d k _ (fun t => if t =? STORAGE_DB_ENTRY_NO_EXPIRY then -1 else Z.quot t 1000)).
  - by apply (expiretime_start s B d k _ (fun t => if t =? STORAGE_DB_ENTRY_NO_EXPIRY then -1 else t)).
Qed.

Lemma key_command_rule s B d c :
  idle s B R d -> good_key (key_of c) -> allowed B c -> d < 999 ->
  runs (execute c) s (outcome B (key_of c) d (left_reading B c) (failure c) (specified B c)).
Proof.
  intros Hi Hk Ha Hd. destruct c; cbn [execute key_of failure allowed left_reading] in *.
  - by apply get_rule.
  - by apply set_rule.
  - by apply getset_rule.
  - by apply getdel_rule.
  - by apply getex_rule.
  - by apply setnx_rule.
  - by apply setex_rule.
  - by apply psetex_rule.
  - by apply append_rule.
  - by apply setrange_rule.
  - by apply getrange_rule.
  - by apply incr_rule.
  - by apply strlen_rule.
  - destruct (shown B k) as [b|] eqn:Hb; [|done].
    exact (proj1 (expires_rule s B d k b _ _ Hi Hk Hb Hd)).
  - destruct (shown B k) as [b|] eqn:Hb; [|done].
    exact (proj1 (proj2 (expires_rule s B d k b _ _ Hi Hk Hb Hd))).
  - destruct (shown B k) as [b|] eqn:Hb; [|done].
    exact (proj1 (proj2 (proj2 (expires_rule s B d k b _ _ Hi Hk Hb Hd)))).
  - destruct (shown B k) as [b|] eqn:Hb; [|done].
    exact (proj2 (proj2 (proj2 (expires_rule s B d k b _ _ Hi Hk Hb Hd)))).
  - destruct (shown B k) as [b|] eqn:Hb; [|done]. by eapply persist_rule.
  - by apply pttl_rule.
  - by apply expiretime_rule.
  - by apply expiretime_rule.
Qed.

End refinement.

(** ** A run of a worker *)

(** A command of a client whose connection has selected a database, at a time;
    or the worker collects the deleted entries. *)
Inductive issued :=
  | Issue (now mono database_number : Z) (c : key_command)
  | Collect.

Section run.
Context (hash_fn : Z -> list Z -> Z) (cfg : config) (fill worker : Z).

Definition run_issued (i : issued) : command reply :=
  match i with
  | Issue now mono n c => execute hash_fn cfg fill worker now mono n c
  | Collect =>
      _ ← change storage_db_worker_garbage_collect_deleting_entry_index_when_no_readers;
      mret RNothing
  end.

Fixpoint run_all (l : list issued) : command (list reply) :=
  match l with
  | [] => mret []
  | i :: l => r ← run_issued i; rs ← run_all l; mret (r :: rs)
  end.

(** The map, and the values of the readers nobody will let go of. *)
Abbreviation abstract := (byte_map * list (list Z))%type.

Inductive key_step : abstract -> issued -> reply -> abstract -> Prop :=
  | step_done B K now mono n c :
      key_step (B, K) (Issue now mono n c) (specified cfg now n B c).1
        ((specified cfg now n B c).2, left_reading now n B c ++ K)
  | step_refused B K now mono n c message : failure c = Some message -> refused n B (key_of c) ->
      key_step (B, K) (Issue now mono n c) (RError message) (B, K)
  | step_collected B K : key_step (B, K) Collect RNothing (B, K).

Inductive key_steps : abstract -> list issued -> list reply -> abstract -> Prop :=
  | key_steps_nil a : key_steps a [] [] a
  | key_steps_cons a a' a'' i l r rs :
      key_step a i r a' -> key_steps a' l rs a'' -> key_steps a (i :: l) (r :: rs) a''.

Definition issued_ok (i : issued) : Prop :=
  match i with Issue _ _ n c => 0 <= n < 2 ^ 32 /\ good_key (key_of c) | Collect => True end.

Definition issued_allowed (B : byte_map) (i : issued) : Prop :=
  match i with Issue now _ n c => allowed now n B c | Collect => True end.

(** The session between two commands: the database stands for the map, the
    readers left have the values [K], and no lock is held. *)
Definition at_rest (s : session) (B : byte_map) (K : list (list Z)) : Prop :=
  exists R d, idle hash_fn worker s B R d /\ R.*2 = K.

Abbreviation waiting s := (zlen (deleting_entry_index_list (s_db s))).

Lemma idle_exact s B R d : idle hash_fn worker s B R d -> idle hash_fn worker s B R (waiting s).
Proof. intros [[Hst [Hw _]] Hu]. split; [split; [done|split; [done|lia]]|done]. Qed.

Lemma collect_rule s B R :
  idle hash_fn worker s B R (waiting s) -> waiting s <= 1000 ->
  runs (run_issued Collect) s (fun r s' => r = RNothing /\ idle hash_fn worker s' B R (zlen R)).
Proof.
  intros [[(P & L & M & H & Hinv & HB & HR) [Hw _]] Hu] Hd. cbn [run_issued].
  destruct (collect_left _ L H (so_heap _ _ _ (di_sound _ _ _ _ _ _ Hinv)) Hd) as (db & Hc & Hi & Hs & _ & Hle).
  eapply (runs_bind _ _ _ (fun _ s' => idle hash_fn worker s' B R (zlen R))); [|intros _ s' Hs'; by apply runs_ret].
  eexists (Session db (s_manager s) (s_transaction s)), tt. unfold change. rewrite Hc. split; [done|]. split.
  - split; [exists P, L, M, H; split; [by eapply db_inv_step|done]|]. split; [done|].
    by rewrite <- (holding_length _ _ HR).
  - unfold unlocked in *. cbn [s_db]. by destruct Hs as (-> & _).
Qed.

Lemma run_issued_spec s B K i :
  at_rest s B K -> issued_ok i -> issued_allowed B i -> waiting s < 999 -> few K ->
  runs (run_issued i) s (fun r s' => exists B' K', key_step (B, K) i r (B', K') /\ at_rest s' B' K' /\
    zlen K' <= zlen K + 1).
Proof.
  intros (R & d & Hi%idle_exact & <-) Hok Ha Hd Hf. assert (few R) as HR by (unfold few, zlen in *; by rewrite length_fmap in Hf).
  destruct i as [now mono n c|].
  - destruct Hok as [Hn Hk].
    eapply runs_weaken; [by apply (key_command_rule hash_fn cfg fill worker now mono n R HR Hn s B (waiting s) c)|].
    intros r s' [[-> (R' & Hi' & HK)]|(message & Hm & -> & Hi' & Hr)].
    + eexists _, _. split; [apply step_done|]. split; [by exists R', (waiting s + 1)|]. rewrite zlen_app.
      unfold left_reading. destruct c; cbn; try (unfold zlen; cbn; lia). case_match; unfold zlen; cbn; lia.
    + eexists _, _. split; [by apply step_refused|]. split; [by exists R, (waiting s + 1)|]. lia.
  - eapply runs_weaken; [by apply (collect_rule s B R); [|lia]|]. intros r s' [-> Hi'].
    exists B, R.*2. split; [constructor|]. split; [by exists R, (zlen R)|lia].
Qed.

(** The commands may be issued, whatever the replies. *)
Fixpoint may_run (a : abstract) (l : list issued) : Prop :=
  match l with
  | [] => True
  | i :: l => issued_ok i /\ issued_allowed a.1 i /\ forall r a', key_step a i r a' -> may_run a' l
  end.

Lemma run_all_spec l : forall s B K,
  at_rest s B K -> may_run (B, K) l -> zlen K + zlen l < 2 ^ 31 - 1 ->
  exists done rest s' rs B' K', l = done ++ rest /\ run_all done s = Some (s', rs) /\
    key_steps (B, K) done rs (B', K') /\ at_rest s' B' K' /\ (rest = [] \/ 999 <= waiting s').
Proof.
  induction l as [|i l IH]; intros s B K Hr Hok Hlen.
  { exists [], [], s, [], B, K. split_and!; try done; [constructor|by left]. }
  destruct Hok as (Hi & Ha & Hl). rewrite zlen_cons in Hlen. pose proof (zlen_nonneg l).
  destruct (decide (waiting s < 999)) as [Hd|Hd].
  - destruct (run_issued_spec s B K i Hr Hi Ha Hd) as (s1 & r & Hrun & B1 & K1 & Hst & Hr1 & HK1).
    { unfold few. lia. }
    destruct (IH s1 B1 K1 Hr1 (Hl _ _ Hst)) as (done & rest & s' & rs & B' & K' & -> & Hruns & Hsts & Hr' & Hrest); [lia|].
    exists (i :: done), rest, s', (r :: rs), B', K'. split_and!; try done.
    + cbn [run_all]. unfold mbind, command_bind. rewrite Hrun. cbn [mbind option_bind]. by rewrite Hruns.
    + by econstructor.
  - exists [], (i :: l), s, [], B, K. split_and!; try done; [constructor|]. right. lia.
Qed.

End run.

Lemma new_at_rest hash_fn worker keys_hard_limit mgr :
  1 <= keys_hard_limit <= 2 ^ 63 -> in_u 16 (manager_worker worker mgr) ->
  exists db, storage_db_new keys_hard_limit = Some db /\
    forall tx, at_rest hash_fn worker (Session db mgr tx) ∅ [].
Proof.
  intros Hl Hw. destruct (new_idle hash_fn keys_hard_limit Hl) as (db & Hnew & (P & L & Hinv) & Hu).
  exists db. split; [done|]. intros tx. exists [], (zlen (deleting_entry_index_list db)).
  split; [|done]. split; [|done]. split; [|done]. exists P, L, ∅, []. split; [done|].
  split; [apply map_Forall2_empty|constructor].
Qed.

(** ** Properties *)


(** A counter set, extended and increased, then read: 12, 123, 127. *)
Definition example_run : list issued :=
  [Issue 100 1 0 (KSetNx [65] (text [49; 50])); Issue 101 2 0 (KAppend [65] (text [51]));
   Issue 102 3 0 (KIncrBy [65] 4); Issue 103 4 0 (KGet [65]); Collect].

(** [transaction_t transaction = { 0 }]. *)
Definition no_transaction : transaction := Tx 0 0 0 [].

Lemma text_ok b : 0 < zlen b <= STORAGE_DB_CHUNK_MAX_SIZE -> value_ok (text b).
Proof. intros Hb. apply (value_ok_intro (text b) b), keeps_intro; [by apply stores_one|lia]. Qed.

Lemma letter_good c : c <> 0 -> good_key [c].
Proof. intros Hc. split; [done|]. by repeat constructor. Qed.

Lemma may_run_step cfg B K now mono n c l :
  0 <= n < 2 ^ 32 -> good_key (key_of c) -> allowed now n B c -> (size B < 448)%nat ->
  may_run cfg ((specified cfg now n B c).2, left_reading now n B c ++ K) l ->
  may_run cfg (B, K) (Issue now mono n c :: l).
Proof.
  intros Hn Hk Ha Hs Hl. split; [done|]. split; [done|]. intros r a' Hst. inversion Hst; subst; [done|].
  match goal with H : refused _ _ _ |- _ => destruct H as [_ Hf] end. lia.
Qed.

Lemma example_may_run : may_run (Config 0 0) (∅, []) example_run.
Proof.
  unfold example_run.
  apply may_run_step; [done|by apply letter_good|by apply text_ok|vm_compute; lia|].
  apply may_run_step; [done|by apply letter_good|split; [by apply text_ok|vm_compute; done]|vm_compute; lia|].
  apply may_run_step; [done|by apply letter_good|done|vm_compute; lia|].
  apply may_run_step; [done|by apply letter_good|done|vm_compute; lia|].
  split; [done|]. split; [done|]. done.
Qed.


(** A session that is left open, once its transaction is released. *)
Lemma left_open hash_fn worker now n s B R k st p d :
  opened hash_fn worker now n s B R k st p d -> B !! (n, k) = None ->
  p = 0 /\ lost_slot (hashtable (s_db s)) /\
  runs release s (fun _ s' => lost_slot (hashtable (s_db s')) /\ unlocked (hashtable (s_db s'))).
Proof.
  intros Ho HB. pose proof (opened_shows _ _ _ _ _ _ _ _ _ _ _ Ho) as Hp. unfold shows, seen in Hp. rewrite HB in Hp.
  destruct Ho as [(P & L & M & H & Hop & HBM & _) _ Hs]. pose proof (bytes_lookup M B (n, k) HBM) as Hk.
  rewrite HB in Hk. assert (P !! (n, k) = None) as HP.
  { destruct (P !! (n, k)) as [q|] eqn:Hq; [|done].
    destruct (proj1 (lk_is_Some P L M (n, k) (ro_links _ _ _ _ _ _ _ _ _ _ _ Hop)) ltac:(by eexists)) as [[v t] HM].
    by rewrite HM in Hk. }
  pose proof (rs_reserved _ _ _ _ _ _ _ (ro_session _ _ _ _ _ _ _ _ _ _ _ Hop) HP) as Hlost.
  split; [exact Hp|]. split; [exact Hlost|]. unfold runs, release.
  destruct (release_solo (hashtable (s_db s)) (s_transaction s) Hs) as [tx ->]. cbn [mbind option_bind].
  eexists _, tt. split; [done|]. split; [exact Hlost|]. unfold unlocked. cbn. by rewrite length_replicate.
Qed.

(** EXPIRE of a key that is not there leaks a slot.  The command replies 0
    and releases its locks, but neither aborts nor commits the session it
    began: the slot of the hashtable that was reserved for the key stays taken,
    for no key, although no slot was lost before; as a chunk looks for room for
    a key in 448 slots, as many of these commands leave no room for new keys. *)
Theorem expire_missing_key_loses_slot (hash_fn : Z -> list Z -> Z) (worker now mono n : Z) (s : session)
    (B : byte_map) (K : list (list Z)) (k : list Z) (seconds : Z) (c : expire_condition) :
  at_rest hash_fn worker s B K -> good_key k -> B !! (n, k) = None -> (size B < 448)%nat ->
  ~ lost_slot (hashtable (s_db s)) /\
  exists s', expire hash_fn worker now mono n k seconds c s = Some (s', RNumber 0) /\
    unlocked (hashtable (s_db s')) /\ lost_slot (hashtable (s_db s')).
Proof.
  intros (R & d & Hi & _) Hk HB Hsz. split.
  { destruct Hi as [[(P & L & M & H & Hinv & _) _] _]. exact (no_lost_slot _ _ (di_table _ _ _ _ _ _ Hinv)). }
  assert (runs (expire hash_fn worker now mono n k seconds c) s
    (fun r s' => r = RNumber 0 /\ unlocked (hashtable (s_db s')) /\ lost_slot (hashtable (s_db s')))) as (s' & r & Hrun & -> & Hq);
    [|by exists s'].
  unfold expire. eapply runs_bind; [by eapply acquire_rule|]. intros [] s1 H1.
  eapply runs_bind; [by eapply rmw_begin_rule|]. intros [[st p]|] s2 H2.
  - destruct (left_open _ _ _ _ _ _ _ _ _ _ _ H2 HB) as (-> & _ & Hrel). cbn [Z.eqb].
    eapply (runs_bind _ _ _ (fun m s' => m = 0 /\ s' = s2)); [by apply runs_ret|]. intros m s' [-> ->].
    eapply runs_bind; [exact Hrel|]. intros [] s3 [Hl Hu]. by apply runs_ret.
  - destruct H2 as [_ [_ Hf]]. lia.
Qed.

Lemma expire_missing_key_loses_slot_witness :
  exists db, storage_db_new 8 = Some db /\
    ~ lost_slot (hashtable db) /\
    exists s', expire toy_hash 0 100 1 0 [65] 10 (ExpireCondition false false false false)
        (Session db (Manager 0 0 true) no_transaction) = Some (s', RNumber 0) /\
      unlocked (hashtable (s_db s')) /\ lost_slot (hashtable (s_db s')).
Proof.
  destruct (new_at_rest toy_hash 0 8 (Manager 0 0 true) ltac:(lia) ltac:(cbv; split; done)) as (db & Hnew & Hr).
  exists db. split; [done|].
  exact (expire_missing_key_loses_slot toy_hash 0 100 1 0 (Session db (Manager 0 0 true) no_transaction) ∅ [] [65] 10
    (ExpireCondition false false false false) (Hr no_transaction) (letter_good 65 ltac:(lia)) eq_refl
    ltac:(vm_compute; lia)).
Defined.

(** The replies of the example, by evaluation. *)
Example example_run_replies :
  (db ← storage_db_new 8;
   '(_, rs) ← run_all toy_hash (Config 0 0) 7 0 example_run (Session db (Manager 0 0 true) no_transaction);
   Some rs) =
  Some [RNumber 1; RNumber 3; RNumber 127; RBlob [49; 50; 55]; RNothing].
Proof. vm_compute. reflexivity. Qed.

(** MSETNX of a repeated key stores it twice: the second session does not see
    the slot the first one has reserved.  The key is still there once it has
    been deleted. *)
Example msetnx_repeated_key :
  (db ← storage_db_new 8;
   '(s, rs) ← (a ← msetnx toy_hash (Config 0 0) 0 100 1 0 [([65], text [1]); ([65], text [2])];
               b ← del toy_hash 0 0 [[65]];
               c ← get toy_hash 0 101 2 0 [65];
               mret [a; b; c]) (Session db (Manager 0 0 true) no_transaction);
   Some rs) =
  Some [RNumber 1; RNumber 1; RBlob [2]].
Proof. vm_compute. reflexivity. Qed.

End RedisCommandsSpec.
